(* ===== verification/_CoqProject ===== *)
-Q . S2P
Prelude.v
Text.v
Float.v
Errors.v
Admission.v
RateLimit.v
RateLimitProps.v
Outlier.v
OutlierProps.v
Priority.v
PriorityProps.v
Sequence.v
Pick.v
PickProps.v
Dispatch.v
DispatchProps.v
Collector.v
Queue.v
QueueProps.v
Health.v
Registry.v
RegistryProps.v
RegistryRace.v
Status.v
Validation.v
Lifecycle.v
LifecycleProps.v
Reconcile.v
ReconcileProps.v
Upload.v
UploadProps.v
Cors.v
CorsProps.v
Access.v
ClientIp.v
Deadline.v
Routes.v
Stack.v
Json.v
Ensemble.v
EnsembleProps.v
EnsembleRules.v
EnsembleRulesProps.v
EnsembleRun.v
EnsembleRunProps.v
EnsembleFlow.v
EnsembleOrder.v
PlanCache.v
PlanCacheProps.v
Lpm.v
Range.v
Warmup.v
WarmupProps.v
Watcher.v
WatcherProps.v
Transport.v
TransportProps.v
TransportStreams.v
Config.v
ConfigProps.v
ConfigApi.v
ConfigApiProps.v
ServerViewProps.v
ConfigPatchProps.v
