(* ===== verification/Prelude.v ===== *)
(** * lite-server: a verification library

    lite-server serves machine-learning models over HTTP and gRPC from pools of
    worker processes.  This library models the part of it that decides: who may send
    a request and with which address, deadline and quota, which requests are
    accepted, in which order they are dispatched, how they are grouped into batches,
    which worker gets them, what happens when a worker fails, and which versions of
    a model are loaded and serve.  Every definition is an executable translation of
    the Rust code named next to it; stateful code is explicit state passing (a state
    and error monad for the worker lifecycle), fallible code returns [result], code
    that races is a step relation.

    ** The program and the files

    An HTTP request passes the layers (CORS, admission, draining, access control,
    decompression of the body), is routed by its path and method, checked against the model's keys and rate limit, and submitted to the
    queue of its model version ([InferenceQueue::try_submit]).  There it waits in a
    bounded priority channel, is taken by the version's batch collector, dispatched
    to a worker picked from the pool and answered on its own channel.  Health checks
    and the outlier state take workers out of rotation; the registry and the status
    coordinator turn that into what clients and load balancers see.  Reconciliation
    compares the repository on disk with the registry and loads and unloads versions
    through the worker manager.

    - [Prelude.v]: the [result] type, machine-width counters ([wrap64], [fetch_add],
      [fetch_sub]: [AtomicUsize] wraps at 2^64), clocks in nanoseconds, hash map
      iteration order ([MapIter]: any permutation of the entries), counting, shared
      lemmas, tactics and the hint database [lite].
    - [Text.v], [Float.v]: what the code uses of [str] (parsing, splitting, ordering)
      and of [f32]/[f64] (IEEE 754, executable).
    - [Errors.v]: [AppError] and its HTTP, JSON and gRPC renderings
      ([src/src/error.rs], [src/src/protocol], [src/src/grpc/error.rs]).
    - [Admission.v]: the in-flight cap of [src/src/admission.rs] as atomic steps.
    - [RateLimit.v], [RateLimitProps.v]: the token buckets of [src/src/rate_limit.rs]
      and the two gates that use them.
    - [Outlier.v], [OutlierProps.v]: [OutlierState] of [src/src/inference_queue.rs]:
      circuit breaker per worker slot, recycle tickets, liveness, kill streak.
    - [Priority.v], [PriorityProps.v]: [priority_channel], [PrioritySender],
      [PriorityReceiver], their specification [Priority.Spec] and the wake-up protocol.
    - [Sequence.v]: [SequenceRegistry] of [src/src/sequence.rs].
    - [Pick.v], [PickProps.v]: the pickers ([pick_worker] and its parts,
      [pick_streaming_worker] of [src/src/worker/routing.rs]).
    - [Dispatch.v], [DispatchProps.v]: [do_send_batch], [send_batch_with_retry], the
      recycle budget and the stream cap.
    - [Collector.v]: [batch_collector], queue timeouts, the adaptive batch timeout.
    - [Queue.v], [QueueProps.v]: [InferenceQueue]: registration, submission, drain,
      in-flight guards, keys.
    - [Health.v]: [health_checker], [escalate_to_kill], [recycle_worker].
    - [Registry.v], [RegistryProps.v]: [ModelRegistry] of [src/src/registry], the
      replacement of a removed version ([src/src/server/mod.rs]) and the snapshot of
      [src/src/registry/cache.rs].  [RegistryRace.v]: activation and removal as the locked
      parts they are, interleaved with the other calls.
    - [Status.v]: the status coordinator and the health surfaces of
      [src/src/worker/health.rs].
    - [Validation.v]: names that reach the file system ([src/src/validation.rs]).
    - [Lifecycle.v], [LifecycleProps.v]: loading, unloading, eviction and reloading of
      versions ([src/src/worker/lifecycle.rs]) on the state of [WorkerManager].
    - [Reconcile.v], [ReconcileProps.v]: [src/src/server/reconcile.rs] and
      [src/src/server/scanner.rs]: targets, a reconcile run, activation, unpacking of
      artifacts, globs.
    - [Upload.v], [UploadProps.v]: uploads ([src/src/http/handlers/files.rs]) and chunked
      upload sessions ([src/src/http/handlers/upload_sessions.rs]) as interleaved
      requests.
    - [Cors.v], [CorsProps.v]: [src/src/http/cors.rs].
    - [Access.v]: [src/src/access_control.rs] with the HTTP and gRPC gates.
    - [ClientIp.v]: the client's address ([src/src/client_ip.rs], the request contexts).
    - [Deadline.v]: [src/src/deadline.rs].
    - [Routes.v], [Stack.v]: the route table of [src/src/http/routes.rs] and the layers
      of [src/src/http/mod.rs] and [decompress.rs] around it.
    - [Json.v]: JSON values, insertion-ordered maps and [serde_json]'s sorted maps.
    - [Ensemble.v], [EnsembleProps.v]: the validation of an ensemble's step graph and
      its layers ([validate_dag], [topological_layers] of [src/src/ensemble/analysis.rs]).
    - [EnsembleRules.v], [EnsembleRulesProps.v]: the other rules of an ensemble file and
      its parser (static types, conditions, absent steps, sinks, chains of streaming
      steps; [src/src/ensemble/analysis.rs] and [src/src/ensemble/config.rs]).
    - [EnsembleRun.v]: a request to an ensemble: its root, references, payloads, steps,
      retries, layers, nested ensembles and the response
      ([src/src/ensemble/exec.rs], [assemble.rs], [refs.rs], [envelope.rs]).
      [EnsembleRunProps.v]: types; [EnsembleFlow.v]: what steps find in the context;
      [EnsembleOrder.v]: the order of completion.
    - [PlanCache.v], [PlanCacheProps.v]: [EnsemblePlanCache] of
      [src/src/ensemble/plan_cache.rs] as steps between its locks and awaits.
    - [Lpm.v]: the length-prefixed frames of a streaming worker's input.
    - [Range.v]: byte ranges and path segments of the file routes.
    - [Warmup.v], [WarmupProps.v]: the device plan of a model and its warm-up: policies
      ([src/src/config.rs]), plans, attempts on the queue, on routes and on streams,
      retries and budgets ([src/src/worker/lifecycle.rs]).
    - [Watcher.v], [WatcherProps.v]: the file watcher ([src/src/server/watcher.rs]): the
      debounce, the classification of events, echoes of configuration writes, hot
      reloads and unloads on the state of [WorkerManager].
    - [Transport.v], [TransportProps.v], [TransportStreams.v]: the actor behind a worker's
      socket ([src/src/transport/zmq.rs]): commands, pending replies, stream routes,
      back-pressure, releases, sweeps, shutdown and the wake-up of the actor.

    - [Config.v], [ConfigProps.v]: the configuration of the server and of a model
      ([src/src/config.rs]): records, defaults, overrides, checks, durations.
    - [ConfigApi.v]: reading and patching configuration
      ([src/src/http/handlers/config.rs]).  [ConfigApiProps.v]: redaction and the merge;
      [ServerViewProps.v]: the server's view; [ConfigPatchProps.v]: one PATCH, and many.

    ** What the theorems show

    - Requests (C1, C2): the collector loses, duplicates and reorders nothing and its
      batches are bounded and homogeneous; dispatch answers every item exactly once.
    - Channel (C3, C39): it implements a priority list and never sleeps on a pending
      item.
    - Queue (C4, C5): counters count, drains drain, with a submission in its three steps.
    - Workers (C6-C9): the circuit breaker, recycle tickets, availability and optimality
      of the picks.  Plain theorems add sticky sequences, the cap,
      threshold, backoff and windows of the breaker, the bound on kills, stream
      permits and the behaviour of rendezvous hashing.
    - Registry and status (C10-C14): routing in exact proportion to the weights, an
      active version that is loaded, in interleavings where registrations and activations
      stay apart from removals, and replaced by a serving one, a status
      that follows the usable workers and health surfaces that agree with the request
      gate.
    - Lifecycle (C15-C18): a reconcile run reaches the target, a load serves or
      leaves nothing, a reload validates before it tears down and restores on failure.
      Other tasks act between the parts of a load (before and between evictions, before
      the registration, around the handshakes, before the queue and before the end); an
      unload and a teardown are one step.
      A plain theorem shows that evictions end.
    - Transport (C26, C27): callers are held exactly once and answered with replies to
      their own requests; a stream ends with a terminal frame, after a prefix of what
      the worker sent, unless a unary reply ends it.  Plain theorems add that everything in flight is released when
      the worker is gone and that the actor does not sleep on a queued command.
    - Warm-up (C23): a run with a timeout ends, and succeeds exactly when every unit has
      an attempt that does.  Plain theorems add that device plans place the workers
      asked for, that every worker is covered, that the batches of a group reach its
      worker, and when streams are cancelled.
    - File watcher (C24, C33): events are delivered within a bounded time, and a batch
      acts on exactly the versions it should.  A plain theorem adds that the echo of a
      configuration write is ignored.
    - Gates (C19-C21, C25, C32): management needs authorization, the
      layers together admit exactly what their policies say, client addresses are not
      forgeable, slots are counted exactly, CORS grants only what is listed and lets
      the workers' own headers through where it grants nothing.  Plain
      theorems show that a burst is admitted exactly and that deadlines are never in
      the past.
    - Plan cache (C22): no waiter is forgotten.  Plain theorems show that stale loads
      are not published and that answers come from loads of the key asked for.
    - Ensembles (C28, C31, C34, C37): a plan is accepted exactly when its steps can
      be ordered; the static types are sound,
      so no run of an accepted plan panics (an index out of range, an [unwrap] or an
      [unreachable] is the outcome [Panicked]); what a step reads is there when it runs;
      the answer does not depend on the order in which steps complete.  Plain theorems
      add that the layers follow the dependencies, that chains are pipelines, that the parser always decides, and that the
      in-frame container is read back as written.
    - Configuration (C29, C35, C36, C38): what is shown of the server's configuration does
      not depend on its secrets; a PATCH that would install the placeholder of a secret is refused;
      conditional patches are serialised; one patch is all or nothing.  Plain theorems add
      the laws of the merge, that a shown tree is refused as a patch exactly if something
      in it was redacted, that the reported sources are true, and what an accepted
      configuration can rely on.
    - Edge (C30): frames are forwarded whole and in order.  Plain theorems show that the
      two protocols report errors alike, that directories stay below the repository, that the worker's input is closed once, that globs mean what they say and that
      byte ranges resolve to the window asked for.
    - Uploads (C40): what a chunked upload commits is what the client sent, in every
      interleaving.  Plain theorems add the strict lengths of the chunks, the overwrite
      guard and the limit of a multipart upload.

    Plain theorems state behaviours that differ from what the code's comments say or
    mean: [recycle_ticket_race], [recv_can_finish_with_pending_item],
    [single_success_answers_only_last], [replacement_depends_on_iteration_order],
    [late_waiter_fails_on_success], [failed_load_evicts_newer_plan],
    [unreadable_source_kept], [handshake_uses_active_policy],
    [burst_below_one_admits_nothing], [eviction_refills_bucket],
    [grpc_timeout_accepts_more], [accepted_duration_can_panic],
    [reload_drops_routing_weight], [late_unload_strands_queue],
    [dotted_version_never_loaded], [unready_default_blocks_fallback],
    [unpacking_drops_other_versions], [unreserved_system_leaves],
    [dropped_complete_wedges_session], [same_base_name_loses_a_file],
    [dotted_step_name_panics], [envelope_in_context], [absent_step_reached],
    [chain_depends_on_file_order], [other_status_passes_warmup],
    [stale_window_skips_quiet_period], [dotted_versions_not_watched],
    [model_dir_not_watched], [shutdown_drops_queued_stream], [drop_wakeup_lost],
    [negative_backoff_panics], [negative_ping_panics], [rollback_undoes_other_patch],
    [restored_without_service], [failed_chmod_widens_mode], [late_submission_lost],
    [activation_races_removal], [registration_races_removal] and [worker_grant_survives].

    ** Bounds and fuel

    Five loops take fuel: [kahn] and [layers_loop] the number of steps of the plan
    (each round retires at least one step), [chain_walk] one more than that (each round
    visits a step once), [drain_frames] the length of the buffer
    (each frame has a header) and [evict_loop] one more than the number of loaded
    versions (each round unloads one).  They return [None] when it runs out and are
    proved to return a result with that fuel.  A run of an ensemble is structural on
    the levels of nesting that are left, at first the code's limit of eight.  The one loop that need not end is the
    second draw of [power_of_two_pick], which samples until it differs from the
    first: it consumes a list of draws and the picks return [None] when the list
    runs out.  The theorems about picks and dispatch assume draws that contain such
    a sample ([fair]) and prove that a result is returned.  Counters are [Z] modulo
    2^64; a theorem that needs no wrap-around says so ([<= usize_max]).

    ** Parameters

    Code outside the repository appears as arguments: the hash of [DefaultHasher],
    the random draws, [semver]'s parser and order, the [prost] codec, the file
    system's answers, the environment and SHA-256, the header syntax of the [http]
    crate ([HttpSyntax]), the networks of [ipnet], fresh UUIDs, the workers' replies
    and handshakes ([LoadInput]), the parser and printer of [serde_json] (its values are
    the public data type), [serde_yaml], the events of [notify], the outcome of every
    system call of a configuration write, and the effect of the other tasks while one awaits
    ([Attempt], [li_before_evict], [li_evicting], [li_before_register], [li_other]).  The router's matching rule is that of [matchit] for the
    patterns of the route table.  The theorems hold for every value of the parameters
    except where a hypothesis is named.

    ** Not modelled

    The bodies of the other HTTP and gRPC handlers, the ZeroMQ socket itself, process
    management, metrics, logging and the Python worker are I/O around this core.
    Gauges and counters that feed only metrics appear as events or not at all.  Texts
    of error messages are kept where code or clients depend on them and shortened
    elsewhere (ensembles, warm-up, configuration checks).  Also left out are the
    streams of ensembles after they are opened and the poll loop of reconciliation. *)

From stdpp Require Export base tactics numbers option list gmap strings fin_maps sorting.
From Stdlib Require Export ZArith Lia.

(** ** Notations *)

Declare Scope lite_scope.
Delimit Scope lite_scope with lite.
Open Scope lite_scope.

(** ** The [Result] type of fallible operations *)

(** Rust's [Result<A, E>]: fallible operations return their error as a value. *)
Inductive result (E A : Type) : Type :=
  | Ok (a : A)
  | Err (e : E).
Arguments Ok {E A} _.
Arguments Err {E A} _.

(** The [?] operator: continue with the value, or return the error early. *)
Definition result_bind {E A B} (r : result E A) (k : A -> result E B) : result E B :=
  match r with
  | Ok a => k a
  | Err e => Err e
  end.

Notation "'let?' x ':=' r 'in' k" := (result_bind r (fun x => k))
  (at level 10, x name, r at level 100, k at level 200) : lite_scope.

(** [Option::ok_or]. *)
Definition ok_or {E A} (o : option A) (e : E) : result E A :=
  match o with
  | Some a => Ok a
  | None => Err e
  end.

(** [Result::map_err]. *)
Definition map_err {E F A} (f : E -> F) (r : result E A) : result F A :=
  match r with Ok a => Ok a | Err e => Err (f e) end.

(** [Option::is_some]. *)
Definition is_some {A} (o : option A) : bool :=
  match o with Some _ => true | None => false end.

Definition is_ok {E A} (r : result E A) : bool :=
  match r with Ok _ => true | Err _ => false end.

Lemma result_bind_ok {E A B} (r : result E A) (k : A -> result E B) b :
  result_bind r k = Ok b <-> exists a, r = Ok a /\ k a = Ok b.
Proof. destruct r; simpl; split; intros Hb; [eauto|by destruct Hb as (? & [= ->] & ?)|done|].
  by destruct Hb as (? & ? & ?). Qed.

Lemma ok_or_ok {E A} (o : option A) (e : E) a : ok_or o e = Ok a <-> o = Some a.
Proof. destruct o; simpl; naive_solver. Qed.

(** ** Machine integers

    [usize], [u64] and [u32] values are integers in range; the operations that
    can leave the range are written out.  Atomics wrap around on
    [fetch_add]/[fetch_sub], the [saturating_] operations clamp. *)

Definition usize_max : Z := 2 ^ 64 - 1.
Definition in_usize (z : Z) : Prop := (0 <= z <= usize_max)%Z.

Definition wrap64 (z : Z) : Z := (z mod 2 ^ 64)%Z.

(** The value an [AtomicUsize] holds after [fetch_add]/[fetch_sub]. *)
Definition fetch_add (c n : Z) : Z := wrap64 (c + n).
Definition fetch_sub (c n : Z) : Z := wrap64 (c - n).

Definition saturating_sub (a b : Z) : Z := Z.max 0 (a - b).
Definition saturating_add (a b : Z) : Z := Z.min usize_max (a + b).

Lemma wrap64_small z : in_usize z -> wrap64 z = z.
Proof. unfold in_usize, usize_max, wrap64. intros. apply Z.mod_small. lia. Qed.

Lemma wrap64_range z : in_usize (wrap64 z).
Proof.
  unfold in_usize, usize_max, wrap64.
  pose proof (Z.mod_pos_bound z (2 ^ 64) ltac:(lia)). lia.
Qed.

Lemma fetch_add_small c n :
  (0 <= c)%Z -> (0 <= n)%Z -> (c + n <= usize_max)%Z -> fetch_add c n = (c + n)%Z.
Proof. intros. apply wrap64_small. unfold in_usize. lia. Qed.

Lemma fetch_sub_small c n :
  (0 <= n <= c)%Z -> (c <= usize_max)%Z -> fetch_sub c n = (c - n)%Z.
Proof. intros. apply wrap64_small. unfold in_usize. lia. Qed.

(** ** Time

    [Instant] is a monotonic clock reading and [Duration] a length of time, both
    in nanoseconds.  [Instant::elapsed] saturates at zero. *)

Abbreviation Instant := Z (only parsing).
Abbreviation Duration := Z (only parsing).

Definition elapsed (now since : Instant) : Duration := Z.max 0 (now - since).

Definition from_secs (s : Z) : Duration := (s * 1000000000)%Z.

(** ** Iteration order of hash maps

    [HashMap] and [DashMap] iterate in an order the program cannot predict.  An
    operation that iterates takes the order as this interface: some enumeration
    of the map's entries, each exactly once.  What is proved against the
    interface holds for every order. *)
Class MapIter := {
  map_iter : forall {V : Type}, gmap string V -> list (string * V);
  map_iter_perm : forall {V : Type} (m : gmap string V), map_iter m ≡ₚ map_to_list m;
}.

(** One such order, used to evaluate the definitions on examples. *)
#[export] Instance canonical_iter : MapIter :=
  {| map_iter V m := map_to_list m; map_iter_perm V m := reflexivity _ |}.

Section map_iter_facts.
Context `{MapIter} {V : Type}.
Implicit Types (m : gmap string V).

Lemma elem_of_map_iter m k v : (k, v) ∈ map_iter m <-> m !! k = Some v.
Proof. rewrite map_iter_perm. apply elem_of_map_to_list. Qed.

Lemma length_map_iter m : length (map_iter m) = size m.
Proof. rewrite map_iter_perm. apply length_map_to_list. Qed.

Lemma NoDup_fst_map_iter m : NoDup (map_iter m).*1.
Proof. rewrite map_iter_perm. apply NoDup_fst_map_to_list. Qed.

Lemma NoDup_map_iter m : NoDup (map_iter m).
Proof. rewrite map_iter_perm. apply NoDup_map_to_list. Qed.

(** Collecting the entries of a map gives the map back. *)
Lemma list_to_map_map_iter m : list_to_map (map_iter m) = m.
Proof.
  transitivity (list_to_map (map_to_list m) : gmap string V).
  - apply list_to_map_proper; [apply NoDup_fst_map_iter|apply map_iter_perm].
  - apply list_to_map_to_list.
Qed.
End map_iter_facts.

(** ** Automation *)

(* [set_solver] and [naive_solver] clear hypotheses speculatively. *)
#[export] Set Warnings "-clear-no-such-hyp".

Create HintDb lite discriminated.
#[export] Hint Resolve wrap64_range : lite.

(** Case analysis on the innermost boolean test or option of the goal. *)
Ltac case_goal :=
  match goal with
  | |- context [if ?b then _ else _] => destruct b eqn:?
  | |- context [match ?o with Some _ => _ | None => _ end] => destruct o eqn:?
  end.

(** Turn the boolean comparisons of the hypotheses into propositions. *)
Ltac to_prop :=
  repeat match goal with
  | H : andb _ _ = true |- _ => apply andb_prop in H as [? ?]
  | H : orb _ _ = false |- _ => apply orb_false_elim in H as [? ?]
  | H : negb _ = true |- _ => apply negb_true_iff in H
  | H : negb _ = false |- _ => apply negb_false_iff in H
  | H : Z.ltb _ _ = true |- _ => apply Z.ltb_lt in H
  | H : Z.ltb _ _ = false |- _ => apply Z.ltb_ge in H
  | H : Z.leb _ _ = true |- _ => apply Z.leb_le in H
  | H : Z.leb _ _ = false |- _ => apply Z.leb_gt in H
  | H : Z.eqb _ _ = true |- _ => apply Z.eqb_eq in H
  | H : Z.eqb _ _ = false |- _ => apply Z.eqb_neq in H
  | H : Nat.eqb _ _ = true |- _ => apply Nat.eqb_eq in H
  | H : Nat.eqb _ _ = false |- _ => apply Nat.eqb_neq in H
  | H : Nat.ltb _ _ = true |- _ => apply Nat.ltb_lt in H
  | H : Nat.ltb _ _ = false |- _ => apply Nat.ltb_ge in H
  | H : Nat.leb _ _ = true |- _ => apply Nat.leb_le in H
  | H : Nat.leb _ _ = false |- _ => apply Nat.leb_gt in H
  | H : bool_decide _ = true |- _ => apply bool_decide_eq_true_1 in H
  | H : bool_decide _ = false |- _ => apply bool_decide_eq_false_1 in H
  end.

(** ** Lists *)

Lemma list_alter_insert {A} (f : A -> A) (l : list A) i x :
  l !! i = Some x -> alter f i l = <[i := f x]> l.
Proof. revert i. induction l; intros [|i] ?; simplify_eq/=; f_equal; auto. Qed.

Lemma list_alter_twice {A} (f g : A -> A) (l : list A) i :
  alter f i (alter g i l) = alter (fun x => f (g x)) i l.
Proof. revert i. induction l as [|x l IH]; intros [|i]; try done. simpl. f_equal. apply IH. Qed.

Lemma list_alter_ext' {A} (f g : A -> A) (l : list A) i :
  (forall x, l !! i = Some x -> f x = g x) -> alter f i l = alter g i l.
Proof.
  revert i. induction l as [|x l IH]; intros [|i] Hfg; try done; simpl; f_equal.
  - by apply Hfg.
  - apply IH. intros y Hy. by apply Hfg.
Qed.

(** The number of elements that satisfy a boolean test. *)
Definition count_if {A} (f : A -> bool) (l : list A) : nat := length (List.filter f l).

Section count_if.
Context {A : Type} (f : A -> bool).

Lemma count_if_cons x l :
  count_if f (x :: l) = ((if f x then 1 else 0) + count_if f l)%nat.
Proof. unfold count_if. simpl. by destruct (f x). Qed.

Lemma count_if_app l1 l2 : count_if f (l1 ++ l2) = (count_if f l1 + count_if f l2)%nat.
Proof. unfold count_if. by rewrite List.filter_app, length_app. Qed.

(** What taking an element out leaves. *)
Lemma count_if_delete i x (l : list A) :
  l !! i = Some x -> (count_if f (delete i l) + (if f x then 1 else 0) = count_if f l)%nat.
Proof.
  revert i. induction l as [|z l IH]; intros [|i] Hi; simplify_eq/=; rewrite !count_if_cons; [lia|].
  specialize (IH _ Hi). lia.
Qed.

Lemma count_if_le_length l : (count_if f l <= length l)%nat.
Proof. induction l as [|x l IH]; [done|]. rewrite count_if_cons. simpl. destruct (f x); lia. Qed.

Lemma count_if_replicate n x :
  f x = false -> count_if f (replicate n x) = 0%nat.
Proof. intros Hx. induction n as [|n IH]; [done|]. simpl. by rewrite count_if_cons, Hx, IH. Qed.

(** How a point update changes the count. *)
Lemma count_if_insert i x y (l : list A) :
  l !! i = Some y ->
  (count_if f (<[i := x]> l) + (if f y then 1 else 0)
   = count_if f l + (if f x then 1 else 0))%nat.
Proof.
  revert i. induction l as [|z l IH]; intros [|i] Hi; simplify_eq/=.
  - rewrite !count_if_cons. destruct (f x), (f y); lia.
  - specialize (IH _ Hi). rewrite !count_if_cons. lia.
Qed.

Lemma count_if_pos l i x : l !! i = Some x -> f x = true -> (0 < count_if f l)%nat.
Proof.
  revert i. induction l as [|z l IH]; intros [|i] Hi Hx; simplify_eq/=;
    rewrite count_if_cons.
  - rewrite Hx. lia.
  - specialize (IH _ Hi Hx). lia.
Qed.
End count_if.
