(* ===== verification/Text.v ===== *)
(** * String primitives of the Rust standard library

    The operations on [str] the source uses, on strings as sequences of bytes
    (the text they apply to is ASCII: identifiers, header values, numbers). *)

From S2P Require Import Prelude.
From stdpp Require Export pretty.
From Stdlib Require Export Ascii.
Open Scope Z_scope.

Definition char_code (c : Ascii.ascii) : Z := Z.of_N (Ascii.N_of_ascii c).

Definition is_digit (c : Ascii.ascii) : bool := (48 <=? char_code c) && (char_code c <=? 57).

Definition is_ascii_alpha (c : Ascii.ascii) : bool :=
  (65 <=? char_code c) && (char_code c <=? 90) || (97 <=? char_code c) && (char_code c <=? 122).

(** [char::is_ascii_alphanumeric]. *)
Definition is_alphanumeric (c : Ascii.ascii) : bool := is_digit c || is_ascii_alpha c.

Definition eq_char (a b : Ascii.ascii) : bool := bool_decide (a = b).

(** [s.chars().all(f)]. *)
Fixpoint all_chars (f : Ascii.ascii -> bool) (s : string) : bool :=
  match s with
  | EmptyString => true
  | String c s => f c && all_chars f s
  end.

(** [Ord] of [str]: lexicographic on bytes. *)
Definition str_leb (a b : string) : bool := String.leb a b.

(** [s.contains(c)]. *)
Fixpoint has_char (c : Ascii.ascii) (s : string) : bool :=
  match s with
  | EmptyString => false
  | String a s => eq_char a c || has_char c s
  end.

(** The digits of an unsigned integer, most significant first, failing on the
    first value above [max] ([checked_mul] and [checked_add] of [from_str]). *)
Fixpoint parse_digits (max : Z) (acc : Z) (s : string) : option Z :=
  match s with
  | EmptyString => Some acc
  | String c s =>
      if is_digit c then
        let acc := acc * 10 + (char_code c - 48) in
        if acc <=? max then parse_digits max acc s else None
      else None
  end.

(** [str::parse] to an unsigned integer of maximum [max]: a leading [+] is
    accepted, an empty string or a lone sign is not. *)
Definition parse_uint (max : Z) (s : string) : option Z :=
  match s with
  | EmptyString => None
  | String c rest =>
      if eq_char c "+"%char then
        match rest with
        | EmptyString => None
        | _ => parse_digits max 0 rest
        end
      else parse_digits max 0 s
  end.

Abbreviation parse_usize := (parse_uint usize_max).

(** [str::parse::<i32>]: an optional sign, then digits within the range of the sign. *)
Definition parse_i32 (s : string) : option Z :=
  match s with
  | EmptyString => None
  | String c rest =>
      if eq_char c "-"%char then
        match rest with
        | EmptyString => None
        | _ => Z.opp <$> parse_digits (2 ^ 31) 0 rest
        end
      else parse_uint (2 ^ 31 - 1) s
  end.

(** [s.split_once(c)]. *)
Fixpoint split_once (c : Ascii.ascii) (s : string) : option (string * string) :=
  match s with
  | EmptyString => None
  | String a rest =>
      if eq_char a c then Some (EmptyString, rest)
      else match split_once c rest with
           | Some (l, r) => Some (String a l, r)
           | None => None
           end
  end.

(** [s.split(c)]: the pieces between the separators, at least one. *)
Fixpoint split_char (c : Ascii.ascii) (s : string) : list string :=
  match s with
  | EmptyString => [EmptyString]
  | String a rest =>
      if eq_char a c then EmptyString :: split_char c rest
      else match split_char c rest with
           | [] => [String a EmptyString]
           | p :: ps => String a p :: ps
           end
  end.

(** [s.strip_prefix(p)]. *)
Fixpoint strip_prefix (p s : string) : option string :=
  match p, s with
  | EmptyString, _ => Some s
  | String a p, String b s => if eq_char a b then strip_prefix p s else None
  | String _ _, EmptyString => None
  end.

Definition starts_with (p s : string) : bool := is_some (strip_prefix p s).

(** ASCII white space of [str::trim]. *)
Definition is_space (c : Ascii.ascii) : bool :=
  (char_code c =? 32) || (9 <=? char_code c) && (char_code c <=? 13).

Fixpoint trim_start (s : string) : string :=
  match s with
  | String c rest => if is_space c then trim_start rest else s
  | EmptyString => EmptyString
  end.

Fixpoint trim_end (s : string) : string :=
  match s with
  | EmptyString => EmptyString
  | String c rest =>
      match trim_end rest with
      | EmptyString => if is_space c then EmptyString else String c EmptyString
      | r => String c r
      end
  end.

Definition trim (s : string) : string := trim_end (trim_start s).

(** [char::to_ascii_lowercase] and [str::to_ascii_lowercase]. *)
Definition lower_char (c : Ascii.ascii) : Ascii.ascii :=
  if (65 <=? char_code c) && (char_code c <=? 90)
  then Ascii.ascii_of_N (Ascii.N_of_ascii c + 32) else c.

Fixpoint to_ascii_lowercase (s : string) : string :=
  match s with
  | EmptyString => EmptyString
  | String c s => String (lower_char c) (to_ascii_lowercase s)
  end.

(** [str::eq_ignore_ascii_case]. *)
Definition eq_ignore_ascii_case (a b : string) : bool :=
  bool_decide (to_ascii_lowercase a = to_ascii_lowercase b).

(** [s.split_once(sep)] of a string separator: at its first occurrence. *)
Fixpoint split_once_str (sep s : string) : option (string * string) :=
  match strip_prefix sep s with
  | Some rest => Some (EmptyString, rest)
  | None =>
      match s with
      | EmptyString => None
      | String c s =>
          match split_once_str sep s with
          | Some (l, r) => Some (String c l, r)
          | None => None
          end
      end
  end.

(** [s.rsplit_once(c)]: at the last occurrence. *)
Fixpoint rsplit_once (c : Ascii.ascii) (s : string) : option (string * string) :=
  match s with
  | EmptyString => None
  | String a rest =>
      match rsplit_once c rest with
      | Some (l, r) => Some (String a l, r)
      | None => if eq_char a c then Some (EmptyString, rest) else None
      end
  end.

(** The prefix before the first character that satisfies [f]: the first piece of
    [s.split(f)]. *)
Fixpoint take_until (f : Ascii.ascii -> bool) (s : string) : string :=
  match s with
  | EmptyString => EmptyString
  | String c s => if f c then EmptyString else String c (take_until f s)
  end.

(** [s.contains(p)]. *)
Definition contains_str (p s : string) : bool := is_some (split_once_str p s).

(** [s.ends_with(p)]. *)
Fixpoint ends_with (p s : string) : bool :=
  bool_decide (s = p) || match s with EmptyString => false | String _ s => ends_with p s end.

(** [v.join(sep)]. *)
Fixpoint join_str (sep : string) (l : list string) : string :=
  match l with
  | [] => EmptyString
  | [s] => s
  | s :: l => (s +:+ sep +:+ join_str sep l)%string
  end.

Abbreviation parse_u16 := (parse_uint 65535).

(** ** Facts *)

Lemma app_assoc_str (a b c : string) : ((a +:+ b) +:+ c = a +:+ (b +:+ c))%string.
Proof. induction a as [|x a IH]; [done|]. exact (f_equal (String x) IH). Qed.

Lemma app_length_str (a b : string) : String.length (a +:+ b)%string = (String.length a + String.length b)%nat.
Proof. induction a as [|x a IH]; [done|]. exact (f_equal S IH). Qed.

Lemma app_nil_str (a : string) : (a +:+ EmptyString = a)%string.
Proof. induction a as [|x a IH]; [done|]. exact (f_equal (String x) IH). Qed.

Lemma eq_char_true a b : eq_char a b = true <-> a = b.
Proof. unfold eq_char. apply bool_decide_eq_true. Qed.

Lemma eq_char_refl a : eq_char a a = true.
Proof. by apply eq_char_true. Qed.

Lemma ends_with_spec p s : ends_with p s = true <-> exists l, s = (l +:+ p)%string.
Proof.
  induction s as [|c s IH]; simpl; rewrite orb_true_iff, bool_decide_eq_true.
  - split; [intros [<-|]; [by exists EmptyString|done]|]. intros (l & Hl). left.
    destruct l; [done|discriminate].
  - rewrite IH. split.
    + intros [<-|(l & ->)]; [by exists EmptyString|by exists (String c l)].
    + intros ([|c' l] & Hl); [by left|]. right. injection Hl as -> ->. by exists l.
Qed.

Lemma strip_prefix_spec p s r : strip_prefix p s = Some r <-> s = (p +:+ r)%string.
Proof.
  revert s. induction p as [|a p IH]; intros s; simpl.
  - split; [by intros [= ->]|by intros ->].
  - destruct s as [|b s]; [done|]. destruct (eq_char a b) eqn:He.
    + apply eq_char_true in He as ->. rewrite IH. split; [by intros ->|by intros [= ->]].
    + split; [done|]. intros [= -> _]. by rewrite eq_char_refl in He.
Qed.

Lemma parse_digits_range max acc s n :
  0 <= acc <= max -> parse_digits max acc s = Some n -> 0 <= n <= max.
Proof.
  revert acc. induction s as [|c s IH]; simpl; intros acc Hacc; [by intros [= <-]|].
  unfold is_digit. repeat case_goal; try done. to_prop. intros Hp. eapply IH; [|exact Hp]. lia.
Qed.

Lemma parse_uint_range max s n : 0 <= max -> parse_uint max s = Some n -> 0 <= n <= max.
Proof.
  intros Hmax. unfold parse_uint. destruct s as [|c s]; [done|].
  repeat case_goal; try done; [destruct s; [done|]|]; intros Hp;
    (eapply parse_digits_range; [|exact Hp]); lia.
Qed.

Lemma split_once_spec c s l r :
  split_once c s = Some (l, r) <-> s = (l +:+ String c r)%string /\ has_char c l = false.
Proof.
  revert l. induction s as [|a s IH]; simpl; intros l.
  - split; [done|]. intros [Hs _]. by destruct l.
  - destruct (eq_char a c) eqn:Ha.
    + split.
      * intros [= <- <-]. apply eq_char_true in Ha as ->. done.
      * intros [Hs Hl]. destruct l as [|b l]; simpl in *; [by injection Hs as -> ->|].
        injection Hs as -> _. by rewrite Ha in Hl.
    + destruct (split_once c s) as [[l' r']|] eqn:Hs.
      * split.
        -- intros [= <- <-]. destruct (proj1 (IH l')) as [-> Hl']; [done|].
           simpl. by rewrite Ha, Hl'.
        -- intros [Heq Hl]. destruct l as [|b l]; simpl in *.
           ++ injection Heq as -> _. by rewrite eq_char_refl in Ha.
           ++ injection Heq as -> ->. apply orb_false_elim in Hl as [_ Hl].
              assert (Some (l', r') = Some (l, r)) as [= -> ->] by (by apply IH). done.
      * split; [done|]. intros [Heq Hl]. destruct l as [|b l]; simpl in *.
        -- injection Heq as -> _. by rewrite eq_char_refl in Ha.
        -- injection Heq as -> ->. apply orb_false_elim in Hl as [_ Hl].
           assert (None = Some (l, r)) by (by apply IH). done.
Qed.

Lemma has_char_app c s t : has_char c (s +:+ t)%string = has_char c s || has_char c t.
Proof. induction s as [|a s IH]; simpl; [done|]. by rewrite IH, orb_assoc. Qed.

Lemma all_chars_no_char f c s : f c = false -> all_chars f s = true -> has_char c s = false.
Proof.
  intros Hc. induction s as [|a s IH]; simpl; [done|]. intros [Ha Hs]%andb_prop.
  rewrite IH by done. destruct (eq_char a c) eqn:He; [|done].
  apply eq_char_true in He as ->. congruence.
Qed.

Lemma all_chars_app f s t : all_chars f (s +:+ t)%string = all_chars f s && all_chars f t.
Proof. induction s as [|c s IH]; simpl; [done|]. by rewrite IH, andb_assoc. Qed.

(** ** Splitting *)

Lemma split_char_nonempty c s : split_char c s <> [].
Proof. destruct s as [|a s]; simpl; [done|]. case_goal; [done|]. by destruct (split_char c s). Qed.

Lemma split_char_app c s t :
  has_char c s = false -> split_char c (s +:+ String c t)%string = s :: split_char c t.
Proof.
  induction s as [|a s IH]; simpl; [by rewrite eq_char_refl|].
  intros [Ha Hs]%orb_false_iff. by rewrite Ha, IH.
Qed.

(** Splitting splits at every separator. *)
Lemma split_char_sep c s t :
  split_char c (s +:+ String c t)%string = split_char c s ++ split_char c t.
Proof.
  induction s as [|a s IH]; simpl; [by rewrite eq_char_refl|]. rewrite IH.
  destruct (eq_char a c); [done|]. pose proof (split_char_nonempty c s). by destruct (split_char c s).
Qed.

Lemma trim_cons_space c s : is_space c = true -> trim (String c s) = trim s.
Proof. intros Hc. unfold trim. simpl. by rewrite Hc. Qed.

(** ** Trimming *)

(** What is left of a string after one more character in front. *)
Lemma trim_end_cons c s :
  trim_end (String c s) =
    if bool_decide (trim_end s = EmptyString) then
      if is_space c then EmptyString else String c EmptyString
    else String c (trim_end s).
Proof. simpl. destruct (trim_end s); [done|]. by rewrite bool_decide_eq_false_2. Qed.

Lemma trim_start_end s : trim_start (trim_end s) = trim_end (trim_start s).
Proof.
  induction s as [|c s IH]; [done|]. rewrite trim_end_cons. simpl trim_start at 2.
  destruct (is_space c) eqn:Hc.
  - rewrite <- IH. case_bool_decide as He; [by rewrite He|]. simpl. by rewrite Hc.
  - rewrite trim_end_cons, Hc. case_bool_decide; simpl; by rewrite Hc.
Qed.

Lemma trim_of_ends s t : trim_end s = trim_end t -> trim s = trim t.
Proof. intros H. unfold trim. by rewrite <- !trim_start_end, H. Qed.

(** Trimming a string trims its pieces. *)
Lemma split_trim_end c s :
  is_space c = false ->
  map trim_end (split_char c (trim_end s)) = map trim_end (split_char c s).
Proof.
  intros Hc. induction s as [|a s IH]; [done|].
  assert (forall t, map trim_end (split_char c t) = map trim_end (split_char c s) ->
    map trim_end (split_char c (String a t)) = map trim_end (split_char c (String a s))) as Hcons.
  { intros t Ht. cbn [split_char]. destruct (eq_char a c); [simpl; by rewrite Ht|].
    pose proof (split_char_nonempty c t). pose proof (split_char_nonempty c s).
    destruct (split_char c t), (split_char c s); try done. cbn [map] in *.
    injection Ht as Ht1 Ht2. rewrite !trim_end_cons, Ht1. by f_equal. }
  rewrite trim_end_cons. case_bool_decide as He; [|by apply Hcons].
  rewrite He in IH. destruct (is_space a) eqn:Ha.
  - cbn [split_char]. replace (eq_char a c) with false
      by (symmetry; apply not_true_is_false; rewrite eq_char_true; congruence).
    pose proof (split_char_nonempty c s). destruct (split_char c s) as [|p ps]; [done|].
    cbn [map] in *. injection IH as Hp <-. by rewrite trim_end_cons, <- Hp, bool_decide_eq_true_2, Ha.
  - by apply Hcons.
Qed.
