(* ===== verification/Float.v ===== *)
(** * Binary floating point, as the source uses it

    [f32] and [f64] are IEEE 754 binary32 and binary64: the executable reference
    semantics of the standard library's [SpecFloat], rounding to nearest even.
    The operations are written once over the precision and instantiated twice;
    [f32::min]/[f32::max] return the other operand when one is NaN, and
    [Duration::mul_f32] goes through seconds as the Rust library does. *)

From S2P Require Import Prelude.
From Stdlib Require Export SpecFloat.
Open Scope Z_scope.

Section format.
Variables (prec emax : Z).

(** [z as f32] / [z as f64] of an integer. *)
Definition of_Z (z : Z) : spec_float := binary_normalize prec emax z 0 false.

(** A literal [m * 2^e]. *)
Definition lit (m e : Z) : spec_float := binary_normalize prec emax m e false.

(** The format's value nearest to the decimal literal [n / d]. *)
Definition dec_lit (n d : Z) : spec_float := SFdiv prec emax (of_Z n) (of_Z d).
End format.

Abbreviation f32_of_Z := (of_Z 24 128).
Abbreviation f64_of_Z := (of_Z 53 1024).
Abbreviation f32_add := (SFadd 24 128).
Abbreviation f32_sub := (SFsub 24 128).
Abbreviation f32_mul := (SFmul 24 128).
Abbreviation f32_div := (SFdiv 24 128).
Abbreviation f64_add := (SFadd 53 1024).
Abbreviation f64_sub := (SFsub 53 1024).
Abbreviation f64_mul := (SFmul 53 1024).
Abbreviation f64_div := (SFdiv 53 1024).

Definition float_zero : spec_float := S754_zero false.

(** [a < b], [a <= b], [a > b]; every comparison with NaN is false. *)
Abbreviation flt := SFltb.
Abbreviation fle := SFleb.
Abbreviation fgt a b := (SFltb b a) (only parsing).
Abbreviation fge a b := (SFleb b a) (only parsing).

Definition is_nan (f : spec_float) : bool :=
  match f with S754_nan => true | _ => false end.

Definition is_finite (f : spec_float) : bool :=
  match f with S754_nan | S754_infinity _ => false | _ => true end.

Definition fmin (a b : spec_float) : spec_float :=
  if is_nan a then b else if is_nan b then a else if flt b a then b else a.

Definition fmax (a b : spec_float) : spec_float :=
  if is_nan a then b else if is_nan b then a else if flt a b then b else a.

(** An [f32] widened to [f64] keeps its value: the same mantissa and exponent
    renormalised. *)
Definition f64_of_f32 (f : spec_float) : spec_float :=
  match f with
  | S754_finite s m e => binary_round 53 1024 s m e
  | _ => f
  end.

(** [n / 2^k] rounded to the nearest integer, ties to even. *)
Definition round_shift (n k : Z) : Z :=
  let q := n / 2 ^ k in
  let r := n mod 2 ^ k in
  if r * 2 <? 2 ^ k then q
  else if 2 ^ k <? r * 2 then q + 1
  else if Z.even q then q else q + 1.

(** A non-negative float of seconds as a duration in nanoseconds. *)
Definition nanos_of_secs (f : spec_float) : Duration :=
  match f with
  | S754_finite false m e =>
      if 0 <=? e then Z.pos m * 2 ^ e * 1000000000
      else round_shift (Z.pos m * 1000000000) (- e)
  | _ => 0
  end.

(** [Duration::as_secs_f32]. *)
Definition as_secs_f32 (d : Duration) : spec_float :=
  f32_add (f32_of_Z (d / 1000000000))
          (f32_div (f32_of_Z (d mod 1000000000)) (f32_of_Z 1000000000)).

(** [Duration::mul_f32], for a non-negative factor. *)
Definition mul_f32 (d : Duration) (f : spec_float) : Duration :=
  nanos_of_secs (f32_mul f (as_secs_f32 d)).

(** [Duration::as_secs_f64]. *)
Definition as_secs_f64 (d : Duration) : spec_float :=
  f64_add (f64_of_Z (d / 1000000000))
          (f64_div (f64_of_Z (d mod 1000000000)) (f64_of_Z 1000000000)).

(** [f64::ceil]: a float with a non-negative exponent is an integer already. *)
Definition fceil (f : spec_float) : spec_float :=
  match f with
  | S754_finite s m e =>
      if 0 <=? e then f
      else
        let z := if s then - (Z.pos m / 2 ^ (- e)) else - (- Z.pos m / 2 ^ (- e)) in
        binary_normalize 53 1024 z 0 s
  | _ => f
  end.

(** The integer part, towards zero. *)
Definition ftrunc (s : bool) (m : positive) (e : Z) : Z :=
  let a := if 0 <=? e then Z.pos m * 2 ^ e else Z.pos m / 2 ^ (- e) in
  if s then - a else a.

(** [f as u64] and [f as i64]: saturating, NaN is 0. *)
Definition as_u64 (f : spec_float) : Z :=
  match f with
  | S754_nan | S754_zero _ => 0
  | S754_infinity s => if s then 0 else usize_max
  | S754_finite s m e => Z.max 0 (Z.min usize_max (ftrunc s m e))
  end.

Definition i64_min : Z := - 2 ^ 63.
Definition i64_max : Z := 2 ^ 63 - 1.

Definition as_i64 (f : spec_float) : Z :=
  match f with
  | S754_nan | S754_zero _ => 0
  | S754_infinity s => if s then i64_min else i64_max
  | S754_finite s m e => Z.max i64_min (Z.min i64_max (ftrunc s m e))
  end.

(** ** Integers as [f64] *)

Lemma digits_log2 p : Z.pos (digits2_pos p) = Z.log2 (Z.pos p) + 1.
Proof.
  induction p as [p IH|p IH|]; [| |done]; simpl digits2_pos; rewrite Pos2Z.inj_succ, IH.
  - change (Z.pos p~1) with (2 * Z.pos p + 1). rewrite Z.log2_succ_double by done. lia.
  - change (Z.pos p~0) with (2 * Z.pos p). rewrite Z.log2_double by done. lia.
Qed.

Lemma pow2_split a b : 0 <= a -> 0 <= b -> 2 ^ (a + b) = 2 ^ a * 2 ^ b.
Proof. intros. by apply Z.pow_add_r. Qed.

(** [shr_1] halves; repeated, it divides by a power of two. *)
Lemma shr_1_half mrs : 0 <= shr_m mrs -> shr_m (shr_1 mrs) = shr_m mrs / 2.
Proof.
  destruct mrs as [m r s]. simpl. intros Hm. destruct m as [|[p|p|]|]; simpl; try done.
  - apply (Z.div_unique _ 2 _ 1); lia.
  - apply (Z.div_unique _ 2 _ 0); lia.
Qed.

Lemma iter_shr_div p mrs :
  0 <= shr_m mrs -> shr_m (iter_pos shr_1 p mrs) = shr_m mrs / 2 ^ Z.pos p.
Proof.
  assert (forall z n, 0 <= z -> 0 <= z / 2 ^ Z.pos n) as Hnn
    by (intros; apply Z.div_pos; lia).
  revert mrs. induction p as [p IH|p IH|]; intros mrs Hm; simpl iter_pos.
  - assert (0 <= shr_m (shr_1 mrs)) as H1 by (rewrite shr_1_half by done; by apply (Hnn _ 1%positive)).
    rewrite IH by (rewrite IH by done; by apply Hnn).
    rewrite IH, shr_1_half, !Z.div_div by lia.
    replace (Z.pos p~1) with (1 + (Z.pos p + Z.pos p)) by lia.
    rewrite (pow2_split 1), (pow2_split (Z.pos p)) by lia. f_equal.
  - rewrite IH by (rewrite IH by done; by apply Hnn). rewrite IH, Z.div_div by lia.
    replace (Z.pos p~0) with (Z.pos p + Z.pos p) by lia. by rewrite pow2_split by lia.
  - by rewrite shr_1_half.
Qed.

(** The canonical form of an integer below [2^53]. *)
Definition exact (z : positive) : spec_float :=
  let d := Z.log2 (Z.pos z) in
  S754_finite false (Z.to_pos (Z.pos z * 2 ^ (52 - d))) (d - 52).

Lemma iter_xO m d : Z.pos (Pos.iter xO m d) = Z.pos m * 2 ^ Z.pos d.
Proof.
  induction d as [|d IH] using Pos.peano_ind.
  - simpl. lia.
  - rewrite Pos.iter_succ, Pos2Z.inj_succ, Z.pow_succ_r by lia.
    change (Z.pos (Pos.iter xO m d)~0) with (2 * Z.pos (Pos.iter xO m d)). lia.
Qed.

Lemma fexp64 e : -1074 <= e - 53 -> fexp 53 1024 e = e - 53.
Proof. unfold fexp, emin. simpl. lia. Qed.

(** Shifting out zeros is exact. *)
Lemma iter_shr_exact p z :
  0 <= z -> iter_pos shr_1 p (Build_shr_record (z * 2 ^ Z.pos p) false false)
            = Build_shr_record z false false.
Proof.
  revert z. induction p as [p IH|p IH|]; intros z Hz; cbn [iter_pos].
  - assert (shr_1 (Build_shr_record (z * 2 ^ Z.pos p~1) false false)
            = Build_shr_record (z * 2 ^ Z.pos p * 2 ^ Z.pos p) false false) as ->.
    { replace (z * 2 ^ Z.pos p~1) with (2 * (z * 2 ^ Z.pos p * 2 ^ Z.pos p)).
      - destruct (z * 2 ^ Z.pos p * 2 ^ Z.pos p) as [|q|q] eqn:Hq; try done.
      - replace (Z.pos p~1) with (1 + (Z.pos p + Z.pos p)) by lia. rewrite !pow2_split by lia. lia. }
    by rewrite !IH by lia.
  - replace (z * 2 ^ Z.pos p~0) with (z * 2 ^ Z.pos p * 2 ^ Z.pos p).
    + by rewrite !IH by lia.
    + replace (Z.pos p~0) with (Z.pos p + Z.pos p) by lia. rewrite pow2_split by lia. lia.
  - destruct z as [|q|q]; [done| |lia]. replace (Z.pos q * 2 ^ 1) with (Z.pos q~0) by lia. done.
Qed.

Section rounding.
Variables (s : bool) (z : positive).
Hypothesis z_small : Z.pos z < 2 ^ 53.

Let d := Z.log2 (Z.pos z).

Lemma log2_small : 0 <= d <= 52.
Proof.
  split; [apply Z.log2_nonneg|]. apply Z.lt_succ_r. apply Z.log2_lt_pow2; [lia|]. exact z_small.
Qed.

Lemma log2_scaled n : 0 <= n -> Z.log2 (Z.pos z * 2 ^ n) = d + n.
Proof. intros Hn. rewrite Z.log2_mul_pow2 by lia. unfold d. lia. Qed.

(** Rounding the canonical mantissa changes nothing. *)
Lemma round_aux_canonical m :
  Z.pos m = Z.pos z * 2 ^ (52 - d) ->
  binary_round_aux 53 1024 s (Z.pos m) (d - 52) loc_Exact = S754_finite s m (d - 52).
Proof.
  intros Hm. pose proof log2_small. unfold binary_round_aux, shr_fexp. simpl Zdigits2.
  assert (fexp 53 1024 (Z.pos (digits2_pos m) + (d - 52)) - (d - 52) = 0) as Hz
    by (rewrite digits_log2, Hm, log2_scaled, fexp64 by lia; lia).
  rewrite Hz. simpl. rewrite Hz. simpl. by rewrite (proj2 (Z.leb_le _ _)) by lia.
Qed.

(** The value [z], given with [j] binary places that are zero, rounds to itself. *)
Lemma round_exact m j :
  0 <= j <= 1000 -> Z.pos m = Z.pos z * 2 ^ j ->
  binary_round 53 1024 s m (- j) = S754_finite s (Z.to_pos (Z.pos z * 2 ^ (52 - d))) (d - 52).
Proof.
  intros Hj Hm. pose proof log2_small as Hd. unfold binary_round.
  rewrite digits_log2, Hm, log2_scaled, fexp64 by lia.
  replace (d + j + 1 + - j - 53) with (d - 52) by lia. unfold shl_align.
  assert (0 < Z.pos z * 2 ^ (52 - d)) as Hpos by lia.
  destruct (d - 52 - - j) as [|n|n] eqn:Hn.
  - replace (- j) with (d - 52) by lia. rewrite round_aux_canonical by (by rewrite Hm; do 2 f_equal; lia).
    f_equal. rewrite <- (Pos2Z.id m), Hm. do 3 f_equal. lia.
  - unfold binary_round_aux, shr_fexp. simpl Zdigits2. rewrite digits_log2, Hm, log2_scaled, fexp64 by lia.
    replace (d + j + 1 + - j - 53 - - j) with (Z.pos n) by lia. simpl.
    replace (Z.pos z * 2 ^ j) with (Z.pos z * 2 ^ (52 - d) * 2 ^ Z.pos n)
      by (rewrite <- Z.mul_assoc, <- pow2_split by lia; do 2 f_equal; lia).
    rewrite iter_shr_exact by lia. simpl. replace (- j + Z.pos n) with (d - 52) by lia.
    rewrite <- (Z2Pos.id (Z.pos z * 2 ^ (52 - d))) by done. simpl Zdigits2.
    rewrite digits_log2, Z2Pos.id, log2_scaled, fexp64 by lia.
    replace (d + (52 - d) + 1 + (d - 52) - 53 - (d - 52)) with 0 by lia. simpl.
    destruct (Z.pos z * 2 ^ (52 - d)) as [|q|q]; try lia.
    by rewrite (proj2 (Z.leb_le _ _)) by lia.
  - rewrite round_aux_canonical.
    + f_equal. apply Pos2Z.inj. rewrite Z2Pos.id, iter_xO, Hm, <- Z.mul_assoc, <- pow2_split by lia.
      do 2 f_equal. lia.
    + rewrite iter_xO, Hm, <- Z.mul_assoc, <- pow2_split by lia. do 2 f_equal. lia.
Qed.
End rounding.

Lemma of_Z_exact z : Z.pos z < 2 ^ 53 -> f64_of_Z (Z.pos z) = exact z.
Proof. intros Hz. apply (round_exact false z Hz z 0); lia. Qed.

(** Comparisons of small integers are those of the integers. *)
Lemma exact_compare a b :
  Z.pos a < 2 ^ 53 -> Z.pos b < 2 ^ 53 -> SFcompare (exact a) (exact b) = Some (Z.pos a ?= Z.pos b).
Proof.
  intros Ha%log2_small Hb%log2_small. unfold exact, SFcompare. f_equal.
  destruct (Z.compare_spec (Z.log2 (Z.pos a) - 52) (Z.log2 (Z.pos b) - 52)) as [Heq|Hlt|Hlt].
  - replace (Z.log2 (Z.pos b)) with (Z.log2 (Z.pos a)) by lia.
    change (Pos.compare_cont Eq ?x ?y) with (Z.pos x ?= Z.pos y). rewrite !Z2Pos.id by lia.
    assert (0 < 2 ^ (52 - Z.log2 (Z.pos a))) as Hp by lia. revert Hp.
    generalize (2 ^ (52 - Z.log2 (Z.pos a))). intros p Hp.
    destruct (Z.compare_spec (Z.pos a) (Z.pos b));
      [apply Z.compare_eq_iff|apply Z.compare_lt_iff|apply Z.compare_gt_iff]; nia.
  - symmetry. apply Z.compare_lt_iff, Z.log2_lt_cancel. lia.
  - symmetry. apply Z.compare_gt_iff, Z.log2_lt_cancel. lia.
Qed.

Lemma of_Z_compare a b :
  0 <= a < 2 ^ 53 -> 0 <= b < 2 ^ 53 -> SFcompare (f64_of_Z a) (f64_of_Z b) = Some (a ?= b).
Proof.
  intros Ha Hb. destruct a as [|a|a], b as [|b|b]; try lia; rewrite ?of_Z_exact by lia; try done.
  apply exact_compare; lia.
Qed.

Lemma of_Z_ltb a b :
  0 <= a < 2 ^ 53 -> 0 <= b < 2 ^ 53 -> flt (f64_of_Z a) (f64_of_Z b) = (a <? b).
Proof. intros Ha Hb. unfold SFltb. rewrite of_Z_compare by done. unfold Z.ltb. by destruct (a ?= b). Qed.

Lemma of_Z_leb a b :
  0 <= a < 2 ^ 53 -> 0 <= b < 2 ^ 53 -> fle (f64_of_Z a) (f64_of_Z b) = (a <=? b).
Proof. intros Ha Hb. unfold SFleb. rewrite of_Z_compare by done. unfold Z.leb. by destruct (a ?= b). Qed.

Lemma of_Z_not_nan z : 0 <= z < 2 ^ 53 -> is_nan (f64_of_Z z) = false.
Proof. intros Hz. destruct z as [|z|z]; [done| |lia]. by rewrite of_Z_exact by lia. Qed.

(** Subtracting one is exact. *)
Lemma of_Z_pred z :
  1 <= z < 2 ^ 53 -> f64_sub (f64_of_Z z) (f64_of_Z 1) = f64_of_Z (z - 1).
Proof.
  intros Hz. destruct z as [|z|z]; try lia. pose proof (log2_small z ltac:(lia)) as Hd.
  rewrite !of_Z_exact by lia. unfold exact, SFsub.
  change (Z.log2 1) with 0. set (d := Z.log2 (Z.pos z)) in *. rewrite Z.min_r by lia.
  assert (forall m e, Z.pos m = Z.pos z * 2 ^ (52 - d) -> e = d - 52 ->
    Z.pos (fst (shl_align m e (0 - 52))) = Z.pos z * 2 ^ 52) as Hs.
  { intros m e Hm ->. unfold shl_align. destruct (0 - 52 - (d - 52)) as [|n|n] eqn:Hn; [|lia|]; simpl fst.
    - rewrite Hm. do 2 f_equal. lia.
    - rewrite iter_xO, Hm, <- Z.mul_assoc, <- pow2_split by lia. do 2 f_equal. lia. }
  unfold cond_Zopp. rewrite Hs by (rewrite ?Z2Pos.id; lia).
  change (Z.pos (fst (shl_align (Z.to_pos (1 * 2 ^ (52 - 0))) (0 - 52) (0 - 52)))) with (1 * 2 ^ 52).
  rewrite <- Z.mul_sub_distr_r. destruct (Z.pos z - 1) as [|w|w] eqn:Hw; [done| |lia].
  rewrite of_Z_exact by lia.
  destruct (Z.pos w * 2 ^ 52) as [|m|m] eqn:Hm; try lia. simpl binary_normalize.
  apply (round_exact false w ltac:(lia) m 52); lia.
Qed.

(** The integer part of an integer. *)
Lemma of_Z_as_u64 z : 0 <= z < 2 ^ 53 -> as_u64 (f64_of_Z z) = z.
Proof.
  intros Hz. destruct z as [|z|z]; [done| |lia]. rewrite of_Z_exact by lia.
  pose proof (log2_small z ltac:(lia)) as Hd. unfold exact, as_u64, ftrunc, usize_max.
  set (d := Z.log2 (Z.pos z)) in *. rewrite Z2Pos.id by lia.
  destruct (Z.leb_spec 0 (d - 52)) as [He|He].
  - replace (52 - d) with 0 by lia. replace (d - 52) with 0 by lia. lia.
  - replace (- (d - 52)) with (52 - d) by lia. rewrite Z.div_mul by lia. lia.
Qed.

(** A large integer rounds to a float with a positive exponent, or overflows. *)
Lemma shr_fexp_large r e l :
  2 ^ 52 <= r -> 0 <= e ->
  exists mrs k, shr_fexp 53 1024 r e l = (mrs, e + k) /\ 2 ^ 52 <= shr_m mrs /\
    k = Z.log2 r - 52 /\ 0 <= k.
Proof.
  intros Hr He. destruct r as [|r|r]; try lia.
  assert (52 <= Z.log2 (Z.pos r)) as Hd by (apply Z.log2_le_pow2; lia).
  unfold shr_fexp. simpl Zdigits2. rewrite digits_log2, fexp64 by lia.
  replace (Z.log2 (Z.pos r) + 1 + e - 53 - e) with (Z.log2 (Z.pos r) - 52) by lia.
  assert (forall m, shr_m (shr_record_of_loc m l) = m) as Hl by (intros m; by destruct l as [|[]]).
  pose proof (Z.log2_spec (Z.pos r) ltac:(lia)) as Hspec.
  destruct (Z.log2 (Z.pos r) - 52) as [|k|k] eqn:Hk; try lia; unfold shr.
  - eexists _, 0. rewrite Z.add_0_r, Hl. split_and!; [done|lia..].
  - eexists _, (Z.pos k). split_and!; [done| |lia..].
    rewrite iter_shr_div, Hl by (rewrite Hl; lia).
    apply Z.div_le_lower_bound; [lia|]. rewrite <- pow2_split by lia.
    replace (Z.pos k + 52) with (Z.log2 (Z.pos r)) by lia. lia.
Qed.

Lemma of_Z_large z :
  2 ^ 53 <= z ->
  f64_of_Z z = S754_infinity false \/ exists m e, f64_of_Z z = S754_finite false m e /\ 0 < e.
Proof.
  intros Hz. assert (53 <= Z.log2 z) as Hd by (apply Z.log2_le_pow2; lia).
  destruct z as [|z|z]; try lia.
  assert (f64_of_Z (Z.pos z) = binary_round_aux 53 1024 false (Z.pos z) 0 loc_Exact) as ->.
  { unfold of_Z. simpl binary_normalize. unfold binary_round. rewrite digits_log2, fexp64 by lia.
    unfold shl_align. by destruct (_ - 0) eqn:Hn; try lia. }
  unfold binary_round_aux.
  destruct (shr_fexp_large (Z.pos z) 0 loc_Exact ltac:(lia) ltac:(lia)) as (mrs & k & -> & Hm & Hk & _).
  set (r := round_nearest_even (shr_m mrs) (loc_of_shr_record mrs)).
  assert (2 ^ 52 <= r) as Hr.
  { unfold r, round_nearest_even. destruct (loc_of_shr_record mrs) as [|[]]; try lia. case_goal; lia. }
  destruct (shr_fexp_large r (0 + k) loc_Exact Hr ltac:(lia)) as (mrs' & k' & -> & Hm' & _ & Hk').
  destruct (shr_m mrs') as [|m|m]; try lia. case_goal; [right|by left].
  eexists _, _. split; [done|]. lia.
Qed.

(** ** Clamping *)

Lemma fmax_one_small f :
  flt f (f64_of_Z 1) = true \/ is_nan f = true -> fmax f (f64_of_Z 1) = f64_of_Z 1.
Proof. intros [H|H]; unfold fmax; destruct f; simpl in *; try done; by rewrite H. Qed.

(** What rounding returns keeps the sign it was given. *)
Lemma binary_round_negative p e :
  flt (binary_round 53 1024 true p e) (f64_of_Z 1) = true \/ is_nan (binary_round 53 1024 true p e) = true.
Proof.
  unfold binary_round. destruct (shl_align _ _ _) as [mz ez]. unfold binary_round_aux.
  destruct (shr_fexp _ _ _ _ _) as [mrs e']. destruct (shr_fexp _ _ _ _ _) as [mrs' e''].
  destruct (shr_m mrs') as [|m|m]; [by left| |by right]. case_goal; by left.
Qed.

#[local] Arguments of_Z : simpl never.

Section clamp.
Variable hi : Z.
Hypothesis hi_range : 1 <= hi < 2 ^ 52.

Definition clamp (x : spec_float) : Z := as_u64 (fmin (fmax x (f64_of_Z 1)) (f64_of_Z hi)).

Lemma clamp_one x :
  flt x (f64_of_Z 1) = true \/ is_nan x = true -> 1 <= clamp x <= hi.
Proof.
  intros Hx. unfold clamp. rewrite fmax_one_small by done. unfold fmin.
  rewrite !of_Z_not_nan, of_Z_ltb by lia. destruct (Z.ltb_spec hi 1); rewrite of_Z_as_u64; lia.
Qed.

Lemma clamp_big x :
  is_nan x = false -> flt x (f64_of_Z 1) = false -> flt (f64_of_Z hi) x = true -> 1 <= clamp x <= hi.
Proof.
  intros Hn Hl Hg. unfold clamp, fmax. rewrite Hn, of_Z_not_nan, Hl by lia. unfold fmin.
  rewrite Hn, of_Z_not_nan, Hg by lia. rewrite of_Z_as_u64; lia.
Qed.

Lemma clamp_infinity : 1 <= clamp (S754_infinity false) <= hi.
Proof.
  apply clamp_big; try done. destruct hi as [|h|h]; try lia. by rewrite of_Z_exact by lia.
Qed.

Lemma clamp_huge m e : 0 <= e -> 1 <= clamp (S754_finite false m e) <= hi.
Proof.
  intros He. apply clamp_big; [done| |].
  - rewrite of_Z_exact by lia. unfold exact, SFltb, SFcompare. change (Z.log2 1) with 0.
    by rewrite (proj2 (Z.compare_gt_iff _ _)) by lia.
  - destruct hi as [|h|h]; try lia. rewrite of_Z_exact by lia. unfold exact, SFltb, SFcompare.
    assert (Z.log2 (Z.pos h) < 52) by (apply Z.log2_lt_pow2; lia).
    by rewrite (proj2 (Z.compare_lt_iff _ _)) by lia.
Qed.

Lemma clamp_of_Z z : 0 <= z -> 1 <= clamp (f64_of_Z z) <= hi.
Proof.
  intros Hz. destruct (decide (2 ^ 53 <= z)) as [Hl|Hl].
  - destruct (of_Z_large z Hl) as [->|(m & e & -> & He)]; [apply clamp_infinity|apply clamp_huge; lia].
  - unfold clamp, fmax, fmin. rewrite !of_Z_not_nan, of_Z_ltb by lia.
    destruct (Z.ltb_spec z 1); rewrite !of_Z_not_nan, of_Z_ltb by lia;
      [destruct (Z.ltb_spec hi 1)|destruct (Z.ltb_spec hi z)]; rewrite of_Z_as_u64; lia.
Qed.

(** A rounded-up float, clamped to [1, hi] and truncated, is in that range, NaN and the
    infinities included. *)
Lemma clamp_range f : 1 <= clamp (fceil f) <= hi.
Proof.
  destruct f as [s|[]| |s m e]; unfold fceil.
  - by apply clamp_one; left.
  - by apply clamp_one; left.
  - apply clamp_infinity.
  - by apply clamp_one; right.
  - destruct (Z.leb_spec 0 e) as [He|He].
    + destruct s; [by apply clamp_one; left|by apply clamp_huge].
    + match goal with |- context [binary_normalize _ _ ?c _ _] => destruct c as [|z|z] end.
      * by apply clamp_one; left.
      * by apply (clamp_of_Z (Z.pos z)).
      * apply clamp_one, binary_round_negative.
Qed.
End clamp.

(** ** The order *)

Lemma flt_fle_trans a b c : flt a b = true -> fle b c = true -> flt a c = true.
Proof.
  unfold SFltb, SFleb, SFcompare.
  destruct a as [?|[]| |[] ma ea], b as [?|[]| |[] mb eb], c as [?|[]| |[] mc ec]; try done;
    repeat match goal with
    | |- context [Pos.compare_cont Eq ?x ?y] =>
        change (Pos.compare_cont Eq x y) with (Pos.compare x y)
    end;
    repeat match goal with
    | |- context [?x ?= ?y] => destruct (Z.compare_spec x y)
    | |- context [Pos.compare ?x ?y] => destruct (Pos.compare_spec x y)
    end; simpl; subst; try done; try (intros; exfalso; lia).
Qed.

Lemma flt_not_ge a b : flt a b = true -> fge a b = false.
Proof.
  intros H. apply not_true_is_false. intros Hge.
  assert (flt a a = true) as Hr by (by eapply flt_fle_trans). revert Hr. clear.
  unfold SFltb, SFcompare. destruct a as [?|[]| |[] m e]; try done;
    change (Pos.compare_cont Eq m m) with (Pos.compare m m);
    by rewrite Z.compare_refl, Pos.compare_refl.
Qed.

Lemma flt_not_nan a b : flt a b = true -> is_nan a = false.
Proof. by destruct a, b. Qed.

(** A minimum reaches a bound only if both operands do. *)
Lemma fmin_ge a b c : flt b c = true -> fge (fmin a b) c = false.
Proof.
  intros H. unfold fmin. destruct (is_nan a); [by apply flt_not_ge|].
  rewrite (flt_not_nan _ _ H). destruct (flt b a) eqn:Hba; [by apply flt_not_ge|].
  apply not_true_is_false. intros Hge. by rewrite (flt_fle_trans _ _ _ H Hge) in Hba.
Qed.
