(* ===== verification/Errors.v ===== *)
(** * Errors and what clients see of them

    Models [AppError] ([src/src/error.rs]), its rendering over HTTP ([http_status],
    [into_canonical], [render] of [src/src/protocol/mod.rs]) and over gRPC
    ([app_error_to_grpc_status] and the code families of [src/src/grpc/error.rs]).
    Payloads that come from other libraries ([io::Error], [serde_json::Error]) are
    their texts; JSON bodies are their fields.

    The theorems: HTTP and gRPC agree on every error but one; the metric families of
    the two protocols agree exactly on the errors listed; what a client reads of an
    internal error does not depend on its detail; a status a worker makes up never
    leaves the HTTP range. *)

From S2P Require Import Prelude Text.
Open Scope Z_scope.

(** ** The error type *)

Record ModelErrorData := {
  med_status_code : Z;
  med_error_type : string;
  med_detail : string;
  med_code : option string;
  med_param : option string;
  med_headers : option (gmap string string);
}.

Inductive AppError :=
  | ModelNotFound (model : string)
  | ModelNotReady (msg : string)
  | VersionNotFound (model version : string)
  | VersionAlreadyLoaded (model version : string)
  | InferenceTimeout (msg : string)
  | IdleTimeout (msg : string)
  | QueueFull (msg : string)
  | WorkerCrashed (msg : string)
  | BadGateway (msg : string)
  | Validation (msg : string)
  | Conflict (msg : string)
  | Config (msg : string)
  | Transport (msg : string)
  | Python (msg : string)
  | Io (msg : string)
  | Serialization (msg : string)
  | FrameTooLarge
  | Internal (msg : string)
  | RouteNotFound
  | MethodNotAllowed
  | InvalidRequestBody (msg : string)
  | InvalidQueryParam (msg : string)
  | PayloadTooLarge (max_size : Z) (actual_size : option Z)
  | RangeNotSatisfiable (size : Z)
  | UnsupportedMediaType (msg : string)
  | RateLimitExceeded (retry_after_secs : Z)
  | WorkerRecycling (msg : string)
  | StreamingCapacityExceeded (msg : string)
  | Unauthorized (msg : string)
  | ModelError (d : ModelErrorData).

Definition pub_error_message (e : AppError) : string :=
  match e with
  | ModelNotFound _ => "model not found"
  | ModelNotReady _ => "model not ready"
  | VersionNotFound _ _ => "model version not found"
  | VersionAlreadyLoaded _ _ => "model version already loaded"
  | InferenceTimeout _ => "inference timeout"
  | IdleTimeout _ => "idle timeout"
  | QueueFull _ => "queue full"
  | WorkerCrashed _ => "service temporarily unavailable"
  | BadGateway _ => "bad gateway"
  | Validation _ => "validation error"
  | Conflict _ => "conflict with current state"
  | Config _ => "invalid configuration"
  | Transport _ => "transport error"
  | Python _ => "internal server error"
  | Io _ => "internal server error"
  | Serialization _ => "serialization error"
  | FrameTooLarge => "message too large"
  | Internal _ => "internal server error"
  | RouteNotFound => "route not found"
  | MethodNotAllowed => "method not allowed"
  | InvalidRequestBody _ => "invalid request body"
  | InvalidQueryParam _ => "invalid query parameter"
  | PayloadTooLarge _ _ => "payload too large"
  | RangeNotSatisfiable _ => "range not satisfiable"
  | UnsupportedMediaType _ => "unsupported media type"
  | RateLimitExceeded _ => "rate limit exceeded"
  | WorkerRecycling _ => "worker recycling"
  | StreamingCapacityExceeded _ => "streaming capacity exceeded"
  | Unauthorized _ => "unauthorized"
  | ModelError _ => "model error"
  end.

Local Infix "+++" := String.append (at level 60, right associativity).

Definition client_message (e : AppError) : string :=
  match e with
  | InvalidRequestBody detail | InvalidQueryParam detail | Conflict detail => detail
  | PayloadTooLarge max_size (Some actual) =>
      "request body too large: " +++ pretty actual +++ " bytes exceeds the "
        +++ pretty max_size +++ " bytes limit"
  | PayloadTooLarge max_size None =>
      "request body exceeds the " +++ pretty max_size +++ " bytes limit"
  | UnsupportedMediaType detail => detail
  | RangeNotSatisfiable size =>
      "requested range is not satisfiable (representation size: " +++ pretty size +++ " bytes)"
  | Unauthorized detail | WorkerRecycling detail => detail
  | _ => pub_error_message e
  end.

Definition error_code (e : AppError) : string :=
  match e with
  | ModelNotFound _ => "model_not_found"
  | ModelNotReady _ => "model_not_ready"
  | VersionNotFound _ _ => "version_not_found"
  | VersionAlreadyLoaded _ _ => "version_already_loaded"
  | InferenceTimeout _ => "timeout"
  | IdleTimeout _ => "idle_timeout"
  | QueueFull _ => "queue_full"
  | WorkerCrashed _ => "internal_error"
  | BadGateway _ => "bad_gateway"
  | Validation _ => "invalid_parameter_value"
  | Conflict _ => "conflict"
  | Config _ => "invalid_configuration"
  | Serialization _ => "parse_error"
  | FrameTooLarge => "content_size_limit_exceeded"
  | Transport _ | Python _ | Io _ | Internal _ => "internal_error"
  | RouteNotFound => "route_not_found"
  | MethodNotAllowed => "method_not_allowed"
  | InvalidRequestBody _ => "invalid_request_body"
  | InvalidQueryParam _ => "invalid_query_param"
  | PayloadTooLarge _ _ => "payload_too_large"
  | RangeNotSatisfiable _ => "range_not_satisfiable"
  | UnsupportedMediaType _ => "unsupported_media_type"
  | RateLimitExceeded _ => "rate_limit_exceeded"
  | WorkerRecycling _ => "worker_recycling"
  | StreamingCapacityExceeded _ => "streaming_capacity_exceeded"
  | Unauthorized _ => "unauthorized"
  | ModelError d => default (med_error_type d) (med_code d)
  end.

Definition param (e : AppError) : option string :=
  match e with ModelError d => med_param d | _ => None end.

(** [Display for AppError], the text of the logs. *)
Definition display (e : AppError) : string :=
  match e with
  | ModelNotFound m => "model not found: " +++ m
  | ModelNotReady m => "model not ready: " +++ m
  | VersionNotFound m v => "model version not found: " +++ m +++ "/" +++ v
  | VersionAlreadyLoaded m v => "model version already loaded: " +++ m +++ "/" +++ v
  | InferenceTimeout m => "inference timeout: " +++ m
  | IdleTimeout m => "idle timeout: " +++ m
  | QueueFull m => "queue full: " +++ m
  | WorkerCrashed m => "worker crashed: " +++ m
  | BadGateway m => "bad gateway: " +++ m
  | Validation m => "validation error: " +++ m
  | Conflict m => "conflict: " +++ m
  | Config m => "config error: " +++ m
  | Transport m => "transport error: " +++ m
  | Python m => "python error: " +++ m
  | Io m => "IO error: " +++ m
  | Serialization m => "serialization error: " +++ m
  | FrameTooLarge => "frame too large"
  | Internal m => "internal error: " +++ m
  | RouteNotFound => "route not found"
  | MethodNotAllowed => "method not allowed"
  | InvalidRequestBody m => "invalid request body: " +++ m
  | InvalidQueryParam m => "invalid query parameter: " +++ m
  | PayloadTooLarge max_size _ => "payload too large: " +++ pretty max_size +++ " bytes max"
  | RangeNotSatisfiable size => "range not satisfiable (size: " +++ pretty size +++ " bytes)"
  | UnsupportedMediaType m => "unsupported media type: " +++ m
  | RateLimitExceeded _ => "rate limit exceeded"
  | WorkerRecycling m => "worker recycling: " +++ m
  | StreamingCapacityExceeded m => m
  | Unauthorized m => m
  | ModelError d => "model error (" +++ pretty (med_status_code d) +++ "): " +++ med_detail d
  end.

(** The status a worker sends is kept when it is one of HTTP's. *)
Definition model_error_http_status (code : Z) : Z :=
  if (100 <=? code) && (code <=? 599) then code else 500.

Definition http_status (e : AppError) : Z :=
  match e with
  | ModelError d => model_error_http_status (med_status_code d)
  | PayloadTooLarge _ _ => 413
  | ModelNotFound _ => 404
  | ModelNotReady _ => 503
  | VersionNotFound _ _ => 404
  | VersionAlreadyLoaded _ _ => 409
  | InferenceTimeout _ => 504
  | IdleTimeout _ => 504
  | QueueFull _ => 503
  | WorkerCrashed _ => 500
  | BadGateway _ => 502
  | Validation _ => 400
  | Conflict _ => 409
  | Config _ => 400
  | Transport _ => 500
  | Python _ => 500
  | Io _ => 500
  | Serialization _ => 400
  | FrameTooLarge => 413
  | Internal _ => 500
  | RouteNotFound => 404
  | MethodNotAllowed => 405
  | InvalidRequestBody _ => 400
  | InvalidQueryParam _ => 400
  | RangeNotSatisfiable _ => 416
  | UnsupportedMediaType _ => 415
  | RateLimitExceeded _ => 429
  | WorkerRecycling _ => 503
  | StreamingCapacityExceeded _ => 429
  | Unauthorized _ => 401
  end.

(** ** HTTP *)

Module Render.

Definition canonical_type (e : AppError) : string :=
  match e with
  | ModelNotFound _ => "not_found_error"
  | ModelNotReady _ => "model_not_ready"
  | VersionNotFound _ _ => "not_found_error"
  | VersionAlreadyLoaded _ _ => "conflict_error"
  | Conflict _ => "conflict_error"
  | InferenceTimeout _ => "server_error"
  | IdleTimeout _ => "server_error"
  | QueueFull _ => "queue_full"
  | StreamingCapacityExceeded _ => "streaming_capacity_exceeded"
  | WorkerCrashed _ => "server_error"
  | BadGateway _ => "server_error"
  | Validation _ => "invalid_request_error"
  | Config _ => "invalid_request_error"
  | Transport _ => "server_error"
  | Python _ => "server_error"
  | Io _ => "server_error"
  | Serialization _ => "invalid_request_error"
  | FrameTooLarge => "invalid_request_error"
  | Internal _ => "server_error"
  | RouteNotFound => "not_found_error"
  | MethodNotAllowed => "method_not_allowed"
  | InvalidRequestBody _ => "invalid_request_error"
  | InvalidQueryParam _ => "invalid_request_error"
  | PayloadTooLarge _ _ => "invalid_request_error"
  | RangeNotSatisfiable _ => "invalid_request_error"
  | UnsupportedMediaType _ => "invalid_request_error"
  | RateLimitExceeded _ => "rate_limit_exceeded"
  | WorkerRecycling _ => "worker_recycling"
  | Unauthorized _ => "authentication_error"
  | ModelError d => med_error_type d
  end.

Record CanonicalError := {
  ce_status : Z;
  ce_error_type : string;
  ce_code : option string;
  ce_message : string;
  ce_param : option string;
  ce_extra : option (Z * option Z);
  ce_headers : option (gmap string string);
  ce_from_model : bool;
  ce_log_detail : string;     (** for the logs, never rendered *)
}.

(** The [Retry-After] of the transient errors, as both protocols send it. *)
Definition transient (e : AppError) : bool :=
  match e with
  | QueueFull _ | BadGateway _ | WorkerRecycling _ | StreamingCapacityExceeded _ => true
  | _ => false
  end.

Definition canonical_headers (e : AppError) : option (gmap string string) :=
  match e with
  | ModelError d => med_headers d
  | RangeNotSatisfiable size => Some {[ "content-range" := "bytes */" +++ pretty size ]}
  | RateLimitExceeded secs => Some {[ "retry-after" := pretty secs ]}
  | _ => if transient e then Some {[ "retry-after" := "1" ]} else None
  end.

Definition into_canonical (e : AppError) : CanonicalError :=
  match e with
  | ModelError d =>
      {| ce_status := model_error_http_status (med_status_code d);
         ce_error_type := med_error_type d;
         ce_code := med_code d;
         ce_message := med_detail d;
         ce_param := med_param d;
         ce_extra := None;
         ce_headers := canonical_headers e;
         ce_from_model := true;
         ce_log_detail := med_detail d |}
  | _ =>
      {| ce_status := http_status e;
         ce_error_type := canonical_type e;
         ce_code := Some (error_code e);
         ce_message := client_message e;
         ce_param := param e;
         ce_extra := match e with
                     | PayloadTooLarge max_size actual_size => Some (max_size, actual_size)
                     | _ => None
                     end;
         ce_headers := canonical_headers e;
         ce_from_model := false;
         ce_log_detail := display e |}
  end.

Inductive ApiProtocol := Legacy | Kserve | OpenaiCompact.

(** The JSON bodies of [openai::render_body] and [kserve::render_body]. *)
Inductive ErrorBody :=
  | FlatBody (error : string)
  | ObjectBody (type message : string) (code param : option string) (extra : option (Z * option Z)).

Record HttpError := {
  he_status : Z;
  he_body : ErrorBody;
  he_headers : gmap string string;
}.

Definition BLOCKED_RESPONSE_HEADERS : list string :=
  ["content-type"; "content-length"; "transfer-encoding"; "content-encoding"; "connection";
   "keep-alive"; "proxy-authenticate"; "proxy-authorization"; "te"; "trailer"; "upgrade"].

(** The [http] crate: header names are parsed to lower case, values are checked. *)
Class HttpSyntax := {
  header_name : string -> option string;
  header_value : string -> bool;
  header_name_lower : forall k n, header_name k = Some n -> n = to_ascii_lowercase k;
}.

Section render.
Context `{MapIter} `{HttpSyntax}.

Definition inject_response_headers_into (map : gmap string string) (headers : gmap string string)
    : gmap string string :=
  foldl (fun map '(k, v) =>
    if bool_decide (to_ascii_lowercase k ∈ BLOCKED_RESPONSE_HEADERS) then map
    else match header_name k with
         | Some name => if header_value v then <[name := v]> map else map
         | None => map
         end) map (map_iter headers).

Definition render_body (protocol : ApiProtocol) (err : CanonicalError) : ErrorBody :=
  match protocol with
  | Legacy | OpenaiCompact =>
      ObjectBody (ce_error_type err) (ce_message err) (ce_code err) (ce_param err) (ce_extra err)
  | Kserve => FlatBody (ce_message err)
  end.

(** What [Json] sets itself. *)
Definition json_headers : gmap string string := {[ "content-type" := "application/json" ]}.

Definition render (err : CanonicalError) (protocol : ApiProtocol) : HttpError :=
  {| he_status := ce_status err;
     he_body := render_body protocol err;
     he_headers := match ce_headers err with
                   | Some hdrs => inject_response_headers_into json_headers hdrs
                   | None => json_headers
                   end |}.
End render.

(** ** gRPC *)

Inductive Code :=
  | CodeOk | Cancelled | Unknown | InvalidArgument | DeadlineExceeded | NotFound
  | AlreadyExists | PermissionDenied | ResourceExhausted | FailedPrecondition | Aborted
  | OutOfRange | Unimplemented | CodeInternal | Unavailable | DataLoss | Unauthenticated.

#[export] Instance Code_eq_dec : EqDecision Code.
Proof. solve_decision. Defined.

Record Status := {
  code : Code;
  message : string;
  retry_after : option Z;     (** the [retry-after] metadata *)
}.

Definition http_status_to_grpc_code (http_status : Z) : Code :=
  match http_status with
  | 400 | 422 => InvalidArgument
  | 401 => Unauthenticated
  | 403 => PermissionDenied
  | 404 => NotFound
  | 405 => Unimplemented
  | 409 => AlreadyExists
  | 413 => ResourceExhausted
  | 429 => ResourceExhausted
  | 502 => Unavailable
  | 503 => Unavailable
  | 504 => DeadlineExceeded
  | _ => CodeInternal
  end.

Definition with_retry_after (s : Status) (secs : Z) : Status :=
  {| code := code s; message := message s; retry_after := Some secs |}.

Definition app_error_to_grpc_status (e : AppError) : Status :=
  match e with
  | ModelError d =>
      {| code := http_status_to_grpc_code (med_status_code d);
         message := "[" +++ med_error_type d +++ "] " +++ med_detail d;
         retry_after := None |}
  | Conflict _ =>
      {| code := FailedPrecondition; message := client_message e; retry_after := None |}
  | _ =>
      let http_status :=
        match e with
        | ModelNotFound _ | VersionNotFound _ _ | RouteNotFound => 404
        | ModelNotReady _ | QueueFull _ => 503
        | VersionAlreadyLoaded _ _ => 409
        | InferenceTimeout _ | IdleTimeout _ => 504
        | BadGateway _ => 502
        | Validation _ | Config _ | Serialization _ | InvalidRequestBody _
        | InvalidQueryParam _ => 400
        | FrameTooLarge | PayloadTooLarge _ _ => 413
        | RateLimitExceeded _ => 429
        | StreamingCapacityExceeded _ => 429
        | Unauthorized _ => 401
        | MethodNotAllowed => 405
        | _ => 500
        end in
      let status := {| code := http_status_to_grpc_code http_status;
                       message := client_message e; retry_after := None |} in
      if transient e then with_retry_after status 1 else status
  end.

(** Errors a worker reports inside a stream. *)
Definition error_type_to_grpc_code (error_type : string) : Code :=
  if String.eqb error_type "invalid_request_error" then InvalidArgument
  else if String.eqb error_type "model_error" then InvalidArgument
  else if String.eqb error_type "authentication_error" then Unauthenticated
  else if String.eqb error_type "permission_denied_error" then PermissionDenied
  else if String.eqb error_type "not_found_error" then NotFound
  else if String.eqb error_type "service_unavailable"
          || String.eqb error_type "model_not_ready" then Unavailable
  else if String.eqb error_type "not_implemented" then FailedPrecondition
  else if String.eqb error_type "deadline_exceeded" then DeadlineExceeded
  else if String.eqb error_type "worker_recycling" then Unavailable
  else CodeInternal.

Definition is_client_class (c : Code) : bool :=
  match c with
  | InvalidArgument | FailedPrecondition | NotFound | OutOfRange | Unauthenticated
  | PermissionDenied | ResourceExhausted | Cancelled => true
  | _ => false
  end.

Definition grpc_code_to_status_family (c : Code) : string :=
  match c with
  | CodeOk => "2xx"
  | c => if is_client_class c then "4xx" else "5xx"
  end.

Definition grpc_stream_reject_reason (c : Code) : string :=
  match c with ResourceExhausted => "concurrency_limit" | _ => "early_reject" end.

(** ** Facts *)

Lemma grpc_code_of_junk z : ~ 100 <= z <= 599 -> http_status_to_grpc_code z = CodeInternal.
Proof.
  intros Hz. unfold http_status_to_grpc_code.
  destruct z as [|p|p]; try done; do 9 (destruct p as [p|p|]; try done; try lia).
Qed.

(** The errors whose client message carries their own detail. *)
Definition redact (e : AppError) : AppError :=
  match e with
  | ModelNotFound _ => ModelNotFound ""
  | ModelNotReady _ => ModelNotReady ""
  | VersionNotFound _ _ => VersionNotFound "" ""
  | VersionAlreadyLoaded _ _ => VersionAlreadyLoaded "" ""
  | InferenceTimeout _ => InferenceTimeout ""
  | IdleTimeout _ => IdleTimeout ""
  | QueueFull _ => QueueFull ""
  | WorkerCrashed _ => WorkerCrashed ""
  | BadGateway _ => BadGateway ""
  | Validation _ => Validation ""
  | Config _ => Config ""
  | Transport _ => Transport ""
  | Python _ => Python ""
  | Io _ => Io ""
  | Serialization _ => Serialization ""
  | Internal _ => Internal ""
  | StreamingCapacityExceeded _ => StreamingCapacityExceeded ""
  | e => e
  end.

Definition is_conflict (e : AppError) : bool := match e with Conflict _ => true | _ => false end.
Definition is_recycling (e : AppError) : bool :=
  match e with WorkerRecycling _ => true | _ => false end.
Definition is_model_error (e : AppError) : bool :=
  match e with ModelError _ => true | _ => false end.

(** [StatusCode::is_server_error] decides the severity of an HTTP error. *)
Definition http_status_family (status : Z) : string :=
  if (500 <=? status) && (status <? 600) then "5xx" else "4xx".

(** The errors gRPC counts as server faults and HTTP does not. *)
Definition family_differs (e : AppError) : bool :=
  match e with
  | VersionAlreadyLoaded _ _ | MethodNotAllowed | RangeNotSatisfiable _
  | UnsupportedMediaType _ => true
  | _ => false
  end.

Section facts.
Context `{MapIter} `{HttpSyntax}.

Lemma injected_not_blocked map headers k :
  k ∈ BLOCKED_RESPONSE_HEADERS ->
  inject_response_headers_into map headers !! k = map !! k.
Proof.
  intros Hk. unfold inject_response_headers_into. generalize (map_iter headers) as l.
  intros l. revert map. induction l as [|[k' v] l IH]; intros map; simpl; [done|].
  rewrite IH. case_bool_decide as Hb; [done|].
  destruct (header_name k') as [n|] eqn:Hn; [|done].
  apply header_name_lower in Hn as ->. case_goal; [|done].
  apply lookup_insert_ne. intros Heq. apply Hb. by rewrite Heq.
Qed.

(** The HTTP and the gRPC rendering of an error agree, with exactly these
    exceptions: the gRPC code is the one of the HTTP status but for conflicts and a
    recycling worker; the status families agree but for a listed few; and a retry
    hint is present on both or on neither, with the same number, model errors and
    rate limits aside. *)
Theorem http_and_grpc_agree (e : AppError) :
  (code (app_error_to_grpc_status e) = http_status_to_grpc_code (http_status e) <->
   is_conflict e = false /\ is_recycling e = false) /\
  (is_model_error e = false ->
   (grpc_code_to_status_family (code (app_error_to_grpc_status e))
    = http_status_family (http_status e) <-> family_differs e = false)) /\
  (is_model_error e = false -> (forall secs, e <> RateLimitExceeded secs) ->
   (canonical_headers e) ≫= (.!! "retry-after")
   = pretty <$> retry_after (app_error_to_grpc_status e)).
Proof.
  split; [|split].
  - destruct e as [ | | | | | | | | | | | | | | | | | | | | | | | | | | | | |d]; try (split; naive_solver).
    split; [done|]. intros _. simpl. unfold model_error_http_status.
    destruct ((100 <=? med_status_code d) && (med_status_code d <=? 599)) eqn:Hc; [done|].
    apply grpc_code_of_junk. apply andb_false_iff in Hc as [?|?]; to_prop; lia.
  - intros Hm. destruct e; try done; split; done.
  - intros Hm Hr. destruct e; try done.
    by exfalso; eapply Hr.
Qed.

(** The rendering of an error depends only on what is meant for clients; its status
    is a valid HTTP status and its body JSON. *)
Theorem error_details_not_leaked (e : AppError) (p : ApiProtocol) :
  render (into_canonical e) p = render (into_canonical (redact e)) p /\
  app_error_to_grpc_status e = app_error_to_grpc_status (redact e) /\
  100 <= he_status (render (into_canonical e) p) <= 599 /\
  he_headers (render (into_canonical e) p) !! "content-type" = Some "application/json".
Proof.
  split; [|split; [|split]].
  - by destruct e.
  - by destruct e.
  - destruct e; try done. simpl. unfold model_error_http_status. case_goal; to_prop; lia.
  - unfold render. simpl. destruct (ce_headers (into_canonical e)) as [h|]; [|done].
    rewrite injected_not_blocked; [done|]. unfold BLOCKED_RESPONSE_HEADERS. set_solver.
Qed.
End facts.

(** ** The theorems at concrete inputs *)

(** Any name, printable values. *)
#[export] Instance plain_syntax : HttpSyntax.
Proof.
  refine {| header_name k := Some (to_ascii_lowercase k);
            header_value v := all_chars (fun c => (32 <=? char_code c) && (char_code c <? 127)) v |}.
  by intros k n [= <-].
Defined.

Lemma error_details_witness :
  he_body (render (into_canonical (Internal "/etc/secret: permission denied")) Legacy)
  = ObjectBody "server_error" "internal server error" (Some "internal_error") None None.
Proof.
  destruct (error_details_not_leaked (Internal "/etc/secret: permission denied") Legacy) as [-> _].
  reflexivity.
Defined.
End Render.
