(* ===== verification/Admission.v ===== *)
(** * Admission of inference requests

    Models [src/src/admission.rs] and the way [admission_middleware]
    ([src/src/http/mod.rs]) hands the slot on: an [AdmissionCounter] with a
    compare-and-exchange loop, the [AdmissionGuard] that gives the slot back when it
    is dropped, and the [AdmissionSlot] cell from which a streaming handler takes the
    guard so that it lives as long as the stream.

    Requests run concurrently: a state holds the counter and one [Task] per request,
    a step is one atomic action of one of them, and [compare_exchange_weak] may fail
    for no reason.  The theorems: in every reachable state the counter is the number
    of live guards and never exceeds the cap, whatever the interleaving; a request is
    refused only when the cap is reached; an attempt that is not disturbed ends. *)

From S2P Require Import Prelude.
Open Scope Z_scope.

Record Inner := {
  current : Z;
  cap : Z;
}.

Definition new (cap : Z) : Inner := {| current := 0; cap := cap |}.

(** [AdmissionGuard]: [inner] is [None] when the cap is 0. *)
Record AdmissionGuard := { guard_inner : bool }.

(** [Drop for AdmissionGuard]. *)
Definition guard_drop (g : AdmissionGuard) (a : Inner) : Inner :=
  if guard_inner g then {| current := fetch_sub (current a) 1; cap := cap a |} else a.

Definition drop_opt (g : option AdmissionGuard) (a : Inner) : Inner :=
  match g with Some g => guard_drop g a | None => a end.

(** What the first half of one round of [try_acquire]'s loop decides: return, or try
    to exchange the value it read. *)
Inductive Attempt :=
  | Return (g : option AdmissionGuard)
  | Exchange (c : Z).

(** [try_acquire] up to the [load] of a round. *)
Definition try_acquire_load (a : Inner) : Attempt :=
  if cap a =? 0 then Return (Some {| guard_inner := false |})
  else if cap a <=? current a then Return None
  else Exchange (current a).

(** The [compare_exchange_weak] of a round; [spurious] is its licence to fail. *)
Definition try_acquire_exchange (spurious : bool) (c : Z) (a : Inner)
    : option AdmissionGuard * Inner :=
  if negb spurious && (current a =? c) then
    (Some {| guard_inner := true |}, {| current := c + 1; cap := cap a |})
  else (None, a).

(** ** The slot cell *)

(** [AdmissionSlot::take]: the guard and the emptied cell. *)
Definition slot_take (cell : option AdmissionGuard) : option AdmissionGuard * option AdmissionGuard :=
  (cell, None).

(** ** Requests *)

(** A request: in the loop of [try_acquire]; refused; running its handler with the
    middleware's cell and what a stream has taken from it; answered, perhaps with a
    stream that goes on. *)
Inductive Task :=
  | Acquiring
  | Loaded (c : Z)
  | Refused
  | Running (cell : option AdmissionGuard) (stream : option AdmissionGuard)
  | Responded (stream : option AdmissionGuard).

Record State := {
  counter : Inner;
  tasks : list Task;
}.

(** The atomic actions of request [i]. *)
Inductive Action :=
  | Arrive                            (** a new request enters [try_acquire] *)
  | Load (i : nat)
  | Cas (i : nat) (spurious : bool)
  | TakeSlot (i : nat)                (** the handler moves the guard into its stream *)
  | EndStream (i : nat)               (** the stream's task ends and drops its guard *)
  | Respond (i : nat).                (** [next.run] returned: the middleware takes and drops *)

Definition set_task (i : nat) (t : Task) (a : Inner) (s : State) : State :=
  {| counter := a; tasks := <[i := t]> (tasks s) |}.

Definition with_guard (g : AdmissionGuard) : Task := Running (Some g) None.

Definition step (act : Action) (s : State) : option State :=
  match act with
  | Arrive => Some {| counter := counter s; tasks := tasks s ++ [Acquiring] |}
  | Load i =>
      match tasks s !! i with
      | Some Acquiring =>
          Some (set_task i (match try_acquire_load (counter s) with
                            | Return (Some g) => with_guard g
                            | Return None => Refused
                            | Exchange c => Loaded c
                            end) (counter s) s)
      | _ => None
      end
  | Cas i spurious =>
      match tasks s !! i with
      | Some (Loaded c) =>
          let '(g, a) := try_acquire_exchange spurious c (counter s) in
          Some (set_task i (match g with Some g => with_guard g | None => Acquiring end) a s)
      | _ => None
      end
  | TakeSlot i =>
      match tasks s !! i with
      | Some (Running cell stream) =>
          let '(g, cell) := slot_take cell in
          Some (set_task i (Running cell (match g with Some g => Some g | None => stream end))
                  (counter s) s)
      | _ => None
      end
  | EndStream i =>
      match tasks s !! i with
      | Some (Running cell (Some g)) =>
          Some (set_task i (Running cell None) (guard_drop g (counter s)) s)
      | Some (Responded (Some g)) =>
          Some (set_task i (Responded None) (guard_drop g (counter s)) s)
      | _ => None
      end
  | Respond i =>
      match tasks s !! i with
      | Some (Running cell stream) =>
          let '(held, _) := slot_take cell in
          Some (set_task i (Responded stream) (drop_opt held (counter s)) s)
      | _ => None
      end
  end.

Definition start (cap : Z) : State := {| counter := new cap; tasks := [] |}.

Inductive reachable (cap : Z) : State -> Prop :=
  | reach_start : reachable cap (start cap)
  | reach_step s act s' : reachable cap s -> step act s = Some s' -> reachable cap s'.

(** ** The invariant *)

Definition counted (g : option AdmissionGuard) : Z :=
  match g with Some g => if guard_inner g then 1 else 0 | None => 0 end.

(** The counted guards a request holds. *)
Definition held (t : Task) : Z :=
  match t with
  | Running cell stream => counted cell + counted stream
  | Responded stream => counted stream
  | _ => 0
  end.

Definition sum_held (l : list Task) : Z := foldr (fun t n => held t + n) 0 l.

(** The guards alive in a state. *)
Definition live (s : State) : Z := sum_held (tasks s).

(** A guard counts exactly when there is a cap, and a pending exchange has read a
    value below it. *)
Definition task_ok (cap : Z) (t : Task) : Prop :=
  match t with
  | Loaded c => cap <> 0 /\ 0 <= c < cap
  | Running cell stream =>
      (cell = None \/ stream = None) /\
      (forall g, cell = Some g -> guard_inner g = negb (cap =? 0)) /\
      (forall g, stream = Some g -> guard_inner g = negb (cap =? 0))
  | Responded stream => forall g, stream = Some g -> guard_inner g = negb (cap =? 0)
  | _ => True
  end.

Definition inv (c : Z) (s : State) : Prop :=
  cap (counter s) = c /\ current (counter s) = live s /\ live s <= c /\
  Forall (task_ok c) (tasks s).

Lemma held_nonneg t : 0 <= held t.
Proof. destruct t as [| | |[[[]]|] [[[]]|]|[[[]]|]]; simpl; lia. Qed.

Lemma sum_held_app l k : sum_held (l ++ k) = sum_held l + sum_held k.
Proof. induction l as [|t l IH]; simpl; [done|]. unfold sum_held in *. lia. Qed.

Lemma sum_held_insert l i t u :
  l !! i = Some t -> sum_held (<[i := u]> l) = sum_held l - held t + held u.
Proof.
  revert i. induction l as [|x l IH]; intros [|i] Hi; simplify_eq/=.
  - unfold sum_held. simpl. lia.
  - specialize (IH _ Hi). unfold sum_held in *. simpl. lia.
Qed.

Lemma sum_held_nonneg l : 0 <= sum_held l.
Proof. induction l as [|t l IH]; simpl; [done|]. pose proof (held_nonneg t). unfold sum_held in *. lia. Qed.

Lemma sum_held_ge l i t : l !! i = Some t -> held t <= sum_held l.
Proof.
  revert i. induction l as [|x l IH]; intros [|i] Hi; simplify_eq/=.
  - pose proof (sum_held_nonneg l). unfold sum_held in *. simpl. lia.
  - specialize (IH _ Hi). pose proof (held_nonneg x). unfold sum_held in *. simpl. lia.
Qed.

(** A step on one request that keeps the books: the counter moves by what the
    request's holding moves. *)
Lemma inv_set_task c s i t u a :
  inv c s -> tasks s !! i = Some t -> task_ok c u ->
  cap a = c -> current a = current (counter s) - held t + held u ->
  live s - held t + held u <= c ->
  inv c (set_task i u a s).
Proof.
  intros (Hc & Hcur & Hle & Hall) Hi Hu Ha Hcur' Hle'. unfold inv, live, set_task in *. simpl.
  rewrite (sum_held_insert _ _ _ _ Hi). repeat split; [done|lia|lia|].
  by apply Forall_insert.
Qed.

(** Dropping a guard of request [i]. *)
Lemma inv_drop c s i t u g :
  0 <= c <= usize_max -> inv c s -> tasks s !! i = Some t -> task_ok c u ->
  guard_inner g = negb (c =? 0) -> held t = counted (Some g) + held u ->
  inv c (set_task i u (guard_drop g (counter s)) s).
Proof.
  intros Hc Hinv Hi Hu Hg Hheld. pose proof Hinv as (Hcap & Hcur & Hle & _).
  pose proof (sum_held_ge _ _ _ Hi) as Hge. pose proof (held_nonneg u).
  unfold live in *. unfold guard_drop. simpl in Hheld. destruct (guard_inner g);
    apply (inv_set_task _ _ _ _ _ _ Hinv Hi); unfold live; simpl; try done; try lia.
  rewrite fetch_sub_small; lia.
Qed.

Lemma admission_step_inv c s act s' :
  0 <= c <= usize_max -> inv c s -> step act s = Some s' -> inv c s'.
Proof.
  intros Hc Hinv. pose proof Hinv as (Hcap & Hcur & Hle & Hall).
  destruct act as [|i|i spurious|i|i|i]; simpl.
  - intros [= <-]. unfold inv, live in *. simpl. rewrite sum_held_app. simpl.
    repeat split; [done|lia|lia|]. apply Forall_app. split; [done|]. by constructor.
  - destruct (tasks s !! i) as [[]|] eqn:Hi; try done. intros [= <-].
    unfold try_acquire_load. destruct (cap (counter s) =? 0) eqn:H0; to_prop.
    { apply (inv_set_task _ _ _ _ _ _ Hinv Hi); simpl; try lia.
      repeat split; [by right| |done]. intros g [= <-]. simpl. subst c. by rewrite H0. }
    destruct (cap (counter s) <=? current (counter s)) eqn:H1; to_prop;
      apply (inv_set_task _ _ _ _ _ _ Hinv Hi); simpl; try lia.
    pose proof (sum_held_nonneg (tasks s)). unfold live in *. lia.
  - destruct (tasks s !! i) as [[]|] eqn:Hi; try done.
    pose proof (Forall_lookup_1 _ _ _ _ Hall Hi) as [Hc0 Hlt]. unfold try_acquire_exchange.
    destruct (negb spurious && (current (counter s) =? c0)) eqn:He; intros [= <-];
      apply (inv_set_task _ _ _ _ _ _ Hinv Hi); simpl; to_prop; try lia.
    repeat split; [by right| |done]. intros g [= <-]. simpl. by rewrite (proj2 (Z.eqb_neq _ _)).
  - destruct (tasks s !! i) as [[| | |cell stream|]|] eqn:Hi; try done. intros [= <-].
    pose proof (Forall_lookup_1 _ _ _ _ Hall Hi) as (Hor & Hok1 & Hok2).
    apply (inv_set_task _ _ _ _ _ _ Hinv Hi); destruct cell as [g|], stream as [g'|];
      simpl; try lia; naive_solver lia.
  - destruct (tasks s !! i) as [[| | |cell [g|]|[g|]]|] eqn:Hi; try done; intros [= <-];
      pose proof (Forall_lookup_1 _ _ _ _ Hall Hi) as Hok; simpl in Hok;
      apply (inv_drop _ _ _ _ _ _ Hc Hinv Hi); simpl; try lia; naive_solver.
  - destruct (tasks s !! i) as [[| | |[g|] st|]|] eqn:Hi; try done; intros [= <-];
      pose proof (Forall_lookup_1 _ _ _ _ Hall Hi) as Hok; simpl in Hok.
    + apply (inv_drop _ _ _ _ _ _ Hc Hinv Hi); simpl; try lia; naive_solver.
    + apply (inv_set_task _ _ _ _ _ _ Hinv Hi); simpl; try lia; naive_solver.
Qed.

Lemma admission_inv c s : 0 <= c <= usize_max -> reachable c s -> inv c s.
Proof.
  intros Hc. induction 1 as [|s act s' _ IH Hstep]; [|by eapply admission_step_inv].
  unfold inv, start, live. simpl. repeat split; [lia|constructor].
Qed.

Fixpoint run (acts : list Action) (s : State) : option State :=
  match acts with
  | [] => Some s
  | act :: acts => match step act s with Some s => run acts s | None => None end
  end.

Lemma admission_run_reachable c acts s s' : reachable c s -> run acts s = Some s' -> reachable c s'.
Proof.
  revert s. induction acts as [|act acts IH]; simpl; intros s Hr; [by intros [= <-]|].
  destruct (step act s) as [s1|] eqn:Hs; [|done]. apply IH. by eapply reach_step.
Qed.

(** A request that no other step disturbs leaves [try_acquire] after at most two
    steps, refused exactly when the slots are all held. *)
Theorem undisturbed_acquire_ends c s i :
  0 <= c <= usize_max -> reachable c s -> tasks s !! i = Some Acquiring ->
  exists acts s', (length acts <= 2)%nat /\ run acts s = Some s' /\
    tasks s' !! i = Some (if (0 <? c) && (c <=? live s) then Refused
                          else with_guard {| guard_inner := negb (c =? 0) |}).
Proof.
  intros Hc Hr Hi. destruct (admission_inv _ _ Hc Hr) as (Hcap & Hcur & Hle & _).
  pose proof (lookup_lt_Some _ _ _ Hi) as Hlt.
  assert (step (Load i) s = Some (set_task i (match try_acquire_load (counter s) with
      | Return (Some g) => with_guard g | Return None => Refused | Exchange c => Loaded c end)
      (counter s) s)) as Hload by (simpl; by rewrite Hi).
  unfold try_acquire_load in Hload. rewrite Hcap, Hcur in Hload.
  destruct (c =? 0) eqn:H0; to_prop; [|destruct (c <=? live s) eqn:H1; to_prop].
  - exists [Load i]. eexists. split; [simpl; lia|]. cbn [run]. rewrite Hload. split; [done|].
    simpl. rewrite list_lookup_insert_eq by done. by rewrite (proj2 (Z.ltb_ge 0 c)) by lia.
  - exists [Load i]. eexists. split; [simpl; lia|]. cbn [run]. rewrite Hload. split; [done|].
    simpl. rewrite list_lookup_insert_eq by done. by rewrite (proj2 (Z.ltb_lt 0 c)) by lia.
  - exists [Load i; Cas i false]. eexists. split; [simpl; lia|]. cbn [run]. rewrite Hload.
    unfold step, set_task, try_acquire_exchange. cbn [tasks counter].
    rewrite (list_lookup_insert_eq (tasks s) i (Loaded (live s))) by done. rewrite Hcur, Z.eqb_refl. simpl. split; [done|].
    simpl. rewrite list_insert_insert_eq, list_lookup_insert_eq by done. by rewrite andb_false_r.
Qed.

(** C25. In every interleaving of the atomic steps of concurrent requests the
    admission counter equals the number of slots held, never exceeds the cap, a
    request is refused exactly when the slots are all held at the moment it reads
    the counter, and when none are held the counter is back at 0. *)
Theorem admission_exact c s :
  0 <= c <= usize_max -> reachable c s ->
  current (counter s) = live s /\ live s <= c /\
  (forall i, tasks s !! i = Some Acquiring ->
     exists s', step (Load i) s = Some s' /\
       (tasks s' !! i = Some Refused <-> 0 < c /\ live s = c)) /\
  (Forall (fun t => held t = 0) (tasks s) -> current (counter s) = 0).
Proof.
  intros Hc Hr. destruct (admission_inv _ _ Hc Hr) as (Hcap & Hcur & Hle & _).
  repeat split; [done|done| |].
  - intros i Hi. simpl. rewrite Hi. eexists. split; [done|]. simpl.
    rewrite list_lookup_insert_eq by (by eapply lookup_lt_Some).
    unfold try_acquire_load. repeat case_goal; to_prop; simplify_eq/=; split; try done; lia.
  - intros Hall. rewrite Hcur. unfold live. induction Hall as [|t l Ht _ IH]; [done|].
    simpl. unfold sum_held in *. lia.
Qed.

(** Two requests race for the only slot: both read 0, one exchange wins, the loser
    retries and is refused; the winner streams and gives the slot back at the end. *)
Definition race : list Action :=
  [Arrive; Arrive; Load 0; Load 1; Cas 1 false; Cas 0 false; TakeSlot 1; Respond 1].

Lemma admission_exact_witness :
  match run race (start 1) with
  | Some s => current (counter s) = live s /\ live s <= 1
  | None => False
  end.
Proof.
  destruct (run race (start 1)) as [s|] eqn:Hs; [|vm_compute in Hs; discriminate].
  destruct (admission_exact 1 s) as (H1 & H2 & _);
    [unfold usize_max; lia|exact (admission_run_reachable 1 _ _ _ (reach_start 1) Hs)|].
  split; assumption.
Defined.
