(* ===== verification/RateLimitProps.v ===== *)
(** * Properties of the rate limiter

    About [RateLimit.v]: fail-closed rates, the range of Retry-After, the exact burst of
    a fresh bucket, the bound on the number of buckets and their independence. *)

From S2P Require Import Prelude Text Float Errors RateLimit.
Import Errors.Render.
Open Scope string_scope.
Open Scope Z_scope.

#[local] Arguments of_Z : simpl never.
#[local] Arguments SFadd : simpl never.
#[local] Arguments SFsub : simpl never.
#[local] Arguments SFmul : simpl never.
#[local] Arguments SFdiv : simpl never.
#[local] Arguments SFltb : simpl never.
#[local] Arguments SFleb : simpl never.

(** ** One bucket *)

Lemma spend_range b r b' : spend b = (r, b') -> forall secs, r = Rejected secs ->
  1 <= secs <= MAX_RETRY_AFTER_SECS.
Proof.
  unfold spend. case_goal; intros [= <- <-] secs [=]; subst.
  by apply (clamp_range MAX_RETRY_AFTER_SECS).
Qed.

Lemma differs_refl x : is_finite x = true -> differs x x = false.
Proof.
  unfold differs, SFsub. destruct x as [s| | |s m e]; try done; intros _.
  - by destruct s.
  - by rewrite Z.sub_diag.
Qed.

(** The state of a bucket with whole tokens, [j] left of [k]. *)
Definition whole (r : spec_float) (k j : Z) (now : Instant) : TokenBucket :=
  {| rate := r; capacity := f64_of_Z k; tokens := f64_of_Z j; last_update := now |}.

Lemma of_Z_finite z : 0 <= z < 2 ^ 53 -> is_finite (f64_of_Z z) = true.
Proof. intros Hz. destruct z as [|z|z]; [done| |lia]. by rewrite of_Z_exact by lia. Qed.

Lemma add_zero j s : 0 <= j < 2 ^ 53 -> f64_add (f64_of_Z j) (S754_zero s) = f64_of_Z j.
Proof. intros Hj. destruct j as [|j|j]; [by destruct s| |lia]. by rewrite of_Z_exact by lia. Qed.

Lemma whole_at_once r k j now :
  is_finite r = true -> 0 <= j <= k -> k < 2 ^ 53 ->
  replenish now (refresh r (f64_of_Z k) (whole r k j now)) = whole r k j now.
Proof.
  intros Hr Hj Hk. unfold refresh, whole. simpl.
  rewrite !differs_refl by (by rewrite ?of_Z_finite by lia). simpl.
  unfold replenish, elapsed. simpl. rewrite Z.sub_diag.
  change (as_secs_f64 (Z.max 0 0)) with float_zero.
  assert (exists s, f64_mul float_zero r = S754_zero s) as [s ->] by (destruct r; try done; by eexists).
  rewrite add_zero by lia. f_equal. unfold fmin.
  by rewrite !of_Z_not_nan, of_Z_ltb, (proj2 (Z.ltb_ge _ _)) by lia.
Qed.

Lemma spend_whole r k j now :
  0 <= j < 2 ^ 53 ->
  if 1 <=? j then spend (whole r k j now) = (Allowed, whole r k (j - 1) now)
  else exists secs, spend (whole r k j now) = (Rejected secs, whole r k j now).
Proof.
  intros Hj. unfold spend, whole, one. simpl. rewrite of_Z_leb by lia.
  destruct (Z.leb_spec 1 j); [|by eexists]. by rewrite of_Z_pred by lia.
Qed.

(** ** Runs *)

(** Requests at the given instants, under one policy. *)
Fixpoint acquires (nows : list Instant) (key : string) (rpm burst : spec_float) (l : RateLimiter)
    : list AcquireResult * RateLimiter :=
  match nows with
  | [] => ([], l)
  | now :: nows =>
      let '(r, l) := acquire now key rpm burst l in
      let '(rs, l) := acquires nows key rpm burst l in
      (r :: rs, l)
  end.

Definition acquire_n (n : nat) (now : Instant) : string -> spec_float -> spec_float -> RateLimiter ->
    list AcquireResult * RateLimiter :=
  acquires (replicate n now).

Section burst.
Variables (now : Instant) (key : string) (rpm : spec_float) (k : Z).
Hypothesis good_rpm : bad_rpm rpm = false.
Hypothesis good_rate : is_finite (f64_div rpm sixty) = true.
Hypothesis good_burst : 0 <= k < 2 ^ 53.

Let r := f64_div rpm sixty.

Lemma acquire_whole l j :
  buckets l !! key = Some (whole r k j now) -> 0 <= j <= k ->
  if 1 <=? j then
    acquire now key rpm (f64_of_Z k) l = (Allowed, set_bucket key (whole r k (j - 1) now) l)
  else exists secs,
    acquire now key rpm (f64_of_Z k) l = (Rejected secs, set_bucket key (whole r k j now) l).
Proof.
  intros Hl Hj. unfold acquire. rewrite good_rpm, Hl. fold r. rewrite whole_at_once by (try done; lia).
  pose proof (spend_whole r k j now ltac:(lia)) as Hs.
  destruct (1 <=? j); [by rewrite Hs|]. destruct Hs as [secs ->]. by exists secs.
Qed.

Lemma acquire_n_whole n l j :
  buckets l !! key = Some (whole r k j now) -> 0 <= j <= k ->
  forall i, (i < n)%nat ->
    exists a, fst (acquire_n n now key rpm (f64_of_Z k) l) !! i = Some a /\
      (a = Allowed <-> Z.of_nat i < j).
Proof.
  unfold acquire_n. revert l j. induction n as [|n IH]; intros l j Hl Hj i Hi; [lia|]. simpl.
  pose proof (acquire_whole l j Hl Hj) as Ha.
  destruct (Z.leb_spec 1 j) as [H1|H1].
  - rewrite Ha. specialize (IH (set_bucket key (whole r k (j - 1) now) l) (j - 1)).
    destruct (acquires (replicate n now) _ _ _ _) as [rs l'] eqn:Hn. simpl in *.
    destruct i as [|i]; [exists Allowed; split; [done|]; split; [lia|done]|].
    destruct (IH ltac:(by simpl_map) ltac:(lia) i ltac:(lia)) as (a & Hai & Hiff).
    exists a. split; [done|]. rewrite Hiff. lia.
  - destruct Ha as [secs Ha]. rewrite Ha. specialize (IH (set_bucket key (whole r k j now) l) j).
    destruct (acquires (replicate n now) _ _ _ _) as [rs l'] eqn:Hn. simpl in *.
    destruct i as [|i]; [exists (Rejected secs); split; [done|]; split; [done|lia]|].
    destruct (IH ltac:(by simpl_map) ltac:(lia) i ltac:(lia)) as (a & Hai & Hiff).
    exists a. split; [done|]. rewrite Hiff. lia.
Qed.

(** The first request creates the bucket full. *)
Lemma acquire_fresh l :
  buckets l !! key = None -> max_buckets l = 0 \/ Z.of_nat (size (buckets l)) < max_buckets l ->
  acquire now key rpm (f64_of_Z k) l
  = acquire now key rpm (f64_of_Z k) (set_bucket key (whole r k k now) l).
Proof.
  intros Hl Hroom. unfold acquire. rewrite good_rpm, Hl. simpl. rewrite lookup_insert_eq.
  assert (negb (max_buckets l =? 0) && (max_buckets l <=? Z.of_nat (size (buckets l))) = false) as ->.
  { destruct Hroom as [->|Hr]; [done|]. apply andb_false_iff. right. by apply Z.leb_gt. }
  fold r. change (bucket_new r (f64_of_Z k) now) with (whole r k k now).
  destruct (spend _) as [a b]. unfold set_bucket. simpl. by rewrite insert_insert_eq.
Qed.
End burst.

(** ** What a gate asks of the limiter *)

Lemma acquire_unfold now key rpm burst l :
  (exists secs, acquire now key rpm burst l = (Rejected secs, l) /\ secs = 1) \/
  (bad_rpm rpm = false /\ exists b0 b r,
     (buckets l !! key = Some b0 \/
      buckets l !! key = None /\ b0 = bucket_new (f64_div rpm sixty) burst now /\
      (max_buckets l = 0 \/ Z.of_nat (size (buckets l)) < max_buckets l)) /\
     spend (replenish now (refresh (f64_div rpm sixty) burst b0)) = (r, b) /\
     acquire now key rpm burst l = (r, set_bucket key b l)).
Proof.
  unfold acquire. destruct (bad_rpm rpm) eqn:Hbad; [left; by exists 1|].
  destruct (buckets l !! key) as [b0|] eqn:Hb.
  - right. split; [done|]. destruct (spend _) as [r b] eqn:Hs. exists b0, b, r. auto.
  - destruct (negb _ && _) eqn:Hfull; [left; by exists 1|]. right. split; [done|].
    destruct (spend _) as [r b] eqn:Hs. eexists _, b, r. split_and!; [|done|done].
    right. split_and!; [done|done|]. apply andb_false_iff in Hfull as [Hz|Hz].
    + apply negb_false_iff, Z.eqb_eq in Hz. by left.
    + apply Z.leb_gt in Hz. by right.
Qed.

(** The operations on a limiter, for runs. *)
Inductive Op :=
  | OpAcquire (now : Instant) (key : string) (rpm burst : spec_float)
  | OpCleanup (now : Instant) (max_age : Duration) (locked : string -> bool).

Definition apply_op (o : Op) (l : RateLimiter) : RateLimiter :=
  match o with
  | OpAcquire now key rpm burst => snd (acquire now key rpm burst l)
  | OpCleanup now max_age locked => snd (cleanup_stale now max_age locked l)
  end.

Definition bounded (l : RateLimiter) : Prop :=
  max_buckets l = 0 \/ Z.of_nat (size (buckets l)) <= max_buckets l.

Lemma apply_op_bounded o l :
  bounded l -> bounded (apply_op o l) /\ max_buckets (apply_op o l) = max_buckets l.
Proof.
  unfold bounded. intros Hl. destruct o as [now key rpm burst|now max_age locked]; simpl.
  - destruct (acquire_unfold now key rpm burst l)
      as [(secs & -> & _)|(_ & b0 & b & r & Hb0 & _ & ->)]; simpl; [done|]. split; [|done].
    destruct Hb0 as [Hb|(Hb & _ & Hroom)].
    + rewrite map_size_insert_Some; [done|]. by eexists.
    + rewrite map_size_insert_None by done. lia.
  - split; [|done]. destruct Hl as [?|Hl]; [by left|right].
    pose proof (map_subseteq_size _ _ (map_filter_subseteq
      (fun kb => stale now max_age locked kb.1 kb.2 = false) (buckets l))). lia.
Qed.

(** A useless rate is rejected without a trace, a retry hint lies between a second
    and a day, and a request touches only the bucket of its key. *)
Theorem rejections_are_sane now key rpm burst l :
  let '(r, l') := acquire now key rpm burst l in
  (bad_rpm rpm = true -> r = Rejected 1 /\ l' = l) /\
  (forall secs, r = Rejected secs -> 1 <= secs <= MAX_RETRY_AFTER_SECS) /\
  (forall key', key' <> key -> buckets l' !! key' = buckets l !! key').
Proof.
  destruct (acquire now key rpm burst l) as [r l'] eqn:Ha.
  destruct (acquire_unfold now key rpm burst l)
    as [(secs & Hr & Hsecs)|(Hgood & b0 & b & r0 & _ & Hs & Hr)]; rewrite Hr in Ha;
    injection Ha as <- <-.
  - subst secs. split_and!; [done| |done]. intros ? [= <-]. unfold MAX_RETRY_AFTER_SECS. lia.
  - split_and!; [by rewrite Hgood| |].
    + by eapply spend_range.
    + intros key' Hne. simpl. by rewrite lookup_insert_ne.
Qed.

(** A fresh token bucket admits exactly its burst: of the requests of a new key made
    at one instant, the first [k] are allowed and all others rejected, for every
    positive rate and every whole burst [k] below 2 to the 53, in binary64
    arithmetic. *)
Theorem burst_admitted_exactly now key rpm k l n i :
  bad_rpm rpm = false -> is_finite (f64_div rpm sixty) = true -> 0 <= k < 2 ^ 53 ->
  buckets l !! key = None -> max_buckets l = 0 \/ Z.of_nat (size (buckets l)) < max_buckets l ->
  (i < n)%nat ->
  exists a, fst (acquire_n n now key rpm (f64_of_Z k) l) !! i = Some a /\
    (a = Allowed <-> Z.of_nat i < k).
Proof.
  intros Hrpm Hrate Hk Hfresh Hroom Hi. destruct n as [|n]; [lia|].
  assert (fst (acquire_n (S n) now key rpm (f64_of_Z k) l)
    = fst (acquire_n (S n) now key rpm (f64_of_Z k) (set_bucket key (whole (f64_div rpm sixty) k k now) l))) as ->
    by (unfold acquire_n; simpl; by rewrite acquire_fresh).
  apply (acquire_n_whole now key rpm k Hrpm Hrate Hk (S n) _ k); [|lia|done].
  simpl. apply lookup_insert_eq.
Qed.

(** Over any requests and cleanups the number of buckets stays within the limiter's
    maximum. *)
Theorem buckets_stay_bounded ops max :
  0 <= max -> let l := foldl (fun l o => apply_op o l) (limiter_new max) ops in
  max = 0 \/ Z.of_nat (size (buckets l)) <= max.
Proof.
  intros Hmax l.
  assert (forall l0, bounded l0 ->
    bounded (foldl (fun l o => apply_op o l) l0 ops) /\
    max_buckets (foldl (fun l o => apply_op o l) l0 ops) = max_buckets l0) as Hrun.
  { clear. induction ops as [|o ops IH]; intros l0 H0; [done|]. simpl.
    destruct (apply_op_bounded o l0 H0) as [Hb Hm]. destruct (IH _ Hb) as [? ->]. done. }
  destruct (Hrun (limiter_new max)) as [Hb Hm]; [by right|]. fold l in Hb, Hm. unfold bounded in Hb.
  rewrite Hm in Hb. exact Hb.
Qed.

(** ** Policies that admit nothing *)

(** A bucket under one policy keeps its capacity. *)
Lemma spend_capacity b r b' : spend b = (r, b') -> capacity b' = capacity b.
Proof. unfold spend. case_goal; by intros [= <- <-]. Qed.

Lemma refresh_capacity r burst b :
  capacity b = burst -> capacity (refresh r burst b) = burst.
Proof. intros Hb. unfold refresh. by case_goal. Qed.

(** A burst below one admits nothing, ever: the bucket cannot hold a whole token. *)
Theorem burst_below_one_admits_nothing rpm burst key nows l :
  flt burst one = true -> buckets l !! key = None ->
  Forall (fun a => a <> Allowed) (fst (acquires nows key rpm burst l)).
Proof.
  intros Hburst Hfresh.
  set (ok l := forall b, buckets l !! key = Some b -> capacity b = burst).
  assert (Hstep : forall now l, ok l ->
    fst (acquire now key rpm burst l) <> Allowed /\ ok (snd (acquire now key rpm burst l))).
  { intros now l0 Hok. destruct (acquire_unfold now key rpm burst l0)
      as [(secs & -> & _)|(_ & b0 & b & r & Hb0 & Hs & ->)]; simpl; [done|].
    assert (capacity b0 = burst) as Hc0 by (destruct Hb0 as [Hb0|(_ & -> & _)]; auto).
    pose proof (refresh_capacity (f64_div rpm sixty) burst b0 Hc0) as Hc. split.
    - revert Hs. unfold spend at 1, replenish at 1. simpl. rewrite Hc.
      rewrite (fmin_ge _ _ _ Hburst). by intros [= <- _].
    - intros b'. unfold set_bucket. simpl. rewrite lookup_insert_eq. intros [= <-].
      rewrite (spend_capacity _ _ _ Hs). exact Hc. }
  assert (ok l) as Hok by (intros b Hb; congruence). clear Hfresh. revert l Hok.
  induction nows as [|now nows IH]; intros l Hok; [constructor|]. simpl.
  destruct (Hstep now l Hok) as [Hr Hl]. destruct (acquire now key rpm burst l) as [r l'].
  specialize (IH l' Hl). destruct (acquires nows key rpm burst l') as [rs l'']. by constructor.
Qed.

(** Without a [burst], a policy of one request every two minutes is such a policy. *)
Definition half_per_minute : RateLimitPolicy :=
  {| requests_per_minute := lit 53 1024 1 (-1); rl_key := "ip"; rl_burst := None |}.

Lemma burst_below_one_witness :
  Forall (fun a => a <> Allowed)
    (fst (acquires [0; from_secs 3600] "m:1.2.3.4" (requests_per_minute half_per_minute)
            (burst_of half_per_minute) (limiter_new 0))).
Proof.
  apply (burst_below_one_admits_nothing (requests_per_minute half_per_minute)
           (burst_of half_per_minute) "m:1.2.3.4").
  - vm_compute. reflexivity.
  - reflexivity.
Defined.

(** Ten minutes of silence evict a bucket, and the next request finds a full one: after
    600 seconds at one token a minute, 100 requests pass where 10 tokens were earned. *)
Definition count_allowed (rs : list AcquireResult) : nat := count_if (fun r => bool_decide (r = Allowed)) rs.

Theorem eviction_refills_bucket :
  let spent := snd (acquire_n 100 0 "m:ip" (f64_of_Z 1) (f64_of_Z 100) (limiter_new 0)) in
  let later := from_secs 600 in
  let evicted := snd (cleanup_stale later (from_secs 600) (fun _ => false) spent) in
  count_allowed (fst (acquire_n 100 later "m:ip" (f64_of_Z 1) (f64_of_Z 100) spent)) = 10%nat /\
  count_allowed (fst (acquire_n 100 later "m:ip" (f64_of_Z 1) (f64_of_Z 100) evicted)) = 100%nat.
Proof. split; vm_compute; reflexivity. Qed.

(** Buckets of distinct models are distinct: a model name has no colon. *)
Lemma bucket_key_model m m' s s' :
  has_char ":"%char m = false -> has_char ":"%char m' = false ->
  bucket_key m s = bucket_key m' s' -> m = m' /\ s = s'.
Proof.
  unfold bucket_key. revert m'. induction m as [|c m IH]; intros [|c' m'] Hm Hm' H; simpl in *;
    injection H; clear H.
  - intros H. by split.
  - intros _ <-. by rewrite eq_char_refl in Hm'.
  - intros _ ->. by rewrite eq_char_refl in Hm.
  - apply orb_false_iff in Hm as [_ Hm], Hm' as [_ Hm'].
    intros H ->. destruct (IH m') as [-> ->]; auto.
Qed.

(** The HTTP and the gRPC gate draw on the same buckets and give the same verdict.
    *)
Theorem gates_share_buckets now rl model ip l :
  let '(h, l1) := enforce_rate_limit now rl model ip l in
  let '(g, l2) := enforce_grpc_rate_limit now rl model ip l in
  l1 = l2 /\
  match h, g with
  | Ok _, Ok _ => True
  | Err (RateLimitExceeded secs), Err st =>
      code st = ResourceExhausted /\ retry_after st = Some secs /\ 1 <= secs <= MAX_RETRY_AFTER_SECS
  | _, _ => False
  end.
Proof.
  unfold enforce_rate_limit, enforce_grpc_rate_limit. destruct rl as [rl|]; [|done].
  destruct (acquire_unfold now (bucket_key model (rl_scope rl ip)) (requests_per_minute rl) (burst_of rl) l)
    as [(secs & -> & ->)|(_ & b0 & b & r & _ & Hs & ->)].
  - simpl. unfold MAX_RETRY_AFTER_SECS. split_and!; try done; lia.
  - destruct r as [|secs]; [done|]. split_and!; try done; by eapply (spend_range _ _ _ Hs).
Qed.

(** ** The theorems at concrete inputs *)

Lemma burst_admitted_witness :
  exists a, fst (acquire_n 4 0 "m:ip" (f64_of_Z 60) (f64_of_Z 3) (limiter_new 10)) !! 2%nat = Some a /\
    (a = Allowed <-> 2 < 3).
Proof.
  apply (burst_admitted_exactly 0 "m:ip" (f64_of_Z 60) 3 (limiter_new 10) 4 2);
    [vm_compute; reflexivity|vm_compute; reflexivity|lia|reflexivity|right; vm_compute; reflexivity|lia].
Defined.

Lemma buckets_stay_bounded_witness :
  1 = 0 \/ Z.of_nat (size (buckets (foldl (fun l o => apply_op o l) (limiter_new 1)
    [OpAcquire 0 "a:x" (f64_of_Z 60) (f64_of_Z 3); OpAcquire 0 "b:y" (f64_of_Z 60) (f64_of_Z 3)]))) <= 1.
Proof. apply (buckets_stay_bounded _ 1). lia. Defined.
