(* ===== verification/Outlier.v ===== *)
(** * Outlier detection: the per-worker circuit breaker and recycle tickets

    Models [OutlierState] of [src/src/inference_queue.rs]: one slot per worker
    process, shared by the batch dispatcher, the health checker, the streaming
    path and the worker manager.  Each slot carries a circuit breaker (closed,
    open, half-open) with exponential backoff, a kill streak, a process-liveness
    flag, a rolling-recycle claim and a count of in-flight streams.

    The source keeps the state behind [&self] in atomics and mutexes; every
    operation here takes the state and returns the new one.  An operation reads
    the clock once, as its [now] argument. *)

From S2P Require Import Prelude.
Open Scope Z_scope.

(** ** State *)

Record EjectedWorker := {
  ejected_at : Instant;
  half_open : bool;
}.

Record WorkerOutlier := {
  w_consecutive_errors : Z;
  w_ejection_series : Z;
  w_ejected : option EjectedWorker;
  w_consecutive_kills : Z;
  w_dead : bool;
  w_recycling : bool;
  w_stream_inflight : Z;
}.

Record EjectionConfig := {
  error_threshold : Z;
  timeout : Duration;
  max_percent : Z;
  max_timeout : Duration;
  recycle_max_percent : Z;
}.

Record OutlierState := {
  workers : list WorkerOutlier;
  recycling_claims : Z;
  max_recycling : Z;
  consecutive_threshold : Z;
  base_ejection_time : Duration;
  max_ejection_percent : Z;
  max_ejection_time : Duration;
}.

Definition EjectionConfig_default : EjectionConfig := {|
  error_threshold := 3;
  timeout := from_secs 30;
  max_percent := 50;
  max_timeout := from_secs 300;
  recycle_max_percent := 10;
|}.

(** A slot as constructed. *)
Definition fresh_worker : WorkerOutlier := {|
  w_consecutive_errors := 0;
  w_ejection_series := 0;
  w_ejected := None;
  w_consecutive_kills := 0;
  w_dead := false;
  w_recycling := false;
  w_stream_inflight := 0;
|}.

(** [(n * percent / 100).max(1)] in [usize] arithmetic. *)
Definition percent_cap (n percent : Z) : Z := Z.max (wrap64 (n * percent) / 100) 1.

Definition with_config (num_workers : nat) (config : EjectionConfig) : OutlierState := {|
  workers := replicate num_workers fresh_worker;
  recycling_claims := 0;
  max_recycling := percent_cap (Z.of_nat num_workers) (recycle_max_percent config);
  consecutive_threshold := error_threshold config;
  base_ejection_time := timeout config;
  max_ejection_percent := max_percent config;
  max_ejection_time := Z.max (max_timeout config) (timeout config);
|}.

(** ** Field updates *)

Definition set_errors (v : Z) (w : WorkerOutlier) : WorkerOutlier :=
  {| w_consecutive_errors := v; w_ejection_series := w_ejection_series w;
     w_ejected := w_ejected w; w_consecutive_kills := w_consecutive_kills w;
     w_dead := w_dead w; w_recycling := w_recycling w;
     w_stream_inflight := w_stream_inflight w |}.

Definition set_series (v : Z) (w : WorkerOutlier) : WorkerOutlier :=
  {| w_consecutive_errors := w_consecutive_errors w; w_ejection_series := v;
     w_ejected := w_ejected w; w_consecutive_kills := w_consecutive_kills w;
     w_dead := w_dead w; w_recycling := w_recycling w;
     w_stream_inflight := w_stream_inflight w |}.

Definition set_ejected (v : option EjectedWorker) (w : WorkerOutlier) : WorkerOutlier :=
  {| w_consecutive_errors := w_consecutive_errors w; w_ejection_series := w_ejection_series w;
     w_ejected := v; w_consecutive_kills := w_consecutive_kills w;
     w_dead := w_dead w; w_recycling := w_recycling w;
     w_stream_inflight := w_stream_inflight w |}.

Definition set_kills (v : Z) (w : WorkerOutlier) : WorkerOutlier :=
  {| w_consecutive_errors := w_consecutive_errors w; w_ejection_series := w_ejection_series w;
     w_ejected := w_ejected w; w_consecutive_kills := v;
     w_dead := w_dead w; w_recycling := w_recycling w;
     w_stream_inflight := w_stream_inflight w |}.

Definition set_dead (v : bool) (w : WorkerOutlier) : WorkerOutlier :=
  {| w_consecutive_errors := w_consecutive_errors w; w_ejection_series := w_ejection_series w;
     w_ejected := w_ejected w; w_consecutive_kills := w_consecutive_kills w;
     w_dead := v; w_recycling := w_recycling w;
     w_stream_inflight := w_stream_inflight w |}.

Definition set_recycling (v : bool) (w : WorkerOutlier) : WorkerOutlier :=
  {| w_consecutive_errors := w_consecutive_errors w; w_ejection_series := w_ejection_series w;
     w_ejected := w_ejected w; w_consecutive_kills := w_consecutive_kills w;
     w_dead := w_dead w; w_recycling := v;
     w_stream_inflight := w_stream_inflight w |}.

Definition set_stream_inflight (v : Z) (w : WorkerOutlier) : WorkerOutlier :=
  {| w_consecutive_errors := w_consecutive_errors w; w_ejection_series := w_ejection_series w;
     w_ejected := w_ejected w; w_consecutive_kills := w_consecutive_kills w;
     w_dead := w_dead w; w_recycling := w_recycling w;
     w_stream_inflight := v |}.

(** Update one slot; an unknown index is a no-op, as [workers.get(idx)] is. *)
Definition upd (f : WorkerOutlier -> WorkerOutlier) (idx : nat) (s : OutlierState) : OutlierState :=
  {| workers := alter f idx (workers s);
     recycling_claims := recycling_claims s;
     max_recycling := max_recycling s;
     consecutive_threshold := consecutive_threshold s;
     base_ejection_time := base_ejection_time s;
     max_ejection_percent := max_ejection_percent s;
     max_ejection_time := max_ejection_time s |}.

Definition set_claims (v : Z) (s : OutlierState) : OutlierState :=
  {| workers := workers s;
     recycling_claims := v;
     max_recycling := max_recycling s;
     consecutive_threshold := consecutive_threshold s;
     base_ejection_time := base_ejection_time s;
     max_ejection_percent := max_ejection_percent s;
     max_ejection_time := max_ejection_time s |}.

(** ** Operations *)

(** [base * 2^(series-1)] capped at the maximum; the exponent is capped at 20.
    [Duration::mul_f64] by a power of two is exact on the nanosecond grid for
    results below 2^52 ns (52 days). *)
Definition backoff (s : OutlierState) (series : Z) : Duration :=
  let shift := Z.min (saturating_sub series 1) 20 in
  Z.min (base_ejection_time s * 2 ^ shift) (max_ejection_time s).

Definition is_half_open (w : WorkerOutlier) : bool :=
  match w_ejected w with
  | Some e => half_open e
  | None => false
  end.

Definition record_success (idx : nat) (s : OutlierState) : OutlierState :=
  upd (fun w =>
    let w := set_kills 0 (set_errors 0 w) in
    if is_half_open w then set_series 0 (set_ejected None w) else w) idx s.

Definition consecutive_errors (s : OutlierState) (idx : nat) : Z :=
  match workers s !! idx with Some w => w_consecutive_errors w | None => 0 end.

Definition consecutive_kills (s : OutlierState) (idx : nat) : Z :=
  match workers s !! idx with Some w => w_consecutive_kills w | None => 0 end.

Definition record_kill (idx : nat) (s : OutlierState) : OutlierState :=
  upd (fun w => set_kills (fetch_add (w_consecutive_kills w) 1) w) idx s.

Definition reset_error_count (idx : nat) (s : OutlierState) : OutlierState :=
  upd (set_errors 0) idx s.

(** [recycling.swap(false)], returning the ticket if the slot held one. *)
Definition return_ticket (idx : nat) (s : OutlierState) : OutlierState :=
  match workers s !! idx with
  | Some w =>
      let s' := upd (set_recycling false) idx s in
      if w_recycling w then set_claims (fetch_sub (recycling_claims s) 1) s' else s'
  | None => s
  end.

Definition reset (idx : nat) (s : OutlierState) : OutlierState :=
  let s := upd (fun w => set_dead false (set_series 0 (set_errors 0 w))) idx s in
  let s := return_ticket idx s in
  upd (set_ejected None) idx s.

Definition claim_recycle (idx : nat) (s : OutlierState) : bool * OutlierState :=
  match workers s !! idx with
  | None => (false, s)
  | Some w =>
      if w_dead w then (false, s)
      else if is_some (w_ejected w) then (false, s)
      else if w_recycling w then (false, s)
      else
        let s' := upd (set_recycling true) idx s in
        if recycling_claims s' <? max_recycling s' then
          (true, set_claims (recycling_claims s' + 1) s')
        else
          (false, upd (set_recycling false) idx s')
  end.

Definition is_recycling (s : OutlierState) (idx : nat) : bool :=
  match workers s !! idx with Some w => w_recycling w | None => false end.

Definition stream_inflight (s : OutlierState) (idx : nat) : Z :=
  match workers s !! idx with Some w => w_stream_inflight w | None => 0 end.

Definition stream_inflight_inc (idx : nat) (s : OutlierState) : OutlierState :=
  upd (fun w => set_stream_inflight (fetch_add (w_stream_inflight w) 1) w) idx s.

Definition stream_inflight_dec (idx : nat) (s : OutlierState) : OutlierState :=
  upd (fun w => set_stream_inflight (saturating_sub (w_stream_inflight w) 1) w) idx s.

Definition recycle_ticket_taken (s : OutlierState) : bool :=
  max_recycling s <=? recycling_claims s.

Definition mark_dead (idx : nat) (s : OutlierState) : OutlierState :=
  upd (set_dead true) idx s.

(** Open the circuit of one slot: the next series number, ejected now. *)
Definition open_circuit (now : Instant) (w : WorkerOutlier) : WorkerOutlier :=
  set_ejected (Some {| ejected_at := now; half_open := false |})
    (set_series (fetch_add (w_ejection_series w) 1) w).

Definition force_eject (now : Instant) (idx : nat) (s : OutlierState) : bool * OutlierState :=
  match workers s !! idx with
  | None => (false, s)
  | Some w =>
      if is_some (w_ejected w) then (false, s)
      else (true, upd (open_circuit now) idx s)
  end.

Definition release_recycle (now : Instant) (idx : nat) (s : OutlierState) : OutlierState :=
  snd (force_eject now idx (return_ticket idx s)).

Definition is_dead (s : OutlierState) (idx : nat) : bool :=
  match workers s !! idx with Some w => w_dead w | None => false end.

Definition all_dead (s : OutlierState) : bool :=
  negb (bool_decide (workers s = [])) && forallb w_dead (workers s).

(** The scan of [maybe_eject] over the other slots, from slot number [i] on: a
    slot whose lock another thread holds ([busy]) counts as not ejected, since
    the source only tries the lock. *)
Fixpoint ejected_others_from (busy : nat -> bool) (idx i : nat) (ws : list WorkerOutlier) : nat :=
  match ws with
  | [] => 0
  | other :: ws =>
      ((if Nat.eqb i idx then 0
        else if negb (busy i) && is_some (w_ejected other) then 1 else 0)
       + ejected_others_from busy idx (S i) ws)%nat
  end.

Definition ejected_others (busy : nat -> bool) (idx : nat) (ws : list WorkerOutlier) : nat :=
  ejected_others_from busy idx 0 ws.

Definition max_ejected (s : OutlierState) : Z :=
  percent_cap (Z.of_nat (length (workers s))) (max_ejection_percent s).

Definition maybe_eject (now : Instant) (busy : nat -> bool) (idx : nat) (s : OutlierState)
    : bool * OutlierState :=
  match workers s !! idx with
  | None => (false, s)
  | Some w =>
      if is_some (w_ejected w) then (false, s)
      else if Z.of_nat (ejected_others busy idx (workers s)) <? max_ejected s then
        (true, upd (open_circuit now) idx s)
      else (false, s)
  end.

Definition record_error (now : Instant) (busy : nat -> bool) (idx : nat) (s : OutlierState)
    : bool * OutlierState :=
  match workers s !! idx with
  | None => (false, s)
  | Some w =>
      if is_half_open w then
        (true, upd (fun w => set_errors 0 (open_circuit now w)) idx s)
      else if is_some (w_ejected w) then
        (false, upd (fun w => set_errors (fetch_add (w_consecutive_errors w) 1) w) idx s)
      else
        let count := fetch_add (w_consecutive_errors w) 1 in
        let s' := upd (set_errors count) idx s in
        if (0 <? consecutive_threshold s') && (consecutive_threshold s' <=? count) then
          maybe_eject now busy idx s'
        else (false, s')
  end.

(** Is the slot ejected at [now]?  An open circuit whose backoff has passed turns
    half-open: it is then usable again, with a clean error count. *)
Definition is_ejected (now : Instant) (idx : nat) (s : OutlierState) : bool * OutlierState :=
  match workers s !! idx with
  | None => (false, s)
  | Some w =>
      match w_ejected w with
      | None => (false, s)
      | Some e =>
          if half_open e then (false, s)
          else if backoff s (w_ejection_series w) <=? elapsed now (ejected_at e) then
            (false,
             upd (fun w => set_errors 0
                    (set_ejected (Some {| ejected_at := ejected_at e; half_open := true |}) w))
                 idx s)
          else (true, s)
      end
  end.

Definition is_usable (now : Instant) (idx : nat) (s : OutlierState) : bool * OutlierState :=
  let '(ej, s') := is_ejected now idx s in
  if ej then (false, s') else (negb (is_dead s' idx), s').

Definition active_count (s : OutlierState) : nat :=
  count_if (fun w => negb (is_some (w_ejected w))) (workers s).

(** ** Slot-level reasoning *)

Section upd_facts.
Implicit Types (s : OutlierState) (f g : WorkerOutlier -> WorkerOutlier) (i j : nat).

Lemma lookup_upd_eq f i s w :
  workers s !! i = Some w -> workers (upd f i s) !! i = Some (f w).
Proof. intros Hw. simpl. by rewrite list_lookup_alter_eq, Hw. Qed.

Lemma lookup_upd_ne f i j s :
  i <> j -> workers (upd f i s) !! j = workers s !! j.
Proof. intros. simpl. by apply list_lookup_alter_ne. Qed.

Lemma lookup_upd_inv f i j s w' :
  workers (upd f i s) !! j = Some w' ->
  exists w, workers s !! j = Some w /\ w' = (if decide (i = j) then f w else w).
Proof.
  destruct (decide (i = j)) as [->|Hne].
  - simpl. rewrite list_lookup_alter_eq. intros (w & Hw & ->)%fmap_Some. eauto.
  - rewrite lookup_upd_ne by done. eauto.
Qed.

Lemma length_upd f i s : length (workers (upd f i s)) = length (workers s).
Proof. simpl. apply length_alter. Qed.

Lemma upd_none f i s : workers s !! i = None -> upd f i s = s.
Proof.
  intros Hi. destruct s. unfold upd; simpl in *. f_equal.
  apply lookup_ge_None in Hi. apply list_eq. intros j.
  destruct (decide (i = j)) as [<-|Hne].
  - rewrite list_lookup_alter_eq. by rewrite lookup_ge_None_2.
  - by rewrite list_lookup_alter_ne.
Qed.

Lemma upd_upd f g i s : upd f i (upd g i s) = upd (fun w => f (g w)) i s.
Proof. unfold upd; simpl. f_equal. apply list_alter_twice. Qed.

Lemma upd_ext f g i s :
  (forall w, workers s !! i = Some w -> f w = g w) -> upd f i s = upd g i s.
Proof. intros Hfg. unfold upd. f_equal. by apply list_alter_ext'. Qed.

(** A point update that keeps a flag keeps the number of slots with the flag. *)
Lemma count_upd_same (p : WorkerOutlier -> bool) f i s :
  (forall w, workers s !! i = Some w -> p (f w) = p w) ->
  count_if p (workers (upd f i s)) = count_if p (workers s).
Proof.
  intros Hp. destruct (workers s !! i) as [w|] eqn:Hi.
  - pose proof (count_if_insert p i (f w) w (workers s) Hi) as Hc.
    simpl. rewrite (list_alter_insert _ _ _ _ Hi).
    rewrite (Hp w eq_refl) in Hc. lia.
  - by rewrite upd_none.
Qed.

Lemma count_upd (p : WorkerOutlier -> bool) f i s w :
  workers s !! i = Some w ->
  (count_if p (workers (upd f i s)) + (if p w then 1 else 0)
   = count_if p (workers s) + (if p (f w) then 1 else 0))%nat.
Proof.
  intros Hi. simpl. rewrite (list_alter_insert _ _ _ _ Hi).
  by apply count_if_insert.
Qed.
End upd_facts.

#[export] Hint Resolve lookup_upd_eq : lite.
