(* ===== verification/OutlierProps.v ===== *)
(** * Properties of the circuit breaker and the recycle tickets

    The operations of [Outlier.v] as one labelled transition system, the ticket
    invariant of every reachable state, the refinement of the abstract
    three-state circuit breaker, and the functional behaviour of ejection,
    backoff and recovery. *)

From S2P Require Import Prelude Outlier.
Open Scope Z_scope.

(** ** The operations as a transition system *)

Inductive outlier_op :=
  | OpSuccess (idx : nat)
  | OpError (now : Instant) (busy : nat -> bool) (idx : nat)
  | OpKill (idx : nat)
  | OpResetErrorCount (idx : nat)
  | OpReset (idx : nat)
  | OpClaim (idx : nat)
  | OpRelease (now : Instant) (idx : nat)
  | OpMarkDead (idx : nat)
  | OpForceEject (now : Instant) (idx : nat)
  | OpProbe (now : Instant) (idx : nat)
  | OpStreamInc (idx : nat)
  | OpStreamDec (idx : nat).

Definition apply_op (o : outlier_op) (s : OutlierState) : OutlierState :=
  match o with
  | OpSuccess i => record_success i s
  | OpError now busy i => snd (record_error now busy i s)
  | OpKill i => record_kill i s
  | OpResetErrorCount i => reset_error_count i s
  | OpReset i => reset i s
  | OpClaim i => snd (claim_recycle i s)
  | OpRelease now i => release_recycle now i s
  | OpMarkDead i => mark_dead i s
  | OpForceEject now i => snd (force_eject now i s)
  | OpProbe now i => snd (is_ejected now i s)
  | OpStreamInc i => stream_inflight_inc i s
  | OpStreamDec i => stream_inflight_dec i s
  end.

(** The slot an operation works on. *)
Definition op_slot (o : outlier_op) : nat :=
  match o with
  | OpSuccess i | OpError _ _ i | OpKill i | OpResetErrorCount i | OpReset i | OpClaim i
  | OpRelease _ i | OpMarkDead i | OpForceEject _ i | OpProbe _ i | OpStreamInc i
  | OpStreamDec i => i
  end.

Inductive outlier_step : OutlierState -> OutlierState -> Prop :=
  | outlier_step_op o s : outlier_step s (apply_op o s).

(** ** Recycle tickets *)

(** The ticket counter is the number of claimed slots and stays within its bound. *)
Record recycle_ok (s : OutlierState) : Prop := {
  ro_len : Z.of_nat (length (workers s)) <= usize_max;
  ro_count : recycling_claims s = Z.of_nat (count_if w_recycling (workers s));
  ro_bound : recycling_claims s <= max_recycling s;
}.

Lemma recycle_ok_upd f i s :
  (forall w, w_recycling (f w) = w_recycling w) -> recycle_ok s -> recycle_ok (upd f i s).
Proof.
  intros Hf [Hl Hc Hb]. split.
  - by rewrite length_upd.
  - rewrite count_upd_same by auto. done.
  - done.
Qed.

Lemma recycle_ok_range s : recycle_ok s -> 0 <= recycling_claims s <= usize_max.
Proof.
  intros [Hl Hc _]. pose proof (count_if_le_length w_recycling (workers s)). lia.
Qed.

Lemma recycle_ok_return_ticket i s : recycle_ok s -> recycle_ok (return_ticket i s).
Proof.
  intros Hs. pose proof (recycle_ok_range _ Hs). destruct Hs as [Hl Hc Hb].
  unfold return_ticket. destruct (workers s !! i) as [w|] eqn:Hw; [|done].
  pose proof (count_upd w_recycling (set_recycling false) i s w Hw) as Hn.
  pose proof (count_if_pos w_recycling (workers s) i w Hw) as Hpos.
  pose proof (length_upd (set_recycling false) i s).
  destruct (w_recycling w) eqn:Hr; split; cbn [workers recycling_claims max_recycling set_claims upd] in *;
    simpl in Hn; try lia.
  - rewrite fetch_sub_small by (specialize (Hpos eq_refl); lia). specialize (Hpos eq_refl). lia.
  - rewrite fetch_sub_small by (specialize (Hpos eq_refl); lia). lia.
Qed.

Lemma recycle_ok_claim i s : recycle_ok s -> recycle_ok (snd (claim_recycle i s)).
Proof.
  intros [Hl Hc Hb]. unfold claim_recycle.
  destruct (workers s !! i) as [w|] eqn:Hw; [|done].
  destruct (w_dead w), (is_some (w_ejected w)), (w_recycling w) eqn:Hr; try done.
  pose proof (count_upd w_recycling (set_recycling true) i s w Hw) as Hn.
  rewrite Hr in Hn. simpl in Hn.
  case_goal; to_prop; simpl in *.
  - split; simpl; rewrite ?length_alter; lia.
  - set (s1 := upd (set_recycling true) i s).
    assert (workers s1 !! i = Some (set_recycling true w)) as Hw1 by (by apply lookup_upd_eq).
    pose proof (count_upd w_recycling (set_recycling false) i s1 _ Hw1) as Hn1. simpl in Hn1.
    split; cbn [workers recycling_claims max_recycling upd s1] in *; rewrite ?length_alter; lia.
Qed.

Lemma recycle_ok_force now i s : recycle_ok s -> recycle_ok (snd (force_eject now i s)).
Proof.
  intros Hs. unfold force_eject. repeat case_goal; try done. by apply recycle_ok_upd.
Qed.

Lemma recycle_ok_error now busy i s : recycle_ok s -> recycle_ok (snd (record_error now busy i s)).
Proof.
  intros Hs. unfold record_error, maybe_eject.
  repeat case_goal; simpl; try done; repeat apply recycle_ok_upd; done.
Qed.

Lemma recycle_ok_reset i s : recycle_ok s -> recycle_ok (reset i s).
Proof.
  intros Hs. unfold reset. apply recycle_ok_upd; [done|].
  apply recycle_ok_return_ticket. by apply recycle_ok_upd.
Qed.

Lemma recycle_ok_success i s : recycle_ok s -> recycle_ok (record_success i s).
Proof. apply recycle_ok_upd. intros w. cbv zeta beta. by case_goal. Qed.

Lemma recycle_ok_probe now i s : recycle_ok s -> recycle_ok (snd (is_ejected now i s)).
Proof.
  intros Hs. unfold is_ejected. repeat case_goal; simpl; try done. by apply recycle_ok_upd.
Qed.

#[export] Hint Resolve recycle_ok_return_ticket recycle_ok_claim recycle_ok_force
  recycle_ok_error recycle_ok_reset recycle_ok_success recycle_ok_probe : lite.

Lemma recycle_ok_step o s : recycle_ok s -> recycle_ok (apply_op o s).
Proof.
  intros Hs. destruct o; simpl; unfold release_recycle; eauto with lite;
    by apply recycle_ok_upd.
Qed.

Lemma recycle_ok_init n cfg :
  Z.of_nat n <= usize_max -> recycle_ok (with_config n cfg).
Proof.
  intros Hn. split; simpl.
  - by rewrite length_replicate.
  - by rewrite count_if_replicate.
  - unfold percent_cap. lia.
Qed.

(** C7. In every state reachable from a fresh outlier state by whole operations the
    recycle ticket counter equals the number of slots flagged as recycling and never
    exceeds the configured cap. *)
Theorem recycle_tickets_invariant (n : nat) (cfg : EjectionConfig) (s : OutlierState) :
  Z.of_nat n <= usize_max ->
  rtc outlier_step (with_config n cfg) s ->
  recycling_claims s = Z.of_nat (count_if w_recycling (workers s)) /\
  recycling_claims s <= max_recycling s.
Proof.
  intros Hn Hr.
  assert (recycle_ok s) as [_ Hc Hb]; [|done].
  revert Hr. apply (rtc_ind_r (fun s => recycle_ok s)).
  - by apply recycle_ok_init.
  - intros s1 s2 _ [o s'] Hok. by apply recycle_ok_step.
Qed.

(** ** The abstract circuit breaker *)

(** What a slot's circuit promises: closed, open since an instant, or half-open,
    with the number of trips since the last close. *)
Inductive circuit :=
  | Closed (series : Z)
  | Open (since : Instant) (series : Z)
  | HalfOpen (since : Instant) (series : Z).

Definition circuit_of (w : WorkerOutlier) : circuit :=
  match w_ejected w with
  | None => Closed (w_ejection_series w)
  | Some e =>
      if half_open e then HalfOpen (ejected_at e) (w_ejection_series w)
      else Open (ejected_at e) (w_ejection_series w)
  end.

(** The transitions of the breaker, labelled by the operation that makes them:
    errors (or a forced ejection) trip a closed circuit, only the passage of the
    backoff half-opens it, a half-open trial closes or re-opens it, and a
    replaced process starts closed. *)
Inductive circuit_step (s : OutlierState) : outlier_op -> circuit -> circuit -> Prop :=
  | cs_trip now busy i n :
      circuit_step s (OpError now busy i) (Closed n) (Open now (fetch_add n 1))
  | cs_force now i n :
      circuit_step s (OpForceEject now i) (Closed n) (Open now (fetch_add n 1))
  | cs_release now i n :
      circuit_step s (OpRelease now i) (Closed n) (Open now (fetch_add n 1))
  | cs_cool now i t n :
      backoff s n <= elapsed now t ->
      circuit_step s (OpProbe now i) (Open t n) (HalfOpen t n)
  | cs_reopen now busy i t n :
      circuit_step s (OpError now busy i) (HalfOpen t n) (Open now (fetch_add n 1))
  | cs_close i t n :
      circuit_step s (OpSuccess i) (HalfOpen t n) (Closed 0)
  | cs_replace i c :
      circuit_step s (OpReset i) c (Closed 0).

#[export] Hint Constructors circuit_step : lite.

Lemma return_ticket_ne i j s :
  i <> j -> workers (return_ticket i s) !! j = workers s !! j.
Proof.
  intros Hne. unfold return_ticket. repeat case_goal; try done.
  all: by apply lookup_upd_ne.
Qed.

Lemma return_ticket_eq i s w :
  workers s !! i = Some w ->
  workers (return_ticket i s) !! i = Some (set_recycling false w).
Proof.
  intros Hw. unfold return_ticket. rewrite Hw. case_goal; by apply lookup_upd_eq.
Qed.

Lemma apply_op_other o s j :
  op_slot o <> j -> workers (apply_op o s) !! j = workers s !! j.
Proof.
  intros Hne. destruct o; simpl in *; try (by apply lookup_upd_ne);
    unfold reset, release_recycle, record_error, maybe_eject, claim_recycle, force_eject,
      is_ejected;
    repeat case_goal; simpl;
    rewrite ?list_lookup_alter_ne, ?return_ticket_ne by done; simpl;
    rewrite ?list_lookup_alter_ne by done; done.
Qed.

(** An operation on a slot that is not there changes nothing. *)
Lemma apply_op_missing o s : workers s !! op_slot o = None -> apply_op o s = s.
Proof.
  intros Hm. destruct o; simpl in *;
    unfold reset, release_recycle, return_ticket, record_error, claim_recycle, force_eject,
      is_ejected, record_success, record_kill, reset_error_count, mark_dead,
      stream_inflight_inc, stream_inflight_dec;
    cbv zeta; rewrite ?(upd_none _ _ s) by done; rewrite ?Hm; simpl;
    rewrite ?Hm, ?(upd_none _ _ s) by done; done.
Qed.

Lemma circuit_of_eq w w' :
  w_ejected w' = w_ejected w -> w_ejection_series w' = w_ejection_series w ->
  circuit_of w' = circuit_of w.
Proof. unfold circuit_of. by intros -> ->. Qed.

(** Reads back the slot an [upd] changed. *)
Ltac read_upd H Hw :=
  cbn [fst snd] in H;
  unfold record_kill, reset_error_count, mark_dead, stream_inflight_inc,
    stream_inflight_dec in H;
  first [ rewrite (lookup_upd_eq _ _ _ _ Hw) in H | rewrite Hw in H ]; injection H as <-.

Lemma circuit_step_error now busy i s w w' :
  workers s !! i = Some w ->
  workers (snd (record_error now busy i s)) !! i = Some w' ->
  circuit_of w' = circuit_of w \/
  circuit_step s (OpError now busy i) (circuit_of w) (circuit_of w').
Proof.
  intros Hw. unfold record_error, is_half_open. rewrite Hw.
  destruct (w_ejected w) as [[t []]|] eqn:He; cbn [is_some half_open]; intros Hw'.
  - read_upd Hw' Hw. right. unfold circuit_of. rewrite He. simpl. constructor.
  - read_upd Hw' Hw. left. by apply circuit_of_eq.
  - set (s1 := upd _ i s) in Hw'.
    assert (workers s1 !! i = Some (set_errors (fetch_add (w_consecutive_errors w) 1) w))
      as Hw1 by (by apply lookup_upd_eq).
    unfold maybe_eject in Hw'. rewrite Hw1 in Hw'. cbn [w_ejected set_errors] in Hw'.
    rewrite He in Hw'. cbn [is_some] in Hw'.
    repeat match type of Hw' with context [if ?b then _ else _] => destruct b end;
      read_upd Hw' Hw1; [right|left; by apply circuit_of_eq..].
    unfold circuit_of. rewrite He. simpl. constructor.
Qed.

Lemma circuit_step_force now i s w w' :
  workers s !! i = Some w ->
  workers (snd (force_eject now i s)) !! i = Some w' ->
  circuit_of w' = circuit_of w \/
  exists n, circuit_of w = Closed n /\ circuit_of w' = Open now (fetch_add n 1).
Proof.
  intros Hw. unfold force_eject. rewrite Hw.
  destruct (w_ejected w) as [e|] eqn:He; cbn [is_some]; intros Hw'; read_upd Hw' Hw.
  - by left.
  - right. exists (w_ejection_series w). unfold circuit_of. by rewrite He.
Qed.

Lemma circuit_step_probe now i s w w' :
  workers s !! i = Some w ->
  workers (snd (is_ejected now i s)) !! i = Some w' ->
  circuit_of w' = circuit_of w \/
  circuit_step s (OpProbe now i) (circuit_of w) (circuit_of w').
Proof.
  intros Hw. unfold is_ejected. rewrite Hw.
  destruct (w_ejected w) as [[t []]|] eqn:He; cbn [half_open ejected_at]; intros Hw';
    [read_upd Hw' Hw; by left | | read_upd Hw' Hw; by left].
  destruct (_ <=? _) eqn:Hb in Hw'; read_upd Hw' Hw; [right|by left].
  to_prop. unfold circuit_of. rewrite He. simpl. by constructor.
Qed.

Lemma circuit_step_reset i s w w' :
  workers s !! i = Some w ->
  workers (reset i s) !! i = Some w' -> circuit_of w' = Closed 0.
Proof.
  intros Hw. unfold reset. cbv zeta. intros Hw'.
  set (s1 := upd _ i s) in Hw'.
  assert (workers s1 !! i = Some (set_dead false (set_series 0 (set_errors 0 w)))) as Hw1
    by (exact (lookup_upd_eq _ _ _ _ Hw)).
  apply return_ticket_eq in Hw1. by read_upd Hw' Hw1.
Qed.

Lemma circuit_step_success i s w w' :
  workers s !! i = Some w ->
  workers (record_success i s) !! i = Some w' ->
  circuit_of w' = circuit_of w \/ circuit_step s (OpSuccess i) (circuit_of w) (circuit_of w').
Proof.
  intros Hw Hw'. unfold record_success in Hw'. read_upd Hw' Hw.
  unfold circuit_of, is_half_open. simpl.
  destruct (w_ejected w) as [[t []]|] eqn:He; simpl; rewrite ?He; simpl; eauto with lite.
Qed.

Lemma claim_keeps_circuit i s w w' :
  workers s !! i = Some w ->
  workers (snd (claim_recycle i s)) !! i = Some w' -> circuit_of w' = circuit_of w.
Proof.
  intros Hw. unfold claim_recycle. rewrite Hw. intros Hw'.
  set (s1 := upd (set_recycling true) i s) in Hw'.
  assert (workers s1 !! i = Some (set_recycling true w)) as Hw1 by (by apply lookup_upd_eq).
  repeat match type of Hw' with context [if ?b then _ else _] => destruct b end;
    first [by read_upd Hw' Hw | by read_upd Hw' Hw1
          | by (cbn [snd] in Hw'; change (workers s1 !! i = Some w') in Hw';
                rewrite Hw1 in Hw'; injection Hw' as <-)].
Qed.

(** C6. Every operation on the outlier state refines a three-state circuit breaker:
    seen through the abstraction of its slot, an operation either leaves the circuit
    of a slot as it is or is a labelled transition of the breaker on that very slot
    (errors or a forced ejection open a closed circuit, an elapsed backoff
    half-opens it, a half-open trial closes or re-opens it, a reset closes it). *)
Theorem circuit_breaker_refinement (o : outlier_op) (s : OutlierState) (j : nat)
    (w w' : WorkerOutlier) :
  workers s !! j = Some w ->
  workers (apply_op o s) !! j = Some w' ->
  circuit_of w' = circuit_of w \/
  (op_slot o = j /\ circuit_step s o (circuit_of w) (circuit_of w')).
Proof.
  intros Hw Hw'. destruct (decide (op_slot o = j)) as [<-|Hne].
  2: { rewrite apply_op_other in Hw' by done. simplify_eq. by left. }
  enough (circuit_of w' = circuit_of w \/ circuit_step s o (circuit_of w) (circuit_of w'))
    by tauto.
  destruct o; cbn [apply_op op_slot] in *;
    try (by read_upd Hw' Hw; left; apply circuit_of_eq).
  - by eapply circuit_step_success.
  - by eapply circuit_step_error.
  - right. rewrite (circuit_step_reset _ _ _ _ Hw Hw'). constructor.
  - left. by eapply claim_keeps_circuit.
  - apply return_ticket_eq in Hw.
    destruct (circuit_step_force _ _ _ _ _ Hw Hw') as [->|(n & Hc & ->)]; [by left|].
    right. change (circuit_of w = Closed n) in Hc. rewrite Hc. constructor.
  - destruct (circuit_step_force _ _ _ _ _ Hw Hw') as [->|(n & -> & ->)]; [by left|].
    right. constructor.
  - by eapply circuit_step_probe.
Qed.

(** ** Ejection at the threshold *)

Lemma ejected_others_from_alter busy f i k ws :
  ejected_others_from busy (k + i) k (alter f i ws) = ejected_others_from busy (k + i) k ws.
Proof.
  revert i k. induction ws as [|w ws IH]; intros [|i] k; simpl; try done.
  - rewrite !Nat.add_0_r, Nat.eqb_refl. done.
  - f_equal. replace (k + S i)%nat with (S k + i)%nat by lia. apply IH.
Qed.

Lemma ejected_others_upd busy f i s :
  ejected_others busy i (workers (upd f i s)) = ejected_others busy i (workers s).
Proof. apply (ejected_others_from_alter busy f i 0). Qed.

(** A run of consecutive failures on one slot, each at its own time. *)
Fixpoint record_errors (calls : list (Instant * (nat -> bool))) (idx : nat) (s : OutlierState)
    : list bool * OutlierState :=
  match calls with
  | [] => ([], s)
  | (now, busy) :: calls =>
      let '(b, s) := record_error now busy idx s in
      let '(bs, s) := record_errors calls idx s in
      (b :: bs, s)
  end.

(** One failure on a closed circuit: below the threshold it is only counted, at
    the threshold the slot is ejected if the ejection cap allows. *)
Lemma record_error_closed now busy i s w :
  workers s !! i = Some w -> w_ejected w = None ->
  0 <= w_consecutive_errors w -> w_consecutive_errors w < usize_max ->
  fst (record_error now busy i s) =
    (0 <? consecutive_threshold s)
    && (consecutive_threshold s <=? w_consecutive_errors w + 1)
    && (Z.of_nat (ejected_others busy i (workers s)) <? max_ejected s).
Proof.
  intros Hw He H0 Hm. unfold record_error, is_half_open. rewrite Hw, He. cbn [is_some].
  cbv zeta. rewrite fetch_add_small by lia. cbn [consecutive_threshold upd].
  set (s1 := upd _ i s). case_goal; simpl; [|done].
  unfold maybe_eject.
  assert (workers s1 !! i = Some (set_errors (w_consecutive_errors w + 1) w)) as ->
    by (by apply lookup_upd_eq).
  cbn [w_ejected set_errors]. rewrite He. cbn [is_some].
  assert (ejected_others busy i (workers s1) = ejected_others busy i (workers s)) as ->
    by apply ejected_others_upd.
  assert (max_ejected s1 = max_ejected s) as ->
    by (unfold max_ejected, s1; by rewrite length_upd).
  by case_goal.
Qed.

(** A failure that does not trip leaves the circuit closed, one error counted. *)
Lemma record_error_counts now busy i s w :
  workers s !! i = Some w -> w_ejected w = None ->
  0 <= w_consecutive_errors w -> w_consecutive_errors w + 1 < consecutive_threshold s ->
  consecutive_threshold s <= usize_max ->
  record_error now busy i s = (false, upd (set_errors (w_consecutive_errors w + 1)) i s).
Proof.
  intros Hw He H0 Ht Hm. unfold record_error, is_half_open. rewrite Hw, He. cbn [is_some].
  cbv zeta. rewrite fetch_add_small by lia. cbn [consecutive_threshold upd].
  case_goal; [|done]. to_prop. lia.
Qed.

Lemma record_errors_below calls i s w :
  workers s !! i = Some w -> w_ejected w = None -> 0 <= w_consecutive_errors w ->
  consecutive_threshold s <= usize_max ->
  w_consecutive_errors w + Z.of_nat (length calls) < consecutive_threshold s ->
  record_errors calls i s =
    (replicate (length calls) false,
     if decide (calls = []) then s
     else upd (set_errors (w_consecutive_errors w + Z.of_nat (length calls))) i s).
Proof.
  revert s w. induction calls as [|[now busy] calls IH]; intros s w Hw He H0 Hm Ht; [done|].
  cbn [length] in *. cbn [record_errors].
  rewrite (record_error_counts now busy i s w) by (done || lia).
  rewrite (IH _ (set_errors (w_consecutive_errors w + 1) w)); simpl; try (done || lia).
  2: by apply lookup_upd_eq.
  destruct calls as [|c calls]; [done|]. rewrite decide_False by done.
  rewrite upd_upd. f_equal. apply upd_ext. intros w' _.
  unfold set_errors; simpl. f_equal. lia.
Qed.

(** A closed slot with no errors is ejected by exactly the threshold-th consecutive
    error: the earlier ones report no ejection, and that one ejects precisely when
    fewer other slots than the cap are ejected. *)
Theorem ejection_at_threshold (calls : list (Instant * (nat -> bool))) (now : Instant)
    (busy : nat -> bool) (i : nat) (s : OutlierState) (w : WorkerOutlier) :
  workers s !! i = Some w -> w_ejected w = None -> w_consecutive_errors w = 0 ->
  0 < consecutive_threshold s <= usize_max ->
  Z.of_nat (length calls) + 1 = consecutive_threshold s ->
  let '(early, s1) := record_errors calls i s in
  early = replicate (length calls) false /\
  fst (record_error now busy i s1) =
    (Z.of_nat (ejected_others busy i (workers s)) <? max_ejected s).
Proof.
  intros Hw He H0 Ht Hlen.
  rewrite (record_errors_below calls i s w) by (done || lia).
  split; [done|].
  case_decide as Hc.
  - subst calls. simpl in Hlen. rewrite (record_error_closed _ _ _ _ w) by (done || lia).
    destruct (_ <? max_ejected s); rewrite ?andb_false_r, ?andb_true_r; [|done].
    apply andb_true_intro; split; [apply Z.ltb_lt|apply Z.leb_le]; lia.
  - rewrite (record_error_closed _ _ _ _
      (set_errors (w_consecutive_errors w + Z.of_nat (length calls)) w));
      simpl; try (done || lia).
    2: by apply lookup_upd_eq.
    pose proof (ejected_others_upd busy
      (set_errors (w_consecutive_errors w + Z.of_nat (length calls))) i s) as Heq.
    simpl in Heq. rewrite Heq. unfold max_ejected. simpl. rewrite length_alter.
    destruct (Z.of_nat _ <? _); rewrite ?andb_false_r, ?andb_true_r; [|done].
    apply andb_true_intro; split; [apply Z.ltb_lt|apply Z.leb_le]; lia.
Qed.

(** ** Backoff *)

Lemma shift_range series : 0 <= Z.min (saturating_sub series 1) 20 <= 20.
Proof. unfold saturating_sub. lia. Qed.

(** The ejection backoff starts at the base, doubles with each consecutive ejection
    up to the maximum, never leaves these bounds and is monotone. *)
Theorem backoff_schedule (s : OutlierState) :
  0 <= base_ejection_time s <= max_ejection_time s ->
  backoff s 1 = base_ejection_time s /\
  (forall series, base_ejection_time s <= backoff s series <= max_ejection_time s) /\
  (forall series, 1 <= series < 21 ->
     backoff s (series + 1) = Z.min (2 * backoff s series) (max_ejection_time s)) /\
  (forall m n, m <= n -> backoff s m <= backoff s n).
Proof.
  intros [Hb Hm]. unfold backoff. repeat split.
  - change (Z.min (saturating_sub 1 1) 20) with 0. rewrite Z.pow_0_r. lia.
  - pose proof (shift_range series). apply Z.min_glb; [|done].
    pose proof (Z.pow_le_mono_r 2 0 (Z.min (saturating_sub series 1) 20)). nia.
  - lia.
  - intros series Hs. unfold saturating_sub.
    replace (Z.min (Z.max 0 (series + 1 - 1)) 20) with (series - 1 + 1) by lia.
    replace (Z.min (Z.max 0 (series - 1)) 20) with (series - 1) by lia.
    rewrite Z.pow_add_r by lia. lia.
  - intros m n Hmn. unfold saturating_sub.
    assert (2 ^ Z.min (Z.max 0 (m - 1)) 20 <= 2 ^ Z.min (Z.max 0 (n - 1)) 20)
      by (apply Z.pow_le_mono_r; lia).
    nia.
Qed.

(** ** Recovery *)

(** An open circuit excludes its slot exactly until its backoff has elapsed; the
    first probe after that half-opens it with the error count cleared, and the slot
    stays eligible at every later instant. *)
Theorem open_window_exact (now : Instant) (i : nat) (s : OutlierState) (w : WorkerOutlier)
    (t : Instant) (n : Z) :
  workers s !! i = Some w -> circuit_of w = Open t n ->
  fst (is_ejected now i s) = bool_decide (elapsed now t < backoff s n) /\
  (backoff s n <= elapsed now t ->
   exists w', workers (snd (is_ejected now i s)) !! i = Some w' /\
     circuit_of w' = HalfOpen t n /\ w_consecutive_errors w' = 0 /\
     forall now', fst (is_ejected now' i (snd (is_ejected now i s))) = false).
Proof.
  intros Hw Hc. unfold circuit_of in Hc.
  destruct (w_ejected w) as [[t' [|]]|] eqn:He; simplify_eq/=.
  destruct (is_ejected now i s) as [b s1] eqn:E. unfold is_ejected in E.
  rewrite Hw, He in E. cbn [half_open ejected_at] in E.
  destruct (_ <=? _) eqn:Hb in E; to_prop; injection E as <- <-; simpl.
  - split; [by rewrite bool_decide_eq_false_2 by lia|]. intros _.
    eexists. split_and!; [by rewrite list_lookup_alter_eq, Hw|done..|].
    intros now'. unfold is_ejected. simpl. by rewrite list_lookup_alter_eq, Hw.
  - split; [by rewrite bool_decide_eq_true_2 by lia|]. lia.
Qed.

(** The outcome of a half-open trial: one success closes the circuit, one error
    re-opens it with a longer backoff. *)
Theorem half_open_trial (now : Instant) (busy : nat -> bool) (i : nat) (s : OutlierState)
    (w : WorkerOutlier) (t : Instant) (n : Z) :
  workers s !! i = Some w -> circuit_of w = HalfOpen t n ->
  (exists w', workers (record_success i s) !! i = Some w' /\
     circuit_of w' = Closed 0 /\ w_consecutive_errors w' = 0 /\ w_consecutive_kills w' = 0) /\
  (fst (record_error now busy i s) = true /\
   exists w', workers (snd (record_error now busy i s)) !! i = Some w' /\
     circuit_of w' = Open now (fetch_add n 1) /\ w_consecutive_errors w' = 0).
Proof.
  intros Hw Hc. unfold circuit_of in Hc.
  destruct (w_ejected w) as [[t' [|]]|] eqn:He; simplify_eq/=.
  split.
  - eexists. split; [by apply lookup_upd_eq|]. unfold is_half_open. simpl. by rewrite He.
  - unfold record_error, is_half_open. rewrite Hw, He. cbn [half_open fst snd].
    split; [done|]. eexists. by split; [by apply lookup_upd_eq|].
Qed.

(** ** Liveness of the process *)

Lemma apply_op_dead o s j w w' :
  workers s !! j = Some w -> workers (apply_op o s) !! j = Some w' ->
  w_dead w = true -> o <> OpReset j -> w_dead w' = true.
Proof.
  intros Hw Hw' Hd Hr. destruct (decide (op_slot o = j)) as [<-|Hne].
  2: { rewrite apply_op_other in Hw' by done. by simplify_eq. }
  destruct o; cbn [apply_op op_slot] in *; try done;
    try (by read_upd Hw' Hw).
  - unfold record_success in Hw'. read_upd Hw' Hw. by case_goal.
  - unfold record_error, maybe_eject in Hw'. rewrite Hw in Hw'.
    set (s1 := upd (set_errors _) idx s) in Hw'.
    assert (exists v, workers s1 !! idx = Some v /\ w_dead v = true) as (v & Hv & Hdv).
    { eexists. split; [by apply lookup_upd_eq|done]. }
    rewrite Hv in Hw'.
    repeat match type of Hw' with context [if ?b then _ else _] => destruct b end;
      first [by read_upd Hw' Hw|by read_upd Hw' Hv].
  - unfold claim_recycle in Hw'. rewrite Hw, Hd in Hw'. by read_upd Hw' Hw.
  - unfold release_recycle, force_eject in Hw'. pose proof (return_ticket_eq _ _ _ Hw) as Hw2.
    rewrite Hw2 in Hw'. destruct (is_some _); by read_upd Hw' Hw2.
  - unfold force_eject in Hw'. rewrite Hw in Hw'. destruct (is_some _); by read_upd Hw' Hw.
  - unfold is_ejected in Hw'. rewrite Hw in Hw'.
    destruct (w_ejected w) as [[t []]|]; cbn [half_open] in Hw'; try by read_upd Hw' Hw.
    destruct (_ <=? _) in Hw'; by read_upd Hw' Hw.
Qed.

Lemma apply_op_length o s : length (workers (apply_op o s)) = length (workers s).
Proof.
  destruct o; simpl;
    unfold reset, release_recycle, record_error, maybe_eject, claim_recycle, force_eject,
      is_ejected, return_ticket, record_success; cbv zeta;
    repeat case_goal; simpl; rewrite ?length_alter; simpl; rewrite ?length_alter;
    repeat case_goal; simpl; rewrite ?length_alter; done.
Qed.

Definition run_ops (ops : list outlier_op) (s : OutlierState) : OutlierState :=
  fold_left (fun s o => apply_op o s) ops s.

(** A dead slot stays dead, and cannot be claimed for recycling, through any
    operations that do not reset it. *)
Theorem dead_until_reset (ops : list outlier_op) (s : OutlierState) (i : nat) :
  is_dead s i = true -> ~ OpReset i ∈ ops ->
  is_dead (run_ops ops s) i = true /\
  fst (claim_recycle i (run_ops ops s)) = false.
Proof.
  intros Hd Hops.
  enough (exists w, workers (run_ops ops s) !! i = Some w /\ w_dead w = true) as (w & Hw & Hwd).
  { unfold is_dead, claim_recycle. by rewrite Hw, Hwd. }
  unfold is_dead in Hd. destruct (workers s !! i) as [w|] eqn:Hw; [|done].
  revert s w Hw Hd. induction ops as [|o ops IH]; intros s w Hw Hd; [by eauto|].
  apply not_elem_of_cons in Hops as [Ho Hops].
  destruct (workers (apply_op o s) !! i) as [w'|] eqn:Hw'.
  - simpl. eapply (IH Hops _ w'); [done|]. by eapply (apply_op_dead o s i w w').
  - exfalso. apply lookup_ge_None in Hw'. rewrite apply_op_length in Hw'.
    apply lookup_lt_Some in Hw. lia.
Qed.

(** ** The ejection cap *)

Definition has_ejection (w : WorkerOutlier) : bool := is_some (w_ejected w).

Definition ejected_count (s : OutlierState) : nat := count_if has_ejection (workers s).

(** The operations the outlier detector itself drives, with no lock contended;
    forced ejections are outside the cap by design. *)
Definition cap_bound_op (o : outlier_op) : Prop :=
  match o with
  | OpForceEject _ _ | OpRelease _ _ => False
  | OpError _ busy _ => forall j, busy j = false
  | _ => True
  end.

Lemma ejected_others_from_count busy idx k ws :
  (forall j, busy j = false) ->
  (idx < k)%nat ->
  ejected_others_from busy idx k ws = count_if has_ejection ws.
Proof.
  intros Hb. revert k. induction ws as [|w ws IH]; intros k Hk; [done|].
  cbn [ejected_others_from]. rewrite count_if_cons, IH by lia.
  replace (Nat.eqb k idx) with false by (symmetry; apply Nat.eqb_neq; lia).
  by rewrite Hb.
Qed.

Lemma ejected_others_count busy i k ws w :
  (forall j, busy j = false) -> ws !! i = Some w ->
  (ejected_others_from busy (k + i) k ws + (if has_ejection w then 1 else 0)
   = count_if has_ejection ws)%nat.
Proof.
  intros Hb. revert i k. induction ws as [|v ws IH]; intros [|i] k Hi; simplify_eq/=;
    rewrite count_if_cons.
  - rewrite Nat.add_0_r, Nat.eqb_refl. rewrite ejected_others_from_count by (done || lia). lia.
  - replace (Nat.eqb k (k + S i)) with false by (symmetry; apply Nat.eqb_neq; lia).
    rewrite Hb. simpl. replace (k + S i)%nat with (S k + i)%nat by lia.
    specialize (IH i (S k) Hi). unfold has_ejection at 2. lia.
Qed.

Lemma ejected_count_upd_le f i s :
  (forall w, workers s !! i = Some w -> has_ejection (f w) = true -> has_ejection w = true) ->
  (ejected_count (upd f i s) <= ejected_count s)%nat.
Proof.
  intros Hf. unfold ejected_count. destruct (workers s !! i) as [w|] eqn:Hw.
  - pose proof (count_upd has_ejection f i s w Hw). specialize (Hf w eq_refl).
    destruct (has_ejection (f w)), (has_ejection w); try lia; by specialize (Hf eq_refl).
  - by rewrite upd_none.
Qed.

Lemma maybe_eject_cap now busy i s :
  (forall j, busy j = false) ->
  Z.of_nat (ejected_count (snd (maybe_eject now busy i s)))
  <= Z.max (Z.of_nat (ejected_count s)) (max_ejected s).
Proof.
  intros Hb. unfold maybe_eject. destruct (workers s !! i) as [w|] eqn:Hw; simpl; [|lia].
  destruct (is_some (w_ejected w)) eqn:He; simpl; [lia|].
  destruct (_ <? _) eqn:Hc; to_prop; simpl; [|lia].
  pose proof (ejected_others_count busy i 0 (workers s) w Hb Hw) as Ho.
  pose proof (count_upd has_ejection (open_circuit now) i s w Hw) as Hn.
  unfold ejected_count, ejected_others in *. unfold has_ejection in Hn at 2 4. unfold has_ejection in Ho at 1.
  rewrite He in Hn, Ho. simpl in *. lia.
Qed.

Lemma max_ejected_op o s : max_ejected (apply_op o s) = max_ejected s.
Proof.
  unfold max_ejected. rewrite apply_op_length. f_equal.
  destruct o; simpl;
    unfold reset, release_recycle, record_error, maybe_eject, claim_recycle, force_eject,
      is_ejected, return_ticket; cbv zeta; repeat case_goal; simpl; try done;
    repeat case_goal; done.
Qed.

Lemma ejected_count_return_ticket i s : ejected_count (return_ticket i s) = ejected_count s.
Proof.
  unfold ejected_count, return_ticket. repeat case_goal; try done; by apply count_upd_same.
Qed.

Lemma ejected_count_op o s :
  cap_bound_op o ->
  Z.of_nat (ejected_count (apply_op o s)) <= Z.max (Z.of_nat (ejected_count s)) (max_ejected s).
Proof.
  intros Ho. destruct o; cbn [apply_op]; try done;
    try (match goal with |- Z.of_nat (ejected_count ?s') <= _ =>
           enough (ejected_count s' <= ejected_count s)%nat by lia end;
         by apply ejected_count_upd_le).
  - enough (ejected_count (record_success idx s) <= ejected_count s)%nat by lia.
    apply ejected_count_upd_le. intros w _. cbv zeta. case_goal; [done|done].
  - unfold record_error. destruct (workers s !! idx) as [w|] eqn:Hw; [|simpl; lia].
    unfold is_half_open. destruct (w_ejected w) as [[t []]|] eqn:He; cbn [is_some half_open snd].
    + enough (ejected_count (upd (fun w => set_errors 0 (open_circuit now w)) idx s)
        <= ejected_count s)%nat by lia.
      apply ejected_count_upd_le. intros v Hv _. simplify_eq. unfold has_ejection. by rewrite He.
    + enough (ejected_count (upd (fun w => set_errors (fetch_add (w_consecutive_errors w) 1) w)
        idx s) <= ejected_count s)%nat by lia.
      by apply ejected_count_upd_le.
    + cbv zeta. set (s1 := upd _ idx s).
      assert (ejected_count s1 <= ejected_count s)%nat by (by apply ejected_count_upd_le).
      case_goal; cbn [snd]; [|lia].
      pose proof (maybe_eject_cap now busy idx s1 Ho) as Hcap.
      replace (max_ejected s1) with (max_ejected s) in Hcap
        by (unfold max_ejected, s1; by rewrite length_upd). lia.
  - enough (ejected_count (reset idx s) <= ejected_count s)%nat by lia.
    unfold reset. cbv zeta. etransitivity; [by apply ejected_count_upd_le|].
    rewrite ejected_count_return_ticket. by apply ejected_count_upd_le.
  - enough (ejected_count (snd (claim_recycle idx s)) <= ejected_count s)%nat by lia.
    unfold claim_recycle. repeat case_goal; simpl; try lia.
    + etransitivity; [|by apply (ejected_count_upd_le (set_recycling true) idx s)]. done.
    + etransitivity; [by apply ejected_count_upd_le|]. by apply ejected_count_upd_le.
  - enough (ejected_count (snd (is_ejected now idx s)) <= ejected_count s)%nat by lia.
    unfold is_ejected. repeat case_goal; simpl; try lia.
    apply ejected_count_upd_le. intros w' Hw' _. simplify_eq. unfold has_ejection.
    by rewrite Heqo0.
Qed.

Lemma active_plus_ejected s : (active_count s + ejected_count s)%nat = length (workers s).
Proof.
  unfold active_count, ejected_count. generalize (workers s). intros ws.
  induction ws as [|w ws IH]; [done|]. rewrite !count_if_cons. simpl. rewrite <- IH.
  unfold has_ejection. destruct (is_some (w_ejected w)); simpl; lia.
Qed.

Lemma run_ops_cap ops s :
  Forall cap_bound_op ops -> Z.of_nat (ejected_count s) <= max_ejected s ->
  Z.of_nat (ejected_count (run_ops ops s)) <= max_ejected s /\
  length (workers (run_ops ops s)) = length (workers s).
Proof.
  intros Hops. revert s. induction Hops as [|o ops Ho Hops IH]; intros s Hs; [done|].
  simpl. pose proof (ejected_count_op o s Ho).
  destruct (IH (apply_op o s)) as [H1 H2]; [rewrite max_ejected_op; lia|].
  rewrite max_ejected_op in H1. by rewrite apply_op_length in H2.
Qed.

(** With at least two workers and a cap below 100 percent, the operations of the
    outlier detector (forced ejections aside, locks uncontended) never eject more
    than [max 1 (n * percent / 100)] slots, and always leave at least one active. *)
Theorem ejection_cap (n : nat) (cfg : EjectionConfig) (ops : list outlier_op) :
  (2 <= n)%nat -> 0 <= max_percent cfg < 100 -> Z.of_nat n * 100 <= usize_max ->
  Forall cap_bound_op ops ->
  let s := run_ops ops (with_config n cfg) in
  Z.of_nat (ejected_count s) <= Z.max (Z.of_nat n * max_percent cfg / 100) 1 /\
  (1 <= active_count s)%nat.
Proof.
  intros Hn Hp Hsz Hops s.
  assert (max_ejected (with_config n cfg) = Z.max (Z.of_nat n * max_percent cfg / 100) 1) as Hm.
  { unfold max_ejected, percent_cap. simpl. rewrite length_replicate.
    rewrite wrap64_small; [done|]. unfold in_usize. nia. }
  destruct (run_ops_cap ops (with_config n cfg) Hops) as [Hc Hl].
  { unfold ejected_count. simpl. rewrite count_if_replicate by done. rewrite Hm. lia. }
  fold s in Hc, Hl. rewrite Hm in Hc. split; [done|].
  pose proof (active_plus_ejected s). simpl in Hl. rewrite length_replicate in Hl.
  assert (Z.of_nat n * max_percent cfg / 100 < Z.of_nat n)
    by (apply Z.div_lt_upper_bound; nia).
  lia.
Qed.

(** ** Interleaving of a claim with a reset of the same slot

    [claim_recycle] and [reset] run on different tasks.  Here both are split at
    their atomic accesses: the claim holds the slot's ejection lock from its
    check to its end, the reset takes that lock only after it has returned the
    ticket. *)

Inductive claim_pc :=
  | CStart          (** before the checks *)
  | CLocked         (** live and not ejected, lock held *)
  | CFlagged        (** the slot flag was swapped from false to true *)
  | CRefused        (** no ticket left, flag not yet rolled back *)
  | CDone (won : bool).

Inductive reset_pc :=
  | RStart
  | RCleared        (** error count, series and liveness stored *)
  | RSwapped        (** the slot flag was swapped from true to false *)
  | RReleased       (** the ticket counter is up to date *)
  | RDone.

Definition claim_holds_lock (c : claim_pc) : bool :=
  match c with CLocked | CFlagged | CRefused => true | _ => false end.

Definition race_state : Type := OutlierState * claim_pc * reset_pc.

Inductive race_step (i : nat) : race_state -> race_state -> Prop :=
  | rs_claim_check s w r :
      workers s !! i = Some w -> w_dead w = false -> w_ejected w = None ->
      race_step i (s, CStart, r) (s, CLocked, r)
  | rs_claim_reject s w r :
      workers s !! i = Some w -> w_dead w = true \/ w_ejected w <> None ->
      race_step i (s, CStart, r) (s, CDone false, r)
  | rs_claim_swap s w r :
      workers s !! i = Some w ->
      race_step i (s, CLocked, r)
        (upd (set_recycling true) i s, if w_recycling w then CDone false else CFlagged, r)
  | rs_claim_ticket s r :
      recycling_claims s < max_recycling s ->
      race_step i (s, CFlagged, r) (set_claims (recycling_claims s + 1) s, CDone true, r)
  | rs_claim_refuse s r :
      max_recycling s <= recycling_claims s ->
      race_step i (s, CFlagged, r) (s, CRefused, r)
  | rs_claim_rollback s r :
      race_step i (s, CRefused, r) (upd (set_recycling false) i s, CDone false, r)
  | rs_reset_clear s c :
      race_step i (s, c, RStart)
        (upd (fun w => set_dead false (set_series 0 (set_errors 0 w))) i s, c, RCleared)
  | rs_reset_swap s w c :
      workers s !! i = Some w ->
      race_step i (s, c, RCleared)
        (upd (set_recycling false) i s, c, if w_recycling w then RSwapped else RReleased)
  | rs_reset_sub s c :
      race_step i (s, c, RSwapped) (set_claims (fetch_sub (recycling_claims s) 1) s, c, RReleased)
  | rs_reset_uneject s c :
      claim_holds_lock c = false ->
      race_step i (s, c, RReleased) (upd (set_ejected None) i s, c, RDone).

(** No slot is claimed, yet the counter says that every ticket is taken. *)
Record tickets_lost (s : OutlierState) : Prop := {
  tl_claims : recycling_claims s = usize_max;
  tl_max : max_recycling s <= usize_max;
  tl_flags : forall j w, workers s !! j = Some w -> w_recycling w = false;
}.

Lemma tickets_lost_upd f i s :
  (forall w, w_recycling w = false -> w_recycling (f w) = false) ->
  tickets_lost s -> tickets_lost (upd f i s).
Proof.
  intros Hf [Hc Hm Hfl]. split; [done..|]. intros j w' Hj.
  apply lookup_upd_inv in Hj as (w & Hw & ->). specialize (Hfl _ _ Hw). case_decide; auto.
Qed.

Lemma tickets_lost_return i s : tickets_lost s -> tickets_lost (return_ticket i s).
Proof.
  intros Hs. unfold return_ticket. destruct (workers s !! i) as [w|] eqn:Hw; [|done].
  rewrite (tl_flags _ Hs _ _ Hw). by apply tickets_lost_upd.
Qed.

Lemma tickets_lost_claim i s :
  tickets_lost s -> fst (claim_recycle i s) = false /\ tickets_lost (snd (claim_recycle i s)).
Proof.
  intros Hs. pose proof (tl_claims _ Hs). pose proof (tl_max _ Hs). unfold claim_recycle.
  destruct (workers s !! i) as [w|] eqn:Hw; [|done].
  repeat case_goal; try done; to_prop; cbn [recycling_claims max_recycling upd] in *; [lia|].
  split; [done|]. rewrite upd_upd. by apply tickets_lost_upd.
Qed.

Lemma tickets_lost_op o s : tickets_lost s -> tickets_lost (apply_op o s).
Proof.
  intros Hs. destruct o; cbn [apply_op]; try (by apply tickets_lost_upd).
  - apply tickets_lost_upd; [|done]. intros w Hw. cbv zeta. by case_goal.
  - unfold record_error, maybe_eject. repeat case_goal; simpl; try done;
      repeat apply tickets_lost_upd; done.
  - unfold reset. apply tickets_lost_upd; [done|]. apply tickets_lost_return.
    by apply tickets_lost_upd.
  - by apply tickets_lost_claim.
  - unfold release_recycle, force_eject. apply (tickets_lost_return idx) in Hs.
    repeat case_goal; try done. by apply tickets_lost_upd.
  - unfold force_eject. repeat case_goal; try done. by apply tickets_lost_upd.
  - unfold is_ejected. repeat case_goal; try done. by apply tickets_lost_upd.
Qed.

Lemma tickets_lost_forever ops s j :
  tickets_lost s -> fst (claim_recycle j (run_ops ops s)) = false.
Proof.
  revert s. induction ops as [|o ops IH]; intros s Hs; simpl.
  - by apply tickets_lost_claim.
  - apply IH. by apply tickets_lost_op.
Qed.

Lemma percent_cap_max n p : percent_cap n p <= usize_max.
Proof.
  unfold percent_cap. pose proof (wrap64_range (n * p)) as [H1 H2].
  assert (wrap64 (n * p) / 100 <= wrap64 (n * p)) by (apply Z.div_le_upper_bound; lia).
  unfold usize_max in *. lia.
Qed.

(** The ticket counter is not protected against a claim interleaved with a reset of
    the same slot: from any fresh state such a race ends with the claim refused and
    the counter wrapped to [usize::MAX], after which no operation sequence lets any
    slot claim a recycle again. *)
Theorem recycle_ticket_race (n i : nat) (cfg : EjectionConfig) :
  (i < n)%nat ->
  exists s, rtc (race_step i) (with_config n cfg, CStart, RStart) (s, CDone false, RDone) /\
    recycling_claims s = usize_max /\
    forall ops j, fst (claim_recycle j (run_ops ops s)) = false.
Proof.
  intros Hi. set (s0 := with_config n cfg).
  assert (workers s0 !! i = Some fresh_worker) as H0 by (by apply lookup_replicate_2).
  set (s1 := upd (set_recycling true) i s0).
  assert (workers s1 !! i = Some (set_recycling true fresh_worker)) as H1
    by (by apply lookup_upd_eq).
  set (s2 := upd (fun w => set_dead false (set_series 0 (set_errors 0 w))) i s1).
  assert (workers s2 !! i = Some (set_recycling true fresh_worker)) as H2
    by (exact (lookup_upd_eq _ _ _ _ H1)).
  set (s3 := upd (set_recycling false) i s2).
  set (s4 := set_claims usize_max s3).
  set (s5 := upd (set_recycling false) i s4).
  exists (upd (set_ejected None) i s5).
  assert (tickets_lost (upd (set_ejected None) i s5)) as Hlost.
  { split; [done|apply percent_cap_max|]. intros j w Hj.
    repeat (apply lookup_upd_inv in Hj as (? & Hj & ->)).
    apply lookup_replicate in Hj as [-> _]. by repeat case_decide. }
  split_and!; [|done|intros ops j; by apply tickets_lost_forever].
  eapply rtc_l; [by eapply rs_claim_check|].
  eapply rtc_l; [by eapply rs_claim_swap|]. cbn [w_recycling fresh_worker].
  eapply rtc_l; [by apply rs_reset_clear|].
  eapply rtc_l; [by eapply rs_reset_swap|]. cbn [w_recycling set_recycling].
  eapply rtc_l; [by apply rs_reset_sub|].
  eapply rtc_l; [by apply rs_claim_refuse, percent_cap_max|].
  eapply rtc_l; [by apply rs_claim_rollback|].
  by eapply rtc_once, rs_reset_uneject.
Qed.

(** ** The theorems at concrete inputs *)

Lemma recycle_tickets_witness :
  let s := snd (claim_recycle 1 (with_config 20 EjectionConfig_default)) in
  recycling_claims s = 1 /\ recycling_claims s = Z.of_nat (count_if w_recycling (workers s)) /\
  recycling_claims s <= max_recycling s.
Proof.
  intros s. split; [reflexivity|].
  apply (recycle_tickets_invariant 20 EjectionConfig_default); [by vm_compute|].
  apply rtc_once, (outlier_step_op (OpClaim 1)).
Defined.

Lemma circuit_breaker_witness :
  let s := with_config 3 EjectionConfig_default in
  circuit_of (open_circuit 5 fresh_worker) = circuit_of fresh_worker \/
  (1%nat = 1%nat /\ circuit_step s (OpForceEject 5 1) (circuit_of fresh_worker)
     (circuit_of (open_circuit 5 fresh_worker))).
Proof. intros s. exact (circuit_breaker_refinement (OpForceEject 5 1) s 1 _ _ eq_refl eq_refl). Defined.

Lemma ejection_at_threshold_witness :
  let s := with_config 3 EjectionConfig_default in
  let '(early, s1) := record_errors [(1, fun _ => false); (2, fun _ => false)] 0 s in
  early = [false; false] /\
  fst (record_error 3 (fun _ => false) 0 s1) =
    (Z.of_nat (ejected_others (fun _ => false) 0 (workers s)) <? max_ejected s).
Proof.
  intros s. apply (ejection_at_threshold [(1, fun _ => false); (2, fun _ => false)] 3
    (fun _ => false) 0 s fresh_worker); try reflexivity. by vm_compute.
Defined.

Lemma backoff_schedule_witness :
  let s := with_config 1 EjectionConfig_default in
  backoff s 1 = from_secs 30 /\
  (forall series, from_secs 30 <= backoff s series <= from_secs 300) /\
  (forall series, 1 <= series < 21 ->
     backoff s (series + 1) = Z.min (2 * backoff s series) (from_secs 300)) /\
  (forall m n, m <= n -> backoff s m <= backoff s n).
Proof. intros s. apply (backoff_schedule s). by vm_compute. Defined.

Lemma open_window_witness :
  let s := snd (force_eject 0 0 (with_config 2 EjectionConfig_default)) in
  fst (is_ejected (from_secs 29) 0 s) = bool_decide (elapsed (from_secs 29) 0 < backoff s 1).
Proof. intros s. exact (proj1 (open_window_exact (from_secs 29) 0 s _ 0 1 eq_refl eq_refl)). Defined.

Lemma dead_until_reset_witness :
  let s := mark_dead 0 (with_config 2 EjectionConfig_default) in
  is_dead (run_ops [OpSuccess 0; OpReset 1] s) 0 = true /\
  fst (claim_recycle 0 (run_ops [OpSuccess 0; OpReset 1] s)) = false.
Proof.
  intros s. apply (dead_until_reset [OpSuccess 0; OpReset 1] s 0); [reflexivity|].
  intros Hin. by repeat (apply elem_of_cons in Hin as [Hin|Hin]; [discriminate|]);
    apply elem_of_nil in Hin.
Defined.

Lemma ejection_cap_witness :
  let s := run_ops (replicate 9 (OpError 1 (fun _ => false) 0)) (with_config 4 EjectionConfig_default) in
  Z.of_nat (ejected_count s) <= 2 /\ (1 <= active_count s)%nat.
Proof.
  apply (ejection_cap 4 EjectionConfig_default (replicate 9 (OpError 1 (fun _ => false) 0)));
    [lia|simpl; lia|by vm_compute|]. apply Forall_replicate. done.
Defined.

Lemma recycle_ticket_race_witness :
  exists s, rtc (race_step 0) (with_config 2 EjectionConfig_default, CStart, RStart)
    (s, CDone false, RDone) /\ recycling_claims s = usize_max /\
    forall ops j, fst (claim_recycle j (run_ops ops s)) = false.
Proof. apply (recycle_ticket_race 2 0 EjectionConfig_default). lia. Defined.
