(* ===== verification/Priority.v ===== *)
(** * The bounded priority channel in front of each batch collector

    Models [OrdItem], [priority_channel], [PrioritySender] and
    [PriorityReceiver] of [src/src/inference_queue.rs].  [BinaryHeap] is the
    standard library's: a multiset whose [pop] removes a greatest element of the
    [Ord] order, here a list and [take_max].

    The abstract specification is a list kept in dispatch order ([Spec]); the
    channel implements it, and with equal priorities it is a plain FIFO queue
    ([PriorityProps.v]). *)

From S2P Require Import Prelude.
From Stdlib Require Import Sorted.
Open Scope Z_scope.

(** Why a queue operation failed. *)
Inductive QueueError :=
  | QClosed
  | QNotFound
  | QFull
  | QInvalidWorker (msg : string)
  | QNoLiveWorkers (msg : string).

(** ** The specification: pending items in dispatch order *)
Module Spec.
Section spec.
Context {A : Type}.

(** A new item goes behind every item of its own or a higher priority. *)
Fixpoint insert (p : Z) (x : A) (q : list (Z * A)) : list (Z * A) :=
  match q with
  | [] => [(p, x)]
  | (p', y) :: q' => if p <=? p' then (p', y) :: insert p x q' else (p, x) :: q
  end.

Definition pop (q : list (Z * A)) : option (A * list (Z * A)) :=
  match q with
  | [] => None
  | (_, x) :: q' => Some (x, q')
  end.

Lemma insert_lowest p x q :
  Forall (fun e => p <= fst e) q -> insert p x q = q ++ [(p, x)].
Proof.
  induction 1 as [|[p' y] q Hp _ IH]; [done|]. simpl in *.
  rewrite (proj2 (Z.leb_le _ _) Hp). by rewrite IH.
Qed.

Lemma length_insert p x q : length (insert p x q) = S (length q).
Proof. induction q as [|[p' y] q IH]; [done|]. simpl. case_goal; simpl; auto. Qed.
End spec.
End Spec.

Section channel.
Context {A : Type}.

(** ** State and operations *)

Record OrdItem := {
  priority : Z;
  seq : Z;
  item : A;
}.

(** [Ord for OrdItem]: higher priority greater, then the older greater. *)
Definition ord_cmp (a b : OrdItem) : comparison :=
  match Z.compare (priority a) (priority b) with
  | Eq => Z.compare (seq b) (seq a)
  | c => c
  end.

Record PriorityInner := {
  heap : list OrdItem;
  cap : Z;
  next_seq : Z;
  senders : Z;
}.

Definition priority_channel (cap : Z) : PriorityInner :=
  {| heap := []; cap := Z.max cap 1; next_seq := 0; senders := 1 |}.

(** [BinaryHeap::pop]: remove a greatest element. *)
Fixpoint take_max (h : list OrdItem) : option (OrdItem * list OrdItem) :=
  match h with
  | [] => None
  | x :: h' =>
      match take_max h' with
      | None => Some (x, [])
      | Some (m, r) =>
          match ord_cmp x m with
          | Lt => Some (m, x :: r)
          | _ => Some (x, h')
          end
      end
  end.

Definition set_heap (h : list OrdItem) (c : PriorityInner) : PriorityInner :=
  {| heap := h; cap := cap c; next_seq := next_seq c; senders := senders c |}.

Definition try_send (x : A) (p : Z) (c : PriorityInner)
    : result QueueError unit * PriorityInner :=
  if cap c <=? Z.of_nat (length (heap c)) then (Err QFull, c)
  else
    (Ok tt,
     {| heap := {| priority := p; seq := next_seq c; item := x |} :: heap c;
        cap := cap c;
        next_seq := fetch_add (next_seq c) 1;
        senders := senders c |}).

Definition clone_sender (c : PriorityInner) : PriorityInner :=
  {| heap := heap c; cap := cap c; next_seq := next_seq c;
     senders := fetch_add (senders c) 1 |}.

Definition drop_sender (c : PriorityInner) : PriorityInner :=
  {| heap := heap c; cap := cap c; next_seq := next_seq c;
     senders := fetch_sub (senders c) 1 |}.

(** One pass of the [recv] loop: an item, the end of the channel, or nothing yet
    (the consumer then waits for a notification and tries again). *)
Inductive recv_poll :=
  | RecvItem (x : A)
  | RecvClosed
  | RecvPending.

Definition recv (c : PriorityInner) : recv_poll * PriorityInner :=
  match take_max (heap c) with
  | Some (m, r) => (RecvItem (item m), set_heap r c)
  | None => if senders c =? 0 then (RecvClosed, c) else (RecvPending, c)
  end.

Definition chan_len (c : PriorityInner) : Z := Z.of_nat (length (heap c)).

(** ** The order of dispatch *)

(** [before a b]: [a] is dispatched before [b]. *)
Definition before (a b : OrdItem) : Prop :=
  priority b < priority a \/ (priority a = priority b /\ seq a < seq b).

Lemma ord_cmp_lt a b : ord_cmp a b = Lt <-> before b a.
Proof.
  unfold ord_cmp, before. destruct (Z.compare_spec (priority a) (priority b)); simpl.
  - rewrite Z.compare_lt_iff. lia.
  - split; [lia|done].
  - split; [done|lia].
Qed.

Lemma ord_cmp_ge a b : ord_cmp a b <> Lt -> seq a <> seq b -> before a b.
Proof.
  unfold ord_cmp, before. destruct (Z.compare_spec (priority a) (priority b)); simpl; try lia.
  - intros Hc Hs. right. split; [done|].
    destruct (Z.compare_spec (seq b) (seq a)); try done; lia.
  - done.
Qed.

Lemma before_trans a b c : before a b -> before b c -> before a c.
Proof. unfold before. lia. Qed.

Lemma before_irrefl a b : before a b -> before b a -> False.
Proof. unfold before. lia. Qed.

Lemma take_max_None h : take_max h = None <-> h = [].
Proof. destruct h; simpl; [done|]. destruct (take_max h) as [[m r]|]; [|done]. by case_match. Qed.

Lemma take_max_perm h m r : take_max h = Some (m, r) -> h ≡ₚ m :: r.
Proof.
  revert m r. induction h as [|x h IH]; intros m r; simpl; [done|].
  destruct (take_max h) as [[m' r']|] eqn:E.
  - specialize (IH _ _ eq_refl). case_match; intros; simplify_eq; try done.
    rewrite IH. constructor.
  - intros ?; simplify_eq. apply take_max_None in E. by subst.
Qed.

Lemma take_max_before h m r :
  NoDup (seq <$> h) -> take_max h = Some (m, r) -> Forall (before m) r.
Proof.
  revert m r. induction h as [|x h IH]; intros m r; cbn [take_max fmap list_fmap]; [done|].
  intros [Hx Hnd]%NoDup_cons.
  destruct (take_max h) as [[m' r']|] eqn:E; [|intros ?; simplify_eq; done].
  specialize (IH _ _ Hnd eq_refl). pose proof (take_max_perm _ _ _ E) as Hp.
  assert (seq x <> seq m') as Hne.
  { intros Heq. apply Hx. rewrite Hp. simpl. rewrite Heq. left. }
  destruct (ord_cmp x m') eqn:Hc; intros ?; simplify_eq.
  - rewrite Hp. assert (before m m') as Hb by (apply ord_cmp_ge; [by rewrite Hc|done]).
    constructor; [done|]. eapply Forall_impl; [done|]. intros y. by apply before_trans.
  - constructor; [|done]. by apply ord_cmp_lt.
  - rewrite Hp. assert (before m m') as Hb by (apply ord_cmp_ge; [by rewrite Hc|done]).
    constructor; [done|]. eapply Forall_impl; [done|]. intros y. by apply before_trans.
Qed.

(** ** Invariant and refinement *)

(** Sequence numbers are unique and below the next one; the capacity holds. *)
Record chan_ok (c : PriorityInner) : Prop := {
  co_nodup : NoDup (seq <$> heap c);
  co_seq : Forall (fun o => 0 <= seq o < next_seq c) (heap c);
  co_next : 0 <= next_seq c;
  co_cap : chan_len c <= cap c;
  co_pos : 1 <= cap c;
}.

(** The channel's heap holds exactly the specification's list, in its order. *)
Definition chan_refines (c : PriorityInner) (q : list (Z * A)) : Prop :=
  exists os, heap c ≡ₚ os /\ StronglySorted before os /\
    q = (fun o => (priority o, item o)) <$> os.
End channel.

Arguments OrdItem : clear implicits.
Arguments PriorityInner : clear implicits.
Arguments recv_poll : clear implicits.
