(* ===== verification/PriorityProps.v ===== *)
(** * Properties of the priority channel

    Every channel reachable from [priority_channel] keeps its invariant and
    implements the dispatch-ordered list of [Priority.Spec]; with equal
    priorities it is first-in first-out.  The wake-up protocol between senders and the
    single consumer, at the granularity of its atomic steps, loses no notification. *)

From S2P Require Import Prelude Priority.
From Stdlib Require Import Sorted.
Open Scope Z_scope.

Section refinement.
Context {A : Type}.
Implicit Types (c : PriorityInner A) (q : list (Z * A)) (os : list (OrdItem A)).

(** Two sorted arrangements of the same items are equal. *)
Lemma sorted_before_unique os os' :
  os ≡ₚ os' -> StronglySorted before os -> StronglySorted before os' -> os = os'.
Proof.
  revert os'. induction os as [|a os IH]; intros [|b os'] Hp Hs Hs';
    [done|by apply Permutation_nil_cons in Hp| |].
  - by symmetry in Hp; apply Permutation_nil_cons in Hp.
  - apply StronglySorted_inv in Hs as [Hs Ha]. apply StronglySorted_inv in Hs' as [Hs' Hb].
    assert (a = b) as ->.
    { assert (b ∈ a :: os) as Hin by (rewrite Hp; left).
      assert (a ∈ b :: os') as Hin' by (rewrite <- Hp; left).
      apply elem_of_cons in Hin as [->|Hin]; [done|].
      apply elem_of_cons in Hin' as [->|Hin']; [done|].
      rewrite Forall_forall in Ha, Hb. exfalso. eapply before_irrefl; eauto. }
    f_equal. apply IH; [by eapply Permutation_cons_inv|done..].
Qed.

(** Where [Spec.insert] puts a fresh item, the order is kept. *)
Fixpoint insert_ord (o : OrdItem A) (os : list (OrdItem A)) : list (OrdItem A) :=
  match os with
  | [] => [o]
  | o' :: os' => if priority o <=? priority o' then o' :: insert_ord o os' else o :: os
  end.

Lemma insert_ord_perm o os : insert_ord o os ≡ₚ o :: os.
Proof.
  induction os as [|o' os IH]; [done|]. simpl. case_goal; [|done]. rewrite IH. constructor.
Qed.

Lemma insert_ord_spec o os :
  (fun o => (priority o, item o)) <$> insert_ord o os
  = Spec.insert (priority o) (item o) ((fun o => (priority o, item o)) <$> os).
Proof.
  induction os as [|o' os IH]; [done|]. cbn [insert_ord fmap list_fmap Spec.insert].
  case_goal; [|done]. cbn [fmap list_fmap]. f_equal. apply IH.
Qed.

Lemma insert_ord_sorted o os :
  Forall (fun o' => seq o' < seq o) os ->
  StronglySorted before os -> StronglySorted before (insert_ord o os).
Proof.
  induction os as [|o' os IH]; intros Hseq Hs; [repeat constructor|]. simpl.
  apply Forall_cons in Hseq as [Ho' Hseq]. apply StronglySorted_inv in Hs as [Hs Hall].
  destruct (_ <=? _) eqn:Hp; to_prop.
  - constructor; [by apply IH|]. rewrite insert_ord_perm. constructor; [|done].
    unfold before. lia.
  - assert (before o o') by (unfold before; lia).
    constructor; [by constructor|]. constructor; [done|].
    eapply Forall_impl; [done|]. intros x. by apply before_trans.
Qed.

Lemma chan_ok_new n : chan_ok (priority_channel (A:=A) n).
Proof. split; simpl; try constructor; unfold chan_len; simpl; lia. Qed.

Lemma chan_refines_new n : chan_refines (priority_channel (A:=A) n) [].
Proof. exists []. repeat constructor. Qed.

Lemma try_send_ok x p c :
  chan_ok c -> next_seq c < usize_max -> chan_ok (snd (try_send x p c)).
Proof.
  intros [Hnd Hseq Hn Hcap Hpos] Hmax. unfold try_send. case_goal; [done|]. to_prop.
  unfold chan_len in *. split; simpl; rewrite ?fetch_add_small by lia.
  - apply NoDup_cons. split; [|done]. intros (o & Heq & Ho)%list_elem_of_fmap.
    rewrite Forall_forall in Hseq. apply Hseq in Ho. lia.
  - constructor; [simpl; lia|]. eapply Forall_impl; [done|]. simpl. lia.
  - lia.
  - unfold chan_len. simpl. lia.
  - done.
Qed.

Lemma recv_ok c : chan_ok c -> chan_ok (snd (recv c)).
Proof.
  intros [Hnd Hseq Hn Hcap Hpos]. unfold recv.
  destruct (take_max (heap c)) as [[m r]|] eqn:E; [|by case_goal].
  pose proof (take_max_perm _ _ _ E) as Hp. rewrite Hp in Hnd, Hseq.
  unfold chan_len in *. rewrite Hp in Hcap. simpl in *.
  apply NoDup_cons in Hnd as [_ Hnd]. apply Forall_cons in Hseq as [_ Hseq].
  split; simpl; try done. unfold chan_len. simpl. lia.
Qed.

Lemma chan_refines_length c q : chan_refines c q -> length q = length (heap c).
Proof. intros (os & Hp & _ & ->). rewrite length_fmap. by rewrite Hp. Qed.

Lemma try_send_refines x p c q :
  chan_ok c -> chan_refines c q ->
  match try_send x p c with
  | (Ok _, c') => Z.of_nat (length q) < cap c /\ chan_refines c' (Spec.insert p x q)
  | (Err e, c') => e = QFull /\ cap c <= Z.of_nat (length q) /\ c' = c
  end.
Proof.
  intros Hok Href. pose proof (chan_refines_length _ _ Href) as Hl.
  unfold try_send. case_goal; to_prop; rewrite Hl; [done|]. split; [lia|].
  destruct Href as (os & Hp & Hs & ->).
  set (o := {| priority := p; seq := next_seq c; item := x |}).
  exists (insert_ord o os). split_and!.
  - rewrite insert_ord_perm. simpl. by rewrite Hp.
  - apply insert_ord_sorted; [|done]. pose proof (co_seq _ Hok) as Hseq. rewrite Hp in Hseq.
    eapply Forall_impl; [done|]. simpl. lia.
  - apply (eq_sym (insert_ord_spec o os)).
Qed.

Lemma recv_refines c q :
  chan_ok c -> chan_refines c q ->
  match recv c with
  | (RecvItem x, c') => exists q', Spec.pop q = Some (x, q') /\ chan_refines c' q'
  | (RecvClosed, c') => q = [] /\ senders c = 0 /\ c' = c
  | (RecvPending, c') => q = [] /\ senders c <> 0 /\ c' = c
  end.
Proof.
  intros Hok (os & Hp & Hs & ->). unfold recv.
  destruct (take_max (heap c)) as [[m r]|] eqn:E.
  - pose proof (take_max_perm _ _ _ E) as Hpm. pose proof (take_max_before _ _ _ (co_nodup _ Hok) E).
    destruct os as [|o os].
    { rewrite Hp in Hpm. by apply Permutation_nil_cons in Hpm. }
    apply StronglySorted_inv in Hs as [Hs Ho].
    assert (m = o) as ->.
    { assert (o ∈ m :: r) as Hin by (rewrite <- Hpm, Hp; left).
      assert (m ∈ o :: os) as Hin' by (rewrite <- Hp, Hpm; left).
      apply elem_of_cons in Hin as [->|Hin]; [done|].
      apply elem_of_cons in Hin' as [->|Hin']; [done|].
      rewrite Forall_forall in H, Ho. exfalso. eapply before_irrefl; eauto. }
    eexists. split; [done|]. exists os. split_and!; [|done..]. simpl.
    rewrite Hp in Hpm. symmetry. by eapply Permutation_cons_inv.
  - apply take_max_None in E. rewrite E in Hp. apply Permutation_nil_l in Hp as <-.
    destruct (senders c =? 0) eqn:Hz; to_prop; done.
Qed.
End refinement.

(** ** Runs of the channel and of its specification *)

Section runs.
Context {A : Type}.

Inductive chan_op :=
  | ChSend (x : A) (p : Z)
  | ChRecv.

Inductive chan_out :=
  | OutSent (accepted : bool)
  | OutRecv (x : option A).

Definition chan_exec (o : chan_op) (c : PriorityInner A) : chan_out * PriorityInner A :=
  match o with
  | ChSend x p => let '(r, c') := try_send x p c in (OutSent (is_ok r), c')
  | ChRecv =>
      let '(r, c') := recv c in
      (OutRecv (match r with RecvItem x => Some x | _ => None end), c')
  end.

Definition spec_exec (bound : Z) (o : chan_op) (q : list (Z * A)) : chan_out * list (Z * A) :=
  match o with
  | ChSend x p =>
      if bound <=? Z.of_nat (length q) then (OutSent false, q)
      else (OutSent true, Spec.insert p x q)
  | ChRecv =>
      match Spec.pop q with
      | Some (x, q') => (OutRecv (Some x), q')
      | None => (OutRecv None, q)
      end
  end.

(** A bounded first-in first-out queue, for comparison. *)
Definition fifo_exec (bound : Z) (o : chan_op) (q : list A) : chan_out * list A :=
  match o with
  | ChSend x _ =>
      if bound <=? Z.of_nat (length q) then (OutSent false, q) else (OutSent true, q ++ [x])
  | ChRecv =>
      match q with
      | x :: q' => (OutRecv (Some x), q')
      | [] => (OutRecv None, q)
      end
  end.

(** The outputs of a sequence of operations. *)
Fixpoint outputs {S} (exec : chan_op -> S -> chan_out * S) (ops : list chan_op) (s : S)
    : list chan_out :=
  match ops with
  | [] => []
  | o :: ops => let '(r, s') := exec o s in r :: outputs exec ops s'
  end.

Lemma chan_exec_refines o c q :
  chan_ok c -> chan_refines c q -> next_seq c < usize_max ->
  fst (chan_exec o c) = fst (spec_exec (cap c) o q) /\
  chan_ok (snd (chan_exec o c)) /\
  chan_refines (snd (chan_exec o c)) (snd (spec_exec (cap c) o q)) /\
  cap (snd (chan_exec o c)) = cap c /\
  next_seq c <= next_seq (snd (chan_exec o c)) <= next_seq c + 1.
Proof.
  intros Hok Href Hn. pose proof (co_next _ Hok). destruct o as [x p|]; simpl.
  - pose proof (try_send_refines x p c q Hok Href) as Hr.
    pose proof (try_send_ok x p c Hok Hn) as Hok'.
    destruct (try_send x p c) as [r c'] eqn:E. simpl in *. unfold try_send in E.
    destruct (cap c <=? Z.of_nat (length (heap c))); simplify_eq/=.
    + destruct Hr as (_ & Hr & _). rewrite (proj2 (Z.leb_le _ _) Hr).
      simpl. split_and!; done || lia.
    + destruct Hr as (Hr & Hr'). rewrite (proj2 (Z.leb_gt _ _) Hr).
      simpl. split_and!; try done; rewrite fetch_add_small by lia; lia.
  - pose proof (recv_refines c q Hok Href) as Hr. pose proof (recv_ok c Hok) as Hok'.
    destruct (recv c) as [[x| |] c'] eqn:E; simpl in *.
    + destruct Hr as (q' & -> & Hr'). simpl. unfold recv in E.
      destruct (take_max (heap c)) as [[m r]|]; [|by destruct (senders c =? 0)].
      simplify_eq/=. split_and!; try done; lia.
    + destruct Hr as (-> & _ & ->). simpl. split_and!; try done; lia.
    + destruct Hr as (-> & _ & ->). simpl. split_and!; try done; lia.
Qed.

Lemma chan_outputs_refine ops c q :
  chan_ok c -> chan_refines c q -> next_seq c + Z.of_nat (length ops) <= usize_max ->
  outputs chan_exec ops c = outputs (spec_exec (cap c)) ops q.
Proof.
  revert c q. induction ops as [|o ops IH]; intros c q Hok Href Hn; [done|].
  simpl length in Hn.
  destruct (chan_exec_refines o c q Hok Href ltac:(lia)) as (Ho & Hok' & Href' & Hc & Hs).
  simpl. destruct (chan_exec o c) as [r c'], (spec_exec (cap c) o q) as [r' q'].
  simpl in *. subst r'. f_equal. rewrite <- Hc. apply IH; try done. lia.
Qed.

Definition sends_at (p : Z) (o : chan_op) : Prop :=
  match o with ChSend _ p' => p' = p | ChRecv => True end.

Lemma spec_outputs_fifo p bound ops (q : list A) :
  Forall (sends_at p) ops ->
  outputs (spec_exec bound) ops ((fun x => (p, x)) <$> q) = outputs (fifo_exec bound) ops q.
Proof.
  intros Hops. revert q. induction Hops as [|o ops Ho Hops IH]; intros q; [done|].
  destruct o as [x p'|]; simpl in *.
  - subst p'. rewrite length_fmap. case_goal; f_equal; [apply IH|].
    rewrite Spec.insert_lowest.
    + rewrite <- IH. by rewrite fmap_app.
    + apply Forall_fmap, Forall_true. simpl. lia.
  - destruct q as [|x q]; simpl; f_equal; [apply (IH [])|apply IH].
Qed.

(** C3. The bounded priority channel refines its specification, a list kept in
    dispatch order: over any sequence of sends and receives a fresh channel of
    capacity n gives the same results (accepted, full, item received, nothing to
    receive) as a list of at most [max n 1] items into which a send inserts after
    every item of at least its priority. *)
Theorem channel_refines_spec (n : Z) (ops : list chan_op) :
  Z.of_nat (length ops) <= usize_max ->
  outputs chan_exec ops (priority_channel n) = outputs (spec_exec (Z.max n 1)) ops [].
Proof.
  intros Hn. apply (chan_outputs_refine ops (priority_channel n) []).
  - apply chan_ok_new.
  - apply chan_refines_new.
  - simpl. lia.
Qed.

(** With equal priorities the channel is a plain first-in first-out queue. *)
Theorem channel_fifo_at_equal_priority (n p : Z) (ops : list chan_op) :
  Z.of_nat (length ops) <= usize_max -> Forall (sends_at p) ops ->
  outputs chan_exec ops (priority_channel n) = outputs (fifo_exec (Z.max n 1)) ops [].
Proof.
  intros Hn Hops. rewrite (chan_outputs_refine ops (priority_channel n) []).
  - apply (spec_outputs_fifo p _ ops []). done.
  - apply chan_ok_new.
  - apply chan_refines_new.
  - simpl. lia.
Qed.
End runs.

Arguments chan_op : clear implicits.
Arguments chan_out : clear implicits.

(** ** The wake-up protocol

    Senders push under the heap lock and notify after releasing it; the consumer
    checks the heap, then the sender count, then waits on [Notify].
    [notify_one] wakes the parked consumer or stores one permit; a woken but
    dropped wait passes its notification on as a permit. *)

Inductive consumer_pc :=
  | Checking      (** at the top of the [recv] loop *)
  | HeapEmpty     (** the heap was empty; the sender count not yet read *)
  | Waiting       (** about to await the notification *)
  | Parked        (** registered as a waiter *)
  | Woken         (** notified while parked *)
  | Finished.     (** [recv] returned [None] *)

Record wake_state := {
  items : nat;
  live_senders : nat;
  due_notifies : nat;  (** pushes and last drops whose [notify_one] is still to come *)
  permit : bool;
  consumer : consumer_pc;
}.

Inductive wake_step : wake_state -> wake_state -> Prop :=
  | ws_push h s d p k :
      (0 < s)%nat ->
      wake_step {| items := h; live_senders := s; due_notifies := d; permit := p; consumer := k |}
        {| items := S h; live_senders := s; due_notifies := S d; permit := p; consumer := k |}
  | ws_notify_parked h s d p :
      wake_step {| items := h; live_senders := s; due_notifies := S d; permit := p; consumer := Parked |}
        {| items := h; live_senders := s; due_notifies := d; permit := p; consumer := Woken |}
  | ws_notify_other h s d p k :
      k <> Parked ->
      wake_step {| items := h; live_senders := s; due_notifies := S d; permit := p; consumer := k |}
        {| items := h; live_senders := s; due_notifies := d; permit := true; consumer := k |}
  | ws_clone h s d p k :
      (0 < s)%nat ->
      wake_step {| items := h; live_senders := s; due_notifies := d; permit := p; consumer := k |}
        {| items := h; live_senders := S s; due_notifies := d; permit := p; consumer := k |}
  | ws_drop h s d p k :
      wake_step {| items := h; live_senders := S s; due_notifies := d; permit := p; consumer := k |}
        {| items := h; live_senders := s;
           due_notifies := if Nat.eqb s 0 then S d else d; permit := p; consumer := k |}
  | ws_take h s d p :
      wake_step {| items := S h; live_senders := s; due_notifies := d; permit := p; consumer := Checking |}
        {| items := h; live_senders := s; due_notifies := d; permit := p; consumer := Checking |}
  | ws_empty s d p :
      wake_step {| items := 0; live_senders := s; due_notifies := d; permit := p; consumer := Checking |}
        {| items := 0; live_senders := s; due_notifies := d; permit := p; consumer := HeapEmpty |}
  | ws_closed h d p :
      wake_step {| items := h; live_senders := 0; due_notifies := d; permit := p; consumer := HeapEmpty |}
        {| items := h; live_senders := 0; due_notifies := d; permit := p; consumer := Finished |}
  | ws_open h s d p :
      wake_step {| items := h; live_senders := S s; due_notifies := d; permit := p; consumer := HeapEmpty |}
        {| items := h; live_senders := S s; due_notifies := d; permit := p; consumer := Waiting |}
  | ws_permit h s d :
      wake_step {| items := h; live_senders := s; due_notifies := d; permit := true; consumer := Waiting |}
        {| items := h; live_senders := s; due_notifies := d; permit := false; consumer := Checking |}
  | ws_park h s d :
      wake_step {| items := h; live_senders := s; due_notifies := d; permit := false; consumer := Waiting |}
        {| items := h; live_senders := s; due_notifies := d; permit := false; consumer := Parked |}
  | ws_resume h s d p :
      wake_step {| items := h; live_senders := s; due_notifies := d; permit := p; consumer := Woken |}
        {| items := h; live_senders := s; due_notifies := d; permit := p; consumer := Checking |}
  | ws_cancel_parked h s d p :
      wake_step {| items := h; live_senders := s; due_notifies := d; permit := p; consumer := Parked |}
        {| items := h; live_senders := s; due_notifies := d; permit := p; consumer := Checking |}
  | ws_cancel_woken h s d p :
      wake_step {| items := h; live_senders := s; due_notifies := d; permit := p; consumer := Woken |}
        {| items := h; live_senders := s; due_notifies := d; permit := true; consumer := Checking |}.

Definition wake_init : wake_state :=
  {| items := 0; live_senders := 1; due_notifies := 0; permit := false; consumer := Checking |}.

(** While the consumer is on its way to sleep or asleep, anything it would have to
    wake up for still has its notification ahead of it. *)
Definition wake_ok (w : wake_state) : Prop :=
  match consumer w with
  | Parked => (0 < items w \/ live_senders w = 0 -> 0 < due_notifies w)%nat
  | Waiting =>
      (0 < items w \/ live_senders w = 0 -> 0 < due_notifies w \/ permit w = true)%nat
  | HeapEmpty => (0 < items w -> 0 < due_notifies w \/ permit w = true)%nat
  | _ => True
  end.

Lemma wake_ok_step w w' : wake_step w w' -> wake_ok w -> wake_ok w'.
Proof.
  destruct 1; unfold wake_ok; simpl; intros Hok; try done;
    try (destruct k; simpl in *; intuition (lia || congruence)); try intuition (lia || congruence).
  destruct k; simpl in *; try destruct (Nat.eqb_spec s 0); intuition (lia || congruence).
Qed.

(** C39. No wake-up is lost: in every interleaving of pushes, notifications, sender
    clones and drops with the consumer's loop, a consumer parked with no
    notification still due faces an empty heap and a live sender. *)
Theorem no_lost_wakeup (w : wake_state) :
  rtc wake_step wake_init w ->
  consumer w = Parked -> due_notifies w = 0%nat ->
  items w = 0%nat /\ live_senders w <> 0%nat.
Proof.
  intros Hr. assert (wake_ok w) as Hok.
  { revert Hr. apply (rtc_ind_r wake_ok); [done|]. intros. by eapply wake_ok_step. }
  unfold wake_ok in Hok. intros Hc Hd. rewrite Hc in Hok. lia.
Qed.

(** [recv] can return [None] with an item pending: the heap is checked before the
    sender count, and the last sender can push and drop in between. *)
Theorem recv_can_finish_with_pending_item :
  exists w, rtc wake_step wake_init w /\ consumer w = Finished /\ items w = 1%nat.
Proof.
  exists {| items := 1; live_senders := 0; due_notifies := 1; permit := true; consumer := Finished |}.
  split; [|done]. unfold wake_init.
  eapply rtc_l; [by apply ws_empty|].
  eapply rtc_l; [apply ws_push; lia|].
  eapply rtc_l; [by apply ws_notify_other|].
  eapply rtc_l; [by apply ws_drop|]. simpl.
  by eapply rtc_once, ws_closed.
Qed.

(** ** The theorems at concrete inputs *)

Lemma channel_refines_spec_witness :
  let ops := [ChSend 1%nat 0; ChSend 2%nat 5; ChSend 3%nat 5; ChRecv; ChRecv; ChRecv] in
  outputs chan_exec ops (priority_channel 2) = outputs (spec_exec 2) ops [].
Proof.
  apply (channel_refines_spec 2
    [ChSend 1%nat 0; ChSend 2%nat 5; ChSend 3%nat 5; ChRecv; ChRecv; ChRecv]).
  by vm_compute.
Defined.

Lemma no_lost_wakeup_witness :
  let w := {| items := 0; live_senders := 1; due_notifies := 0; permit := false;
              consumer := Parked |} in
  items w = 0%nat /\ live_senders w <> 0%nat.
Proof.
  intros w. apply (no_lost_wakeup w); [|reflexivity|reflexivity].
  eapply rtc_l; [apply ws_empty|]. eapply rtc_l; [apply ws_open|].
  apply rtc_once, ws_park.
Defined.
