(* ===== verification/Sequence.v ===== *)
(** * The sequence registry: sticky routing of a [sequence_id]

    Models [SequenceRegistry] of [src/src/sequence.rs]: which worker last served
    a [sequence_id] for a (model, version), bounded by a time to live and by a
    number of entries.  The operations read the clock where the source does, one
    argument per reading; the map is iterated in any order ([MapIter]).

    The abstract specification is the registry that never forgets ([history]): the
    bounded registry only ever answers what the unbounded one would. *)

From S2P Require Import Prelude.
Open Scope Z_scope.

(** ** State and operations *)

Definition normalize_sequence_id (seq : option string) : option string :=
  match seq with
  | Some s => if bool_decide (s = EmptyString) then None else Some s
  | None => None
  end.

Record SequenceEntry := {
  se_model : string;
  se_version : string;
  se_worker_idx : nat;
  se_last_used : Instant;
}.

Record SequenceRegistry := {
  sr_map : gmap string SequenceEntry;
  sr_ttl : Duration;
  sr_max_entries : Z;
}.

Definition seq_new (ttl : Duration) (max_entries : Z) : SequenceRegistry :=
  {| sr_map := ∅; sr_ttl := ttl; sr_max_entries := Z.max max_entries 1 |}.

Definition set_map (m : gmap string SequenceEntry) (r : SequenceRegistry) : SequenceRegistry :=
  {| sr_map := m; sr_ttl := sr_ttl r; sr_max_entries := sr_max_entries r |}.

Definition seq_len (r : SequenceRegistry) : Z := Z.of_nat (size (sr_map r)).

Definition touch (now : Instant) (e : SequenceEntry) : SequenceEntry :=
  {| se_model := se_model e; se_version := se_version e;
     se_worker_idx := se_worker_idx e; se_last_used := now |}.

Section operations.
Context `{MapIter}.

(** The scan of [evict_oldest]: a later entry with the same time wins. *)
Fixpoint oldest (entries : list (string * SequenceEntry)) (best : option string)
    (oldest_time : Instant) : option string :=
  match entries with
  | [] => best
  | (k, e) :: entries =>
      if se_last_used e <=? oldest_time
      then oldest entries (Some k) (se_last_used e)
      else oldest entries best oldest_time
  end.

Definition evict_oldest (now : Instant) (r : SequenceRegistry) : SequenceRegistry :=
  match oldest (map_iter (sr_map r)) None now with
  | Some k => set_map (delete k (sr_map r)) r
  | None => r
  end.

(** [now] is read on entry, [now'] by the eviction scan. *)
Definition seq_record (now now' : Instant) (sequence_id model version : string)
    (worker_idx : nat) (r : SequenceRegistry) : SequenceRegistry :=
  let e := {| se_model := model; se_version := version;
              se_worker_idx := worker_idx; se_last_used := now |} in
  match sr_map r !! sequence_id with
  | Some _ => set_map (<[sequence_id := e]> (sr_map r)) r
  | None =>
      let r := if sr_max_entries r <=? seq_len r then evict_oldest now' r else r in
      set_map (<[sequence_id := e]> (sr_map r)) r
  end.

(** [now] is read by the expiry test, [now'] by the refresh of a hit. *)
Definition seq_lookup (now now' : Instant) (sequence_id model version : string)
    (r : SequenceRegistry) : option nat * SequenceRegistry :=
  match sr_map r !! sequence_id with
  | None => (None, r)
  | Some e =>
      if sr_ttl r <? elapsed now (se_last_used e) then
        (None, set_map (delete sequence_id (sr_map r)) r)
      else if negb (bool_decide (se_model e = model))
              || negb (bool_decide (se_version e = version)) then (None, r)
      else (Some (se_worker_idx e), set_map (<[sequence_id := touch now' e]> (sr_map r)) r)
  end.

(** The entries [retain] keeps. *)
Definition fresh_at (now : Instant) (ttl : Duration) (e : SequenceEntry) : bool :=
  elapsed now (se_last_used e) <? ttl.

Definition older (a b : string * SequenceEntry) : Prop :=
  se_last_used (snd a) <= se_last_used (snd b).

#[global] Instance older_dec a b : Decision (older a b).
Proof. unfold older. apply _. Defined.

Definition seq_cleanup (now : Instant) (r : SequenceRegistry) : Z * SequenceRegistry :=
  let kept := filter (fun ke => fresh_at now (sr_ttl r) (snd ke) = true) (sr_map r) in
  let removed := Z.of_nat (size (sr_map r)) - Z.of_nat (size kept) in
  let surplus := saturating_sub (Z.of_nat (size kept)) (sr_max_entries r) in
  if 0 <? surplus then
    let entries := merge_sort older (map_iter kept) in
    let drop := take (Z.to_nat surplus) entries in
    (removed + Z.of_nat (length drop),
     set_map (foldr (fun ke m => delete (fst ke) m) kept drop) r)
  else (removed, set_map kept r).

(** ** The registry that never forgets *)

Inductive seq_op :=
  | SeqRecord (now now' : Instant) (seq model version : string) (w : nat)
  | SeqLookup (now now' : Instant) (seq model version : string)
  | SeqCleanup (now : Instant).

Definition seq_apply (o : seq_op) (r : SequenceRegistry) : SequenceRegistry :=
  match o with
  | SeqRecord now now' s m v w => seq_record now now' s m v w r
  | SeqLookup now now' s m v => snd (seq_lookup now now' s m v r)
  | SeqCleanup now => snd (seq_cleanup now r)
  end.

Definition seq_run (ops : list seq_op) (r : SequenceRegistry) : SequenceRegistry :=
  foldl (fun r o => seq_apply o r) r ops.

(** The latest record of every sequence. *)
Definition history_apply (o : seq_op) (h : gmap string (string * string * nat))
    : gmap string (string * string * nat) :=
  match o with
  | SeqRecord _ _ s m v w => <[s := (m, v, w)]> h
  | _ => h
  end.

Definition history (ops : list seq_op) : gmap string (string * string * nat) :=
  foldl (fun h o => history_apply o h) ∅ ops.

(** When the operations are made: [from] on, in order, on a monotonic clock. *)
Fixpoint timed (from : Instant) (ops : list seq_op) : Prop :=
  match ops with
  | [] => True
  | SeqRecord now now' _ _ _ _ :: ops | SeqLookup now now' _ _ _ :: ops =>
      from <= now <= now' /\ timed now' ops
  | SeqCleanup now :: ops => from <= now /\ timed now ops
  end.
End operations.

(** ** Invariant of the registry *)

Section properties.
Context `{MapIter}.
Implicit Types (r : SequenceRegistry) (e : SequenceEntry) (k s v : string).

Lemma oldest_spec es best t :
  (exists k e, (k, e) ∈ es /\ oldest es best t = Some k /\ se_last_used e <= t /\
     forall k' e', (k', e') ∈ es -> se_last_used e <= se_last_used e') \/
  (oldest es best t = best /\ forall k' e', (k', e') ∈ es -> t < se_last_used e').
Proof.
  revert best t. induction es as [|[k e] es IH]; intros best t; simpl.
  { right. split; [done|]. intros ?? []%elem_of_nil. }
  destruct (Z.leb_spec (se_last_used e) t) as [Hle|Hgt].
  - left. destruct (IH (Some k) (se_last_used e)) as [(k1 & e1 & Hin & Ho & Hl & Hm)|[Ho Hm]].
    + exists k1, e1. split; [set_solver|]. split; [done|]. split; [lia|].
      intros k' e' [[= -> ->]|Hin']%elem_of_cons; [done|eauto].
    + exists k, e. split; [set_solver|]. split; [done|]. split; [done|].
      intros k' e' [[= -> ->]|Hin']%elem_of_cons; [done|]. specialize (Hm _ _ Hin'). lia.
  - destruct (IH best t) as [(k1 & e1 & Hin & Ho & Hl & Hm)|[Ho Hm]].
    + left. exists k1, e1. split; [set_solver|]. split; [done|]. split; [done|].
      intros k' e' [[= -> ->]|Hin']%elem_of_cons; [lia|eauto].
    + right. split; [done|]. intros k' e' [[= -> ->]|Hin']%elem_of_cons; [done|eauto].
Qed.

(** With every entry used in the past, eviction removes a least recently used one. *)
Lemma evict_oldest_spec now r :
  map_Forall (fun _ e => se_last_used e <= now) (sr_map r) -> sr_map r <> ∅ ->
  exists k e, sr_map r !! k = Some e /\
    evict_oldest now r = set_map (delete k (sr_map r)) r /\
    map_Forall (fun _ e' => se_last_used e <= se_last_used e') (sr_map r).
Proof.
  intros Hpast Hne. unfold evict_oldest.
  destruct (oldest_spec (map_iter (sr_map r)) None now) as [(k & e & Hin & -> & _ & Hm)|[_ Hm]].
  - exists k, e. apply elem_of_map_iter in Hin. split; [done|]. split; [done|].
    intros k' e' Hk. by eapply Hm, elem_of_map_iter.
  - apply map_choose in Hne as (k & e & Hk).
    specialize (Hpast _ _ Hk). specialize (Hm k e (proj2 (elem_of_map_iter _ _ _) Hk)). simpl in *. lia.
Qed.

Definition seq_inv (h : gmap string (string * string * nat)) (t : Instant) (r : SequenceRegistry)
    : Prop :=
  1 <= sr_max_entries r /\ seq_len r <= sr_max_entries r /\
  map_Forall (fun k e => se_last_used e <= t /\
    h !! k = Some (se_model e, se_version e, se_worker_idx e)) (sr_map r).

Lemma seq_inv_mono h t t' r : seq_inv h t r -> t <= t' -> seq_inv h t' r.
Proof.
  intros (? & ? & Hm) ?. split; [done|]. split; [done|].
  intros k e Hk. destruct (Hm _ _ Hk). split; [lia|done].
Qed.

(** Dropping entries keeps the invariant. *)
Lemma seq_inv_subseteq h t r (m : gmap string SequenceEntry) : seq_inv h t r -> m ⊆ sr_map r -> seq_inv h t (set_map m r).
Proof.
  intros (? & Hlen & Hm) Hsub. split; [done|]. split.
  - apply map_subseteq_size in Hsub. unfold seq_len in *. simpl. lia.
  - intros k e Hk. simpl in Hk. eapply Hm, lookup_weaken; done.
Qed.

Lemma seq_inv_record h t now now' s m v w r :
  seq_inv h t r -> t <= now <= now' ->
  seq_inv (<[s := (m, v, w)]> h) now' (seq_record now now' s m v w r).
Proof.
  intros Hinv Ht.
  assert (Hins : forall r', seq_inv h now' r' ->
    Z.of_nat (size (<[s := {| se_model := m; se_version := v; se_worker_idx := w;
       se_last_used := now |}]> (sr_map r'))) <= sr_max_entries r' ->
    seq_inv (<[s := (m, v, w)]> h) now'
      (set_map (<[s := {| se_model := m; se_version := v; se_worker_idx := w;
         se_last_used := now |}]> (sr_map r')) r')).
  { intros r' (? & ? & Hm) Hsz. split; [done|]. split; [done|].
    intros k e Hk. simpl in *. destruct (decide (k = s)) as [->|Hne].
    - rewrite lookup_insert_eq in Hk. injection Hk as <-. rewrite lookup_insert_eq. split; [simpl; lia|done].
    - rewrite lookup_insert_ne in Hk by done. rewrite lookup_insert_ne by done. by apply Hm. }
  assert (Hinv' : seq_inv h now' r) by (eapply seq_inv_mono; [done|lia]).
  destruct Hinv as (Hmax & Hlen & Hm).
  unfold seq_record. destruct (sr_map r !! s) as [e|] eqn:Hs.
  - apply Hins; [done|]. rewrite map_size_insert, Hs. by unfold seq_len in Hlen.
  - case_goal; to_prop.
    + destruct (evict_oldest_spec now' r) as (k & e & Hk & -> & _).
      { intros k e Hk. destruct (Hm _ _ Hk). simpl. lia. }
      { intros He. unfold seq_len in *. rewrite He, map_size_empty in *. lia. }
      apply (Hins (set_map (delete k (sr_map r)) r)).
      { apply seq_inv_subseteq; [done|apply delete_subseteq]. }
      simpl. rewrite map_size_insert, map_size_delete, Hk.
      assert (0 < size (sr_map r))%nat by (unfold seq_len in *; lia).
      unfold seq_len in Hlen. case_goal; simpl; lia.
    + apply Hins; [done|]. rewrite map_size_insert, Hs. unfold seq_len in *. lia.
Qed.

Lemma seq_inv_lookup h t now now' s m v r :
  seq_inv h t r -> t <= now <= now' -> seq_inv h now' (snd (seq_lookup now now' s m v r)).
Proof.
  intros Hinv Ht. assert (Hinv' : seq_inv h now' r) by (eapply seq_inv_mono; [done|lia]).
  unfold seq_lookup. destruct (sr_map r !! s) as [e|] eqn:Hs; [|done].
  case_goal; [apply seq_inv_subseteq; [done|apply delete_subseteq]|].
  case_goal; [done|]. destruct Hinv' as (? & Hlen & Hm). split; [done|]. split.
  - unfold seq_len in *. simpl. rewrite map_size_insert, Hs. done.
  - intros k e' Hk. simpl in *. destruct (decide (k = s)) as [->|Hne].
    + rewrite lookup_insert_eq in Hk. injection Hk as <-. destruct (Hm _ _ Hs). by simpl.
    + rewrite lookup_insert_ne in Hk by done. by apply Hm.
Qed.

(** What is left after the sweep, capacity never being exceeded. *)
Lemma seq_cleanup_kept now r :
  seq_len r <= sr_max_entries r ->
  sr_map (snd (seq_cleanup now r))
    = filter (fun ke => fresh_at now (sr_ttl r) (snd ke) = true) (sr_map r) /\
  fst (seq_cleanup now r) = seq_len r - seq_len (snd (seq_cleanup now r)).
Proof.
  intros Hlen. unfold seq_cleanup, seq_len, saturating_sub in *.
  pose proof (map_subseteq_size _ _ (map_filter_subseteq
    (fun ke => fresh_at now (sr_ttl r) (snd ke) = true) (sr_map r))).
  case_goal; to_prop; [exfalso; lia|]. done.
Qed.

Lemma seq_inv_cleanup h t now r :
  seq_inv h t r -> t <= now -> seq_inv h now (snd (seq_cleanup now r)).
Proof.
  intros Hinv Ht. destruct Hinv as (? & Hlen & Hm).
  destruct (seq_cleanup_kept now r Hlen) as [Heq _].
  assert (snd (seq_cleanup now r) = set_map (sr_map (snd (seq_cleanup now r))) r) as ->.
  { unfold seq_cleanup. by case_goal. }
  rewrite Heq. apply seq_inv_subseteq; [|apply map_filter_subseteq].
  eapply seq_inv_mono; [|exact Ht]. done.
Qed.

(** The time after a sequence of operations. *)
Fixpoint end_time (from : Instant) (ops : list seq_op) : Instant :=
  match ops with
  | [] => from
  | SeqRecord _ now' _ _ _ _ :: ops | SeqLookup _ now' _ _ _ :: ops => end_time now' ops
  | SeqCleanup now :: ops => end_time now ops
  end.

Lemma seq_inv_run ops h t r :
  seq_inv h t r -> timed t ops ->
  seq_inv (foldl (fun h o => history_apply o h) h ops) (end_time t ops) (seq_run ops r).
Proof.
  revert h t r. induction ops as [|[] ops IH]; intros h t r Hinv Ht; [done|..];
    simpl in *; destruct Ht as [Ht Hrest]; apply IH; try done.
  - by eapply seq_inv_record.
  - by eapply seq_inv_lookup.
  - by eapply seq_inv_cleanup.
Qed.

Lemma seq_inv_new ttl n t : seq_inv ∅ t (seq_new ttl n).
Proof. split; [simpl; lia|]. split; [unfold seq_len, seq_new; cbn [sr_map]; rewrite map_size_empty; simpl; lia|]. apply map_Forall_empty. Qed.

(** The bounded sequence registry answers only what the unbounded history would:
    after any operations with a clock that does not run backwards it holds at most
    [max n 1] entries, and a hit names the model, version and worker of the last
    record of that sequence. *)
Theorem sequence_registry_sound (ttl : Duration) (n : Z) (t now now' : Instant)
    (ops : list seq_op) (s m v : string) (w : nat) :
  timed t ops ->
  seq_len (seq_run ops (seq_new ttl n)) <= Z.max n 1 /\
  (fst (seq_lookup now now' s m v (seq_run ops (seq_new ttl n))) = Some w ->
   history ops !! s = Some (m, v, w)).
Proof.
  intros Ht. destruct (seq_inv_run ops ∅ t _ (seq_inv_new ttl n t) Ht) as (_ & Hlen & Hm).
  assert (Hmax : forall r, sr_max_entries (seq_run ops r) = sr_max_entries r).
  { clear. induction ops as [|o ops IH] using rev_ind; [done|]. intros r.
    unfold seq_run. rewrite foldl_app. simpl. rewrite <- (IH r).
    fold (seq_run ops r). destruct o; simpl.
    - unfold seq_record, evict_oldest. repeat case_goal; done.
    - unfold seq_lookup. repeat case_goal; done.
    - unfold seq_cleanup. repeat case_goal; done. }
  rewrite Hmax in Hlen. split; [done|].
  unfold seq_lookup. destruct (_ !! s) as [e|] eqn:Hs; [|done].
  destruct (Hm _ _ Hs) as [_ Hh]. case_goal; [done|]. case_goal; [done|].
  to_prop. simpl. intros [= <-]. subst. exact Hh.
Qed.
End properties.

(** ** Stickiness and eviction *)

Section stickiness.
Context `{MapIter}.
Implicit Types (r : SequenceRegistry) (s m v : string).

Lemma seq_record_stored now now' s m v w r :
  sr_map (seq_record now now' s m v w r) !! s
    = Some {| se_model := m; se_version := v; se_worker_idx := w; se_last_used := now |} /\
  sr_ttl (seq_record now now' s m v w r) = sr_ttl r.
Proof.
  unfold seq_record, evict_oldest. repeat case_goal; simpl; by rewrite lookup_insert_eq.
Qed.

(** The answers to a series of lookups, each with its two clock readings. *)
Fixpoint seq_lookups (times : list (Instant * Instant)) (s m v : string) (r : SequenceRegistry)
    : list (option nat) :=
  match times with
  | [] => []
  | (now, now') :: times =>
      let '(w, r') := seq_lookup now now' s m v r in w :: seq_lookups times s m v r'
  end.

(** Every lookup comes within the time to live of the previous use. *)
Fixpoint within (ttl : Duration) (last : Instant) (times : list (Instant * Instant)) : Prop :=
  match times with
  | [] => True
  | (now, now') :: times => now - last <= ttl /\ within ttl now' times
  end.

Lemma seq_lookups_hit times s m v w last r :
  0 <= sr_ttl r ->
  sr_map r !! s = Some {| se_model := m; se_version := v; se_worker_idx := w;
                          se_last_used := last |} ->
  within (sr_ttl r) last times ->
  seq_lookups times s m v r = replicate (length times) (Some w).
Proof.
  revert r last. induction times as [|[now now'] times IH]; intros r last Httl Hs Hw; [done|].
  destruct Hw as [Hnow Hrest]. simpl.
  unfold seq_lookup. rewrite Hs. simpl. unfold elapsed.
  rewrite (proj2 (Z.ltb_ge _ _)) by lia. rewrite !bool_decide_eq_true_2 by done. simpl.
  f_equal. eapply (IH (set_map _ r) now'); [done| |done].
  simpl. by rewrite lookup_insert_eq.
Qed.

(** A recorded sequence is sticky: lookups that follow each other within the time to
    live all return the recorded worker, while a lookup after a longer gap, or for
    another model or version, misses. *)
Theorem sequence_sticky (now now' : Instant) (s m v : string) (w : nat)
    (times : list (Instant * Instant)) (r : SequenceRegistry) :
  0 <= sr_ttl r ->
  (within (sr_ttl r) now times ->
   seq_lookups times s m v (seq_record now now' s m v w r)
     = replicate (length times) (Some w)) /\
  (forall t t' m' v', sr_ttl r < t - now \/ (m', v') <> (m, v) ->
   fst (seq_lookup t t' s m' v' (seq_record now now' s m v w r)) = None).
Proof.
  intros Httl. destruct (seq_record_stored now now' s m v w r) as [Hs Hr]. split.
  - intros Hw. eapply seq_lookups_hit; rewrite ?Hr; done.
  - intros t t' m' v' Hmiss. unfold seq_lookup. rewrite Hs, Hr. unfold elapsed. simpl.
    case_goal; [done|]. case_goal; [done|]. to_prop. subst.
    destruct Hmiss as [Hlate|Hne]; [lia|]. by destruct Hne.
Qed.

(** Recording a new sequence in a full registry evicts a least recently used entry.
    *)
Theorem sequence_lru_eviction (now now' : Instant) (s m v : string) (w : nat)
    (r : SequenceRegistry) :
  map_Forall (fun _ e => se_last_used e <= now') (sr_map r) ->
  sr_map r !! s = None -> 1 <= sr_max_entries r -> sr_max_entries r <= seq_len r ->
  exists k e, sr_map r !! k = Some e /\
    map_Forall (fun _ e' => se_last_used e <= se_last_used e') (sr_map r) /\
    sr_map (seq_record now now' s m v w r)
      = <[s := {| se_model := m; se_version := v; se_worker_idx := w; se_last_used := now |}]>
          (delete k (sr_map r)).
Proof.
  intros Hpast Hs Hmax Hlen.
  destruct (evict_oldest_spec now' r Hpast) as (k & e & Hk & He & Hmin).
  { intros Hnil. unfold seq_len in Hlen. rewrite Hnil, map_size_empty in Hlen. simpl in Hlen. lia. }
  exists k, e. split; [done|]. split; [done|].
  unfold seq_record. rewrite Hs, (proj2 (Z.leb_le _ _)), He by done. done.
Qed.
End stickiness.

(** ** The theorems at concrete inputs *)

Lemma sequence_registry_sound_witness :
  let ops := [SeqRecord 1 2 "s" "m" "1" 4; SeqRecord 3 4 "t" "m" "1" 5; SeqLookup 5 6 "t" "m" "1"] in
  seq_len (seq_run ops (seq_new 100 1)) <= 1 /\
  (fst (seq_lookup 7 8 "t" "m" "1" (seq_run ops (seq_new 100 1))) = Some 5%nat ->
   history ops !! "t" = Some ("m", "1", 5%nat)).
Proof.
  apply (sequence_registry_sound 100 1 0 7 8
    [SeqRecord 1 2 "s" "m" "1" 4; SeqRecord 3 4 "t" "m" "1" 5; SeqLookup 5 6 "t" "m" "1"]
    "t" "m" "1" 5). simpl. lia.
Defined.

Lemma sequence_sticky_witness :
  let r := seq_record 0 0 "s" "m" "1" 4 (seq_new 10 8) in
  seq_lookups [(9, 9); (18, 18)] "s" "m" "1" r = [Some 4%nat; Some 4%nat] /\
  fst (seq_lookup 11 11 "s" "m" "1" r) = None.
Proof.
  destruct (sequence_sticky 0 0 "s" "m" "1" 4 [(9, 9); (18, 18)] (seq_new 10 8)) as [Hhit Hmiss];
    [simpl; lia|]. split.
  - apply Hhit. simpl. lia.
  - apply Hmiss. left. simpl. lia.
Defined.
