(* ===== verification/Pick.v ===== *)
(** * Worker selection

    Models the pickers of [src/src/inference_queue.rs] (least-loaded, affinity,
    power of two, rendezvous hashing) and of [src/src/worker/routing.rs]
    (streaming).  A picker probes slots with [is_ejected], which can move a slot
    to half-open, so each takes the outlier state and returns the new one.  The
    probes of one pick read the clock at one instant.

    Outside the source: the random number generator (a list of draws, or one
    draw) and the hash of a key and a slot number; both are arguments, and the
    theorems hold for every choice of them. *)

From S2P Require Import Prelude Text Outlier Sequence Float.
Open Scope Z_scope.

(** [exclude.contains(&i)]. *)
Definition contains (l : list nat) (i : nat) : bool := bool_decide (i ∈ l).

(** ** Least loaded *)

(** [(index, load)] of the best slot of a tier so far. *)
Abbreviation Best := (option (nat * Z)) (only parsing).

Definition better (i : nat) (load : Z) (slot : Best) : Best :=
  match slot with
  | None => Some (i, load)
  | Some (j, best_load) => if load <? best_load then Some (i, load) else Some (j, best_load)
  end.

(** The scan from slot [i] on, with the best of each tier so far. *)
Fixpoint least_loaded_scan (now : Instant) (exclude : list nat) (inflight : list Z) (i : nat)
    (act ej ex : Best) (s : OutlierState) : (Best * Best * Best) * OutlierState :=
  match inflight with
  | [] => ((act, ej, ex), s)
  | load :: rest =>
      if is_dead s i then least_loaded_scan now exclude rest (S i) act ej ex s
      else if contains exclude i then
        least_loaded_scan now exclude rest (S i) act ej (better i load ex) s
      else
        let '(ejected, s) := is_ejected now i s in
        if ejected || is_recycling s i then
          least_loaded_scan now exclude rest (S i) act (better i load ej) ex s
        else
          least_loaded_scan now exclude rest (S i) (better i load act) ej ex s
  end.

Definition pick_worker_least_loaded (now : Instant) (inflight : list Z) (exclude : list nat)
    (s : OutlierState) : nat * OutlierState :=
  if Nat.eqb (length inflight) 1 then (0%nat, s)
  else
    let '((act, ej, ex), s') := least_loaded_scan now exclude inflight 0 None None None s in
    (match act with
     | Some (i, _) => i
     | None => match ej with
               | Some (i, _) => i
               | None => match ex with Some (i, _) => i | None => 0%nat end
               end
     end, s').

(** ** Affinity *)

Record BalanceConfig := {
  abs_threshold : Z;          (** u32 *)
  rel_threshold : spec_float; (** f32 *)
}.

Definition BalanceConfig_default : BalanceConfig :=
  {| abs_threshold := 2; rel_threshold := lit 24 128 3 (-1) |}.

Record Affinity := {
  aff_seq : string;
  aff_preferred : option nat;
}.

(** The routing hints an item carries on its metadata. *)
Record RequestMeta := {
  meta_sequence_id : option string;
  meta_headers : gmap string string;
}.

(** A header value, an empty one counting as absent. *)
Definition nonempty (o : option string) : option string :=
  match o with
  | Some v => if bool_decide (v = EmptyString) then None else Some v
  | None => None
  end.

Definition affinity_key (m : option RequestMeta) : option string :=
  nonempty (m ≫= fun m => meta_headers m !! "x-lite-affinity-key").

(** The loop over the batch's metadata.  Each registry lookup reads the clock;
    the whole batch is looked up at [now]. *)
Fixpoint batch_affinity_scan (now : Instant) (model version : string)
    (batch : list (option RequestMeta)) (first_seq : option string) (agreed : option nat)
    (disagree : bool) (reg : SequenceRegistry)
    : (option string * option nat * bool) * SequenceRegistry :=
  match batch with
  | [] => ((first_seq, agreed, disagree), reg)
  | meta :: batch =>
      let seq := normalize_sequence_id (meta ≫= meta_sequence_id) in
      let key := match seq with Some s => Some s | None => affinity_key meta end in
      match key with
      | None => batch_affinity_scan now model version batch first_seq agreed disagree reg
      | Some key =>
          let first_seq := match first_seq with Some f => Some f | None => Some key end in
          match seq with
          | None => batch_affinity_scan now model version batch first_seq agreed disagree reg
          | Some seq =>
              let '(hit, reg) := seq_lookup now now seq model version reg in
              match hit with
              | None => batch_affinity_scan now model version batch first_seq agreed disagree reg
              | Some w =>
                  match agreed with
                  | None =>
                      batch_affinity_scan now model version batch first_seq (Some w) disagree reg
                  | Some cur =>
                      batch_affinity_scan now model version batch first_seq agreed
                        (disagree || negb (Nat.eqb cur w)) reg
                  end
              end
          end
      end
  end.

Definition batch_affinity (now : Instant) (batch : list (option RequestMeta))
    (reg : SequenceRegistry) (model version : string) : option Affinity * SequenceRegistry :=
  let '((first_seq, agreed, disagree), reg) :=
    batch_affinity_scan now model version batch None None false reg in
  (match first_seq with
   | None => None
   | Some seq => Some {| aff_seq := seq; aff_preferred := if disagree then None else agreed |}
   end, reg).

(** Ejected, dead, recycling or excluded: the probe comes first. *)
Definition unavailable (now : Instant) (exclude : list nat) (i : nat) (s : OutlierState)
    : bool * OutlierState :=
  let '(ejected, s) := is_ejected now i s in
  (ejected || is_dead s i || is_recycling s i || contains exclude i, s).

(** The lowest load among the available slots other than [w]. *)
Fixpoint min_other (now : Instant) (exclude : list nat) (w : nat) (inflight : list Z) (i : nat)
    (min : Z) (s : OutlierState) : Z * OutlierState :=
  match inflight with
  | [] => (min, s)
  | l :: rest =>
      if Nat.eqb i w then min_other now exclude w rest (S i) min s
      else
        let '(skip, s) := unavailable now exclude i s in
        if skip then min_other now exclude w rest (S i) min s
        else min_other now exclude w rest (S i) (if l <? min then l else min) s
  end.

Definition affinity_overloaded (now : Instant) (inflight : list Z) (exclude : list nat) (w : nat)
    (balance : BalanceConfig) (s : OutlierState) : bool * OutlierState :=
  let '(min, s) := min_other now exclude w inflight 0 usize_max s in
  if min =? usize_max then (false, s)
  else
    let wload := default 0 (inflight !! w) in
    if (0 <? abs_threshold balance)
       && (saturating_add min (abs_threshold balance) <? wload) then (true, s)
    else if fgt (rel_threshold balance) float_zero && (0 <? min) then
      let limit := f64_mul (f64_of_Z min) (f64_of_f32 (rel_threshold balance)) in
      (fgt (f64_of_Z wload) limit, s)
    else (false, s).

(** The available slots among the [n] from [i] on. *)
Fixpoint live_from (now : Instant) (exclude : list nat) (i n : nat) (s : OutlierState)
    : list nat * OutlierState :=
  match n with
  | O => ([], s)
  | S n =>
      let '(skip, s) := unavailable now exclude i s in
      let '(rest, s) := live_from now exclude (S i) n s in
      (if skip then rest else i :: rest, s)
  end.

(** [live[gen_range(0..live.len())]], with the draw given. *)
Definition draw_slot (live : list nat) (d : nat) : option nat := live !! (d mod length live)%nat.

(** The loop for the second worker: draw until it differs from the first. *)
Fixpoint second_draw (draws : list nat) (live : list nat) (a : nat) : option nat :=
  match draws with
  | [] => None
  | d :: draws =>
      match draw_slot live d with
      | Some c => if Nat.eqb c a then second_draw draws live a else Some c
      | None => None
      end
  end.

(** [None] while the random loop has not drawn a second worker yet. *)
Definition power_of_two_pick (now : Instant) (draws : list nat) (inflight : list Z)
    (exclude : list nat) (s : OutlierState) : option nat * OutlierState :=
  let '(live, s) := live_from now exclude 0 (length inflight) s in
  if Nat.ltb (length live) 2 then
    let '(i, s) := pick_worker_least_loaded now inflight exclude s in (Some i, s)
  else
    match draws with
    | [] => (None, s)
    | d :: draws =>
        match draw_slot live d with
        | None => (None, s)
        | Some a =>
            match second_draw draws live a with
            | None => (None, s)
            | Some b =>
                (Some (if default 0 (inflight !! a) <=? default 0 (inflight !! b)
                       then a else b), s)
            end
        end
    end.

Section hashed.
(** The 64-bit hash of a key followed by a slot number. *)
Context (hash : string -> nat -> Z).

Fixpoint rendezvous_scan (now : Instant) (exclude : list nat) (seq : string) (i n : nat)
    (best : option (Z * nat)) (s : OutlierState) : option (Z * nat) * OutlierState :=
  match n with
  | O => (best, s)
  | S n =>
      let '(skip, s) := unavailable now exclude i s in
      if skip then rendezvous_scan now exclude seq (S i) n best s
      else
        let hv := hash seq i in
        let best := match best with
                    | None => Some (hv, i)
                    | Some (bh, bi) => if bh <? hv then Some (hv, i) else Some (bh, bi)
                    end in
        rendezvous_scan now exclude seq (S i) n best s
  end.

Definition rendezvous_pick (now : Instant) (seq : string) (num_workers : nat) (exclude : list nat)
    (s : OutlierState) : option nat * OutlierState :=
  let '(best, s) := rendezvous_scan now exclude seq 0 num_workers None s in
  (snd <$> best, s).

Definition pick_worker (now : Instant) (draws : list nat) (inflight : list Z)
    (exclude : list nat) (affinity : option Affinity) (balance : BalanceConfig)
    (s : OutlierState) : option nat * OutlierState :=
  match affinity with
  | None =>
      let '(i, s) := pick_worker_least_loaded now inflight exclude s in (Some i, s)
  | Some a =>
      if Nat.leb (length inflight) 1 then (Some 0%nat, s)
      else
        let by_hash s :=
          let '(r, s) := rendezvous_pick now (aff_seq a) (length inflight) exclude s in
          match r with
          | Some i => (Some i, s)
          | None =>
              let '(i, s) := pick_worker_least_loaded now inflight exclude s in (Some i, s)
          end in
        match aff_preferred a with
        | Some w =>
            if Nat.ltb w (length inflight) then
              let '(skip, s) := unavailable now exclude w s in
              if skip then by_hash s
              else
                let '(over, s) := affinity_overloaded now inflight exclude w balance s in
                if over then power_of_two_pick now draws inflight exclude s else (Some w, s)
            else by_hash s
        | None => by_hash s
        end
  end.

(** ** Streaming *)

(** [gen_range(0..num_workers.max(1))], with the draw given. *)
Definition pick_worker_random (draw : nat) (num_workers : nat) : nat :=
  (draw mod Nat.max num_workers 1)%nat.

Definition unusable (now : Instant) (i : nat) (s : OutlierState) : bool * OutlierState :=
  let '(ejected, s) := is_ejected now i s in
  (ejected || is_dead s i || is_recycling s i, s).

Fixpoint skip_scan (now : Instant) (start num_workers i n : nat) (s : OutlierState)
    : option nat * OutlierState :=
  match n with
  | O => (None, s)
  | S n =>
      let idx := ((start + i) mod num_workers)%nat in
      let '(skip, s) := unusable now idx s in
      if skip then skip_scan now start num_workers (S i) n s else (Some idx, s)
  end.

Definition pick_worker_skip_ejected (now : Instant) (draw : nat) (num_workers : nat)
    (s : OutlierState) : nat * OutlierState :=
  if Nat.leb num_workers 1 then (0%nat, s)
  else
    let start := (draw mod num_workers)%nat in
    let '(r, s) := skip_scan now start num_workers 0 num_workers s in
    (default start r, s).

Inductive PickError :=
  | InvalidPin (w : Z)
  | NoLiveWorkers
  | WorkerRecycling (w : Z).

(** The slot a [sequence_id] sticks to, if it is in range and usable. *)
Definition sticky_worker (now : Instant) (seq : option string) (num_workers : nat)
    (outlier : option OutlierState) (reg : SequenceRegistry) (model version : string)
    : option nat * option OutlierState * SequenceRegistry :=
  match seq with
  | None => (None, outlier, reg)
  | Some seq =>
      let '(hit, reg) := seq_lookup now now seq model version reg in
      match hit with
      | None => (None, outlier, reg)
      | Some w =>
          let '(skip, outlier) :=
            match outlier with
            | Some o => let '(b, o) := unusable now w o in (b, Some o)
            | None => (false, None)
            end in
          (if Nat.ltb w num_workers && negb skip then Some w else None, outlier, reg)
      end
  end.

(** The soft hints: the affinity key's rendezvous slot, else a random usable one. *)
Definition hinted_worker (now : Instant) (draw : nat) (meta : RequestMeta) (num_workers : nat)
    (outlier : option OutlierState) : nat * option OutlierState :=
  match outlier with
  | None => (pick_worker_random draw num_workers, None)
  | Some o =>
      let '(r, o) :=
        match affinity_key (Some meta) with
        | Some key => rendezvous_pick now key num_workers [] o
        | None => (None, o)
        end in
      match r with
      | Some w => (w, Some o)
      | None => let '(w, o) := pick_worker_skip_ejected now draw num_workers o in (w, Some o)
      end
  end.

(** The header [x-lite-worker-id], when it is a number. *)
Definition worker_pin (meta : RequestMeta) : option Z :=
  meta_headers meta !! "x-lite-worker-id" ≫= parse_usize.

Definition pick_streaming_worker (now : Instant) (draw : nat) (meta : RequestMeta)
    (num_workers : nat) (outlier : option OutlierState) (reg : SequenceRegistry)
    (model version : string)
    `{MapIter} : result PickError nat * option OutlierState * SequenceRegistry :=
  if match outlier with Some o => all_dead o | None => false end then
    (Err NoLiveWorkers, outlier, reg)
  else
    match worker_pin meta with
    | Some w =>
        let '(ejected, outlier) :=
          match outlier with
          | Some o =>
              let '(e, o) := is_ejected now (Z.to_nat w) o in
              (e || is_dead o (Z.to_nat w), Some o)
          | None => (false, None)
          end in
        if Z.of_nat num_workers <=? w then (Err (InvalidPin w), outlier, reg)
        else if ejected then (Err (InvalidPin w), outlier, reg)
        else if match outlier with Some o => is_recycling o (Z.to_nat w) | None => false end
        then (Err (WorkerRecycling w), outlier, reg)
        else (Ok (Z.to_nat w), outlier, reg)
    | None =>
        let seq := normalize_sequence_id (meta_sequence_id meta) in
        let '(preferred, outlier, reg) :=
          sticky_worker now seq num_workers outlier reg model version in
        let '(w, outlier) :=
          match preferred with
          | Some w => (w, outlier)
          | None => hinted_worker now draw meta num_workers outlier
          end in
        (Ok w, outlier,
         match seq with
         | Some seq => seq_record now now seq model version w reg
         | None => reg
         end)
    end.
End hashed.
