(* ===== verification/PickProps.v ===== *)
(** * Properties of worker selection

    A pick probes the outlier state, which may move slots to half-open; seen at
    the same instant, the state answers every question as before ([same_view]),
    so each pick is specified against the state it started from: least-loaded is
    an argmin, rendezvous hashing an argmax, and no pick returns an unavailable
    slot while an available one exists. *)

From S2P Require Import Prelude Text Outlier Sequence Float Pick.
Open Scope Z_scope.

(** ** Probing does not change what a pick sees *)

Definition ejected_now (now : Instant) (s : OutlierState) (i : nat) : bool :=
  fst (is_ejected now i s).

Definition same_view (now : Instant) (s s' : OutlierState) : Prop :=
  forall i, ejected_now now s' i = ejected_now now s i /\
            is_dead s' i = is_dead s i /\ is_recycling s' i = is_recycling s i /\
            (forall w, workers s !! i = Some w -> w_ejected w = None -> workers s' !! i = Some w).

Definition usable_at (now : Instant) (s : OutlierState) (i : nat) : bool :=
  negb (ejected_now now s i || is_dead s i || is_recycling s i).

Definition available (now : Instant) (exclude : list nat) (s : OutlierState) (i : nat) : bool :=
  usable_at now s i && negb (contains exclude i).

#[export] Instance same_view_preorder now : PreOrder (same_view now).
Proof.
  split; [by intros s i|]. intros s1 s2 s3 H12 H23 i.
  destruct (H12 i) as (? & ? & ? & Hc12), (H23 i) as (? & ? & ? & Hc23).
  split_and!; [congruence..|]. auto.
Qed.

Lemma same_view_usable now s s' i : same_view now s s' -> usable_at now s' i = usable_at now s i.
Proof. intros Hv. destruct (Hv i) as (He & Hd & Hr & _). unfold usable_at. by rewrite He, Hd, Hr. Qed.

Lemma same_view_available now ex s s' i :
  same_view now s s' -> available now ex s' i = available now ex s i.
Proof. intros Hv. unfold available. by erewrite same_view_usable. Qed.

(** A probe changes no answer at its instant, and no slot whose circuit is closed. *)
Lemma same_view_probe now i s : same_view now s (snd (is_ejected now i s)).
Proof.
  intros j. unfold ejected_now, is_ejected, is_dead, is_recycling.
  destruct (workers s !! i) as [w|] eqn:Hi; [|done].
  destruct (w_ejected w) as [e|] eqn:He; [|done].
  destruct (half_open e) eqn:Hh; [done|].
  destruct (backoff s (w_ejection_series w) <=? elapsed now (ejected_at e)) eqn:Hb; [|done].
  simpl. destruct (decide (i = j)) as [<-|Hne].
  - rewrite list_lookup_alter_eq, Hi. simpl. rewrite He, Hh. simpl. rewrite Hb.
    split_and!; [done..|]. intros w' [= <-]. congruence.
  - rewrite !list_lookup_alter_ne by done. split; [|done].
    destruct (workers s !! j) as [w'|]; [|done].
    destruct (w_ejected w') as [e'|]; [|done]. destruct (half_open e'); [done|].
    unfold backoff. simpl. by case_goal.
Qed.

#[export] Hint Resolve same_view_probe : lite.

Lemma unavailable_spec now ex i s :
  exists s', unavailable now ex i s = (negb (available now ex s i), s') /\ same_view now s s'.
Proof.
  pose proof (same_view_probe now i s) as Hv. unfold unavailable, available, usable_at, ejected_now.
  destruct (is_ejected now i s) as [e s'] eqn:He. exists s'. split; [|done].
  destruct (Hv i) as (_ & Hd & Hr & _). simpl in *. rewrite Hd, Hr. f_equal.
  destruct e, (is_dead s i), (is_recycling s i), (contains ex i); done.
Qed.

Lemma unusable_spec now i s :
  exists s', unusable now i s = (negb (usable_at now s i), s') /\ same_view now s s'.
Proof.
  pose proof (same_view_probe now i s) as Hv. unfold unusable, usable_at, ejected_now.
  destruct (is_ejected now i s) as [e s'] eqn:He. exists s'. split; [|done].
  destruct (Hv i) as (_ & Hd & Hr & _). simpl in *. rewrite Hd, Hr. by rewrite negb_involutive.
Qed.

(** ** Least loaded is an argmin *)

(** 0: usable; 1: ejected or recycling; 2: excluded. *)
Definition tier (now : Instant) (exclude : list nat) (s : OutlierState) (i : nat) : nat :=
  if contains exclude i then 2%nat
  else if ejected_now now s i || is_recycling s i then 1%nat else 0%nat.

(** The best live slot of tier [t] among those from [i] on. *)
Fixpoint best_tier (now : Instant) (exclude : list nat) (s : OutlierState) (t : nat)
    (inflight : list Z) (i : nat) (best : option (nat * Z)) : option (nat * Z) :=
  match inflight with
  | [] => best
  | l :: rest =>
      best_tier now exclude s t rest (S i)
        (if negb (is_dead s i) && Nat.eqb (tier now exclude s i) t then better i l best else best)
  end.

Lemma least_loaded_scan_best now ex fl i act ej exc s s0 :
  same_view now s0 s ->
  exists s', least_loaded_scan now ex fl i act ej exc s
    = ((best_tier now ex s0 0 fl i act, best_tier now ex s0 1 fl i ej,
        best_tier now ex s0 2 fl i exc), s') /\ same_view now s0 s'.
Proof.
  revert i act ej exc s. induction fl as [|l fl IH]; intros i act ej exc s Hv; simpl.
  { by exists s. }
  destruct (Hv i) as (He & Hd & Hr & _). rewrite Hd. unfold tier at 1 2 3.
  destruct (is_dead s0 i); simpl; [by apply IH|].
  destruct (contains ex i); simpl; [by apply IH|].
  pose proof (same_view_probe now i s) as Hp. unfold ejected_now in He at 1.
  destruct (is_ejected now i s) as [e s1]. simpl in *. rewrite He.
  destruct (Hp i) as (_ & _ & -> & _). rewrite Hr.
  assert (same_view now s0 s1) by (by etrans).
  destruct (ejected_now now s0 i || is_recycling s0 i); simpl; by apply IH.
Qed.

Lemma best_tier_snoc now ex s t fl l i best :
  best_tier now ex s t (fl ++ [l]) i best
  = let b := best_tier now ex s t fl i best in
    let j := (i + length fl)%nat in
    if negb (is_dead s j) && Nat.eqb (tier now ex s j) t then better j l b else b.
Proof.
  revert i best. induction fl as [|x fl IH]; intros i best; simpl.
  - by rewrite Nat.add_0_r.
  - rewrite IH. simpl. by rewrite Nat.add_succ_r.
Qed.

Definition candidate now ex s t (fl : list Z) (j : nat) (l : Z) : Prop :=
  fl !! j = Some l /\ is_dead s j = false /\ tier now ex s j = t.

Lemma best_tier_spec now ex s t fl :
  match best_tier now ex s t fl 0 None with
  | None => forall j l, ~ candidate now ex s t fl j l
  | Some (k, l) => candidate now ex s t fl k l /\
      forall j l', candidate now ex s t fl j l' -> l < l' \/ (l = l' /\ k <= j)%nat
  end.
Proof.
  unfold candidate. induction fl as [|x fl IH] using rev_ind; simpl.
  { intros j l [Hj _]. by rewrite lookup_nil in Hj. }
  rewrite best_tier_snoc. simpl.
  assert (Hlook : forall j l, (fl ++ [x]) !! j = Some l <->
    fl !! j = Some l \/ (j = length fl /\ l = x)).
  { intros j l. rewrite lookup_snoc_Some. split; [intros [[? ?]|[? <-]]; auto|].
    intros [Hj|[-> ->]]; [left; split; [by eapply lookup_lt_Some|done]|by right]. }
  destruct (negb (is_dead s (length fl)) && (tier now ex s (length fl) =? t)%nat) eqn:Hc.
  - to_prop. destruct (best_tier now ex s t fl 0 None) as [[k l]|]; simpl.
    + destruct IH as [(Hk & Hkd & Hkt) Hmin]. case_goal; to_prop.
      * split; [by rewrite Hlook; auto|].
        intros j l' ([Hj|[-> ->]]%Hlook & Hjd & Hjt); [|right; lia].
        destruct (Hmin j l') as [?|[? ?]]; [done| |]; left; lia.
      * split; [by rewrite Hlook; auto|].
        intros j l' ([Hj|[-> ->]]%Hlook & Hjd & Hjt); [by apply Hmin|].
        apply lookup_lt_Some in Hk. lia.
    + split; [by rewrite Hlook; auto|].
      intros j l' ([Hj|[-> ->]]%Hlook & Hjd & Hjt); [|right; lia]. by destruct (IH j l').
  - assert (Hno : forall j l, candidate now ex s t (fl ++ [x]) j l <-> candidate now ex s t fl j l).
    { intros j l. unfold candidate. rewrite Hlook. split; [|by intuition auto].
      intros ([Hj|[-> ->]] & Hd & Ht); [done|]. rewrite Hd, Ht, Nat.eqb_refl in Hc. done. }
    unfold candidate in Hno. destruct (best_tier now ex s t fl 0 None) as [[k l]|].
    + destruct IH as [Hk Hmin]. split; [by apply Hno|]. intros j l' Hj. by apply Hmin, Hno.
    + intros j l Hj. by eapply IH, Hno.
Qed.

(** Slot [i] is at least as good a choice as [j]. *)
Definition preferred_to now ex s (inflight : list Z) (i j : nat) : Prop :=
  (tier now ex s i < tier now ex s j)%nat \/
  (tier now ex s i = tier now ex s j /\
   (default 0 (inflight !! i) < default 0 (inflight !! j) \/
    default 0 (inflight !! i) = default 0 (inflight !! j) /\ (i <= j)%nat)).

Lemma tier_cases now ex s i :
  tier now ex s i = 0%nat \/ tier now ex s i = 1%nat \/ tier now ex s i = 2%nat.
Proof. unfold tier. repeat case_goal; auto. Qed.

Lemma best_tier_optimal now ex s fl t k l :
  best_tier now ex s t fl 0 None = Some (k, l) ->
  (forall t', (t' < t)%nat -> best_tier now ex s t' fl 0 None = None) ->
  (k < length fl)%nat /\ is_dead s k = false /\
  forall j, (j < length fl)%nat -> is_dead s j = false -> preferred_to now ex s fl k j.
Proof.
  intros Hk Hlow. pose proof (best_tier_spec now ex s t fl) as Hs. rewrite Hk in Hs.
  destruct Hs as [(Hlk & Hd & Ht) Hmin].
  split; [by eapply lookup_lt_Some|]. split; [done|].
  intros j Hj Hjd. apply lookup_lt_is_Some_2 in Hj as [lj Hlj].
  unfold preferred_to. rewrite Hlk, Hlj. simpl.
  destruct (lt_eq_lt_dec (tier now ex s k) (tier now ex s j)) as [[?|?]|Hgt]; [by left| |].
  - right. split; [done|]. apply Hmin. unfold candidate. split_and!; congruence.
  - exfalso. pose proof (best_tier_spec now ex s (tier now ex s j) fl) as Hs'.
    rewrite Hlow in Hs' by lia. by apply (Hs' j lj).
Qed.

Lemma least_loaded_optimal_gen now fl ex s :
  exists s', snd (pick_worker_least_loaded now fl ex s) = s' /\ same_view now s s' /\
  forall j0, (j0 < length fl)%nat -> is_dead s j0 = false ->
  let i := fst (pick_worker_least_loaded now fl ex s) in
  (i < length fl)%nat /\ is_dead s i = false /\
  forall j, (j < length fl)%nat -> is_dead s j = false -> preferred_to now ex s fl i j.
Proof.
  unfold pick_worker_least_loaded. destruct (Nat.eqb_spec (length fl) 1) as [H1|Hlen].
  - exists s. split; [done|]. split; [done|]. intros j0 Hj0 Hd0. simpl.
    assert (j0 = 0%nat) as -> by lia. split; [done|]. split; [done|].
    intros j Hj _. assert (j = 0%nat) as -> by lia. right. split; [done|]. right. lia.
  - destruct (least_loaded_scan_best now ex fl 0 None None None s s) as (s' & -> & Hv); [done|].
    exists s'. split; [done|]. split; [done|]. intros j0 Hj0 Hd0. simpl.
    destruct (best_tier now ex s 0 fl 0 None) as [[k l]|] eqn:H0.
    { eapply best_tier_optimal; [exact H0|lia]. }
    destruct (best_tier now ex s 1 fl 0 None) as [[k l]|] eqn:H1.
    { eapply best_tier_optimal; [exact H1|]. intros [|t'] ?; [done|lia]. }
    destruct (best_tier now ex s 2 fl 0 None) as [[k l]|] eqn:H2.
    { eapply best_tier_optimal; [exact H2|]. intros [|[|t']] ?; [done|done|lia]. }
    exfalso. apply lookup_lt_is_Some_2 in Hj0 as [l0 Hl0].
    destruct (tier_cases now ex s j0) as [Ht|[Ht|Ht]];
      [pose proof (best_tier_spec now ex s 0 fl) as Hs
      |pose proof (best_tier_spec now ex s 1 fl) as Hs
      |pose proof (best_tier_spec now ex s 2 fl) as Hs];
      rewrite ?H0, ?H1, ?H2 in Hs; by apply (Hs j0 l0).
Qed.

(** C9. [pick_worker_least_loaded] is optimal: while some slot is alive it returns a
    live slot that is preferred to every live slot, by tier (active, then ejected or
    recycling, then excluded), then by load, then by index. *)
Theorem least_loaded_optimal (now : Instant) (inflight : list Z) (exclude : list nat)
    (s : OutlierState) (j0 : nat) :
  (j0 < length inflight)%nat -> is_dead s j0 = false ->
  let i := fst (pick_worker_least_loaded now inflight exclude s) in
  (i < length inflight)%nat /\ is_dead s i = false /\
  forall j, (j < length inflight)%nat -> is_dead s j = false ->
    preferred_to now exclude s inflight i j.
Proof.
  destruct (least_loaded_optimal_gen now inflight exclude s) as (s' & _ & _ & Hopt).
  apply Hopt.
Qed.

Lemma available_tier now ex s i :
  available now ex s i = true <-> is_dead s i = false /\ tier now ex s i = 0%nat.
Proof.
  unfold available, usable_at, tier.
  destruct (ejected_now now s i), (is_dead s i), (is_recycling s i), (contains ex i); simpl;
    intuition congruence.
Qed.

(** With an available slot, least-loaded picks one. *)
Lemma least_loaded_available now fl ex s j :
  (j < length fl)%nat -> available now ex s j = true ->
  exists i s', pick_worker_least_loaded now fl ex s = (i, s') /\
    (i < length fl)%nat /\ available now ex s i = true /\ same_view now s s'.
Proof.
  intros Hj [Hd Ht]%available_tier.
  destruct (least_loaded_optimal_gen now fl ex s) as (s' & Hs' & Hv & Hopt).
  destruct (Hopt j Hj Hd) as (Hi & Hid & Hbest).
  destruct (pick_worker_least_loaded now fl ex s) as [i s1]. simpl in *. subst s1.
  exists i, s'. split_and!; try done. apply available_tier. split; [done|].
  destruct (Hbest j Hj Hd) as [?|[? _]]; lia.
Qed.

(** ** The available slots, in order *)

Definition live_slots now ex s (i n : nat) : list nat :=
  List.filter (available now ex s) (seq i n).

Lemma elem_of_live_slots now ex s i n j :
  j ∈ live_slots now ex s i n <-> (i <= j < i + n)%nat /\ available now ex s j = true.
Proof. unfold live_slots. rewrite list_elem_of_In, filter_In, in_seq. done. Qed.

Lemma NoDup_live_slots now ex s i n : NoDup (live_slots now ex s i n).
Proof. unfold live_slots. apply NoDup_ListNoDup, List.NoDup_filter, NoDup_ListNoDup, NoDup_seq. Qed.

Lemma live_from_slots now ex i n s s0 :
  same_view now s0 s ->
  exists s', live_from now ex i n s = (live_slots now ex s0 i n, s') /\ same_view now s0 s'.
Proof.
  revert i s. induction n as [|n IH]; intros i s Hv; simpl; [by exists s|].
  destruct (unavailable_spec now ex i s) as (s1 & -> & Hv1).
  destruct (IH (S i) s1) as (s2 & -> & Hv2); [by etrans|].
  exists s2. split; [|done]. rewrite (same_view_available _ _ _ _ i Hv).
  unfold live_slots. simpl. by destruct (available now ex s0 i).
Qed.

(** ** Power of two *)

(** Draws of a random generator that are not all the same slot of [n]. *)
Definition fair_draws (n : nat) (draws : list nat) : Prop :=
  match draws with
  | [] => False
  | d :: ds => Exists (fun d' => d' mod n <> d mod n)%nat ds
  end.

Lemma draw_slot_some live d : live <> [] -> exists c, draw_slot live d = Some c /\ c ∈ live.
Proof.
  intros Hne. unfold draw_slot.
  assert (d mod length live < length live)%nat as [c Hc]%lookup_lt_is_Some_2.
  { apply Nat.mod_upper_bound. by destruct live. }
  exists c. split; [done|]. by eapply list_elem_of_lookup_2.
Qed.

Lemma second_draw_found ds live d a :
  NoDup live -> live <> [] -> draw_slot live d = Some a ->
  Exists (fun d' => d' mod length live <> d mod length live)%nat ds ->
  exists b, second_draw ds live a = Some b /\ b ∈ live.
Proof.
  intros Hnd Hl Ha Hex. induction Hex as [d' ds Hne|d' ds Hex IH]; simpl;
    destruct (draw_slot_some live d' Hl) as (b & Hb & Hin); rewrite Hb;
    destruct (Nat.eqb_spec b a) as [->|Hba]; [|by eauto|by apply IH|by eauto].
  destruct Hne. by eapply NoDup_lookup.
Qed.

Lemma power_of_two_available now draws fl ex s j :
  (j < length fl)%nat -> available now ex s j = true ->
  ((2 <= length (live_slots now ex s 0 (length fl)))%nat ->
   fair_draws (length (live_slots now ex s 0 (length fl))) draws) ->
  exists i s', power_of_two_pick now draws fl ex s = (Some i, s') /\
    (i < length fl)%nat /\ available now ex s i = true.
Proof.
  intros Hj Hav Hfair. unfold power_of_two_pick.
  destruct (live_from_slots now ex 0 (length fl) s s) as (s1 & -> & Hv1); [done|].
  destruct (Nat.ltb_spec (length (live_slots now ex s 0 (length fl))) 2) as [Hlt|Hge].
  - destruct (least_loaded_available now fl ex s1 j) as (i & s2 & -> & Hi & Ha & _); [done| |].
    { by rewrite (same_view_available _ _ _ _ j Hv1). }
    exists i, s2. split_and!; [done|done|]. by rewrite <- (same_view_available _ _ _ _ i Hv1).
  - specialize (Hfair Hge). destruct draws as [|d ds]; [done|]. simpl in Hfair.
    assert (Hne : live_slots now ex s 0 (length fl) <> []) by (intros Hn; rewrite Hn in Hge; simpl in Hge; lia).
    destruct (draw_slot_some _ d Hne) as (a & Ha & Hin). rewrite Ha.
    destruct (second_draw_found ds _ d a (NoDup_live_slots _ _ _ _ _) Hne Ha Hfair) as (b & -> & Hb).
    apply elem_of_live_slots in Hin as [Hin Haa]. apply elem_of_live_slots in Hb as [Hb Hbb].
    eexists _, s1. split; [done|]. case_goal; simpl in *; (split; [lia|done]).
Qed.

(** ** Rendezvous hashing is an argmax *)

Section hashed_facts.
Context (hash : string -> nat -> Z).

(** The winner among a list of slots: the greatest hash, the first on a tie. *)
Definition hash_better (key : string) (best : option (Z * nat)) (i : nat) : option (Z * nat) :=
  match best with
  | None => Some (hash key i, i)
  | Some (bh, bi) => if bh <? hash key i then Some (hash key i, i) else Some (bh, bi)
  end.

Lemma rendezvous_scan_fold now ex key i n best s s0 :
  same_view now s0 s ->
  exists s', rendezvous_scan hash now ex key i n best s
    = (foldl (hash_better key) best (live_slots now ex s0 i n), s') /\ same_view now s0 s'.
Proof.
  revert i best s. induction n as [|n IH]; intros i best s Hv; simpl; [by exists s|].
  destruct (unavailable_spec now ex i s) as (s1 & -> & Hv1).
  rewrite (same_view_available _ _ _ _ i Hv).
  assert (same_view now s0 s1) by (by etrans).
  unfold live_slots. simpl. destruct (available now ex s0 i); simpl; [|by apply IH].
  destruct (IH (S i) (hash_better key best i) s1) as (s2 & Hs2 & Hv2); [done|].
  exists s2. split; [|done]. exact Hs2.
Qed.

Definition hash_winner (key : string) (slots : list nat) (w : nat) : Prop :=
  exists k, slots !! k = Some w /\
    forall k' j, slots !! k' = Some j ->
      hash key j < hash key w \/ (hash key j = hash key w /\ (k <= k')%nat).

Lemma hash_better_spec key slots :
  match foldl (hash_better key) None slots with
  | None => slots = []
  | Some (h, w) => h = hash key w /\ hash_winner key slots w
  end.
Proof.
  induction slots as [|j slots IH] using rev_ind; [done|].
  rewrite foldl_app. simpl.
  assert (Hlook : forall k x, (slots ++ [j]) !! k = Some x <->
    ((k < length slots)%nat /\ slots !! k = Some x) \/ (k = length slots /\ j = x))
    by (intros; apply lookup_snoc_Some).
  destruct (foldl (hash_better key) None slots) as [[h w]|]; simpl.
  - destruct IH as [-> (k & Hk & Hmax)]. pose proof (lookup_lt_Some _ _ _ Hk).
    case_goal; to_prop; (split; [done|]).
    + exists (length slots). rewrite Hlook. split; [by right|].
      intros k' x [[Hk' Hx]|[-> <-]]%Hlook; [|right; lia].
      left. destruct (Hmax _ _ Hx) as [?|[? _]]; lia.
    + exists k. rewrite Hlook. split; [by left|].
      intros k' x [[Hk' Hx]|[-> <-]]%Hlook; [by eapply Hmax|]. lia.
  - subst. split; [done|]. exists 0%nat. split; [done|].
    intros k' x Hx. destruct k'; simplify_eq/=. right. lia.
Qed.

(** The pick of the hash depends only on the set of available slots. *)
Lemma rendezvous_pick_spec now key n ex s :
  exists s', rendezvous_pick hash now key n ex s
    = (snd <$> foldl (hash_better key) None (live_slots now ex s 0 n), s') /\ same_view now s s'.
Proof.
  unfold rendezvous_pick.
  destruct (rendezvous_scan_fold now ex key 0 n None s s) as (s' & -> & Hv); [done|]. eauto.
Qed.

Lemma live_slots_lookup_mono now ex s n k k' i j :
  live_slots now ex s 0 n !! k = Some i -> live_slots now ex s 0 n !! k' = Some j ->
  (k <= k')%nat <-> (i <= j)%nat.
Proof.
  assert (Hsorted : StronglySorted lt (live_slots now ex s 0 n)).
  { unfold live_slots. generalize 0%nat. induction n as [|n IH]; intros a; simpl; [constructor|].
    specialize (IH (S a)). destruct (available now ex s a); [|done]. constructor; [done|].
    apply List.Forall_forall. intros x. rewrite filter_In, in_seq. lia. }
  revert k k'. induction Hsorted as [|x l Hl IH Hx]; intros k k' Hk Hk'; [done|].
  rewrite Forall_lookup in Hx.
  destruct k, k'; simplify_eq/=; [lia| | |].
  - specialize (Hx _ _ Hk'). lia.
  - specialize (Hx _ _ Hk). lia.
  - rewrite <- (IH _ _ Hk Hk'). lia.
Qed.

Lemma rendezvous_argmax now key n ex s i :
  fst (rendezvous_pick hash now key n ex s) = Some i <->
  ((i < n)%nat /\ available now ex s i = true /\
   forall j, (j < n)%nat -> available now ex s j = true ->
     hash key j < hash key i \/ (hash key j = hash key i /\ (i <= j)%nat)).
Proof.
  destruct (rendezvous_pick_spec now key n ex s) as (s' & -> & _). simpl.
  pose proof (hash_better_spec key (live_slots now ex s 0 n)) as Hw.
  assert (Hin : forall j, (j < n)%nat /\ available now ex s j = true <->
    exists k, live_slots now ex s 0 n !! k = Some j).
  { intros j. rewrite <- list_elem_of_lookup, elem_of_live_slots. intuition lia. }
  destruct (foldl _ _ _) as [[h w]|]; simpl.
  - destruct Hw as [-> (k & Hk & Hmax)].
    assert (Hwin : forall j, (j < n)%nat /\ available now ex s j = true ->
      hash key j < hash key w \/ (hash key j = hash key w /\ (w <= j)%nat)).
    { intros j [k' Hk']%Hin. destruct (Hmax _ _ Hk') as [?|[? Hle]]; [by left|right].
      split; [done|]. by apply (proj1 (live_slots_lookup_mono _ _ _ _ _ _ _ _ Hk Hk')). }
    split.
    + intros [= ->]. destruct (proj2 (Hin i)) as [Hi Ha]; [eauto|]. split_and!; auto.
    + intros (Hi & Ha & Hmax'). f_equal.
      destruct (proj2 (Hin w)) as [Hw Haw]; [eauto|].
      pose proof (Hwin i (conj Hi Ha)). pose proof (Hmax' w Hw Haw). lia.
  - split; [done|]. intros (Hi & Ha & _). destruct (proj1 (Hin i)) as [k Hk]; [done|].
    by rewrite Hw in Hk.
Qed.

(** Rendezvous hashing moves a key only when its worker goes: if slots only become
    unavailable between two picks, the key keeps its worker while that is available,
    and otherwise goes to a slot that was available before; for every hash function.
    *)
Theorem rendezvous_minimal_disruption (now now' : Instant) (key : string) (n : nat)
    (ex ex' : list nat) (s s' : OutlierState) (i : nat) :
  fst (rendezvous_pick hash now key n ex s) = Some i ->
  (forall j, (j < n)%nat -> available now' ex' s' j = true -> available now ex s j = true) ->
  (available now' ex' s' i = true ->
   fst (rendezvous_pick hash now' key n ex' s') = Some i) /\
  (forall j, fst (rendezvous_pick hash now' key n ex' s') = Some j ->
   available now ex s j = true).
Proof.
  intros (Hi & Ha & Hmax)%rendezvous_argmax Hsub. split.
  - intros Ha'. apply rendezvous_argmax. split_and!; auto.
  - intros j (Hj & Hja & _)%rendezvous_argmax. auto.
Qed.

Lemma rendezvous_available now key n ex s j :
  (j < n)%nat -> available now ex s j = true ->
  exists i s', rendezvous_pick hash now key n ex s = (Some i, s') /\
    (i < n)%nat /\ available now ex s i = true.
Proof.
  intros Hj Ha. destruct (rendezvous_pick_spec now key n ex s) as (s' & Hr & _).
  pose proof (hash_better_spec key (live_slots now ex s 0 n)) as Hw.
  destruct (foldl _ _ _) as [[h w]|]; simpl in *.
  - exists w, s'. split; [done|]. destruct Hw as [_ (k & Hk & _)].
    apply list_elem_of_lookup_2, elem_of_live_slots in Hk as [? ?]. split; [lia|done].
  - exfalso. assert (j ∈ live_slots now ex s 0 n) as Hin.
    { apply elem_of_live_slots. split; [lia|done]. }
    rewrite Hw in Hin. by apply elem_of_nil in Hin.
Qed.
End hashed_facts.

(** ** Overload of the preferred worker *)

(** A load the scan of [min_other] sees. *)
Definition other_load now ex s w (fl : list Z) (i : nat) (l : Z) : Prop :=
  exists j, fl !! j = Some l /\ (i + j)%nat <> w /\ available now ex s (i + j) = true.

Lemma other_load_cons now ex s w x fl i l :
  other_load now ex s w (x :: fl) i l <->
  (l = x /\ i <> w /\ available now ex s i = true) \/ other_load now ex s w fl (S i) l.
Proof.
  unfold other_load. split.
  - intros ([|j] & Hj & Hne & Ha).
    + left. injection Hj as ->. by rewrite Nat.add_0_r in Hne, Ha.
    + right. exists j. by rewrite Nat.add_succ_r in Hne, Ha.
  - intros [(-> & Hne & Ha)|(j & Hj & Hne & Ha)].
    + exists 0%nat. by rewrite Nat.add_0_r.
    + exists (S j). by rewrite Nat.add_succ_r.
Qed.

Lemma min_other_spec now ex w fl i m s s0 :
  same_view now s0 s ->
  exists r s', min_other now ex w fl i m s = (r, s') /\ same_view now s0 s' /\
    r <= m /\ (r = m \/ other_load now ex s0 w fl i r) /\
    (forall l, other_load now ex s0 w fl i l -> r <= l).
Proof.
  revert i m s. induction fl as [|x fl IH]; intros i m s Hv; simpl.
  { exists m, s. split_and!; [done..|lia|by left|]. by intros l (j & Hj & _). }
  destruct (Nat.eqb_spec i w) as [->|Hne].
  { destruct (IH (S w) m s Hv) as (r & s' & -> & Hv' & Hle & Hor & Hmin).
    exists r, s'. setoid_rewrite other_load_cons. split_and!; [done..| |].
    - destruct Hor; auto.
    - intros l [(_ & ? & _)|Hl]; [done|auto]. }
  destruct (unavailable_spec now ex i s) as (s1 & -> & Hv1).
  rewrite (same_view_available _ _ _ _ i Hv).
  assert (Hv01 : same_view now s0 s1) by (by etrans).
  destruct (available now ex s0 i) eqn:Ha; simpl.
  - destruct (IH (S i) (if x <? m then x else m) s1 Hv01) as (r & s' & -> & Hv' & Hle & Hor & Hmin).
    exists r, s'. setoid_rewrite other_load_cons. split; [done|]. split; [done|].
    destruct (Z.ltb_spec x m); (split; [lia|]); split.
    + destruct Hor as [->|]; auto.
    + intros l [(-> & _)|Hl]; [lia|auto].
    + destruct Hor as [->|]; auto.
    + intros l [(-> & _)|Hl]; [lia|auto].
  - destruct (IH (S i) m s1 Hv01) as (r & s' & -> & Hv' & Hle & Hor & Hmin).
    exists r, s'. setoid_rewrite other_load_cons. split_and!; [done..| |].
    + destruct Hor; auto.
    + intros l [(_ & _ & Hf)|Hl]; [by rewrite Ha in Hf|auto].
Qed.

(** With the relative threshold off, affinity is abandoned exactly when some other
    available slot has a load more than the absolute threshold below the affinity
    worker's. *)
Theorem affinity_abandoned_iff_overloaded (now : Instant) (inflight : list Z) (exclude : list nat)
    (w : nat) (abs : Z) (s : OutlierState) :
  0 < abs -> Forall (fun l => 0 <= l < usize_max) inflight -> (w < length inflight)%nat ->
  fst (affinity_overloaded now inflight exclude w
         {| abs_threshold := abs; rel_threshold := float_zero |} s) = true <->
  exists j l lw, inflight !! j = Some l /\ inflight !! w = Some lw /\ j <> w /\
    available now exclude s j = true /\ l + abs < lw.
Proof.
  intros Habs Hfl [lw Hlw]%lookup_lt_is_Some_2. unfold affinity_overloaded.
  destruct (min_other_spec now exclude w inflight 0 usize_max s s)
    as (r & s' & -> & _ & Hle & Hor & Hmin); [done|].
  assert (Hw : 0 <= lw < usize_max) by (by eapply (Forall_lookup_1 _ _ _ _ Hfl)).
  rewrite Hlw. simpl. unfold saturating_add.
  destruct (Z.eqb_spec r usize_max) as [->|Hr]; simpl.
  - split; [done|]. intros (j & l & lw' & Hj & Hlw' & Hne & Ha & Hlt). exfalso.
    assert (other_load now exclude s w inflight 0 l) as Hl by (by exists j).
    specialize (Hmin l Hl). injection Hlw' as <-. lia.
  - destruct Hor as [|Hr_other]; [done|].
    rewrite (proj2 (Z.ltb_lt _ _) Habs). simpl.
    destruct (Z.ltb_spec (Z.min usize_max (r + abs)) lw); simpl.
    + split; [intros _|done]. destruct Hr_other as (j & Hj & Hne & Ha).
      exists j, r, lw. split_and!; try done. lia.
    + split; [done|]. intros (j & l & lw' & Hj & Hlw' & Hne & Ha & Hlt). exfalso.
      assert (other_load now exclude s w inflight 0 l) as Hl by (by exists j).
      specialize (Hmin l Hl). injection Hlw' as <-. lia.
Qed.

Lemma affinity_overloaded_view now fl ex w b s :
  same_view now s (snd (affinity_overloaded now fl ex w b s)).
Proof.
  unfold affinity_overloaded.
  destruct (min_other_spec now ex w fl 0 usize_max s s) as (r & s' & -> & Hv & _); [done|].
  repeat case_goal; done.
Qed.

(** ** No pick returns an unavailable slot while an available one exists *)

Section picks.
Context (hash : string -> nat -> Z).

Lemma live_slots_view now ex s s' n :
  same_view now s s' -> live_slots now ex s' 0 n = live_slots now ex s 0 n.
Proof.
  intros Hv. unfold live_slots. generalize 0%nat. induction n as [|n IH]; intros i; [done|].
  simpl. rewrite IH. by rewrite (same_view_available _ _ _ _ i Hv).
Qed.

Lemma pick_worker_available_gen (now : Instant) (draws : list nat) (inflight : list Z)
    (exclude : list nat) (affinity : option Affinity) (balance : BalanceConfig)
    (s : OutlierState) (j : nat) :
  (j < length inflight)%nat -> available now exclude s j = true ->
  ((2 <= length (live_slots now exclude s 0 (length inflight)))%nat ->
   fair_draws (length (live_slots now exclude s 0 (length inflight))) draws) ->
  exists i s', pick_worker hash now draws inflight exclude affinity balance s = (Some i, s') /\
    (i < length inflight)%nat /\ available now exclude s i = true.
Proof.
  intros Hj Ha Hfair. unfold pick_worker.
  destruct affinity as [a|].
  2:{ destruct (least_loaded_available now inflight exclude s j) as (i & s' & -> & Hi & Hav & _);
      [done..|]. eauto. }
  destruct (Nat.leb_spec (length inflight) 1) as [Hle|Hgt].
  { assert (j = 0%nat) as -> by lia. eauto. }
  assert (Hhash : forall s1, same_view now s s1 ->
    exists i s', (let '(r, s) := rendezvous_pick hash now (aff_seq a) (length inflight) exclude s1 in
      match r with
      | Some i => (Some i, s)
      | None => let '(i, s) := pick_worker_least_loaded now inflight exclude s in (Some i, s)
      end) = (Some i, s') /\ (i < length inflight)%nat /\ available now exclude s i = true).
  { intros s1 Hv.
    destruct (rendezvous_available hash now (aff_seq a) (length inflight) exclude s1 j)
      as (i & s' & -> & Hi & Hav); [done|by rewrite (same_view_available _ _ _ _ j Hv)|].
    exists i, s'. by rewrite <- (same_view_available _ _ _ _ i Hv). }
  destruct (aff_preferred a) as [w|]; [|by apply Hhash].
  destruct (Nat.ltb_spec w (length inflight)) as [Hw|Hw]; [|by apply Hhash].
  destruct (unavailable_spec now exclude w s) as (s1 & -> & Hv1).
  destruct (available now exclude s w) eqn:Haw; simpl; [|by apply Hhash].
  pose proof (affinity_overloaded_view now inflight exclude w balance s1) as Hv2.
  destruct (affinity_overloaded now inflight exclude w balance s1) as [over s2]. simpl in Hv2.
  destruct over; [|eauto].
  assert (Hv : same_view now s s2) by (by etrans).
  destruct (power_of_two_available now draws inflight exclude s2 j) as (i & s3 & -> & Hi & Hav);
    rewrite ?(live_slots_view _ _ _ _ _ Hv); try done.
  { by rewrite (same_view_available _ _ _ _ j Hv). }
  exists i, s3. by rewrite <- (same_view_available _ _ _ _ i Hv).
Qed.

(** C8. While some slot is available (in range, not ejected, not dead, not
    recycling, not excluded), [pick_worker] returns an available slot, with or
    without affinity, whatever the loads, the hash and the balance thresholds; the
    random draws need only distinguish two live slots when there are two. *)
Theorem pick_worker_available (now : Instant) (draws : list nat) (inflight : list Z)
    (exclude : list nat) (affinity : option Affinity) (balance : BalanceConfig)
    (s : OutlierState) (j : nat) :
  (j < length inflight)%nat -> available now exclude s j = true ->
  ((2 <= length (live_slots now exclude s 0 (length inflight)))%nat ->
   fair_draws (length (live_slots now exclude s 0 (length inflight))) draws) ->
  exists i s', pick_worker hash now draws inflight exclude affinity balance s = (Some i, s') /\
    (i < length inflight)%nat /\ available now exclude s i = true.
Proof. apply pick_worker_available_gen. Qed.
End picks.

(** ** Streaming picks *)

Section streaming.
Context `{MapIter} (hash : string -> nat -> Z).

Lemma skip_scan_spec now start n i k s s0 :
  same_view now s0 s -> (0 < n)%nat ->
  exists r s', skip_scan now start n i k s = (r, s') /\
    match r with
    | Some x => (x < n)%nat /\ usable_at now s0 x = true
    | None => forall d, (d < k)%nat -> usable_at now s0 ((start + (i + d)) mod n) = false
    end.
Proof.
  revert i s. induction k as [|k IH]; intros i s Hv Hn; simpl.
  { exists None, s. split; [done|]. lia. }
  destruct (unusable_spec now ((start + i) mod n) s) as (s1 & -> & Hv1).
  rewrite (same_view_usable _ _ _ _ Hv).
  destruct (usable_at now s0 ((start + i) mod n)) eqn:Hu; simpl.
  - exists (Some ((start + i) mod n)%nat), s1. split; [done|]. split; [|done].
    apply Nat.mod_upper_bound. lia.
  - destruct (IH (S i) s1) as (r & s' & -> & Hr); [by etrans|done|].
    exists r, s'. split; [done|]. destruct r; [done|].
    intros [|d] Hd; [by rewrite Nat.add_0_r|].
    specialize (Hr d). rewrite Nat.add_succ_r. apply Hr. lia.
Qed.

(** The rotation from any start reaches every slot. *)
Lemma rotation_reaches (n start j : nat) :
  (j < n)%nat -> exists d, (d < n)%nat /\ ((start mod n + (0 + d)) mod n)%nat = j.
Proof.
  intros Hj. assert (Hs : (start mod n < n)%nat) by (apply Nat.mod_upper_bound; lia).
  destruct (le_lt_dec (start mod n) j) as [Hle|Hlt].
  - exists (j - start mod n)%nat. split; [lia|].
    rewrite Nat.mod_small; lia.
  - exists (n + j - start mod n)%nat. split; [lia|].
    replace (start mod n + (0 + (n + j - start mod n)))%nat with (j + 1 * n)%nat by lia.
    rewrite Nat.Div0.mod_add. by apply Nat.mod_small.
Qed.

Lemma skip_ejected_usable now draw n s j :
  (j < n)%nat -> usable_at now s j = true ->
  exists w s', pick_worker_skip_ejected now draw n s = (w, s') /\ (w < n)%nat /\
    usable_at now s w = true.
Proof.
  intros Hj Hu. unfold pick_worker_skip_ejected.
  destruct (Nat.leb_spec n 1) as [Hle|Hgt].
  { assert (j = 0%nat) as -> by lia. eauto. }
  destruct (skip_scan_spec now (draw mod n) n 0 n s s) as (r & s' & -> & Hr); [done|lia|].
  destruct r as [x|]; [by exists x, s'|].
  destruct (rotation_reaches n draw j Hj) as (d & Hd & Hdj).
  specialize (Hr d Hd). rewrite Hdj in Hr. congruence.
Qed.

Lemma hinted_worker_usable now draw meta n o j :
  (j < n)%nat -> usable_at now o j = true ->
  exists w o', hinted_worker hash now draw meta n (Some o) = (w, o') /\ (w < n)%nat /\
    usable_at now o w = true.
Proof.
  intros Hj Hu. unfold hinted_worker.
  destruct (affinity_key (Some meta)) as [key|].
  - assert (Ha : available now [] o j = true) by (unfold available; by rewrite Hu).
    destruct (rendezvous_available hash now key n [] o j Hj Ha) as (w & o' & -> & Hw & Haw).
    exists w, (Some o'). unfold available in Haw. apply andb_prop in Haw as [? _]. done.
  - destruct (skip_ejected_usable now draw n o j Hj Hu) as (w & o' & -> & ? & ?). eauto.
Qed.

Lemma sticky_worker_view now seqid n o reg model version :
  exists o' reg' p, sticky_worker now seqid n (Some o) reg model version = (p, Some o', reg') /\
    same_view now o o' /\
    match p with Some w => (w < n)%nat /\ usable_at now o w = true | None => True end.
Proof.
  unfold sticky_worker. destruct seqid as [q|]; [|by exists o, reg, None].
  destruct (seq_lookup now now q model version reg) as [[w|] reg']; [|by exists o, reg', None].
  destruct (unusable_spec now w o) as (o' & -> & Hv). rewrite negb_involutive.
  exists o', reg', (if Nat.ltb w n && usable_at now o w then Some w else None).
  split; [done|]. split; [done|].
  destruct (Nat.ltb_spec w n), (usable_at now o w) eqn:?; done.
Qed.

(** While a usable slot exists, [pick_streaming_worker] returns a usable slot in
    range, and the pinned one when there is a pin; it fails only on a pin, reporting
    a slot out of range, ejected or dead as invalid and a recycling one as
    recycling. *)
Theorem streaming_pick_usable (now : Instant) (draw : nat) (meta : RequestMeta) (n : nat)
    (o : OutlierState) (reg : SequenceRegistry) (model version : string) (j : nat) :
  (j < n)%nat -> usable_at now o j = true -> all_dead o = false ->
  match pick_streaming_worker hash now draw meta n (Some o) reg model version with
  | (Ok w, _, _) => (w < n)%nat /\ usable_at now o w = true /\
      (forall p, worker_pin meta = Some p -> w = Z.to_nat p)
  | (Err e, _, _) => exists p, worker_pin meta = Some p /\
      match e with
      | InvalidPin p' => p' = p /\ (Z.of_nat n <= p \/
          ejected_now now o (Z.to_nat p) = true \/ is_dead o (Z.to_nat p) = true)
      | WorkerRecycling p' => p' = p /\ is_recycling o (Z.to_nat p) = true
      | NoLiveWorkers => False
      end
  end.
Proof.
  intros Hj Hu Hdead. unfold pick_streaming_worker. rewrite Hdead.
  destruct (worker_pin meta) as [p|] eqn:Hpin.
  - pose proof (same_view_probe now (Z.to_nat p) o) as Hv.
    destruct (is_ejected now (Z.to_nat p) o) as [e o'] eqn:He. simpl in Hv.
    destruct (Hv (Z.to_nat p)) as (_ & Hd & Hr & _). rewrite Hd, Hr.
    assert (Hej : ejected_now now o (Z.to_nat p) = e) by (unfold ejected_now; by rewrite He).
    destruct (Z.leb_spec (Z.of_nat n) p) as [Hge|Hlt]; [exists p; auto|].
    destruct e; simpl; [exists p; auto|].
    destruct (is_dead o (Z.to_nat p)) eqn:Hdp; simpl; [exists p; auto|].
    destruct (is_recycling o (Z.to_nat p)) eqn:Hrp; [exists p; auto|].
    assert (0 <= p).
    { unfold worker_pin in Hpin. destruct (meta_headers meta !! _); simpl in Hpin; [|done].
      apply parse_uint_range in Hpin; unfold usize_max in *; lia. }
    split; [lia|]. split; [|congruence]. unfold usable_at. by rewrite Hej, Hdp, Hrp.
  - destruct (sticky_worker_view now (normalize_sequence_id (meta_sequence_id meta)) n o reg
      model version) as (o' & reg' & p & -> & Hv & Hp).
    destruct p as [w|].
    + destruct Hp. by split_and!.
    + destruct (hinted_worker_usable now draw meta n o' j) as (w & o'' & -> & Hw & Huw);
        [done|by rewrite (same_view_usable _ _ _ _ Hv)|].
      rewrite (same_view_usable _ _ _ _ Hv) in Huw. by split_and!.
Qed.
End streaming.

(** ** A pick always returns a slot *)

(** Draws that tell apart any number of slots. *)
Definition fair (draws : list nat) : Prop := forall n, (2 <= n)%nat -> fair_draws n draws.

Lemma best_tier_range now ex s t fl k l :
  best_tier now ex s t fl 0 None = Some (k, l) -> (k < length fl)%nat.
Proof.
  intros Hb. pose proof (best_tier_spec now ex s t fl) as Hs. rewrite Hb in Hs.
  destruct Hs as [(Hk & _) _]. by eapply lookup_lt_Some.
Qed.

Lemma least_loaded_range now fl ex s :
  (0 < length fl)%nat ->
  exists i s', pick_worker_least_loaded now fl ex s = (i, s') /\ (i < length fl)%nat /\
    same_view now s s'.
Proof.
  intros Hlen. unfold pick_worker_least_loaded.
  destruct (Nat.eqb_spec (length fl) 1); [by exists 0%nat, s|].
  destruct (least_loaded_scan_best now ex fl 0 None None None s s) as (s' & -> & Hv); [done|].
  eexists _, s'. split; [done|]. split; [|done].
  destruct (best_tier now ex s 0 fl 0 None) as [[? ?]|] eqn:?; [by eapply best_tier_range|].
  destruct (best_tier now ex s 1 fl 0 None) as [[? ?]|] eqn:?; [by eapply best_tier_range|].
  destruct (best_tier now ex s 2 fl 0 None) as [[? ?]|] eqn:?; [by eapply best_tier_range|done].
Qed.

Section totality.
Context (hash : string -> nat -> Z).

Lemma by_hash_total now fl ex key s :
  (0 < length fl)%nat ->
  exists i s', (let '(r, s) := rendezvous_pick hash now key (length fl) ex s in
    match r with
    | Some i => (Some i, s)
    | None => let '(i, s) := pick_worker_least_loaded now fl ex s in (Some i, s)
    end) = (Some i, s') /\ (i < length fl)%nat /\ same_view now s s'.
Proof.
  intros Hlen. destruct (rendezvous_pick_spec hash now key (length fl) ex s) as (s1 & Hr & Hv).
  destruct (rendezvous_pick hash now key (length fl) ex s) as [r s2] eqn:Hp.
  injection Hr as Hr ->. destruct r as [i|].
  - exists i, s1. split; [done|]. split; [|done].
    apply (rendezvous_argmax hash now key (length fl) ex s i). by rewrite Hp.
  - destruct (least_loaded_range now fl ex s1 Hlen) as (i & s' & -> & Hi & Hv').
    exists i, s'. split_and!; [done|done|]. by etrans.
Qed.

Lemma power_of_two_total now draws fl ex s :
  (0 < length fl)%nat -> fair draws ->
  exists i s', power_of_two_pick now draws fl ex s = (Some i, s') /\ (i < length fl)%nat /\
    same_view now s s'.
Proof.
  intros Hlen Hfair. unfold power_of_two_pick.
  destruct (live_from_slots now ex 0 (length fl) s s) as (s1 & -> & Hv1); [done|].
  destruct (Nat.ltb_spec (length (live_slots now ex s 0 (length fl))) 2) as [Hlt|Hge].
  - destruct (least_loaded_range now fl ex s1 Hlen) as (i & s2 & -> & Hi & Hv2).
    exists i, s2. split_and!; [done|done|]. by etrans.
  - specialize (Hfair _ Hge). destruct draws as [|d ds]; [done|]. simpl in Hfair.
    assert (Hne : live_slots now ex s 0 (length fl) <> [])
      by (intros Hn; rewrite Hn in Hge; simpl in Hge; lia).
    destruct (draw_slot_some _ d Hne) as (a & Ha & Hin). rewrite Ha.
    destruct (second_draw_found ds _ d a (NoDup_live_slots _ _ _ _ _) Hne Ha Hfair)
      as (b & -> & Hb).
    apply elem_of_live_slots in Hin as [Hin _]. apply elem_of_live_slots in Hb as [Hb _].
    eexists _, s1. split; [done|]. split; [|done]. case_goal; lia.
Qed.

Lemma pick_worker_total now draws fl ex aff bal s :
  (0 < length fl)%nat -> fair draws ->
  exists i s', pick_worker hash now draws fl ex aff bal s = (Some i, s') /\
    (i < length fl)%nat /\ same_view now s s'.
Proof.
  intros Hlen Hfair. unfold pick_worker. destruct aff as [a|].
  2:{ destruct (least_loaded_range now fl ex s Hlen) as (i & s' & -> & ? & ?). by exists i, s'. }
  destruct (Nat.leb_spec (length fl) 1); [by exists 0%nat, s|].
  destruct (aff_preferred a) as [w|]; [|by apply by_hash_total].
  destruct (Nat.ltb_spec w (length fl)); [|by apply by_hash_total].
  destruct (unavailable_spec now ex w s) as (s1 & -> & Hv1).
  destruct (negb (available now ex s w)).
  - destruct (by_hash_total now fl ex (aff_seq a) s1 Hlen) as (i & s' & -> & ? & ?).
    exists i, s'. split_and!; [done|done|]. by etrans.
  - pose proof (affinity_overloaded_view now fl ex w bal s1) as Hv2.
    destruct (affinity_overloaded now fl ex w bal s1) as [over s2]. simpl in Hv2.
    assert (same_view now s s2) by (by etrans). destruct over; [|by exists w, s2].
    destruct (power_of_two_total now draws fl ex s2 Hlen Hfair) as (i & s' & -> & ? & ?).
    exists i, s'. split_and!; [done|done|]. by etrans.
Qed.
End totality.

(** ** The theorems at concrete inputs *)

(** Three fresh workers, the first one dead. *)
Definition pool3 : OutlierState := mark_dead 0 (with_config 3 EjectionConfig_default).

(** A hash to evaluate the picks with. *)
Definition toy_hash (key : string) (i : nat) : Z :=
  (Z.of_nat (String.length key) * 7 + Z.of_nat i * 5) mod 11.

Lemma least_loaded_optimal_witness :
  let i := fst (pick_worker_least_loaded 0 [0; 4; 3] [] pool3) in
  (i < 3)%nat /\ is_dead pool3 i = false /\
  forall j, (j < 3)%nat -> is_dead pool3 j = false -> preferred_to 0 [] pool3 [0; 4; 3] i j.
Proof. apply (least_loaded_optimal 0 [0; 4; 3] [] pool3 1); [simpl; lia|reflexivity]. Defined.

Lemma rendezvous_minimal_disruption_witness :
  let s := with_config 3 EjectionConfig_default in
  fst (rendezvous_pick toy_hash 0 "key" 3 [] s) = Some 0%nat /\
  (available 0 [2%nat] s 0 = true -> fst (rendezvous_pick toy_hash 0 "key" 3 [2%nat] s) = Some 0%nat).
Proof.
  intros s. split; [reflexivity|].
  apply (rendezvous_minimal_disruption toy_hash 0 0 "key" 3 [] [2%nat] s s 0); [reflexivity|].
  intros j _. unfold available. by intros [-> _]%andb_prop.
Defined.

Lemma affinity_abandoned_witness :
  fst (affinity_overloaded 0 [0; 4; 1] [] 1
         {| abs_threshold := 2; rel_threshold := float_zero |} pool3) = true <->
  exists j l lw, [0; 4; 1] !! j = Some l /\ [0; 4; 1] !! 1%nat = Some lw /\ j <> 1%nat /\
    available 0 [] pool3 j = true /\ l + 2 < lw.
Proof.
  apply (affinity_abandoned_iff_overloaded 0 [0; 4; 1] [] 1 2 pool3); [lia| |simpl; lia].
  repeat constructor; by vm_compute.
Defined.

Lemma pick_worker_available_witness :
  exists i s', pick_worker toy_hash 0 [0%nat; 1%nat] [0; 9; 1] []
      (Some {| aff_seq := "key"; aff_preferred := Some 1%nat |}) BalanceConfig_default pool3
    = (Some i, s') /\ (i < 3)%nat /\ available 0 [] pool3 i = true.
Proof.
  apply (pick_worker_available toy_hash 0 [0%nat; 1%nat] [0; 9; 1] [] _ BalanceConfig_default pool3 2);
    [simpl; lia|reflexivity|]. intros _. vm_compute. left. discriminate.
Defined.

Lemma streaming_pick_witness :
  let meta := {| meta_sequence_id := None; meta_headers := {[ "x-lite-worker-id" := "0" ]} |} in
  match pick_streaming_worker toy_hash 0 0 meta 3 (Some pool3) (seq_new 10 8) "m" "1" with
  | (Ok w, _, _) => (w < 3)%nat /\ usable_at 0 pool3 w = true /\
      (forall p, worker_pin meta = Some p -> w = Z.to_nat p)
  | (Err e, _, _) => exists p, worker_pin meta = Some p /\
      match e with
      | InvalidPin p' => p' = p /\ (Z.of_nat 3 <= p \/
          ejected_now 0 pool3 (Z.to_nat p) = true \/ is_dead pool3 (Z.to_nat p) = true)
      | WorkerRecycling p' => p' = p /\ is_recycling pool3 (Z.to_nat p) = true
      | NoLiveWorkers => False
      end
  end.
Proof.
  intros meta. apply (streaming_pick_usable toy_hash 0 0 meta 3 pool3 (seq_new 10 8) "m" "1" 1);
    [lia|reflexivity|reflexivity].
Defined.
