(* ===== verification/Dispatch.v ===== *)
(** * Dispatch of a batch to a worker, with retries and the recycle budget

    Models [do_send_batch], [send_batch_with_retry], [fail_batch_items],
    [batch_item_to_single_response], [check_worker_budget] and the stream
    concurrency cap of [src/src/inference_queue.rs].

    Shared state (the outlier state, the sequence registry, the per-worker
    in-flight counters and the budgets) is passed along as [Shared].  What one
    attempt gets from outside is an [Attempt]: its clock readings, random draws
    and batch uid, the worker's reply, and what the other tasks do to the shared
    state while this one awaits the reply.  Effects on the outside (requests
    sent, responses delivered to a caller's channel, metrics, a spawned recycle)
    are the [event]s an operation returns, in order. *)

From S2P Require Import Prelude Text Outlier Sequence Float Pick.
Open Scope Z_scope.

(** ** Wire messages ([src/src/proto/liteserver.proto]) *)

Abbreviation Bytes := string (only parsing).

Record Status := { st_code : string; st_message : string }.

Record Metrics := {
  prefill_ms : spec_float;
  decode_ms : spec_float;
  tokens_generated : Z;
}.

Record SingleResponse := {
  sr_data : Bytes;
  sr_status : option Status;
  sr_headers : gmap string string;
  sr_status_code : Z;
  sr_media_type : string;
}.

Record BatchItemResponse := {
  bi_uid : string;
  bi_data : Bytes;
  bi_status : option Status;
  bi_status_code : Z;
  bi_media_type : string;
  bi_headers : gmap string string;
}.

Inductive ResponsePayload :=
  | RSingle (r : SingleResponse)
  | RBatch (items : list BatchItemResponse)
  | RCbCompleted
  | RStream.

Record Response := {
  rs_uid : string;
  rs_payload : option ResponsePayload;
  rs_metrics : option Metrics;
}.

Inductive RequestPayload :=
  | QSingle (data : Bytes)
  | QBatch (items : list (string * Bytes)).

Record Request := {
  rq_uid : string;
  rq_meta : option RequestMeta;
  rq_payload : RequestPayload;
}.

Definition SingleResponse_default : SingleResponse :=
  {| sr_data := EmptyString; sr_status := None; sr_headers := ∅;
     sr_status_code := 0; sr_media_type := EmptyString |}.

(** An error of the transport to the worker. *)
Inductive SendError :=
  | InferenceTimeout
  | SendFailed (msg : string).

(** ** Items and batches *)

(** [qi_chan] names the item's one-shot response channel. *)
Record QueueItem := {
  qi_chan : nat;
  qi_uid : string;
  qi_data : Bytes;
  qi_meta : option RequestMeta;
  qi_enqueued_at : Instant;
  qi_is_warmup : bool;
}.

Definition direct_pin (it : QueueItem) : option nat :=
  Z.to_nat <$> ((qi_meta it ≫= fun m => meta_headers m !! "x-lite-worker-id")
                ≫= parse_uint (2 ^ 32 - 1)).

Definition batch_direct_pin (batch : list QueueItem) : option nat :=
  match omap direct_pin batch with
  | [] => None
  | first :: pins => if forallb (Nat.eqb first) pins then Some first else None
  end.

Record BatchError := {
  be_worker_idx : nat;
  be_code : string;
  be_message : string;
  be_single : option (SingleResponse * option Metrics);
}.

Inductive event :=
  | EvSend (w : nat) (r : Request)
  | EvReply (chan : nat) (r : Response)
  | EvBatchSize (n : nat)
  | EvWorkerInference (w n : nat)
  | EvInferenceDuration
  | EvSaturation (z : Z)
  | EvEjection
  | EvRetry
  | EvQueueWait (chan : nat)
  | EvDepthReleased (chan : nat)
  | EvRecycle (w : nat).

Definition batch_item_to_single_response (uid : string) (resp_item : option BatchItemResponse)
    (metrics : option Metrics) : Response :=
  match resp_item with
  | Some it =>
      {| rs_uid := uid;
         rs_payload := Some (RSingle {| sr_data := bi_data it; sr_headers := bi_headers it;
                                        sr_status := bi_status it;
                                        sr_status_code := bi_status_code it;
                                        sr_media_type := bi_media_type it |});
         rs_metrics := metrics |}
  | None =>
      {| rs_uid := uid;
         rs_payload := Some (RSingle
           {| sr_data := EmptyString; sr_headers := ∅; sr_status_code := 0;
              sr_media_type := EmptyString;
              sr_status := Some {| st_code := "Error";
                                   st_message := "missing in batch response" |} |});
         rs_metrics := None |}
  end.

(** The response of one item of a failed batch. *)
Definition failure_response (err : BatchError) (it : QueueItem) : Response :=
  let '(single, metrics) :=
    match be_single err with
    | Some (s, m) => (s, m)
    | None =>
        ({| sr_data := EmptyString; sr_headers := ∅; sr_status_code := 0;
            sr_media_type := EmptyString;
            sr_status := Some {| st_code := be_code err; st_message := be_message err |} |}, None)
    end in
  {| rs_uid := qi_uid it; rs_payload := Some (RSingle single); rs_metrics := metrics |}.

(** Answer and drain every remaining item. *)
Definition fail_batch_items (batch : list QueueItem) (err : BatchError) : list event :=
  map (fun it => EvReply (qi_chan it) (failure_response err it)) batch.

(** ** Shared state *)

Record WorkerBudget := {
  wb_count : Z;
  wb_threshold : Z;
  wb_waiting_logged : bool;
}.

Record Shared := {
  sh_outlier : OutlierState;
  sh_registry : SequenceRegistry;
  sh_inflight : list Z;
  sh_budgets : list WorkerBudget;
}.

Definition set_outlier (o : OutlierState) (sh : Shared) : Shared :=
  {| sh_outlier := o; sh_registry := sh_registry sh; sh_inflight := sh_inflight sh;
     sh_budgets := sh_budgets sh |}.

Definition set_registry (r : SequenceRegistry) (sh : Shared) : Shared :=
  {| sh_outlier := sh_outlier sh; sh_registry := r; sh_inflight := sh_inflight sh;
     sh_budgets := sh_budgets sh |}.

Definition set_inflight (l : list Z) (sh : Shared) : Shared :=
  {| sh_outlier := sh_outlier sh; sh_registry := sh_registry sh; sh_inflight := l;
     sh_budgets := sh_budgets sh |}.

Definition set_budgets (b : list WorkerBudget) (sh : Shared) : Shared :=
  {| sh_outlier := sh_outlier sh; sh_registry := sh_registry sh; sh_inflight := sh_inflight sh;
     sh_budgets := b |}.

Record BatchDispatch := {
  bd_clients : nat;       (** how many worker connections *)
  bd_model : string;
  bd_version : string;
  bd_respawn : bool;      (** a respawn channel is wired *)
  bd_balance : BalanceConfig;
}.

Record Attempt := {
  at_now : Instant;
  at_draws : list nat;
  at_batch_uid : string;
  at_interfere : Shared -> Shared;
  at_reply : nat -> Request -> result SendError Response;
  at_done : Instant;
  at_busy : nat -> bool;
}.

(** [update_worker_saturation]: the gauge of the busiest worker. *)
Definition update_worker_saturation (sh : Shared) : event :=
  EvSaturation (foldr Z.max 0 (sh_inflight sh)).

Section dispatch.
Context `{MapIter} (hash : string -> nat -> Z).

(** ** One attempt *)

(** The worker of an attempt: a valid pin, else the picker's choice. *)
Definition select_worker (d : BatchDispatch) (a : Attempt) (batch : list QueueItem)
    (exclude : list nat) (sh : Shared) : option nat * Shared :=
  let pick sh :=
    let '(affinity, reg) :=
      batch_affinity (at_now a) (map qi_meta batch) (sh_registry sh) (bd_model d) (bd_version d) in
    let '(w, o) :=
      pick_worker hash (at_now a) (at_draws a) (sh_inflight sh) exclude affinity (bd_balance d)
        (sh_outlier sh) in
    (w, set_outlier o (set_registry reg sh)) in
  match batch_direct_pin batch with
  | Some w =>
      if Nat.ltb w (length (sh_inflight sh)) then
        let '(skip, o) := unavailable (at_now a) exclude w (sh_outlier sh) in
        if skip then pick (set_outlier o sh) else (Some w, set_outlier o sh)
      else pick sh
  | None => pick sh
  end.

(** Remember the worker for every sequenced item. *)
Definition record_sequences (now : Instant) (d : BatchDispatch) (w : nat)
    (batch : list QueueItem) (reg : SequenceRegistry) : SequenceRegistry :=
  foldl (fun reg it =>
    match normalize_sequence_id (qi_meta it ≫= meta_sequence_id) with
    | Some seq => seq_record now now seq (bd_model d) (bd_version d) w reg
    | None => reg
    end) reg batch.

Definition build_request (batch_uid : string) (batch : list QueueItem) : Request :=
  match batch with
  | [it] =>
      {| rq_uid := qi_uid it; rq_meta := qi_meta it; rq_payload := QSingle (qi_data it) |}
  | _ =>
      {| rq_uid := ("batch-" +:+ batch_uid)%string;
         rq_meta := head batch ≫= qi_meta;
         rq_payload := QBatch (map (fun it => (qi_uid it, qi_data it)) batch) |}
  end.

(** [status.code == "Error"]. *)
Definition is_error_status (s : option Status) : bool :=
  match s with Some s => bool_decide (st_code s = "Error") | None => false end.

(** The last item of a batch response with this uid ([collect] into a map). *)
Definition resp_lookup (items : list BatchItemResponse) (uid : string) : option BatchItemResponse :=
  foldl (fun found it => if bool_decide (bi_uid it = uid) then Some it else found) None items.

Definition item_failed (items : list BatchItemResponse) (it : QueueItem) : bool :=
  match resp_lookup items (qi_uid it) with
  | None => true
  | Some r => is_error_status (bi_status r)
  end.

(** The attempt's in-flight slot given back. *)
Definition release_inflight (w : nat) (sh : Shared) : Shared :=
  set_inflight (alter (fun c => fetch_sub c 1) w (sh_inflight sh)) sh.

Definition claim_inflight (w : nat) (sh : Shared) : Shared :=
  set_inflight (alter (fun c => fetch_add c 1) w (sh_inflight sh)) sh.

(** [record_error] and its ejection counter. *)
Definition score_error (a : Attempt) (w : nat) (sh : Shared) : Shared * list event :=
  let '(ejected, o) := record_error (at_done a) (at_busy a) w (sh_outlier sh) in
  (set_outlier o sh, if ejected then [EvEjection] else []).

Definition score_success (w : nat) (sh : Shared) : Shared :=
  set_outlier (record_success w (sh_outlier sh)) sh.

(** [batch.pop()] and the response to the popped item. *)
Definition answer_last (batch : list QueueItem) (s : SingleResponse) (m : option Metrics)
    : list QueueItem * list event :=
  match last batch with
  | None => (batch, [])
  | Some it =>
      (take (length batch - 1) batch,
       [EvReply (qi_chan it)
          {| rs_uid := qi_uid it; rs_payload := Some (RSingle s); rs_metrics := m |}])
  end.

Abbreviation Outcome := (result BatchError nat * list QueueItem * Shared * list event)%type
  (only parsing).

(** The worker's reply to the batch it was sent. *)
Definition finish_send (a : Attempt) (w : nat) (batch : list QueueItem)
    (reply : result SendError Response) (sh : Shared) : Outcome :=
  match reply with
  | Ok resp =>
      match rs_payload resp with
      | Some (RBatch items) =>
          let replies := map (fun it => EvReply (qi_chan it)
            (batch_item_to_single_response (qi_uid it) (resp_lookup items (qi_uid it))
               (rs_metrics resp))) batch in
          let all_ok := forallb (fun it => negb (item_failed items it)) batch in
          let sh := release_inflight w sh in
          let replies := replies ++ [update_worker_saturation sh] in
          if all_ok then (Ok w, [], score_success w sh, replies)
          else
            let '(sh, ev) := score_error a w sh in
            (Err {| be_worker_idx := w; be_code := "Error";
                    be_message := "one or more batch items failed"; be_single := None |},
             [], sh, replies ++ ev)
      | Some (RSingle single) =>
          let is_error := is_error_status (sr_status single) in
          if is_error && (400 <=? sr_status_code single) && (sr_status_code single <? 500) then
            let '(batch, ev) := answer_last batch single (rs_metrics resp) in
            let sh := release_inflight w sh in
            (Err {| be_worker_idx := w; be_code := "Error";
                    be_message := "request-level error"; be_single := None |},
             batch, sh, ev ++ [update_worker_saturation sh])
          else if is_error then
            let st := default {| st_code := ""; st_message := "" |} (sr_status single) in
            let sh := release_inflight w sh in
            let sat := update_worker_saturation sh in
            let '(sh, ev) := score_error a w sh in
            (Err {| be_worker_idx := w; be_code := st_code st; be_message := st_message st;
                    be_single := Some (single, rs_metrics resp) |}, batch, sh, sat :: ev)
          else
            let '(batch, ev) := answer_last batch single (rs_metrics resp) in
            let sh := release_inflight w sh in
            (Ok w, batch, score_success w sh, ev ++ [update_worker_saturation sh])
      | _ =>
          let sh := release_inflight w sh in
          let sat := update_worker_saturation sh in
          let '(sh, ev) := score_error a w sh in
          (Err {| be_worker_idx := w; be_code := "Error";
                  be_message := "unexpected response type"; be_single := None |},
           batch, sh, sat :: ev)
      end
  | Err e =>
      let '(code, message) :=
        match e with
        | InferenceTimeout => ("Timeout", "request timeout")
        | SendFailed msg => ("Error", msg)
        end in
      let sh := release_inflight w sh in
      let sat := update_worker_saturation sh in
      let '(sh, ev) := score_error a w sh in
      (Err {| be_worker_idx := w; be_code := code; be_message := message; be_single := None |},
       batch, sh, sat :: ev)
  end.

(** The structured 503 of a batch no worker can serve. *)
Definition unavailable_error (message : string) : BatchError :=
  {| be_worker_idx := 0; be_code := "Error"; be_message := message;
     be_single := Some
       ({| sr_data := EmptyString; sr_headers := ∅; sr_status_code := 503;
           sr_media_type := EmptyString;
           sr_status := Some {| st_code := "Error"; st_message := "503" |} |}, None) |}.

(** [None] only while the power-of-two loop has not drawn its second worker. *)
Definition do_send_batch (d : BatchDispatch) (a : Attempt) (batch : list QueueItem)
    (exclude : list nat) (sh : Shared) : option Outcome :=
  match batch with
  | [] => Some (Ok 0%nat, [], sh, [])
  | _ :: _ =>
      if bool_decide (sh_inflight sh = []) then
        Some (Err (unavailable_error "no workers available"), batch, sh, [])
      else if all_dead (sh_outlier sh) then
        Some (Err (unavailable_error "all workers have exited"), batch, sh, [])
      else
        let batch_size := length batch in
        let all_warmup := forallb qi_is_warmup batch in
        let '(picked, sh) := select_worker d a batch exclude sh in
        match picked with
        | None => None
        | Some w =>
            let sh := claim_inflight w sh in
            let sat := update_worker_saturation sh in
            let sh := set_registry (record_sequences (at_now a) d w batch (sh_registry sh)) sh in
            let request := build_request (at_batch_uid a) batch in
            let begin_ev :=
              sat :: (if all_warmup then []
                      else [EvBatchSize batch_size; EvWorkerInference w batch_size])
                  ++ [EvSend w request]
                  ++ (if all_warmup then [] else [EvInferenceDuration]) in
            let sh := at_interfere a sh in
            let '(r, batch, sh, ev) := finish_send a w batch (at_reply a w request) sh in
            Some (r, batch, sh, begin_ev ++ ev)
        end
  end.

(** ** The recycle budget *)

Definition set_count (c : Z) (b : WorkerBudget) : WorkerBudget :=
  {| wb_count := c; wb_threshold := wb_threshold b; wb_waiting_logged := wb_waiting_logged b |}.

Definition set_logged (l : bool) (b : WorkerBudget) : WorkerBudget :=
  {| wb_count := wb_count b; wb_threshold := wb_threshold b; wb_waiting_logged := l |}.

Definition check_worker_budget (d : BatchDispatch) (now : Instant) (w : nat) (batch_size : nat)
    (sh : Shared) : Shared * list event :=
  match sh_budgets sh !! w with
  | None => (sh, [])
  | Some budget =>
      if wb_threshold budget =? 0 then (sh, [])
      else
        let count := fetch_add (wb_count budget) (Z.of_nat batch_size) in
        let sh := set_budgets (<[w := set_count count budget]> (sh_budgets sh)) sh in
        if count <? wb_threshold budget then (sh, [])
        else if negb (bd_respawn d) then (sh, [])
        else
          let '(won, o) := claim_recycle w (sh_outlier sh) in
          let sh := set_outlier o sh in
          if won then
            (set_budgets (<[w := set_logged false (set_count 0 budget)]> (sh_budgets sh)) sh,
             [EvRecycle w])
          else if is_recycling o w then (sh, [])
          else
            let '(ejected, o) := is_ejected now w o in
            let sh := set_outlier o sh in
            if negb ejected && negb (is_dead o w) && recycle_ticket_taken o then
              (set_budgets (<[w := set_logged true (set_count count budget)]> (sh_budgets sh)) sh, [])
            else (sh, [])
  end.

(** ** Retries *)

(** The loop [for attempt in 0..max_retries] from attempt [k] on, [n] left;
    [excluded] holds the workers that failed so far. *)
Fixpoint retry_loop (d : BatchDispatch) (attempts : nat -> Attempt) (n k : nat)
    (all_warmup : bool) (batch_size : nat) (batch : list QueueItem) (excluded : list nat)
    (last_err : option BatchError) (sh : Shared) : option (Shared * list event) :=
  match n with
  | O =>
      Some (sh, match last_err with Some e => fail_batch_items batch e | None => [] end)
  | S n =>
      let retry_ev := if Nat.ltb 0 k && negb all_warmup then [EvRetry] else [] in
      match do_send_batch d (attempts k) batch excluded sh with
      | None => None
      | Some (Ok w, _, sh, ev) =>
          let '(sh, bev) :=
            if all_warmup then (sh, [])
            else check_worker_budget d (at_done (attempts k)) w batch_size sh in
          Some (sh, retry_ev ++ ev ++ bev)
      | Some (Err e, batch, sh, ev) =>
          if bool_decide (batch = []) then Some (sh, retry_ev ++ ev)
          else
            match retry_loop d attempts n (S k) all_warmup batch_size batch
                    (excluded ++ [be_worker_idx e]) (Some e) sh with
            | None => None
            | Some (sh, rest) => Some (sh, retry_ev ++ ev ++ rest)
            end
      end
  end.

(** The fast path: a single worker, or retries disabled. *)
Definition send_once (d : BatchDispatch) (a : Attempt) (all_warmup : bool)
    (batch : list QueueItem) (sh : Shared) : option (Shared * list event) :=
  match do_send_batch d a batch [] sh with
  | None => None
  | Some (Ok w, _, sh, ev) =>
      let '(sh, bev) :=
        if all_warmup then (sh, [])
        else check_worker_budget d (at_done a) w (length batch) sh in
      Some (sh, ev ++ bev)
  | Some (Err e, batch, sh, ev) => Some (sh, ev ++ fail_batch_items batch e)
  end.

Definition send_batch_with_retry (d : BatchDispatch) (attempts : nat -> Attempt)
    (max_retries : nat) (batch : list QueueItem) (sh : Shared) : option (Shared * list event) :=
  match batch with
  | [] => Some (sh, [])
  | _ :: _ =>
      let all_warmup := forallb qi_is_warmup batch in
      let start_ev :=
        map (fun it => EvDepthReleased (qi_chan it)) batch
        ++ (if all_warmup then [] else map (fun it => EvQueueWait (qi_chan it)) batch) in
      match (if Nat.leb (bd_clients d) 1 || Nat.eqb max_retries 0
             then send_once d (attempts 0%nat) all_warmup batch sh
             else retry_loop d attempts max_retries 0 all_warmup (length batch) batch [] None sh)
      with
      | None => None
      | Some (sh, ev) => Some (sh, start_ev ++ ev)
      end
  end.
End dispatch.

(** ** The stream concurrency cap *)

Record StreamConcurrency := {
  sc_limit : Z;
  sc_in_use : Z;
}.

Definition stream_concurrency_new (limit : Z) : StreamConcurrency :=
  {| sc_limit := limit; sc_in_use := 0 |}.

(** [true] when the caller gets a permit. *)
Definition try_acquire (c : StreamConcurrency) : bool * StreamConcurrency :=
  if 0 <? sc_limit c then
    let prev := sc_in_use c in
    let added := {| sc_limit := sc_limit c; sc_in_use := fetch_add prev 1 |} in
    if sc_limit c <=? prev then
      (false, {| sc_limit := sc_limit c; sc_in_use := fetch_sub (sc_in_use added) 1 |})
    else (true, added)
  else (true, c).

(** A permit dropped. *)
Definition drop_permit (c : StreamConcurrency) : StreamConcurrency :=
  {| sc_limit := sc_limit c; sc_in_use := fetch_sub (sc_in_use c) 1 |}.

(** [compute_jittered_max_requests], with the random offset given. *)
Definition compute_jittered_max_requests (max_requests jitter offset : Z) : Z :=
  if (max_requests =? 0) || (jitter =? 0) then max_requests
  else Z.max (max_requests + offset) 1.

(** One independently jittered budget per slot, the offsets given. *)
Definition build_worker_budgets (num_workers : nat) (max_requests jitter : Z)
    (offset : nat -> Z) : list WorkerBudget :=
  map (fun i => {| wb_count := 0;
                   wb_threshold := compute_jittered_max_requests max_requests jitter (offset i);
                   wb_waiting_logged := false |}) (seq 0 num_workers).
