(* ===== verification/DispatchProps.v ===== *)
(** * Properties of dispatch

    Every item of a batch is answered exactly once whatever the workers reply
    and whatever the other tasks do meanwhile, provided a worker does not answer
    a batch with a single success; retries go to distinct workers; an attempt
    leaves the in-flight counters as it found them; the stream cap holds under
    every interleaving. *)

From S2P Require Import Prelude Text Outlier OutlierProps Sequence Float Pick PickProps Dispatch.
Open Scope Z_scope.

(** ** What the events say *)

(** The response channels answered, in order. *)
Definition replies (ev : list event) : list nat :=
  omap (fun e => match e with EvReply c _ => Some c | _ => None end) ev.

(** The workers requests were sent to, in order. *)
Definition sends (ev : list event) : list nat :=
  omap (fun e => match e with EvSend w _ => Some w | _ => None end) ev.

Abbreviation chans := (map qi_chan).

Lemma replies_app e1 e2 : replies (e1 ++ e2) = replies e1 ++ replies e2.
Proof. apply omap_app. Qed.

Lemma sends_app e1 e2 : sends (e1 ++ e2) = sends e1 ++ sends e2.
Proof. apply omap_app. Qed.

Lemma replies_map {A} (f : A -> nat) (g : A -> Response) l :
  replies (map (fun x => EvReply (f x) (g x)) l) = map f l.
Proof. induction l; simpl; [done|]. unfold replies in *. simpl. by f_equal. Qed.

Lemma sends_map {A} (f : A -> nat) (g : A -> Response) l :
  sends (map (fun x => EvReply (f x) (g x)) l) = [].
Proof. induction l; [done|]. done. Qed.

Lemma replies_fail batch e : replies (fail_batch_items batch e) = chans batch.
Proof. apply replies_map. Qed.

Lemma sends_fail batch e : sends (fail_batch_items batch e) = [].
Proof. apply sends_map. Qed.

Lemma replies_depth {A} (f : A -> nat) l : replies (map (fun x => EvDepthReleased (f x)) l) = [].
Proof. by induction l. Qed.

Lemma replies_wait {A} (f : A -> nat) l : replies (map (fun x => EvQueueWait (f x)) l) = [].
Proof. by induction l. Qed.

Lemma sends_depth {A} (f : A -> nat) l : sends (map (fun x => EvDepthReleased (f x)) l) = [].
Proof. by induction l. Qed.

Lemma sends_wait {A} (f : A -> nat) l : sends (map (fun x => EvQueueWait (f x)) l) = [].
Proof. by induction l. Qed.

Lemma replies_sat sh ev : replies (update_worker_saturation sh :: ev) = replies ev.
Proof. done. Qed.

Lemma sends_sat sh ev : sends (update_worker_saturation sh :: ev) = sends ev.
Proof. done. Qed.

Create Rewrite HintDb events.
#[export] Hint Rewrite replies_app sends_app @replies_map @sends_map replies_fail sends_fail
  @replies_depth @replies_wait @sends_depth @sends_wait @app_nil_r
  replies_sat sends_sat : events.

(** ** One attempt *)

(** A single response to a batch of several can only be a failure of the worker. *)
Definition reply_fits (a : Attempt) : Prop :=
  forall w req resp items single,
    rq_payload req = QBatch items -> at_reply a w req = Ok resp ->
    rs_payload resp = Some (RSingle single) ->
    is_error_status (sr_status single) = true /\
    ((400 <=? sr_status_code single) && (sr_status_code single <? 500) = false).

Lemma score_error_events a w sh :
  exists sh' ev, score_error a w sh = (sh', ev) /\ replies ev = [] /\ sends ev = [] /\
    sh_inflight sh' = sh_inflight sh /\ sh_budgets sh' = sh_budgets sh /\
    sh_outlier sh' = snd (record_error (at_done a) (at_busy a) w (sh_outlier sh)).
Proof.
  unfold score_error. destruct (record_error _ _ _ _) as [[] o]; eexists _, _; by split_and!.
Qed.

Lemma answer_last_chans batch s m :
  exists batch' ev, answer_last batch s m = (batch', ev) /\
    chans batch ≡ₚ replies ev ++ chans batch' /\ sends ev = [] /\
    (length batch <= 1 -> batch' = [])%nat.
Proof.
  unfold answer_last. destruct batch as [|it batch _] using rev_ind.
  { eexists _, _. by split_and!. }
  rewrite last_snoc. eexists _, _. split_and!; [done| |done|].
  - rewrite length_app, map_app. simpl. rewrite Nat.add_sub, take_app_length. simpl.
    by rewrite Permutation_app_comm.
  - rewrite length_app. simpl. intros Hl. rewrite Nat.add_sub.
    destruct batch; [done|simpl in Hl; lia].
Qed.

Lemma finish_send_answers a w batch reply sh :
  exists r batch' sh' ev, finish_send a w batch reply sh = (r, batch', sh', ev) /\
    chans batch ≡ₚ replies ev ++ chans batch' /\ sends ev = [] /\
    (forall w', r = Ok w' -> batch' <> [] ->
       (2 <= length batch)%nat /\ exists resp s, reply = Ok resp /\
         rs_payload resp = Some (RSingle s) /\ is_error_status (sr_status s) = false).
Proof.
  unfold finish_send. destruct reply as [resp|e].
  2:{ destruct (score_error_events a w (release_inflight w sh)) as (sh' & ev & Hs & Hr & Hsd & _).
      destruct e; rewrite Hs; (eexists _, _, _, _; split; [done|]);
        autorewrite with events; rewrite Hr, Hsd; by split_and!. }
  destruct (rs_payload resp) as [[single|items| |]|] eqn:Hp.
  2:{ case_goal.
      - eexists _, _, _, _. split; [done|]. autorewrite with events. simpl.
        rewrite ?app_nil_r. by split_and!.
      - destruct (score_error_events a w (release_inflight w sh)) as (sh' & ev & -> & Hr & Hsd & _).
        eexists _, _, _, _. split; [done|]. autorewrite with events. rewrite Hr, Hsd.
        simpl. rewrite ?app_nil_r. by split_and!. }
  all: try (destruct (score_error_events a w (release_inflight w sh)) as (sh' & ev & -> & Hr & Hsd & _);
       eexists _, _, _, _; split; [done|]; autorewrite with events; rewrite Hr, Hsd; by split_and!).
  destruct (answer_last_chans batch single (rs_metrics resp)) as (b' & ev & Ha & Hc & Hsd & Hlen).
  destruct (is_error_status (sr_status single)) eqn:He; simpl; [case_goal|].
  - rewrite Ha. eexists _, _, _, _. split; [done|]. autorewrite with events. simpl.
    rewrite ?app_nil_r, Hsd. by split_and!.
  - destruct (score_error_events a w (release_inflight w sh)) as (sh' & ev' & -> & Hr & Hsd' & _).
    eexists _, _, _, _. split; [done|]. autorewrite with events. rewrite Hr, Hsd'. by split_and!.
  - rewrite Ha. eexists _, _, _, _. split; [done|]. autorewrite with events. simpl.
    rewrite ?app_nil_r, Hsd. split_and!; [done|done|]. intros w' _ Hne. split; [|by eauto].
    destruct (decide (length batch <= 1)%nat) as [Hl|]; [|lia]. by destruct Hne; auto.
Qed.

Section dispatch_facts.
Context `{MapIter} (hash : string -> nat -> Z).

(** The choice of the worker: always one in range, counters and budgets untouched. *)
Lemma select_worker_total d a batch ex sh :
  sh_inflight sh <> [] -> fair (at_draws a) ->
  exists w sh', select_worker hash d a batch ex sh = (Some w, sh') /\
    (w < length (sh_inflight sh))%nat /\ sh_inflight sh' = sh_inflight sh /\
    sh_budgets sh' = sh_budgets sh /\
    same_view (at_now a) (sh_outlier sh) (sh_outlier sh').
Proof.
  intros Hne Hfair. assert (Hlen : (0 < length (sh_inflight sh))%nat)
    by (destruct (sh_inflight sh); simpl; [done|lia]).
  assert (Hpick : forall sh1, sh_inflight sh1 = sh_inflight sh -> sh_budgets sh1 = sh_budgets sh ->
    same_view (at_now a) (sh_outlier sh) (sh_outlier sh1) ->
    exists w sh', (let '(affinity, reg) := batch_affinity (at_now a) (map qi_meta batch)
        (sh_registry sh1) (bd_model d) (bd_version d) in
      let '(w, o) := pick_worker hash (at_now a) (at_draws a) (sh_inflight sh1) ex affinity
        (bd_balance d) (sh_outlier sh1) in
      (w, set_outlier o (set_registry reg sh1))) = (Some w, sh') /\
    (w < length (sh_inflight sh))%nat /\ sh_inflight sh' = sh_inflight sh /\
    sh_budgets sh' = sh_budgets sh /\
    same_view (at_now a) (sh_outlier sh) (sh_outlier sh')).
  { intros sh1 Hi Hb Hv. destruct (batch_affinity _ _ _ _ _) as [aff reg].
    destruct (pick_worker_total hash (at_now a) (at_draws a) (sh_inflight sh1) ex aff
      (bd_balance d) (sh_outlier sh1)) as (w & o & -> & Hw & Hv'); [by rewrite Hi|done|].
    eexists w, _. split; [done|]. simpl. rewrite Hi in Hw. split_and!; try done. by etrans. }
  unfold select_worker. destruct (batch_direct_pin batch) as [w|]; [|by apply Hpick].
  destruct (Nat.ltb_spec w (length (sh_inflight sh))); [|by apply Hpick].
  destruct (unavailable_spec (at_now a) ex w (sh_outlier sh)) as (o & -> & Hv).
  destruct (negb _); [by apply Hpick|]. eexists w, _. split; [done|]. by split_and!.
Qed.

(** An attempt answers some of the items and keeps the rest. *)
Lemma do_send_batch_answers d a batch ex sh :
  fair (at_draws a) ->
  exists r batch' sh' ev, do_send_batch hash d a batch ex sh = Some (r, batch', sh', ev) /\
    chans batch ≡ₚ replies ev ++ chans batch' /\ (length (sends ev) <= 1)%nat /\
    (reply_fits a -> forall w, r = Ok w -> batch' = []).
Proof.
  intros Hfair. unfold do_send_batch.
  destruct batch as [|it batch].
  { eexists _, _, _, _. split_and!; [done|done|simpl; lia|done]. }
  case_goal; to_prop.
  { eexists _, _, _, _. split; [done|]. split_and!; [done|simpl; lia|done]. }
  case_goal.
  { eexists _, _, _, _. split; [done|]. split_and!; [done|simpl; lia|done]. }
  destruct (select_worker_total d a (it :: batch) ex sh) as (w & sh1 & -> & _); [done|done|].
  set (b := it :: batch) in *.
  set (req := build_request (at_batch_uid a) b).
  match goal with |- context [finish_send a w b _ ?s] =>
    destruct (finish_send_answers a w b (at_reply a w req) s)
      as (r & b' & sh' & ev & -> & Hc & Hsd & Hok) end.
  eexists _, _, _, _. split; [done|].
  autorewrite with events. rewrite Hsd. split_and!.
  - destruct (forallb qi_is_warmup b); simpl; exact Hc.
  - destruct (forallb qi_is_warmup b); simpl; lia.
  - intros Hfits w' ->. destruct b' as [|x b']; [done|].
    destruct (Hok w' eq_refl) as (Hl & resp & s & Hr & Hp & He); [done|].
    destruct (Hfits w req resp (map (fun it => (qi_uid it, qi_data it)) b) s) as [He' _]; try done.
    + unfold req, build_request, b in *. destruct batch; [simpl in Hl; lia|done].
    + congruence.
Qed.

Lemma check_budget_events d now w n sh :
  exists sh' ev, check_worker_budget d now w n sh = (sh', ev) /\ replies ev = [] /\ sends ev = [].
Proof.
  unfold check_worker_budget. destruct (sh_budgets sh !! w) as [b|]; [|eauto].
  repeat case_goal; eauto. all: destruct (claim_recycle _ _) as [[] o]; eauto.
  all: repeat case_goal; eauto. all: destruct (is_ejected _ _ _) as [? o']; repeat case_goal; eauto.
Qed.

Lemma retry_loop_answers d attempts n k warm size batch ex err sh :
  (forall k, fair (at_draws (attempts k))) -> (forall k, reply_fits (attempts k)) ->
  (n = 0%nat -> err <> None) ->
  exists sh' ev, retry_loop hash d attempts n k warm size batch ex err sh = Some (sh', ev) /\
    chans batch ≡ₚ replies ev /\ (length (sends ev) <= n)%nat.
Proof.
  intros Hfair Hfits. revert k batch ex err sh.
  induction n as [|n IH]; intros k batch ex err sh Herr; simpl.
  { destruct err as [e|]; [|by destruct Herr]. eexists _, _. split; [done|].
    autorewrite with events. simpl. done. }
  destruct (do_send_batch_answers d (attempts k) batch ex sh (Hfair k))
    as (r & b' & sh1 & ev & -> & Hc & Hsd & Hok).
  assert (Hre : forall b : bool, replies (if b then [EvRetry] else []) = [] /\
    sends (if b then [EvRetry] else []) = []) by (by intros []).
  destruct r as [w|e].
  - specialize (Hok (Hfits k) w eq_refl). subst b'.
    destruct (check_budget_events d (at_done (attempts k)) w size sh1) as (sh2 & bev & Hb & Hbr & Hbs).
    rewrite Hb. destruct warm; (eexists _, _; split; [done|]); autorewrite with events;
      destruct (Hre (Nat.ltb 0 k && negb false)) as [Hr1 Hs1];
      destruct (Hre (Nat.ltb 0 k && negb true)) as [Hr2 Hs2];
      rewrite ?Hr1, ?Hs1, ?Hr2, ?Hs2, ?Hbr, ?Hbs; simpl; rewrite ?app_nil_r;
      (split; [by rewrite app_nil_r in Hc|lia]).
  - destruct (Hre (Nat.ltb 0 k && negb warm)) as [Hr1 Hs1].
    case_goal; to_prop.
    + subst. eexists _, _. split; [done|]. autorewrite with events. rewrite Hr1, Hs1. simpl.
      rewrite app_nil_r in Hc. split; [done|lia].
    + destruct (IH (S k) b' (ex ++ [be_worker_idx e]) (Some e) sh1) as (sh2 & rest & -> & Hc2 & Hs2);
        [done|].
      eexists _, _. split; [done|]. autorewrite with events. rewrite Hr1, Hs1. simpl.
      rewrite length_app. split; [|lia]. by rewrite Hc, Hc2.
Qed.

(** C1. Every item of a dispatched batch is answered exactly once: whatever the
    workers reply, whatever the other tasks do to the shared state while a reply is
    awaited, and however many retries are allowed, [send_batch_with_retry] finishes
    and the channels it answers are a permutation of the batch's, after at most [max
    1 max_retries] requests. The workers are only assumed not to answer a batch of
    several items with a single response that is not a worker failure. *)
Theorem every_item_answered_once (d : BatchDispatch) (attempts : nat -> Attempt)
    (max_retries : nat) (batch : list QueueItem) (sh : Shared) :
  (forall k, fair (at_draws (attempts k))) -> (forall k, reply_fits (attempts k)) ->
  exists sh' ev, send_batch_with_retry hash d attempts max_retries batch sh = Some (sh', ev) /\
    replies ev ≡ₚ chans batch /\ (length (sends ev) <= Nat.max 1 max_retries)%nat.
Proof.
  intros Hfair Hfits. unfold send_batch_with_retry.
  destruct batch as [|it batch]; [eexists _, _; split; [done|]; simpl; split; [done|lia]|].
  set (b := it :: batch) in *. set (warm := forallb qi_is_warmup b) in *.
  assert (Hstart : forall ev, let start := map (fun it => EvDepthReleased (qi_chan it)) b
      ++ (if warm then [] else map (fun it => EvQueueWait (qi_chan it)) b) in
    replies (start ++ ev) = replies ev /\ sends (start ++ ev) = sends ev).
  { intros ev start. unfold start. autorewrite with events. destruct warm; by autorewrite with events. }
  destruct (Nat.leb (bd_clients d) 1 || Nat.eqb max_retries 0) eqn:Hfast.
  - unfold send_once.
    destruct (do_send_batch_answers d (attempts 0%nat) b [] sh (Hfair _))
      as (r & b' & sh1 & ev & -> & Hc & Hsd & Hok).
    destruct r as [w|e].
    + specialize (Hok (Hfits _) w eq_refl). subst b'. rewrite app_nil_r in Hc.
      destruct (check_budget_events d (at_done (attempts 0%nat)) w (length b) sh1)
        as (sh2 & bev & Hb & Hbr & Hbs). rewrite Hb.
      destruct warm; (eexists _, _; split; [done|]); rewrite !(proj1 (Hstart _)), !(proj2 (Hstart _));
        autorewrite with events; rewrite ?Hbr, ?Hbs; simpl; rewrite ?app_nil_r; (split; [done|lia]).
    + eexists _, _. split; [done|]. rewrite (proj1 (Hstart _)), (proj2 (Hstart _)).
      autorewrite with events. split; [done|lia].
  - to_prop. destruct (retry_loop_answers d attempts max_retries 0 warm (length b) b [] None sh)
      as (sh1 & ev & -> & Hc & Hsd); [done..|lia|].
    eexists _, _. split; [done|]. rewrite (proj1 (Hstart _)), (proj2 (Hstart _)).
    split; [done|lia].
Qed.
End dispatch_facts.

(** ** The in-flight counters *)

Definition add_deltas (l deltas : list Z) : list Z :=
  zip_with (fun x y => wrap64 (x + y)) l deltas.

(** What the other tasks do to the counters meanwhile, as per-worker deltas. *)
Definition interferes_by (a : Attempt) (deltas : list Z) : Prop :=
  forall sh, sh_inflight (at_interfere a sh) = add_deltas (sh_inflight sh) deltas.

Lemma finish_send_inflight a w batch reply sh :
  sh_inflight (snd (fst (finish_send a w batch reply sh)))
  = alter (fun c => fetch_sub c 1) w (sh_inflight sh).
Proof.
  unfold finish_send, score_error, answer_last.
  destruct reply as [resp|[]]; [destruct (rs_payload resp) as [[single|items| |]|]|..];
    repeat case_goal; try (destruct (record_error _ _ _ _)); repeat case_goal; done.
Qed.

Lemma wrap_roundtrip x d : wrap64 (wrap64 (wrap64 (x + 1) + d) - 1) = wrap64 (x + d).
Proof.
  unfold wrap64. rewrite <- Zminus_mod_idemp_l, Zplus_mod_idemp_l.
  rewrite Zmod_mod, Zminus_mod_idemp_l. f_equal. lia.
Qed.

Lemma claim_release_deltas w l deltas :
  alter (fun c => fetch_sub c 1) w (add_deltas (alter (fun c => fetch_add c 1) w l) deltas)
  = add_deltas l deltas.
Proof.
  revert w deltas. induction l as [|x l IH]; intros [|w] [|d deltas]; try done; simpl; f_equal.
  - unfold fetch_sub, fetch_add. apply wrap_roundtrip.
  - apply IH.
Qed.

Lemma budget_step_events (warm : bool) d now w n sh :
  exists sh' ev, (if warm then (sh, []) else check_worker_budget d now w n sh) = (sh', ev) /\
    replies ev = [] /\ sends ev = [].
Proof. destruct warm; [by eexists _, _|]. apply check_budget_events. Qed.

Section dispatch_state.
Context `{MapIter} (hash : string -> nat -> Z).

(** One dispatch attempt always finishes and is neutral on the per-worker in-flight
    counters: if it sent nothing they are untouched, otherwise they end as the other
    tasks' changes alone would leave them, on every reply and error path. *)
Theorem attempt_inflight_neutral (d : BatchDispatch) (a : Attempt) (batch : list QueueItem)
    (ex : list nat) (sh : Shared) (deltas : list Z) :
  fair (at_draws a) -> interferes_by a deltas ->
  exists r batch' sh' ev, do_send_batch hash d a batch ex sh = Some (r, batch', sh', ev) /\
    sh_inflight sh' = if decide (sends ev = []) then sh_inflight sh
                      else add_deltas (sh_inflight sh) deltas.
Proof.
  intros Hfair Hint. unfold do_send_batch.
  destruct batch as [|it batch]; [by eexists _, _, _, _|].
  case_goal; to_prop; [by eexists _, _, _, _|]. case_goal; [by eexists _, _, _, _|].
  destruct (select_worker_total hash d a (it :: batch) ex sh) as (w & sh1 & -> & _ & Hi & _);
    [done..|].
  set (b := it :: batch) in *. set (req := build_request (at_batch_uid a) b).
  match goal with |- context [finish_send a w b ?rep ?s] =>
    pose proof (finish_send_inflight a w b rep s) as Hf;
    destruct (finish_send a w b rep s) as [[[r b'] sh'] ev] end.
  eexists _, _, _, _. split; [done|]. simpl in Hf. rewrite Hf, (Hint _). simpl.
  rewrite Hi, claim_release_deltas. autorewrite with events. rewrite decide_False; [done|].
  destruct (qi_is_warmup it && forallb qi_is_warmup batch); simpl; discriminate.
Qed.

(** ** Retries go to distinct workers *)

(** A slot that any pick may choose. *)
Definition healthy (sh : Shared) (j : nat) : Prop :=
  exists w, workers (sh_outlier sh) !! j = Some w /\
    w_ejected w = None /\ w_dead w = false /\ w_recycling w = false.

(** The other tasks leave healthy slots healthy and the pool as it is. *)
Definition gentle (a : Attempt) : Prop :=
  forall sh, length (sh_inflight (at_interfere a sh)) = length (sh_inflight sh) /\
    forall j, healthy sh j -> healthy (at_interfere a sh) j.

Lemma healthy_available now ex sh j :
  healthy sh j -> j ∉ ex -> available now ex (sh_outlier sh) j = true.
Proof.
  intros (w & Hw & He & Hd & Hr) Hex.
  unfold available, usable_at, ejected_now, is_ejected, is_dead, is_recycling.
  rewrite Hw, He, Hd, Hr. simpl. unfold contains. by rewrite bool_decide_eq_false_2.
Qed.

Lemma healthy_view now sh sh' j :
  same_view now (sh_outlier sh) (sh_outlier sh') -> healthy sh j -> healthy sh' j.
Proof.
  intros Hv (w & Hw & He & Hd & Hr). destruct (Hv j) as (_ & _ & _ & Hk).
  exists w. split_and!; [by apply Hk|done..].
Qed.

(** With a healthy worker left, the choice is not one of the failed ones. *)
Lemma select_worker_fresh d a batch ex sh j :
  fair (at_draws a) -> healthy sh j -> j ∉ ex -> (j < length (sh_inflight sh))%nat ->
  exists w sh', select_worker hash d a batch ex sh = (Some w, sh') /\ w ∉ ex.
Proof.
  intros Hfair Hh Hj Hlen.
  pose proof (healthy_available (at_now a) ex sh j Hh Hj) as Hav.
  assert (Hout : forall o w, available (at_now a) ex o w = true -> w ∉ ex).
  { intros o w. unfold available, contains. intros [_ Hc]%andb_prop.
    apply negb_true_iff in Hc. by apply bool_decide_eq_false_1 in Hc. }
  assert (Hpick : forall sh1, sh_inflight sh1 = sh_inflight sh ->
    same_view (at_now a) (sh_outlier sh) (sh_outlier sh1) ->
    exists w sh', (let '(affinity, reg) := batch_affinity (at_now a) (map qi_meta batch)
        (sh_registry sh1) (bd_model d) (bd_version d) in
      let '(w, o) := pick_worker hash (at_now a) (at_draws a) (sh_inflight sh1) ex affinity
        (bd_balance d) (sh_outlier sh1) in
      (w, set_outlier o (set_registry reg sh1))) = (Some w, sh') /\ w ∉ ex).
  { intros sh1 Hi Hv. destruct (batch_affinity _ _ _ _ _) as [aff reg].
    destruct (pick_worker_available_gen hash (at_now a) (at_draws a) (sh_inflight sh1) ex aff
      (bd_balance d) (sh_outlier sh1) j) as (w & o & -> & _ & Ha);
      [by rewrite Hi|by rewrite (same_view_available _ _ _ _ j Hv)|by intros; apply Hfair|].
    eexists w, _. split; [done|]. by eapply Hout. }
  unfold select_worker. destruct (batch_direct_pin batch) as [w|]; [|by apply Hpick].
  destruct (Nat.ltb_spec w (length (sh_inflight sh))); [|by apply Hpick].
  destruct (unavailable_spec (at_now a) ex w (sh_outlier sh)) as (o & -> & Hv).
  destruct (available (at_now a) ex (sh_outlier sh) w) eqn:Haw; simpl; [|by apply (Hpick (set_outlier o sh))].
  eexists w, _. split; [done|]. by eapply Hout.
Qed.

Lemma finish_send_slots a w batch reply sh :
  exists r batch' sh' ev, finish_send a w batch reply sh = (r, batch', sh', ev) /\
    (forall e, r = Err e -> be_worker_idx e = w) /\ sends ev = [] /\
    length (sh_inflight sh') = length (sh_inflight sh) /\
    (forall j, j <> w -> workers (sh_outlier sh') !! j = workers (sh_outlier sh) !! j).
Proof.
  pose proof (finish_send_inflight a w batch reply sh) as Hi.
  destruct (finish_send_answers a w batch reply sh) as (r & b' & sh' & ev & Hf & _ & Hs & _).
  rewrite Hf in Hi. exists r, b', sh', ev. simpl in Hi. rewrite Hi, length_alter.
  enough ((forall e, r = Err e -> be_worker_idx e = w) /\
    forall j, j <> w -> workers (sh_outlier sh') !! j = workers (sh_outlier sh) !! j) as [? ?]
    by (by split_and!).
  assert (Hok : forall j, j <> w -> workers (record_success w (sh_outlier sh)) !! j
    = workers (sh_outlier sh) !! j) by (intros j ?; by apply (apply_op_other (OpSuccess w))).
  assert (Herr : forall j, j <> w -> workers (snd (record_error (at_done a) (at_busy a) w
    (sh_outlier sh))) !! j = workers (sh_outlier sh) !! j)
    by (intros j ?; by apply (apply_op_other (OpError (at_done a) (at_busy a) w))).
  unfold finish_send, score_error, answer_last in Hf. simpl in Hf.
  destruct (record_error (at_done a) (at_busy a) w (sh_outlier sh)) as [ej o]. simpl in Herr.
  destruct reply as [resp|[]]; [destruct (rs_payload resp) as [[single|items| |]|]|..];
    repeat case_match; simplify_eq/=; (split; [by intros e [= <-]|done]).
Qed.

(** One attempt while healthy workers are left: it is sent to a fresh worker and
    touches no other slot. *)
Lemma do_send_batch_fresh d a batch ex sh j :
  fair (at_draws a) -> gentle a -> batch <> [] ->
  healthy sh j -> j ∉ ex -> (j < length (sh_inflight sh))%nat ->
  exists r batch' sh' ev w, do_send_batch hash d a batch ex sh = Some (r, batch', sh', ev) /\
    sends ev = [w] /\ (w ∉ ex) /\ (w < length (sh_inflight sh))%nat /\
    (forall e, r = Err e -> be_worker_idx e = w) /\
    length (sh_inflight sh') = length (sh_inflight sh) /\
    (forall i, i <> w -> healthy sh i -> healthy sh' i).
Proof.
  intros Hfair Hgentle Hb Hh Hj Hlen. unfold do_send_batch. destruct batch as [|it batch]; [done|].
  rewrite bool_decide_eq_false_2 by (intros He; rewrite He in Hlen; simpl in Hlen; lia).
  assert (all_dead (sh_outlier sh) = false) as ->.
  { destruct Hh as (x & Hx & _ & Hd & _). unfold all_dead. apply andb_false_intro2.
    destruct (forallb w_dead (workers (sh_outlier sh))) eqn:Hall; [|done].
    rewrite forallb_forall in Hall. rewrite <- (Hall x), Hd; [done|].
    apply list_elem_of_In. by eapply list_elem_of_lookup_2. }
  destruct (select_worker_total hash d a (it :: batch) ex sh) as (w & sh1 & Hs & Hw & Hi & _ & Hv);
    [by intros He; rewrite He in Hlen; simpl in Hlen; lia|done|].
  destruct (select_worker_fresh d a (it :: batch) ex sh j) as (w' & sh1' & Hs' & Hex); [done..|].
  rewrite Hs in Hs'. injection Hs' as <- <-. rewrite Hs.
  set (b := it :: batch) in *. set (req := build_request (at_batch_uid a) b).
  match goal with |- context [finish_send a w b ?rep ?s] =>
    destruct (finish_send_slots a w b rep s)
      as (r & b' & sh' & ev & -> & He & Hsd & Hl & Hslots) end.
  destruct (Hgentle (set_registry (record_sequences (at_now a) d w b
    (sh_registry (claim_inflight w sh1))) (claim_inflight w sh1))) as [Hgl Hgh].
  eexists _, _, _, _, w. split; [done|]. autorewrite with events. rewrite Hsd.
  split_and!; [by destruct (forallb qi_is_warmup b)|done|done|done| |].
  - rewrite Hl, Hgl. simpl. by rewrite length_alter, Hi.
  - intros i Hne Hhi. destruct (Hgh i) as (x & Hx & ? & ? & ?).
    { eapply healthy_view in Hhi; [|exact Hv]. exact Hhi. }
    exists x. split; [|done]. rewrite Hslots by done. exact Hx.
Qed.

Lemma fresh_worker_left (m : nat) (ex : list nat) :
  (length ex < m)%nat -> exists j, (j < m)%nat /\ j ∉ ex.
Proof.
  intros Hlen. destruct (decide (Forall (fun j => j ∈ ex) (seq 0 m))) as [Hall|Hex].
  - exfalso. rewrite Forall_forall in Hall.
    assert (seq 0 m ⊆+ ex) as Hsub%submseteq_length.
    { apply NoDup_submseteq; [apply NoDup_seq|done]. }
    rewrite length_seq in Hsub. lia.
  - apply not_Forall_Exists in Hex; [|apply _]. apply Exists_exists in Hex as (j & Hj & Hn).
    exists j. apply elem_of_seq in Hj. split; [lia|done].
Qed.

Lemma retry_loop_distinct d attempts n k warm size batch ex err sh sh' ev :
  (forall k, fair (at_draws (attempts k))) -> (forall k, gentle (attempts k)) ->
  batch <> [] -> (length ex + n <= length (sh_inflight sh))%nat ->
  (forall j, (j < length (sh_inflight sh))%nat -> j ∉ ex -> healthy sh j) ->
  retry_loop hash d attempts n k warm size batch ex err sh = Some (sh', ev) ->
  NoDup (sends ev) /\ (forall w, w ∈ sends ev -> w ∉ ex).
Proof.
  intros Hfair Hgentle. revert k batch ex err sh sh' ev.
  induction n as [|n IH]; intros k batch ex err sh sh' ev Hb Hlen Hh; simpl.
  { intros [= <- <-]. destruct err; autorewrite with events; simpl;
      (split; [by constructor|set_solver]). }
  destruct (fresh_worker_left (length (sh_inflight sh)) ex) as (j & Hj & Hjex); [lia|].
  destruct (do_send_batch_fresh d (attempts k) batch ex sh j) as
    (r & b' & sh1 & ev1 & w & -> & Hsd & Hw & Hwlt & He & Hl & Hkeep); auto.
  assert (Hre : sends (if Nat.ltb 0 k && negb warm then [EvRetry] else []) = []) by (by case_goal).
  assert (Hone : NoDup [w] /\ forall x, x ∈ [w] -> x ∉ ex) by (split; [apply NoDup_singleton|by intros x ->%list_elem_of_singleton]).
  destruct r as [w'|e].
  - destruct (budget_step_events warm d (at_done (attempts k)) w' size sh1) as (sh2 & bev & -> & _ & Hbs).
    intros [= <- <-]. autorewrite with events. by rewrite Hre, Hsd, Hbs.
  - case_goal; to_prop.
    { intros [= <- <-]. autorewrite with events. by rewrite Hre, Hsd. }
    rewrite (He e eq_refl).
    destruct (retry_loop hash d attempts n (S k) warm size b' (ex ++ [w]) (Some e) sh1)
      as [[sh2 rest]|] eqn:Hrest; [|done].
    apply IH in Hrest as [Hnd Hout]; [|done|rewrite length_app; simpl; lia|].
    2:{ intros i Hi Hix. rewrite Hl in Hi. rewrite elem_of_app, list_elem_of_singleton in Hix.
        apply Hkeep; [tauto|]. apply Hh; [done|tauto]. }
    intros [= <- <-]. autorewrite with events. rewrite Hre, Hsd. simpl. split.
    + constructor; [|done]. intros Hin. apply (Hout w Hin). apply elem_of_app. right. by apply list_elem_of_singleton.
    + intros x [->|Hx]%elem_of_cons; [done|]. specialize (Hout x Hx). rewrite elem_of_app in Hout. tauto.
Qed.

(** With more than one worker, all healthy and left healthy by the other tasks, and
    no more retries than workers, the attempts of one batch go to pairwise distinct
    workers. *)
Theorem retries_use_distinct_workers (d : BatchDispatch) (attempts : nat -> Attempt)
    (max_retries : nat) (batch : list QueueItem) (sh sh' : Shared) (ev : list event) :
  (forall k, fair (at_draws (attempts k))) -> (forall k, gentle (attempts k)) ->
  (forall j, (j < length (sh_inflight sh))%nat -> healthy sh j) ->
  (max_retries <= length (sh_inflight sh))%nat -> (1 < bd_clients d)%nat ->
  send_batch_with_retry hash d attempts max_retries batch sh = Some (sh', ev) ->
  NoDup (sends ev).
Proof.
  intros Hfair Hgentle Hh Hmax Hcl. unfold send_batch_with_retry.
  destruct batch as [|it batch]; [intros [= <- <-]; constructor|].
  set (b := it :: batch) in *. set (warm := forallb qi_is_warmup b) in *.
  set (start := map (fun it => EvDepthReleased (qi_chan it)) b
      ++ (if warm then [] else map (fun it => EvQueueWait (qi_chan it)) b)).
  assert (Hstart : forall ev, sends (start ++ ev) = sends ev).
  { intros ev0. unfold start. autorewrite with events. destruct warm; by autorewrite with events. }
  clearbody start.
  rewrite (proj2 (Nat.leb_gt _ _) Hcl), orb_false_l.
  destruct (Nat.eqb_spec max_retries 0) as [Hz|Hz].
  - unfold send_once. destruct (do_send_batch_answers hash d (attempts 0%nat) b [] sh (Hfair _))
      as (r & b' & sh1 & ev1 & -> & _ & Hsd & _).
    assert (NoDup (sends ev1)).
    { destruct (sends ev1) as [|? [|]]; simpl in Hsd; [constructor|apply NoDup_singleton|lia]. }
    destruct r as [w|e].
    + destruct (budget_step_events warm d (at_done (attempts 0%nat)) w (length b) sh1)
        as (sh2 & bev & -> & _ & Hbs).
      intros [= <- <-]. rewrite Hstart. autorewrite with events. by rewrite Hbs, app_nil_r.
    + intros [= <- <-]. rewrite Hstart. by autorewrite with events.
  - destruct (retry_loop hash d attempts max_retries 0 warm (length b) b [] None sh)
      as [[sh1 ev1]|] eqn:Hr; [|done].
    apply retry_loop_distinct in Hr as [Hnd _]; [|done..|by intros; apply Hh].
    intros [= <- <-]. by rewrite Hstart.
Qed.
End dispatch_state.

(** ** A single success in answer to a batch *)

Section misfit.
Context `{MapIter} (hash : string -> nat -> Z).

(** If a worker answers a batch with one successful single response, only the last
    item of the batch is answered; the other callers get nothing from the
    dispatcher. *)
Theorem single_success_answers_only_last (d : BatchDispatch) (attempts : nat -> Attempt)
    (max_retries : nat) (batch : list QueueItem) (it : QueueItem) (sh : Shared) (s : SingleResponse)
    (resp : nat -> Request -> Response) :
  fair (at_draws (attempts 0%nat)) -> sh_inflight sh <> [] -> all_dead (sh_outlier sh) = false ->
  (forall w req, at_reply (attempts 0%nat) w req = Ok (resp w req) /\
     rs_payload (resp w req) = Some (RSingle s)) ->
  is_error_status (sr_status s) = false ->
  exists sh' ev, send_batch_with_retry hash d attempts max_retries (batch ++ [it]) sh
    = Some (sh', ev) /\ replies ev = [qi_chan it].
Proof.
  intros Hfair Hne Hdead Hresp Hs.
  assert (Hsend : exists w sh1 ev, do_send_batch hash d (attempts 0%nat) (batch ++ [it]) [] sh
    = Some (Ok w, batch, sh1, ev) /\ replies ev = [qi_chan it]).
  { unfold do_send_batch. destruct (batch ++ [it]) as [|x b] eqn:Hb; [by destruct batch|].
    rewrite bool_decide_eq_false_2, Hdead by done.
    destruct (select_worker_total hash d (attempts 0%nat) (x :: b) [] sh)
      as (w & sh1 & -> & _); [done..|]. rewrite <- Hb.
    set (req := build_request _ _). destruct (Hresp w req) as [Hr Hp].
    unfold finish_send. rewrite Hr, Hp, Hs. simpl. unfold answer_last.
    rewrite last_snoc, length_app. simpl. rewrite Nat.add_sub, take_app_length.
    eexists w, _, _. split; [done|]. autorewrite with events. by destruct (forallb _ _). }
  destruct Hsend as (w & sh1 & ev & Hsend & Hrep).
  unfold send_batch_with_retry. destruct (batch ++ [it]) as [|x b] eqn:Hb; [by destruct batch|].
  set (l := x :: b) in *. set (warm := forallb qi_is_warmup l).
  set (start := map (fun it => EvDepthReleased (qi_chan it)) l ++ _).
  assert (Hstart : forall ev, replies (start ++ ev) = replies ev).
  { intros ev0. unfold start. autorewrite with events. destruct warm; by autorewrite with events. }
  clearbody start.
  destruct (budget_step_events warm d (at_done (attempts 0%nat)) w (length l) sh1)
    as (sh2 & bev & Hbud & Hbr & _).
  destruct (Nat.leb (bd_clients d) 1 || Nat.eqb max_retries 0) eqn:Hfast.
  - unfold send_once. rewrite Hsend, Hbud. eexists _, _. split; [done|].
    rewrite Hstart. autorewrite with events. by rewrite Hrep, Hbr.
  - destruct max_retries as [|n]; [by rewrite orb_true_r in Hfast|].
    cbn [retry_loop]. rewrite Hsend, Hbud. eexists _, _. split; [done|].
    rewrite Hstart. autorewrite with events. by rewrite Hrep, Hbr.
Qed.
End misfit.

(** ** The stream cap under interleaving

    [try_acquire] is an atomic increment, a test of the value it returned, and
    for a loser an atomic decrement later; other tasks run in between. *)

Record cap_state := {
  cap_counter : StreamConcurrency;
  cap_held : nat;      (** permits out *)
  cap_losing : nat;    (** refused, counter not yet rolled back *)
}.

Definition bump (delta : Z) (c : StreamConcurrency) : StreamConcurrency :=
  {| sc_limit := sc_limit c; sc_in_use := wrap64 (sc_in_use c + delta) |}.

(** Fewer than 2^64 tasks are in [try_acquire] or hold a permit at a time. *)
Inductive cap_step : cap_state -> cap_state -> Prop :=
  | cap_win c h l :
      0 < sc_limit c -> sc_in_use c < sc_limit c ->
      cap_step {| cap_counter := c; cap_held := h; cap_losing := l |}
        {| cap_counter := bump 1 c; cap_held := S h; cap_losing := l |}
  | cap_lose c h l :
      0 < sc_limit c -> sc_limit c <= sc_in_use c -> Z.of_nat (h + l) < usize_max ->
      cap_step {| cap_counter := c; cap_held := h; cap_losing := l |}
        {| cap_counter := bump 1 c; cap_held := h; cap_losing := S l |}
  | cap_rollback c h l :
      cap_step {| cap_counter := c; cap_held := h; cap_losing := S l |}
        {| cap_counter := bump (-1) c; cap_held := h; cap_losing := l |}
  | cap_drop c h l :
      cap_step {| cap_counter := c; cap_held := S h; cap_losing := l |}
        {| cap_counter := drop_permit c; cap_held := h; cap_losing := l |}.

Definition cap_ok (limit : Z) (s : cap_state) : Prop :=
  sc_limit (cap_counter s) = limit /\
  sc_in_use (cap_counter s) = Z.of_nat (cap_held s + cap_losing s) /\
  Z.of_nat (cap_held s + cap_losing s) <= usize_max /\ Z.of_nat (cap_held s) <= limit.

Lemma cap_ok_step limit s s' :
  0 < limit <= usize_max -> cap_step s s' -> cap_ok limit s -> cap_ok limit s'.
Proof.
  intros Hlim Hst. destruct Hst as [c h l|c h l|c h l|c h l]; intros (Hl & Hu & Hm & Hh);
    unfold cap_ok, bump, drop_permit, fetch_sub; simpl in *; rewrite Hu;
    (rewrite wrap64_small by (unfold in_usize; lia)); lia.
Qed.

(** An undisturbed [try_acquire] is the two or one steps of the interleaving. *)
Lemma try_acquire_steps c h l :
  0 < sc_limit c -> Z.of_nat (h + l) < usize_max ->
  rtc cap_step {| cap_counter := c; cap_held := h; cap_losing := l |}
    {| cap_counter := snd (try_acquire c);
       cap_held := if fst (try_acquire c) then S h else h; cap_losing := l |}.
Proof.
  intros Hlim Hn. unfold try_acquire. rewrite (proj2 (Z.ltb_lt _ _) Hlim).
  destruct (Z.leb_spec (sc_limit c) (sc_in_use c)); simpl.
  - eapply rtc_l; [by apply cap_lose|]. apply rtc_once. apply (cap_rollback (bump 1 c)).
  - apply rtc_once. by apply cap_win.
Qed.

(** Under every interleaving of the two atomic steps of [try_acquire] with permit
    drops, no more than [limit] streams hold a permit, and when no acquisition is
    backing out a new one succeeds exactly when fewer than [limit] are held. *)
Theorem stream_cap_respected (limit : Z) (s : cap_state) :
  0 < limit <= usize_max ->
  rtc cap_step {| cap_counter := stream_concurrency_new limit; cap_held := 0; cap_losing := 0 |} s ->
  Z.of_nat (cap_held s) <= limit /\
  (cap_losing s = 0%nat -> (fst (try_acquire (cap_counter s)) = true <->
                            Z.of_nat (cap_held s) < limit)).
Proof.
  intros Hlim Hr. assert (cap_ok limit s) as (Hl & Hu & Hm & Hh).
  { revert Hr. apply (rtc_ind_r (cap_ok limit)).
    - unfold cap_ok. simpl. lia.
    - intros. by eapply cap_ok_step. }
  split; [done|]. intros Hz. unfold try_acquire.
  rewrite Hl, (proj2 (Z.ltb_lt _ _)) by lia. rewrite Hu, Hz, Nat.add_0_r.
  destruct (Z.leb_spec limit (Z.of_nat (cap_held s))); simpl; split; (done || lia).
Qed.

(** ** The theorems at concrete inputs *)

Definition demo_dispatch : BatchDispatch :=
  {| bd_clients := 2; bd_model := "m"; bd_version := "1"; bd_respawn := true;
     bd_balance := BalanceConfig_default |}.

Definition demo_shared : Shared :=
  {| sh_outlier := with_config 2 EjectionConfig_default; sh_registry := seq_new 10 8;
     sh_inflight := [0; 0]; sh_budgets := build_worker_budgets 2 0 0 (fun _ => 0) |}.

Definition demo_item (c : nat) (uid : string) : QueueItem :=
  {| qi_chan := c; qi_uid := uid; qi_data := EmptyString; qi_meta := None;
     qi_enqueued_at := 0; qi_is_warmup := false |}.

Definition demo_batch : list QueueItem := [demo_item 7 "a"; demo_item 8 "b"].

(** An attempt with the given reply, nothing else running. *)
Definition quiet_attempt (reply : nat -> Request -> result SendError Response) : Attempt :=
  {| at_now := 0; at_draws := [0%nat; 1%nat]; at_batch_uid := "u";
     at_interfere := fun sh => sh; at_reply := reply; at_done := 1; at_busy := fun _ => false |}.

(** The first worker times out; the second answers both items, one with an error. *)
Definition demo_reply (w : nat) (_ : Request) : result SendError Response :=
  match w with
  | O => Err InferenceTimeout
  | _ => Ok {| rs_uid := "u"; rs_metrics := None; rs_payload := Some (RBatch
           [{| bi_uid := "a"; bi_data := "ok"; bi_status := None; bi_status_code := 200;
               bi_media_type := ""; bi_headers := ∅ |};
            {| bi_uid := "b"; bi_data := ""; bi_status := Some {| st_code := "Error";
                 st_message := "bad" |}; bi_status_code := 400; bi_media_type := "";
               bi_headers := ∅ |}]) |}
  end.

Definition demo_attempts (_ : nat) : Attempt := quiet_attempt demo_reply.

Lemma fair_two : fair [0%nat; 1%nat].
Proof.
  intros n Hn. simpl. left. rewrite !Nat.mod_small by lia. lia.
Qed.

Lemma demo_reply_fits : reply_fits (quiet_attempt demo_reply).
Proof. intros [|w] req resp its single _ Hr Hp; simpl in Hr; simplify_eq/=. Qed.

Lemma every_item_answered_witness :
  exists sh' ev, send_batch_with_retry toy_hash demo_dispatch demo_attempts 2 demo_batch demo_shared
    = Some (sh', ev) /\ replies ev ≡ₚ [7%nat; 8%nat] /\ (length (sends ev) <= 2)%nat.
Proof.
  apply (every_item_answered_once toy_hash demo_dispatch demo_attempts 2 demo_batch demo_shared).
  - intros k. exact fair_two.
  - intros k. exact demo_reply_fits.
Defined.

Lemma attempt_inflight_witness :
  exists r batch' sh' ev, do_send_batch toy_hash demo_dispatch
      {| at_now := 0; at_draws := [0%nat; 1%nat]; at_batch_uid := "u";
         at_interfere := fun sh => set_inflight (add_deltas (sh_inflight sh) [0; 3]) sh;
         at_reply := demo_reply; at_done := 1; at_busy := fun _ => false |}
      demo_batch [] demo_shared = Some (r, batch', sh', ev) /\
    sh_inflight sh' = if decide (sends ev = []) then [0; 0] else [0; 3].
Proof.
  eapply (attempt_inflight_neutral toy_hash demo_dispatch _ demo_batch [] demo_shared [0; 3]).
  - exact fair_two.
  - intros sh. reflexivity.
Defined.

Lemma retries_distinct_witness :
  exists sh' ev, send_batch_with_retry toy_hash demo_dispatch demo_attempts 2 demo_batch demo_shared
    = Some (sh', ev) /\ NoDup (sends ev).
Proof.
  eexists _, _. split; [vm_compute; reflexivity|].
  eapply (retries_use_distinct_workers toy_hash demo_dispatch demo_attempts 2 demo_batch demo_shared).
  - intros k. exact fair_two.
  - intros k sh. split; [reflexivity|done].
  - intros j Hj. exists fresh_worker. destruct j as [|[|j]]; simpl in Hj; [done..|lia].
  - simpl. lia.
  - simpl. lia.
  - vm_compute. reflexivity.
Defined.

Definition ok_single : SingleResponse :=
  {| sr_data := "ok"; sr_status := None; sr_headers := ∅; sr_status_code := 200;
     sr_media_type := "" |}.

Lemma single_success_witness :
  let resp := {| rs_uid := "u"; rs_payload := Some (RSingle ok_single); rs_metrics := None |} in
  exists sh' ev, send_batch_with_retry toy_hash demo_dispatch
      (fun _ => quiet_attempt (fun _ _ => Ok resp)) 2 demo_batch demo_shared
    = Some (sh', ev) /\ replies ev = [8%nat].
Proof.
  intros resp. apply (single_success_answers_only_last toy_hash demo_dispatch
    (fun _ => quiet_attempt (fun _ _ => Ok resp)) 2 [demo_item 7 "a"] (demo_item 8 "b") demo_shared
    ok_single (fun _ _ => resp)); [exact fair_two|discriminate|reflexivity|done|reflexivity].
Defined.

Lemma stream_cap_witness :
  let s := {| cap_counter := {| sc_limit := 2; sc_in_use := 1 |}; cap_held := 1; cap_losing := 0 |} in
  Z.of_nat (cap_held s) <= 2 /\
  (cap_losing s = 0%nat -> (fst (try_acquire (cap_counter s)) = true <-> Z.of_nat (cap_held s) < 2)).
Proof.
  intros s. apply (stream_cap_respected 2 s); [by vm_compute|].
  apply rtc_once. by apply (cap_win (stream_concurrency_new 2) 0 0).
Defined.
