(* ===== verification/Collector.v ===== *)
(** * The batch collector

    Models [batch_collector], [compute_adaptive_timeout], [check_queue_timeout],
    [reject_queue_timeout] and [drop_if_waiter_gone] of
    [src/src/inference_queue.rs]: one task per model version that takes items
    off the priority channel, groups them into batches and spawns their
    dispatch.

    The collector's loop is a step function on its two local variables, the open
    batch and the deadline; an input is what [select!] woke up for.  What it does
    to the outside (a batch spawned, an item refused or dropped) is its output.

    The theorems: every item taken off the channel leaves exactly once and in
    order, batches are non-empty, bounded and never mix warm-up with live
    traffic, and an item is never left waiting without a deadline. *)

From S2P Require Import Prelude Text Sequence Float Pick Dispatch.
Open Scope Z_scope.

(** ** Data *)

Inductive QueueTimeoutAction := Delay | Reject.

Record BatchTunables := {
  max_batch_size : Z;
  base_timeout : Duration;
  adaptive : bool;
  min_timeout : Duration;
  queue_threshold : Z;
  queue_timeout : Duration;
  queue_timeout_action : QueueTimeoutAction;
}.

Record collector := {
  c_batch : list QueueItem;
  c_deadline : option Instant;
}.

(** What the collector does to an item or a batch. *)
Inductive output :=
  | OutDispatch (batch : list QueueItem)  (** [send_batch_with_retry] spawned *)
  | OutReject (it : QueueItem) (r : Response)
  | OutDrop (it : QueueItem).

(** An item received: the clock, whether its waiter is gone, and the number of
    items left in the channel. *)
Record arrival := {
  ar_item : QueueItem;
  ar_now : Instant;
  ar_gone : bool;
  ar_queue_depth : Z;
}.

Inductive input :=
  | InItem (a : arrival)
  | InDeadline.

(** ** Operations *)

Definition compute_adaptive_timeout (batch_len queue_depth max_batch : Z) (base min : Duration)
    (threshold : Z) : Duration :=
  if max_batch <=? batch_len then 0
  else
    let fill_ratio := f32_div (f32_of_Z batch_len) (f32_of_Z (Z.max max_batch 1)) in
    let queue_pressure :=
      if 0 <? threshold
      then fmin (f32_div (f32_of_Z queue_depth) (f32_of_Z threshold)) (f32_of_Z 1)
      else float_zero in
    let pressure := fmax fill_ratio queue_pressure in
    let scale := f32_sub (f32_of_Z 1) (f32_mul pressure (dec_lit 24 128 99 100)) in
    let scaled := mul_f32 base (fmax scale float_zero) in
    Z.max scaled min.

Definition reject_queue_timeout (it : QueueItem) : output :=
  OutReject it
    {| rs_uid := qi_uid it;
       rs_payload := Some (RSingle
         {| sr_data := EmptyString; sr_headers := ∅; sr_status_code := 0;
            sr_media_type := EmptyString;
            sr_status := Some {| st_code := "Error"; st_message := "503" |} |});
       rs_metrics := None |}.

(** Has the item waited past the queue timeout, with rejection armed? *)
Definition queue_timed_out (t : BatchTunables) (now : Instant) (it : QueueItem) : bool :=
  (0 <? queue_timeout t)
  && match queue_timeout_action t with Reject => true | Delay => false end
  && (queue_timeout t <? elapsed now (qi_enqueued_at it)).

(** [check_queue_timeout] then [drop_if_waiter_gone]: the item, or its exit. *)
Definition screen (t : BatchTunables) (a : arrival) : result output QueueItem :=
  if queue_timed_out t (ar_now a) (ar_item a) then Err (reject_queue_timeout (ar_item a))
  else if ar_gone a then Err (OutDrop (ar_item a))
  else Ok (ar_item a).

Definition batch_timeout (t : BatchTunables) (batch_len queue_depth : Z) : Duration :=
  if adaptive t then
    compute_adaptive_timeout batch_len queue_depth (max_batch_size t) (base_timeout t)
      (min_timeout t) (queue_threshold t)
  else base_timeout t.

(** A warm-up item next to live ones, or the other way round. *)
Definition boundary (batch : list QueueItem) (it : QueueItem) : bool :=
  match batch with
  | [] => false
  | first :: _ => negb (Bool.eqb (qi_is_warmup first) (qi_is_warmup it))
  end.

(** The [recv] branch of the loop. *)
Definition on_item (t : BatchTunables) (a : arrival) (c : collector) : collector * list output :=
  match screen t a with
  | Err out => (c, [out])
  | Ok it =>
      let '(batch, deadline, flushed) :=
        if boundary (c_batch c) it then ([], None, [OutDispatch (c_batch c)])
        else (c_batch c, c_deadline c, []) in
      let batch := batch ++ [it] in
      if max_batch_size t <=? Z.of_nat (length batch) then
        ({| c_batch := []; c_deadline := None |}, flushed ++ [OutDispatch batch])
      else
        match deadline with
        | Some d => ({| c_batch := batch; c_deadline := Some d |}, flushed)
        | None =>
            let timeout := batch_timeout t (Z.of_nat (length batch)) (ar_queue_depth a) in
            ({| c_batch := batch; c_deadline := Some (ar_now a + timeout) |}, flushed)
        end
  end.

(** The timer branch, enabled only while there is a deadline. *)
Definition on_deadline (c : collector) : collector * list output :=
  match c_deadline c with
  | None => (c, [])
  | Some _ =>
      ({| c_batch := []; c_deadline := None |},
       match c_batch c with [] => [] | b => [OutDispatch b] end)
  end.

Definition collector_step (t : BatchTunables) (i : input) (c : collector)
    : collector * list output :=
  match i with
  | InItem a => on_item t a c
  | InDeadline => on_deadline c
  end.

Definition collector_new : collector := {| c_batch := []; c_deadline := None |}.

Fixpoint collector_loop (t : BatchTunables) (ins : list input) (c : collector)
    : collector * list output :=
  match ins with
  | [] => (c, [])
  | i :: ins =>
      let '(c, out) := collector_step t i c in
      let '(c, out') := collector_loop t ins c in
      (c, out ++ out')
  end.

(** The channel is closed and empty: with [recv] out of the [select!], a pending
    deadline is still awaited; without one the loop ends. *)
Definition close_select (c : collector) : collector * list output :=
  match c_deadline c with
  | Some _ => on_deadline c
  | None => (c, [])
  end.

(** The code after the loop. *)
Definition drain_remaining (c : collector) : list output :=
  match c_batch c with [] => [] | b => [OutDispatch b] end.

(** No batching: every item is dispatched alone. *)
Definition fast_path (t : BatchTunables) (a : arrival) : list output :=
  match screen t a with
  | Err out => [out]
  | Ok it => [OutDispatch [it]]
  end.

(** The items a collector is fed. *)
Definition arrivals (ins : list input) : list arrival :=
  omap (fun i => match i with InItem a => Some a | InDeadline => None end) ins.

Definition batch_collector (t : BatchTunables) (ins : list input) : list output :=
  if max_batch_size t <=? 1 then mjoin (map (fast_path t) (arrivals ins))
  else
    let '(c, out) := collector_loop t ins collector_new in
    let '(c, out') := close_select c in
    out ++ out' ++ drain_remaining c.

(** ** What leaves the collector *)

Definition out_batches (out : list output) : list (list QueueItem) :=
  omap (fun o => match o with OutDispatch b => Some b | _ => None end) out.

(** The items that leave undispatched, with their answer if any. *)
Definition out_refused (out : list output) : list output :=
  List.filter (fun o => match o with OutDispatch _ => false | _ => true end) out.

Definition kept (t : BatchTunables) (l : list arrival) : list QueueItem :=
  omap (fun a => match screen t a with Ok it => Some it | Err _ => None end) l.

Definition refused (t : BatchTunables) (l : list arrival) : list output :=
  omap (fun a => match screen t a with Ok _ => None | Err o => Some o end) l.

Lemma out_batches_app o1 o2 : out_batches (o1 ++ o2) = out_batches o1 ++ out_batches o2.
Proof. apply omap_app. Qed.

Lemma out_refused_app o1 o2 : out_refused (o1 ++ o2) = out_refused o1 ++ out_refused o2.
Proof. apply List.filter_app. Qed.

Lemma screen_err_refused t a o : screen t a = Err o -> out_batches [o] = [] /\ out_refused [o] = [o].
Proof. unfold screen. repeat case_goal; intros [= <-]; done. Qed.

(** ** Invariant *)

(** A batch worth dispatching: not empty, of one kind. *)
Definition uniform (b : list QueueItem) : Prop :=
  forall x y, x ∈ b -> y ∈ b -> qi_is_warmup x = qi_is_warmup y.

Definition good_batch (t : BatchTunables) (b : list QueueItem) : Prop :=
  b <> [] /\ Z.of_nat (length b) <= max_batch_size t /\ uniform b.

(** A deadline is pending exactly while the batch is open. *)
Definition collector_ok (t : BatchTunables) (c : collector) : Prop :=
  (c_deadline c = None <-> c_batch c = []) /\
  Z.of_nat (length (c_batch c)) < max_batch_size t /\ uniform (c_batch c).

Lemma uniform_snoc b it : uniform b -> boundary b it = false -> uniform (b ++ [it]).
Proof.
  intros Hu Hb.
  assert (Hit : forall x, x ∈ b -> qi_is_warmup x = qi_is_warmup it).
  { intros x Hx. destruct b as [|first b]; [by apply elem_of_nil in Hx|].
    simpl in Hb. apply negb_false_iff, eqb_prop in Hb. rewrite <- Hb.
    apply Hu; [done|]. by left. }
  intros x y Hx Hy. rewrite elem_of_app, list_elem_of_singleton in Hx, Hy.
  destruct Hx as [Hx| ->], Hy as [Hy| ->]; try done; [by apply Hu|by apply Hit|].
  symmetry. by apply Hit.
Qed.

Lemma uniform_single it : uniform [it].
Proof. intros x y ->%list_elem_of_singleton ->%list_elem_of_singleton. done. Qed.

(** What one step does to an open collector. *)
Definition step_spec (t : BatchTunables) (i : input) (c c' : collector) (out : list output) : Prop :=
  collector_ok t c' /\ Forall (good_batch t) (out_batches out) /\
  mjoin (out_batches out) ++ c_batch c' = c_batch c ++ kept t (arrivals [i]) /\
  out_refused out = refused t (arrivals [i]).

Lemma on_item_spec t a c :
  1 < max_batch_size t -> collector_ok t c ->
  step_spec t (InItem a) c (fst (on_item t a c)) (snd (on_item t a c)).
Proof.
  intros Hmax (Hd & Hlen & Hu). unfold step_spec, on_item, kept, refused.
  cbn [arrivals omap list_omap]. destruct (screen t a) as [it|o] eqn:Hs.
  2:{ destruct (screen_err_refused t a o Hs) as [Hb Hr]. cbn [fst snd].
      rewrite Hb, Hr. simpl. rewrite ?Hs, app_nil_r. by split_and!. }
  simpl. rewrite ?Hs.
  assert (Hopen : forall b, Z.of_nat (length b) < max_batch_size t -> uniform b ->
    boundary b it = false ->
    let c' d := {| c_batch := b ++ [it]; c_deadline := Some d |} in
    (max_batch_size t <= Z.of_nat (length (b ++ [it])) -> good_batch t (b ++ [it])) /\
    (Z.of_nat (length (b ++ [it])) < max_batch_size t -> forall d, collector_ok t (c' d))).
  { intros b Hb Hub Hbd c'. rewrite length_app. simpl. split.
    - intros Hge. split_and!; [by destruct b|rewrite length_app; simpl; lia|by apply uniform_snoc].
    - intros Hlt d. split; [by split; [|destruct b]|]. simpl. rewrite length_app.
      split; [simpl; lia|by apply uniform_snoc]. }
  destruct (boundary (c_batch c) it) eqn:Hbd.
  - assert (Hgood : good_batch t (c_batch c)).
    { split_and!; [by destruct (c_batch c)|lia|done]. }
    simpl. rewrite (proj2 (Z.leb_gt _ _)) by lia. simpl.
    destruct (Hopen [] ltac:(simpl; lia) ltac:(by intros ?? ?%elem_of_nil) eq_refl) as [_ Hok].
    split_and!; [apply Hok; simpl; lia|by constructor|by rewrite app_nil_r|done].
  - destruct (Hopen (c_batch c) Hlen Hu Hbd) as [Hfull Hok].
    case_goal; to_prop; simpl.
    + split_and!; [|by constructor; [apply Hfull|constructor]|by rewrite !app_nil_r|done].
      split; [done|]. split; [simpl; lia|]. by intros ?? ?%elem_of_nil.
    + destruct (c_deadline c) as [d|]; simpl; (split_and!; [by apply Hok|by constructor|done|done]).
Qed.

Lemma on_deadline_spec t c :
  1 < max_batch_size t -> collector_ok t c ->
  step_spec t InDeadline c (fst (on_deadline c)) (snd (on_deadline c)).
Proof.
  intros Hmax Hok. pose proof Hok as (Hd & Hlen & Hu).
  unfold step_spec, on_deadline. simpl. rewrite app_nil_r.
  destruct (c_deadline c) as [d|] eqn:Hdl; simpl; [|by split_and!].
  split; [split; [done|]; split; [simpl; lia|by intros ?? ?%elem_of_nil]|].
  destruct (c_batch c) as [|x b] eqn:Hb; simpl; [by split_and!|].
  rewrite !app_nil_r. split_and!; [|done|done].
  constructor; [|constructor]. split_and!; [done|simpl in *; lia|done].
Qed.

Lemma collector_step_spec t i c :
  1 < max_batch_size t -> collector_ok t c ->
  step_spec t i c (fst (collector_step t i c)) (snd (collector_step t i c)).
Proof. destruct i; [apply on_item_spec|apply on_deadline_spec]. Qed.

Lemma collector_new_ok t : 1 < max_batch_size t -> collector_ok t collector_new.
Proof. intros. split; [done|]. split; [simpl; lia|]. by intros ?? ?%elem_of_nil. Qed.

Lemma kept_app t l1 l2 : kept t (l1 ++ l2) = kept t l1 ++ kept t l2.
Proof. apply omap_app. Qed.

Lemma refused_app t l1 l2 : refused t (l1 ++ l2) = refused t l1 ++ refused t l2.
Proof. apply omap_app. Qed.

Lemma collector_loop_spec t ins c :
  1 < max_batch_size t -> collector_ok t c ->
  exists c' out, collector_loop t ins c = (c', out) /\
    collector_ok t c' /\ Forall (good_batch t) (out_batches out) /\
    mjoin (out_batches out) ++ c_batch c' = c_batch c ++ kept t (arrivals ins) /\
    out_refused out = refused t (arrivals ins).
Proof.
  intros Hmax. revert c. induction ins as [|i ins IH]; intros c Hok; cbn [collector_loop].
  { eexists _, _. split; [done|]. simpl. rewrite app_nil_r. by split_and!. }
  pose proof (collector_step_spec t i c Hmax Hok) as (Hok1 & Hg1 & Hj1 & Hr1).
  destruct (collector_step t i c) as [c1 out1]. cbn [fst snd] in *.
  destruct (IH c1 Hok1) as (c2 & out2 & -> & Hok2 & Hg2 & Hj2 & Hr2).
  eexists _, _. split; [done|].
  assert (Harr : arrivals (i :: ins) = arrivals [i] ++ arrivals ins) by (by destruct i).
  rewrite Harr, kept_app, refused_app, out_batches_app, out_refused_app.
  split_and!; [done|by apply Forall_app|..].
  - rewrite join_app, <- app_assoc, Hj2, app_assoc, Hj1, <- app_assoc. done.
  - by rewrite Hr1, Hr2.
Qed.

(** ** Properties *)

Lemma fast_path_spec t l :
  out_batches (mjoin (map (fast_path t) l)) = map (fun it => [it]) (kept t l) /\
  out_refused (mjoin (map (fast_path t) l)) = refused t l.
Proof.
  induction l as [|a l [IHb IHr]]; [done|].
  change (mjoin (map (fast_path t) (a :: l))) with (fast_path t a ++ mjoin (map (fast_path t) l)).
  change (a :: l) with ([a] ++ l).
  rewrite out_batches_app, out_refused_app, IHb, IHr, kept_app, refused_app, map_app.
  unfold kept, refused, fast_path. simpl. destruct (screen t a) as [it|o] eqn:Hs; [done|].
  by destruct (screen_err_refused t a o Hs) as [-> ->].
Qed.

Lemma mjoin_singletons {A} (l : list A) : mjoin (map (fun x => [x]) l) = l.
Proof. induction l as [|x l IH]; [done|]. simpl. by rewrite IH. Qed.

(** Closing leaves nothing behind in the open batch. *)
Lemma close_drains t c :
  1 < max_batch_size t -> collector_ok t c ->
  c_batch (fst (close_select c)) = [] /\
  Forall (good_batch t) (out_batches (snd (close_select c))) /\
  mjoin (out_batches (snd (close_select c))) = c_batch c /\ out_refused (snd (close_select c)) = [].
Proof.
  intros Hmax Hok. pose proof (on_deadline_spec t c Hmax Hok) as (_ & Hg & Hj & Hr).
  destruct Hok as (Hd & _). unfold close_select, on_deadline in *.
  destruct (c_deadline c) as [d|] eqn:Hdl.
  - simpl in *. rewrite !app_nil_r in Hj. by split_and!.
  - simpl. rewrite (proj1 Hd eq_refl). by split_and!.
Qed.

(** C2. The batch collector neither loses, duplicates nor reorders items: the
    concatenation of the batches it dispatches is the sequence of the arrivals it
    accepted, the items it refused or dropped are the others, and every batch is
    non-empty, no longer than [max 1 max_batch_size] and entirely warm-up or
    entirely live. *)
Theorem collector_conserves_items (t : BatchTunables) (ins : list input) :
  let out := batch_collector t ins in
  mjoin (out_batches out) = kept t (arrivals ins) /\
  out_refused out = refused t (arrivals ins) /\
  Forall (fun b => b <> [] /\ Z.of_nat (length b) <= Z.max 1 (max_batch_size t) /\ uniform b)
    (out_batches out).
Proof.
  unfold batch_collector. destruct (Z.leb_spec (max_batch_size t) 1) as [Hle|Hgt]; cbn zeta.
  - destruct (fast_path_spec t (arrivals ins)) as [-> ->]. rewrite mjoin_singletons.
    split_and!; [done|done|]. apply Forall_map, Forall_true. intros it.
    split_and!; [done|simpl; lia|apply uniform_single].
  - destruct (collector_loop_spec t ins collector_new Hgt (collector_new_ok t Hgt))
      as (c & out & -> & Hok & Hg & Hj & Hr).
    destruct (close_drains t c Hgt Hok) as (Hnil & Hg' & Hj' & Hr').
    destruct (close_select c) as [c' out']. simpl in Hnil, Hg', Hj', Hr'.
    unfold drain_remaining. rewrite Hnil, app_nil_r, out_batches_app, out_refused_app.
    rewrite join_app, Hj', Hj, Hr, Hr', app_nil_r. split_and!; [done|done|].
    apply Forall_app. split; (eapply Forall_impl; [eassumption|]); intros b (? & ? & ?);
      (split_and!; [done|lia|done]).
Qed.

(** The deadline of an open batch is its first item's. *)
Definition deadline_ok (t : BatchTunables) (seen : list arrival) (c : collector) : Prop :=
  match c_batch c with
  | [] => True
  | it :: _ => exists a, a ∈ seen /\ screen t a = Ok it /\
      c_deadline c = Some (ar_now a + batch_timeout t 1 (ar_queue_depth a))
  end.

Lemma deadline_ok_mono t s1 s2 c : deadline_ok t s1 c -> deadline_ok t (s1 ++ s2) c.
Proof.
  unfold deadline_ok. destruct (c_batch c); [done|]. intros (a & Ha & ? & ?).
  exists a. split; [|done]. apply elem_of_app. by left.
Qed.

Lemma deadline_ok_step t i seen c :
  1 < max_batch_size t -> collector_ok t c -> deadline_ok t seen c ->
  deadline_ok t (seen ++ arrivals [i]) (fst (collector_step t i c)).
Proof.
  intros Hmax (Hd & _ & _) Hdl. destruct i as [a|]; simpl.
  2:{ unfold on_deadline. destruct (c_deadline c); simpl; [done|]. by apply deadline_ok_mono. }
  unfold on_item. destruct (screen t a) as [it|o] eqn:Hs; [|by apply deadline_ok_mono].
  assert (Hin : a ∈ seen ++ [a]) by (apply elem_of_app; right; by apply list_elem_of_singleton).
  assert (Hfirst : deadline_ok t (seen ++ [a]) {| c_batch := [it];
    c_deadline := Some (ar_now a + batch_timeout t 1 (ar_queue_depth a)) |}) by (by exists a).
  destruct (boundary (c_batch c) it); simpl.
  { by rewrite (proj2 (Z.leb_gt _ _)) by lia. }
  case_goal; [done|]. unfold deadline_ok in *.
  destruct (c_batch c) as [|x b] eqn:Hb; simpl.
  - rewrite (proj2 Hd eq_refl). exact Hfirst.
  - destruct Hdl as (a0 & Ha0 & Hs0 & ->). simpl. exists a0.
    split; [|done]. apply elem_of_app. by left.
Qed.

Lemma collector_loop_deadline t ins seen c :
  1 < max_batch_size t -> collector_ok t c -> deadline_ok t seen c ->
  deadline_ok t (seen ++ arrivals ins) (fst (collector_loop t ins c)).
Proof.
  intros Hmax. revert seen c. induction ins as [|i ins IH]; intros seen c Hok Hdl.
  { by apply deadline_ok_mono. }
  assert (Harr : arrivals (i :: ins) = arrivals [i] ++ arrivals ins) by (by destruct i).
  rewrite Harr, app_assoc. cbn [collector_loop].
  pose proof (collector_step_spec t i c Hmax Hok) as (Hok1 & _).
  pose proof (deadline_ok_step t i seen c Hmax Hok Hdl) as Hdl1.
  destruct (collector_step t i c) as [c1 out1]. cbn [fst snd] in *.
  specialize (IH _ _ Hok1 Hdl1). destruct (collector_loop t ins c1). exact IH.
Qed.

(** While batching, the collector has a deadline exactly when its batch is open;
    that deadline is the arrival of the batch's first item plus the timeout computed
    for a batch of length one; and closing the channel flushes the batch, leaving
    nothing to drain. *)
Theorem open_batch_deadline (t : BatchTunables) (ins : list input) :
  1 < max_batch_size t ->
  let c := fst (collector_loop t ins collector_new) in
  (c_deadline c = None <-> c_batch c = []) /\
  (forall it rest, c_batch c = it :: rest ->
     exists a, a ∈ arrivals ins /\ screen t a = Ok it /\
       c_deadline c = Some (ar_now a + batch_timeout t 1 (ar_queue_depth a))) /\
  drain_remaining (fst (close_select c)) = [].
Proof.
  intros Hmax c. destruct (collector_loop_spec t ins collector_new Hmax (collector_new_ok t Hmax))
    as (c1 & out & Hl & Hok & _).
  pose proof (collector_loop_deadline t ins [] collector_new Hmax (collector_new_ok t Hmax) I) as Hdl.
  unfold c. rewrite Hl in *. simpl in *. split_and!; [apply Hok| |].
  - intros it rest Hb. unfold deadline_ok in Hdl. by rewrite Hb in Hdl.
  - unfold drain_remaining. destruct (close_drains t c1 Hmax Hok) as (-> & _). done.
Qed.

(** ** The theorem at a concrete input *)

Definition demo_tunables : BatchTunables :=
  {| max_batch_size := 4; base_timeout := 50000000; adaptive := true; min_timeout := 1000000;
     queue_threshold := 10; queue_timeout := 0; queue_timeout_action := Delay |}.

Definition demo_arrival : arrival :=
  {| ar_item := {| qi_chan := 7; qi_uid := "a"; qi_data := ""; qi_meta := None;
                   qi_enqueued_at := 0; qi_is_warmup := false |};
     ar_now := 10; ar_gone := false; ar_queue_depth := 5 |}.

Lemma open_batch_deadline_witness :
  let c := fst (collector_loop demo_tunables [InItem demo_arrival] collector_new) in
  (c_deadline c = None <-> c_batch c = []) /\
  (forall it rest, c_batch c = it :: rest ->
     exists a, a ∈ [demo_arrival] /\ screen demo_tunables a = Ok it /\
       c_deadline c = Some (ar_now a + batch_timeout demo_tunables 1 (ar_queue_depth a))) /\
  drain_remaining (fst (close_select c)) = [].
Proof. apply (open_batch_deadline demo_tunables [InItem demo_arrival]). simpl. lia. Defined.
