(* ===== verification/Queue.v ===== *)
(** * The inference queue: one entry per model version

    Models [InferenceQueue], [VersionQueue], [DrainHandle], [InflightGuard] and
    the keys of [src/src/inference_queue.rs].  The map of queues refers to what
    the registration created (channel, counters, outlier state), which outlives
    the entry: a draining version is out of the map while its collector finishes
    the accepted items.  [instances] is that shared store, [queues] the map into
    it, and [guards] the in-flight guards alive, one per accepted item that has
    not been dropped yet, by the instance it counts for.

    A submission holds the map's lock only while it checks the version and clones its
    sender and counter; it counts and pushes the item afterwards.  [submit_claim],
    [submit_count] and [submit_push] are these three steps, [try_submit] is their
    sequence, and [submitting] holds the submissions that are between two of them. *)

From S2P Require Import Prelude Text Outlier Sequence Float Pick Priority PriorityProps Dispatch.
Open Scope Z_scope.

(** ** Keys *)

Definition nul : ascii := Ascii.ascii_of_nat 0.

Definition model_version_key (model version : string) : string :=
  (model +:+ String nul version)%string.

(** [splitn(2, NUL)], a missing part being empty. *)
Definition parse_model_version_key (key : string) : string * string :=
  match split_once nul key with
  | Some (m, v) => (m, v)
  | None => (key, EmptyString)
  end.

(** ** Data *)

(** The configuration the entry is built from. *)
Record ModelConfig := {
  mc_max_queue_size : Z;
  mc_max_requests : Z;
  mc_max_requests_jitter : Z;
  mc_count_streams_toward_max_requests : bool;
  mc_max_concurrent_streams : Z;
  mc_health_check_interval : Duration;
}.

(** What one registration creates, shared by the queue entry, the collector and
    the drain handle. *)
Record VersionQueue := {
  vq_tx : PriorityInner QueueItem;
  vq_collecting : bool;          (** the collector task has not been aborted *)
  vq_health_checker : bool;      (** a health checker runs *)
  vq_outlier : OutlierState;
  vq_inflight_requests : Z;
  vq_worker_count : nat;
  vq_dispatch : BatchDispatch;
  vq_budgets : list WorkerBudget;
  vq_worker_inflight : list Z;
  vq_count_streams_budget : bool;
  vq_stream_concurrency : StreamConcurrency;
}.

(** A submission that has released the map's lock: the instance whose sender and
    counter it cloned, its item, and whether the item is counted yet. *)
Record Submission := {
  sm_id : nat;
  sm_item : QueueItem;
  sm_counted : bool;
}.

Record InferenceQueue := {
  queues : gmap string nat;
  instances : list VersionQueue;
  guards : list nat;
  submitting : list Submission;
  sequence_registry : SequenceRegistry;
  balance : BalanceConfig;
}.

Definition with_sequence (r : SequenceRegistry) (b : BalanceConfig) : InferenceQueue :=
  {| queues := ∅; instances := []; guards := []; submitting := []; sequence_registry := r; balance := b |}.

Definition queue_new : InferenceQueue :=
  with_sequence (seq_new (from_secs 3600) 65536) BalanceConfig_default.

(** ** Updates *)

Definition set_instances (l : list VersionQueue) (q : InferenceQueue) : InferenceQueue :=
  {| queues := queues q; instances := l; guards := guards q; submitting := submitting q;
     sequence_registry := sequence_registry q; balance := balance q |}.

Definition set_queues (m : gmap string nat) (q : InferenceQueue) : InferenceQueue :=
  {| queues := m; instances := instances q; guards := guards q; submitting := submitting q;
     sequence_registry := sequence_registry q; balance := balance q |}.

Definition set_guards (l : list nat) (q : InferenceQueue) : InferenceQueue :=
  {| queues := queues q; instances := instances q; guards := l; submitting := submitting q;
     sequence_registry := sequence_registry q; balance := balance q |}.

Definition set_submitting (l : list Submission) (q : InferenceQueue) : InferenceQueue :=
  {| queues := queues q; instances := instances q; guards := guards q; submitting := l;
     sequence_registry := sequence_registry q; balance := balance q |}.

Definition at_instance (f : VersionQueue -> VersionQueue) (id : nat) (q : InferenceQueue)
    : InferenceQueue := set_instances (alter f id (instances q)) q.

Definition set_tx (c : PriorityInner QueueItem) (v : VersionQueue) : VersionQueue :=
  {| vq_tx := c; vq_collecting := vq_collecting v; vq_health_checker := vq_health_checker v;
     vq_outlier := vq_outlier v; vq_inflight_requests := vq_inflight_requests v;
     vq_worker_count := vq_worker_count v; vq_dispatch := vq_dispatch v;
     vq_budgets := vq_budgets v; vq_worker_inflight := vq_worker_inflight v;
     vq_count_streams_budget := vq_count_streams_budget v;
     vq_stream_concurrency := vq_stream_concurrency v |}.

Definition set_requests (n : Z) (v : VersionQueue) : VersionQueue :=
  {| vq_tx := vq_tx v; vq_collecting := vq_collecting v; vq_health_checker := vq_health_checker v;
     vq_outlier := vq_outlier v; vq_inflight_requests := n;
     vq_worker_count := vq_worker_count v; vq_dispatch := vq_dispatch v;
     vq_budgets := vq_budgets v; vq_worker_inflight := vq_worker_inflight v;
     vq_count_streams_budget := vq_count_streams_budget v;
     vq_stream_concurrency := vq_stream_concurrency v |}.

Definition set_vq_outlier (o : OutlierState) (v : VersionQueue) : VersionQueue :=
  {| vq_tx := vq_tx v; vq_collecting := vq_collecting v; vq_health_checker := vq_health_checker v;
     vq_outlier := o; vq_inflight_requests := vq_inflight_requests v;
     vq_worker_count := vq_worker_count v; vq_dispatch := vq_dispatch v;
     vq_budgets := vq_budgets v; vq_worker_inflight := vq_worker_inflight v;
     vq_count_streams_budget := vq_count_streams_budget v;
     vq_stream_concurrency := vq_stream_concurrency v |}.

Definition set_vq_budgets (b : list WorkerBudget) (v : VersionQueue) : VersionQueue :=
  {| vq_tx := vq_tx v; vq_collecting := vq_collecting v; vq_health_checker := vq_health_checker v;
     vq_outlier := vq_outlier v; vq_inflight_requests := vq_inflight_requests v;
     vq_worker_count := vq_worker_count v; vq_dispatch := vq_dispatch v;
     vq_budgets := b; vq_worker_inflight := vq_worker_inflight v;
     vq_count_streams_budget := vq_count_streams_budget v;
     vq_stream_concurrency := vq_stream_concurrency v |}.

Definition set_streams (c : StreamConcurrency) (v : VersionQueue) : VersionQueue :=
  {| vq_tx := vq_tx v; vq_collecting := vq_collecting v; vq_health_checker := vq_health_checker v;
     vq_outlier := vq_outlier v; vq_inflight_requests := vq_inflight_requests v;
     vq_worker_count := vq_worker_count v; vq_dispatch := vq_dispatch v;
     vq_budgets := vq_budgets v; vq_worker_inflight := vq_worker_inflight v;
     vq_count_streams_budget := vq_count_streams_budget v;
     vq_stream_concurrency := c |}.

(** [collector.abort()] and [health_checker.abort()]. *)
Definition abort_tasks (v : VersionQueue) : VersionQueue :=
  {| vq_tx := vq_tx v; vq_collecting := false; vq_health_checker := false;
     vq_outlier := vq_outlier v; vq_inflight_requests := vq_inflight_requests v;
     vq_worker_count := vq_worker_count v; vq_dispatch := vq_dispatch v;
     vq_budgets := vq_budgets v; vq_worker_inflight := vq_worker_inflight v;
     vq_count_streams_budget := vq_count_streams_budget v;
     vq_stream_concurrency := vq_stream_concurrency v |}.

(** The queue's own sender dropped with the map entry. *)
Definition drop_tx (v : VersionQueue) : VersionQueue := set_tx (drop_sender (vq_tx v)) v.

(** [entry.tx.clone()]. *)
Definition clone_tx (v : VersionQueue) : VersionQueue := set_tx (clone_sender (vq_tx v)) v.

(** ** Operations *)

(** The entry of a key, with its instance number. *)
Definition entry (key : string) (q : InferenceQueue) : option (nat * VersionQueue) :=
  match queues q !! key with
  | Some id => match instances q !! id with Some v => Some (id, v) | None => None end
  | None => None
  end.

(** The random jitter offsets of the budgets are given, one per slot.  The batching
    and recycle timeouts are handed to the spawned tasks unchanged and are not
    kept in the entry. *)
Definition register_model (model version : string) (config : ModelConfig) (clients : nat)
    (outlier : OutlierState) (respawn : bool) (offsets : nat -> Z) (q : InferenceQueue)
    : InferenceQueue :=
  let key := model_version_key model version in
  let q := match queues q !! key with
           | Some id => at_instance (fun v => drop_tx (abort_tasks v)) id
                          (set_queues (delete key (queues q)) q)
           | None => q
           end in
  let v := {|
    vq_tx := priority_channel (Z.max (mc_max_queue_size config) 1);
    vq_collecting := true;
    vq_health_checker := 0 <? mc_health_check_interval config;
    vq_outlier := outlier;
    vq_inflight_requests := 0;
    vq_worker_count := clients;
    vq_dispatch := {| bd_clients := clients; bd_model := model; bd_version := version;
                      bd_respawn := respawn; bd_balance := balance q |};
    vq_budgets := build_worker_budgets clients (mc_max_requests config)
                    (mc_max_requests_jitter config) offsets;
    vq_worker_inflight := replicate clients 0;
    vq_count_streams_budget := mc_count_streams_toward_max_requests config;
    vq_stream_concurrency := stream_concurrency_new (mc_max_concurrent_streams config) |} in
  set_queues (<[key := length (instances q)]> (queues q)) (set_instances (instances q ++ [v]) q).

(** The handle of a draining version is its instance number. *)
Definition begin_drain (model version : string) (q : InferenceQueue)
    : option nat * InferenceQueue :=
  let key := model_version_key model version in
  match queues q !! key with
  | Some id => (Some id, at_instance drop_tx id (set_queues (delete key (queues q)) q))
  | None => (None, q)
  end.

(** [DrainHandle::wait_idle] returns once this holds. *)
Definition is_idle (id : nat) (q : InferenceQueue) : bool :=
  match instances q !! id with
  | Some v => negb (0 <? vq_inflight_requests v)
  | None => true
  end.

(** [DrainHandle::abort]. *)
Definition drain_abort (id : nat) (q : InferenceQueue) : InferenceQueue :=
  at_instance abort_tasks id q.

Definition item_priority (it : QueueItem) : Z :=
  match (qi_meta it ≫= fun m => meta_headers m !! "x-lite-priority") ≫= parse_i32 with
  | Some p => Z.min p 0
  | None => 0
  end.

(** The direct pin of a submission, against the version's pool. *)
Definition check_pin (now : Instant) (it : QueueItem) (v : VersionQueue)
    : result QueueError unit * OutlierState :=
  match direct_pin it with
  | None => (Ok tt, vq_outlier v)
  | Some w =>
      if Nat.leb (vq_worker_count v) w then
        (Err (QInvalidWorker "out of range"), vq_outlier v)
      else
        let '(skip, o) := unusable now w (vq_outlier v) in
        if skip then (Err (QInvalidWorker "ejected, dead or recycling"), o) else (Ok tt, o)
  end.

(** An item's [InflightGuard] dropped: the first guard of the instance. *)
Fixpoint remove_guard (id : nat) (l : list nat) : list nat :=
  match l with
  | [] => []
  | x :: l => if Nat.eqb x id then l else x :: remove_guard id l
  end.

Definition guard_drop (id : nat) (q : InferenceQueue) : InferenceQueue :=
  if decide (id ∈ guards q) then
    at_instance (fun v => set_requests (fetch_sub (vq_inflight_requests v) 1) v) id
      (set_guards (remove_guard id (guards q)) q)
  else q.

(** Under the map's lock: the version is known, the pin is good, some worker lives; the
    sender and the counter are cloned. *)
Definition submit_claim (now : Instant) (model version : string) (it : QueueItem)
    (q : InferenceQueue) : result QueueError nat * InferenceQueue :=
  match entry (model_version_key model version) q with
  | None => (Err QNotFound, q)
  | Some (id, v) =>
      let '(pin, o) := check_pin now it v in
      let q := at_instance (set_vq_outlier o) id q in
      match pin with
      | Err e => (Err e, q)
      | Ok _ =>
          if all_dead o then (Err (QNoLiveWorkers "all workers have exited"), q)
          else (Ok id, at_instance clone_tx id q)
      end
  end.

(** The item is counted and carries its guard from here on. *)
Definition submit_count (id : nat) (q : InferenceQueue) : InferenceQueue :=
  set_guards (id :: guards q)
    (at_instance (fun v => set_requests (fetch_add (vq_inflight_requests v) 1) v) id q).

(** The item is pushed, or dropped with its guard; the cloned sender is dropped. *)
Definition submit_push (it : QueueItem) (id : nat) (q : InferenceQueue)
    : result QueueError unit * InferenceQueue :=
  match instances q !! id with
  | None => (Ok tt, q)                       (** no instance is ever removed *)
  | Some v =>
      let '(sent, c) := try_send it (item_priority it) (vq_tx v) in
      match sent with
      | Ok _ => (Ok tt, at_instance drop_tx id (at_instance (set_tx c) id q))
      | Err e => (Err e, at_instance drop_tx id (guard_drop id q))
      end
  end.

(** The three steps, with nothing in between. *)
Definition try_submit (now : Instant) (model version : string) (it : QueueItem)
    (q : InferenceQueue) : result QueueError unit * InferenceQueue :=
  match submit_claim now model version it q with
  | (Err e, q) => (Err e, q)
  | (Ok id, q) => submit_push it id (submit_count id q)
  end.

Definition has_queue (model version : string) (q : InferenceQueue) : bool :=
  is_some (queues q !! model_version_key model version).

Definition get_outlier_state (model version : string) (q : InferenceQueue) : option OutlierState :=
  vq_outlier ∘ snd <$> entry (model_version_key model version) q.

(** The collector of an instance takes the next item, unless it was aborted. *)
Definition collector_take (id : nat) (q : InferenceQueue)
    : option QueueItem * InferenceQueue :=
  match instances q !! id with
  | None => (None, q)
  | Some v =>
      if vq_collecting v then
        match recv (vq_tx v) with
        | (RecvItem it, c) => (Some it, at_instance (set_tx c) id q)
        | (_, _) => (None, q)
        end
      else (None, q)
  end.

Definition record_stream_served (now : Instant) (model version : string) (w : nat)
    (q : InferenceQueue) : InferenceQueue * list event :=
  match entry (model_version_key model version) q with
  | None => (q, [])
  | Some (id, v) =>
      if vq_count_streams_budget v then
        let sh := {| sh_outlier := vq_outlier v; sh_registry := sequence_registry q;
                     sh_inflight := vq_worker_inflight v; sh_budgets := vq_budgets v |} in
        let '(sh, ev) := check_worker_budget (vq_dispatch v) now w 1 sh in
        (at_instance (fun v => set_vq_budgets (sh_budgets sh) (set_vq_outlier (sh_outlier sh) v))
           id q, ev)
      else (q, [])
  end.

(** The streams in flight on the slots of one version. *)
Definition version_streams (v : VersionQueue) : Z :=
  foldr Z.add 0 (map (stream_inflight (vq_outlier v)) (List.seq 0 (bd_clients (vq_dispatch v)))).

Section iteration.
Context `{MapIter}.

(** The registered versions, in the map's order. *)
Definition entries (q : InferenceQueue) : list VersionQueue :=
  omap (fun ki => instances q !! snd ki) (map_iter (queues q)).

Definition total_stream_inflight (q : InferenceQueue) : Z :=
  foldr Z.add 0 (map version_streams (entries q)).

(** The slots of a version with streams in flight. *)
Definition slots_with_streams (v : VersionQueue) : list nat :=
  List.filter (fun slot => 0 <? stream_inflight (vq_outlier v) slot)
    (List.seq 0 (bd_clients (vq_dispatch v))).

(** [fail_all_streams] and [graceful_cancel_all_streams]: the client calls, one
    per slot with streams in flight, and the counts returned per version. *)
Definition streams_told (q : InferenceQueue)
    : list (string * string * nat) * list (string * string * Z) :=
  (mjoin (map (fun v => map (fun slot => (bd_model (vq_dispatch v), bd_version (vq_dispatch v), slot))
                          (slots_with_streams v)) (entries q)),
   omap (fun v => let n := version_streams v in
           if 0 <? n then Some (bd_model (vq_dispatch v), bd_version (vq_dispatch v), n) else None)
     (entries q)).
End iteration.

Inductive StreamPermitError := StreamingCapacityExceeded.

(** [Ok None] for an unregistered version; [Ok (Some id)] a permit of the instance. *)
Definition try_acquire_stream_permit (model version : string) (q : InferenceQueue)
    : result StreamPermitError (option nat) * InferenceQueue :=
  match entry (model_version_key model version) q with
  | None => (Ok None, q)
  | Some (id, v) =>
      let '(won, c) := try_acquire (vq_stream_concurrency v) in
      let q := at_instance (set_streams c) id q in
      (if won then Ok (Some id) else Err StreamingCapacityExceeded, q)
  end.
