(* ===== verification/QueueProps.v ===== *)
(** * Properties of the inference queue

    Keys are unambiguous; the in-flight counter of every instance, draining ones
    included, is the number of its accepted items still alive; a drained version
    takes no new items, submissions that had already claimed it aside; a refused submission leaves no trace; a client cannot overtake default-priority
    traffic. *)

From S2P Require Import Prelude Text Outlier Sequence Float Pick PickProps.
From S2P Require Import Priority PriorityProps Dispatch Queue.
From Stdlib Require Import Sorted.
Open Scope Z_scope.

(** ** Keys *)

Lemma parse_model_version_key_ok m v :
  has_char nul m = false -> parse_model_version_key (model_version_key m v) = (m, v).
Proof.
  intros Hm. unfold parse_model_version_key, model_version_key.
  rewrite (proj2 (split_once_spec nul _ m v)); done.
Qed.

(** Queue keys are unambiguous for model names without NUL. *)
Theorem model_version_key_roundtrip (m v m' v' : string) :
  has_char nul m = false -> has_char nul m' = false ->
  parse_model_version_key (model_version_key m v) = (m, v) /\
  (model_version_key m v = model_version_key m' v' -> m = m' /\ v = v').
Proof.
  intros Hm Hm'. split; [by apply parse_model_version_key_ok|].
  intros Heq. apply (f_equal parse_model_version_key) in Heq.
  rewrite !parse_model_version_key_ok in Heq by done. by injection Heq.
Qed.

(** ** The operations as a transition system

    Operations of different tasks interleave: a submission can also be taken in its
    three steps, with other operations between them ([QClaim], [QCount], [QPush], the
    last two naming a submission that is under way by its position). *)

Definition begin_submit (now : Instant) (model version : string) (it : QueueItem)
    (q : InferenceQueue) : InferenceQueue :=
  let '(r, q) := submit_claim now model version it q in
  match r with
  | Ok id => set_submitting (submitting q ++ [{| sm_id := id; sm_item := it; sm_counted := false |}]) q
  | Err _ => q
  end.

Definition count_submission (n : nat) (q : InferenceQueue) : InferenceQueue :=
  match submitting q !! n with
  | Some s =>
      if sm_counted s then q
      else set_submitting (<[n := {| sm_id := sm_id s; sm_item := sm_item s; sm_counted := true |}]>
                             (submitting q)) (submit_count (sm_id s) q)
  | None => q
  end.

Definition push_submission (n : nat) (q : InferenceQueue) : InferenceQueue :=
  match submitting q !! n with
  | Some s =>
      if sm_counted s then
        snd (submit_push (sm_item s) (sm_id s) (set_submitting (delete n (submitting q)) q))
      else q
  | None => q
  end.

Inductive queue_op :=
  | QRegister (model version : string) (config : ModelConfig) (clients : nat)
      (outlier : OutlierState) (respawn : bool) (offsets : nat -> Z)
  | QDrain (model version : string)
  | QSubmit (now : Instant) (model version : string) (it : QueueItem)
  | QTake (id : nat)
  | QItemDone (id : nat)
  | QStreamServed (now : Instant) (model version : string) (w : nat)
  | QDrainAbort (id : nat)
  | QStreamPermit (model version : string)
  | QClaim (now : Instant) (model version : string) (it : QueueItem)
  | QCount (n : nat)
  | QPush (n : nat).

Definition queue_apply (o : queue_op) (q : InferenceQueue) : InferenceQueue :=
  match o with
  | QRegister m v c n out r offs => register_model m v c n out r offs q
  | QDrain m v => snd (begin_drain m v q)
  | QSubmit now m v it => snd (try_submit now m v it q)
  | QTake id => snd (collector_take id q)
  | QItemDone id => guard_drop id q
  | QStreamServed now m v w => fst (record_stream_served now m v w q)
  | QDrainAbort id => drain_abort id q
  | QStreamPermit m v => snd (try_acquire_stream_permit m v q)
  | QClaim now m v it => begin_submit now m v it q
  | QCount n => count_submission n q
  | QPush n => push_submission n q
  end.

Definition queue_run (ops : list queue_op) (q : InferenceQueue) : InferenceQueue :=
  foldl (fun q o => queue_apply o q) q ops.

(** The accepted items of an instance that are still alive. *)
Definition alive (id : nat) (q : InferenceQueue) : nat := count_if (Nat.eqb id) (guards q).

(** The submissions to an instance that are under way and not counted yet. *)
Definition uncounted (id : nat) (q : InferenceQueue) : nat :=
  count_if (fun s => Nat.eqb id (sm_id s) && negb (sm_counted s)) (submitting q).

(** ** Invariant *)

Record queue_ok (q : InferenceQueue) : Prop := {
  qo_range : forall k id, queues q !! k = Some id -> (id < length (instances q))%nat;
  qo_guards : Forall (fun id => (id < length (instances q))%nat) (guards q);
  qo_count : forall id v, instances q !! id = Some v ->
    vq_inflight_requests v = wrap64 (Z.of_nat (alive id q));
  qo_inj : forall k k' id, queues q !! k = Some id -> queues q !! k' = Some id -> k = k';
  qo_senders : Forall (fun v => in_usize (senders (vq_tx v))) (instances q);
  qo_submitting : Forall (fun s => (sm_id s < length (instances q))%nat) (submitting q);
}.

Lemma wrap64_pred x : wrap64 (wrap64 x - 1) = wrap64 (x - 1).
Proof. unfold wrap64. apply Zminus_mod_idemp_l. Qed.

Lemma wrap64_succ x : wrap64 (wrap64 x + 1) = wrap64 (x + 1).
Proof. unfold wrap64. apply Zplus_mod_idemp_l. Qed.

Lemma remove_guard_count id j l :
  id ∈ l ->
  (count_if (Nat.eqb j) (remove_guard id l) + (if Nat.eqb j id then 1 else 0)
   = count_if (Nat.eqb j) l)%nat.
Proof.
  induction l as [|x l IH]; intros Hin; [by apply elem_of_nil in Hin|]. simpl.
  destruct (Nat.eqb_spec x id) as [->|Hne].
  - rewrite count_if_cons. destruct (Nat.eqb j id); lia.
  - apply elem_of_cons in Hin as [->|Hin]; [done|]. rewrite !count_if_cons.
    specialize (IH Hin). lia.
Qed.

Lemma remove_guard_Forall P id l : Forall P l -> Forall P (remove_guard id l).
Proof.
  induction 1 as [|x l Hx Hl IH]; [constructor|]. simpl. destruct (Nat.eqb x id); [done|].
  by constructor.
Qed.

Lemma Forall_alter_id {A} (P : A -> Prop) f i (l : list A) :
  Forall P l -> (forall x, P x -> P (f x)) -> Forall P (alter f i l).
Proof. intros Hl Hf. apply Forall_alter; [done|]. intros x _ Hx. by apply Hf. Qed.

(** What a change of an instance must leave alone: the counter, and that the number of
    senders is one. *)
Definition harmless (f : VersionQueue -> VersionQueue) : Prop :=
  forall v, vq_inflight_requests (f v) = vq_inflight_requests v /\
    (in_usize (senders (vq_tx v)) -> in_usize (senders (vq_tx (f v)))).

Lemma queue_ok_at f id q : harmless f -> queue_ok q -> queue_ok (at_instance f id q).
Proof.
  intros Hf [Hr Hg Hc Hi Hs Hb]. split; simpl; rewrite ?length_alter; [done|done| |done| |done].
  - intros j v Hj. destruct (decide (j = id)) as [->|Hne].
    + rewrite list_lookup_alter_eq in Hj. apply fmap_Some in Hj as (v0 & Hv0 & ->).
      rewrite (proj1 (Hf _)). by apply Hc.
    + rewrite list_lookup_alter_ne in Hj by done. by apply Hc.
  - apply Forall_alter_id; [done|]. intros v. apply Hf.
Qed.

Lemma harmless_outlier o : harmless (set_vq_outlier o). Proof. done. Qed.
Lemma harmless_budgets b f : harmless f -> harmless (fun v => set_vq_budgets b (f v)).
Proof. intros Hf v. apply (Hf v). Qed.
Lemma harmless_streams c : harmless (set_streams c). Proof. done. Qed.
Lemma harmless_abort : harmless abort_tasks. Proof. done. Qed.
Lemma harmless_drop : harmless drop_tx. Proof. intros v. split; [done|]. intros _. apply wrap64_range. Qed.
Lemma harmless_clone : harmless clone_tx. Proof. intros v. split; [done|]. intros _. apply wrap64_range. Qed.

#[local] Hint Resolve harmless_outlier harmless_budgets harmless_streams harmless_abort
  harmless_drop harmless_clone : lite.

Lemma try_send_senders {A} (x : A) p c : senders (snd (try_send x p c)) = senders c.
Proof. unfold try_send. by case_goal. Qed.

Lemma recv_senders {A} (c : PriorityInner A) : senders (snd (recv c)) = senders c.
Proof. unfold recv. destruct (take_max _) as [[m r]|]; [done|]. by case_goal. Qed.

(** A channel that its instance's senders refer to. *)
Lemma harmless_tx c v q id :
  queue_ok q -> instances q !! id = Some v -> senders c = senders (vq_tx v) -> harmless (set_tx c).
Proof.
  intros Hok Hv Hc w. split; [done|]. intros _. simpl. rewrite Hc.
  exact (proj1 (Forall_lookup _ _) (qo_senders _ Hok) _ _ Hv).
Qed.

(** Taking keys out of the map. *)
Lemma queue_ok_delete k q : queue_ok q -> queue_ok (set_queues (delete k (queues q)) q).
Proof.
  intros [Hr Hg Hc Hi Hs Hb]. split; simpl; [|done|done| |done|done].
  - intros k' id [_ Hk]%lookup_delete_Some. by eapply Hr.
  - intros k1 k2 id [_ H1]%lookup_delete_Some [_ H2]%lookup_delete_Some. by eapply Hi.
Qed.

Lemma queue_ok_submitting l q :
  queue_ok q -> Forall (fun s => (sm_id s < length (instances q))%nat) l -> queue_ok (set_submitting l q).
Proof. by intros [] Hl; split. Qed.

(** One more guard of an instance, counted. *)
Lemma queue_ok_count id q :
  (id < length (instances q))%nat -> queue_ok q -> queue_ok (submit_count id q).
Proof.
  intros Hid [Hr Hg Hc Hi Hs Hb]. unfold submit_count.
  split; simpl; rewrite ?length_alter; [done|by constructor| |done| |done].
  - intros j v Hj. unfold alive. simpl. rewrite count_if_cons.
    destruct (decide (j = id)) as [->|Hne].
    + rewrite list_lookup_alter_eq in Hj. apply fmap_Some in Hj as (v0 & Hv0 & ->). simpl.
      rewrite (Hc _ _ Hv0), Nat.eqb_refl. unfold fetch_add. rewrite wrap64_succ.
      unfold alive. f_equal. lia.
    + rewrite list_lookup_alter_ne in Hj by done. rewrite (Hc _ _ Hj).
      by rewrite (proj2 (Nat.eqb_neq _ _) Hne).
  - by apply Forall_alter_id.
Qed.

Lemma queue_ok_guard_drop id q : queue_ok q -> queue_ok (guard_drop id q).
Proof.
  intros Hok. unfold guard_drop. destruct (decide (id ∈ guards q)) as [Hin|]; [|done].
  destruct Hok as [Hr Hg Hc Hi Hs Hb]. split; simpl; rewrite ?length_alter; [done| | |done| |done].
  { by apply remove_guard_Forall. }
  2: by apply Forall_alter_id.
  intros j v Hj. unfold alive. simpl. pose proof (remove_guard_count id j _ Hin) as Hn.
  destruct (decide (j = id)) as [->|Hne].
  - rewrite list_lookup_alter_eq in Hj. apply fmap_Some in Hj as (v0 & Hv0 & ->). simpl.
    rewrite (Hc _ _ Hv0). rewrite Nat.eqb_refl in Hn. unfold fetch_sub. rewrite wrap64_pred.
    unfold alive. f_equal. lia.
  - rewrite list_lookup_alter_ne in Hj by done. rewrite (Hc _ _ Hj).
    rewrite (proj2 (Nat.eqb_neq _ _) Hne) in Hn. unfold alive. do 2 f_equal. lia.
Qed.

Lemma entry_Some k q id v :
  entry k q = Some (id, v) <-> queues q !! k = Some id /\ instances q !! id = Some v.
Proof.
  unfold entry. destruct (queues q !! k) as [i|]; [|by split; [|intros [? _]]].
  destruct (instances q !! i) as [w|] eqn:Hi.
  - split; [by intros [= -> ->]|]. intros [[= ->] Hv]. congruence.
  - split; [done|]. intros [[= ->] Hv]. congruence.
Qed.

Lemma queue_ok_new : queue_ok queue_new.
Proof. split; simpl; [by intros ?? ?|constructor|by intros ?? ?|by intros ??? ?|constructor..]. Qed.

Lemma queue_ok_register m v c n o r offs q :
  queue_ok q -> queue_ok (register_model m v c n o r offs q).
Proof.
  intros Hok. unfold register_model. set (key := model_version_key m v).
  set (q1 := match queues q !! key with Some id => _ | None => q end).
  assert (Hok1 : queue_ok q1 /\ queues q1 !! key = None).
  { unfold q1. destruct (queues q !! key) eqn:Hk; [|done]. split.
    - apply queue_ok_at; [|by apply queue_ok_delete].
      intros w. split; [done|]. intros _. apply wrap64_range.
    - simpl. apply lookup_delete_eq. }
  clearbody q1. destruct Hok1 as [[Hr Hg Hc Hi Hs Hb] Hnone]. split; simpl.
  - intros k id Hk. rewrite length_app. simpl. apply lookup_insert_Some in Hk as [[_ <-]|[_ Hk]]; [lia|].
    apply Hr in Hk. lia.
  - rewrite length_app. eapply Forall_impl; [exact Hg|]. simpl. lia.
  - intros id w. rewrite lookup_snoc_Some. intros [[_ Hw]|[-> <-]]; [by apply Hc|]. simpl.
    unfold alive. simpl. replace (count_if _ _) with 0%nat; [done|].
    rewrite Forall_forall in Hg. unfold count_if. symmetry. apply length_zero_iff_nil.
    destruct (List.filter _ _) as [|x l] eqn:Hf; [done|]. exfalso.
    assert (In x (List.filter (Nat.eqb (length (instances q1))) (guards q1))) as Hx
      by (rewrite Hf; by left).
    apply filter_In in Hx as [Hx Heq]. apply Nat.eqb_eq in Heq. subst x.
    apply list_elem_of_In in Hx. apply Hg in Hx. lia.
  - intros k k' id Hk Hk'. apply lookup_insert_Some in Hk as [[<- <-]|[Hn Hk]];
      apply lookup_insert_Some in Hk' as [[<- ?]|[Hn' Hk']]; try done.
    + apply Hr in Hk'. lia.
    + subst. apply Hr in Hk. lia.
    + by eapply Hi.
  - apply Forall_app. split; [done|]. repeat constructor; simpl; unfold usize_max; lia.
  - rewrite length_app. eapply Forall_impl; [exact Hb|]. simpl. lia.
Qed.

Lemma queue_ok_drain m v q : queue_ok q -> queue_ok (snd (begin_drain m v q)).
Proof.
  intros Hok. unfold begin_drain. destruct (queues q !! _); [|done]. simpl.
  apply queue_ok_at; [auto with lite|]. by apply queue_ok_delete.
Qed.

Lemma claim_ok now m v it q r q' :
  queue_ok q -> submit_claim now m v it q = (r, q') ->
  queue_ok q' /\ length (instances q') = length (instances q) /\ submitting q' = submitting q /\
  match r with Ok id => queues q !! model_version_key m v = Some id | Err _ => True end.
Proof.
  intros Hok. unfold submit_claim. destruct (entry _ q) as [[id w]|] eqn:He; [|by intros [= <- <-]].
  apply entry_Some in He as [Hk _].
  assert (Hout : forall o, queue_ok (at_instance (set_vq_outlier o) id q))
    by (intros o; apply queue_ok_at; auto with lite).
  destruct (check_pin now it w) as [[u|e] o];
    [destruct (all_dead o)|]; intros [= <- <-]; (split; [|split_and!; simpl; by rewrite ?length_alter]); try done.
  apply queue_ok_at; auto with lite.
Qed.

Lemma queue_ok_push it id q : queue_ok q -> queue_ok (snd (submit_push it id q)).
Proof.
  intros Hok. unfold submit_push. destruct (instances q !! id) as [v|] eqn:Hv; [|done].
  pose proof (try_send_senders it (item_priority it) (vq_tx v)) as Hc.
  destruct (try_send it (item_priority it) (vq_tx v)) as [[u|e] c]; simpl in Hc |- *;
    (apply queue_ok_at; [auto with lite|]); [|by apply queue_ok_guard_drop].
  apply queue_ok_at; [by eapply harmless_tx|done].
Qed.

Lemma queue_ok_submit now m v it q : queue_ok q -> queue_ok (snd (try_submit now m v it q)).
Proof.
  intros Hok. unfold try_submit. destruct (submit_claim now m v it q) as [r q'] eqn:Hc.
  apply claim_ok in Hc as (Hok' & Hlen & _ & Hid); [|done]. destruct r as [id|e]; [|done].
  apply queue_ok_push, queue_ok_count; [|done]. rewrite Hlen. by eapply qo_range.
Qed.

Lemma queue_ok_apply o q : queue_ok q -> queue_ok (queue_apply o q).
Proof.
  intros Hok. destruct o; simpl.
  - by apply queue_ok_register.
  - by apply queue_ok_drain.
  - by apply queue_ok_submit.
  - unfold collector_take. destruct (instances q !! id) as [v|] eqn:Hv; [|done].
    destruct (vq_collecting v); [|done]. pose proof (recv_senders (vq_tx v)) as Hc.
    destruct (recv _) as [[] ?]; try done. apply queue_ok_at; [by eapply harmless_tx|done].
  - by apply queue_ok_guard_drop.
  - unfold record_stream_served. destruct (entry _ q) as [[id v]|]; [|done].
    case_goal; [|done]. destruct (check_worker_budget _ _ _ _ _). apply queue_ok_at; [done|done].
  - apply queue_ok_at; auto with lite.
  - unfold try_acquire_stream_permit. destruct (entry _ q) as [[id v]|]; [|done].
    destruct (try_acquire _). apply queue_ok_at; auto with lite.
  - unfold begin_submit. destruct (submit_claim now model version it q) as [r q'] eqn:Hc.
    apply claim_ok in Hc as (Hok' & Hlen & Hsub & Hid); [|done]. destruct r as [id|e]; [|done].
    apply queue_ok_submitting; [done|]. apply Forall_app. split; [apply Hok'|]. repeat constructor. simpl.
    rewrite Hlen. by eapply qo_range.
  - unfold count_submission. destruct (submitting q !! n) as [s|] eqn:Hn; [|done].
    destruct (sm_counted s); [done|].
    pose proof (proj1 (Forall_lookup _ _) (qo_submitting _ Hok) _ _ Hn) as Hid.
    apply queue_ok_submitting; [by apply queue_ok_count|]. simpl. rewrite length_alter.
    apply Forall_insert; [apply Hok|done].
  - unfold push_submission. destruct (submitting q !! n) as [s|] eqn:Hn; [|done].
    destruct (sm_counted s); [|done]. apply queue_ok_push, queue_ok_submitting; [done|].
    apply Forall_delete. apply Hok.
Qed.

Lemma queue_ok_run ops q : queue_ok q -> queue_ok (queue_run ops q).
Proof.
  revert q. induction ops as [|o ops IH]; intros q Hok; [done|]. apply IH. by apply queue_ok_apply.
Qed.

(** ** Counting and draining *)

(** C4. After any sequence of queue operations the in-flight counter of every
    registered instance, draining ones included, equals the number of its accepted
    items still alive, and [wait_idle] returns exactly when there is none. *)
Theorem in_flight_counts_accepted (ops : list queue_op) (id : nat) (v : VersionQueue) :
  let q := queue_run ops queue_new in
  instances q !! id = Some v -> Z.of_nat (length (guards q)) <= usize_max ->
  vq_inflight_requests v = Z.of_nat (alive id q) /\
  (is_idle id q = true <-> alive id q = 0%nat).
Proof.
  intros q Hv Hlen. pose proof (queue_ok_run ops _ queue_ok_new) as Hok. fold q in Hok.
  pose proof (qo_count _ Hok _ _ Hv) as Hc.
  pose proof (count_if_le_length (Nat.eqb id) (guards q)) as Hle. unfold alive in *.
  rewrite wrap64_small in Hc by (unfold in_usize; lia).
  split; [done|]. unfold is_idle. rewrite Hv, Hc.
  destruct (Z.ltb_spec 0 (Z.of_nat (count_if (Nat.eqb id) (guards q)))); simpl; split; (done || lia).
Qed.

(** An instance no key leads to any more. *)
Definition retired (id : nat) (q : InferenceQueue) : Prop :=
  (id < length (instances q))%nat /\ forall k, queues q !! k <> Some id.

(** What an instance is still to finish: its accepted items, and the submissions that took
    its counter and have not raised it yet. *)
Definition outstanding (id : nat) (q : InferenceQueue) : nat := alive id q + uncounted id q.

Lemma alive_guard_drop id j q : (alive j (guard_drop id q) <= alive j q)%nat.
Proof.
  unfold guard_drop. destruct (decide (id ∈ guards q)) as [Hin|]; [|done].
  unfold alive. simpl. pose proof (remove_guard_count id j _ Hin). lia.
Qed.

(** An operation that gives no key to [id] and adds nothing to what [id] has to finish. *)
Definition adds_nothing (id : nat) (q q' : InferenceQueue) : Prop :=
  retired id q' /\ (outstanding id q' <= outstanding id q)%nat.

Lemma adds_nothing_refl id q : retired id q -> adds_nothing id q q.
Proof. by split. Qed.

Lemma adds_nothing_trans id q1 q2 q3 :
  adds_nothing id q1 q2 -> adds_nothing id q2 q3 -> adds_nothing id q1 q3.
Proof. intros [] []. split; [done|lia]. Qed.

Lemma adds_nothing_at f i id q : retired id q -> adds_nothing id q (at_instance f i q).
Proof. intros [Hlt Hk]. split; [|done]. split; simpl; [by rewrite length_alter|done]. Qed.

Lemma adds_nothing_delete k id q :
  retired id q -> adds_nothing id q (set_queues (delete k (queues q)) q).
Proof.
  intros [Hlt Hk]. split; [|done]. split; [done|]. simpl. intros k' [_ Hd]%lookup_delete_Some.
  by eapply Hk.
Qed.

Lemma adds_nothing_guard_drop i id q : retired id q -> adds_nothing id q (guard_drop i q).
Proof.
  intros [Hlt Hk]. pose proof (alive_guard_drop i id q) as Ha. split.
  - unfold guard_drop. case_goal; [|done]. split; simpl; [by rewrite length_alter|done].
  - unfold outstanding. replace (uncounted id (guard_drop i q)) with (uncounted id q); [lia|].
    unfold guard_drop. by case_goal.
Qed.

Lemma adds_nothing_push it i id q : retired id q -> adds_nothing id q (snd (submit_push it i q)).
Proof.
  intros Hr. unfold submit_push. destruct (instances q !! i); [|by apply adds_nothing_refl].
  destruct (try_send _ _ _) as [[u|e] c]; simpl; (eapply adds_nothing_trans; [|apply adds_nothing_at]).
  1,2: by apply adds_nothing_at.
  - by apply adds_nothing_guard_drop.
  - by apply adds_nothing_guard_drop.
Qed.

Lemma adds_nothing_count i id q : i <> id -> retired id q -> adds_nothing id q (submit_count i q).
Proof.
  intros Hne [Hlt Hk]. split; [split; simpl; [by rewrite length_alter|done]|].
  unfold outstanding, alive. simpl. rewrite count_if_cons.
  by rewrite (proj2 (Nat.eqb_neq _ _) (not_eq_sym Hne)).
Qed.

Lemma retired_claim now m v it id q r q' :
  retired id q -> submit_claim now m v it q = (r, q') ->
  adds_nothing id q q' /\ match r with Ok i => i <> id | Err _ => True end.
Proof.
  intros Hr. unfold submit_claim. destruct (entry _ q) as [[i w]|] eqn:He.
  2:{ intros [= <- <-]. split; [by apply adds_nothing_refl|done]. }
  apply entry_Some in He as [Hk _].
  assert (Hi : i <> id) by (intros ->; by eapply (proj2 Hr)).
  destruct (check_pin now it w) as [[u|e] o];
    [destruct (all_dead o)|]; intros [= <- <-]; (split; [|done]); try by apply adds_nothing_at.
  eapply adds_nothing_trans; by repeat apply adds_nothing_at.
Qed.

Lemma uncounted_snoc id s l q :
  uncounted id (set_submitting (l ++ [s]) q)
  = (uncounted id (set_submitting l q) + (if Nat.eqb id (sm_id s) && negb (sm_counted s) then 1 else 0))%nat.
Proof. unfold uncounted. simpl. rewrite count_if_app, count_if_cons. apply f_equal, Nat.add_0_r. Qed.

(** A submission counted for the drained instance was outstanding before. *)
Lemma adds_nothing_count_submission n id q :
  retired id q -> adds_nothing id q (count_submission n q).
Proof.
  intros Hr. unfold count_submission.
  destruct (submitting q !! n) as [[i it c]|] eqn:Hn; [|by apply adds_nothing_refl]. simpl.
  destruct c; [by apply adds_nothing_refl|]. pose proof Hr as [Hlt Hk].
  split; [split; simpl; [by rewrite length_alter|done]|].
  unfold outstanding, alive, uncounted. simpl. rewrite count_if_cons.
  pose proof (count_if_insert (fun s => Nat.eqb id (sm_id s) && negb (sm_counted s)) n
    {| sm_id := i; sm_item := it; sm_counted := true |} _ _ Hn) as Hins.
  simpl in Hins. rewrite andb_true_r, andb_false_r in Hins. destruct (Nat.eqb id i); lia.
Qed.

Lemma adds_nothing_push_submission n id q :
  retired id q -> adds_nothing id q (push_submission n q).
Proof.
  intros Hr. unfold push_submission.
  destruct (submitting q !! n) as [s|] eqn:Hn; [|by apply adds_nothing_refl].
  destruct (sm_counted s) eqn:Hc; [|by apply adds_nothing_refl].
  eapply adds_nothing_trans; [|apply adds_nothing_push; by apply Hr].
  split; [by apply Hr|]. unfold outstanding, alive, uncounted. simpl.
  rewrite <- (count_if_delete _ _ _ _ Hn). lia.
Qed.

Lemma retired_apply o id q : retired id q -> adds_nothing id q (queue_apply o q).
Proof.
  intros Hr. destruct o; simpl; try by apply adds_nothing_at.
  - unfold register_model. set (key := model_version_key _ _).
    set (q1 := match queues q !! key with Some i => _ | None => q end).
    apply adds_nothing_trans with q1.
    { unfold q1. destruct (queues q !! key); [|by apply adds_nothing_refl].
      eapply adds_nothing_trans; [by apply adds_nothing_delete|]. apply adds_nothing_at.
      by apply adds_nothing_delete. }
    assert (Hr1 : retired id q1).
    { unfold q1. destruct (queues q !! key); [|done]. apply adds_nothing_at. by apply adds_nothing_delete. }
    clearbody q1. destruct Hr1 as [Hlt Hk]. split; [|done]. split; simpl.
    + rewrite length_app. simpl. lia.
    + intros k [[_ He]|[_ He]]%lookup_insert_Some; [lia|]. by eapply Hk.
  - unfold begin_drain. destruct (queues q !! _); [|by apply adds_nothing_refl]. simpl.
    eapply adds_nothing_trans; [by apply adds_nothing_delete|]. apply adds_nothing_at.
    by apply adds_nothing_delete.
  - unfold try_submit. destruct (submit_claim now model version it q) as [r q'] eqn:Hc.
    apply (retired_claim _ _ _ _ id) in Hc as [Ha Hi]; [|done]. destruct r as [i|e]; [|done].
    eapply adds_nothing_trans; [exact Ha|].
    pose proof (adds_nothing_count i id q' Hi (proj1 Ha)) as Hcount.
    eapply adds_nothing_trans; [exact Hcount|]. apply adds_nothing_push, Hcount.
  - unfold collector_take. destruct (instances q !! id0); [|by apply adds_nothing_refl].
    destruct (vq_collecting _); [|by apply adds_nothing_refl].
    destruct (recv _) as [[] ?]; (by apply adds_nothing_refl) || by apply adds_nothing_at.
  - by apply adds_nothing_guard_drop.
  - unfold record_stream_served. destruct (entry _ q) as [[i v]|]; [|by apply adds_nothing_refl].
    case_goal; [|by apply adds_nothing_refl]. destruct (check_worker_budget _ _ _ _ _).
    by apply adds_nothing_at.
  - unfold try_acquire_stream_permit. destruct (entry _ q) as [[i v]|]; [|by apply adds_nothing_refl].
    destruct (try_acquire _). by apply adds_nothing_at.
  - unfold begin_submit. destruct (submit_claim now model version it q) as [r q'] eqn:Hc.
    apply (retired_claim _ _ _ _ id) in Hc as [Ha Hi]; [|done]. destruct r as [i|e]; [|done].
    eapply adds_nothing_trans; [exact Ha|]. split; [by apply Ha|].
    unfold outstanding. rewrite uncounted_snoc. simpl.
    by rewrite (proj2 (Nat.eqb_neq _ _) (not_eq_sym Hi)), Nat.add_0_r.
  - by apply adds_nothing_count_submission.
  - by apply adds_nothing_push_submission.
Qed.

Lemma retired_run ops id q : retired id q -> adds_nothing id q (queue_run ops q).
Proof.
  revert q. induction ops as [|o ops IH]; intros q Hr; [by apply adds_nothing_refl|].
  pose proof (retired_apply o id q Hr) as Ha. eapply adds_nothing_trans; [exact Ha|].
  apply IH, Ha.
Qed.

(** C5. A drained version takes no new items, although a submission is three steps
    (the claim of sender and counter under the map's lock, the count, the push):
    from begin_drain on every claim and every submission for it is refused as not
    found without a trace, the drain leaves the accepted items that are counted and
    the submissions that have claimed but not yet counted as they were, whatever
    happens afterwards (not even registering the same version again) their sum does
    not grow, and once there are none of either the drained instance is idle
    forever. (A submission that claimed before the drain may still be counted and
    pushed.) *)
Theorem drain_takes_no_new_items (before after : list queue_op) (m v : string) (id : nat)
    (q' : InferenceQueue) :
  let q := queue_run before queue_new in
  begin_drain m v q = (Some id, q') ->
  (forall now it, fst (submit_claim now m v it q') = Err QNotFound /\
    try_submit now m v it q' = (Err QNotFound, q')) /\
  (alive id q' = alive id q /\ uncounted id q' = uncounted id q) /\
  (alive id (queue_run after q') + uncounted id (queue_run after q') <= alive id q' + uncounted id q')%nat /\
  (alive id q' = 0%nat -> uncounted id q' = 0%nat -> is_idle id (queue_run after q') = true).
Proof.
  intros q Hd. pose proof (queue_ok_run before _ queue_ok_new) as Hok. fold q in Hok.
  pose proof (queue_ok_drain m v q Hok) as Hok'. rewrite Hd in Hok'. simpl in Hok'.
  unfold begin_drain in Hd. set (key := model_version_key m v) in *.
  destruct (queues q !! key) as [i|] eqn:Hk; [|done]. injection Hd as -> <-.
  set (q' := at_instance drop_tx id _) in *.
  assert (Hret : retired id q').
  { split; simpl; [rewrite length_alter; by eapply qo_range|].
    intros k [Hne Hk']%lookup_delete_Some. apply Hne. by apply (qo_inj _ Hok _ _ id). }
  destruct (retired_run after id q' Hret) as [_ Hle]. unfold outstanding in Hle.
  split_and!; [|done|done|done|].
  - intros now it. unfold try_submit, submit_claim, entry. fold key. simpl. by rewrite lookup_delete_eq.
  - intros Hz Hu. unfold is_idle. destruct (instances (queue_run after q') !! id) as [w|] eqn:Hw; [|done].
    rewrite (qo_count _ (queue_ok_run after _ Hok') _ _ Hw).
    replace (alive id (queue_run after q')) with 0%nat by lia. done.
Qed.

(** ** Refused and accepted submissions *)

(** Instances that differ at most in what probing the pinned slot does to the
    outlier state. *)
Definition same_but_probe (v v' : VersionQueue) : Prop :=
  v' = set_vq_outlier (vq_outlier v') v.

Lemma remove_guard_head id l : remove_guard id (id :: l) = l.
Proof. simpl. by rewrite Nat.eqb_refl. Qed.

(** A refused submission (unknown version, bad pin, no live worker, full queue)
    leaves no trace: the map, the live guards and every instance (channel, counters,
    budgets, stream permits, tasks) are as before, apart from what probing the
    pinned slot does to the outlier state. *)
Theorem refused_submission_leaves_no_trace (ops : list queue_op) (now : Instant) (m v : string)
    (it : QueueItem) (e : QueueError) (q' : InferenceQueue) :
  let q := queue_run ops queue_new in
  try_submit now m v it q = (Err e, q') ->
  guards q' = guards q /\ queues q' = queues q /\ submitting q' = submitting q /\
  Forall2 same_but_probe (instances q) (instances q').
Proof.
  intros q. pose proof (queue_ok_run ops _ queue_ok_new) as Hok. fold q in Hok. clearbody q.
  assert (Hrefl : forall l, Forall2 same_but_probe l l).
  { intros l. apply Forall2_same_length_lookup. split; [done|]. intros ? []. by intros; simplify_eq. }
  assert (Hat : forall f i l, (forall x, l !! i = Some x -> same_but_probe x (f x)) ->
    Forall2 same_but_probe l (alter f i l)).
  { intros f i l Hf. apply Forall2_same_length_lookup. split; [by rewrite length_alter|].
    intros j x y Hx Hy. destruct (decide (i = j)) as [<-|Hne].
    - rewrite list_lookup_alter_eq, Hx in Hy. injection Hy as <-. by apply Hf.
    - rewrite list_lookup_alter_ne in Hy by done. simplify_eq. by destruct x. }
  unfold try_submit, submit_claim. destruct (entry _ q) as [[id w]|] eqn:He; [|by intros [= <- <-]].
  apply entry_Some in He as [_ Hw].
  destruct (check_pin now it w) as [[u|e'] o].
  2:{ intros [= <- <-]. split_and!; [done|done|done|]. by apply Hat. }
  destruct (all_dead o). { intros [= <- <-]. split_and!; [done|done|done|]. by apply Hat. }
  unfold submit_push, submit_count, at_instance. simpl. rewrite !list_alter_twice, list_lookup_alter_eq, Hw.
  simpl. unfold try_send. case_goal; [|done]. intros [= <- <-].
  unfold guard_drop. rewrite decide_True by (simpl; left).
  cbn [guards queues submitting set_guards at_instance set_instances instances].
  rewrite remove_guard_head. split_and!; [done|done|done|].
  rewrite !list_alter_twice. apply Hat. intros x Hx. rewrite Hw in Hx. injection Hx as <-.
  pose proof (proj1 (Forall_lookup _ _) (qo_senders _ Hok) _ _ Hw) as Hs.
  pose proof (qo_count _ Hok _ _ Hw) as Hn.
  destruct w as [[]]. unfold same_but_probe, drop_tx, clone_tx, set_requests, set_tx, set_vq_outlier,
    drop_sender, clone_sender, fetch_sub, fetch_add in *. simpl in *. do 2 f_equal.
  - rewrite wrap64_pred, Z.add_simpl_r. by apply wrap64_small.
  - by rewrite Hn, wrap64_succ, wrap64_pred, Z.add_simpl_r.
Qed.

Lemma insert_split {A} p (x : A) q :
  StronglySorted (fun a b => fst b <= fst a) q ->
  exists pre post, q = pre ++ post /\ Spec.insert p x q = pre ++ (p, x) :: post /\
    Forall (fun e => p <= fst e) pre /\ Forall (fun e => fst e < p) post.
Proof.
  induction q as [|[p' y] q IH]; intros Hs; simpl.
  { exists [], []. by split_and!. }
  apply StronglySorted_inv in Hs as [Hs Hle]. destruct (Z.leb_spec p p').
  - destruct (IH Hs) as (pre & post & -> & -> & Hpre & Hpost).
    exists ((p', y) :: pre), post. split_and!; try done. by constructor.
  - exists [], ((p', y) :: q). split_and!; try done. constructor; [done|].
    eapply Forall_impl; [exact Hle|]. simpl. lia.
Qed.

Lemma chan_refines_sorted {A} (c : PriorityInner A) ql :
  chan_refines c ql -> StronglySorted (fun a b => fst b <= fst a) ql.
Proof.
  intros (os & _ & Hs & ->). induction Hs as [|o os Hs IH Ho]; simpl; constructor; [done|].
  apply Forall_fmap. eapply Forall_impl; [exact Ho|]. intros b. unfold before. simpl. lia.
Qed.

(** An accepted item enters the dispatch order behind every pending item of at least
    its priority, and its priority is never above the default: a client header can
    only defer a request, not overtake ordinary traffic. *)
Theorem accepted_item_preempts_no_default (now : Instant) (m v : string) (it : QueueItem)
    (q q' : InferenceQueue) (id : nat) (w : VersionQueue) (pending : list (Z * QueueItem)) :
  entry (model_version_key m v) q = Some (id, w) ->
  chan_ok (vq_tx w) -> chan_refines (vq_tx w) pending ->
  try_submit now m v it q = (Ok tt, q') ->
  exists w' ahead behind, instances q' !! id = Some w' /\ pending = ahead ++ behind /\
    chan_refines (vq_tx w') (ahead ++ (item_priority it, it) :: behind) /\
    item_priority it <= 0 /\ Forall (fun e => fst e < item_priority it) behind.
Proof.
  intros He Hok Href. unfold try_submit, submit_claim. rewrite He. apply entry_Some in He as [_ Hw].
  destruct (check_pin now it w) as [[u|e'] o]; [|done].
  destruct (all_dead o); [done|].
  unfold submit_push, submit_count, at_instance. simpl. rewrite !list_alter_twice, list_lookup_alter_eq, Hw.
  pose proof (try_send_refines it (item_priority it) (clone_sender (vq_tx w)) pending
    ltac:(by destruct Hok) Href) as Hsend.
  simpl. destruct (try_send it (item_priority it) (clone_sender (vq_tx w))) as [[u'|e] c]; [|done].
  destruct Hsend as [_ Hsend]. intros [= <-].
  destruct (insert_split (item_priority it) it pending (chan_refines_sorted _ _ Href))
    as (pre & post & Hq & Hins & _ & Hpost).
  eexists _, pre, post. simpl. rewrite !list_alter_twice, list_lookup_alter_eq, Hw. simpl.
  split_and!; [done|done|by rewrite <- Hins| |done].
  unfold item_priority. case_goal; lia.
Qed.

Definition demo_config : ModelConfig :=
  {| mc_max_queue_size := 1; mc_max_requests := 0; mc_max_requests_jitter := 0;
     mc_count_streams_toward_max_requests := false; mc_max_concurrent_streams := 0;
     mc_health_check_interval := 0 |}.

(** *** An item lost between its claim and its count

    A submission holds a sender and the counter of a version that is then drained: the
    drain sees nothing in flight and the collector is aborted, and only then is the item
    counted and accepted.  Its caller is told it was accepted; no collector takes it. *)
Definition late_ops : list queue_op :=
  [QRegister "m" "1" demo_config 2 (with_config 2 EjectionConfig_default) false (fun _ => 0)].

Lemma late_submission_lost (it : QueueItem) :
  let q0 := queue_run late_ops queue_new in
  direct_pin it = None ->
  exists q1, begin_drain "m" "1" (begin_submit 0 "m" "1" it q0) = (Some 0%nat, q1) /\
    is_idle 0 q1 = true /\
    let q2 := queue_run [QDrainAbort 0; QCount 0] q1 in
    let q3 := push_submission 0 q2 in
    fst (submit_push it 0 (set_submitting [] q2)) = Ok tt /\
    alive 0 q3 = 1%nat /\ (map item ∘ heap ∘ vq_tx <$> instances q3 !! 0%nat) = Some [it] /\
    collector_take 0 q3 = (None, q3).
Proof.
  intros q0 Hpin. unfold begin_submit, submit_claim, check_pin. rewrite Hpin.
  eexists. split; [vm_compute; reflexivity|]. by vm_compute.
Qed.

(** ** The theorems at concrete inputs *)

Lemma model_version_key_witness :
  parse_model_version_key (model_version_key "resnet" "1.2") = ("resnet", "1.2") /\
  (model_version_key "resnet" "1.2" = model_version_key "resnet1" ".2" ->
   "resnet" = "resnet1" /\ "1.2" = ".2").
Proof. apply (model_version_key_roundtrip "resnet" "1.2" "resnet1" ".2"); reflexivity. Defined.

Definition queue_item (c : nat) : QueueItem :=
  {| qi_chan := c; qi_uid := "u"; qi_data := ""; qi_enqueued_at := 0; qi_is_warmup := false;
     qi_meta := Some {| meta_sequence_id := None;
                        meta_headers := {[ "x-lite-priority" := "7" ]} |} |}.

(** A registered version with one accepted item. *)
Definition demo_ops : list queue_op :=
  [QRegister "m" "1" demo_config 2 (with_config 2 EjectionConfig_default) false (fun _ => 0);
   QSubmit 0 "m" "1" (queue_item 3)].

Lemma in_flight_witness :
  exists v, vq_inflight_requests v = Z.of_nat (alive 0 (queue_run demo_ops queue_new)) /\
  (is_idle 0 (queue_run demo_ops queue_new) = true <-> alive 0 (queue_run demo_ops queue_new) = 0%nat).
Proof.
  eexists. eapply (in_flight_counts_accepted demo_ops 0); [reflexivity|by vm_compute].
Defined.

(** A submission under way when the drain starts is counted after it. *)
Definition drain_demo : list queue_op := demo_ops ++ [QItemDone 0; QClaim 1 "m" "1" (queue_item 4)].

Lemma drain_witness :
  exists q', begin_drain "m" "1" (queue_run drain_demo queue_new) = (Some 0%nat, q') /\
  (alive 0 (queue_run [QCount 0; QPush 0] q') + uncounted 0 (queue_run [QCount 0; QPush 0] q')
   <= alive 0 q' + uncounted 0 q')%nat /\ uncounted 0 q' = 1%nat.
Proof.
  assert (Hd : (fst (begin_drain "m" "1" (queue_run drain_demo queue_new)),
    uncounted 0 (snd (begin_drain "m" "1" (queue_run drain_demo queue_new)))) = (Some 0%nat, 1%nat))
    by (vm_compute; reflexivity).
  destruct (begin_drain "m" "1" (queue_run drain_demo queue_new)) as [o q'] eqn:E.
  injection Hd as -> Hu. exists q'. split; [reflexivity|]. split; [|exact Hu].
  apply (drain_takes_no_new_items drain_demo [QCount 0; QPush 0] "m" "1" 0 q' E).
Defined.

Lemma refused_submission_witness :
  exists q', try_submit 5 "m" "1" (queue_item 4) (queue_run demo_ops queue_new) = (Err QFull, q') /\
  guards q' = guards (queue_run demo_ops queue_new).
Proof.
  assert (Hr : fst (try_submit 5 "m" "1" (queue_item 4) (queue_run demo_ops queue_new)) = Err QFull)
    by (vm_compute; reflexivity).
  destruct (try_submit 5 "m" "1" (queue_item 4) (queue_run demo_ops queue_new)) as [r q'] eqn:E.
  simpl in Hr. subst r. exists q'. split; [reflexivity|].
  apply (refused_submission_leaves_no_trace demo_ops 5 "m" "1" (queue_item 4) QFull q' E).
Defined.

Lemma accepted_item_witness :
  let q := queue_run (take 1 demo_ops) queue_new in
  exists w' q' ahead behind, try_submit 0 "m" "1" (queue_item 3) q = (Ok tt, q') /\
    instances q' !! 0%nat = Some w' /\ [] = ahead ++ behind /\
    chan_refines (vq_tx w') (ahead ++ (item_priority (queue_item 3), queue_item 3) :: behind) /\
    item_priority (queue_item 3) <= 0.
Proof.
  intros q. edestruct (accepted_item_preempts_no_default 0 "m" "1" (queue_item 3) q) as
    (w' & ahead & behind & H1 & H2 & H3 & H4 & _).
  - reflexivity.
  - apply chan_ok_new.
  - apply chan_refines_new.
  - reflexivity.
  - exists w'. eexists. exists ahead, behind. split; [reflexivity|]. by split_and!.
Defined.
