(* ===== verification/Health.v ===== *)
(** * Active health checks and kill escalation

    Models [health_checker], [health_probe_request], [escalate_to_kill] and
    [recycle_worker] of [src/src/inference_queue.rs].  One probe of one slot is
    split where it awaits the worker's answer ([probe_begin], [probe_end]); between
    the two the other users of the outlier state run.

    The theorem: between two successes of a slot at most
    [MAX_CONSECUTIVE_KILLS] respawns are asked for it, whatever the other tasks
    do meanwhile, and each only after the full threshold of errors. *)

From S2P Require Import Prelude Text Outlier OutlierProps Sequence Float Pick Dispatch.
Open Scope Z_scope.

Definition MAX_CONSECUTIVE_KILLS : Z := 3.

Record RespawnSignal := {
  rs_model_name : string;
  rs_version : string;
  rs_worker_id : nat;
  rs_reason : string;
  rs_graceful : bool;
}.

Record HealthConfig := {
  hc_model : string;
  hc_version : string;
  hc_kill_threshold : Z;
  hc_respawn : bool;     (** a respawn channel is wired *)
}.

(** What a probe came back with. *)
Inductive probe_result :=
  | ProbeAnswer (r : Response)
  | ProbeFailed.   (** transport error or timeout *)

Inductive health_event :=
  | HeRespawn (s : RespawnSignal)
  | HeEjection
  | HeCheck (ok : bool)
  | HeWorkerHealth (idx : nat) (up : bool).

(** An empty request marked as a probe. *)
Definition health_probe_request (uid : string) : Request :=
  {| rq_uid := uid;
     rq_meta := Some {| meta_sequence_id := None;
                        meta_headers := {[ "x-lite-probe" := "health-check" ]} |};
     rq_payload := QSingle EmptyString |}.

Definition escalate_to_kill (cfg : HealthConfig) (idx : nat) (s : OutlierState)
    : OutlierState * list health_event :=
  if (hc_kill_threshold cfg =? 0) || (consecutive_errors s idx <? hc_kill_threshold cfg) then (s, [])
  else if is_recycling s idx then (s, [])
  else if negb (hc_respawn cfg) then (s, [])
  else if MAX_CONSECUTIVE_KILLS <=? consecutive_kills s idx then (s, [])
  else
    (reset_error_count idx (record_kill idx s),
     [HeRespawn {| rs_model_name := hc_model cfg; rs_version := hc_version cfg;
                   rs_worker_id := idx; rs_reason := "health_check"; rs_graceful := false |}]).

(** Before the probe is sent: [None] when the slot is being recycled. *)
Definition probe_begin (now : Instant) (idx : nat) (s : OutlierState)
    : option bool * OutlierState :=
  if is_recycling s idx then (None, s)
  else let '(was_ejected, s) := is_ejected now idx s in (Some was_ejected, s).

(** The status of a single response; any other payload counts as healthy. *)
Definition answer_is_error (r : Response) : bool :=
  match rs_payload r with
  | Some (RSingle single) => is_error_status (sr_status single)
  | _ => false
  end.

Definition probe_is_ok (r : probe_result) : bool :=
  match r with ProbeAnswer resp => negb (answer_is_error resp) | ProbeFailed => false end.

(** A failed probe: score the error, then escalate. *)
Definition probe_error (cfg : HealthConfig) (now : Instant) (busy : nat -> bool) (idx : nat)
    (s : OutlierState) : OutlierState * list health_event :=
  let '(ejected, s) := record_error now busy idx s in
  let '(s, kill) := escalate_to_kill cfg idx s in
  (s, (if ejected then [HeEjection] else []) ++ [HeCheck false] ++ kill).

Definition probe_end (cfg : HealthConfig) (now : Instant) (busy : nat -> bool) (idx : nat)
    (was_ejected : bool) (r : probe_result) (s : OutlierState)
    : OutlierState * list health_event :=
  let '(s, ev) :=
    if probe_is_ok r then (record_success idx s, [HeCheck true])
    else
      let '(s, ev) := probe_error cfg now busy idx s in
      match r with
      | ProbeFailed =>
          if was_ejected then (s, ev) else (snd (is_ejected now idx s), ev)
      | ProbeAnswer _ => (s, ev)
      end in
  let '(ejected, s) := is_ejected now idx s in
  (s, ev ++ [HeWorkerHealth idx (negb ejected)]).

(** ** The other users of the outlier state run in between *)

Inductive health_step :=
  | HsBegin (now : Instant) (idx : nat)
  | HsEnd (now : Instant) (busy : nat -> bool) (idx : nat) (was_ejected : bool) (r : probe_result)
  | HsOther (o : outlier_op).

Definition health_apply (cfg : HealthConfig) (h : health_step) (s : OutlierState)
    : OutlierState * list health_event :=
  match h with
  | HsBegin now idx => (snd (probe_begin now idx s), [])
  | HsEnd now busy idx was r => probe_end cfg now busy idx was r s
  | HsOther o => (apply_op o s, [])
  end.

Fixpoint health_run (cfg : HealthConfig) (hs : list health_step) (s : OutlierState)
    : OutlierState * list health_event :=
  match hs with
  | [] => (s, [])
  | h :: hs =>
      let '(s, ev) := health_apply cfg h s in
      let '(s, ev') := health_run cfg hs s in
      (s, ev ++ ev')
  end.

(** Respawns asked for one slot. *)
Definition respawns (idx : nat) (ev : list health_event) : nat :=
  count_if (fun e => match e with HeRespawn s => Nat.eqb idx (rs_worker_id s) | _ => false end) ev.

(** No success on the slot; kills are recorded by the escalation only. *)
Definition no_success (idx : nat) (h : health_step) : Prop :=
  match h with
  | HsBegin _ _ => True
  | HsEnd _ _ i _ r => i = idx -> probe_is_ok r = false
  | HsOther o => o <> OpSuccess idx /\ o <> OpKill idx
  end.

(** ** The kill streak *)

Lemma respawns_app idx e1 e2 : respawns idx (e1 ++ e2) = (respawns idx e1 + respawns idx e2)%nat.
Proof. unfold respawns, count_if. by rewrite List.filter_app, length_app. Qed.

(** The streak only changes by a success or a kill of the slot. *)
Lemma kills_upd f i j s :
  (forall w, w_consecutive_kills (f w) = w_consecutive_kills w) ->
  consecutive_kills (upd f i s) j = consecutive_kills s j.
Proof.
  intros Hf. unfold consecutive_kills. simpl. destruct (decide (i = j)) as [<-|Hne].
  - rewrite list_lookup_alter_eq. destruct (workers s !! i); simpl; [by rewrite Hf|done].
  - by rewrite list_lookup_alter_ne.
Qed.

Lemma kills_return_ticket i j s :
  consecutive_kills (return_ticket i s) j = consecutive_kills s j.
Proof.
  unfold return_ticket. destruct (workers s !! i) as [w|]; [|done].
  destruct (w_recycling w); unfold consecutive_kills; simpl;
    exact (kills_upd (set_recycling false) i j s (fun _ => eq_refl)).
Qed.

Lemma kills_apply_op o s j :
  o <> OpSuccess j -> o <> OpKill j ->
  consecutive_kills (apply_op o s) j = consecutive_kills s j.
Proof.
  intros Hs Hk. destruct (decide (op_slot o = j)) as [Hj|Hj].
  2:{ unfold consecutive_kills. by rewrite apply_op_other. }
  destruct o; simpl in *; subst; try done;
    unfold reset, release_recycle, record_error, maybe_eject, claim_recycle, force_eject,
      is_ejected, mark_dead, reset_error_count, stream_inflight_inc, stream_inflight_dec, set_claims;
    repeat case_goal; simpl; rewrite ?kills_upd, ?kills_return_ticket by done;
    rewrite ?kills_upd by done; try done.
  all: unfold consecutive_kills; simpl; rewrite ?list_lookup_alter_eq;
    by destruct (workers s !! j).
Qed.

Lemma kills_record_error now busy i s j :
  consecutive_kills (snd (record_error now busy i s)) j = consecutive_kills s j.
Proof. by apply (kills_apply_op (OpError now busy i)). Qed.

Lemma kills_probe now i s j :
  consecutive_kills (snd (is_ejected now i s)) j = consecutive_kills s j.
Proof. by apply (kills_apply_op (OpProbe now i)). Qed.
(** An escalation counts every respawn it asks for, within the cap. *)
Lemma escalate_streak cfg i s j :
  0 <= hc_kill_threshold cfg -> 0 <= consecutive_kills s j <= MAX_CONSECUTIVE_KILLS ->
  exists s' ev, escalate_to_kill cfg i s = (s', ev) /\
    consecutive_kills s' j = consecutive_kills s j + Z.of_nat (respawns j ev) /\
    0 <= consecutive_kills s' j <= MAX_CONSECUTIVE_KILLS.
Proof.
  intros Hth Hk. assert (Hnil : respawns j [] = 0%nat) by done. unfold escalate_to_kill.
  destruct ((hc_kill_threshold cfg =? 0) || (consecutive_errors s i <? hc_kill_threshold cfg)) eqn:He;
    [eexists _, _; split; [done|]; lia|]. to_prop.
  case_goal; [eexists _, _; split; [done|]; lia|].
  case_goal; [eexists _, _; split; [done|]; lia|].
  case_goal; [eexists _, _; split; [done|]; lia|]. to_prop.
  eexists _, _. split; [done|]. unfold reset_error_count. rewrite kills_upd by done.
  unfold respawns, count_if. simpl. destruct (Nat.eqb_spec j i) as [->|Hne]; simpl.
  - unfold consecutive_errors in *. unfold consecutive_kills, record_kill in *. simpl.
    rewrite list_lookup_alter_eq. destruct (workers s !! i) as [w|]; simpl in *; [|lia].
    unfold MAX_CONSECUTIVE_KILLS in *. rewrite fetch_add_small by (unfold usize_max; lia). lia.
  - assert (consecutive_kills (record_kill i s) j = consecutive_kills s j) as ->; [|lia].
    unfold consecutive_kills, record_kill. simpl. by rewrite list_lookup_alter_ne by done.
Qed.

Lemma respawns_none j ev :
  Forall (fun e => match e with HeRespawn _ => False | _ => True end) ev -> respawns j ev = 0%nat.
Proof.
  induction 1 as [|e ev He Hev IH]; [done|]. unfold respawns in *. rewrite count_if_cons, IH.
  by destruct e.
Qed.

Lemma probe_error_streak cfg now busy i s j :
  0 <= hc_kill_threshold cfg -> 0 <= consecutive_kills s j <= MAX_CONSECUTIVE_KILLS ->
  exists s' ev, probe_error cfg now busy i s = (s', ev) /\
    consecutive_kills s' j = consecutive_kills s j + Z.of_nat (respawns j ev) /\
    0 <= consecutive_kills s' j <= MAX_CONSECUTIVE_KILLS.
Proof.
  intros Hth Hk. unfold probe_error. pose proof (kills_record_error now busy i s j) as He.
  destruct (record_error now busy i s) as [ej s1]. simpl in He.
  destruct (escalate_streak cfg i s1 j) as (s2 & ev & -> & Hc & Hr); [done|lia|].
  eexists _, _. split; [done|]. rewrite !respawns_app.
  rewrite (respawns_none j (if ej then [HeEjection] else [])) by (destruct ej; repeat constructor).
  rewrite (respawns_none j [HeCheck false]) by (repeat constructor). simpl. lia.
Qed.

(** A step without a success of the slot keeps the account of its kills. *)
Lemma health_apply_streak cfg h s j :
  0 <= hc_kill_threshold cfg -> 0 <= consecutive_kills s j <= MAX_CONSECUTIVE_KILLS ->
  no_success j h ->
  exists s' ev, health_apply cfg h s = (s', ev) /\
    consecutive_kills s' j = consecutive_kills s j + Z.of_nat (respawns j ev) /\
    0 <= consecutive_kills s' j <= MAX_CONSECUTIVE_KILLS.
Proof.
  intros Hth Hk Hno. assert (Hnil : respawns j [] = 0%nat) by done. destruct h as [now idx|now busy idx was r|o]; simpl in *.
  - eexists _, _. split; [done|]. unfold probe_begin. case_goal; simpl; [lia|].
    pose proof (kills_probe now idx s j). destruct (is_ejected now idx s). simpl in *. lia.
  - unfold probe_end.
    assert (Hmid : exists s1 ev, (if probe_is_ok r then (record_success idx s, [HeCheck true])
      else let '(s, ev) := probe_error cfg now busy idx s in
        match r with
        | ProbeFailed => if was then (s, ev) else (snd (is_ejected now idx s), ev)
        | ProbeAnswer _ => (s, ev)
        end) = (s1, ev) /\
      consecutive_kills s1 j = consecutive_kills s j + Z.of_nat (respawns j ev) /\
      0 <= consecutive_kills s1 j <= MAX_CONSECUTIVE_KILLS).
    { destruct (probe_is_ok r) eqn:Hr.
      - eexists _, _. split; [done|]. rewrite respawns_none by (repeat constructor).
        assert (consecutive_kills (record_success idx s) j = consecutive_kills s j) as ->; [|lia].
        unfold consecutive_kills. change (record_success idx s) with (apply_op (OpSuccess idx) s).
        rewrite apply_op_other; [done|]. simpl. intros ->. by specialize (Hno eq_refl).
      - destruct (probe_error_streak cfg now busy idx s j) as (s1 & ev & -> & Hc & Hb); [done..|].
        destruct r; [by eexists _, _|]. destruct was; [by eexists _, _|].
        eexists _, _. split; [done|]. by rewrite kills_probe. }
    destruct Hmid as (s1 & ev & -> & Hc & Hb).
    pose proof (kills_probe now idx s1 j). destruct (is_ejected now idx s1) as [ej s2]. simpl in *.
    eexists _, _. split; [done|]. rewrite respawns_app.
    rewrite (respawns_none j [_]) by (repeat constructor). lia.
  - eexists _, _. split; [done|]. destruct Hno. rewrite kills_apply_op by done. lia.
Qed.

(** Kill escalation is capped: over any interleaving of health probes and other
    operations on the outlier state without a success on the slot, the respawns
    asked for it number at most [MAX_CONSECUTIVE_KILLS] minus the kills already
    counted. *)
Theorem health_kills_capped (cfg : HealthConfig) (hs : list health_step) (s : OutlierState) (j : nat) :
  0 <= hc_kill_threshold cfg -> 0 <= consecutive_kills s j <= MAX_CONSECUTIVE_KILLS ->
  Forall (no_success j) hs ->
  Z.of_nat (respawns j (snd (health_run cfg hs s)))
    <= MAX_CONSECUTIVE_KILLS - consecutive_kills s j.
Proof.
  intros Hth Hk Hno.
  enough (Hrun : consecutive_kills (fst (health_run cfg hs s)) j
    = consecutive_kills s j + Z.of_nat (respawns j (snd (health_run cfg hs s))) /\
    0 <= consecutive_kills (fst (health_run cfg hs s)) j <= MAX_CONSECUTIVE_KILLS) by lia.
  revert s Hk. induction Hno as [|h hs Hh Hhs IH]; intros s Hk; cbn [health_run];
    [assert (respawns j (snd (s, [])) = 0%nat) by done; simpl in *; lia|].
  destruct (health_apply_streak cfg h s j) as (s1 & ev & -> & Hc & Hb); [done..|].
  destruct (IH s1 Hb) as [Hc' Hb'].
  destruct (health_run cfg hs s1) as [s2 ev']. simpl in *. rewrite respawns_app. lia.
Qed.

(** A respawn is asked only after the full threshold of consecutive errors on a slot
    that is not recycling, and below the cap. *)
Theorem health_kill_needs_threshold (cfg : HealthConfig) (i : nat) (s : OutlierState) (sig : RespawnSignal) :
  HeRespawn sig ∈ snd (escalate_to_kill cfg i s) ->
  hc_kill_threshold cfg <> 0 /\ hc_kill_threshold cfg <= consecutive_errors s i /\
  is_recycling s i = false /\ rs_worker_id sig = i /\ rs_graceful sig = false /\
  consecutive_errors (fst (escalate_to_kill cfg i s)) i = 0 /\
  (forall w, workers s !! i = Some w ->
     exists w', workers (fst (escalate_to_kill cfg i s)) !! i = Some w' /\
       w_ejected w' = w_ejected w).
Proof.
  unfold escalate_to_kill. repeat case_goal; simpl; try (by intros Hin%elem_of_nil). to_prop.
  intros Hin%list_elem_of_singleton. injection Hin as ->.
  unfold consecutive_errors, reset_error_count, record_kill in *. simpl.
  rewrite !list_lookup_alter_eq. split_and!; try done.
  - by destruct (workers s !! i).
  - intros w ->. simpl. eauto.
Qed.

(** ** The theorem at a concrete input *)

Definition demo_health : HealthConfig :=
  {| hc_model := "m"; hc_version := "1"; hc_kill_threshold := 1; hc_respawn := true |}.

Definition failing_probes : list health_step :=
  replicate 5 (HsEnd 0 (fun _ => false) 0 true ProbeFailed).

Lemma health_kills_witness :
  respawns 0 (snd (health_run demo_health failing_probes (with_config 2 EjectionConfig_default))) = 3%nat /\
  Z.of_nat (respawns 0 (snd (health_run demo_health failing_probes
    (with_config 2 EjectionConfig_default)))) <= 3 - 0.
Proof.
  split; [vm_compute; reflexivity|].
  apply (health_kills_capped demo_health failing_probes (with_config 2 EjectionConfig_default) 0).
  - simpl. lia.
  - by vm_compute.
  - apply Forall_replicate. intros _. reflexivity.
Defined.

(** ** The rolling recycle of one slot *)

(** What the recycle task observes: whether its wait for the slot's streams timed
    out, and the streams in flight then and after the grace window. *)
Record RecycleObs := {
  ro_streams_timed_out : bool;
  ro_streams_at_timeout : Z;
  ro_streams_after_grace : Z;
}.

Inductive recycle_event :=
  | RecGracefulCancel (w : nat) (grace_ms : Z)
  | RecStreamsEvicted (n : Z)
  | RecFailAll (w : nat)
  | RecRespawn (s : RespawnSignal).

(** After the bounded wait for the batches: ask the streams to close, evict the
    survivors, then ask for a graceful respawn. *)
Definition recycle_worker (cfg : HealthConfig) (stream_grace : Duration) (w : nat) (o : RecycleObs)
    : list recycle_event :=
  (if ro_streams_timed_out o then
     let ask := (0 <? ro_streams_at_timeout o) && (0 <? stream_grace) in
     let evicted := if ask then ro_streams_after_grace o else ro_streams_at_timeout o in
     (if ask then [RecGracefulCancel w ((stream_grace / 1000000) mod 2 ^ 32)] else [])
     ++ (if 0 <? evicted then [RecStreamsEvicted evicted; RecFailAll w] else [])
   else [])
  ++ (if hc_respawn cfg then
        [RecRespawn {| rs_model_name := hc_model cfg; rs_version := hc_version cfg;
                       rs_worker_id := w; rs_reason := "rolling_recycle"; rs_graceful := true |}]
      else []).
