(* ===== verification/Registry.v ===== *)
(** * The model registry

    Models [ModelRegistry] of [src/src/registry/mod.rs] with the data of
    [src/src/registry/types.rs], [pick_latest_version] of [src/src/server/mod.rs]
    and the snapshot of [src/src/registry/cache.rs].

    The registry's maps are [gmap]s; an operation that iterates a hash map does
    so in any order ([MapIter]).  A version's configuration, policies and paths
    are stored and handed back unchanged by the source and are left out of the
    records.  [activate_version] and [remove], which take several locks one after the
    other, are compositions of their locked parts.  The [semver] crate is a parameter: a
    parser and a comparison. *)

From S2P Require Import Prelude Text Errors.
Open Scope Z_scope.

(** ** Data *)

Inductive VersionStatus :=
  | Pending | Loading | WarmingUp | Ready | Impaired | Degraded | Failed | Unloading.

#[export] Instance VersionStatus_eq_dec : EqDecision VersionStatus.
Proof. solve_decision. Defined.

Definition is_serving (s : VersionStatus) : bool :=
  match s with Ready | Impaired => true | _ => false end.

Inductive ModelType := LitAPI | Ensemble.

#[export] Instance ModelType_eq_dec : EqDecision ModelType.
Proof. solve_decision. Defined.

Inductive LoadPolicy := Explicit | LoadAll | Latest.

Inductive WorkerStatus := WsStarting | WsReady | WsBusy | WsStopped.

Record WorkerInfo := {
  wi_worker_id : nat;
  wi_device : string;
  wi_endpoint : string;
  wi_pid : option Z;
  wi_status : WorkerStatus;
}.

(** [SystemTime] in nanoseconds. *)
Abbreviation SystemTime := Z (only parsing).

Record ModelVersion := {
  mv_version : string;
  mv_status : VersionStatus;
  mv_model_type : ModelType;
  mv_workers : list WorkerInfo;
  mv_loaded_at : option SystemTime;
  mv_last_used_at : option SystemTime;
  mv_weight : Z;
  mv_last_failure : option string;
}.

Record ModelEntry := {
  me_name : string;
  me_versions : gmap string ModelVersion;
  me_load_policy : LoadPolicy;
  me_max_loaded_versions : option Z;
  me_weights : gmap string Z;
  me_default_version : option string;
}.

Definition ModelEntry_new (name : string) : ModelEntry :=
  {| me_name := name; me_versions := ∅; me_load_policy := Explicit;
     me_max_loaded_versions := None; me_weights := ∅; me_default_version := None |}.

Record ModelRegistry := {
  models : gmap string ModelEntry;
  active_versions : gmap string string;
  ensemble_deps_map : gmap string (list (string * option string));
}.

Definition registry_new : ModelRegistry :=
  {| models := ∅; active_versions := ∅; ensemble_deps_map := ∅ |}.

Record ModelStrategyConfig := {
  ms_name : string;
  ms_load_policy : string;
  ms_default_version : option string;
  ms_max_loaded_versions : option Z;
  ms_weights : option (gmap string Z);
}.

Record ServerStatusEntry := {
  ss_name : string;
  ss_version : string;
  ss_status : VersionStatus;
  ss_workers : nat;
  ss_loaded_at : option SystemTime;
  ss_last_failure : option string;
}.

(** ** Updates *)

Definition set_models (m : gmap string ModelEntry) (r : ModelRegistry) : ModelRegistry :=
  {| models := m; active_versions := active_versions r;
     ensemble_deps_map := ensemble_deps_map r |}.

Definition set_active (a : gmap string string) (r : ModelRegistry) : ModelRegistry :=
  {| models := models r; active_versions := a; ensemble_deps_map := ensemble_deps_map r |}.

Definition set_versions (vs : gmap string ModelVersion) (e : ModelEntry) : ModelEntry :=
  {| me_name := me_name e; me_versions := vs; me_load_policy := me_load_policy e;
     me_max_loaded_versions := me_max_loaded_versions e; me_weights := me_weights e;
     me_default_version := me_default_version e |}.

Definition set_entry_weights (w : gmap string Z) (e : ModelEntry) : ModelEntry :=
  {| me_name := me_name e; me_versions := me_versions e; me_load_policy := me_load_policy e;
     me_max_loaded_versions := me_max_loaded_versions e; me_weights := w;
     me_default_version := me_default_version e |}.

Definition with_status (s : VersionStatus) (mv : ModelVersion) : ModelVersion :=
  {| mv_version := mv_version mv; mv_status := s; mv_model_type := mv_model_type mv;
     mv_workers := mv_workers mv; mv_loaded_at := mv_loaded_at mv;
     mv_last_used_at := mv_last_used_at mv; mv_weight := mv_weight mv;
     mv_last_failure := mv_last_failure mv |}.

Definition with_weight (w : Z) (mv : ModelVersion) : ModelVersion :=
  {| mv_version := mv_version mv; mv_status := mv_status mv; mv_model_type := mv_model_type mv;
     mv_workers := mv_workers mv; mv_loaded_at := mv_loaded_at mv;
     mv_last_used_at := mv_last_used_at mv; mv_weight := w;
     mv_last_failure := mv_last_failure mv |}.

Definition with_workers (ws : list WorkerInfo) (mv : ModelVersion) : ModelVersion :=
  {| mv_version := mv_version mv; mv_status := mv_status mv; mv_model_type := mv_model_type mv;
     mv_workers := ws; mv_loaded_at := mv_loaded_at mv;
     mv_last_used_at := mv_last_used_at mv; mv_weight := mv_weight mv;
     mv_last_failure := mv_last_failure mv |}.

Definition with_last_used (t : option SystemTime) (mv : ModelVersion) : ModelVersion :=
  {| mv_version := mv_version mv; mv_status := mv_status mv; mv_model_type := mv_model_type mv;
     mv_workers := mv_workers mv; mv_loaded_at := mv_loaded_at mv;
     mv_last_used_at := t; mv_weight := mv_weight mv;
     mv_last_failure := mv_last_failure mv |}.

Definition with_failure (f : option string) (mv : ModelVersion) : ModelVersion :=
  {| mv_version := mv_version mv; mv_status := mv_status mv; mv_model_type := mv_model_type mv;
     mv_workers := mv_workers mv; mv_loaded_at := mv_loaded_at mv;
     mv_last_used_at := mv_last_used_at mv; mv_weight := mv_weight mv;
     mv_last_failure := f |}.

Definition with_loaded (t : option SystemTime) (mv : ModelVersion) : ModelVersion :=
  {| mv_version := mv_version mv; mv_status := mv_status mv; mv_model_type := mv_model_type mv;
     mv_workers := mv_workers mv; mv_loaded_at := t;
     mv_last_used_at := mv_last_used_at mv; mv_weight := mv_weight mv;
     mv_last_failure := mv_last_failure mv |}.

(** [get_mut] of a version with the not-found errors, then an update of it. *)
Definition update_version (model version : string) (f : ModelVersion -> ModelVersion)
    (r : ModelRegistry) : result AppError ModelRegistry :=
  let? e := ok_or (models r !! model) (ModelNotFound model) in
  let? mv := ok_or (me_versions e !! version) (VersionNotFound model version) in
  Ok (set_models
        (<[model := set_versions (<[version := f mv]> (me_versions e)) e]> (models r)) r).

(** ** Lookups *)

Definition ensemble_deps_key (model version : string) : string :=
  (model +:+ String "/"%char version)%string.

Definition set_ensemble_deps (model version : string) (deps : list (string * option string))
    (r : ModelRegistry) : ModelRegistry :=
  {| models := models r; active_versions := active_versions r;
     ensemble_deps_map := <[ensemble_deps_key model version := deps]> (ensemble_deps_map r) |}.

Definition ensemble_deps (model version : string) (r : ModelRegistry)
    : option (list (string * option string)) :=
  ensemble_deps_map r !! ensemble_deps_key model version.

Definition get_active_version (model : string) (r : ModelRegistry) : option string :=
  active_versions r !! model.

Definition registry_get (model : string) (version : option string) (r : ModelRegistry)
    : option ModelVersion :=
  match models r !! model with
  | None => None
  | Some e =>
      match version with
      | Some v => me_versions e !! v
      | None => match active_versions r !! model with
                | Some v => me_versions e !! v
                | None => None
                end
      end
  end.

Definition is_ready (model : string) (version : option string) (r : ModelRegistry) : bool :=
  match registry_get model version r with
  | Some mv => is_serving (mv_status mv)
  | None => false
  end.

Definition active_version_is_ready (model : string) (r : ModelRegistry) : bool :=
  match get_active_version model r with
  | Some v => is_ready model (Some v) r
  | None => false
  end.

(** ** Operations *)

Definition register (model version : string) (model_type : ModelType) (r : ModelRegistry)
    : result AppError unit * ModelRegistry :=
  let e := default (ModelEntry_new model) (models r !! model) in
  (* the entry exists from here on, also when the version is refused *)
  let r := set_models (<[model := e]> (models r)) r in
  match me_versions e !! version with
  | Some _ => (Err (VersionAlreadyLoaded model version), r)
  | None =>
      let mv := {| mv_version := version; mv_status := Pending; mv_model_type := model_type;
                   mv_workers := []; mv_loaded_at := None; mv_last_used_at := None;
                   mv_weight := default 0 (me_weights e !! version);
                   mv_last_failure := None |} in
      (Ok tt,
       set_models (<[model := set_versions (<[version := mv]> (me_versions e)) e]> (models r)) r)
  end.

Definition set_status (model version : string) (s : VersionStatus) :=
  update_version model version (with_status s).

Definition mark_ready (now : SystemTime) (model version : string) :=
  update_version model version (fun mv =>
    with_loaded (match mv_loaded_at mv with Some t => Some t | None => Some now end)
      (with_failure None (with_status Ready mv))).

Definition mark_warming_up (model version : string) :=
  update_version model version (with_status WarmingUp).

Definition mark_failed (model version reason : string) :=
  update_version model version (fun mv => with_failure (Some reason) (with_status Failed mv)).

Definition set_workers (model version : string) (ws : list WorkerInfo) :=
  update_version model version (with_workers ws).

(** Replace the first worker with the id, or append. *)
Fixpoint replace_first (id : nat) (info : WorkerInfo) (ws : list WorkerInfo)
    : option (list WorkerInfo) :=
  match ws with
  | [] => None
  | w :: ws =>
      if Nat.eqb (wi_worker_id w) id then Some (info :: ws)
      else match replace_first id info ws with Some ws => Some (w :: ws) | None => None end
  end.

Definition replace_worker (model version : string) (id : nat) (info : WorkerInfo) :=
  update_version model version (fun mv =>
    with_workers (match replace_first id info (mv_workers mv) with
                  | Some ws => ws
                  | None => mv_workers mv ++ [info]
                  end) mv).

(** The first worker with the id stopped, its pid cleared. *)
Fixpoint stop_first (id : nat) (ws : list WorkerInfo) : list WorkerInfo :=
  match ws with
  | [] => []
  | w :: ws =>
      if Nat.eqb (wi_worker_id w) id then
        {| wi_worker_id := wi_worker_id w; wi_device := wi_device w;
           wi_endpoint := wi_endpoint w; wi_pid := None; wi_status := WsStopped |} :: ws
      else w :: stop_first id ws
  end.

Definition mark_worker_stopped (model version : string) (id : nat) (r : ModelRegistry)
    : ModelRegistry :=
  match update_version model version (fun mv => with_workers (stop_first id (mv_workers mv)) mv) r
  with
  | Ok r => r
  | Err _ => r
  end.

(** The check of an activation, under the entry's lock, which is released after it. *)
Definition activate_check (model version : string) (r : ModelRegistry) : result AppError bool :=
  match models r !! model with
  | None => Err (ModelNotFound model)
  | Some e =>
      match me_versions e !! version with
      | None => Err (VersionNotFound model version)
      | Some mv => Ok (bool_decide (mv_status mv = Ready))
      end
  end.

Definition activate_pin (model version : string) (r : ModelRegistry) : ModelRegistry :=
  set_active (<[model := version]> (active_versions r)) r.

(** The check and the pin, with nothing in between. *)
Definition activate_version (model version : string) (r : ModelRegistry)
    : result AppError bool * ModelRegistry :=
  match activate_check model version r with
  | Ok true => (Ok true, activate_pin model version r)
  | res => (res, r)
  end.

Definition force_pin_active_version (model version : string) (r : ModelRegistry) : ModelRegistry :=
  set_active (<[model := version]> (active_versions r)) r.

Definition deactivate (model : string) (r : ModelRegistry) : ModelRegistry :=
  set_active (delete model (active_versions r)) r.

(** A touch within a second of the previous one is a no-op. *)
Definition touch_last_used (now : SystemTime) (model version : string) (r : ModelRegistry)
    : ModelRegistry :=
  let last := registry_get model (Some version) r ≫= mv_last_used_at in
  let fresh := match last with
               | Some t => Z.max 0 (now - t) <? from_secs 1
               | None => false
               end in
  if fresh then r
  else match update_version model version (with_last_used (Some now)) r with
       | Ok r => r
       | Err _ => r
       end.

Definition set_weights (model : string) (weights : gmap string Z) (r : ModelRegistry)
    : result AppError ModelRegistry :=
  let? e := ok_or (models r !! model) (ModelNotFound model) in
  if decide (map_Forall (fun v _ => is_Some (me_versions e !! v)) weights) then
    let vs := map_imap (fun v mv => Some (with_weight (default 0 (weights !! v)) mv))
                (me_versions e) in
    Ok (set_models (<[model := set_versions vs (set_entry_weights weights e)]> (models r)) r)
  else Err (Validation "unknown version").

Definition parse_load_policy (s : string) : LoadPolicy :=
  if bool_decide (s = "all") then LoadAll
  else if bool_decide (s = "latest") then Latest else Explicit.

Definition load_policy_to_string (p : LoadPolicy) : string :=
  match p with LoadAll => "all" | Latest => "latest" | Explicit => "explicit" end.

Definition set_strategy (model : string) (st : ModelStrategyConfig) (r : ModelRegistry)
    : ModelRegistry :=
  let e := default (ModelEntry_new model) (models r !! model) in
  set_models (<[model :=
    {| me_name := me_name e; me_versions := me_versions e;
       me_load_policy := parse_load_policy (ms_load_policy st);
       me_max_loaded_versions := ms_max_loaded_versions st;
       me_weights := default (me_weights e) (ms_weights st);
       me_default_version := ms_default_version st |}]> (models r)) r.

Section iterating.
Context `{MapIter}.

(** Versions that take weighted traffic, in the map's order. *)
Definition routing_candidates (e : ModelEntry) : list (string * Z) :=
  omap (fun vm => let '(v, mv) := vm in
          if (0 <? mv_weight mv) && is_serving (mv_status mv) then Some (v, mv_weight mv) else None)
    (map_iter (me_versions e)).

(** The walk over the candidates with the random roll. *)
Fixpoint roll_walk (roll : Z) (cs : list (string * Z)) : option string :=
  match cs with
  | [] => None
  | (v, w) :: cs => if roll <? w then Some v else roll_walk (roll - w) cs
  end.

Definition total_weight (cs : list (string * Z)) : Z := foldr (fun c t => snd c + t) 0 cs.

(** [roll] is [gen_range(0..total)]. *)
Definition routing_pick (roll : Z) (model : string) (r : ModelRegistry) : option string :=
  match models r !! model with
  | None => None
  | Some e =>
      let cs := routing_candidates e in
      if total_weight cs =? 0 then None else roll_walk roll cs
  end.

(** [Option<SystemTime>]'s order: never used first. *)
Definition used_before (a b : option SystemTime) : bool :=
  match a, b with
  | None, None => false
  | None, Some _ => true
  | Some _, None => false
  | Some x, Some y => x <? y
  end.

(** [min_by_key]: the first minimum. *)
Fixpoint least_recent (best : option ModelVersion) (vs : list ModelVersion) : option ModelVersion :=
  match vs with
  | [] => best
  | v :: vs =>
      least_recent (match best with
                    | Some b => if used_before (mv_last_used_at v) (mv_last_used_at b)
                                then Some v else Some b
                    | None => Some v
                    end) vs
  end.

Definition lru_eviction_candidate (model : string) (r : ModelRegistry) : option string :=
  match models r !! model with
  | None => None
  | Some e =>
      let active := active_versions r !! model in
      mv_version <$> least_recent None
        (List.filter (fun v => negb (bool_decide (active = Some (mv_version v))))
           (map snd (map_iter (me_versions e))))
  end.

(** The order of [(name, version)] pairs. *)
Definition status_le (a b : ServerStatusEntry) : Prop :=
  if decide (ss_name a = ss_name b) then str_leb (ss_version a) (ss_version b) = true
  else str_leb (ss_name a) (ss_name b) = true.

#[export] Instance status_le_dec : RelDecision status_le.
Proof. intros a b. unfold status_le. destruct (decide _); apply _. Defined.

Definition status_entry (name : string) (mv : ModelVersion) : ServerStatusEntry :=
  {| ss_name := name; ss_version := mv_version mv; ss_status := mv_status mv;
     ss_workers := length (mv_workers mv); ss_loaded_at := mv_loaded_at mv;
     ss_last_failure := mv_last_failure mv |}.

Definition server_status (r : ModelRegistry) : list ServerStatusEntry :=
  merge_sort status_le
    (mjoin (map (fun ne => map (fun vm => status_entry (me_name (snd ne)) (snd vm))
                             (map_iter (me_versions (snd ne))))
      (map_iter (models r)))).

Definition has_serving (entries : list ServerStatusEntry) : bool :=
  existsb (fun e => is_serving (ss_status e)) entries.

Definition initializing (entries : list ServerStatusEntry) : list (string * string) :=
  map (fun e => (ss_name e, ss_version e))
    (List.filter (fun e => match ss_status e with
                           | Pending | Loading | WarmingUp => true | _ => false end) entries).

(** ** Replacement of the active version *)

Section semver.
Context {V : Type} (semver_parse : string -> option V) (semver_le : V -> V -> bool).

(** How many dot-separated parts. *)
Definition dot_parts (v : string) : nat := length (split_char "."%char v).

Definition parse_lenient_semver (v : string) : option V :=
  let v := default v (strip_prefix "v" v) in
  match semver_parse v with
  | Some p => Some p
  | None =>
      match dot_parts v with
      | 1%nat => semver_parse (v +:+ ".0.0")%string
      | 2%nat => semver_parse (v +:+ ".0")%string
      | _ => None
      end
  end.

(** [Iterator::max_by_key]: the last maximum. *)
Fixpoint last_max {K : Type} (le : K -> K -> bool) (best : option (string * K))
    (l : list (string * K)) : option (string * K) :=
  match l with
  | [] => best
  | x :: l =>
      last_max le (match best with
                   | Some b => if le (snd b) (snd x) then Some x else Some b
                   | None => Some x
                   end) l
  end.

Definition pick_latest_version (versions : list string) : option string :=
  match mapM parse_lenient_semver versions with
  | Some sems => fst <$> last_max semver_le None (zip versions sems)
  | None => fst <$> last_max str_leb None (map (fun v => (v, v)) versions)
  end.

Definition serving_versions (e : ModelEntry) : list string :=
  omap (fun vm => if is_serving (mv_status (snd vm)) then Some (fst vm) else None)
    (map_iter (me_versions e)).

Definition version_serving (e : ModelEntry) (v : string) : bool :=
  match me_versions e !! v with Some mv => is_serving (mv_status mv) | None => false end.

(** The version the active pointer moves to. *)
Definition replacement (e : ModelEntry) : option string :=
  match me_default_version e with
  | Some dv => if version_serving e dv then Some dv else pick_latest_version (serving_versions e)
  | None => pick_latest_version (serving_versions e)
  end.

(** *** Removal

    [remove] takes its locks one after the other; these are the parts between which other
    calls can come. *)

Definition remove_deps (model version : string) (r : ModelRegistry) : ModelRegistry :=
  {| models := models r; active_versions := active_versions r;
     ensemble_deps_map := delete (ensemble_deps_key model version) (ensemble_deps_map r) |}.

(** Step 1: the version and its weight go; [None] when the model has no entry, else whether
    no version is left. *)
Definition remove_version_entry (model version : string) (r : ModelRegistry)
    : option bool * ModelRegistry :=
  match models r !! model with
  | None => (None, r)
  | Some e =>
      let e := set_entry_weights (delete version (me_weights e))
                 (set_versions (delete version (me_versions e)) e) in
      (Some (bool_decide (me_versions e = ∅)), set_models (<[model := e]> (models r)) r)
  end.

(** Step 2: was the version the active one? *)
Definition was_active (model version : string) (r : ModelRegistry) : bool :=
  bool_decide (active_versions r !! model = Some version).

Definition remove_pin (model : string) (r : ModelRegistry) : ModelRegistry :=
  set_active (delete model (active_versions r)) r.

(** The replacement is chosen and pinned under the entry's lock. *)
Definition repin (model : string) (r : ModelRegistry) : ModelRegistry :=
  match models r !! model with
  | Some e =>
      match replacement e with
      | Some v => set_active (<[model := v]> (active_versions r)) r
      | None => r
      end
  | None => r
  end.

(** Step 3. *)
Definition remove_model_entry (model : string) (r : ModelRegistry) : ModelRegistry :=
  set_models (delete model (models r)) r.

Definition registry_remove (model version : string) (r : ModelRegistry) : ModelRegistry :=
  match remove_version_entry model version (remove_deps model version r) with
  | (None, r) => r
  | (Some should_remove_model, r) =>
      let r := if was_active model version r then repin model (remove_pin model r) else r in
      if should_remove_model then remove_model_entry model r else r
  end.

(** The removal as one expression. *)
Lemma registry_remove_eq (model version : string) (r : ModelRegistry) :
  registry_remove model version r =
  let r := remove_deps model version r in
  match models r !! model with
  | None => r
  | Some e =>
      let e := set_entry_weights (delete version (me_weights e))
                 (set_versions (delete version (me_versions e)) e) in
      let r := set_models (<[model := e]> (models r)) r in
      let r :=
        if bool_decide (active_versions r !! model = Some version) then
          let r := set_active (delete model (active_versions r)) r in
          match replacement e with
          | Some v => set_active (<[model := v]> (active_versions r)) r
          | None => r
          end
        else r in
      if bool_decide (me_versions e = ∅) then set_models (delete model (models r)) r else r
  end.
Proof.
  unfold registry_remove, remove_version_entry. cbn zeta.
  destruct (models (remove_deps model version r) !! model) as [e|]; [|done].
  unfold was_active, repin, remove_model_entry. simpl. by rewrite lookup_insert_eq.
Qed.
End semver.

(** ** Snapshot and restore *)

Record PersistedModel := {
  pm_load_policy : string;
  pm_max_loaded_versions : option Z;
  pm_weights : gmap string Z;
  pm_default_version : option string;
}.

Record RegistrySnapshot := {
  sn_models : gmap string PersistedModel;
  sn_active_versions : gmap string string;
}.

Definition persisted (e : ModelEntry) : PersistedModel :=
  {| pm_load_policy := load_policy_to_string (me_load_policy e);
     pm_max_loaded_versions := me_max_loaded_versions e;
     pm_weights := me_weights e;
     pm_default_version := me_default_version e |}.

Definition build_snapshot (r : ModelRegistry) : RegistrySnapshot :=
  {| sn_models := list_to_map (map (fun ne => (me_name (snd ne), persisted (snd ne)))
                    (map_iter (models r)));
     sn_active_versions := active_versions r |}.

Definition strategy_of (name : string) (pm : PersistedModel) : ModelStrategyConfig :=
  {| ms_name := name; ms_load_policy := pm_load_policy pm;
     ms_default_version := pm_default_version pm;
     ms_max_loaded_versions := pm_max_loaded_versions pm;
     ms_weights := Some (pm_weights pm) |}.

(** [model_dir name] and [version_dir name version]: the directories that exist. *)
Definition restore (model_dir : string -> bool) (version_dir : string -> string -> bool)
    (sn : RegistrySnapshot) (r : ModelRegistry) : nat * ModelRegistry :=
  let ms := List.filter (fun np => model_dir (fst np)) (map_iter (sn_models sn)) in
  let r := foldl (fun r np => set_strategy (fst np) (strategy_of (fst np) (snd np)) r) r ms in
  let pins := List.filter (fun nv => version_dir (fst nv) (snd nv))
                (map_iter (sn_active_versions sn)) in
  (length ms, foldl (fun r nv => force_pin_active_version (fst nv) (snd nv) r) r pins).
End iterating.
