(* ===== verification/RegistryProps.v ===== *)
(** * Properties of the model registry

    Weighted routing sends each serving version exactly its share of the rolls;
    removing the active version
    moves traffic to a serving version whenever there is one; the snapshot
    restores strategies and pins; the eviction candidate is never the active
    version. *)

From S2P Require Import Prelude Text Errors Registry.
Open Scope Z_scope.

(** ** Weighted routing *)

Section routing.
Context `{MapIter}.

Lemma total_weight_nonneg cs : Forall (fun c => 0 < snd c) cs -> 0 <= total_weight cs.
Proof. induction 1; simpl in *; lia. Qed.

Lemma roll_walk_hit cs roll :
  Forall (fun c => 0 < snd c) cs -> 0 <= roll < total_weight cs ->
  exists v w, roll_walk roll cs = Some v /\ (v, w) ∈ cs.
Proof.
  intros Hpos. revert roll. induction Hpos as [|[v w] cs Hw Hcs IH]; intros roll Hr; simpl in *; [lia|].
  destruct (Z.ltb_spec roll w).
  - exists v, w. split; [done|]. left.
  - destruct (IH (roll - w)) as (v' & w' & -> & Hin); [lia|]. exists v', w'. split; [done|by right].
Qed.

(** How many of the rolls [from .. from + n - 1] pick the version. *)
Definition picks (cs : list (string * Z)) (v : string) (from : Z) (n : nat) : nat :=
  count_if (fun roll => bool_decide (roll_walk roll cs = Some v)) (seqZ from (Z.of_nat n)).

Lemma count_if_ext {A} (f g : A -> bool) l :
  Forall (fun x => f x = g x) l -> count_if f l = count_if g l.
Proof. induction 1 as [|x l Hx Hl IH]; [done|]. by rewrite !count_if_cons, IH, Hx. Qed.

Lemma count_if_const {A} (f : A -> bool) l b :
  Forall (fun x => f x = b) l -> count_if f l = if b then length l else 0%nat.
Proof.
  induction 1 as [|x l Hx Hl IH]; [by destruct b|]. rewrite count_if_cons, IH, Hx. by destruct b.
Qed.

Lemma picks_shift cs v w v' n :
  0 <= w -> picks ((v', w) :: cs) v w n = picks cs v 0 n.
Proof.
  intros Hw. unfold picks. replace (seqZ w (Z.of_nat n)) with (Z.add w <$> seqZ 0 (Z.of_nat n)).
  2:{ rewrite fmap_add_seqZ. f_equal. lia. }
  unfold count_if. rewrite <- (length_fmap (Z.add w)).
  assert (Hall : Forall (fun x => 0 <= x) (seqZ 0 (Z.of_nat n))).
  { apply Forall_forall. intros x Hx%elem_of_seqZ. lia. }
  induction Hall as [|x l Hx Hl IH]; [done|]. simpl.
  rewrite (proj2 (Z.ltb_ge _ _)) by lia. replace (w + x - w) with x by lia.
  destruct (bool_decide (roll_walk x cs = Some v)); simpl; [by f_equal|done].
Qed.

(** Over all rolls a candidate is picked exactly as often as its weight says. *)
Lemma picks_weight cs v :
  Forall (fun c => 0 < snd c) cs -> NoDup cs.*1 ->
  Z.of_nat (picks cs v 0 (Z.to_nat (total_weight cs)))
  = match list_find (fun c => fst c = v) cs with Some (_, (_, w)) => w | None => 0 end.
Proof.
  intros Hpos. induction Hpos as [|[v' w] cs Hw Hcs IH]; intros Hnd; [done|].
  apply NoDup_cons in Hnd as [Hv Hnd]. specialize (IH Hnd). simpl in Hw.
  pose proof (total_weight_nonneg cs Hcs) as Htot.
  assert (Hsplit : seqZ 0 (Z.of_nat (Z.to_nat (total_weight ((v', w) :: cs))))
    = seqZ 0 w ++ seqZ w (total_weight cs)).
  { simpl. rewrite Z2Nat.id by lia. rewrite seqZ_app by lia. f_equal. }
  unfold picks. rewrite Hsplit, count_if_app.
  assert (Hfirst : count_if (fun roll => bool_decide (roll_walk roll ((v', w) :: cs) = Some v))
    (seqZ 0 w) = if bool_decide (v' = v) then Z.to_nat w else 0%nat).
  { rewrite (count_if_const _ _ (bool_decide (v' = v))).
    - by rewrite length_seqZ.
    - apply Forall_forall. intros x Hx%elem_of_seqZ. simpl.
      rewrite (proj2 (Z.ltb_lt _ _)) by lia. apply bool_decide_ext. split; congruence. }
  rewrite Hfirst. pose proof (picks_shift cs v w v' (Z.to_nat (total_weight cs)) ltac:(lia)) as Hs.
  unfold picks in Hs. rewrite Z2Nat.id in Hs by lia. rewrite Hs.
  unfold picks in IH. rewrite Z2Nat.id in IH by lia. cbn [list_find fst].
  destruct (decide (v' = v)) as [->|Hne].
  - rewrite bool_decide_eq_true_2 by done.
    destruct (list_find (fun c => fst c = v) cs) as [[i [k x]]|] eqn:Hf.
    + apply list_find_Some in Hf as (Hi & Hk & _). simpl in Hk. subst k.
      destruct Hv. apply list_elem_of_fmap. exists (v, x). split; [done|].
      by eapply list_elem_of_lookup_2.
    + lia.
  - rewrite bool_decide_eq_false_2 by done.
    rewrite Nat.add_0_l, IH.
    by destruct (list_find (fun c => fst c = v) cs) as [[i [k x]]|].
Qed.
End routing.

Section routing_pick.
Context `{MapIter}.

Lemma routing_candidates_spec e v w :
  (v, w) ∈ routing_candidates e <->
  exists mv, me_versions e !! v = Some mv /\ w = mv_weight mv /\ 0 < w /\
    is_serving (mv_status mv) = true.
Proof.
  unfold routing_candidates. rewrite list_elem_of_omap. split.
  - intros ([v' mv] & Hin & Hc). destruct (_ && _) eqn:Hb; [|done]. injection Hc as -> <-.
    apply elem_of_map_iter in Hin. to_prop. eauto.
  - intros (mv & Hmv & -> & Hw & Hs). exists (v, mv). split; [by apply elem_of_map_iter|].
    by rewrite (proj2 (Z.ltb_lt _ _)), Hs by done.
Qed.

Lemma routing_candidates_pos e : Forall (fun c => 0 < snd c) (routing_candidates e).
Proof.
  apply Forall_forall. intros [v w] (mv & _ & _ & Hw & _)%routing_candidates_spec. done.
Qed.

Lemma routing_candidates_nodup e : NoDup (routing_candidates e).*1.
Proof.
  unfold routing_candidates. pose proof (NoDup_fst_map_iter (me_versions e)) as Hnd.
  induction (map_iter (me_versions e)) as [|[v mv] l IH]; simpl; [constructor|].
  simpl in Hnd. apply NoDup_cons in Hnd as [Hv Hnd]. specialize (IH Hnd).
  destruct (_ && _); [|done]. simpl. constructor; [|done].
  intros (c & Hc & Hin)%list_elem_of_fmap. apply list_elem_of_omap in Hin as ([v' mv'] & Hin & Hs).
  destruct (_ && _); [|done]. injection Hs as <-. simpl in Hc. subst v'.
  apply Hv. apply list_elem_of_fmap. by exists (v, mv').
Qed.

(** The weight a version has in the routing, 0 when it takes no traffic. *)
Definition routing_weight (e : ModelEntry) (v : string) : Z :=
  match me_versions e !! v with
  | Some mv => if (0 <? mv_weight mv) && is_serving (mv_status mv) then mv_weight mv else 0
  | None => 0
  end.

(** C10. Weighted routing is exactly proportional: every roll below the total weight
    of the serving versions picks a version, and the number of rolls that pick a
    given version is its weight when it is serving and 0 otherwise. *)
Theorem routing_pick_proportional (model : string) (r : ModelRegistry) (e : ModelEntry) :
  models r !! model = Some e ->
  let total := total_weight (routing_candidates e) in
  (forall roll, 0 <= roll < total -> exists v, routing_pick roll model r = Some v) /\
  (forall v, Z.of_nat (count_if (fun roll => bool_decide (routing_pick roll model r = Some v))
                         (seqZ 0 total)) = routing_weight e v).
Proof.
  intros Hm total. unfold routing_pick. rewrite Hm. fold total.
  pose proof (routing_candidates_pos e) as Hpos.
  pose proof (total_weight_nonneg _ Hpos) as Htot. fold total in Htot.
  assert (Hfind : forall v, match list_find (fun c => fst c = v) (routing_candidates e) with
    Some (_, (_, w)) => w | None => 0 end = routing_weight e v).
  { intros v. unfold routing_weight.
    destruct (list_find (fun c => fst c = v) (routing_candidates e)) as [[i [k w]]|] eqn:Hf.
    - apply list_find_Some in Hf as (Hi & Hk & _). simpl in Hk. subst k.
      apply list_elem_of_lookup_2, routing_candidates_spec in Hi as (mv & -> & -> & Hw & ->).
      by rewrite (proj2 (Z.ltb_lt _ _)) by done.
    - apply list_find_None in Hf. destruct (me_versions e !! v) as [mv|] eqn:Hv; [|done].
      destruct (_ && _) eqn:Hb; [|done]. exfalso. to_prop.
      rewrite Forall_forall in Hf. apply (Hf (v, mv_weight mv)); [|done].
      apply routing_candidates_spec. eauto. }
  destruct (Z.eqb_spec total 0) as [Hz|Hz].
  - split; [lia|]. intros v. rewrite Hz, seqZ_nil by lia. rewrite <- Hfind.
    pose proof (picks_weight _ v Hpos (routing_candidates_nodup e)) as Hp. fold total in Hp.
    rewrite Hz in Hp. simpl in Hp. done.
  - split.
    + intros roll Hroll. destruct (roll_walk_hit _ roll Hpos Hroll) as (v & w & -> & _). eauto.
    + intros v. rewrite <- Hfind, <- (picks_weight _ v Hpos (routing_candidates_nodup e)).
      unfold picks. fold total. by rewrite Z2Nat.id by done.
Qed.
End routing_pick.

(** ** Eviction *)

Section eviction.
Context `{MapIter}.

Definition never_before (a b : ModelVersion) : Prop :=
  used_before (mv_last_used_at b) (mv_last_used_at a) = false.

Lemma least_recent_spec best vs v :
  least_recent best vs = Some v ->
  (best = Some v \/ v ∈ vs) /\
  (forall b, best = Some b -> never_before v b) /\ Forall (never_before v) vs.
Proof.
  assert (Hrefl : forall x, never_before x x).
  { intros x. unfold never_before. destruct (mv_last_used_at x); simpl; [lia|done]. }
  assert (Htot : forall x y, used_before (mv_last_used_at y) (mv_last_used_at x) = true ->
    never_before y x).
  { intros x y. unfold never_before. destruct (mv_last_used_at x), (mv_last_used_at y); simpl; try done.
    intros ?%Z.ltb_lt. apply Z.ltb_ge. lia. }
  assert (Htrans : forall x y z, never_before x y -> never_before y z -> never_before x z).
  { intros x y z. unfold never_before.
    destruct (mv_last_used_at x), (mv_last_used_at y), (mv_last_used_at z); simpl; try done.
    intros ?%Z.ltb_ge ?%Z.ltb_ge. apply Z.ltb_ge. lia. }
  revert best. induction vs as [|x vs IH]; intros best Hl; simpl in Hl.
  { subst. split; [by left|]. split; [by intros b [= <-]|constructor]. }
  destruct best as [b|].
  - destruct (used_before (mv_last_used_at x) (mv_last_used_at b)) eqn:Hu.
    + apply IH in Hl as ([Hv|Hv] & Hb & Hall).
      * injection Hv as <-. split; [right; left|]. split.
        -- intros b' [= <-]. by apply Htot.
        -- by constructor.
      * split; [right; by right|]. specialize (Hb x eq_refl). split.
        -- intros b' [= <-]. eapply Htrans; [exact Hb|]. by apply Htot.
        -- by constructor.
    + apply IH in Hl as ([Hv|Hv] & Hb & Hall); (split; [|split; [done|]]).
      * by left.
      * injection Hv as <-. constructor; [|done]. exact Hu.
      * right. by right.
      * constructor; [|done]. eapply Htrans; [by apply Hb|]. exact Hu.
  - apply IH in Hl as ([Hv|Hv] & Hb & Hall); (split; [right|split; [done|]]).
    + injection Hv as <-. left.
    + injection Hv as <-. by constructor.
    + by right.
    + constructor; [|done]. by apply Hb.
Qed.

(** The eviction candidate is never the active version, and no other inactive
    version was used less recently. *)
Theorem eviction_candidate_least_used (model : string) (r : ModelRegistry) (e : ModelEntry)
    (v : string) :
  models r !! model = Some e -> map_Forall (fun k mv => mv_version mv = k) (me_versions e) ->
  lru_eviction_candidate model r = Some v ->
  active_versions r !! model <> Some v /\
  exists mv, me_versions e !! v = Some mv /\
    forall v' mv', me_versions e !! v' = Some mv' -> active_versions r !! model <> Some v' ->
      used_before (mv_last_used_at mv') (mv_last_used_at mv) = false.
Proof.
  intros Hm Hk. unfold lru_eviction_candidate. rewrite Hm.
  destruct (least_recent None _) as [mv|] eqn:Hl; [|done]. simpl. intros [= <-].
  assert (Hin : forall x, x ∈ List.filter (fun v => negb (bool_decide
      (active_versions r !! model = Some (mv_version v)))) (map snd (map_iter (me_versions e)))
    <-> active_versions r !! model <> Some (mv_version x) /\
        me_versions e !! mv_version x = Some x).
  { intros x. rewrite list_elem_of_In, filter_In, <- list_elem_of_In.
    rewrite negb_true_iff, bool_decide_eq_false. change (map snd) with (fmap (M:=list) (@snd string ModelVersion)).
    rewrite list_elem_of_fmap. split.
    - intros [([k y] & -> & Hy) Hn]. apply elem_of_map_iter in Hy. simpl in *.
      split; [done|]. by rewrite (Hk _ _ Hy).
    - intros [Hn Hx]. split; [|done]. exists (mv_version x, x). split; [done|].
      by apply elem_of_map_iter. }
  apply least_recent_spec in Hl as ([?|Hmem] & _ & Hall); [done|].
  apply Hin in Hmem as [Hn Hmv]. split; [done|]. exists mv. split; [done|].
  intros v' mv' Hv' Hn'. rewrite Forall_forall in Hall. apply (Hall mv').
  apply Hin. by rewrite (Hk _ _ Hv').
Qed.
End eviction.

(** ** Removing the active version *)

Section removal.
Context `{MapIter} {V : Type} (semver_parse : string -> option V) (semver_le : V -> V -> bool).

Lemma last_max_some {K} (le : K -> K -> bool) best l :
  (best <> None \/ l <> []) ->
  exists x, last_max le best l = Some x /\ (best = Some x \/ x ∈ l).
Proof.
  revert best. induction l as [|y l IH]; intros best Hne; simpl.
  { destruct best as [b|]; [|by destruct Hne]. exists b. by split; [|left]. }
  destruct (IH (match best with
    | Some b => if le (snd b) (snd y) then Some y else Some b | None => Some y end))
    as (x & -> & Hx).
  { left. destruct best as [b|]; [by case_goal|done]. }
  exists x. split; [done|]. destruct Hx as [Hx|Hx]; [|right; by right].
  destruct best as [b|]; [destruct (le (snd b) (snd y))|]; injection Hx as <-;
    [right; left|by left|right; left].
Qed.

(** The latest of some versions is one of them. *)
Lemma pick_latest_version_in vs :
  vs <> [] -> exists v, pick_latest_version semver_parse semver_le vs = Some v /\ v ∈ vs.
Proof.
  intros Hne. unfold pick_latest_version.
  destruct (mapM _ vs) as [sems|] eqn:Hm.
  - pose proof (length_mapM _ _ _ Hm) as Hlen.
    destruct (last_max_some semver_le None (zip vs sems)) as ([v k] & -> & [|Hin]); [|done|].
    { right. destruct vs, sems; done. }
    exists v. split; [done|]. by apply elem_of_zip_l in Hin.
  - destruct (last_max_some str_leb None (map (fun v => (v, v)) vs)) as ([v k] & -> & [|Hin]); [|done|].
    { right. by destruct vs. }
    exists v. split; [done|]. apply list_elem_of_fmap in Hin as (x & [= -> ->] & Hx). done.
Qed.

Lemma serving_versions_spec e v :
  v ∈ serving_versions e <->
  exists mv, me_versions e !! v = Some mv /\ is_serving (mv_status mv) = true.
Proof.
  unfold serving_versions. rewrite list_elem_of_omap. split.
  - intros ([k mv] & Hin & Hs). apply elem_of_map_iter in Hin. simpl in Hs.
    destruct (is_serving (mv_status mv)) eqn:Hsv; [|done]. injection Hs as <-. eauto.
  - intros (mv & Hmv & Hs). exists (v, mv). split; [by apply elem_of_map_iter|]. simpl. by rewrite Hs.
Qed.

Lemma version_serving_spec e v :
  version_serving e v = true <->
  exists mv, me_versions e !! v = Some mv /\ is_serving (mv_status mv) = true.
Proof.
  unfold version_serving. destruct (me_versions e !! v) as [mv|]; split; try done; [eauto| |].
  - by intros (? & [= <-] & ?).
  - by intros (? & ? & _).
Qed.

(** There is a replacement exactly when a version serves, and it serves. *)
Lemma replacement_spec e :
  match replacement semver_parse semver_le e with
  | Some v => version_serving e v = true /\
      (forall dv, me_default_version e = Some dv -> version_serving e dv = true -> v = dv)
  | None => forall v, version_serving e v = false
  end.
Proof.
  unfold replacement.
  assert (Hlatest : match pick_latest_version semver_parse semver_le (serving_versions e) with
    | Some v => version_serving e v = true | None => forall v, version_serving e v = false end).
  { destruct (serving_versions e) as [|v vs] eqn:Hvs.
    - simpl. intros v. destruct (version_serving e v) eqn:Hs; [|done].
      apply version_serving_spec, serving_versions_spec in Hs. rewrite Hvs in Hs.
      by apply elem_of_nil in Hs.
    - destruct (pick_latest_version_in (v :: vs)) as (x & -> & Hx); [done|].
      apply version_serving_spec, serving_versions_spec. by rewrite Hvs. }
  destruct (me_default_version e) as [dv|]; [destruct (version_serving e dv) eqn:Hdv|].
  - split; [done|]. by intros ? [= ->].
  - destruct (pick_latest_version _ _ _); [|done]. split; [done|]. intros ? [= ->]. congruence.
  - destruct (pick_latest_version _ _ _); [|done]. by split.
Qed.

(** C11. Removing the active version keeps the model serving whenever it can:
    afterwards either the active version is another one that serves, and is the
    configured default whenever that one serves, or no version other than the
    removed one was serving. *)
Theorem removing_active_version_keeps_serving (model version : string) (r : ModelRegistry)
    (e : ModelEntry) :
  models r !! model = Some e -> active_versions r !! model = Some version ->
  let r' := registry_remove semver_parse semver_le model version r in
  match active_versions r' !! model with
  | Some v => v <> version /\ is_ready model (Some v) r' = true /\
      (forall dv, me_default_version e = Some dv -> dv <> version ->
         version_serving e dv = true -> v = dv)
  | None => forall v, v <> version -> is_ready model (Some v) r = false
  end.
Proof.
  intros Hm Ha. rewrite registry_remove_eq. unfold remove_deps. cbn [models active_versions]. rewrite Hm.
  set (e' := set_entry_weights _ (set_versions (delete version (me_versions e)) e)).
  assert (Hserv : forall v, version_serving e' v
    = if decide (v = version) then false else version_serving e v).
  { intros v. unfold version_serving, e'. simpl. destruct (decide (v = version)) as [->|Hne].
    - by rewrite lookup_delete_eq.
    - by rewrite lookup_delete_ne. }
  cbn [set_models active_versions]. rewrite (bool_decide_eq_true_2 _ Ha).
  pose proof (replacement_spec e') as Hrep.
  destruct (replacement semver_parse semver_le e') as [v|].
  - destruct Hrep as [Hv Hdef]. pose proof Hv as Hv'. rewrite Hserv in Hv'.
    destruct (decide (v = version)) as [|Hne]; [done|].
    assert (Hnonempty : me_versions e' <> ∅).
    { intros Hnil. unfold version_serving in Hv. by rewrite Hnil, lookup_empty in Hv. }
    rewrite (bool_decide_eq_false_2 _ Hnonempty). simpl. rewrite lookup_insert_eq.
    split_and!; [done| |].
    + unfold is_ready, registry_get. simpl. rewrite lookup_insert_eq. exact Hv.
    + intros dv Hdv Hdn Hds. apply Hdef; [done|]. rewrite Hserv. by destruct (decide _).
  - assert (Hnone : forall v, v <> version -> is_ready model (Some v) r = false).
    { intros v Hne. specialize (Hrep v). rewrite Hserv in Hrep. destruct (decide _); [done|].
      unfold is_ready, registry_get. rewrite Hm. exact Hrep. }
    destruct (bool_decide (me_versions e' = ∅)); simpl; by rewrite lookup_delete_eq.
Qed.
End removal.

(** ** The replacement can depend on the iteration order *)

(** Another order a hash map may iterate in. *)
Definition reversed_iter : MapIter :=
  {| map_iter V m := reverse (map_to_list m);
     map_iter_perm V m := reverse_Permutation (map_to_list m) |}.

Definition serving_version (v : string) : ModelVersion :=
  {| mv_version := v; mv_status := Ready; mv_model_type := LitAPI; mv_workers := [];
     mv_loaded_at := None; mv_last_used_at := None; mv_weight := 0; mv_last_failure := None |}.

(** Three serving versions, two of which are the same semantic version. *)
Definition tied_registry : ModelRegistry :=
  {| models := {[ "m" := {| me_name := "m";
       me_versions := <[ "2" := serving_version "2" ]> (<[ "1" := serving_version "1" ]>
                        {[ "v1" := serving_version "v1" ]});
       me_load_policy := Explicit; me_max_loaded_versions := None;
       me_weights := ∅; me_default_version := None |} ]};
     active_versions := {[ "m" := "2" ]}; ensemble_deps_map := ∅ |}.

(** A fragment of semantic versioning: the major number of [n.0.0]. *)
Definition major_only (s : string) : option nat :=
  if bool_decide (s = "1.0.0") then Some 1%nat
  else if bool_decide (s = "2.0.0") then Some 2%nat else None.

(** Two names of the same semantic version tie as replacements: which one wins
    follows the iteration order of the version map. *)
Theorem replacement_depends_on_iteration_order :
  active_versions (@registry_remove canonical_iter nat major_only Nat.leb
    "m" "2" tied_registry) !! "m"
  <> active_versions (@registry_remove reversed_iter nat major_only Nat.leb
    "m" "2" tied_registry) !! "m".
Proof. vm_compute. discriminate. Qed.

(** ** Operations and entries *)

(** An operation that fails leaves the registry as it was. *)
Definition or_same (r : ModelRegistry) (x : result AppError ModelRegistry) : ModelRegistry :=
  match x with Ok r' => r' | Err _ => r end.

(** Entries are filed under their own names. *)
Definition entry_ok (m : string) (e : ModelEntry) : Prop :=
  me_name e = m /\ map_Forall (fun v mv => mv_version mv = v) (me_versions e).

(** ** Snapshot and restore *)

Section snapshot.
Context `{MapIter}.

Lemma parse_load_policy_string p : parse_load_policy (load_policy_to_string p) = p.
Proof. by destruct p. Qed.

(** The entry a restored strategy leaves under a name. *)
Definition restored_entry (m : string) (pm : PersistedModel) (o : option ModelEntry) : ModelEntry :=
  let e := default (ModelEntry_new m) o in
  {| me_name := me_name e; me_versions := me_versions e;
     me_load_policy := parse_load_policy (pm_load_policy pm);
     me_max_loaded_versions := pm_max_loaded_versions pm;
     me_weights := pm_weights pm; me_default_version := pm_default_version pm |}.

Lemma restore_strategies l r :
  NoDup l.*1 ->
  let r' := foldl (fun r np => set_strategy (fst np) (strategy_of (fst np) (snd np)) r) r l in
  active_versions r' = active_versions r /\
  forall m, models r' !! m = match (list_to_map l : gmap string PersistedModel) !! m with
    | Some pm => Some (restored_entry m pm (models r !! m))
    | None => models r !! m
    end.
Proof.
  revert r. induction l as [|[k pm] l IH]; intros r Hnd; simpl; [done|].
  apply NoDup_cons in Hnd as [Hk Hnd].
  destruct (IH (set_strategy k (strategy_of k pm) r) Hnd) as [Ha Hm].
  split; [by rewrite Ha|]. intros m. rewrite Hm. simpl. destruct (decide (m = k)) as [->|Hne].
  - rewrite (not_elem_of_list_to_map_1 l k) by done. by rewrite !lookup_insert_eq.
  - rewrite !lookup_insert_ne by done. done.
Qed.

Lemma restore_pins l r :
  NoDup l.*1 ->
  let r' := foldl (fun r nv => force_pin_active_version (fst nv) (snd nv) r) r l in
  models r' = models r /\
  forall m, active_versions r' !! m = match (list_to_map l : gmap string string) !! m with
    | Some v => Some v
    | None => active_versions r !! m
    end.
Proof.
  revert r. induction l as [|[k v] l IH]; intros r Hnd; simpl; [done|].
  apply NoDup_cons in Hnd as [Hk Hnd].
  destruct (IH (force_pin_active_version k v r) Hnd) as [Hm Ha].
  split; [by rewrite Hm|]. intros m. rewrite Ha. simpl. destruct (decide (m = k)) as [->|Hne].
  - rewrite (not_elem_of_list_to_map_1 l k) by done. by rewrite !lookup_insert_eq.
  - by rewrite !lookup_insert_ne by done.
Qed.

Lemma filter_all_true {A} (f : A -> bool) l : (forall x, f x = true) -> List.filter f l = l.
Proof. intros Hf. induction l as [|x l IH]; [done|]. simpl. by rewrite Hf, IH. Qed.

Lemma build_snapshot_models r :
  map_Forall entry_ok (models r) -> sn_models (build_snapshot r) = persisted <$> models r.
Proof.
  intros Hn. simpl.
  assert (Hmap : map (fun ne => (me_name (snd ne), persisted (snd ne))) (map_iter (models r))
    = prod_map id persisted <$> map_iter (models r)).
  { apply map_ext_in. intros [k e] Hin%list_elem_of_In. apply elem_of_map_iter in Hin.
    destruct (Hn _ _ Hin) as [Hname _]. simpl. by rewrite Hname. }
  rewrite Hmap, list_to_map_fmap. f_equal. apply list_to_map_map_iter.
Qed.

(** Saving and restoring the registry gives back every model's strategy (policy,
    version limit, weights, default version) and every active pin, when all
    directories still exist; the restored models have no versions loaded. *)
Theorem snapshot_restores_strategies_and_pins (r : ModelRegistry)
    (model_dir : string -> bool) (version_dir : string -> string -> bool) :
  map_Forall entry_ok (models r) -> (forall m, model_dir m = true) ->
  (forall m v, version_dir m v = true) ->
  let '(n, r') := restore model_dir version_dir (build_snapshot r) registry_new in
  n = size (models r) /\ active_versions r' = active_versions r /\
  (forall m, (persisted <$> models r' !! m) = (persisted <$> models r !! m)) /\
  (forall m e', models r' !! m = Some e' -> me_name e' = m /\ me_versions e' = ∅).
Proof.
  intros Hn Hmd Hvd. unfold restore. rewrite build_snapshot_models by done.
  rewrite !filter_all_true by (intros; simpl; done). cbn [sn_active_versions build_snapshot].
  destruct (restore_strategies (map_iter (persisted <$> models r)) registry_new
    (NoDup_fst_map_iter _)) as [Ha1 Hm1].
  set (r1 := foldl _ registry_new _) in *.
  destruct (restore_pins (map_iter (active_versions r)) r1 (NoDup_fst_map_iter _)) as [Hm2 Ha2].
  set (r2 := foldl _ r1 _) in *. clearbody r1 r2.
  rewrite list_to_map_map_iter in Hm1. rewrite list_to_map_map_iter in Ha2.
  rewrite length_map_iter, map_size_fmap.
  assert (Hlook : forall m, models r2 !! m
    = (fun e => restored_entry m (persisted e) None) <$> models r !! m).
  { intros m. rewrite Hm2, Hm1, lookup_fmap. by destruct (models r !! m). }
  split_and!; [done| | |].
  - apply map_eq. intros m. rewrite Ha2, Ha1. by destruct (active_versions r !! m).
  - intros m. rewrite Hlook. destruct (models r !! m) as [e|]; [|done]. simpl. f_equal.
    unfold persisted, restored_entry. simpl. by rewrite parse_load_policy_string.
  - intros m e'. rewrite Hlook. intros (e & _ & ->)%fmap_Some. done.
Qed.
End snapshot.

(** ** The theorems at concrete inputs *)

Definition demo_version (v : string) (s : VersionStatus) (w : Z) : ModelVersion :=
  {| mv_version := v; mv_status := s; mv_model_type := LitAPI; mv_workers := [];
     mv_loaded_at := None; mv_last_used_at := Some w; mv_weight := w; mv_last_failure := None |}.

(** Two serving versions, one impaired, and one that is still loading. *)
Definition demo_entry : ModelEntry :=
  {| me_name := "m";
     me_versions := <[ "1" := demo_version "1" Ready 1 ]> (<[ "2" := demo_version "2" Impaired 3 ]>
                      {[ "3" := demo_version "3" Loading 9 ]});
     me_load_policy := Latest; me_max_loaded_versions := Some 3;
     me_weights := {[ "1" := 1 ]}; me_default_version := Some "1" |}.

Definition demo_registry : ModelRegistry :=
  {| models := {[ "m" := demo_entry ]}; active_versions := {[ "m" := "2" ]};
     ensemble_deps_map := ∅ |}.

Lemma demo_entry_ok : map_Forall entry_ok (models demo_registry).
Proof.
  intros m e. simpl. intros [<- <-]%lookup_singleton_Some. split; [done|].
  intros v mv. simpl. intros [[<- <-]|[_ [[<- <-]|[_ [<- <-]%lookup_singleton_Some]]%lookup_insert_Some]]%lookup_insert_Some;
    done.
Qed.

Lemma routing_pick_witness :
  let total := total_weight (routing_candidates demo_entry) in
  (forall roll, 0 <= roll < total -> exists v, routing_pick roll "m" demo_registry = Some v) /\
  (forall v, Z.of_nat (count_if (fun roll => bool_decide (routing_pick roll "m" demo_registry = Some v))
                         (seqZ 0 total)) = routing_weight demo_entry v).
Proof. apply (routing_pick_proportional "m" demo_registry demo_entry). reflexivity. Defined.

Lemma eviction_candidate_witness :
  lru_eviction_candidate "m" demo_registry = Some "1" /\
  active_versions demo_registry !! "m" <> Some "1".
Proof.
  split; [vm_compute; reflexivity|].
  apply (eviction_candidate_least_used "m" demo_registry demo_entry "1").
  - reflexivity.
  - exact (proj2 (demo_entry_ok "m" demo_entry eq_refl)).
  - vm_compute. reflexivity.
Defined.

Lemma removing_active_witness :
  let r' := registry_remove major_only Nat.leb "m" "2" demo_registry in
  match active_versions r' !! "m" with
  | Some v => v <> "2" /\ is_ready "m" (Some v) r' = true /\
      (forall dv, Some "1" = Some dv -> dv <> "2" -> version_serving demo_entry dv = true -> v = dv)
  | None => forall v, v <> "2" -> is_ready "m" (Some v) demo_registry = false
  end.
Proof.
  apply (removing_active_version_keeps_serving major_only Nat.leb
    "m" "2" demo_registry demo_entry); reflexivity.
Defined.

Lemma snapshot_witness :
  let '(n, r') := restore (fun _ => true) (fun _ _ => true) (build_snapshot demo_registry) registry_new in
  n = 1%nat /\ active_versions r' = {[ "m" := "2" ]} /\
  (forall m, (persisted <$> models r' !! m) = (persisted <$> models demo_registry !! m)) /\
  (forall m e', models r' !! m = Some e' -> me_name e' = m /\ me_versions e' = ∅).
Proof.
  apply (snapshot_restores_strategies_and_pins demo_registry (fun _ => true) (fun _ _ => true)
    demo_entry_ok); reflexivity.
Defined.
