(* ===== verification/RegistryRace.v ===== *)
(** * Interleaved registry operations

    [activate_version] and [remove] of [src/src/registry/mod.rs] take several locks one
    after the other, so calls of other tasks come between their parts.  Here a call is a
    task that advances one locked part at a time, next to the calls that take one lock.
    The active pointer leads to a loaded version as long as no registration or activation
    of a model overlaps a removal of the same model; the two races that this excludes are
    proved to leave a pointer to nothing. *)

From S2P Require Import Prelude Text Errors Registry RegistryProps.

Section race.
Context `{MapIter} {V : Type} (semver_parse : string -> option V) (semver_le : V -> V -> bool).

(** ** Calls and tasks *)

(** The calls that change the registry under one lock (pins restored from a snapshot
    aside). *)
Inductive registry_op :=
  | RRegister (m v : string) (t : ModelType)
  | RSetStatus (m v : string) (s : VersionStatus)
  | RMarkReady (now : Z) (m v : string)
  | RMarkWarmingUp (m v : string)
  | RMarkFailed (m v reason : string)
  | RSetWorkers (m v : string) (ws : list WorkerInfo)
  | RReplaceWorker (m v : string) (id : nat) (info : WorkerInfo)
  | RWorkerStopped (m v : string) (id : nat)
  | RDeactivate (m : string)
  | RTouch (now : Z) (m v : string)
  | RSetWeights (m : string) (ws : gmap string Z)
  | RSetStrategy (m : string) (st : ModelStrategyConfig)
  | RSetDeps (m v : string) (deps : list (string * option string)).

Definition registry_apply (o : registry_op) (r : ModelRegistry) : ModelRegistry :=
  match o with
  | RRegister m v t => snd (register m v t r)
  | RSetStatus m v s => or_same r (set_status m v s r)
  | RMarkReady now m v => or_same r (mark_ready now m v r)
  | RMarkWarmingUp m v => or_same r (mark_warming_up m v r)
  | RMarkFailed m v reason => or_same r (mark_failed m v reason r)
  | RSetWorkers m v ws => or_same r (set_workers m v ws r)
  | RReplaceWorker m v id info => or_same r (replace_worker m v id info r)
  | RWorkerStopped m v id => mark_worker_stopped m v id r
  | RDeactivate m => deactivate m r
  | RTouch now m v => touch_last_used now m v r
  | RSetWeights m ws => or_same r (set_weights m ws r)
  | RSetStrategy m st => set_strategy m st r
  | RSetDeps m v deps => set_ensemble_deps m v deps r
  end.

(** A call between two of its locks: an activation that found the version [Ready] and has
    not pinned it, and a removal before each of its parts ([last]: no version is left). *)
Inductive task :=
  | Activating (m v : string)
  | Removing (m v : string)
  | Dropped (m v : string) (last : bool)
  | Unpinning (m v : string) (last : bool)
  | Repinning (m v : string) (last : bool)
  | Emptying (m v : string).

Definition finish (m v : string) (last : bool) : option task :=
  if last then Some (Emptying m v) else None.

(** The next locked part of a call; [None]: it returns. *)
Definition advance (t : task) (r : ModelRegistry) : option task * ModelRegistry :=
  match t with
  | Activating m v => (None, activate_pin m v r)
  | Removing m v =>
      let '(last, r) := remove_version_entry m v r in (Dropped m v <$> last, r)
  | Dropped m v last => (if was_active m v r then Some (Unpinning m v last) else finish m v last, r)
  | Unpinning m v last => (Some (Repinning m v last), remove_pin m r)
  | Repinning m v last => (finish m v last, repin semver_parse semver_le m r)
  | Emptying m v => (None, remove_model_entry m r)
  end.

Record world := { reg : ModelRegistry; tasks : list task }.

Definition world_new : world := {| reg := registry_new; tasks := [] |}.

Inductive event :=
  | Call (o : registry_op)
  | StartActivate (m v : string)
  | StartRemove (m v : string)
  | Advance (n : nat).

Definition event_apply (e : event) (s : world) : world :=
  match e with
  | Call o => {| reg := registry_apply o (reg s); tasks := tasks s |}
  | StartActivate m v =>
      {| reg := reg s;
         tasks := match activate_check m v (reg s) with
                  | Ok true => tasks s ++ [Activating m v]
                  | _ => tasks s
                  end |}
  | StartRemove m v => {| reg := remove_deps m v (reg s); tasks := tasks s ++ [Removing m v] |}
  | Advance n =>
      match tasks s !! n with
      | None => s
      | Some t =>
          let '(t', r) := advance t (reg s) in
          {| reg := r;
             tasks := match t' with Some t' => <[n := t']> (tasks s) | None => delete n (tasks s) end |}
      end
  end.

Definition world_run (es : list event) (s : world) : world := foldl (fun s e => event_apply e s) s es.

(** A call left alone is the whole operation. *)
Lemma activation_in_steps m v r :
  world_run [StartActivate m v; Advance 0] {| reg := r; tasks := [] |}
  = {| reg := snd (activate_version m v r); tasks := [] |}.
Proof. simpl. unfold activate_version. by destruct (activate_check m v r) as [[]|]. Qed.

Lemma removal_in_steps m v r :
  world_run (StartRemove m v :: replicate 5 (Advance 0)) {| reg := r; tasks := [] |}
  = {| reg := registry_remove semver_parse semver_le m v r; tasks := [] |}.
Proof.
  unfold registry_remove. simpl.
  destruct (remove_version_entry m v (remove_deps m v r)) as [[last|] r1]; [|done]. simpl.
  by destruct (was_active m v r1), last.
Qed.

(** ** Overlaps *)

Definition activates (m : string) (t : task) : bool :=
  match t with Activating m' _ => String.eqb m m' | _ => false end.

Definition removes (m : string) (t : task) : bool :=
  match t with
  | Activating _ _ => false
  | Removing m' _ | Dropped m' _ _ | Unpinning m' _ _ | Repinning m' _ _ | Emptying m' _ => String.eqb m m'
  end.

(** The removal has dropped the version and not yet looked after the pin. *)
Definition unpins (m v : string) (t : task) : bool :=
  match t with
  | Dropped m' v' _ | Unpinning m' v' _ => String.eqb m m' && String.eqb v v'
  | _ => false
  end.

Definition removal_under_way (m : string) (s : world) : bool := existsb (removes m) (tasks s).
Definition activation_under_way (m : string) (s : world) : bool := existsb (activates m) (tasks s).

(** Registrations and activations of a model stay clear of its removals. *)
Definition apart (e : event) (s : world) : bool :=
  match e with
  | Call (RRegister m _ _) | StartActivate m _ => negb (removal_under_way m s)
  | StartRemove m _ => negb (activation_under_way m s)
  | _ => true
  end.

Inductive reached : world -> Prop :=
  | reached_new : reached world_new
  | reached_step s e : reached s -> apart e s = true -> reached (event_apply e s).

Fixpoint all_apart (es : list event) (s : world) : bool :=
  match es with
  | [] => true
  | e :: es => apart e s && all_apart es (event_apply e s)
  end.

Lemma reached_run es s : reached s -> all_apart es s = true -> reached (world_run es s).
Proof.
  revert s. induction es as [|e es IH]; intros s Hs He; [done|].
  apply andb_true_iff in He as [Ha He]. apply IH; [by apply reached_step|done].
Qed.

(** ** What the calls keep *)

Definition versions_of (m : string) (r : ModelRegistry) : gset string :=
  match models r !! m with Some e => dom (me_versions e) | None => ∅ end.

Definition names_ok (r : ModelRegistry) : Prop := map_Forall entry_ok (models r).

(** The entries stay under their names, with the same versions. *)
Definition keeps (r r' : ModelRegistry) : Prop :=
  names_ok r' /\ forall m, versions_of m r' = versions_of m r.

Lemma versions_of_insert m m' e r :
  versions_of m' (set_models (<[m := e]> (models r)) r)
  = if decide (m = m') then dom (me_versions e) else versions_of m' r.
Proof.
  unfold versions_of. simpl. destruct (decide (m = m')) as [->|Hne].
  - by rewrite lookup_insert_eq.
  - by rewrite lookup_insert_ne.
Qed.

Lemma names_ok_insert m e r :
  names_ok r -> entry_ok m e -> names_ok (set_models (<[m := e]> (models r)) r).
Proof. intros Hn He. by apply map_Forall_insert_2. Qed.

Lemma keeps_insert m e r :
  names_ok r -> entry_ok m e -> dom (me_versions e) = versions_of m r ->
  keeps r (set_models (<[m := e]> (models r)) r).
Proof.
  intros Hn He Hd. split; [by apply names_ok_insert|]. intros m'. rewrite versions_of_insert.
  by case_decide; subst.
Qed.

Lemma keeps_update m v f r :
  (forall mv, mv_version (f mv) = mv_version mv) ->
  names_ok r -> keeps r (or_same r (update_version m v f r)).
Proof.
  intros Hf Hn. unfold update_version.
  destruct (models r !! m) as [e|] eqn:He; simpl; [|done].
  destruct (me_versions e !! v) as [mv|] eqn:Hv; simpl; [|done].
  destruct (Hn _ _ He) as [Hname Hvs].
  apply keeps_insert; [done| |].
  - split; [done|]. simpl. apply map_Forall_insert_2; [|done]. rewrite Hf. by apply (Hvs v).
  - unfold versions_of. rewrite He. simpl. rewrite dom_insert_lookup_L; [done|eauto].
Qed.

Lemma entry_ok_default m r : names_ok r -> entry_ok m (default (ModelEntry_new m) (models r !! m)).
Proof.
  intros Hn. destruct (models r !! m) as [e|] eqn:He; simpl; [by apply Hn|].
  split; [done|]. apply map_Forall_empty.
Qed.

Lemma versions_default m r :
  dom (me_versions (default (ModelEntry_new m) (models r !! m))) = versions_of m r.
Proof. unfold versions_of. destruct (models r !! m); [done|]. apply dom_empty_L. Qed.

Lemma keeps_call o r :
  (forall m v t, o <> RRegister m v t) -> names_ok r -> keeps r (registry_apply o r).
Proof.
  intros Ho Hn. destruct o as [m v t| | | | | | | | | |m ws|m st|]; simpl;
    try done; try (by apply keeps_update).
  - by destruct (Ho m v t).
  - unfold touch_last_used. case_goal; [done|]. by apply keeps_update.
  - unfold set_weights. destruct (models r !! m) as [e|] eqn:He; simpl; [|done].
    destruct (decide _); simpl; [|done]. destruct (Hn _ _ He) as [Hname Hvs].
    apply keeps_insert; [done| |].
    + split; [done|]. intros k mv Hk. simpl in Hk. rewrite map_lookup_imap in Hk.
      destruct (me_versions e !! k) as [mv0|] eqn:Hmv0; simpl in Hk; [|done].
      injection Hk as <-. simpl. by apply (Hvs k).
    + unfold versions_of. rewrite He. apply set_eq. intros k. rewrite !elem_of_dom. simpl.
      rewrite map_lookup_imap. by destruct (me_versions e !! k).
  - unfold set_strategy. apply keeps_insert; [done| |apply versions_default].
    destruct (entry_ok_default m r Hn). by split.
Qed.

Lemma register_grows m v t r :
  names_ok r -> names_ok (snd (register m v t r)) /\
  (forall m', versions_of m' r ⊆ versions_of m' (snd (register m v t r))) /\
  (forall m', m' <> m -> versions_of m' (snd (register m v t r)) = versions_of m' r).
Proof.
  intros Hn. unfold register. pose proof (entry_ok_default m r Hn) as Hdef.
  pose proof (versions_default m r) as Hdom. set (e := default _ _) in *.
  assert (Hk : keeps r (set_models (<[m := e]> (models r)) r)) by (by apply keeps_insert).
  destruct Hk as [Hn1 Hv1]. set (r1 := set_models (<[m := e]> (models r)) r) in *.
  cbn zeta. destruct (me_versions e !! v); cbn [snd]; [by split_and!; [|intros ?; rewrite Hv1|]|].
  split_and!.
  - apply names_ok_insert; [done|]. destruct Hdef as [Hname Hvs]. split; [done|]. simpl.
    by apply map_Forall_insert_2.
  - intros m'. rewrite versions_of_insert, <- Hv1. case_decide as Hd; [|done]. subst m'.
    rewrite Hv1, <- Hdom. simpl. rewrite dom_insert_L. set_solver.
  - intros m' Hne. rewrite versions_of_insert, <- Hv1. by case_decide.
Qed.

(** ** The invariant *)

(** A removal that found no version left, until the entry is gone. *)
Definition leaves (t : task) : option string :=
  match t with
  | Dropped m _ true | Unpinning m _ true | Repinning m _ true | Emptying m _ => Some m
  | _ => None
  end.

Record world_ok (s : world) : Prop := {
  wo_names : names_ok (reg s);
  wo_active : forall m v, active_versions (reg s) !! m = Some v ->
    v ∈ versions_of m (reg s) \/ exists t, t ∈ tasks s /\ unpins m v t = true;
  wo_leaves : forall t m, t ∈ tasks s -> leaves t = Some m -> versions_of m (reg s) = ∅;
  wo_activating : forall m v, Activating m v ∈ tasks s ->
    v ∈ versions_of m (reg s) /\ removal_under_way m s = false;
}.

Lemma removal_under_way_true m s :
  removal_under_way m s = true <-> exists t, t ∈ tasks s /\ removes m t = true.
Proof. unfold removal_under_way. rewrite existsb_exists. by setoid_rewrite list_elem_of_In. Qed.

Lemma removal_under_way_false m s t :
  removal_under_way m s = false -> t ∈ tasks s -> removes m t = false.
Proof.
  intros Hf Ht. destruct (removes m t) eqn:E; [|done].
  rewrite (proj2 (removal_under_way_true m s)) in Hf; [done|eauto].
Qed.

(** The tasks after one of them advanced. *)
Definition moved (n : nat) (t' : option task) (l : list task) : list task :=
  match t' with Some t' => <[n := t']> l | None => delete n l end.

Lemma moved_old n t' l x : x ∈ moved n t' l -> x ∈ l \/ t' = Some x.
Proof.
  destruct t' as [t'|]; simpl.
  - intros [i Hi]%list_elem_of_lookup. apply list_lookup_insert_Some in Hi as [(-> & -> & _)|[_ Hi]];
      [by right|left; by eapply list_elem_of_lookup_2].
  - intros Hx. left. by eapply list_elem_of_delete_inv.
Qed.

Lemma moved_kept n t' l x y : l !! n = Some y -> x ∈ l -> x = y \/ x ∈ moved n t' l.
Proof.
  intros Hn [i Hi]%list_elem_of_lookup. destruct (decide (i = n)) as [->|Hne]; [left; congruence|right].
  destruct t' as [t'|]; simpl.
  - apply list_elem_of_lookup. exists i. by rewrite list_lookup_insert_ne.
  - apply list_elem_of_lookup. destruct (decide (i < n)%nat).
    + exists i. by rewrite list_lookup_delete_lt.
    + exists (i - 1)%nat. rewrite list_lookup_delete_ge by lia. by replace (S (i - 1)) with i by lia.
Qed.
(** What a part of a call must respect for the invariant to survive it. *)
Lemma world_ok_moved s n t t' r' :
  world_ok s -> tasks s !! n = Some t -> names_ok r' ->
  (forall m v, active_versions r' !! m = Some v ->
     v ∈ versions_of m r' \/ (exists x, t' = Some x /\ unpins m v x = true) \/
     (active_versions (reg s) !! m = Some v /\ unpins m v t = false /\
      (v ∈ versions_of m (reg s) -> v ∈ versions_of m r'))) ->
  (forall m, versions_of m (reg s) = ∅ -> versions_of m r' = ∅) ->
  (forall x m, t' = Some x -> leaves x = Some m -> versions_of m r' = ∅) ->
  (forall m, removes m t = false -> versions_of m r' = versions_of m (reg s)) ->
  (forall x, t' = Some x -> forall m, removes m x = removes m t /\ activates m x = false) ->
  world_ok {| reg := r'; tasks := moved n t' (tasks s) |}.
Proof.
  intros [Hn Ha Hl Hc] Ht Hn' Ha' Hempty Hleft Hsame Hkind. split; simpl; [done|..].
  - intros m v Hv. destruct (Ha' m v Hv) as [|[(x & -> & Hx)|(Hold & Hu & Hk)]]; [by left| |].
    + right. exists x. split; [|done]. simpl. apply (list_elem_of_lookup_2 _ n).
      apply list_lookup_insert_eq. by eapply lookup_lt_Some.
    + destruct (Ha m v Hold) as [Hin|(x & Hx & Hux)]; [left; by apply Hk|right].
      exists x. split; [|done]. destruct (moved_kept n t' _ x t Ht Hx) as [->|]; [congruence|done].
  - intros x m [Hx| ->]%moved_old Hlx; [|by eapply Hleft]. apply Hempty. by eapply Hl.
  - intros m v [Hx|Hx]%moved_old.
    2:{ destruct (Hkind _ Hx m) as [_ Hf]. simpl in Hf. by rewrite String.eqb_refl in Hf. }
    destruct (Hc m v Hx) as [Hin Hr].
    pose proof (removal_under_way_false m s t Hr ltac:(by eapply list_elem_of_lookup_2)) as Hrt.
    rewrite Hsame by done. split; [done|].
    apply not_true_iff_false. intros (y & Hy & Hry)%removal_under_way_true.
    simpl in Hy. apply moved_old in Hy as [Hy|Hy].
    + by rewrite (removal_under_way_false m s y Hr Hy) in Hry.
    + destruct (Hkind _ Hy m) as [Hk _]. congruence.
Qed.

Lemma versions_of_dropped m v r last r' :
  names_ok r -> remove_version_entry m v r = (last, r') ->
  names_ok r' /\ active_versions r' = active_versions r /\
  (forall m', versions_of m' r' = if decide (m' = m) then versions_of m r ∖ {[ v ]} else versions_of m' r) /\
  (last = Some true -> versions_of m r' = ∅) /\ (last = None -> r' = r).
Proof.
  intros Hn. unfold remove_version_entry. destruct (models r !! m) as [e|] eqn:He; intros [= <- <-].
  2:{ split_and!; try done. intros m'. case_decide; [|done]. subst. unfold versions_of.
      rewrite He. set_solver. }
  destruct (Hn _ _ He) as [Hname Hvs]. split_and!; [|done| | |done].
  - apply names_ok_insert; [done|]. split; [done|]. simpl. by apply map_Forall_delete.
  - intros m'. rewrite versions_of_insert. simpl. rewrite dom_delete_L.
    unfold versions_of at 2. rewrite He. destruct (decide (m = m')) as [->|Hne];
      [by rewrite decide_True|by rewrite decide_False].
  - intros [= Hb]. apply bool_decide_eq_true_1 in Hb. rewrite versions_of_insert, decide_True by done.
    simpl in Hb |- *. by rewrite Hb, dom_empty_L.
Qed.

Lemma finish_leaves m v last x m' :
  finish m v last = Some x -> leaves x = Some m' -> m' = m /\ last = true.
Proof. unfold finish. destruct last; [|done]. by intros [= <-] [= <-]. Qed.

Lemma finish_kind m v last x m' :
  finish m v last = Some x -> removes m' x = String.eqb m' m /\ activates m' x = false.
Proof. unfold finish. destruct last; [|done]. by intros [= <-]. Qed.

Lemma world_ok_advance n s : world_ok s -> world_ok (event_apply (Advance n) s).
Proof.
  intros Hok. simpl. destruct (tasks s !! n) as [t|] eqn:Ht; [|done].
  pose proof (list_elem_of_lookup_2 _ _ _ Ht) as Hin.
  destruct (advance t (reg s)) as [t' r'] eqn:Hadv.
  change (match t' with Some t' => <[n:=t']> (tasks s) | None => delete n (tasks s) end)
    with (moved n t' (tasks s)).
  destruct t as [m v|m v|m v last|m v last|m v last|m v]; simpl in Hadv.
  - injection Hadv as <- <-. eapply world_ok_moved; try done; [apply Hok|].
    intros m' v'. simpl. intros [[<- <-]|[_ Hv]]%lookup_insert_Some.
    + left. by apply (wo_activating _ Hok).
    + by right; right.
  - destruct (remove_version_entry m v (reg s)) as [last r1] eqn:Hd. injection Hadv as <- <-.
    apply versions_of_dropped in Hd as (Hn & Ha & Hv & Hl & Hnone); [|apply Hok].
    eapply world_ok_moved; try done.
    + intros m' v' Hact. rewrite Ha in Hact.
      destruct (decide (m' = m /\ v' = v)) as [[-> ->]|Hne].
      * destruct last as [last|].
        -- right; left. eexists. split; [done|]. simpl. by rewrite !String.eqb_refl.
        -- right; right. split_and!; [done|done|]. by rewrite (Hnone eq_refl).
      * right; right. split_and!; [done|done|]. rewrite Hv. case_decide; [|done]. subst. set_solver.
    + intros m' He. rewrite Hv. case_decide; subst; set_solver.
    + intros x m' (last' & -> & ->)%fmap_Some Hx. destruct last'; [|done]. injection Hx as <-. by apply Hl.
    + intros m' Hm. simpl in Hm. rewrite Hv. case_decide; [|done]. subst. by rewrite String.eqb_refl in Hm.
    + intros x (last' & -> & ->)%fmap_Some m'. by split.
  - injection Hadv as <- <-. eapply world_ok_moved; try done; [apply Hok| |..].
    + intros m' v' Hv. destruct (was_active m v (reg s)) eqn:Hw.
      * destruct (unpins m' v' (Dropped m v last)) eqn:Hu; [|by right; right].
        right; left. eexists. split; [done|]. exact Hu.
      * right; right. split_and!; [done| |done]. apply not_true_iff_false. simpl.
        intros [->%String.eqb_eq ->%String.eqb_eq]%andb_true_iff.
        unfold was_active in Hw. by rewrite bool_decide_eq_true_2 in Hw.
    + intros x m' Hx Hlx. assert (m' = m /\ last = true) as [-> ->].
      { destruct (was_active m v (reg s)); [|by eapply finish_leaves].
        injection Hx as <-. simpl in Hlx. by destruct last; simplify_eq. }
      by eapply (wo_leaves _ Hok).
    + intros x Hx m'. destruct (was_active m v (reg s)); [by injection Hx as <-|by eapply finish_kind].
  - injection Hadv as <- <-. eapply world_ok_moved; try done; [apply Hok| |..].
    + intros m' v'. simpl. intros [Hne Hv]%lookup_delete_Some. right; right. split_and!; [done| |done].
      simpl. by rewrite (proj2 (String.eqb_neq _ _) (not_eq_sym Hne)).
    + intros x m' [= <-] Hlx. simpl in Hlx. destruct last; [|done]. injection Hlx as <-.
      by eapply (wo_leaves _ Hok).
    + by intros x [= <-] m'.
  - injection Hadv as <- <-.
    assert (Hm : models (repin semver_parse semver_le m (reg s)) = models (reg s)).
    { unfold repin. destruct (models (reg s) !! m); [|done]. by destruct (replacement _ _ _). }
    assert (Hv : forall m', versions_of m' (repin semver_parse semver_le m (reg s)) = versions_of m' (reg s))
      by (intros m'; unfold versions_of; by rewrite Hm).
    eapply world_ok_moved; try done.
    + unfold names_ok. rewrite Hm. apply Hok.
    + intros m' v'. rewrite Hv. unfold repin. destruct (models (reg s) !! m) as [e|] eqn:He; [|by right; right].
      pose proof (replacement_spec semver_parse semver_le e) as Hrep.
      destruct (replacement semver_parse semver_le e) as [w|]; [|by right; right]. simpl.
      intros [[<- <-]|[_ Hact]]%lookup_insert_Some; [left|by right; right].
      destruct Hrep as [(mv & Hmv & _)%version_serving_spec _]. unfold versions_of. rewrite He.
      apply elem_of_dom. eauto.
    + intros m'. by rewrite Hv.
    + intros x m' Hx Hlx. rewrite Hv. destruct (finish_leaves _ _ _ _ _ Hx Hlx) as [-> ->].
      by eapply (wo_leaves _ Hok).
    + intros x Hx m'. by eapply finish_kind.
  - injection Hadv as <- <-. pose proof (wo_leaves _ Hok _ m Hin eq_refl) as Hempty.
    assert (Hv : forall m', versions_of m' (remove_model_entry m (reg s)) = versions_of m' (reg s)).
    { intros m'. destruct (decide (m' = m)) as [->|Hne].
      - rewrite Hempty. unfold versions_of. simpl. by rewrite lookup_delete_eq.
      - unfold versions_of. simpl. by rewrite lookup_delete_ne. }
    eapply world_ok_moved; try done.
    + simpl. apply map_Forall_delete, Hok.
    + intros m' v' Hact. right; right. by rewrite Hv.
    + intros m'. by rewrite Hv.
Qed.

Lemma call_active o r m v :
  active_versions (registry_apply o r) !! m = Some v -> active_versions r !! m = Some v.
Proof.
  assert (Hu : forall m' v' f, active_versions (or_same r (update_version m' v' f r)) !! m = Some v ->
    active_versions r !! m = Some v).
  { intros m' v' f. unfold update_version. destruct (models r !! m') as [e|]; simpl; [|done].
    by destruct (me_versions e !! v'). }
  destruct o; simpl; try done; try (exact (Hu _ _ _)).
  - unfold register. by destruct (me_versions _ !! v0).
  - by intros [_ Hv]%lookup_delete_Some.
  - unfold touch_last_used. case_goal; [done|]. exact (Hu _ _ _).
  - unfold set_weights. destruct (models r !! m0); simpl; [|done]. by destruct (decide _).
Qed.

Lemma leaves_removes t m : leaves t = Some m -> removes m t = true.
Proof.
  destruct t as [m' v|m' v|m' v last|m' v last|m' v last|m' v]; simpl; try done; try destruct last;
    try done; intros [= ->]; apply String.eqb_refl.
Qed.

Lemma world_ok_call o s : world_ok s -> apart (Call o) s = true -> world_ok (event_apply (Call o) s).
Proof.
  intros [Hn Ha Hl Hc] Hap. destruct o as [m v t| | | | | | | | | | | |] eqn:Ho.
  { apply negb_true_iff in Hap. destruct (register_grows m v t (reg s) Hn) as (Hn' & Hgrow & Hsame).
    split; simpl; [done|..].
    - intros m' v' Hv. apply (call_active (RRegister m v t)) in Hv.
      destruct (Ha _ _ Hv) as [Hin|]; [left; by apply Hgrow|by right].
    - intros x m' Hx Hlx. rewrite Hsame; [by eapply Hl|]. intros ->.
      apply leaves_removes in Hlx. by rewrite (removal_under_way_false m s x Hap Hx) in Hlx.
    - intros m' v' Hx. destruct (Hc _ _ Hx) as [Hin Hr]. split; [by apply Hgrow|done]. }
  all: destruct (keeps_call o (reg s) ltac:(by subst) Hn) as [Hn' Hsame]; rewrite Ho in Hn', Hsame;
    (split; simpl; [done|intros m' v' Hv|intros x m' Hx Hlx|intros m' v' Hx]; rewrite Hsame);
    [|by eapply Hl|by apply Hc]; apply Ha; by apply (call_active o); subst o.
Qed.

Lemma removal_under_way_snoc m s r t :
  removal_under_way m {| reg := r; tasks := tasks s ++ [t] |} = removal_under_way m s || removes m t.
Proof. unfold removal_under_way. simpl. rewrite existsb_app. simpl. by rewrite orb_false_r. Qed.

Lemma world_ok_activate m v s :
  world_ok s -> apart (StartActivate m v) s = true -> world_ok (event_apply (StartActivate m v) s).
Proof.
  intros [Hn Ha Hl Hc] Hap. simpl. apply negb_true_iff in Hap.
  destruct (activate_check m v (reg s)) as [[|]|] eqn:Hchk; try (by destruct s).
  split; simpl; [done|..].
  - intros m' v' Hv. destruct (Ha _ _ Hv) as [|(t & Ht & Hu)]; [by left|right].
    exists t. rewrite elem_of_app. auto.
  - intros x m' [Hx| ->%list_elem_of_singleton]%elem_of_app Hlx; [by eapply Hl|done].
  - intros m' v' Hx. rewrite removal_under_way_snoc, orb_false_r.
    apply elem_of_app in Hx as [Hx|[= -> ->]%list_elem_of_singleton]; [by apply Hc|]. split; [|done].
    unfold activate_check in Hchk. unfold versions_of. destruct (models (reg s) !! m) as [e|]; [|done].
    apply elem_of_dom. destruct (me_versions e !! v); [eauto|done].
Qed.

Lemma world_ok_remove m v s :
  world_ok s -> apart (StartRemove m v) s = true -> world_ok (event_apply (StartRemove m v) s).
Proof.
  intros [Hn Ha Hl Hc] Hap. simpl. apply negb_true_iff in Hap. split; simpl; [done|..].
  - intros m' v' Hv. destruct (Ha _ _ Hv) as [|(t & Ht & Hu)]; [by left|right].
    exists t. rewrite elem_of_app. auto.
  - intros x m' [Hx| ->%list_elem_of_singleton]%elem_of_app Hlx; [by eapply Hl|done].
  - intros m' v' [Hx|Hx%list_elem_of_singleton]%elem_of_app; [|done].
    destruct (Hc _ _ Hx) as [Hin Hr]. split; [done|]. rewrite removal_under_way_snoc, Hr. simpl.
    apply String.eqb_neq. intros ->. unfold activation_under_way in Hap.
    rewrite (proj2 (existsb_exists _ _)) in Hap; [done|].
    exists (Activating m v'). split; [by apply list_elem_of_In|apply String.eqb_refl].
Qed.

Lemma world_ok_reached s : reached s -> world_ok s.
Proof.
  induction 1 as [|s e Hs IH Hap].
  { split; simpl; [apply map_Forall_empty|by intros ?? ?|by intros ?? []%elem_of_nil|
      by intros ?? []%elem_of_nil]. }
  destruct e; [by apply world_ok_call|by apply world_ok_activate|by apply world_ok_remove|
    by apply world_ok_advance].
Qed.

(** C12. In every interleaving of registry calls, with activation and removal taken
    one locked part at a time, the active version of a model is loaded: get without
    a version returns the entry stored under the active version's name. The
    conditions: registrations and activations of a model do not overlap its
    removals, pins are not seeded from a snapshot, and no removal of that very
    version is between dropping it and looking after the pin. *)
Theorem active_version_always_loaded (s : world) (m v : string) :
  reached s -> active_versions (reg s) !! m = Some v -> existsb (unpins m v) (tasks s) = false ->
  exists mv, registry_get m None (reg s) = Some mv /\ registry_get m (Some v) (reg s) = Some mv /\
    mv_version mv = v.
Proof.
  intros Hs Hv Hno. pose proof (world_ok_reached s Hs) as Hok.
  destruct (wo_active _ Hok _ _ Hv) as [Hin|(t & Ht & Hu)].
  2:{ rewrite (proj2 (existsb_exists _ _)) in Hno; [done|]. exists t. by rewrite <- list_elem_of_In. }
  unfold versions_of in Hin. destruct (models (reg s) !! m) as [e|] eqn:He; [|by apply not_elem_of_empty in Hin].
  apply elem_of_dom in Hin as [mv Hmv]. exists mv. unfold registry_get. rewrite He, Hv.
  split_and!; [done|done|]. destruct (wo_names _ Hok _ _ He) as [_ Hvs]. by apply (Hvs v).
Qed.
End race.

(** ** The races *)

Definition run (es : list event) : world := world_run major_only Nat.leb es world_new.

Definition one_active : list event :=
  [Call (RRegister "m" "1" LitAPI); Call (RMarkReady 5 "m" "1"); StartActivate "m" "1"; Advance 0].

(** The version is removed between the check of an activation and its pin: the pointer
    leads nowhere, and both calls returned without an error. *)
Theorem activation_races_removal :
  let s := run [Call (RRegister "m" "1" LitAPI); Call (RMarkReady 5 "m" "1"); StartActivate "m" "1";
                StartRemove "m" "1"; Advance 1; Advance 1; Advance 1; Advance 0] in
  tasks s = [] /\ get_active_version "m" (reg s) = Some "1" /\ registry_get "m" (Some "1") (reg s) = None.
Proof. by vm_compute. Qed.

(** A version registered while the last other one is removed goes with the entry, and the
    pointer the removal itself has moved to it stays. *)
Theorem registration_races_removal :
  let s := run (one_active ++ [StartRemove "m" "1"; Advance 0; Call (RRegister "m" "2" LitAPI);
                Call (RMarkReady 6 "m" "2"); Advance 0; Advance 0; Advance 0; Advance 0]) in
  tasks s = [] /\ get_active_version "m" (reg s) = Some "2" /\ registry_get "m" (Some "2") (reg s) = None.
Proof. by vm_compute. Qed.

(** ** The theorem at a concrete input *)

(** Two versions, the active one being removed while the other's status changes: the
    removal has pinned the replacement. *)
Lemma active_version_loaded_witness :
  let s := run (one_active ++ [Call (RRegister "m" "2" LitAPI); Call (RMarkReady 6 "m" "2");
                StartRemove "m" "1"; Advance 0; Advance 0; Call (RMarkWarmingUp "m" "2");
                Call (RMarkReady 7 "m" "2"); Advance 0; Advance 0]) in
  exists mv, registry_get "m" None (reg s) = Some mv /\ registry_get "m" (Some "2") (reg s) = Some mv /\
    mv_version mv = "2".
Proof.
  intros s. apply (active_version_always_loaded major_only Nat.leb s "m" "2").
  - apply reached_run; [apply reached_new|]. vm_compute. reflexivity.
  - vm_compute. reflexivity.
  - vm_compute. reflexivity.
Defined.
