(* ===== verification/Status.v ===== *)
(** * Version status: the coordinator and the health surfaces

    Models [reconcile_version_status], [reconcile_status_now], the coordinator's
    tick, [set_version_status], [mark_load_failed], [sync_grpc_health] and
    [mark_draining] of [src/src/worker/health.rs].
    The coordinator derives Ready, Impaired or Degraded from the workers' outlier
    state; the readiness gauge and the gRPC health service publish what the registry says.

    The theorems: a reconciled version serves exactly when a worker is usable (an
    ensemble when no dependency has settled out of service), reconciling twice
    changes nothing, and what gRPC health publishes is what the request gate
    decides. *)

From S2P Require Import Prelude Text Outlier Sequence Float Pick PickProps Errors Registry RegistryProps.
Open Scope Z_scope.

(** ** Reconciliation *)

(** The states the coordinator owns. *)
Definition coordinated (s : VersionStatus) : bool :=
  match s with Ready | Impaired | Degraded => true | _ => false end.

(** How many workers are usable; each is probed. *)
Fixpoint usable_count (now : Instant) (ws : list WorkerInfo) (o : OutlierState)
    : nat * OutlierState :=
  match ws with
  | [] => (0%nat, o)
  | w :: ws =>
      let '(u, o) := is_usable now (wi_worker_id w) o in
      let '(n, o) := usable_count now ws o in
      ((if u then S n else n), o)
  end.

(** The state of a version with workers. *)
Definition worker_target (total healthy : nat) : VersionStatus :=
  if Nat.eqb total 0 then Degraded
  else if Nat.eqb healthy total then Ready
  else if Nat.eqb healthy 0 then Degraded
  else Impaired.

(** A dependency that is out of service with no load under way. *)
Definition dep_settled_down (r : ModelRegistry) (dep : string * option string) : bool :=
  match registry_get (fst dep) (snd dep) r with
  | None => false
  | Some mv => match mv_status mv with Degraded | Failed | Unloading => true | _ => false end
  end.

Definition changed (target current : VersionStatus) : option VersionStatus :=
  if bool_decide (target = current) then None else Some target.

Definition reconcile_version_status (now : Instant) (r : ModelRegistry) (model version : string)
    (outlier : option OutlierState) : option VersionStatus * option OutlierState :=
  match registry_get model (Some version) r with
  | None => (None, outlier)
  | Some mv =>
      if negb (coordinated (mv_status mv)) then (None, outlier)
      else if bool_decide (mv_model_type mv = Ensemble) then
        match ensemble_deps model version r with
        | None => (None, outlier)
        | Some deps =>
            let target :=
              if forallb (fun d => negb (dep_settled_down r d)) deps then Ready else Degraded in
            (changed target (mv_status mv), outlier)
        end
      else
        let total := length (mv_workers mv) in
        let '(healthy, outlier) :=
          match outlier with
          | Some o => let '(n, o) := usable_count now (mv_workers mv) o in (n, Some o)
          | None => (total, None)
          end in
        (changed (worker_target total healthy) (mv_status mv), outlier)
  end.

(** ** gRPC health *)

Record GrpcHealth := {
  gh_published : gmap string bool;   (** service name to SERVING *)
  gh_known : gset string;
  gh_draining : bool;
}.

Definition grpc_health_new : GrpcHealth :=
  {| gh_published := ∅; gh_known := ∅; gh_draining := false |}.

Definition version_svc (e : ServerStatusEntry) : string :=
  (ss_name e +:+ String "/"%char (ss_version e))%string.

(** Does the model's active version serve, by the entries? *)
Definition model_serving (r : ModelRegistry) (entries : list ServerStatusEntry) (name : string)
    : bool :=
  match get_active_version name r with
  | None => false
  | Some v =>
      match List.find (fun e => bool_decide (ss_name e = name) && bool_decide (ss_version e = v))
              entries with
      | Some e => is_serving (ss_status e)
      | None => false
      end
  end.

(** The loop over the entries: the published map, the current and the seen names. *)
Fixpoint push_entries (r : ModelRegistry) (all es : list ServerStatusEntry)
    (seen current : gset string) (pub : gmap string bool) : gmap string bool * gset string :=
  match es with
  | [] => (pub, current)
  | e :: es =>
      let pub := <[version_svc e := is_serving (ss_status e)]> pub in
      let current := {[ version_svc e ]} ∪ current in
      if decide (ss_name e ∈ seen) then push_entries r all es seen current pub
      else
        push_entries r all es ({[ ss_name e ]} ∪ seen) ({[ ss_name e ]} ∪ current)
          (<[ss_name e := model_serving r all (ss_name e)]> pub)
  end.

Definition clear_services (stale : gset string) (pub : gmap string bool) : gmap string bool :=
  filter (fun kb => fst kb ∉ stale) pub.

(** The part of [sync_grpc_health] under the reporter's lock. *)
Definition sync_reporter `{MapIter} (r : ModelRegistry) (g : GrpcHealth) : GrpcHealth :=
  let entries := server_status r in
  let overall := if gh_draining g then false else has_serving entries in
  let pub := <["" := overall]> (gh_published g) in
  let '(pub, current) := push_entries r entries entries ∅ ∅ pub in
  {| gh_published := clear_services (gh_known g ∖ current) pub;
     gh_known := current; gh_draining := gh_draining g |}.

(** What health observers read, and what shutdown and spawned tasks leave behind. *)
Record HealthSurfaces := {
  hs_model_ready : gmap (string * string) bool;  (** the readiness gauge *)
  hs_grpc : option GrpcHealth;  (** [None] until the gRPC server installs its reporter *)
  hs_queued : nat;              (** syncs spawned and not run yet *)
  hs_shutdown : bool;           (** the shutdown token is cancelled *)
}.

Definition set_grpc_health_reporter (h : HealthSurfaces) : HealthSurfaces :=
  {| hs_model_ready := hs_model_ready h; hs_grpc := Some grpc_health_new;
     hs_queued := hs_queued h; hs_shutdown := hs_shutdown h |}.

(** [set_model_ready] for every entry. *)
Definition push_gauge (entries : list ServerStatusEntry) (gauge : gmap (string * string) bool)
    : gmap (string * string) bool :=
  foldl (fun g e => <[(ss_name e, ss_version e) := is_serving (ss_status e)]> g) gauge entries.

Definition sync_grpc_health `{MapIter} (r : ModelRegistry) (h : HealthSurfaces) : HealthSurfaces :=
  {| hs_model_ready := push_gauge (server_status r) (hs_model_ready h);
     hs_grpc := sync_reporter r <$> hs_grpc h;
     hs_queued := hs_queued h; hs_shutdown := hs_shutdown h |}.

Definition queue_grpc_health_sync (h : HealthSurfaces) : HealthSurfaces :=
  {| hs_model_ready := hs_model_ready h; hs_grpc := hs_grpc h;
     hs_queued := S (hs_queued h); hs_shutdown := hs_shutdown h |}.

(** A spawned sync runs, against the registry of that moment. *)
Definition run_queued_sync `{MapIter} (r : ModelRegistry) (h : HealthSurfaces) : HealthSurfaces :=
  match hs_queued h with
  | O => h
  | S n =>
      let h := sync_grpc_health r h in
      {| hs_model_ready := hs_model_ready h; hs_grpc := hs_grpc h; hs_queued := n;
         hs_shutdown := hs_shutdown h |}
  end.

Definition mark_draining `{MapIter} (r : ModelRegistry) (h : HealthSurfaces) : HealthSurfaces :=
  sync_grpc_health r
    {| hs_model_ready := hs_model_ready h;
       hs_grpc := (fun g => {| gh_published := gh_published g; gh_known := gh_known g;
                               gh_draining := true |}) <$> hs_grpc h;
       hs_queued := hs_queued h; hs_shutdown := true |}.

(** ** Applying a status *)

Definition set_version_status (model version : string) (s : VersionStatus) (r : ModelRegistry)
    (h : HealthSurfaces) : ModelRegistry * HealthSurfaces :=
  (or_same r (set_status model version s r), queue_grpc_health_sync h).

Definition mark_load_failed (model version : string) (r : ModelRegistry) (h : HealthSurfaces)
    : ModelRegistry * HealthSurfaces :=
  (or_same r (set_status model version Failed r), queue_grpc_health_sync h).

(** One tick of the status coordinator: the surfaces are refreshed even without
    a transition. *)
Definition coordinator_tick `{MapIter} (now : Instant) (model version : string)
    (outlier : option OutlierState) (r : ModelRegistry) (h : HealthSurfaces)
    : ModelRegistry * option OutlierState * HealthSurfaces :=
  let '(st, outlier) := reconcile_version_status now r model version outlier in
  let r := match st with
           | Some s => or_same r (set_status model version s r)
           | None => r
           end in
  (r, outlier, sync_grpc_health r h).

(** A recovery keeps its load time and clears the failure. *)
Definition reconcile_status_now (now : Instant) (wall : Z) (model version : string)
    (outlier : option OutlierState) (r : ModelRegistry) (h : HealthSurfaces)
    : ModelRegistry * option OutlierState * HealthSurfaces :=
  let '(st, outlier) := reconcile_version_status now r model version outlier in
  match st with
  | Some Ready =>
      (or_same r (mark_ready wall model version r), outlier, queue_grpc_health_sync h)
  | Some s =>
      let '(r, h) := set_version_status model version s r h in (r, outlier, h)
  | None => (r, outlier, h)
  end.

(** ** What the coordinator decides *)

(** Usable at the instant: not ejected and not dead. *)
Definition worker_usable (now : Instant) (o : OutlierState) (w : WorkerInfo) : bool :=
  negb (ejected_now now o (wi_worker_id w)) && negb (is_dead o (wi_worker_id w)).

Lemma is_usable_spec now i o :
  exists o', is_usable now i o = (negb (ejected_now now o i) && negb (is_dead o i), o') /\
    same_view now o o'.
Proof.
  pose proof (same_view_probe now i o) as Hv. unfold is_usable, ejected_now.
  destruct (is_ejected now i o) as [e o'] eqn:He. simpl in Hv.
  destruct (Hv i) as (_ & Hd & _). exists o'. rewrite Hd. by destruct e.
Qed.

Lemma usable_count_spec now ws o o0 :
  same_view now o0 o ->
  exists o', usable_count now ws o = (count_if (worker_usable now o0) ws, o') /\
    same_view now o0 o'.
Proof.
  revert o. induction ws as [|w ws IH]; intros o Hv; simpl; [by exists o|].
  destruct (is_usable_spec now (wi_worker_id w) o) as (o1 & -> & Hv1).
  destruct (IH o1) as (o2 & -> & Hv2); [by etrans|]. exists o2. split; [|done].
  destruct (Hv (wi_worker_id w)) as (He & Hd & _). rewrite count_if_cons.
  rewrite He, Hd. fold (worker_usable now o0 w). by destruct (worker_usable now o0 w).
Qed.

Lemma worker_target_serving ws (f : WorkerInfo -> bool) :
  is_serving (worker_target (length ws) (count_if f ws)) = existsb f ws.
Proof.
  unfold worker_target.
  assert (Hz : count_if f ws = 0%nat <-> existsb f ws = false).
  { induction ws as [|w ws IH]; [done|]. rewrite count_if_cons. simpl.
    destruct (f w); simpl; [split; [lia|done]|exact IH]. }
  destruct ws as [|w ws]; [done|]. simpl length. simpl Nat.eqb at 1.
  destruct (Nat.eqb_spec (count_if f (w :: ws)) (S (length ws))) as [He|He].
  - destruct (existsb f (w :: ws)) eqn:Hx; [done|]. pose proof (proj2 Hz eq_refl). lia.
  - destruct (Nat.eqb_spec (count_if f (w :: ws)) 0) as [H0|H0].
    + by rewrite (proj1 Hz H0).
    + destruct (existsb f (w :: ws)) eqn:Hx; [done|]. by destruct H0; apply Hz.
Qed.

(** Setting a version's status and reading it back. *)
Lemma set_status_get m v s r mv :
  registry_get m (Some v) r = Some mv ->
  registry_get m (Some v) (or_same r (set_status m v s r)) = Some (with_status s mv) /\
  ensemble_deps m v (or_same r (set_status m v s r)) = ensemble_deps m v r.
Proof.
  unfold registry_get, set_status, update_version.
  destruct (models r !! m) as [e|] eqn:He; [|done]. simpl. intros Hv. rewrite Hv. simpl.
  rewrite lookup_insert_eq. simpl. by rewrite lookup_insert_eq.
Qed.

Section coordinator.
Context `{MapIter}.

(** What a tick makes of a coordinated version with workers. *)
Lemma coordinator_tick_workers now m v o r h mv :
  registry_get m (Some v) r = Some mv -> coordinated (mv_status mv) = true ->
  mv_model_type mv = LitAPI ->
  let '(r', outlier, _) := coordinator_tick now m v (Some o) r h in
  exists o', outlier = Some o' /\ same_view now o o' /\
    registry_get m (Some v) r'
    = Some (with_status (worker_target (length (mv_workers mv))
              (count_if (worker_usable now o) (mv_workers mv))) mv).
Proof.
  intros Hg Hc Ht. unfold coordinator_tick, reconcile_version_status. rewrite Hg, Hc, Ht.
  rewrite bool_decide_eq_false_2 by done. simpl.
  destruct (usable_count_spec now (mv_workers mv) o o) as (o' & -> & Hv); [done|].
  exists o'. unfold changed. case_bool_decide as Heq; simpl.
  - split_and!; [done|done|]. rewrite Hg, Heq. by destruct mv.
  - split_and!; [done|done|]. by apply set_status_get.
Qed.

(** C13. After a tick of the status coordinator a version with workers that the
    coordinator owns is ready exactly when one of its workers is usable (not ejected
    at that instant and not dead), and a second tick at the same instant changes
    nothing; a version in a load-phase state is left alone. *)
Theorem reconciled_serves_iff_usable_worker (now : Instant) (m v : string) (o : OutlierState)
    (r : ModelRegistry) (h : HealthSurfaces) (mv : ModelVersion) :
  registry_get m (Some v) r = Some mv -> mv_model_type mv = LitAPI ->
  let '(r', outlier', h') := coordinator_tick now m v (Some o) r h in
  if coordinated (mv_status mv)
  then is_ready m (Some v) r' = existsb (worker_usable now o) (mv_workers mv) /\
       fst (fst (coordinator_tick now m v outlier' r' h')) = r'
  else r' = r.
Proof.
  intros Hg Ht. destruct (coordinated (mv_status mv)) eqn:Hc.
  2:{ unfold coordinator_tick, reconcile_version_status. by rewrite Hg, Hc. }
  pose proof (coordinator_tick_workers now m v o r h mv Hg Hc Ht) as Htick.
  destruct (coordinator_tick now m v (Some o) r h) as [[r' outlier'] h'].
  destruct Htick as (o' & -> & Hv & Hg'). set (target := worker_target _ _) in *. split.
  - unfold is_ready. rewrite Hg'. simpl. apply worker_target_serving.
  - assert (Hc' : coordinated target = true).
    { unfold target, worker_target. repeat case_goal; done. }
    unfold coordinator_tick, reconcile_version_status. rewrite Hg'. simpl. rewrite Hc'.
    simpl. rewrite Ht. rewrite bool_decide_eq_false_2 by done.
    destruct (usable_count_spec now (mv_workers mv) o' o Hv) as (o2 & -> & _).
    unfold changed. fold target. by rewrite bool_decide_eq_true_2 by done.
Qed.

(** After a tick of the coordinator an ensemble with known dependencies is ready
    exactly when none of them has settled out of service; a dependency that is
    absent or still loading does not count against it. *)
Theorem reconciled_ensemble_serves_iff_deps_up (now : Instant) (m v : string)
    (outlier : option OutlierState) (r : ModelRegistry) (h : HealthSurfaces) (mv : ModelVersion)
    (deps : list (string * option string)) :
  registry_get m (Some v) r = Some mv -> mv_model_type mv = Ensemble ->
  coordinated (mv_status mv) = true -> ensemble_deps m v r = Some deps ->
  is_ready m (Some v) (fst (fst (coordinator_tick now m v outlier r h)))
    = forallb (fun d => negb (dep_settled_down r d)) deps.
Proof.
  intros Hg Ht Hc Hd. unfold coordinator_tick, reconcile_version_status.
  rewrite Hg, Hc, Ht, Hd. rewrite bool_decide_eq_true_2 by done. simpl. unfold changed.
  set (ok := forallb _ deps).
  case_bool_decide as Heq; simpl.
  - unfold is_ready. rewrite Hg, <- Heq. by destruct ok.
  - unfold is_ready. destruct (set_status_get m v (if ok then Ready else Degraded) r mv Hg) as [-> _].
    simpl. by destruct ok.
Qed.
End coordinator.

(** ** What gRPC health publishes *)

(** Every write of the loop: the version's service, then the model's. *)
Definition writes (r : ModelRegistry) (all : list ServerStatusEntry) (e : ServerStatusEntry)
    : list (string * bool) :=
  [(version_svc e, is_serving (ss_status e)); (ss_name e, model_serving r all (ss_name e))].

(** Version services and model services never coincide, and entries of the same
    version agree. *)
Definition names_apart (all : list ServerStatusEntry) : Prop :=
  forall e e', e ∈ all -> e' ∈ all ->
    version_svc e <> ss_name e' /\
    (version_svc e = version_svc e' -> is_serving (ss_status e) = is_serving (ss_status e')).

Lemma push_entries_spec r all es seen current pub :
  names_apart all -> es ⊆ all ->
  (forall n, n ∈ seen -> pub !! n = Some (model_serving r all n) /\ n ∈ current /\
     exists e, e ∈ all /\ ss_name e = n) ->
  let '(pub', current') := push_entries r all es seen current pub in
  (forall e k b, e ∈ es -> (k, b) ∈ writes r all e -> pub' !! k = Some b /\ k ∈ current') /\
  (forall k, (forall e b, e ∈ es -> (k, b) ∉ writes r all e) ->
     pub' !! k = pub !! k /\ (k ∈ current' <-> k ∈ current)).
Proof.
  intros Hap. revert seen current pub.
  induction es as [|e es IH]; intros seen current pub Hes Hseen; simpl.
  { split; [by intros ??? ?%elem_of_nil|done]. }
  assert (He : e ∈ all) by (apply Hes; left).
  assert (Hes' : es ⊆ all) by (intros x Hx; apply Hes; by right).
  assert (Hsvc : forall n, (exists e', e' ∈ all /\ ss_name e' = n) -> version_svc e <> n).
  { intros n (e' & He' & <-). by apply Hap. }
  (* the state after the entry's writes, with the name recorded as seen *)
  assert (Hstep : forall seen1 current1 pub1,
    (forall n, n ∈ seen1 -> pub1 !! n = Some (model_serving r all n) /\ n ∈ current1 /\
       exists e', e' ∈ all /\ ss_name e' = n) ->
    ss_name e ∈ seen1 ->
    pub1 !! version_svc e = Some (is_serving (ss_status e)) -> version_svc e ∈ current1 ->
    (forall k, k <> version_svc e -> k <> ss_name e ->
       pub1 !! k = pub !! k /\ (k ∈ current1 <-> k ∈ current)) ->
    let '(pub', current') := push_entries r all es seen1 current1 pub1 in
    (forall e0 k b, e0 ∈ e :: es -> (k, b) ∈ writes r all e0 -> pub' !! k = Some b /\ k ∈ current') /\
    (forall k, (forall e0 b, e0 ∈ e :: es -> (k, b) ∉ writes r all e0) ->
       pub' !! k = pub !! k /\ (k ∈ current' <-> k ∈ current))).
  { intros seen1 current1 pub1 Hs1 Hn1 Hp1 Hc1 Hrest. specialize (IH seen1 current1 pub1 Hes' Hs1).
    destruct (push_entries r all es seen1 current1 pub1) as [pub' current'].
    destruct IH as [IHw IHk]. split.
    - intros e0 k b [->|He0]%elem_of_cons Hw; [|by eapply IHw].
      destruct (decide (Exists (fun e1 => k ∈ (writes r all e1).*1) es)) as [Hex|Hno].
      + apply Exists_exists in Hex as (e1 & He1 & ([k1 b1] & -> & Hw1)%list_elem_of_fmap).
        cbn [fst] in *. destruct (IHw _ _ _ He1 Hw1) as [Hp' Hc'].
        split; [|done]. rewrite Hp'. f_equal.
        unfold writes in Hw, Hw1. rewrite !elem_of_cons in Hw, Hw1.
        destruct (Hap e e1 He (Hes' _ He1)) as [Hap1 Hag], (Hap e1 e (Hes' _ He1) He) as [Hap2 _].
        destruct Hw as [[= -> ->]|[[= -> ->]|[]%elem_of_nil]],
          Hw1 as [[= Hk ->]|[[= Hk ->]|[]%elem_of_nil]]; try done.
        * symmetry. by apply Hag.
        * by rewrite Hk.
      + assert (Hnone : forall e1 b1, e1 ∈ es -> (k, b1) ∉ writes r all e1).
        { intros e1 b1 He1 Hw1. apply Hno, Exists_exists. exists e1. split; [done|].
          apply list_elem_of_fmap. by exists (k, b1). }
        destruct (IHk k Hnone) as [-> ->].
        unfold writes in Hw. rewrite !elem_of_cons in Hw.
        destruct Hw as [[= -> ->]|[[= -> ->]|[]%elem_of_nil]]; [done|].
        by destruct (Hs1 _ Hn1) as (? & ? & _).
    - intros k Hk. destruct (IHk k) as [-> ->].
      { intros e1 b1 He1. apply Hk. by right. }
      apply Hrest; intros ->; eapply (Hk e); [left|left|left|right; left]. }
  destruct (decide (ss_name e ∈ seen)) as [Hin|Hnin]; apply Hstep.
  - intros n Hn. destruct (Hseen n Hn) as (Hp & Hc & Hex). split_and!; [|set_solver|done].
    rewrite lookup_insert_ne; [done|]. by apply Hsvc.
  - done.
  - apply lookup_insert_eq.
  - set_solver.
  - intros k Hk _. rewrite lookup_insert_ne by done. set_solver.
  - intros n [->%elem_of_singleton|Hn]%elem_of_union.
    + rewrite lookup_insert_eq. split_and!; [done|set_solver|by exists e].
    + destruct (Hseen n Hn) as (Hp & Hc & Hex). split_and!; [|set_solver|done].
      rewrite lookup_insert_ne by (intros Heq; apply Hnin; by rewrite Heq). rewrite lookup_insert_ne; [done|]. by apply Hsvc.
  - set_solver.
  - rewrite lookup_insert_ne; [apply lookup_insert_eq|]. apply not_eq_sym. apply Hsvc. by exists e.
  - set_solver.
  - intros k Hk Hk'. rewrite !lookup_insert_ne by done. set_solver.
Qed.

(** What a pass over the entries knows and publishes. *)
Lemma push_entries_known r all es seen cur pub pub' cur' :
  push_entries r all es seen cur pub = (pub', cur') ->
  (forall k, k ∈ cur' -> k ∈ cur \/ exists e, e ∈ es /\ (k = version_svc e \/ k = ss_name e)) /\
  cur ⊆ cur' /\ (forall k, is_Some (pub' !! k) -> is_Some (pub !! k) \/ k ∈ cur').
Proof.
  revert seen cur pub. induction es as [|e es IH]; intros seen cur pub; simpl.
  { intros [= <- <-]. split_and!; auto. }
  case_decide; intros (Hc & Hsub & Hp)%IH; (split_and!; [|set_solver|]).
  - intros k [Hk|(e' & He' & Hk)]%Hc; [|right; exists e'; split; [by right|done]].
    apply elem_of_union in Hk as [->%elem_of_singleton|]; [|by left].
    right. exists e. split; [left|by left].
  - intros k [[b [[<- _]|[_ Hb]]%lookup_insert_Some]|]%Hp; [right; set_solver|left; eauto|by right].
  - intros k [Hk|(e' & He' & Hk)]%Hc; [|right; exists e'; split; [by right|done]].
    rewrite !elem_of_union, !elem_of_singleton in Hk. destruct Hk as [->|[->|]]; [| |by left];
      right; exists e; (split; [left|auto]).
  - intros k [[b [[<- _]|[_ [[<- _]|[_ Hb]]%lookup_insert_Some]]%lookup_insert_Some]|]%Hp;
      [right; set_solver|right; set_solver|left; eauto|by right].
Qed.

Section published.
Context `{MapIter}.

Lemma server_status_spec r e :
  map_Forall entry_ok (models r) ->
  e ∈ server_status r <->
  exists mv, registry_get (ss_name e) (Some (ss_version e)) r = Some mv /\
    e = status_entry (ss_name e) mv.
Proof.
  intros Hn. unfold server_status, registry_get.
  rewrite merge_sort_Permutation, list_elem_of_join. split.
  - intros (l & Hin & Hl). apply list_elem_of_fmap in Hl as ([m en] & -> & Hen).
    apply list_elem_of_fmap in Hin as ([v mv] & -> & Hmv). simpl in *.
    apply elem_of_map_iter in Hen, Hmv. destruct (Hn _ _ Hen) as [Hname Hvs].
    rewrite Hname, (Hvs _ _ Hmv), Hen. simpl. eauto.
  - intros (mv & Hg & Hs). destruct (models r !! ss_name e) as [en|] eqn:Hen; [|done].
    destruct (Hn _ _ Hen) as [Hname Hvs]. eexists. split.
    2:{ apply list_elem_of_fmap. exists (ss_name e, en). split; [done|]. by apply elem_of_map_iter. }
    apply list_elem_of_fmap. exists (ss_version e, mv). split; [|by apply elem_of_map_iter].
    simpl. by rewrite Hname.
Qed.

(** A version is stored under its own name. *)
Lemma get_version_name m v r mv :
  map_Forall entry_ok (models r) -> registry_get m (Some v) r = Some mv -> mv_version mv = v.
Proof.
  unfold registry_get. intros Hn Hg. destruct (models r !! m) as [en|] eqn:Hen; [|done].
  by destruct (Hn _ _ Hen) as [_ ->].
Qed.

Lemma status_entry_listed m v r mv :
  map_Forall entry_ok (models r) -> registry_get m (Some v) r = Some mv ->
  status_entry m mv ∈ server_status r.
Proof.
  intros Hn Hg. apply server_status_spec; [done|]. exists mv. simpl.
  by rewrite (get_version_name m v r mv Hn Hg).
Qed.

Lemma svc_parts m v m' v' :
  has_char "/"%char m = false -> has_char "/"%char m' = false ->
  (m +:+ String "/"%char v)%string = (m' +:+ String "/"%char v')%string -> m = m' /\ v = v'.
Proof.
  intros Hm Hm' Heq.
  pose proof (proj2 (split_once_spec "/"%char _ m v) (conj eq_refl Hm)) as H1.
  pose proof (proj2 (split_once_spec "/"%char _ m' v') (conj eq_refl Hm')) as H2.
  rewrite Heq, H2 in H1. by injection H1.
Qed.

Lemma svc_has_slash m v : has_char "/"%char (m +:+ String "/"%char v)%string = true.
Proof. rewrite has_char_app. simpl. by rewrite orb_true_r. Qed.

(** Model names as validated: not empty, no slash. *)
Definition plain_names (r : ModelRegistry) : Prop :=
  forall m, is_Some (models r !! m) -> m <> "" /\ has_char "/"%char m = false.

Lemma server_status_apart r :
  map_Forall entry_ok (models r) -> plain_names r -> names_apart (server_status r).
Proof.
  intros Hn Hp e e' He He'. apply server_status_spec in He as (mv & Hg & Hs); [|done].
  apply server_status_spec in He' as (mv' & Hg' & Hs'); [|done].
  unfold registry_get in Hg, Hg'.
  destruct (models r !! ss_name e) as [en|] eqn:Hen; [|done].
  destruct (models r !! ss_name e') as [en'|] eqn:Hen'; [|done].
  destruct (Hp (ss_name e)) as [_ Hsl]; [eauto|]. destruct (Hp (ss_name e')) as [_ Hsl']; [eauto|].
  unfold version_svc. split.
  - intros Heq. rewrite <- Heq, svc_has_slash in Hsl'. done.
  - intros [Hne Hve]%svc_parts; [|done..]. rewrite Hne in Hen. rewrite Hve in Hg. congruence.
Qed.

Lemma model_serving_active r m :
  map_Forall entry_ok (models r) ->
  model_serving r (server_status r) m = active_version_is_ready m r.
Proof.
  intros Hn. unfold model_serving, active_version_is_ready, is_ready.
  destruct (get_active_version m r) as [v|]; [|done].
  destruct (List.find _ _) as [e|] eqn:Hf.
  - apply find_some in Hf as [Hin Hb]. to_prop. subst. apply list_elem_of_In in Hin.
    apply server_status_spec in Hin as (mv & -> & ->); done.
  - destruct (registry_get m (Some v) r) as [mv|] eqn:Hg; [|done]. exfalso.
    pose proof (find_none _ _ Hf (status_entry m mv)) as Hnone. simpl in Hnone.
    rewrite (get_version_name m v r mv Hn Hg), !bool_decide_eq_true_2 in Hnone by done.
    simpl in Hnone. assert (true = false); [|done]. apply Hnone. apply list_elem_of_In.
    by eapply status_entry_listed.
Qed.

(** The gauge of every listed version. *)
Lemma push_gauge_spec es gauge m v b :
  (forall e, e ∈ es -> ss_name e = m -> ss_version e = v -> is_serving (ss_status e) = b) ->
  (exists e, e ∈ es /\ ss_name e = m /\ ss_version e = v) \/ gauge !! (m, v) = Some b ->
  push_gauge es gauge !! (m, v) = Some b.
Proof.
  unfold push_gauge. revert gauge. induction es as [|e es IH]; intros gauge Hag Hor; simpl.
  { destruct Hor as [(e & []%elem_of_nil & _)|Hb]; exact Hb. }
  apply IH.
  { intros e' He'. apply Hag. by right. }
  destruct (decide ((ss_name e, ss_version e) = (m, v))) as [Heq|Hne].
  - right. rewrite Heq, lookup_insert_eq. f_equal. injection Heq as <- <-. apply Hag; [left|done..].
  - destruct Hor as [(e' & [->|He']%elem_of_cons & <- & <-)|Hb]; [done|left; eauto|].
    right. by rewrite lookup_insert_ne.
Qed.

(** The reporter knows every service it publishes but the overall one. *)
Record reporter_ok (g : GrpcHealth) : Prop := {
  rp_overall : "" ∉ gh_known g;
  rp_known : forall k, is_Some (gh_published g !! k) -> k = "" \/ k ∈ gh_known g;
}.

(** A service of a version of the registry: the model's own, or the version's. *)
Definition service_of (r : ModelRegistry) (k : string) : Prop :=
  exists m v mv, registry_get m (Some v) r = Some mv /\ (k = m \/ k = (m +:+ String "/"%char v)%string).

(** What the reporter knows after a sync are services of the registry, and it forgot the
    others. *)
Lemma sync_reporter_known (r : ModelRegistry) (g : GrpcHealth) :
  map_Forall entry_ok (models r) -> plain_names r -> reporter_ok g ->
  let g' := sync_reporter r g in
  reporter_ok g' /\ (forall k, k ∈ gh_known g' -> service_of r k).
Proof.
  intros Hn Hp [Ho Hk]. unfold sync_reporter.
  destruct (push_entries _ _ _ _ _ _) as [pub current] eqn:E.
  apply push_entries_known in E as (Hc & _ & Hpub). cbn [gh_published gh_known].
  assert (Hserv : forall k, k ∈ current -> service_of r k).
  { intros k [?%elem_of_empty|(e & He & Hke)]%Hc; [done|].
    apply server_status_spec in He as (mv & Hg & _); [|done].
    exists (ss_name e), (ss_version e), mv. split; [done|]. by destruct Hke; [right|left]. }
  split; [split; simpl|exact Hserv].
  - intros (m & v & mv & Hg & Hm)%Hserv. unfold registry_get in Hg.
    destruct (models r !! m) eqn:Hen; [|done]. destruct (Hp m) as [Hne _]; [eauto|].
    destruct Hm as [Hm|Hm]; [by symmetry in Hm|]. by destruct m.
  - intros k [b [Hb Hstale]%map_lookup_filter_Some]. simpl in Hstale.
    destruct (Hpub k) as [[b' [[<- _]|[_ Hold]]%lookup_insert_Some]|]; [eauto|by left| |by right].
    destruct (Hk k) as [|Hkn]; [eauto|by left|]. right. set_solver.
Qed.

(** What the reporter publishes after a sync. *)
Lemma sync_reporter_spec (r : ModelRegistry) (g : GrpcHealth) :
  map_Forall entry_ok (models r) -> plain_names r -> "" ∉ gh_known g ->
  let pub := gh_published (sync_reporter r g) in
  (pub !! "" = Some (negb (gh_draining g) && has_serving (server_status r))) /\
  (forall m v mv, registry_get m (Some v) r = Some mv ->
     pub !! (m +:+ String "/"%char v)%string = Some (is_ready m (Some v) r) /\
     pub !! m = Some (active_version_is_ready m r)).
Proof.
  intros Hn Hp Hk. unfold sync_reporter.
  pose proof (push_entries_spec r (server_status r) (server_status r) ∅ ∅
    (<["" := if gh_draining g then false else has_serving (server_status r)]> (gh_published g))
    (server_status_apart r Hn Hp) (reflexivity _) ltac:(set_solver)) as Hpush.
  destruct (push_entries _ _ _ _ _ _) as [pub current]. destruct Hpush as [Hw Hrest].
  cbn [gh_published gh_known]. unfold clear_services.
  assert (Hlook : forall k b, pub !! k = Some b -> k ∉ gh_known g ∖ current ->
    filter (fun kb : string * bool => fst kb ∉ gh_known g ∖ current) pub !! k = Some b).
  { intros k b Hb Hs. by apply map_lookup_filter_Some. }
  split_and!.
  - assert (Hempty : forall e b, e ∈ server_status r -> ("", b) ∉ writes r (server_status r) e).
    { intros e b He. apply server_status_spec in He as (mv & Hg & _); [|done].
      unfold registry_get in Hg. destruct (models r !! ss_name e) eqn:Hen; [|done].
      destruct (Hp (ss_name e)) as [Hne _]; [eauto|]. unfold writes, version_svc.
      rewrite !elem_of_cons. intros [[= Hx _]|[[= Hx _]|[]%elem_of_nil]]; [|done].
      by destruct (ss_name e). }
    destruct (Hrest "" Hempty) as [Hpub _]. apply Hlook; [|set_solver].
    rewrite Hpub, lookup_insert_eq. by destruct (gh_draining g).
  - intros m v mv Hg. set (e := status_entry m mv).
    pose proof (status_entry_listed m v r mv Hn Hg : e ∈ server_status r) as He.
    destruct (Hw e (version_svc e) (is_serving (ss_status e)) He) as [Hp1 Hc1]; [left|].
    destruct (Hw e m (model_serving r (server_status r) m) He) as [Hp2 Hc2]; [right; left|].
    assert (Hsvc : version_svc e = (m +:+ String "/"%char v)%string).
    { unfold version_svc. simpl. by rewrite (get_version_name m v r mv Hn Hg). }
    rewrite <- Hsvc. split; apply Hlook; [|set_solver| |set_solver].
    + unfold is_ready. rewrite Hg. exact Hp1.
    + by rewrite Hp2, model_serving_active.
Qed.

(** ** The surfaces over time

    The registries the syncs read are arbitrary, apart from their names: entries are filed
    under their own names, and model names are as validated. *)
Inductive surfaces_reached : HealthSurfaces -> Prop :=
  | surf_start gauge : surfaces_reached
      {| hs_model_ready := gauge; hs_grpc := None; hs_queued := 0; hs_shutdown := false |}
  | surf_install h : surfaces_reached h -> surfaces_reached (set_grpc_health_reporter h)
  | surf_queue h : surfaces_reached h -> surfaces_reached (queue_grpc_health_sync h)
  | surf_sync h r : surfaces_reached h -> map_Forall entry_ok (models r) -> plain_names r ->
      surfaces_reached (sync_grpc_health r h)
  | surf_run h r : surfaces_reached h -> map_Forall entry_ok (models r) -> plain_names r ->
      surfaces_reached (run_queued_sync r h)
  | surf_drain h r : surfaces_reached h -> map_Forall entry_ok (models r) -> plain_names r ->
      surfaces_reached (mark_draining r h).

Lemma surfaces_reporter_ok h g : surfaces_reached h -> hs_grpc h = Some g -> reporter_ok g.
Proof.
  intros Hh. revert g. induction Hh as [|h _ _|h _ IH|h r _ IH Hn Hp|h r _ IH Hn Hp|h r _ IH Hn Hp];
    intros g; simpl; try done; try apply IH.
  - intros [= <-]. split; simpl; [by apply not_elem_of_empty|]. by intros k [b ?%lookup_empty_Some].
  - intros (g0 & Hg & ->)%fmap_Some. apply sync_reporter_known; auto.
  - unfold run_queued_sync. destruct (hs_queued h); [apply IH|]. simpl.
    intros (g0 & Hg & ->)%fmap_Some. apply sync_reporter_known; auto.
  - intros (g1 & (g0 & Hg & ->)%fmap_Some & ->)%fmap_Some. apply sync_reporter_known; [done|done|].
    destruct (IH g0 Hg) as [Ho Hk]. by split.
Qed.

(** C14. The health surfaces agree with the request gate: after a sync, of surfaces
    reached by installing the reporter, syncs of any registries, queued syncs and
    draining, the readiness gauge and the gRPC service of every loaded version say
    what is_ready says, the model's service says what active_version_is_ready says,
    the overall service says whether anything serves (and NOT_SERVING while
    draining), and every service that is published is the overall one or belongs to
    a loaded version, so those no longer loaded are cleared. The registries file
    entries under their own names, and their model names are as validated: not empty
    and without a slash. *)
Theorem grpc_health_matches_request_gate (r : ModelRegistry) (h : HealthSurfaces) (g : GrpcHealth) :
  surfaces_reached h -> hs_grpc h = Some g -> map_Forall entry_ok (models r) -> plain_names r ->
  let h' := sync_grpc_health r h in
  exists g', hs_grpc h' = Some g' /\
  (gh_published g' !! "" = Some (negb (gh_draining g) && has_serving (server_status r))) /\
  (forall m v mv, registry_get m (Some v) r = Some mv ->
     hs_model_ready h' !! (m, v) = Some (is_ready m (Some v) r) /\
     gh_published g' !! (m +:+ String "/"%char v)%string = Some (is_ready m (Some v) r) /\
     gh_published g' !! m = Some (active_version_is_ready m r)) /\
  (forall k b, gh_published g' !! k = Some b -> k = "" \/
     exists m v mv, registry_get m (Some v) r = Some mv /\
       (k = m \/ k = (m +:+ String "/"%char v)%string)).
Proof.
  intros Hreach Hh Hn Hp. exists (sync_reporter r g).
  pose proof (surfaces_reporter_ok h g Hreach Hh) as Hok.
  destruct (sync_reporter_spec r g Hn Hp (rp_overall _ Hok)) as (Ho & Hv).
  destruct (sync_reporter_known r g Hn Hp Hok) as [[_ Hknown] Hserv]. simpl. rewrite Hh.
  split_and!; [done|done| |].
  - intros m v mv Hg. split; [|by eapply Hv].
    apply push_gauge_spec.
    + intros e (mv' & Hg' & Heq)%server_status_spec Hm Hve; [|done].
      rewrite Hm, Hve in Hg'. unfold is_ready. by rewrite Heq, Hg'.
    + left. exists (status_entry m mv). split; [by eapply status_entry_listed|].
      split; [done|]. by apply get_version_name with m r.
  - intros k b Hb. destruct (Hknown k) as [|Hk]; [eauto|by left|right]. by apply Hserv.
Qed.
End published.

(** ** The theorems at concrete inputs *)

Definition demo_worker (id : nat) : WorkerInfo :=
  {| wi_worker_id := id; wi_device := "cpu"; wi_endpoint := ""; wi_pid := None;
     wi_status := WsReady |}.

Definition demo_status_version (t : ModelType) : ModelVersion :=
  {| mv_version := "1"; mv_status := Ready; mv_model_type := t;
     mv_workers := [demo_worker 0; demo_worker 1]; mv_loaded_at := None;
     mv_last_used_at := None; mv_weight := 0; mv_last_failure := None |}.

(** A model with two workers and an ensemble that depends on it. *)
Definition demo_status_registry : ModelRegistry :=
  let ent m t := {| me_name := m; me_versions := {[ "1" := demo_status_version t ]}; me_load_policy := Explicit;
                    me_max_loaded_versions := None; me_weights := ∅; me_default_version := None |} in
  {| models := <[ "m" := ent "m" LitAPI ]> {[ "e" := ent "e" Ensemble ]};
     active_versions := {[ "m" := "1" ]};
     ensemble_deps_map := {[ ensemble_deps_key "e" "1" := [("m", None); ("x", None)] ]} |}.

(** The gRPC reporter installed, nothing published yet. *)
Definition demo_surfaces : HealthSurfaces :=
  set_grpc_health_reporter
    {| hs_model_ready := ∅; hs_grpc := None; hs_queued := 0; hs_shutdown := false |}.

Lemma reconciled_serves_witness :
  let o := mark_dead 0 (with_config 2 EjectionConfig_default) in
  let '(r', outlier', h') := coordinator_tick 0 "m" "1" (Some o) demo_status_registry demo_surfaces in
  is_ready "m" (Some "1") r' = existsb (worker_usable 0 o) [demo_worker 0; demo_worker 1] /\
  fst (fst (coordinator_tick 0 "m" "1" outlier' r' h')) = r'.
Proof.
  intros o. exact (reconciled_serves_iff_usable_worker 0 "m" "1" o demo_status_registry
    demo_surfaces (demo_status_version LitAPI) eq_refl eq_refl).
Defined.

Lemma reconciled_ensemble_witness :
  is_ready "e" (Some "1")
    (fst (fst (coordinator_tick 0 "e" "1" None demo_status_registry demo_surfaces)))
    = forallb (fun d => negb (dep_settled_down demo_status_registry d)) [("m", None); ("x", None)].
Proof.
  eapply (reconciled_ensemble_serves_iff_deps_up 0 "e" "1" None demo_status_registry demo_surfaces);
    reflexivity.
Defined.

Lemma demo_status_entries : map_Forall entry_ok (models demo_status_registry).
Proof.
  intros m e. simpl. intros [[<- <-]|[_ [<- <-]%lookup_singleton_Some]]%lookup_insert_Some;
    (split; [done|]); intros v mv; simpl; by intros [<- <-]%lookup_singleton_Some.
Qed.

Lemma demo_status_names : plain_names demo_status_registry.
Proof.
  intros m [e He]. simpl in He.
  apply lookup_insert_Some in He as [[<- _]|[_ [<- _]%lookup_singleton_Some]]; done.
Qed.

(** A sync with both models loaded, and one after the ensemble is gone. *)
Definition demo_synced : HealthSurfaces := sync_grpc_health demo_status_registry demo_surfaces.

Definition demo_smaller : ModelRegistry :=
  {| models := delete "e" (models demo_status_registry);
     active_versions := active_versions demo_status_registry; ensemble_deps_map := ∅ |}.

Lemma grpc_health_witness :
  hs_model_ready demo_synced !! ("e", "1") = Some (is_ready "e" (Some "1") demo_status_registry) /\
  exists g', hs_grpc (sync_grpc_health demo_smaller demo_synced) = Some g' /\
    gh_published g' !! "" = Some (has_serving (server_status demo_smaller)) /\
    forall b, gh_published g' !! "e/1" = Some b -> "e/1" = "" \/
      exists m v mv, registry_get m (Some v) demo_smaller = Some mv /\
        ("e/1" = m \/ "e/1" = (m +:+ String "/"%char v)%string).
Proof.
  assert (Hr : surfaces_reached demo_surfaces) by apply surf_install, surf_start.
  assert (Hs : surfaces_reached demo_synced)
    by (apply surf_sync; [exact Hr|apply demo_status_entries|apply demo_status_names]).
  split.
  - destruct (grpc_health_matches_request_gate demo_status_registry demo_surfaces grpc_health_new
      Hr eq_refl demo_status_entries demo_status_names) as (g' & Hg' & Ho & Hv & _).
    apply (Hv "e" "1" (demo_status_version Ensemble) eq_refl).
  - destruct (grpc_health_matches_request_gate demo_smaller demo_synced
      (sync_reporter demo_status_registry grpc_health_new) Hs eq_refl) as (g' & Hg' & Ho & _ & Hk).
    + apply map_Forall_delete, demo_status_entries.
    + intros m [e He]. simpl in He. apply lookup_delete_Some in He as [_ He].
      apply demo_status_names. eauto.
    + exists g'. split; [exact Hg'|]. split; [exact Ho|]. intros b. apply Hk.
Defined.
