(* ===== verification/Validation.v ===== *)
(** * Validation of names and the directory of a version

    Models [is_valid_request_id], [validate_identifier], [validate_version] and
    [resolve_model_dir] of [src/src/validation.rs].  The two regular expressions are
    predicates on the characters; a path is the list of its components, and the
    file system is the pair of functions [exists] and [canonicalize].

    The theorems: validated names contain none of the separators the server joins
    them with (queue keys, gRPC service names, paths), so the joins are unambiguous;
    a resolved directory never leaves the repository. *)

From S2P Require Import Prelude Text Outlier Sequence Float Pick Priority Dispatch Queue Errors Registry.
Open Scope Z_scope.

Definition MAX_IDENTIFIER_LEN : nat := 64.

Definition is_ascii (c : Ascii.ascii) : bool := char_code c <? 128.

Definition is_valid_request_id (s : string) : bool :=
  negb (bool_decide (s = EmptyString)) && Nat.leb (String.length s) 512 && all_chars is_ascii s.

(** [[a-zA-Z0-9_-]] and [[a-zA-Z0-9._-]]. *)
Definition identifier_char (c : Ascii.ascii) : bool :=
  is_alphanumeric c || eq_char c "_"%char || eq_char c "-"%char.

Definition version_char (c : Ascii.ascii) : bool := identifier_char c || eq_char c "."%char.

Definition validate_identifier (s : string) : result AppError unit :=
  if bool_decide (s = EmptyString) then Err (Validation "identifier cannot be empty")
  else if Nat.ltb MAX_IDENTIFIER_LEN (String.length s) then
    Err (Validation "identifier exceeds maximum length of 64 characters")
  else if negb (all_chars identifier_char s) then
    Err (Validation "identifier contains invalid characters; allowed: a-z, A-Z, 0-9, _, -")
  else Ok tt.

(** [s.contains("..")]. *)
Fixpoint has_dotdot (s : string) : bool :=
  match s with
  | String a rest =>
      (eq_char a "."%char && match rest with String b _ => eq_char b "."%char | _ => false end)
      || has_dotdot rest
  | EmptyString => false
  end.

Fixpoint ends_with_char (c : Ascii.ascii) (s : string) : bool :=
  match s with
  | EmptyString => false
  | String a EmptyString => eq_char a c
  | String _ rest => ends_with_char c rest
  end.

(** [VERSION_RE]. *)
Definition version_re (s : string) : bool :=
  match s with
  | EmptyString => false
  | String c rest => is_alphanumeric c && all_chars version_char rest
  end.

Definition validate_version (s : string) : result AppError unit :=
  if bool_decide (s = EmptyString) then Err (Validation "version cannot be empty")
  else if Nat.ltb MAX_IDENTIFIER_LEN (String.length s) then
    Err (Validation "version exceeds maximum length of 64 characters")
  else if has_dotdot s || starts_with "." s || ends_with_char "."%char s then
    Err (Validation "version contains invalid characters")
  else if negb (version_re s) then
    Err (Validation "version contains invalid characters; allowed: a-z, A-Z, 0-9, _, -, .")
  else Ok tt.

(** ** Paths *)

Inductive component := RootDir | ParentDir | Normal (name : string).

#[export] Instance component_eq_dec : EqDecision component.
Proof. solve_decision. Defined.

Abbreviation path := (list component) (only parsing).

(** The components a relative piece adds: empty and [.] pieces add none. *)
Definition piece_components (s : string) : path :=
  omap (fun p => if bool_decide (p = EmptyString) || bool_decide (p = ".") then None
                 else if bool_decide (p = "..") then Some ParentDir else Some (Normal p))
    (split_char "/"%char s).

(** [Path::join]: an absolute piece replaces the base. *)
Definition join (base : path) (s : string) : path :=
  if starts_with "/" s then RootDir :: piece_components s else base ++ piece_components s.

Definition has_parent (p : path) : bool :=
  existsb (fun c => match c with ParentDir => true | _ => false end) p.

(** [Path::starts_with], by components. *)
Fixpoint path_starts_with (p base : path) : bool :=
  match base, p with
  | [], _ => true
  | b :: base, c :: p => bool_decide (b = c) && path_starts_with p base
  | _ :: _, [] => false
  end.

Section resolve.
Context (exists_ : path -> bool) (canonicalize : path -> result string path).

Definition not_found (model version : string) : AppError :=
  ModelNotFound (model +:+ " version " +:+ version +:+ " not found").

Definition resolve_model_dir (repo : path) (model version : string) : result AppError path :=
  let model_dir := join (join repo model) version in
  if has_parent model_dir then Err (not_found model version)
  else if exists_ model_dir then
    let? canonical := map_err Io (canonicalize model_dir) in
    let? canonical_repo := map_err Io (canonicalize repo) in
    if path_starts_with canonical canonical_repo then Ok canonical
    else Err (not_found model version)
  else Ok model_dir.
End resolve.

(** ** Characters of validated names *)

Lemma identifier_chars s :
  validate_identifier s = Ok tt -> s <> EmptyString /\ all_chars identifier_char s = true.
Proof.
  unfold validate_identifier. repeat case_goal; try done. to_prop. split; [done|].
  by destruct (all_chars identifier_char s).
Qed.

Lemma version_chars s :
  validate_version s = Ok tt ->
  s <> EmptyString /\ all_chars version_char s = true /\ starts_with "." s = false.
Proof.
  unfold validate_version. destruct (bool_decide (s = "")) eqn:He; [done|].
  destruct (Nat.ltb _ _); [done|].
  destruct (has_dotdot s || starts_with "." s || ends_with_char "."%char s) eqn:Hd; [done|].
  destruct (version_re s) eqn:Hre; [|done]. intros _.
  apply orb_false_iff in Hd as [[_ Hst]%orb_false_iff _]. to_prop. split_and!; [done| |done].
  destruct s as [|c s]; [done|]. simpl in *. apply andb_prop in Hre as [Hc ->].
  unfold version_char, identifier_char. by rewrite Hc.
Qed.

Lemma split_char_none c s : has_char c s = false -> split_char c s = [s].
Proof.
  induction s as [|a s IH]; simpl; [done|]. intros [-> Hs]%orb_false_iff. by rewrite IH.
Qed.

(** A name that is one path component. *)
Lemma piece_one s :
  has_char "/"%char s = false -> s <> EmptyString -> starts_with "." s = false ->
  starts_with "/" s = false /\ piece_components s = [Normal s].
Proof.
  intros Hs Hne Hdot. destruct s as [|c s]; [done|]. split.
  - simpl in Hs. unfold starts_with, strip_prefix. apply orb_false_iff in Hs as [Hc _].
    destruct (eq_char "/"%char c) eqn:He; [|done]. apply eq_char_true in He as <-. done.
  - unfold piece_components. rewrite split_char_none by done. simpl.
    rewrite !bool_decide_eq_false_2; [done|..]; intros [= -> ->]; done.
Qed.

Lemma validated_model m :
  validate_identifier m = Ok tt ->
  m <> EmptyString /\ has_char nul m = false /\ has_char "/"%char m = false /\
  starts_with "." m = false.
Proof.
  intros [Hne Hc]%identifier_chars. split_and!; [done| | |].
  - by apply (all_chars_no_char identifier_char).
  - by apply (all_chars_no_char identifier_char).
  - destruct m as [|c m]; [done|]. simpl in Hc. apply andb_prop in Hc as [Hc _].
    unfold starts_with, strip_prefix. destruct (eq_char "."%char c) eqn:He; [|done].
    apply eq_char_true in He as <-. done.
Qed.

(** For validated model names and versions the joins the server builds are
    unambiguous: a queue key parses back, distinct pairs have distinct queue keys
    and distinct model/version service names, and no such service name is a model
    name. *)
Theorem validated_names_unambiguous (m v m' v' : string) :
  validate_identifier m = Ok tt -> validate_version v = Ok tt ->
  validate_identifier m' = Ok tt -> validate_version v' = Ok tt ->
  parse_model_version_key (model_version_key m v) = (m, v) /\
  (model_version_key m v = model_version_key m' v' -> m = m' /\ v = v') /\
  (ensemble_deps_key m v = ensemble_deps_key m' v' -> m = m' /\ v = v') /\
  ensemble_deps_key m v <> m'.
Proof.
  intros (Hne & Hnul & Hsl & _)%validated_model Hv (Hne' & Hnul' & Hsl' & _)%validated_model Hv'.
  assert (Hkey : forall c a b, has_char c a = false -> split_once c (a +:+ String c b)%string = Some (a, b)).
  { intros c a b Ha. by apply split_once_spec. }
  split_and!.
  - unfold parse_model_version_key, model_version_key. by rewrite Hkey.
  - unfold model_version_key. intros Heq. pose proof (Hkey nul m v Hnul) as H1.
    rewrite Heq, Hkey in H1 by done. by injection H1.
  - unfold ensemble_deps_key. intros Heq. pose proof (Hkey "/"%char m v Hsl) as H1.
    rewrite Heq, Hkey in H1 by done. by injection H1.
  - unfold ensemble_deps_key. intros <-. rewrite has_char_app in Hsl'. simpl in Hsl'.
    by rewrite orb_true_r in Hsl'.
Qed.

(** The directory resolved for a validated model and version is the repository's
    sub-directory of these two names when it does not exist, and otherwise its
    canonical form, which lies below the canonical repository; it is refused only if
    it exists. *)
Theorem resolved_dir_confined (ex : list component -> bool)
    (canonicalize : list component -> result string (list component)) (repo : list component)
    (m v : string) :
  validate_identifier m = Ok tt -> validate_version v = Ok tt -> has_parent repo = false ->
  match resolve_model_dir ex canonicalize repo m v with
  | Ok p =>
      if ex (repo ++ [Normal m; Normal v])
      then canonicalize (repo ++ [Normal m; Normal v]) = Ok p /\
           exists r, canonicalize repo = Ok r /\ path_starts_with p r = true
      else p = repo ++ [Normal m; Normal v]
  | Err _ => ex (repo ++ [Normal m; Normal v]) = true
  end.
Proof.
  intros (Hne & _ & Hsl & Hdot)%validated_model (Hvne & Hvc & Hvdot)%version_chars Hrepo.
  destruct (piece_one m Hsl Hne Hdot) as [Hm Hmc].
  destruct (piece_one v) as [Hv Hvcs]; [by apply (all_chars_no_char version_char)|done|done|].
  unfold resolve_model_dir, join. rewrite Hm, Hmc, Hv, Hvcs, <- app_assoc. simpl app.
  unfold has_parent in *. rewrite existsb_app, Hrepo. simpl.
  destruct (ex _) eqn:Hex; [|done].
  destruct (canonicalize (repo ++ _)) as [p|]; [|done].
  destruct (canonicalize repo) as [r|]; [|done]. simpl.
  destruct (path_starts_with p r) eqn:Hp; [|done]. split; [done|]. by exists r.
Qed.

(** ** The theorems at concrete inputs *)

Lemma validated_names_witness :
  parse_model_version_key (model_version_key "bert" "1.0.0") = ("bert", "1.0.0") /\
  ensemble_deps_key "bert" "1.0.0" <> "gpt-2".
Proof.
  destruct (validated_names_unambiguous "bert" "1.0.0" "gpt-2" "v2") as (H1 & _ & _ & H2);
    [vm_compute; reflexivity..|]. split; [exact H1|exact H2].
Defined.

Lemma resolved_dir_witness :
  resolve_model_dir (fun _ => false) Ok [RootDir; Normal "repo"] "bert" "1.0.0"
  = Ok [RootDir; Normal "repo"; Normal "bert"; Normal "1.0.0"].
Proof.
  pose proof (resolved_dir_confined (fun _ => false) Ok [RootDir; Normal "repo"] "bert" "1.0.0"
    eq_refl eq_refl eq_refl) as H.
  destruct (resolve_model_dir _ _ _ _ _) as [p|e]; [by rewrite H|discriminate H].
Defined.
