(* ===== verification/Lifecycle.v ===== *)
(** * Loading, unloading and reloading versions

    Models the model lifecycle of [src/src/worker/lifecycle.rs]: [load_model] with its
    two phases, [unload_version] and the shared teardown, [force_unload_version],
    [enforce_max_loaded_versions] and [reload_model_inner], on the state of
    [WorkerManager] ([src/src/worker/mod.rs]): the registry, the inference queue and
    the maps of workers, clients, outlier states, custom routes, status coordinators
    and cached ensemble plans.

    What the outside world answers is an argument ([LoadInput]): the files, the
    workers' handshakes, the warmup.  Other tasks run while a load waits; [li_before_evict],
    [li_evicting], [li_before_register], [li_other] and the like are what they do to the
    state at each point where the load gives up the locks. *)

From S2P Require Import Prelude Text Errors Outlier Queue Registry Validation.
Open Scope string_scope.
Open Scope Z_scope.

(** ** Custom routes *)

Definition SYSTEM_ROUTE_LEAVES : list string :=
  ["compare"; "versions"; "ready"; "health"; "reload"; "infer"; "events"; "stream"]%string.

Fixpoint trim_start_slashes (s : string) : string :=
  match s with
  | String c rest => if eq_char c "/"%char then trim_start_slashes rest else s
  | EmptyString => s
  end.

Definition is_reserved_route (route : string) : bool :=
  let first := default EmptyString (head (split_char "/"%char (trim_start_slashes route))) in
  negb (bool_decide (first = EmptyString)) && bool_decide (first ∈ SYSTEM_ROUTE_LEAVES).

(** ** State *)

(** The state of the manager; a worker and a client are named by the worker's id. *)
Record WorkerManager := {
  registry : ModelRegistry;
  wm_workers : gmap string (list nat);
  zmq_clients : gmap string (list nat);
  outlier_states : gmap string OutlierState;
  route_table : gmap string (list string);
  inference_queue : InferenceQueue;
  status_coordinators : gset string;
  ensemble_plans : gset (string * string);
  shutdown : bool;                          (** [shutdown_token] is cancelled *)
}.

Definition set_registry (r : ModelRegistry) (m : WorkerManager) : WorkerManager :=
  {| registry := r; wm_workers := wm_workers m; zmq_clients := zmq_clients m;
     outlier_states := outlier_states m; route_table := route_table m;
     inference_queue := inference_queue m; status_coordinators := status_coordinators m;
     ensemble_plans := ensemble_plans m; shutdown := shutdown m |}.

Definition set_queue (q : InferenceQueue) (m : WorkerManager) : WorkerManager :=
  {| registry := registry m; wm_workers := wm_workers m; zmq_clients := zmq_clients m;
     outlier_states := outlier_states m; route_table := route_table m;
     inference_queue := q; status_coordinators := status_coordinators m;
     ensemble_plans := ensemble_plans m; shutdown := shutdown m |}.

Definition set_coordinators (c : gset string) (m : WorkerManager) : WorkerManager :=
  {| registry := registry m; wm_workers := wm_workers m; zmq_clients := zmq_clients m;
     outlier_states := outlier_states m; route_table := route_table m;
     inference_queue := inference_queue m; status_coordinators := c;
     ensemble_plans := ensemble_plans m; shutdown := shutdown m |}.

Definition set_plans (p : gset (string * string)) (m : WorkerManager) : WorkerManager :=
  {| registry := registry m; wm_workers := wm_workers m; zmq_clients := zmq_clients m;
     outlier_states := outlier_states m; route_table := route_table m;
     inference_queue := inference_queue m; status_coordinators := status_coordinators m;
     ensemble_plans := p; shutdown := shutdown m |}.

Definition set_outliers (o : gmap string OutlierState) (m : WorkerManager) : WorkerManager :=
  {| registry := registry m; wm_workers := wm_workers m; zmq_clients := zmq_clients m;
     outlier_states := o; route_table := route_table m;
     inference_queue := inference_queue m; status_coordinators := status_coordinators m;
     ensemble_plans := ensemble_plans m; shutdown := shutdown m |}.

Definition set_routes (r : gmap string (list string)) (m : WorkerManager) : WorkerManager :=
  {| registry := registry m; wm_workers := wm_workers m; zmq_clients := zmq_clients m;
     outlier_states := outlier_states m; route_table := r;
     inference_queue := inference_queue m; status_coordinators := status_coordinators m;
     ensemble_plans := ensemble_plans m; shutdown := shutdown m |}.

Definition set_pool (ws cs : gmap string (list nat)) (m : WorkerManager) : WorkerManager :=
  {| registry := registry m; wm_workers := ws; zmq_clients := cs;
     outlier_states := outlier_states m; route_table := route_table m;
     inference_queue := inference_queue m; status_coordinators := status_coordinators m;
     ensemble_plans := ensemble_plans m; shutdown := shutdown m |}.

(** ** A state and error monad *)

Definition M (A : Type) : Type := WorkerManager -> result AppError A * WorkerManager.

Definition ret {A} (a : A) : M A := fun m => (Ok a, m).
Definition throw {A} (e : AppError) : M A := fun m => (Err e, m).
Definition bind {A B} (x : M A) (k : A -> M B) : M B :=
  fun m => match x m with
           | (Ok a, m) => k a m
           | (Err e, m) => (Err e, m)
           end.

(** Run, and keep the outcome as a value. *)
Definition attempt {A} (x : M A) : M (result AppError A) :=
  fun m => let '(r, m) := x m in (Ok r, m).

Definition modify (f : WorkerManager -> WorkerManager) : M unit := fun m => (Ok tt, f m).
Definition get : M WorkerManager := fun m => (Ok m, m).

(** A registry operation, with its error. *)
Definition on_registry (f : ModelRegistry -> result AppError ModelRegistry) : M unit :=
  fun m => match f (registry m) with
           | Ok r => (Ok tt, set_registry r m)
           | Err e => (Err e, m)
           end.

Notation "'let!' x ':=' a 'in' k" := (bind a (fun x => k))
  (at level 10, x name, a at level 100, k at level 200) : lite_scope.
Notation "'do!' a 'in' k" := (bind a (fun _ => k))
  (at level 10, a at level 100, k at level 200) : lite_scope.

(** ** Inputs *)

(** One worker after its handshake: what registration needs of it. *)
Record WorkerReady := {
  wr_device : string;
  wr_endpoint : string;
  wr_pid : option Z;
  wr_custom_routes : list string;
}.

(** What the version's directory and configuration say. *)
Inductive Source :=
  | PythonModel                                                   (** [model.py] *)
  | EnsembleConfig (plan : result AppError (list (string * option string)))
      (** an ensemble; its plan parses to these dependencies, or does not parse *)
  | NoSource.

Record LoadInput := {
  li_config : result string unit;                (** [config.validate()] *)
  li_dir : result AppError bool;                 (** [resolve_model_dir], then [exists] *)
  li_source : Source;
  li_queue_config : ModelConfig;
  li_ejection : EjectionConfig;
  li_devices : result string nat;                (** [resolve_device_plan], its length *)
  li_before_evict : WorkerManager -> WorkerManager;
      (** other tasks, between the duplicate check and the eviction *)
  li_evicting : list (WorkerManager -> WorkerManager);
      (** other tasks, before each of the first eviction rounds *)
  li_before_register : WorkerManager -> WorkerManager;
      (** other tasks, between the eviction and the registration *)
  li_handshakes : result AppError (list WorkerReady);    (** phase 1 *)
  li_other : nat -> bool -> WorkerManager -> WorkerManager;
      (** other tasks, before worker [i]'s first check (during the handshakes for the
          first one) and before its locks *)
  li_before_queue : WorkerManager -> WorkerManager;
      (** other tasks, before the queue is registered *)
  li_warmup : option (result string unit);       (** [None]: disabled *)
  li_before_ready : WorkerManager -> WorkerManager;      (** other tasks, while warming up *)
  li_offsets : nat -> Z;                         (** jitter of the budgets *)
  li_coordinated : bool;                         (** [health_check_interval > 0] *)
  li_now : SystemTime;
}.

Section lifecycle.
Context `{MapIter}.
Context {V : Type} (semver_parse : string -> option V) (semver_le : V -> V -> bool).

Abbreviation remove_version := (registry_remove semver_parse semver_le) (only parsing).

(** ** Teardown *)

(** The drain of the version's queue: no new requests, the tasks stopped. *)
Definition drain_queue (model version : string) (m : WorkerManager) : WorkerManager :=
  match begin_drain model version (inference_queue m) with
  | (Some id, q) => set_queue (drain_abort id q) m
  | (None, q) => set_queue q m
  end.

Definition clear_maps (model version : string) (m : WorkerManager) : WorkerManager :=
  let key := model_version_key model version in
  set_outliers (delete key (outlier_states m))
    (set_routes (delete key (route_table m))
      (set_pool (delete key (wm_workers m)) (delete key (zmq_clients m)) m)).

(** [teardown_version_runtime]: the in-flight requests are waited for up to the grace
    period; either way the maps are cleared and the workers stopped. *)
Definition teardown_version_runtime (model version : string) (m : WorkerManager) : WorkerManager :=
  clear_maps model version (drain_queue model version m).

Definition invalidate_model (model : string) (m : WorkerManager) : WorkerManager :=
  set_plans (filter (fun k => fst k <> model) (ensemble_plans m)) m.

Definition stop_status_coordinator (model version : string) (m : WorkerManager) : WorkerManager :=
  set_coordinators (status_coordinators m ∖ {[ model_version_key model version ]}) m.

Definition start_status_coordinator (model version : string) (m : WorkerManager) : WorkerManager :=
  set_coordinators (status_coordinators m ∪ {[ model_version_key model version ]}) m.

Definition unload_version (model version : string) : M unit :=
  do! modify (invalidate_model model) in
  do! modify (stop_status_coordinator model version) in
  do! on_registry (set_status model version Unloading) in
  do! modify (teardown_version_runtime model version) in
  on_registry (fun r => Ok (remove_version model version r)).

Definition force_unload_version (model version : string) : M unit :=
  do! modify (invalidate_model model) in
  do! modify (stop_status_coordinator model version) in
  do! modify (drain_queue model version) in
  do! modify (clear_maps model version) in
  on_registry (fun r => Ok (remove_version model version r)).

Definition list_versions (model : string) (r : ModelRegistry) : list string :=
  match models r !! model with
  | Some e => map (fun vm => mv_version (snd vm)) (map_iter (me_versions e))
  | None => []
  end.

Fixpoint unload_each (model : string) (versions : list string) (unloaded : bool) : M bool :=
  match versions with
  | [] => ret unloaded
  | v :: versions => do! unload_version model v in unload_each model versions true
  end.

Definition unload_model (model : string) (version : option string) : M bool :=
  match version with
  | Some v => do! unload_version model v in ret true
  | None => let! m := get in unload_each model (list_versions model (registry m)) false
  end.

(** ** The cap on loaded versions *)

(** One round: the outcome, or [None] to go on. *)
Definition evict_round (max : Z) (model : string) (m : WorkerManager)
    : option (result AppError unit) * WorkerManager :=
  if Z.of_nat (length (list_versions model (registry m))) <? max then (Some (Ok tt), m)
  else
    match lru_eviction_candidate model (registry m) with
    | Some victim =>
        match unload_version model victim m with
        | (Ok _, m) => (None, m)
        | (Err e, m) => (Some (Err e), m)
        end
    | None => (Some (Ok tt), m)
    end.

(** [fuel] bounds the loop: [None] when it runs out. *)
Fixpoint evict_loop (fuel : nat) (max : Z) (model : string) (m : WorkerManager)
    : option (result AppError unit * WorkerManager) :=
  match fuel with
  | O => None
  | S fuel =>
      match evict_round max model m with
      | (Some r, m) => Some (r, m)
      | (None, m) => evict_loop fuel max model m
      end
  end.

(** Each round removes a version, so one more than there are is enough. *)
Definition enforce_max_loaded_versions (model : string) (m : WorkerManager)
    : option (result AppError unit * WorkerManager) :=
  match models (registry m) !! model ≫= me_max_loaded_versions with
  | None => Some (Ok tt, m)
  | Some max => evict_loop (S (length (list_versions model (registry m)))) max model m
  end.

(** A loop that ran out of fuel would hang. *)
Definition enforce_max (model : string) : M unit :=
  fun m => default (Err (Internal "out of fuel"), m) (enforce_max_loaded_versions model m).

(** The loop with the steps of other tasks before its first rounds. *)
Fixpoint evict_among (others : list (WorkerManager -> WorkerManager)) (max : Z) (model : string) : M unit :=
  match others with
  | [] => fun m =>
      default (Err (Internal "out of fuel"), m)
        (evict_loop (S (length (list_versions model (registry m)))) max model m)
  | f :: others => fun m =>
      match evict_round max model (f m) with
      | (Some r, m) => (r, m)
      | (None, m) => evict_among others max model m
      end
  end.

(** The cap is read once. *)
Definition enforce_max_among (others : list (WorkerManager -> WorkerManager)) (model : string) : M unit :=
  fun m => match models (registry m) !! model ≫= me_max_loaded_versions with
           | None => (Ok tt, m)
           | Some max => evict_among others max model m
           end.

(** ** Loading *)

Definition load_registration_alive (model version : string) (m : WorkerManager) : bool :=
  negb (shutdown m) &&
  match registry_get model (Some version) (registry m) with
  | Some mv => bool_decide (mv_status mv = Loading)
  | None => false
  end.

Definition aborted (model version : string) : AppError :=
  Internal ("load of " +:+ model +:+ " " +:+ version +:+ " aborted: torn down concurrently").

Definition check_alive (model version : string) : M unit :=
  fun m => if load_registration_alive model version m then (Ok tt, m)
           else (Err (aborted model version), m).

Definition upsert_routes (model version : string) (routes : list string) (m : WorkerManager)
    : WorkerManager :=
  set_routes (<[model_version_key model version := List.filter (fun r => negb (is_reserved_route r)) routes]>
                (route_table m)) m.

(** [entry(key).or_default().push(..)] on both maps, under both locks. *)
Definition push_worker (model version : string) (i : nat) (m : WorkerManager) : WorkerManager :=
  let key := model_version_key model version in
  set_pool (<[key := (default [] (wm_workers m !! key) ++ [i])%list]> (wm_workers m))
           (<[key := (default [] (zmq_clients m !! key) ++ [i])%list]> (zmq_clients m)) m.

Definition worker_info (i : nat) (w : WorkerReady) : WorkerInfo :=
  {| wi_worker_id := i; wi_device := wr_device w; wi_endpoint := wr_endpoint w;
     wi_pid := wr_pid w; wi_status := WsReady |}.

(** Phase 2: the workers enter the maps in the order of their ids. *)
Fixpoint register_workers (li : LoadInput) (model version : string) (i : nat)
    (ready : list WorkerReady) : M (list WorkerInfo) :=
  match ready with
  | [] => ret []
  | w :: ready =>
      do! modify (li_other li i false) in
      do! check_alive model version in
      do! modify (upsert_routes model version (wr_custom_routes w)) in
      do! modify (li_other li i true) in
      do! check_alive model version in
      do! modify (push_worker model version i) in
      let! infos := register_workers li model version (S i) ready in
      ret (worker_info i w :: infos)
  end.

Definition spawn_workers (li : LoadInput) (model version : string) : M (list WorkerInfo) :=
  match li_handshakes li with
  | Ok ready => register_workers li model version 0 ready
  | Err e => do! modify (li_other li 0 false) in throw e
  end.

(** [mark_load_failed]: an error is only logged. *)
Definition mark_load_failed (model version : string) : M unit :=
  do! attempt (on_registry (set_status model version Failed)) in ret tt.

(** The one way out of a load that has started workers. *)
Definition fail_load {A} (model version : string) (e : AppError) : M A :=
  do! mark_load_failed model version in
  do! modify (teardown_version_runtime model version) in
  throw e.

Definition finalize (li : LoadInput) (model version : string) (infos : list WorkerInfo) : M unit :=
  do! on_registry (set_workers model version infos) in
  match li_warmup li with
  | Some _ => on_registry (mark_warming_up model version)
  | None => on_registry (mark_ready (li_now li) model version)
  end.

Definition warmup_error (model version reason : string) : AppError :=
  WorkerCrashed ("warmup failed for " +:+ model +:+ " " +:+ version +:+ ": " +:+ reason).

(** The warmup, with the queue wired and the version not yet serving. *)
Definition run_warmup (li : LoadInput) (model version : string) : M unit :=
  match li_warmup li with
  | None => ret tt
  | Some outcome =>
      do! modify (li_before_ready li) in
      match outcome with
      | Ok _ =>
          let! marked := attempt (on_registry (mark_ready (li_now li) model version)) in
          match marked with
          | Ok _ => ret tt
          | Err e => fail_load model version e
          end
      | Err reason =>
          do! attempt (on_registry (mark_failed model version reason)) in
          do! modify (teardown_version_runtime model version) in
          throw (warmup_error model version reason)
      end
  end.

Definition register_queue (li : LoadInput) (model version : string) (workers : nat)
    (outlier : OutlierState) (m : WorkerManager) : WorkerManager :=
  set_queue (register_model model version (li_queue_config li) workers outlier true
               (li_offsets li) (inference_queue m)) m.

(** From [Loading] to the end, for a model with workers. *)
Definition load_workers (li : LoadInput) (model version : string) : M unit :=
  do! on_registry (set_status model version Loading) in
  match li_devices li with
  | Err e => throw (Config e)
  | Ok total_workers =>
      let outlier := with_config total_workers (li_ejection li) in
      do! modify (fun m => set_outliers (<[model_version_key model version := outlier]>
                                           (outlier_states m)) m) in
      let! spawned := attempt (spawn_workers li model version) in
      match spawned with
      | Err e => fail_load model version e
      | Ok infos =>
          let! finalized := attempt (finalize li model version infos) in
          match finalized with
          | Err e => fail_load model version e
          | Ok _ =>
              do! modify (li_before_queue li) in
              do! modify (register_queue li model version (length infos) outlier) in
              do! run_warmup li model version in
              modify (fun m => if li_coordinated li then start_status_coordinator model version m else m)
          end
      end
  end.

(** An ensemble owns no workers: its plan is parsed and its dependencies recorded. *)
Definition load_ensemble (li : LoadInput) (model version : string)
    (plan : result AppError (list (string * option string))) : M unit :=
  match plan with
  | Err e =>
      do! on_registry (fun r => Ok (remove_version model version r)) in
      throw e
  | Ok deps =>
      do! on_registry (fun r => Ok (set_ensemble_deps model version deps r)) in
      do! modify (fun m => set_plans (ensemble_plans m ∪ {[ (model, version) ]}) m) in
      do! on_registry (mark_ready (li_now li) model version) in
      modify (fun m => if li_coordinated li then start_status_coordinator model version m else m)
  end.

Definition register_version (model version : string) (t : ModelType) : M unit :=
  fun m => let '(r, reg) := register model version t (registry m) in (r, set_registry reg m).

Definition load_model (li : LoadInput) (model version : string) : M unit :=
  match li_config li with
  | Err e => throw (Config e)
  | Ok _ =>
      match li_dir li with
      | Err e => throw e
      | Ok false => throw (not_found model version)
      | Ok true =>
          match li_source li with
          | NoSource =>
              throw (ModelNotFound ("Neither model.py nor ensemble config found for "
                                    +:+ model +:+ " version " +:+ version))
          | source =>
              let! m := get in
              if is_some (registry_get model (Some version) (registry m)) then
                throw (VersionAlreadyLoaded model version)
              else
                do! modify (li_before_evict li) in
                do! enforce_max_among (li_evicting li) model in
                do! modify (li_before_register li) in
                match source with
                | EnsembleConfig plan =>
                    do! register_version model version Ensemble in
                    load_ensemble li model version plan
                | _ =>
                    do! register_version model version LitAPI in
                    load_workers li model version
                end
          end
      end
  end.

(** ** Reloading *)

Record ReloadInput := {
  rl_dir : result AppError bool;
  rl_config : result string unit;       (** [config.yaml] read back from the disk *)
  rl_new : LoadInput;                   (** a load with that configuration *)
  rl_old : LoadInput;                   (** a load with the configuration that was running *)
}.

Definition try_activate (model version : string) : M bool :=
  fun m => let '(r, reg) := activate_version model version (registry m) in (r, set_registry reg m).

(** Service restored with the previous configuration; the reload failed all the same. *)
Definition restore_version (rl : ReloadInput) (model v : string) (was_active : bool) (e : AppError)
    : M bool :=
  do! on_registry (fun r => Ok (remove_version model v r)) in
  let! restored := attempt (load_model (rl_old rl) model v) in
  match restored with
  | Ok _ =>
      do! (if was_active then do! attempt (try_activate model v) in ret tt else ret tt) in
      throw e
  | Err re =>
      throw (Internal (display e +:+ "; restore with previous config also failed: " +:+ display re))
  end.

Definition swap_version (rl : ReloadInput) (model v : string) (recover was_active : bool) : M bool :=
  do! unload_version model v in
  let! loaded := attempt (load_model (rl_new rl) model v) in
  match loaded with
  | Err e => if recover then restore_version rl model v was_active e else throw e
  | Ok _ =>
      do! (if was_active then do! try_activate model v in ret tt else ret tt) in
      ret true
  end.

Definition reload_model_inner (rl : ReloadInput) (model : string) (version : option string)
    (recover : bool) : M bool :=
  let! m := get in
  match (match version with Some v => Some v | None => get_active_version model (registry m) end) with
  | None => ret false
  | Some v =>
      match registry_get model (Some v) (registry m) with
      | None => ret false
      | Some _ =>
          let was_active := bool_decide (get_active_version model (registry m) = Some v) in
          match rl_dir rl with
          | Err e => throw e
          | Ok false => throw (not_found model v)
          | Ok true =>
              match rl_config rl with
              | Err e => throw (Config ("invalid config.yaml: " +:+ e))
              | Ok _ =>
                  match li_config (rl_new rl) with
                  | Err e => throw (Config e)
                  | Ok _ => swap_version rl model v recover was_active
                  end
              end
          end
      end
  end.
End lifecycle.
