(* ===== verification/LifecycleProps.v ===== *)
(** * Properties of the model lifecycle

    About [Lifecycle.v]: a failed load leaves no runtime state, unless another load of
    the version came first, a load that is not disturbed makes the version serve with the pool it
    was given, unloading removes every trace, the eviction loop ends and spares the
    active version, and a reload validates before it swaps and restores the service when
    it can.  A reload does not keep the version's routing weight. *)

From S2P Require Import Prelude Text Errors Outlier Queue Registry RegistryProps Validation Lifecycle.
Open Scope string_scope.
Open Scope Z_scope.

(** Nothing of the version is left outside the registry. *)
Record runtime_gone (model version : string) (m : WorkerManager) : Prop := {
  rg_workers : wm_workers m !! model_version_key model version = None;
  rg_clients : zmq_clients m !! model_version_key model version = None;
  rg_outlier : outlier_states m !! model_version_key model version = None;
  rg_routes : route_table m !! model_version_key model version = None;
  rg_queue : queues (inference_queue m) !! model_version_key model version = None;
}.

(** What belongs to another version is the same in both states. *)
Record same_elsewhere (key : string) (m m' : WorkerManager) : Prop := {
  se_workers : forall k, k <> key -> wm_workers m' !! k = wm_workers m !! k;
  se_clients : forall k, k <> key -> zmq_clients m' !! k = zmq_clients m !! k;
  se_outlier : forall k, k <> key -> outlier_states m' !! k = outlier_states m !! k;
  se_routes : forall k, k <> key -> route_table m' !! k = route_table m !! k;
  se_queue : forall k, k <> key -> queues (inference_queue m') !! k = queues (inference_queue m) !! k;
}.

Section facts.
Context `{MapIter}.
Context {V : Type} (semver_parse : string -> option V) (semver_le : V -> V -> bool).

Abbreviation load_model := (load_model semver_parse semver_le).
Abbreviation unload_version := (unload_version semver_parse semver_le).
Abbreviation remove_version := (registry_remove semver_parse semver_le).
Abbreviation fail_load := (fail_load (A := unit)) (only parsing).

(** ** Teardown *)

Lemma drain_queue_registry model version m : registry (drain_queue model version m) = registry m.
Proof. unfold drain_queue. by destruct (begin_drain _ _ _) as [[id|] q]. Qed.

Lemma drain_queue_queues model version m :
  queues (inference_queue (drain_queue model version m))
  = delete (model_version_key model version) (queues (inference_queue m)).
Proof.
  unfold drain_queue, begin_drain.
  destruct (queues (inference_queue m) !! _) as [id|] eqn:Hk; [done|]. simpl.
  by rewrite delete_id.
Qed.

Lemma teardown_gone model version m : runtime_gone model version (teardown_version_runtime model version m).
Proof.
  unfold teardown_version_runtime, clear_maps.
  split; simpl; try apply lookup_delete_eq. rewrite drain_queue_queues. apply lookup_delete_eq.
Qed.

Lemma teardown_registry model version m :
  registry (teardown_version_runtime model version m) = registry m.
Proof. unfold teardown_version_runtime. simpl. apply drain_queue_registry. Qed.

Lemma drain_queue_maps model version m :
  wm_workers (drain_queue model version m) = wm_workers m /\
  zmq_clients (drain_queue model version m) = zmq_clients m /\
  outlier_states (drain_queue model version m) = outlier_states m /\
  route_table (drain_queue model version m) = route_table m /\
  status_coordinators (drain_queue model version m) = status_coordinators m.
Proof. unfold drain_queue. by destruct (begin_drain _ _ _) as [[id|] q]. Qed.

Lemma teardown_elsewhere model version m :
  same_elsewhere (model_version_key model version) m (teardown_version_runtime model version m).
Proof.
  unfold teardown_version_runtime, clear_maps.
  destruct (drain_queue_maps model version m) as (Hw & Hc & Ho & Hr & _).
  split; intros k Hk; simpl; rewrite ?Hw, ?Hc, ?Ho, ?Hr; try by rewrite lookup_delete_ne.
  rewrite drain_queue_queues. by rewrite lookup_delete_ne.
Qed.

Lemma gone_elsewhere model version key m m' :
  same_elsewhere key m m' -> model_version_key model version <> key ->
  runtime_gone model version m -> runtime_gone model version m'.
Proof.
  intros [Hw Hc Ho Hr Hq] Hne [? ? ? ? ?].
  split; rewrite ?Hw, ?Hc, ?Ho, ?Hr, ?Hq by done; done.
Qed.

Lemma elsewhere_trans key m1 m2 m3 :
  same_elsewhere key m1 m2 -> same_elsewhere key m2 m3 -> same_elsewhere key m1 m3.
Proof.
  intros [Aw Ac Ao Ar Aq] [Bw Bc Bo Br Bq]. split; intros k Hk.
  - by rewrite Bw, Aw.
  - by rewrite Bc, Ac.
  - by rewrite Bo, Ao.
  - by rewrite Br, Ar.
  - by rewrite Bq, Aq.
Qed.

(** A failing load ends with nothing left. *)
Lemma fail_load_gone model version e m :
  exists m', fail_load model version e m = (Err e, m') /\ runtime_gone model version m'.
Proof.
  unfold Lifecycle.fail_load, mark_load_failed, bind, attempt, ret, modify, throw, on_registry.
  destruct (set_status _ _ _ _); eexists; (split; [done|]); apply teardown_gone.
Qed.

(** ** Unloading *)

Lemma update_version_ok model version f r :
  is_some (registry_get model (Some version) r) = true ->
  exists e mv, models r !! model = Some e /\ me_versions e !! version = Some mv /\
    update_version model version f r
    = Ok (set_models (<[model := set_versions (<[version := f mv]> (me_versions e)) e]> (models r)) r).
Proof.
  unfold registry_get, update_version. destruct (models r !! model) as [e|]; [|done].
  destruct (me_versions e !! version) as [mv|] eqn:Hv; [|done]. intros _. exists e, mv.
  simpl. by rewrite Hv.
Qed.

Lemma update_version_err model version f r :
  is_some (registry_get model (Some version) r) = false ->
  exists e, update_version model version f r = Err e.
Proof.
  unfold registry_get, update_version. destruct (models r !! model) as [e|]; [|by eexists].
  simpl. destruct (me_versions e !! version) as [mv|]; [done|]. by eexists.
Qed.

Lemma unload_version_spec model version m :
  if is_some (registry_get model (Some version) (registry m)) then
    exists r m', set_status model version Unloading (registry m) = Ok r /\
      unload_version model version m = (Ok tt, m') /\
      registry m' = remove_version model version r /\
      runtime_gone model version m' /\
      same_elsewhere (model_version_key model version) m m' /\
      status_coordinators m' = status_coordinators m ∖ {[ model_version_key model version ]} /\
      shutdown m' = shutdown m
  else exists e m', unload_version model version m = (Err e, m') /\ registry m' = registry m /\
      same_elsewhere EmptyString m m'.
Proof.
  unfold Lifecycle.unload_version, bind, modify, on_registry. simpl registry.
  destruct (is_some _) eqn:Hs.
  - destruct (update_version_ok model version (with_status Unloading) (registry m) Hs) as (e & mv & He & Hmv & Hu).
    unfold set_status. rewrite Hu. eexists _, _. split; [done|]. split; [done|].
    set (m1 := set_registry (set_models _ _) (stop_status_coordinator _ _ _)). split.
    { simpl. f_equal. unfold teardown_version_runtime. simpl. by rewrite drain_queue_registry. }
    pose proof (teardown_gone model version m1) as [Gw Gc Go Gr Gq].
    pose proof (teardown_elsewhere model version m1) as [Ew Ec Eo Er Eq].
    split; [split; [exact Gw|exact Gc|exact Go|exact Gr|exact Gq]|].
    split; [split; [exact Ew|exact Ec|exact Eo|exact Er|exact Eq]|].
    destruct (drain_queue_maps model version m1) as (_ & _ & _ & _ & Hcs). split.
    + simpl. by rewrite Hcs.
    + simpl. unfold drain_queue. by destruct (begin_drain _ _ _) as [[id|] q].
  - destruct (update_version_err model version (with_status Unloading) (registry m) Hs) as (e & Hu).
    unfold set_status. rewrite Hu. eexists _, _. split; [done|]. split; [done|]. by split.
Qed.

(** ** Removal and the number of versions *)

Lemma remove_models model version r e :
  models r !! model = Some e ->
  models (remove_version model version r) =
    let e' := set_entry_weights (delete version (me_weights e))
                (set_versions (delete version (me_versions e)) e) in
    if bool_decide (delete version (me_versions e) = ∅) then delete model (models r)
    else <[model := e']> (models r).
Proof.
  intros He. rewrite registry_remove_eq. unfold remove_deps. cbn [models]. rewrite He. cbn [set_models models].
  set (e' := set_entry_weights _ _). simpl.
  assert (forall r0 : ModelRegistry, models r0 = <[model := e']> (models r) ->
    models (if bool_decide (delete version (me_versions e) = ∅)
            then set_models (delete model (models r0)) r0 else r0)
    = if bool_decide (delete version (me_versions e) = ∅) then delete model (models r)
      else <[model := e']> (models r)) as Hfin.
  { intros r0 Hr0. case_goal; [|done]. simpl. rewrite Hr0. by rewrite delete_insert_eq. }
  apply Hfin. case_goal; [|done]. by destruct (replacement _ _ _).
Qed.

Lemma remove_get model version r model' version' :
  (model', version') <> (model, version) ->
  registry_get model' (Some version') (remove_version model version r)
  = registry_get model' (Some version') r.
Proof.
  intros Hne. destruct (models r !! model) as [e|] eqn:He.
  - unfold registry_get at 1. rewrite (remove_models _ _ _ _ He). simpl.
    unfold registry_get. case_bool_decide as Hempty.
    + destruct (decide (model' = model)) as [->|Hm]; [|by rewrite lookup_delete_ne].
      rewrite lookup_delete_eq, He.
      assert (version' <> version) as Hv by congruence.
      rewrite <- (lookup_delete_ne (me_versions e) version version') by done. by rewrite Hempty, lookup_empty.
    + destruct (decide (model' = model)) as [->|Hm]; [|by rewrite lookup_insert_ne].
      rewrite lookup_insert_eq, He. simpl. assert (version' <> version) by congruence.
      by rewrite lookup_delete_ne.
  - rewrite registry_remove_eq. unfold remove_deps. cbn [models]. by rewrite He.
Qed.

Lemma remove_get_same model version r :
  registry_get model (Some version) (remove_version model version r) = None.
Proof.
  destruct (models r !! model) as [e|] eqn:He.
  - unfold registry_get. rewrite (remove_models _ _ _ _ He). simpl. case_bool_decide.
    + by rewrite lookup_delete_eq.
    + rewrite lookup_insert_eq. simpl. apply lookup_delete_eq.
  - rewrite registry_remove_eq. unfold remove_deps, registry_get. cbn [models]. rewrite He. cbn [models]. by rewrite He.
Qed.

Definition version_count (model : string) (r : ModelRegistry) : nat :=
  match models r !! model with Some e => size (me_versions e) | None => 0 end.

Lemma list_versions_length model r : length (list_versions model r) = version_count model r.
Proof.
  unfold list_versions, version_count. destruct (models r !! model); [|done].
  by rewrite length_map, length_map_iter.
Qed.

Lemma remove_count model version r :
  is_some (registry_get model (Some version) r) = true ->
  version_count model r = S (version_count model (remove_version model version r)).
Proof.
  unfold registry_get. destruct (models r !! model) as [e|] eqn:He; [|done].
  destruct (me_versions e !! version) as [mv|] eqn:Hv; [|done]. intros _.
  unfold version_count. rewrite He, (remove_models _ _ _ _ He). simpl.
  assert (size (me_versions e) = S (size (delete version (me_versions e)))) as ->.
  { rewrite map_size_delete_Some by by eexists.
    assert (size (me_versions e) <> 0)%nat; [|lia].
    intros H0%map_size_empty_inv. rewrite H0, lookup_empty in Hv. done. }
  f_equal. case_bool_decide as Hempty.
  - by rewrite lookup_delete_eq, Hempty, map_size_empty.
  - by rewrite lookup_insert_eq.
Qed.

Lemma status_count model version s r r' :
  set_status model version s r = Ok r' -> version_count model r' = version_count model r.
Proof.
  unfold set_status. destruct (is_some (registry_get model (Some version) r)) eqn:Hs.
  - destruct (update_version_ok model version (with_status s) r Hs) as (e & mv & He & Hv & ->).
    intros [= <-]. unfold version_count. simpl. rewrite lookup_insert_eq, He. simpl.
    apply map_size_insert_Some. by eexists.
  - destruct (update_version_err model version (with_status s) r Hs) as (e & ->). done.
Qed.

Lemma status_get model version s r r' :
  set_status model version s r = Ok r' -> is_some (registry_get model (Some version) r') = true.
Proof.
  unfold set_status. destruct (is_some (registry_get model (Some version) r)) eqn:Hs.
  - destruct (update_version_ok model version (with_status s) r Hs) as (e & mv & He & Hv & ->).
    intros [= <-]. unfold registry_get. simpl. rewrite lookup_insert_eq. simpl. by rewrite lookup_insert_eq.
  - destruct (update_version_err model version (with_status s) r Hs) as (e & ->). done.
Qed.

Lemma status_get_other model version s r r' version' :
  set_status model version s r = Ok r' -> version <> version' ->
  registry_get model (Some version') r' = registry_get model (Some version') r.
Proof.
  unfold set_status, update_version. intros Hs Hne. apply result_bind_ok in Hs as (e & He & Hs).
  apply result_bind_ok in Hs as (mv & _ & [= <-]). apply ok_or_ok in He. unfold registry_get. simpl.
  rewrite lookup_insert_eq, He. simpl. by rewrite lookup_insert_ne.
Qed.

Lemma model_version_key_nonempty model version : model_version_key model version <> EmptyString.
Proof. unfold model_version_key. by destruct model. Qed.

(** ** The eviction loop *)

(** Each round that unloads removes one version. *)
Lemma unload_count model version m m' :
  unload_version model version m = (Ok tt, m') ->
  version_count model (registry m) = S (version_count model (registry m')).
Proof.
  intros Hu. pose proof (unload_version_spec model version m) as Hs.
  destruct (is_some (registry_get model (Some version) (registry m))).
  - destruct Hs as (r & m2 & Hst & Hu' & Hreg & _). rewrite Hu in Hu'. injection Hu' as <-.
    rewrite Hreg, <- (remove_count model version r).
    + by rewrite (status_count _ _ _ _ _ Hst).
    + by eapply status_get.
  - destruct Hs as (e & m2 & Hu' & _). congruence.
Qed.

Lemma evict_loop_ends fuel max model m :
  (version_count model (registry m) < fuel)%nat ->
  is_Some (evict_loop semver_parse semver_le fuel max model m).
Proof.
  revert m. induction fuel as [|fuel IH]; intros m Hf; [lia|]. simpl. unfold evict_round.
  case_goal; [by eexists|]. destruct (lru_eviction_candidate _ _) as [victim|]; [|by eexists].
  destruct (unload_version model victim m) as [[[]|e] m'] eqn:Hu; [|by eexists].
  apply IH. apply unload_count in Hu. lia.
Qed.

(** The loop never touches the version being loaded, and keeps the active one. *)
Lemma model_version_key_inj model v v' :
  model_version_key model v = model_version_key model v' -> v = v'.
Proof.
  unfold model_version_key. induction model as [|c model IH]; simpl; intros Heq; injection Heq; auto.
Qed.

Lemma candidate_not_active model r victim :
  lru_eviction_candidate model r = Some victim -> get_active_version model r <> Some victim.
Proof.
  unfold lru_eviction_candidate, get_active_version. destruct (models r !! model) as [e|]; [|done].
  destruct (least_recent None _) as [v|] eqn:Hl; [|done]. intros [= <-].
  apply least_recent_spec in Hl as ([?|Hl] & _); [done|].
  apply list_elem_of_In, filter_In in Hl as [_ Hl]. by apply negb_true_iff, bool_decide_eq_false in Hl.
Qed.

Lemma remove_active_other model version r :
  active_versions r !! model <> Some version ->
  active_versions (remove_version model version r) = active_versions r.
Proof.
  intros Hne. rewrite registry_remove_eq. unfold remove_deps. cbn [models active_versions set_models].
  destruct (models r !! model) as [e|]; [|done]. cbn [active_versions].
  destruct (bool_decide (active_versions r !! model = Some version)) eqn:Hb; to_prop; [done|]. by case_goal.
Qed.

(** A removed version is not active: its replacement is another one. *)
Lemma remove_active_same model version r :
  is_some (models r !! model) = true -> get_active_version model (remove_version model version r) <> Some version.
Proof.
  rewrite registry_remove_eq. unfold remove_deps, get_active_version. cbn [models active_versions set_models].
  destruct (models r !! model) as [e|]; [|done]. intros _. cbn [active_versions].
  set (e' := set_entry_weights _ _).
  assert (forall r0 : ModelRegistry, active_versions r0 !! model <> Some version ->
    active_versions (if bool_decide (me_versions e' = ∅) then set_models (delete model (models r0)) r0 else r0)
      !! model <> Some version) as Hfin by (intros r0 Hr0; by destruct (bool_decide (me_versions e' = ∅))).
  apply Hfin.
  destruct (bool_decide (active_versions r !! model = Some version)) eqn:Ha; to_prop; [|exact Ha].
  pose proof (replacement_spec semver_parse semver_le e') as Hrep.
  destruct (replacement semver_parse semver_le e') as [v|]; simpl.
  - rewrite lookup_insert_eq. intros [= ->]. destruct Hrep as [Hrep _].
    unfold version_serving, e' in Hrep. simpl in Hrep. by rewrite lookup_delete_eq in Hrep.
  - by rewrite lookup_delete_eq.
Qed.

Lemma status_active model version s r r' :
  set_status model version s r = Ok r' -> active_versions r' = active_versions r.
Proof.
  unfold set_status, update_version. intros Hs. apply result_bind_ok in Hs as (e & _ & Hs).
  apply result_bind_ok in Hs as (mv & _ & [= <-]). done.
Qed.

(** Unloading another version of the model. *)
Lemma unload_other model victim m r m' version :
  unload_version model victim m = (r, m') -> victim <> version ->
  (runtime_gone model version m -> runtime_gone model version m') /\
  registry_get model (Some version) (registry m') = registry_get model (Some version) (registry m) /\
  (get_active_version model (registry m) <> Some victim ->
     get_active_version model (registry m') = get_active_version model (registry m)).
Proof.
  intros Hu Hne. pose proof (unload_version_spec model victim m) as Hs.
  assert (model_version_key model version <> model_version_key model victim) as Hk
    by (intros Heq; by apply model_version_key_inj in Heq).
  destruct (is_some (registry_get model (Some victim) (registry m))).
  - destruct Hs as (r1 & m2 & Hst & Hu' & Hreg & _ & Helse & _). rewrite Hu in Hu'. simplify_eq.
    split_and!.
    + by apply gone_elsewhere with (model_version_key model victim).
    + rewrite Hreg, remove_get by congruence. by eapply status_get_other.
    + intros Hact. unfold get_active_version in *. rewrite Hreg.
      rewrite remove_active_other; rewrite (status_active _ _ _ _ _ Hst); done.
  - destruct Hs as (e & m2 & Hu' & Hreg & [Ew Ec Eo Er Eq]). rewrite Hu in Hu'. simplify_eq.
    rewrite Hreg. split_and!; [|done|done]. intros [? ? ? ? ?].
    split; rewrite ?Ew, ?Ec, ?Eo, ?Er, ?Eq; try done; apply model_version_key_nonempty.
Qed.

Lemma unload_shutdown model version m : shutdown (snd (unload_version model version m)) = shutdown m.
Proof.
  unfold Lifecycle.unload_version, bind, modify, on_registry. simpl.
  destruct (set_status _ _ _ _); [|done]. simpl. unfold drain_queue.
  by destruct (begin_drain _ _ _) as [[id|] q].
Qed.

(** The state the loop leaves. *)
Lemma evict_loop_spec fuel max model m r m' version :
  evict_loop semver_parse semver_le fuel max model m = Some (r, m') ->
  registry_get model (Some version) (registry m) = None ->
  (runtime_gone model version m -> runtime_gone model version m') /\
  registry_get model (Some version) (registry m') = None /\
  get_active_version model (registry m') = get_active_version model (registry m) /\
  shutdown m' = shutdown m /\
  (r = Ok tt -> Z.of_nat (version_count model (registry m')) < max \/
     lru_eviction_candidate model (registry m') = None).
Proof.
  revert m. induction fuel as [|fuel IH]; intros m; simpl; [done|]. unfold evict_round. intros Hloop Hnone.
  rewrite list_versions_length in Hloop. destruct (Z.ltb_spec (Z.of_nat (version_count model (registry m))) max).
  { simplify_eq. by split_and!; [| | | |left]. }
  destruct (lru_eviction_candidate model (registry m)) as [victim|] eqn:Hc.
  2:{ simplify_eq. by split_and!; [| | | |right]. }
  destruct (unload_version model victim m) as [ru m1] eqn:Hu.
  pose proof (unload_shutdown model victim m) as Hshut. rewrite Hu in Hshut. simpl in Hshut.
  destruct (decide (victim = version)) as [->|Hne].
  - pose proof (unload_version_spec model version m) as Hs. rewrite Hnone in Hs. simpl in Hs.
    destruct Hs as (e & m2 & Hu' & Hreg & [Ew Ec Eo Er Eq]). rewrite Hu in Hu'. simplify_eq.
    rewrite Hreg. split_and!; try done. intros [? ? ? ? ?].
    split; rewrite ?Ew, ?Ec, ?Eo, ?Er, ?Eq; try done; apply model_version_key_nonempty.
  - destruct (unload_other _ _ _ _ _ version Hu Hne) as (Hgone & Hget & Hact).
    specialize (Hact (candidate_not_active _ _ _ Hc)). rewrite Hnone in Hget.
    destruct ru as [[]|e]; [|simplify_eq; by split_and!].
    destruct (IH m1 Hloop Hget) as (Hgone' & Hget' & Hact' & Hshut' & Hend).
    split_and!; [auto|done|congruence|congruence|done].
Qed.

Lemma enforce_max_spec model m r m' version :
  enforce_max semver_parse semver_le model m = (r, m') ->
  registry_get model (Some version) (registry m) = None ->
  (runtime_gone model version m -> runtime_gone model version m') /\
  registry_get model (Some version) (registry m') = None /\ shutdown m' = shutdown m.
Proof.
  unfold enforce_max, enforce_max_loaded_versions.
  destruct (models (registry m) !! model ≫= me_max_loaded_versions) as [max|]; [|by intros [= <- <-]].
  destruct (evict_loop_ends (S (length (list_versions model (registry m)))) max model m) as [[r0 m0] He];
    [rewrite list_versions_length; lia|].
  rewrite He. intros [= <- <-] Hnone.
  by destruct (evict_loop_spec _ _ _ _ _ _ version He Hnone) as (? & ? & _ & ? & _).
Qed.

Lemma enforce_max_among_alone model m :
  enforce_max_among semver_parse semver_le [] model m = enforce_max semver_parse semver_le model m.
Proof. unfold enforce_max_among, enforce_max, enforce_max_loaded_versions. by destruct (_ ≫= _). Qed.

(** ** Loading *)

(** Every way out of a load with workers that is an error is through the teardown. *)
Lemma load_workers_err li model version m e m' n :
  li_devices li = Ok n -> is_some (registry_get model (Some version) (registry m)) = true ->
  load_workers li model version m = (Err e, m') -> runtime_gone model version m'.
Proof.
  intros Hdev Hreg. unfold load_workers, bind at 1, on_registry at 1.
  destruct (update_version_ok model version (with_status Loading) (registry m) Hreg) as (en & mv & _ & _ & Hu).
  unfold set_status at 1. rewrite Hu, Hdev. unfold bind at 1, modify at 1. unfold bind at 1, attempt at 1.
  destruct (spawn_workers li model version _) as [[infos|e1] m1].
  2:{ destruct (fail_load_gone model version e1 m1) as (m2 & -> & Hg). by intros [= <- <-]. }
  unfold bind at 1, attempt at 1. destruct (finalize li model version infos m1) as [[[]|e1] m2].
  2:{ destruct (fail_load_gone model version e1 m2) as (m3 & -> & Hg). by intros [= <- <-]. }
  unfold bind at 1, modify at 1. unfold bind at 1, modify at 1. unfold bind at 1.
  set (m3 := register_queue _ _ _ _ _ _). clearbody m3. unfold run_warmup.
  destruct (li_warmup li) as [[[]|reason]|]; [| |done].
  - unfold bind at 1, modify at 1. unfold bind at 1, attempt at 1.
    destruct (on_registry _ _) as [[[]|e1] m4]; [done|].
    destruct (fail_load_gone model version e1 m4) as (m5 & -> & Hg). by intros [= <- <-].
  - unfold bind at 1, modify at 1. unfold bind at 1, attempt at 1.
    destruct (on_registry _ _) as [[[]|e1] m4]; intros [= <- <-]; apply teardown_gone.
Qed.

Lemma register_fresh model version t r :
  registry_get model (Some version) r = None ->
  exists r' mv, register model version t r = (Ok tt, r') /\
    registry_get model (Some version) r' = Some mv /\ mv_workers mv = [].
Proof.
  intros Hnone. unfold register, registry_get in *.
  assert (me_versions (default (ModelEntry_new model) (models r !! model)) !! version = None) as ->
    by (destruct (models r !! model); [done|apply lookup_empty]).
  eexists _, _. split; [done|]. simpl. rewrite lookup_insert_eq. simpl. by rewrite lookup_insert_eq.
Qed.

Lemma update_version_get model version f r mv :
  registry_get model (Some version) r = Some mv ->
  exists r', update_version model version f r = Ok r' /\
    registry_get model (Some version) r' = Some (f mv).
Proof.
  intros Hg. destruct (update_version_ok model version f r) as (e & mv' & He & Hv & Hu);
    [by rewrite Hg|].
  eexists. split; [exact Hu|]. unfold registry_get in *. rewrite He, Hv in Hg. injection Hg as <-.
  simpl. rewrite lookup_insert_eq. simpl. by rewrite lookup_insert_eq.
Qed.

Lemma on_registry_update model version f m mv :
  registry_get model (Some version) (registry m) = Some mv ->
  exists r', on_registry (update_version model version f) m = (Ok tt, set_registry r' m) /\
    registry_get model (Some version) r' = Some (f mv).
Proof.
  intros Hg. destruct (update_version_get model version f _ _ Hg) as (r' & Hu & Hr'). exists r'.
  unfold on_registry. by rewrite Hu.
Qed.

(** Other tasks leave the state alone. *)
Definition undisturbed_before (li : LoadInput) : Prop :=
  (forall m, li_before_evict li m = m) /\ li_evicting li = [] /\ (forall m, li_before_register li m = m).

Definition undisturbed (li : LoadInput) : Prop :=
  undisturbed_before li /\ (forall i b m, li_other li i b m = m) /\ (forall m, li_before_queue li m = m) /\
  (forall m, li_before_ready li m = m).

(** What registration adds to the maps. *)
Record registered (model version : string) (ids : list nat) (m m' : WorkerManager) : Prop := {
  rd_registry : registry m' = registry m;
  rd_shutdown : shutdown m' = shutdown m;
  rd_outliers : outlier_states m' = outlier_states m;
  rd_queue : inference_queue m' = inference_queue m;
  rd_workers : default [] (wm_workers m' !! model_version_key model version)
    = (default [] (wm_workers m !! model_version_key model version) ++ ids)%list;
  rd_clients : default [] (zmq_clients m' !! model_version_key model version)
    = (default [] (zmq_clients m !! model_version_key model version) ++ ids)%list;
}.

Lemma register_workers_spec li model version ready i m :
  undisturbed li -> load_registration_alive model version m = true ->
  exists infos m', register_workers li model version i ready m = (Ok infos, m') /\
    length infos = length ready /\
    registered model version (seq i (length ready)) m m'.
Proof.
  intros (_ & Hother & Hbq & Hbr). revert i m. induction ready as [|w ready IH]; intros i m Halive; simpl.
  { exists [], m. split_and!; [done|done|]. split; try done; by rewrite app_nil_r. }
  unfold bind at 1, modify at 1. rewrite Hother. unfold bind at 1, check_alive at 1. rewrite Halive.
  unfold bind at 1, modify at 1. unfold bind at 1, modify at 1. rewrite Hother.
  unfold bind at 1, check_alive at 1. set (m1 := upsert_routes _ _ _ _).
  assert (load_registration_alive model version m1 = true) as -> by done.
  unfold bind at 1, modify at 1. unfold bind at 1. set (m2 := push_worker _ _ _ _).
  destruct (IH (S i) m2) as (infos & m' & Hr & Hlen & [Rr Rs Ro Rq Rw Rc]); [done|]. rewrite Hr.
  exists (worker_info i w :: infos), m'. split_and!; [done|simpl; by rewrite Hlen|].
  split; [exact Rr|exact Rs|exact Ro|exact Rq| |].
  - rewrite Rw. simpl. rewrite lookup_insert_eq. simpl. by rewrite <- app_assoc.
  - rewrite Rc. simpl. rewrite lookup_insert_eq. simpl. by rewrite <- app_assoc.
Qed.

(** A version that serves with a pool of [n] workers. *)
Record serving_with (model version : string) (n : nat) (m : WorkerManager) : Prop := {
  sw_version : exists mv, registry_get model (Some version) (registry m) = Some mv /\
    mv_status mv = Ready /\ length (mv_workers mv) = n;
  sw_workers : default [] (wm_workers m !! model_version_key model version) = seq 0 n;
  sw_clients : default [] (zmq_clients m !! model_version_key model version) = seq 0 n;
  sw_queue : exists id v, entry (model_version_key model version) (inference_queue m) = Some (id, v) /\
    vq_worker_count v = n /\ vq_collecting v = true;
}.

Lemma register_model_entry model version cfg n o offsets q :
  exists id v, entry (model_version_key model version)
      (register_model model version cfg n o true offsets q) = Some (id, v) /\
    vq_worker_count v = n /\ vq_collecting v = true.
Proof.
  unfold register_model. set (q1 := match _ with Some _ => _ | None => _ end). clearbody q1.
  unfold entry. simpl. rewrite lookup_insert_eq, list_lookup_middle by done. eexists _, _. done.
Qed.

(** From the end of registration to the end of the load. *)
Lemma load_tail_ok li model version infos o m n mv :
  undisturbed li -> li_warmup li = None \/ li_warmup li = Some (Ok tt) ->
  registry_get model (Some version) (registry m) = Some mv -> length infos = n ->
  default [] (wm_workers m !! model_version_key model version) = seq 0 n ->
  default [] (zmq_clients m !! model_version_key model version) = seq 0 n ->
  exists m1 m', finalize li model version infos m = (Ok tt, m1) /\
    bind (run_warmup li model version) (fun _ =>
      modify (fun m => if li_coordinated li then start_status_coordinator model version m else m))
      (register_queue li model version (length infos) o m1) = (Ok tt, m') /\
    serving_with model version n m'.
Proof.
  intros (_ & _ & _ & Hbr) Hw Hget <- Hwk Hck. unfold finalize, bind at 1.
  destruct (on_registry_update model version (with_workers infos) m mv Hget) as (r1 & Hr1 & Hg1).
  unfold set_workers. rewrite Hr1.
  destruct (register_model_entry model version (li_queue_config li) (length infos) o (li_offsets li)
    (inference_queue m)) as (id & v & Hentry & Hv & Hcol).
  assert (Hdone : forall r mv', registry_get model (Some version) r = Some mv' ->
    mv_status mv' = Ready -> mv_workers mv' = infos -> forall c,
    serving_with model version (length infos)
      (set_coordinators c (set_registry r (register_queue li model version (length infos) o m)))).
  { intros r mv' Hr Hst Hws c. split; [exists mv'; by rewrite Hws|done|done|]. exists id, v. done. }
  destruct Hw as [Hw|Hw]; unfold run_warmup; rewrite Hw.
  - destruct (on_registry_update model version
      (fun mv => with_loaded (match mv_loaded_at mv with Some t => Some t | None => Some (li_now li) end)
         (with_failure None (with_status Ready mv))) (set_registry r1 m) _ Hg1) as (r2 & Hr2 & Hg2).
    unfold mark_ready. rewrite Hr2. eexists _, _. split; [done|]. unfold bind, ret, modify.
    split; [done|]. pose proof (Hdone _ _ Hg2 eq_refl eq_refl) as Hd. destruct (li_coordinated li).
    + apply Hd.
    + apply (Hd (status_coordinators m)).
  - destruct (on_registry_update model version (with_status WarmingUp) (set_registry r1 m) _ Hg1)
      as (r2 & Hr2 & Hg2).
    destruct (on_registry_update model version
      (fun mv => with_loaded (match mv_loaded_at mv with Some t => Some t | None => Some (li_now li) end)
         (with_failure None (with_status Ready mv)))
      (register_queue li model version (length infos) o (set_registry r2 (set_registry r1 m))) _ Hg2)
      as (r3 & Hr3 & Hg3).
    unfold mark_warming_up. rewrite Hr2. eexists _, _. split; [done|].
    unfold bind, ret, modify, attempt, mark_ready. rewrite Hbr.
    rewrite Hr3. split; [reflexivity|]. pose proof (Hdone _ _ Hg3 eq_refl eq_refl) as Hd.
    destruct (li_coordinated li).
    + apply Hd.
    + apply (Hd (status_coordinators m)).
Qed.

(** A load that is not disturbed and whose workers come up makes the version serve. *)
Lemma load_workers_ok li model version m n ready mv :
  undisturbed li -> li_devices li = Ok n -> li_handshakes li = Ok ready ->
  li_warmup li = None \/ li_warmup li = Some (Ok tt) ->
  registry_get model (Some version) (registry m) = Some mv -> shutdown m = false ->
  runtime_gone model version m ->
  exists m', load_workers li model version m = (Ok tt, m') /\ serving_with model version (length ready) m'.
Proof.
  intros Hund Hdev Hready Hwarm Hget Hshut [Gw Gc Go Gr Gq].
  unfold load_workers, bind at 1.
  destruct (on_registry_update model version (with_status Loading) m mv Hget) as (r1 & Hr1 & Hg1).
  unfold set_status. rewrite Hr1, Hdev. unfold bind at 1, modify at 1. unfold bind at 1, attempt at 1.
  set (m1 := set_outliers _ _). unfold spawn_workers. rewrite Hready.
  destruct (register_workers_spec li model version ready 0 m1 Hund) as (infos & m2 & -> & Hlen & [Rr Rs Ro Rq Rw Rc]).
  { unfold load_registration_alive. simpl. by rewrite Hshut, Hg1. }
  simpl in Rw, Rc. rewrite Gw in Rw. rewrite Gc in Rc. simpl in Rw, Rc.
  destruct (load_tail_ok li model version infos (with_config n (li_ejection li)) m2 (length ready)
    (with_status Loading mv) Hund Hwarm) as (m3 & m' & Hfin & Htail & Hserve); try done.
  { rewrite Rr. exact Hg1. }
  exists m'. split; [|done]. unfold bind at 1, attempt at 1. rewrite Hfin.
  unfold bind at 1, modify at 1. destruct Hund as (_ & _ & Hbq & _). rewrite Hbq.
  unfold bind at 1, modify at 1. exact Htail.
Qed.

Lemma load_model_ok li model version m n ready :
  undisturbed li -> li_config li = Ok tt -> li_dir li = Ok true -> li_source li = PythonModel ->
  li_devices li = Ok n -> li_handshakes li = Ok ready ->
  li_warmup li = None \/ li_warmup li = Some (Ok tt) ->
  registry_get model (Some version) (registry m) = None -> runtime_gone model version m ->
  shutdown m = false ->
  fst (enforce_max semver_parse semver_le model m) = Ok tt ->
  exists m', load_model li model version m = (Ok tt, m') /\
    serving_with model version (length ready) m'.
Proof.
  intros Hund Hcfg Hdir Hsrc Hdev Hready Hwarm Hget Hgone Hshut Hroom.
  unfold Lifecycle.load_model. rewrite Hcfg, Hdir, Hsrc. unfold bind at 1, Lifecycle.get. rewrite Hget.
  cbv beta iota delta [is_some]. pose proof (proj1 Hund) as (Hbe & Hev & Hbreg).
  unfold bind at 1, modify at 1. rewrite Hbe, Hev. unfold bind at 1. rewrite enforce_max_among_alone. cbv beta.
  destruct (enforce_max semver_parse semver_le model m) as [[[]|e1] m1] eqn:Hmax; [|done].
  destruct (enforce_max_spec _ _ _ _ version Hmax Hget) as (Hgone1 & Hget1 & Hshut1).
  unfold bind at 1, modify at 1. rewrite Hbreg.
  unfold bind at 1, register_version at 1.
  destruct (register_fresh model version LitAPI (registry m1) Hget1) as (r2 & mv & Hr2 & Hg2 & _).
  rewrite Hr2. eapply (load_workers_ok li model version (set_registry r2 m1) n ready mv); try done.
  - simpl. by rewrite Hshut1.
  - destruct (Hgone1 Hgone) as [? ? ? ? ?]. by split.
Qed.

(** ** Theorems *)

(** A version that is there already is not registered again, and nothing changes. *)
Lemma register_version_taken model version t m mv :
  registry_get model (Some version) (registry m) = Some mv ->
  register_version model version t m = (Err (VersionAlreadyLoaded model version), m).
Proof.
  unfold registry_get, register_version, register. destruct (models (registry m) !! model) as [e|] eqn:He; [|done].
  intros Hv. simpl. rewrite Hv. f_equal. destruct m as [r]. unfold set_registry, set_models. simpl in *.
  rewrite insert_id by done. by destruct r.
Qed.

(** From the registration on, a load that fails leaves nothing running; an ensemble
    never has anything of its own running. *)
Lemma registered_load_err li model version t m e m' n :
  li_devices li = Ok n ->
  registry_get model (Some version) (registry m) = None ->
  bind (register_version model version t) (fun _ =>
    match li_source li with
    | EnsembleConfig plan => load_ensemble semver_parse semver_le li model version plan
    | _ => load_workers li model version
    end) m = (Err e, m') ->
  (li_source li = PythonModel -> runtime_gone model version m') /\
  (li_source li <> NoSource -> runtime_gone model version m -> runtime_gone model version m').
Proof.
  intros Hdev Hget. unfold bind at 1, register_version at 1.
  destruct (register_fresh model version t (registry m) Hget) as (r2 & mv & Hr2 & Hg2 & _).
  rewrite Hr2. destruct (li_source li) as [|plan|]; [| |done].
  - intros Hload. assert (runtime_gone model version m'); [|done].
    eapply (load_workers_err li model version (set_registry r2 m)); [done|simpl; by rewrite Hg2|done].
  - unfold load_ensemble. destruct plan as [deps|e2].
    + unfold bind, on_registry, modify. simpl.
      destruct (mark_ready _ _ _ _) as [r3|e3]; intros [= <- <-].
      split; [done|]. intros _ [? ? ? ? ?]. by split.
    + unfold bind, on_registry, throw. intros [= <- <-]. split; [done|].
      intros _ [? ? ? ? ?]. by split.
Qed.

(** C17. A load with a valid device plan that fails leaves nothing of the version
    running. If the version was registered before, the state is unchanged. Otherwise
    it fails in one of four ways: refused with the state unchanged; the eviction
    failed, with the state eviction and the other tasks left; another load
    registered the version in between (other tasks may do anything before the
    eviction, between its rounds and before the registration), so that the answer is
    VersionAlreadyLoaded and the state is as the others left it; or it registered
    the version and failed later, and then, whatever other tasks did meanwhile, no
    workers, clients, outlier state, routes or queue are under the key of a Python
    model, nor of an ensemble that had none when it registered. A load that is
    undisturbed until it registers, of a version with nothing running, leaves
    nothing running. (Each eviction and the teardown at the end are one step.) *)
Theorem failed_load_leaves_nothing li model version m e m' n :
  li_devices li = Ok n -> load_model li model version m = (Err e, m') ->
  let room := enforce_max_among semver_parse semver_le (li_evicting li) model (li_before_evict li m) in
  let m2 := li_before_register li (snd room) in
  (is_some (registry_get model (Some version) (registry m)) = true -> m' = m) /\
  (registry_get model (Some version) (registry m) = None ->
     m' = m \/
     (fst room = Err e /\ m' = snd room) \/
     (fst room = Ok tt /\ is_some (registry_get model (Some version) (registry m2)) = true /\
        e = VersionAlreadyLoaded model version /\ m' = m2) \/
     (fst room = Ok tt /\ registry_get model (Some version) (registry m2) = None /\
        (li_source li = PythonModel -> runtime_gone model version m') /\
        (runtime_gone model version m2 -> runtime_gone model version m'))) /\
  (registry_get model (Some version) (registry m) = None -> undisturbed_before li ->
     runtime_gone model version m -> runtime_gone model version m').
Proof.
  intros Hdev Hload room m2.
  assert (Hmain : (is_some (registry_get model (Some version) (registry m)) = true -> m' = m) /\
    (registry_get model (Some version) (registry m) = None ->
     m' = m \/
     (fst room = Err e /\ m' = snd room) \/
     (fst room = Ok tt /\ is_some (registry_get model (Some version) (registry m2)) = true /\
        e = VersionAlreadyLoaded model version /\ m' = m2) \/
     (fst room = Ok tt /\ registry_get model (Some version) (registry m2) = None /\
        (li_source li = PythonModel -> runtime_gone model version m') /\
        (runtime_gone model version m2 -> runtime_gone model version m')))).
  { revert Hload. unfold Lifecycle.load_model, throw.
    destruct (li_config li) as [[]|]; [|intros [= <- <-]; split; [done|by left]].
    destruct (li_dir li) as [[]|]; [|intros [= <- <-]; split; [done|by left]..].
    destruct (li_source li) as [|plan|] eqn:Hsrc; [| |intros [= <- <-]; split; [done|by left]];
      (unfold bind at 1, Lifecycle.get;
       destruct (registry_get model (Some version) (registry m)) as [mv0|] eqn:Hget;
       [simpl; intros [= <- <-]; done|];
       cbv beta iota delta [is_some]; unfold bind at 1, modify at 1; unfold bind at 1; fold room; cbv beta;
       destruct room as [[[]|e1] m1]; [|simpl; intros [= <- <-]; split; [done|]; intros _; right; by left];
       unfold bind at 1, modify at 1; simpl in m2; fold m2; split; [done|]; intros _; right; right;
       destruct (registry_get model (Some version) (registry m2)) as [mv|] eqn:Hg2).
    1,3: left; revert Hload; unfold bind; erewrite register_version_taken by done; by intros [= <- <-].
    - pose proof (registered_load_err li model version LitAPI m2 e m' n Hdev Hg2) as Hr.
      rewrite Hsrc in Hr. destruct (Hr Hload) as [Hpy Hk]. right. by split_and!; [| |intros _; apply Hpy|apply Hk].
    - pose proof (registered_load_err li model version Ensemble m2 e m' n Hdev Hg2) as Hr.
      rewrite Hsrc in Hr. destruct (Hr Hload) as [Hpy Hk]. right. by split_and!; [| | |apply Hk]. }
  destruct Hmain as [H1 H2]. split; [exact H1|]. split; [exact H2|].
  intros Hget (Hbe & Hev & Hbreg) Hgone.
  destruct (enforce_max semver_parse semver_le model m) as [r1 m1] eqn:Hmax.
  destruct (enforce_max_spec _ _ _ _ version Hmax Hget) as (Hgone1 & Hget1 & _).
  assert (Hroom : room = (r1, m1)) by (unfold room; by rewrite Hbe, Hev, enforce_max_among_alone).
  assert (Hm2 : m2 = m1) by (unfold m2; by rewrite Hbreg, Hroom).
  destruct (H2 Hget) as [->|[[_ ->]|[(_ & Hs & _)|(_ & _ & _ & Hk)]]]; [done|rewrite Hroom; auto| |].
  - by rewrite Hm2, Hget1 in Hs.
  - apply Hk. rewrite Hm2. auto.
Qed.

(** C16. A load whose configuration, directory, handshakes and warm-up are in order,
    and which no other task disturbs, returns [Ok] and the version serves: it is
    [Ready] with one worker and one client per handshake, in slot order, and its
    queue collects with that many workers. *)
Theorem load_serves li model version m n ready :
  undisturbed li -> li_config li = Ok tt -> li_dir li = Ok true -> li_source li = PythonModel ->
  li_devices li = Ok n -> li_handshakes li = Ok ready ->
  li_warmup li = None \/ li_warmup li = Some (Ok tt) ->
  registry_get model (Some version) (registry m) = None -> runtime_gone model version m ->
  shutdown m = false ->
  fst (enforce_max semver_parse semver_le model m) = Ok tt ->
  exists m', load_model li model version m = (Ok tt, m') /\
    serving_with model version (length ready) m'.
Proof. exact (load_model_ok li model version m n ready). Qed.

(** The eviction loop before a load ends: for a version that is not registered it
    returns within its fuel, never touches the active version nor what belongs to
    that version, and if it returned [Ok] either the model is below its cap or only
    the active version is left. *)
Theorem eviction_terminates model version m :
  registry_get model (Some version) (registry m) = None ->
  exists r m', enforce_max_loaded_versions semver_parse semver_le model m = Some (r, m') /\
    get_active_version model (registry m') = get_active_version model (registry m) /\
    (runtime_gone model version m -> runtime_gone model version m') /\
    (forall max, (models (registry m) !! model ≫= me_max_loaded_versions) = Some max -> r = Ok tt ->
       Z.of_nat (version_count model (registry m')) < max \/
       lru_eviction_candidate model (registry m') = None).
Proof.
  intros Hnone. unfold enforce_max_loaded_versions.
  destruct (models (registry m) !! model ≫= me_max_loaded_versions) as [max|]; [|by eexists _, _].
  destruct (evict_loop_ends (S (length (list_versions model (registry m)))) max model m) as [[r m'] He];
    [rewrite list_versions_length; lia|].
  destruct (evict_loop_spec _ _ _ _ _ _ version He Hnone) as (Hg & _ & Ha & _ & Hend).
  exists r, m'. split_and!; [done|done|done|]. by intros max' [= <-].
Qed.

(** Unloading a registered version removes its entry, workers, clients, routes,
    outlier state, queue and coordinator, and nothing of other versions. *)
Theorem unload_removes_everything model version m :
  is_some (registry_get model (Some version) (registry m)) = true ->
  exists m', unload_version model version m = (Ok tt, m') /\
    registry_get model (Some version) (registry m') = None /\
    get_active_version model (registry m') <> Some version /\
    runtime_gone model version m' /\
    (model_version_key model version ∉ status_coordinators m') /\
    same_elsewhere (model_version_key model version) m m' /\
    (forall version', version' <> version ->
       registry_get model (Some version') (registry m') = registry_get model (Some version') (registry m)).
Proof.
  intros Hs. pose proof (unload_version_spec model version m) as Hu. rewrite Hs in Hu.
  destruct Hu as (r & m' & Hst & Hu & Hreg & Hgone & Helse & Hco & _).
  exists m'. split_and!; [done| | |done|rewrite Hco; set_solver|done|].
  - rewrite Hreg. apply remove_get_same.
  - rewrite Hreg. apply remove_active_same. apply status_get in Hst. unfold registry_get in Hst.
    by destruct (models r !! model).
  - intros version' Hne. rewrite Hreg, remove_get by congruence. by eapply status_get_other.
Qed.

(** ** What a load does not touch *)

Record frame (model version : string) (m m' : WorkerManager) : Prop := {
  fr_maps : same_elsewhere (model_version_key model version) m m';
  fr_versions : forall v, v <> version ->
    registry_get model (Some v) (registry m') = registry_get model (Some v) (registry m);
  fr_cap : forall e, models (registry m) !! model = Some e ->
    exists e', models (registry m') !! model = Some e' /\ me_max_loaded_versions e' = me_max_loaded_versions e;
  fr_shutdown : shutdown m' = shutdown m;
}.

Lemma frame_refl model version m : frame model version m m.
Proof. split; [by split|done| |done]. intros e He. by exists e. Qed.

Lemma frame_trans model version m1 m2 m3 :
  frame model version m1 m2 -> frame model version m2 m3 -> frame model version m1 m3.
Proof.
  intros [A1 B1 C1 D1] [A2 B2 C2 D2]. split.
  - by eapply elsewhere_trans.
  - intros v Hv. by rewrite B2, B1.
  - intros e He. destruct (C1 e He) as (e1 & He1 & Hc1). destruct (C2 e1 He1) as (e2 & He2 & Hc2).
    exists e2. split; [done|]. congruence.
  - congruence.
Qed.

Lemma frame_update model version f m r' :
  update_version model version f (registry m) = Ok r' -> frame model version m (set_registry r' m).
Proof.
  unfold update_version. intros Hs. apply result_bind_ok in Hs as (e & He & Hs).
  apply result_bind_ok in Hs as (mv & _ & [= <-]). apply ok_or_ok in He. split; [by split| | |done].
  - intros v Hv. unfold registry_get. simpl. rewrite lookup_insert_eq, He. simpl. by rewrite lookup_insert_ne.
  - intros e0 He0. simpl. rewrite lookup_insert_eq. eexists. split; [done|]. simpl. congruence.
Qed.

Lemma frame_on_registry model version f m m' :
  on_registry (update_version model version f) m = (Ok tt, m') -> frame model version m m'.
Proof.
  unfold on_registry. destruct (update_version _ _ _ _) as [r|] eqn:Hu; [|done]. intros [= <-].
  by eapply frame_update.
Qed.

(** A step that changes only the maps, and only at the version's key. *)
Lemma frame_maps model version m m' :
  same_elsewhere (model_version_key model version) m m' -> registry m' = registry m ->
  shutdown m' = shutdown m -> frame model version m m'.
Proof. intros Hm Hr Hs. split; [done| | |done]; rewrite Hr; [done|]. intros e He. by exists e. Qed.

Lemma frame_push model version i m : frame model version m (push_worker model version i m).
Proof.
  apply frame_maps; [|done|done]. split; intros k Hk; simpl; by rewrite ?lookup_insert_ne.
Qed.

Lemma frame_routes model version routes m : frame model version m (upsert_routes model version routes m).
Proof.
  apply frame_maps; [|done|done]. split; intros k Hk; simpl; by rewrite ?lookup_insert_ne.
Qed.

Lemma frame_outlier model version o m :
  frame model version m (set_outliers (<[model_version_key model version := o]> (outlier_states m)) m).
Proof.
  apply frame_maps; [|done|done]. split; intros k Hk; simpl; by rewrite ?lookup_insert_ne.
Qed.

Lemma frame_queue li model version n o m :
  frame model version m (register_queue li model version n o m).
Proof.
  apply frame_maps; [|done|done]. split; intros k Hk; try done. simpl. unfold register_model.
  destruct (queues (inference_queue m) !! model_version_key model version); simpl;
    rewrite lookup_insert_ne by done; [|done]. by rewrite lookup_delete_ne.
Qed.

Lemma frame_coordinator model version (b : bool) m :
  frame model version m (if b then start_status_coordinator model version m else m).
Proof. destruct b; [|apply frame_refl]. by apply frame_maps. Qed.

Lemma frame_register_workers li model version ready i m infos m' :
  undisturbed li -> register_workers li model version i ready m = (Ok infos, m') ->
  frame model version m m'.
Proof.
  intros (_ & Hother & _). revert i m infos. induction ready as [|w ready IH]; intros i m infos; simpl.
  { intros [= <- <-]. apply frame_refl. }
  unfold bind at 1, modify at 1. rewrite Hother. unfold bind at 1, check_alive at 1.
  destruct (load_registration_alive _ _ _); [|done].
  unfold bind at 1, modify at 1. unfold bind at 1, modify at 1. rewrite Hother.
  unfold bind at 1, check_alive at 1. destruct (load_registration_alive _ _ _); [|done].
  unfold bind at 1, modify at 1. unfold bind at 1.
  destruct (register_workers li model version (S i) ready _) as [[infos'|] m2] eqn:Hr; [|done].
  intros [= <- <-]. apply IH in Hr.
  eapply frame_trans; [apply frame_routes|]. eapply frame_trans; [apply frame_push|exact Hr].
Qed.

Lemma frame_load_workers li model version m m' :
  undisturbed li -> load_workers li model version m = (Ok tt, m') -> frame model version m m'.
Proof.
  intros Hund. pose proof Hund as (_ & Hother & Hbq & Hbr). unfold load_workers, bind at 1.
  destruct (on_registry _ m) as [[[]|] m1] eqn:H1; [|done]. apply frame_on_registry in H1.
  destruct (li_devices li) as [n|]; [|done]. unfold bind at 1, modify at 1, bind at 1, attempt at 1.
  destruct (spawn_workers _ _ _ _) as [[infos|e1] m2] eqn:H2.
  2:{ destruct (fail_load_gone model version e1 m2) as (m3 & -> & _). done. }
  unfold spawn_workers in H2. destruct (li_handshakes li) as [ready|]; [|done].
  apply frame_register_workers in H2; [|done].
  unfold bind at 1, attempt at 1. destruct (finalize li model version infos m2) as [[[]|e1] m3] eqn:H3.
  2:{ destruct (fail_load_gone model version e1 m3) as (m4 & -> & _). done. }
  assert (frame model version m2 m3) as H3'.
  { unfold finalize, bind at 1 in H3. destruct (on_registry _ m2) as [[[]|] m2'] eqn:H4; [|done].
    apply frame_on_registry in H4. destruct (li_warmup li); apply frame_on_registry in H3;
      by eapply frame_trans. }
  unfold bind at 1, modify at 1, bind at 1, modify at 1, bind at 1. rewrite Hbq. unfold run_warmup.
  assert (frame model version m (register_queue li model version (length infos) (with_config n (li_ejection li)) m3)) as H5.
  { eapply frame_trans; [exact H1|]. eapply frame_trans; [apply frame_outlier|].
    eapply frame_trans; [exact H2|]. eapply frame_trans; [exact H3'|]. apply frame_queue. }
  destruct (li_warmup li) as [[[]|reason]|].
  - unfold bind at 1, modify at 1, bind at 1, attempt at 1. rewrite Hbr.
    destruct (on_registry _ (register_queue _ _ _ _ _ _)) as [[[]|e1] m4] eqn:H6.
    + unfold ret, modify. intros [= <-]. eapply frame_trans; [exact H5|].
      apply frame_on_registry in H6. eapply frame_trans; [exact H6|]. apply frame_coordinator.
    + destruct (fail_load_gone model version e1 m4) as (m5 & -> & _). done.
  - unfold bind, modify, attempt, throw. by destruct (on_registry (mark_failed model version reason) _).
  - unfold ret, modify. intros [= <-]. eapply frame_trans; [exact H5|]. apply frame_coordinator.
Qed.

(** A model without a cap. *)
Definition uncapped (model : string) (m : WorkerManager) : Prop :=
  forall e, models (registry m) !! model = Some e -> me_max_loaded_versions e = None.

Lemma frame_load li model version m m' :
  undisturbed li -> li_source li = PythonModel -> uncapped model m ->
  load_model li model version m = (Ok tt, m') ->
  same_elsewhere (model_version_key model version) m m' /\ shutdown m' = shutdown m /\
  uncapped model m' /\
  (forall v, v <> version ->
     registry_get model (Some v) (registry m') = registry_get model (Some v) (registry m)).
Proof.
  intros Hund Hsrc Hcap. unfold Lifecycle.load_model, throw. rewrite Hsrc.
  destruct (li_config li) as [[]|]; [|done]. destruct (li_dir li) as [[]|]; [|done..].
  unfold bind at 1, Lifecycle.get. destruct (is_some _) eqn:Hnew; [done|].
  pose proof (proj1 Hund) as (Hbe & Hev & Hbreg). unfold bind at 1, modify at 1. rewrite Hbe, Hev.
  unfold bind at 1. rewrite enforce_max_among_alone.
  assert (enforce_max semver_parse semver_le model m = (Ok tt, m)) as ->.
  { unfold enforce_max, enforce_max_loaded_versions. destruct (models (registry m) !! model) as [e|] eqn:He; [|done].
    simpl. by rewrite (Hcap e He). }
  unfold bind at 1, modify at 1. rewrite Hbreg.
  unfold bind at 1, register_version.
  destruct (register_fresh model version LitAPI (registry m)) as (r & mv & Hr & _).
  { by destruct (registry_get model (Some version) (registry m)). }
  assert (Hreg : (exists e, models r !! model = Some e /\ me_max_loaded_versions e = None) /\
    forall v, v <> version -> registry_get model (Some v) r = registry_get model (Some v) (registry m)).
  { revert Hr. unfold register. destruct (me_versions _ !! version); [done|]. intros [= <-].
    unfold registry_get. simpl. rewrite lookup_insert_eq. split.
    - eexists. split; [done|]. simpl. destruct (models (registry m) !! model) as [e|] eqn:He; simpl; [by apply Hcap|done].
    - intros v Hv. simpl. rewrite lookup_insert_ne by done.
      destruct (models (registry m) !! model); simpl; [done|apply lookup_empty]. }
  rewrite Hr. intros Hload. apply frame_load_workers in Hload as [[Ew Ec Eo Er Eq] Fv Fc Fs]; [|done].
  destruct Hreg as [(e & He & Hce) Hother]. split_and!; [by split|done| |].
  - intros e' He'. destruct (Fc e He) as (e2 & He2 & Hc2). congruence.
  - intros v Hv. rewrite Fv by done. by apply Hother.
Qed.

(** ** Reloading *)

Lemma mark_ready_ready now model version m m' :
  on_registry (mark_ready now model version) m = (Ok tt, m') ->
  exists mv, registry_get model (Some version) (registry m') = Some mv /\ mv_status mv = Ready.
Proof.
  unfold on_registry, mark_ready. intros Hm.
  destruct (is_some (registry_get model (Some version) (registry m))) eqn:Hs.
  - destruct (registry_get model (Some version) (registry m)) as [mv|] eqn:Hg; [|done].
    match type of Hm with context [update_version _ _ ?f _] =>
      destruct (update_version_get model version f _ _ Hg) as (r' & Hu & Hr') end.
    rewrite Hu in Hm. injection Hm as <-. simpl. eauto.
  - match type of Hm with context [update_version _ _ ?f _] =>
      destruct (update_version_err model version f _ Hs) as (e & Hu) end.
    by rewrite Hu in Hm.
Qed.

Lemma load_ok_ready li model version m m' :
  undisturbed li -> load_model li model version m = (Ok tt, m') ->
  exists mv, registry_get model (Some version) (registry m') = Some mv /\ mv_status mv = Ready.
Proof.
  intros (_ & Hother & Hbq & Hbr). unfold Lifecycle.load_model, throw.
  destruct (li_config li) as [[]|]; [|done]. destruct (li_dir li) as [[]|]; [|done..].
  assert (Hco : forall m0, registry (if li_coordinated li then start_status_coordinator model version m0 else m0)
    = registry m0) by (intros; by case_goal).
  assert (Hworkers : forall m0, load_workers li model version m0 = (Ok tt, m') ->
    exists mv, registry_get model (Some version) (registry m') = Some mv /\ mv_status mv = Ready).
  { intros m0. unfold load_workers, bind at 1. destruct (on_registry _ m0) as [[[]|] m1]; [|done].
    destruct (li_devices li) as [n|]; [|done]. unfold bind at 1, modify at 1, bind at 1, attempt at 1.
    destruct (spawn_workers _ _ _ _) as [[infos|e1] m2].
    2:{ destruct (fail_load_gone model version e1 m2) as (m3 & -> & _). done. }
    unfold bind at 1, attempt at 1. destruct (finalize li model version infos m2) as [[[]|e1] m3] eqn:Hfin.
    2:{ destruct (fail_load_gone model version e1 m3) as (m4 & -> & _). done. }
    unfold bind at 1, modify at 1, bind at 1, modify at 1, bind at 1. rewrite Hbq. unfold run_warmup.
    unfold finalize, bind at 1 in Hfin. destruct (on_registry _ m2) as [[[]|] m2']; [|done].
    destruct (li_warmup li) as [[[]|reason]|].
    - unfold bind at 1, modify at 1, bind at 1, attempt at 1. rewrite Hbr.
      destruct (on_registry _ (register_queue _ _ _ _ _ _)) as [[[]|e1] m4] eqn:Hr.
      + unfold ret, modify. intros [= <-]. rewrite Hco. by eapply mark_ready_ready.
      + destruct (fail_load_gone model version e1 m4) as (m5 & -> & _). done.
    - unfold bind, modify, attempt, throw. by destruct (on_registry (mark_failed model version reason) _).
    - unfold ret, modify. intros [= <-]. rewrite Hco. simpl. by eapply mark_ready_ready. }
  assert (Hens : forall plan m0, load_ensemble semver_parse semver_le li model version plan m0 = (Ok tt, m') ->
    exists mv, registry_get model (Some version) (registry m') = Some mv /\ mv_status mv = Ready).
  { intros [deps|e] m0; unfold load_ensemble; [|unfold bind, on_registry, throw; done].
    unfold bind at 1, on_registry at 1, bind at 1, modify at 1, bind at 1.
    destruct (on_registry _ _) as [[[]|] m1] eqn:Hr; [|done]. unfold modify. intros [= <-]. rewrite Hco.
    by eapply mark_ready_ready. }
  destruct (li_source li) as [|plan|]; [| |done]; unfold bind at 1, Lifecycle.get; (case_goal; [done|]);
    unfold bind at 1, modify at 1, bind at 1; (destruct (enforce_max_among _ _ _ _ _) as [[[]|] m1]; [|done]);
    unfold bind at 1, modify at 1, bind at 1;
    (destruct (register_version _ _ _ _) as [[[]|] m2]; [|done]).
  - apply Hworkers.
  - apply Hens.
Qed.

Lemma try_activate_ready model v m mv :
  registry_get model (Some v) (registry m) = Some mv -> mv_status mv = Ready ->
  exists m', try_activate model v m = (Ok true, m') /\
    registry_get model (Some v) (registry m') = Some mv /\
    get_active_version model (registry m') = Some v.
Proof.
  unfold try_activate, activate_version, activate_check, activate_pin, registry_get, get_active_version.
  destruct (models (registry m) !! model) as [e|] eqn:He; [|done]. intros Hv Hr. rewrite Hv.
  rewrite bool_decide_eq_true_2 by done. eexists. split; [done|]. simpl. rewrite He.
  split; [done|]. apply lookup_insert_eq.
Qed.

(** C18. A reload is validated before anything is torn down: a missing directory or
    a bad configuration is an error that leaves the state as it was. Otherwise,
    provided no other task disturbs the two loads it makes, if the new load succeeds
    the version is [Ready] and active again if it was active; and if it fails but
    the load with the previous configuration succeeds, a reload that recovers
    reports the first error with the version [Ready], and active again if it was. *)
Theorem reload_validates_then_swaps rl model v recover m mv :
  registry_get model (Some v) (registry m) = Some mv ->
  ((rl_dir rl <> Ok true \/ (exists e, rl_config rl = Err e) \/ (exists e, li_config (rl_new rl) = Err e)) ->
     exists e, reload_model_inner semver_parse semver_le rl model (Some v) recover m = (Err e, m)) /\
  (rl_dir rl = Ok true -> rl_config rl = Ok tt -> li_config (rl_new rl) = Ok tt ->
   undisturbed (rl_new rl) -> undisturbed (rl_old rl) ->
   exists m1, unload_version model v m = (Ok tt, m1) /\
     forall r m2, load_model (rl_new rl) model v m1 = (r, m2) ->
     let ready m' := exists mv', registry_get model (Some v) (registry m') = Some mv' /\ mv_status mv' = Ready in
     let active_again m' := get_active_version model (registry m) = Some v ->
       get_active_version model (registry m') = Some v in
     match r with
     | Ok _ => exists m', reload_model_inner semver_parse semver_le rl model (Some v) recover m = (Ok true, m') /\
         ready m' /\ active_again m'
     | Err e => recover = true ->
         forall m3, load_model (rl_old rl) model v
           (set_registry (remove_version model v (registry m2)) m2) = (Ok tt, m3) ->
         exists m', reload_model_inner semver_parse semver_le rl model (Some v) recover m = (Err e, m') /\
           ready m' /\ active_again m'
     end).
Proof.
  intros Hget. split.
  - intros Hbad. unfold reload_model_inner, bind at 1, Lifecycle.get. rewrite Hget. unfold throw.
    destruct (rl_dir rl) as [[]|]; [|by eexists..].
    destruct (rl_config rl) as [[]|]; [|by eexists].
    destruct (li_config (rl_new rl)) as [[]|]; [|by eexists].
    destruct Hbad as [?|[[? ?]|[? ?]]]; done.
  - intros Hdir Hcfg Hnew Hund Hund'.
    pose proof (unload_version_spec model v m) as Hu. rewrite Hget in Hu. simpl in Hu.
    destruct Hu as (r0 & m1 & _ & Hu & _). exists m1. split; [done|]. intros r m2 Hload ready active_again.
    set (wa := bool_decide (get_active_version model (registry m) = Some v)).
    assert (reload_model_inner semver_parse semver_le rl model (Some v) recover m
            = swap_version semver_parse semver_le rl model v recover wa m) as ->.
    { unfold reload_model_inner, bind at 1, Lifecycle.get. by rewrite Hget, Hdir, Hcfg, Hnew. }
    assert (Hact : forall m0, (exists mv', registry_get model (Some v) (registry m0) = Some mv' /\ mv_status mv' = Ready) ->
      exists m', (if wa then do! try_activate model v in ret tt else ret tt) m0 = (Ok tt, m') /\
        (if wa then do! attempt (try_activate model v) in ret tt else ret tt) m0 = (Ok tt, m') /\
        ready m' /\ active_again m').
    { intros m0 (mv' & Hg & Hst). destruct (try_activate_ready _ _ _ _ Hg Hst) as (m' & Ht & Hg' & Ha').
      unfold wa. case_bool_decide as Hwa.
      - exists m'. unfold bind, attempt, ret. rewrite Ht. split_and!; [done|done|by exists mv'|by intros _].
      - exists m0. split_and!; [done|done|by exists mv'|]. intros ?. done. }
    destruct r as [[]|e].
    + destruct (Hact m2 (load_ok_ready _ _ _ _ _ Hund Hload)) as (m' & Ha & _ & Hr & Hw).
      exists m'. split; [|done]. unfold swap_version, bind at 1. rewrite Hu.
      unfold bind at 1, attempt at 1. rewrite Hload. unfold bind at 1. by rewrite Ha.
    + intros -> m3 Hrestore. destruct (Hact m3 (load_ok_ready _ _ _ _ _ Hund' Hrestore)) as (m' & _ & Ha & Hr & Hw).
      exists m'. split; [|done]. unfold swap_version, bind at 1. rewrite Hu.
      unfold bind at 1, attempt at 1. rewrite Hload. unfold restore_version, bind at 1, on_registry at 1.
      unfold bind at 1, attempt at 1. rewrite Hrestore. unfold bind at 1. by rewrite Ha.
Qed.
End facts.

(** ** The theorems at concrete inputs *)

Definition no_config : ModelConfig :=
  {| mc_max_queue_size := 8; mc_max_requests := 0; mc_max_requests_jitter := 0;
     mc_count_streams_toward_max_requests := false; mc_max_concurrent_streams := 0;
     mc_health_check_interval := 0 |}.

Definition no_ejection : EjectionConfig :=
  {| error_threshold := 0; timeout := 0; max_percent := 0; max_timeout := 0; recycle_max_percent := 0 |}.

Definition a_worker : WorkerReady :=
  {| wr_device := "cpu"; wr_endpoint := "ipc:///tmp/w"; wr_pid := Some 7; wr_custom_routes := ["/status"; "/infer"] |}.

(** Two workers come up, no warmup. *)
Definition two_workers : LoadInput :=
  {| li_config := Ok tt; li_dir := Ok true; li_source := PythonModel; li_queue_config := no_config;
     li_ejection := no_ejection; li_devices := Ok 2%nat; li_before_evict := fun m => m; li_evicting := [];
     li_before_register := fun m => m; li_handshakes := Ok [a_worker; a_worker];
     li_other := fun _ _ m => m; li_before_queue := fun m => m; li_warmup := None;
     li_before_ready := fun m => m; li_offsets := fun _ => 0; li_coordinated := true; li_now := 1 |}.

(** The second worker never answers. *)
Definition handshake_fails : LoadInput :=
  {| li_config := Ok tt; li_dir := Ok true; li_source := PythonModel; li_queue_config := no_config;
     li_ejection := no_ejection; li_devices := Ok 2%nat; li_before_evict := fun m => m; li_evicting := [];
     li_before_register := fun m => m; li_handshakes := Err (WorkerCrashed "timeout");
     li_other := fun _ _ m => m; li_before_queue := fun m => m; li_warmup := None;
     li_before_ready := fun m => m; li_offsets := fun _ => 0; li_coordinated := true; li_now := 1 |}.

Definition manager_new : WorkerManager :=
  {| registry := registry_new; wm_workers := ∅; zmq_clients := ∅; outlier_states := ∅; route_table := ∅;
     inference_queue := queue_new; status_coordinators := ∅; ensemble_plans := ∅; shutdown := false |}.

Abbreviation load := (load_model major_only Nat.leb).
Abbreviation reload := (reload_model_inner major_only Nat.leb).

(** Two versions loaded; "1" is active and takes 90 of 100 requests. *)
Definition canary : WorkerManager :=
  let m := snd (load two_workers "m" "1" manager_new) in
  let m := snd (load two_workers "m" "2" m) in
  let r := snd (activate_version "m" "1" (registry m)) in
  match set_weights "m" {[ "1" := 90; "2" := 10 ]} r with
  | Ok r => set_registry r m
  | Err _ => m
  end.

Definition plain_reload : ReloadInput :=
  {| rl_dir := Ok true; rl_config := Ok tt; rl_new := two_workers; rl_old := two_workers |}.

(** Reloading the version that takes nine requests of ten sends all of them to the other
    one: the weight is removed with the version and nothing puts it back. *)
Theorem reload_drops_routing_weight :
  let '(r, m) := reload plain_reload "m" (Some "1") true canary in
  let candidates m := routing_candidates <$> (models (registry m) !! "m") in
  r = Ok true /\ get_active_version "m" (registry m) = Some "1" /\
  candidates canary = Some [("1", 90); ("2", 10)] /\ candidates m = Some [("2", 10)].
Proof. vm_compute. repeat split; reflexivity. Qed.

(** An unload that runs between the last check of a load and the registration of its
    queue: the load reports success, the version is gone and its queue stays. *)
Definition unloaded_meanwhile : LoadInput :=
  {| li_config := Ok tt; li_dir := Ok true; li_source := PythonModel; li_queue_config := no_config;
     li_ejection := no_ejection; li_devices := Ok 2%nat; li_before_evict := fun m => m; li_evicting := [];
     li_before_register := fun m => m; li_handshakes := Ok [a_worker; a_worker];
     li_other := fun _ _ m => m;
     li_before_queue := fun m => snd (unload_version major_only Nat.leb "m" "1" m); li_warmup := None;
     li_before_ready := fun m => m; li_offsets := fun _ => 0; li_coordinated := true; li_now := 1 |}.

Theorem late_unload_strands_queue :
  let '(r, m) := load unloaded_meanwhile "m" "1" manager_new in
  r = Ok tt /\ registry_get "m" (Some "1") (registry m) = None /\
  is_some (queues (inference_queue m) !! model_version_key "m" "1") = true /\
  model_version_key "m" "1" ∈ status_coordinators m.
Proof. vm_compute. repeat split; try reflexivity. Qed.

Lemma gone_initially : runtime_gone "m" "1" manager_new.
Proof. by split. Qed.

Lemma undisturbed_two : undisturbed two_workers.
Proof. by repeat split. Qed.

(** The other tasks unload the version after the first worker is registered: the load
    fails and nothing is left of it. *)
Definition unloaded_early : LoadInput :=
  {| li_config := Ok tt; li_dir := Ok true; li_source := PythonModel; li_queue_config := no_config;
     li_ejection := no_ejection; li_devices := Ok 2%nat; li_before_evict := fun m => m; li_evicting := [];
     li_before_register := fun m => m; li_handshakes := Ok [a_worker; a_worker];
     li_other := fun i b m => if Nat.eqb i 1 && b then snd (unload_version major_only Nat.leb "m" "1" m) else m;
     li_before_queue := fun m => m; li_warmup := None;
     li_before_ready := fun m => m; li_offsets := fun _ => 0; li_coordinated := true; li_now := 1 |}.

(** Another load of the version wins between the eviction and the registration: this one
    is refused and the winner's workers are untouched. *)
Definition beaten : LoadInput :=
  {| li_config := Ok tt; li_dir := Ok true; li_source := PythonModel; li_queue_config := no_config;
     li_ejection := no_ejection; li_devices := Ok 2%nat; li_before_evict := fun m => m; li_evicting := [];
     li_before_register := fun m => snd (load two_workers "m" "1" m);
     li_handshakes := Ok [a_worker; a_worker];
     li_other := fun _ _ m => m; li_before_queue := fun m => m; li_warmup := None;
     li_before_ready := fun m => m; li_offsets := fun _ => 0; li_coordinated := true; li_now := 1 |}.

Lemma concurrent_load_refused :
  let '(r, m) := load beaten "m" "1" manager_new in
  r = Err (VersionAlreadyLoaded "m" "1") /\ is_ready "m" (Some "1") (registry m) = true /\
  wm_workers m !! model_version_key "m" "1" = Some [0%nat; 1%nat].
Proof. vm_compute. repeat split; reflexivity. Qed.

Lemma failed_load_witness : runtime_gone "m" "1" (snd (load unloaded_early "m" "1" manager_new)).
Proof.
  destruct (load unloaded_early "m" "1" manager_new) as [[[]|e] m'] eqn:Hl.
  - exfalso. assert (is_ok (fst (load unloaded_early "m" "1" manager_new)) = false) as Hf
      by (vm_compute; reflexivity).
    by rewrite Hl in Hf.
  - apply (proj2 (proj2 (failed_load_leaves_nothing major_only Nat.leb unloaded_early "m" "1" manager_new
      e m' 2 eq_refl Hl))); [reflexivity|by repeat split|exact gone_initially].
Defined.

Lemma load_serves_witness :
  exists m', load two_workers "m" "1" manager_new = (Ok tt, m') /\ serving_with "m" "1" 2 m'.
Proof.
  apply (load_serves major_only Nat.leb two_workers "m" "1" manager_new 2 [a_worker; a_worker]);
    try reflexivity; [exact undisturbed_two|by left|exact gone_initially].
Defined.

(** A cap of one version: loading "3" would evict "2", never the active "1". *)
Definition capped : WorkerManager :=
  set_registry (set_strategy "m" {| ms_name := "m"; ms_load_policy := "explicit"; ms_default_version := None;
                                    ms_max_loaded_versions := Some 1; ms_weights := None |}
                  (registry canary)) canary.

Lemma eviction_terminates_witness :
  exists r m', enforce_max_loaded_versions major_only Nat.leb "m" capped = Some (r, m') /\
    get_active_version "m" (registry m') = Some "1".
Proof.
  destruct (eviction_terminates major_only Nat.leb "m" "3" capped ltac:(vm_compute; reflexivity))
    as (r & m' & He & Ha & _).
  exists r, m'. split; [exact He|]. rewrite Ha. vm_compute. reflexivity.
Defined.

Lemma unload_witness :
  exists m', unload_version major_only Nat.leb "m" "1" canary = (Ok tt, m') /\
    registry_get "m" (Some "2") (registry m') = registry_get "m" (Some "2") (registry canary).
Proof.
  destruct (unload_removes_everything major_only Nat.leb "m" "1" canary ltac:(vm_compute; reflexivity))
    as (m' & Hu & _ & _ & _ & _ & _ & Hother).
  exists m'. split; [exact Hu|]. exact (Hother "2" ltac:(discriminate)).
Defined.

(** The new configuration's workers fail, the old one's come up. *)
Definition bad_reload : ReloadInput :=
  {| rl_dir := Ok true; rl_config := Ok tt; rl_new := handshake_fails; rl_old := two_workers |}.

Lemma reload_witness :
  exists m', reload bad_reload "m" (Some "1") true canary = (Err (WorkerCrashed "timeout"), m') /\
    get_active_version "m" (registry m') = Some "1".
Proof.
  destruct (registry_get "m" (Some "1") (registry canary)) as [mv|] eqn:Hget;
    [|exfalso; revert Hget; vm_compute; discriminate].
  destruct (reload_validates_then_swaps major_only Nat.leb bad_reload "m" "1" true canary mv Hget) as [_ H].
  destruct (H eq_refl eq_refl eq_refl) as (m1 & Hu & Hswap); [by repeat split|exact undisturbed_two|].
  assert (m1 = snd (unload_version major_only Nat.leb "m" "1" canary)) as -> by (by rewrite Hu).
  destruct (load handshake_fails "m" "1" (snd (unload_version major_only Nat.leb "m" "1" canary)))
    as [r m2] eqn:Hl.
  specialize (Hswap r m2 Hl).
  assert (Hr : fst (load handshake_fails "m" "1" (snd (unload_version major_only Nat.leb "m" "1" canary)))
    = Err (WorkerCrashed "timeout")) by (vm_compute; reflexivity).
  assert (Hm2 : snd (load handshake_fails "m" "1" (snd (unload_version major_only Nat.leb "m" "1" canary))) = m2)
    by (by rewrite Hl).
  rewrite Hl in Hr. simpl in Hr. subst r m2.
  destruct (load two_workers "m" "1" (set_registry (registry_remove major_only Nat.leb "m" "1"
    (registry (snd (load handshake_fails "m" "1" (snd (unload_version major_only Nat.leb "m" "1" canary))))))
    (snd (load handshake_fails "m" "1" (snd (unload_version major_only Nat.leb "m" "1" canary))))))
    as [r3 m3] eqn:Hl3.
  assert (r3 = Ok tt) as -> by (change r3 with (fst (r3, m3)); rewrite <- Hl3; vm_compute; reflexivity).
  destruct (Hswap eq_refl m3 Hl3) as (m' & He & _ & Ha).
  exists m'. split; [exact He|]. apply Ha. vm_compute. reflexivity.
Defined.
