(* ===== verification/Reconcile.v ===== *)
(** * Reconciling the registry with the repository

    Models [src/src/server/reconcile.rs] (the target versions, one reconcile run of a
    model, the activation after loading) and the parts of [src/src/server/scanner.rs]
    that decide: which directories are versions, how an unpacked artifact replaces a
    model's directory, what an artifact is named, and the glob patterns of the file
    watcher.  Loading and unloading are those of [Lifecycle.v]; the file system is a
    map from model names to version directories. *)

From S2P Require Import Prelude Text Errors Outlier Queue Registry RegistryProps Validation.
From S2P Require Import Lifecycle LifecycleProps.
Open Scope string_scope.
Open Scope Z_scope.

(** ** Activation after loading *)

Inductive PostLoadActivation :=
  | DefaultActivated
  | DefaultFailed
  | DefaultReactivated
  | FallbackActivated (version : string)
  | FallbackFailed
  | Unchanged.

Definition default_ready (name : string) (dv : option string) (r : ModelRegistry) : option string :=
  match dv with
  | Some dv =>
      match registry_get name (Some dv) r with
      | Some mv => if bool_decide (mv_status mv = Ready) then Some dv else None
      | None => None
      end
  | None => None
  end.

Definition activate_after_load (name : string) (default_version : option string)
    (versions_loaded : list string) (r : ModelRegistry) : PostLoadActivation * ModelRegistry :=
  match default_version with
  | Some dv =>
      if bool_decide (dv ∈ versions_loaded) then
        match activate_version name dv r with
        | (Ok true, r) => (DefaultActivated, r)
        | (_, r) => (DefaultFailed, r)
        end
      else
        match versions_loaded with
        | [] => (Unchanged, r)
        | first :: _ =>
            if active_version_is_ready name r then (Unchanged, r)
            else
              match default_ready name default_version r with
              | Some dv =>
                  match activate_version name dv r with
                  | (Ok true, r) => (DefaultReactivated, r)
                  | (_, r) => (FallbackFailed, r)
                  end
              | None =>
                  match activate_version name first r with
                  | (Ok true, r) => (FallbackActivated first, r)
                  | (_, r) => (FallbackFailed, r)
                  end
              end
        end
  | None =>
      match versions_loaded with
      | [] => (Unchanged, r)
      | first :: _ =>
          if active_version_is_ready name r then (Unchanged, r)
          else
            match activate_version name first r with
            | (Ok true, r) => (FallbackActivated first, r)
            | (_, r) => (FallbackFailed, r)
            end
      end
  end.

(** ** The target *)

(** A model's entry in the orchestration configuration. *)
Record Strategy := {
  st_config : ModelStrategyConfig;
  versions_to_load : list string;
}.

Section reconcile.
Context `{MapIter}.
Context {V : Type} (semver_parse : string -> option V) (semver_le : V -> V -> bool).

Definition add_default (all : list string) (dv : option string) (target : list string) : list string :=
  match dv with
  | Some dv => if bool_decide (dv ∈ all) && negb (bool_decide (dv ∈ target)) then (target ++ [dv])%list else target
  | None => target
  end.

Definition compute_target_versions (all : list string) (strategy : option Strategy) : list string :=
  match strategy with
  | None => all
  | Some s =>
      let policy := ms_load_policy (st_config s) in
      let target :=
        if String.eqb policy "all" then all
        else if String.eqb policy "latest" then
          match pick_latest_version semver_parse semver_le all with Some v => [v] | None => [] end
        else List.filter (fun v => bool_decide (v ∈ versions_to_load s)) all in
      add_default all (ms_default_version (st_config s)) target
  end.

(** ** One run for one model *)

Fixpoint unload_all (name : string) (versions : list string) (m : WorkerManager) : WorkerManager :=
  match versions with
  | [] => m
  | v :: versions =>
      unload_all name versions (snd (unload_model semver_parse semver_le name (Some v) m))
  end.

Definition cap_reached (strategy : option Strategy) (name : string) (m : WorkerManager) : bool :=
  match strategy ≫= (fun s => ms_max_loaded_versions (st_config s)) with
  | Some max => max <=? Z.of_nat (length (list_versions name (registry m)))
  | None => false
  end.

(** [config v] is the reading of the version's [config.yaml], [input v] the load with it. *)
Fixpoint load_missing (config : string -> result string unit) (input : string -> LoadInput)
    (strategy : option Strategy) (name : string) (loaded target : list string)
    (m : WorkerManager) : list string * WorkerManager :=
  match target with
  | [] => ([], m)
  | version :: target =>
      let skip := load_missing config input strategy name loaded target in
      if bool_decide (version ∈ loaded) then skip m
      else if negb (is_ok (validate_identifier name)) then ([], m)
      else if negb (is_ok (validate_identifier version)) then skip m
      else if cap_reached strategy name m then skip m
      else
        match config version with
        | Err _ => skip m
        | Ok _ =>
            match load_model semver_parse semver_le (input version) name version m with
            | (Ok _, m) => let '(vs, m) := skip m in (version :: vs, m)
            | (Err _, m) => skip m
            end
        end
  end.

(** The body of [reconcile_models]'s loop; [disk] are the versions found on disk. *)
Definition reconcile_model (config : string -> result string unit) (input : string -> LoadInput)
    (strategy : option Strategy) (name : string) (disk : list string) (m : WorkerManager)
    : PostLoadActivation * WorkerManager :=
  let target := compute_target_versions disk strategy in
  let loaded := list_versions name (registry m) in
  let m := unload_all name (List.filter (fun v => negb (bool_decide (v ∈ target))) loaded) m in
  let '(versions_loaded, m) := load_missing config input strategy name loaded target m in
  let '(a, r) := activate_after_load name (strategy ≫= fun s => ms_default_version (st_config s))
                   versions_loaded (registry m) in
  (a, set_registry r m).
End reconcile.

(** ** The repository on disk *)

(** What a version directory holds. *)
Record VersionDir := {
  has_model_py : bool;
  is_ensemble : bool;
  dir_mtime : option Z;       (** the directory's own modification time, if readable *)
}.

(** Model directories by name, version directories in them. *)
Abbreviation Repo := (gmap string (gmap string VersionDir)) (only parsing).

Definition dot_name (s : string) : bool := starts_with "." s.

(** The versions of a model's directory that count as such. *)
Definition repo_versions (dir : gmap string VersionDir) : list string :=
  map fst (List.filter (fun vd => negb (dot_name (fst vd)) && (has_model_py (snd vd) || is_ensemble (snd vd)))
             (map_to_list dir)).

(** [group_by_model] of [scan_repo_models]: no entry for a model without versions. *)
Definition scan_repo_models (repo : Repo) : gmap string (list string) :=
  omap (fun dir => match repo_versions dir with [] => None | vs => Some vs end)
    (filter (fun nv => dot_name (fst nv) = false) repo).

(** [rfind] of ["_v"]: what precedes and what follows. *)
Fixpoint rsplit_v (s : string) : option (string * string) :=
  match s with
  | EmptyString => None
  | String c rest =>
      match rsplit_v rest with
      | Some (l, r) => Some (String c l, r)
      | None =>
          match strip_prefix "_v" s with
          | Some r => Some (EmptyString, r)
          | None => None
          end
      end
  end.

Definition strip_suffix (suffix s : string) : option string :=
  if ends_with suffix s then Some (String.substring 0 (String.length s - String.length suffix) s) else None.

Definition model_version_from_artifact (file_name : string) : option (string * string) :=
  match strip_suffix ".lma" file_name with
  | None => None
  | Some stem =>
      match rsplit_v stem with
      | None => None
      | Some (name, version) =>
          if bool_decide (name = EmptyString) || bool_decide (version = EmptyString) then None
          else Some (name, version)
      end
  end.

(** [move_staging_into_repo]: each extracted model directory takes the place of the one
    of the same name; [aside], [in_] and [back] say whether the renames of a model's
    directory succeed (out of the way, into place, and back when the second failed). *)
Section staging.
Context (aside in_ : string -> result string unit) (back : string -> bool).

Fixpoint move_staging_into_repo (entries : list (string * gmap string VersionDir)) (repo : Repo)
    : result AppError unit * Repo :=
  match entries with
  | [] => (Ok tt, repo)
  | (name, dir) :: entries =>
      if negb (is_ok (validate_identifier name)) then move_staging_into_repo entries repo
      else
        match (if is_some (repo !! name) then aside name else Ok tt) with
        | Err e => (Err (Io e), repo)
        | Ok _ =>
            match in_ name with
            | Err e => (Err (Io e), if is_some (repo !! name) && negb (back name) then delete name repo else repo)
            | Ok _ => move_staging_into_repo entries (<[name := dir]> repo)
            end
        end
  end.
End staging.

(** ** Unpacking artifacts *)

(** An artifact in the repository's root; [af_output] is what the unpacker left in the
    staging directory ([None]: it failed, hung or did not start). *)
Record Artifact := {
  af_name : string;
  af_mtime : option Z;
  af_output : option (list (string * gmap string VersionDir));
}.

(** The version's directory exists and is at least as new as the artifact. *)
Definition up_to_date (file_name : string) (mtime : Z) (repo : Repo) : bool :=
  match model_version_from_artifact file_name with
  | Some (name, version) =>
      match repo !! name ≫= (.!! version) with
      | Some dir => match dir_mtime dir with Some t => mtime <=? t | None => false end
      | None => false
      end
  | None => false
  end.

Section unpack.
Context (aside in_ : string -> result string unit) (back : string -> bool).

(** The loop over the directory entries; [on_disk] collects what was seen on the way. *)
Fixpoint unpack_loop (artifacts : list Artifact) (on_disk seen : gset (string * Z)) (repo : Repo)
    : gset (string * Z) * gset (string * Z) * Repo :=
  match artifacts with
  | [] => (on_disk, seen, repo)
  | a :: artifacts =>
      match af_mtime a with
      | None => unpack_loop artifacts on_disk seen repo
      | Some mtime =>
          let key := (af_name a, mtime) in
          let on_disk := {[key]} ∪ on_disk in
          if bool_decide (key ∈ seen) then unpack_loop artifacts on_disk seen repo
          else
            let seen := {[key]} ∪ seen in
            if up_to_date (af_name a) mtime repo then unpack_loop artifacts on_disk seen repo
            else
              unpack_loop artifacts on_disk seen
                (match af_output a with
                 | Some entries => snd (move_staging_into_repo aside in_ back entries repo)
                 | None => repo
                 end)
      end
  end.

(** [complete]: the directory was read to its end. *)
Definition auto_unpack_lma_files (artifacts : list Artifact) (complete : bool) (seen : gset (string * Z))
    (repo : Repo) : gset (string * Z) * Repo :=
  let '(on_disk, seen, repo) := unpack_loop artifacts ∅ seen repo in
  (if complete then seen ∩ on_disk else seen, repo).
End unpack.

(** ** A whole run *)

Record OrchestrationConfig := {
  control_mode : string;
  load_models : list string;
  orch_models : list Strategy;
}.

Section run.
Context `{MapIter}.
Context {V : Type} (semver_parse : string -> option V) (semver_le : V -> V -> bool).

Definition names_to_reconcile (orch : OrchestrationConfig) (by_model : gmap string (list string)) : list string :=
  if String.eqb (control_mode orch) "all" then map fst (map_iter by_model) else load_models orch.

(** Collected into a map: of two strategies of one model the later one counts. *)
Definition strategy_map (orch : OrchestrationConfig) : gmap string Strategy :=
  list_to_map (rev (map (fun s => (ms_name (st_config s), s)) (orch_models orch))).

(** [reconcile_models]; [config] and [input] are what loading a version of a model meets. *)
Definition reconcile_models (aside in_ : string -> result string unit) (back : string -> bool)
    (artifacts : list Artifact) (complete : bool)
    (config : string -> string -> result string unit) (input : string -> string -> LoadInput)
    (orch : OrchestrationConfig) (seen : gset (string * Z)) (repo : Repo) (m : WorkerManager)
    : gset (string * Z) * Repo * WorkerManager :=
  let '(seen, repo) := auto_unpack_lma_files aside in_ back artifacts complete seen repo in
  let by_model := scan_repo_models repo in
  let m :=
    foldl (fun m name =>
      snd (reconcile_model semver_parse semver_le (config name) (input name) (strategy_map orch !! name)
             name (default [] (by_model !! name)) m))
      m (names_to_reconcile orch by_model) in
  (seen, repo, m).
End run.

(** ** Globs *)

(** The parts between the first and the last, found one after the other. *)
Fixpoint find_parts (parts : list string) (rest : string) : bool :=
  match parts with
  | [] => true
  | part :: parts =>
      if bool_decide (part = EmptyString) then find_parts parts rest
      else
        match split_once_str part rest with
        | Some (_, rest) => find_parts parts rest
        | None => false
        end
  end.

Definition glob_match (filename pattern : string) : bool :=
  if negb (has_char "*"%char pattern) then String.eqb filename pattern
  else
    match split_char "*"%char pattern with
    | [] => false
    | first :: rest_parts =>
        let last := List.last rest_parts first in
        if Nat.ltb (String.length filename) (String.length first + String.length last)
           || negb (starts_with first filename) || negb (ends_with last filename)
        then false
        else
          find_parts (removelast rest_parts)
            (String.substring (String.length first)
               (String.length filename - String.length last - String.length first) filename)
    end.

Definition matches_patterns (filename : string) (patterns : list string) : bool :=
  bool_decide (patterns = []) || existsb (glob_match filename) patterns.
