(* ===== verification/ReconcileProps.v ===== *)
(** * Properties of reconciliation

    About [Reconcile.v]: the glob matcher decides the usual meaning of a glob, the
    target versions follow the policy and contain the default, a run makes the loaded
    versions equal to the target and leaves an active version that serves.  Versions
    whose names are not identifiers are never loaded, and unpacking one version of a
    model removes the others from the disk. *)

From S2P Require Import Prelude Text Errors Outlier Queue Registry RegistryProps Validation.
From S2P Require Import Lifecycle LifecycleProps Reconcile.
Open Scope string_scope.
Open Scope Z_scope.

(** ** Globs *)

(** The meaning of a pattern: a star stands for any run of characters. *)
Inductive Glob : string -> string -> Prop :=
  | GlobEnd : Glob "" ""
  | GlobStar p s t : Glob p t -> Glob (String "*" p) (s +:+ t)
  | GlobChar c p s : c <> "*"%char -> Glob p s -> Glob (String c p) (String c s).

(** Of two ends of a string, the longer has the shorter as its end. *)
Lemma longer_end a b c d :
  a +:+ b = c +:+ d -> (String.length d <= String.length b)%nat -> exists w, b = w +:+ d.
Proof.
  revert c. induction a as [|x a IH]; intros c Heq Hlen; [by exists c|].
  destruct c as [|y c].
  - exfalso. apply (f_equal String.length) in Heq. rewrite !app_length_str in Heq. simpl in Heq. lia.
  - injection Heq as _ Heq. by apply (IH c).
Qed.

Lemma substring_middle a b c : String.substring (String.length a) (String.length b) (a +:+ b +:+ c) = b.
Proof.
  induction a as [|x a IH]; [|exact IH]. simpl.
  induction b as [|y b IHb]; simpl; [by destruct c|]. by f_equal.
Qed.

(** The pieces between the stars, with anything in between. *)
Fixpoint pieces (parts : list string) (s : string) : Prop :=
  match parts with
  | [] => False
  | [x] => s = x
  | x :: parts => exists g t, s = x +:+ g +:+ t /\ pieces parts t
  end.

Lemma pieces_cons c x xs s :
  pieces (String c x :: xs) (String c s) <-> pieces (x :: xs) s.
Proof.
  destruct xs as [|y xs]; simpl; [naive_solver|].
  split; intros (g & t & Heq & Hp); exists g, t; (split; [|done]); [by injection Heq|by rewrite Heq].
Qed.

Lemma glob_pieces p s : Glob p s <-> pieces (split_char "*"%char p) s.
Proof.
  revert s. induction p as [|c p IH]; intros s.
  - split; [by inversion 1|]. simpl. intros ->. constructor.
  - pose proof (split_char_nonempty "*"%char p) as Hne. simpl. destruct (eq_char c "*"%char) eqn:Hc.
    + apply eq_char_true in Hc as ->. destruct (split_char "*"%char p) as [|x xs] in *; [done|].
      split.
      * inversion 1; subst; [|done]. exists s0, t. split; [done|]. exact (proj1 (IH t) H1).
      * intros (g & t & -> & Hp). exact (GlobStar p g t (proj2 (IH t) Hp)).
    + assert (c <> "*"%char) as Hne' by (intros ->; by rewrite eq_char_refl in Hc).
      destruct (split_char "*"%char p) as [|x xs] in *; [done|]. split.
      * inversion 1; subst; [done|]. apply pieces_cons. by rewrite <- IH.
      * intros Hp. destruct s as [|c' s].
        { destruct xs; [done|]. by destruct Hp as (? & ? & ? & _). }
        assert (c' = c) as ->.
        { destruct xs; [by injection Hp|]. destruct Hp as (? & ? & Heq & _). by injection Heq. }
        constructor; [done|]. rewrite IH. by apply pieces_cons in Hp.
Qed.

(** Pieces found in this order somewhere in the string. *)
Fixpoint in_order (parts : list string) (s : string) : Prop :=
  match parts with
  | [] => True
  | x :: parts => exists g t, s = g +:+ x +:+ t /\ in_order parts t
  end.

Lemma in_order_longer parts u s : in_order parts s -> in_order parts (u +:+ s).
Proof.
  destruct parts as [|x parts]; [done|]. intros (g & t & -> & Ht). exists (u +:+ g), t.
  by rewrite app_assoc_str.
Qed.

(** The first occurrence leaves the longest rest. *)
Lemma split_once_first x s g t :
  s = g +:+ x +:+ t -> exists l r w, split_once_str x s = Some (l, r) /\ s = l +:+ x +:+ r /\ r = w +:+ t.
Proof.
  revert g. induction s as [|c s IH]; intros g Heq.
  - destruct g; [|done]. destruct x; [|done]. exists "", "", "". by destruct t.
  - cbn [split_once_str]. destruct (strip_prefix x (String c s)) as [r|] eqn:Hp.
    + apply strip_prefix_spec in Hp. rewrite Hp in Heq.
      destruct (longer_end x r (g +:+ x) t) as [w ->].
      { by rewrite app_assoc_str. }
      { apply (f_equal String.length) in Heq. rewrite !app_length_str in Heq. lia. }
      exists "", (w +:+ t), w. split_and!; done.
    + destruct g as [|c' g].
      { change ("" +:+ x +:+ t) with (x +:+ t) in Heq. exfalso.
        assert (strip_prefix x (String c s) = Some t) by (by apply strip_prefix_spec). congruence. }
      injection Heq as <- Heq. destruct (IH g Heq) as (l & r & w & -> & Hs & Hr).
      exists (String c l), r, w. split_and!; [done|exact (f_equal (String c) Hs)|done].
Qed.

Lemma split_once_some x s l r : split_once_str x s = Some (l, r) -> s = l +:+ x +:+ r.
Proof.
  revert l. induction s as [|c s IH]; intros l; cbn [split_once_str].
  - destruct (strip_prefix x "") eqn:Hp; [|done]. apply strip_prefix_spec in Hp. by intros [= <- <-].
  - destruct (strip_prefix x (String c s)) eqn:Hp.
    + apply strip_prefix_spec in Hp. by intros [= <- <-].
    + destruct (split_once_str x s) as [[l' r']|]; [|done]. intros [= <- <-]. exact (f_equal (String c) (IH _ eq_refl)).
Qed.

Lemma find_parts_spec parts s : find_parts parts s = true <-> in_order parts s.
Proof.
  revert s. induction parts as [|x parts IH]; intros s; simpl; [done|]. case_bool_decide as Hx.
  - subst x. rewrite IH. split.
    + intros Hs. by exists "", s.
    + intros (g & t & -> & Ht). by apply in_order_longer.
  - split.
    + destruct (split_once_str x s) as [[l r]|] eqn:Hs; [|done]. intros Hf.
      exists l, r. split; [by apply split_once_some|]. by apply IH.
    + intros (g & t & Heq & Ht). destruct (split_once_first x s g t Heq) as (l & r & w & -> & _ & ->).
      apply IH. by apply in_order_longer.
Qed.

(** Anything, then the pieces: a middle part with all but the last, then the last. *)
Lemma pieces_middle rest d u :
  rest <> [] ->
  (exists g t, u = g +:+ t /\ pieces rest t) <->
  (exists mid, u = mid +:+ List.last rest d /\ in_order (removelast rest) mid).
Proof.
  revert u. induction rest as [|x rest IH]; intros u Hne; [done|]. destruct rest as [|y rest].
  - simpl. split; [intros (g & t & -> & ->); by exists g|intros (mid & -> & _); by exists mid, x].
  - change (List.last (x :: y :: rest) d) with (List.last (y :: rest) d).
    change (removelast (x :: y :: rest)) with (x :: removelast (y :: rest)). split.
    + intros (g & t & -> & g' & t' & -> & Hp).
      destruct (proj1 (IH (g' +:+ t') ltac:(done)) ltac:(by exists g', t')) as (mid & Hmid & Hin).
      exists (g +:+ x +:+ mid). rewrite Hmid, !app_assoc_str. split; [done|]. by exists g, mid.
    + intros (mid & -> & g & t & -> & Hin).
      destruct (proj2 (IH (t +:+ List.last (y :: rest) d) ltac:(done)) ltac:(by exists t)) as (g' & t' & Heq & Hp).
      exists g, (x +:+ g' +:+ t'). split; [by rewrite !app_assoc_str, Heq|]. by exists g', t'.
Qed.

Lemma split_char_no c s : has_char c s = false -> split_char c s = [s].
Proof.
  induction s as [|a s IH]; simpl; [done|]. intros [Ha Hs]%orb_false_iff. by rewrite Ha, IH.
Qed.

Lemma split_char_two c s : has_char c s = true -> exists x y ys, split_char c s = x :: y :: ys.
Proof.
  induction s as [|a s IH]; simpl; [done|]. destruct (eq_char a c); simpl.
  - intros _. pose proof (split_char_nonempty c s). destruct (split_char c s); [done|]. by eexists _, _, _.
  - intros (x & y & ys & ->)%IH. by eexists _, _, _.
Qed.

(** [glob_match] decides the usual meaning of a pattern: a file name matches exactly
    when it can be read off the pattern with each star standing for any run of
    characters. *)
Theorem glob_match_decides filename pattern : glob_match filename pattern = true <-> Glob pattern filename.
Proof.
  rewrite glob_pieces. unfold glob_match. destruct (has_char "*"%char pattern) eqn:Hstar; simpl negb; cbv iota.
  - destruct (split_char_two _ _ Hstar) as (x & y & ys & ->).
    set (lst := List.last (y :: ys) x). cbn [pieces].
    assert (Hmid : (exists g t, filename = x +:+ g +:+ t /\ pieces (y :: ys) t) <->
      (exists mid, filename = x +:+ mid +:+ lst /\ in_order (removelast (y :: ys)) mid)).
    { pose proof (fun u => pieces_middle (y :: ys) x u ltac:(done)) as Hp. split.
      - intros (g & t & -> & Ht). destruct (proj1 (Hp (g +:+ t)) ltac:(by exists g, t)) as (mid & -> & Hin). by exists mid.
      - intros (mid & -> & Hin). destruct (proj2 (Hp (mid +:+ lst)) ltac:(by exists mid)) as (g & t & -> & Ht). by exists g, t. }
    rewrite Hmid. clear Hmid.
    destruct (Nat.ltb_spec (String.length filename) (String.length x + String.length lst)) as [Hlen|Hlen]; simpl.
    { split; [done|]. intros (mid & -> & _). rewrite !app_length_str in Hlen. lia. }
    destruct (starts_with x filename) eqn:Hst; simpl.
    2:{ split; [done|]. intros (mid & -> & _). unfold starts_with in Hst.
        by rewrite (proj2 (strip_prefix_spec x _ (mid +:+ lst)) eq_refl) in Hst. }
    destruct (ends_with lst filename) eqn:Hen; simpl.
    2:{ split; [done|]. intros (mid & -> & _). apply not_true_iff_false in Hen. exfalso. apply Hen.
        apply ends_with_spec. exists (x +:+ mid). by rewrite app_assoc_str. }
    unfold starts_with in Hst. destruct (strip_prefix x filename) as [r|] eqn:Hr; [|done].
    apply strip_prefix_spec in Hr. apply ends_with_spec in Hen as [l Hl].
    assert (exists mid, r = mid +:+ lst) as [mid ->].
    { apply (longer_end x r l lst); [congruence|]. rewrite Hr, app_length_str in Hlen. lia. }
    assert (String.substring (String.length x) (String.length filename - String.length lst - String.length x) filename = mid) as ->.
    { rewrite Hr at 2. replace (String.length filename - String.length lst - String.length x)%nat with (String.length mid).
      - apply substring_middle.
      - rewrite Hr, !app_length_str. lia. }
    rewrite find_parts_spec. split; [by exists mid|]. intros (mid' & Heq & Hin).
    rewrite Hr in Heq. assert (mid = mid') as ->; [|done].
    rewrite <- (substring_middle x mid lst), Heq.
    replace (String.length mid) with (String.length mid'); [apply substring_middle|].
    apply (f_equal String.length) in Heq. rewrite !app_length_str in Heq. lia.
  - rewrite (split_char_no _ _ Hstar). simpl. apply String.eqb_eq.
Qed.

(** ** The target *)

Section converge.
Context `{MapIter}.
Context {V : Type} (semver_parse : string -> option V) (semver_le : V -> V -> bool).

Abbreviation target_of := (compute_target_versions semver_parse semver_le).
Abbreviation unload_all := (unload_all semver_parse semver_le).
Abbreviation load_missing := (load_missing semver_parse semver_le).
Abbreviation unload_version := (unload_version semver_parse semver_le).

Lemma filter_NoDup {A} (f : A -> bool) (l : list A) : NoDup l -> NoDup (List.filter f l).
Proof. rewrite !NoDup_ListNoDup. apply List.NoDup_filter. Qed.

Lemma elem_of_List_filter {A} (f : A -> bool) (x : A) (l : list A) :
  x ∈ List.filter f l <-> x ∈ l /\ f x = true.
Proof. rewrite !list_elem_of_In. apply filter_In. Qed.

Lemma add_default_in dv all target v :
  v ∈ add_default all dv target <-> v ∈ target \/ (dv = Some v /\ v ∈ all).
Proof.
  unfold add_default. destruct dv as [d|]; [|naive_solver].
  destruct (bool_decide _ && _) eqn:Hc.
  - apply andb_true_iff in Hc as [Hin%bool_decide_eq_true _].
    rewrite elem_of_app, list_elem_of_singleton. naive_solver.
  - apply andb_false_iff in Hc as [Hc%bool_decide_eq_false|Hc].
    + naive_solver.
    + apply negb_false_iff, bool_decide_eq_true in Hc. naive_solver.
Qed.

Lemma target_NoDup all strategy : NoDup all -> NoDup (target_of all strategy).
Proof.
  intros Hnd. unfold compute_target_versions. destruct strategy as [s|]; [|done].
  set (target := if String.eqb _ _ then _ else _).
  assert (NoDup target) as Ht.
  { unfold target. destruct (String.eqb _ _); [done|]. destruct (String.eqb _ _); [|by apply filter_NoDup].
    destruct (pick_latest_version _ _ _); [apply NoDup_singleton|apply NoDup_nil_2]. }
  unfold add_default. destruct (ms_default_version _); [|done]. destruct (_ && _) eqn:Hc; [|done].
  apply andb_true_iff in Hc as [_ Hc%negb_true_iff%bool_decide_eq_false].
  apply NoDup_app. split_and!; [done|set_solver|apply NoDup_singleton].
Qed.

(** ** A run *)

(** The model's part of the state: a version is keyed by its name, the versions that are
    not registered have nothing running, there is no cap and no shutdown. *)
Record settled (name : string) (m : WorkerManager) : Prop := {
  st_keys : forall v mv, registry_get name (Some v) (registry m) = Some mv -> mv_version mv = v;
  st_gone : forall v, registry_get name (Some v) (registry m) = None -> runtime_gone name v m;
  st_uncapped : uncapped name m;
  st_running : shutdown m = false;
}.

Lemma list_versions_in name m v :
  settled name m -> v ∈ list_versions name (registry m) <-> is_some (registry_get name (Some v) (registry m)) = true.
Proof.
  intros [Hk _ _ _]. unfold list_versions, registry_get in *.
  destruct (models (registry m) !! name) as [e|]; simpl; [|set_solver].
  rewrite list_elem_of_fmap. split.
  - intros ([k mv] & -> & Hin%elem_of_map_iter). simpl. by rewrite (Hk k mv Hin), Hin.
  - destruct (me_versions e !! v) as [mv|] eqn:Hv; [|done]. intros _. exists (v, mv).
    split; [by rewrite <- (Hk v mv Hv)|]. by apply elem_of_map_iter.
Qed.

Lemma unload_uncapped name v m : uncapped name m -> uncapped name (snd (unload_version name v m)).
Proof.
  intros Hcap. pose proof (unload_version_spec semver_parse semver_le name v m) as Hs.
  destruct (is_some _).
  - destruct Hs as (r & m' & Hst & -> & Hreg & _). simpl. unfold uncapped. rewrite Hreg.
    unfold set_status, update_version in Hst. apply result_bind_ok in Hst as (e & He & Hst).
    apply ok_or_ok in He. apply result_bind_ok in Hst as (mv & _ & [= <-]).
    erewrite remove_models by (simpl; apply lookup_insert_eq).
    intros e' He'. revert He'. simpl. case_bool_decide.
    + by rewrite lookup_delete_eq.
    + rewrite lookup_insert_eq. intros [= <-]. simpl. by apply Hcap.
  - destruct Hs as (e & m' & -> & Hreg & _). simpl. unfold uncapped. by rewrite Hreg.
Qed.

Lemma unload_one name v m :
  settled name m ->
  let m' := snd (unload_version name v m) in
  settled name m' /\
  forall v', registry_get name (Some v') (registry m')
    = if bool_decide (v' = v) then None else registry_get name (Some v') (registry m).
Proof.
  intros [Hk Hg Hc Hsd] m'. subst m'. pose proof (unload_version_spec semver_parse semver_le name v m) as Hs.
  assert (Hget : forall v', registry_get name (Some v') (registry (snd (unload_version name v m)))
    = if bool_decide (v' = v) then None else registry_get name (Some v') (registry m)).
  { intros v'. case_bool_decide as Hv.
    - subst v'. destruct (is_some _) eqn:Hsome.
      + destruct Hs as (r & m' & _ & -> & Hreg & _). simpl. rewrite Hreg. apply remove_get_same.
      + destruct Hs as (e & m' & -> & Hreg & _). simpl. rewrite Hreg. by destruct (registry_get _ _ _).
    - by destruct (unload_other semver_parse semver_le name v m _ _ v' (surjective_pairing _) ltac:(done)) as (_ & ? & _). }
  split; [|done]. split.
  - intros v' mv. rewrite Hget. case_bool_decide; [done|]. apply Hk.
  - intros v'. rewrite Hget. case_bool_decide as Hv.
    + intros _. subst v'. destruct (is_some _) eqn:Hsome.
      * by destruct Hs as (r & m' & _ & -> & _ & ? & _).
      * destruct Hs as (e & m' & -> & _ & Helse). simpl. eapply gone_elsewhere; [exact Helse|apply model_version_key_nonempty|].
        apply Hg. by destruct (registry_get _ _ _).
    + intros Hnone. destruct (unload_other semver_parse semver_le name v m _ _ v' (surjective_pairing _) ltac:(done)) as (Hr & _).
      by apply Hr, Hg.
  - by apply unload_uncapped.
  - by rewrite unload_shutdown.
Qed.

Lemma unload_all_spec name vs m :
  settled name m ->
  settled name (unload_all name vs m) /\
  forall v, registry_get name (Some v) (registry (unload_all name vs m))
    = if bool_decide (v ∈ vs) then None else registry_get name (Some v) (registry m).
Proof.
  revert m. induction vs as [|v vs IH]; intros m Hm; [done|].
  assert (snd (unload_model semver_parse semver_le name (Some v) m) = snd (unload_version name v m)) as Hu.
  { unfold unload_model, bind, ret. by destruct (unload_version name v m) as [[]]. }
  cbn [Reconcile.unload_all]. rewrite Hu. destruct (unload_one name v m Hm) as [Hm' Hget]. destruct (IH _ Hm') as [Hs Hg].
  split; [done|]. intros v'. rewrite Hg, Hget. repeat case_bool_decide; set_solver.
Qed.

(** A load that succeeds when nobody interferes. *)
Definition loads_with (li : LoadInput) (n : nat) : Prop :=
  undisturbed li /\ li_config li = Ok tt /\ li_dir li = Ok true /\ li_source li = PythonModel /\
  (exists d, li_devices li = Ok d) /\ (exists ready, li_handshakes li = Ok ready /\ length ready = n) /\
  (li_warmup li = None \/ li_warmup li = Some (Ok tt)).

(** A version that is [Ready] with [n] workers. *)
Definition ready_with (name version : string) (n : nat) (m : WorkerManager) : Prop :=
  (exists mv, registry_get name (Some version) (registry m) = Some mv /\ mv_status mv = Ready) /\
  default [] (wm_workers m !! model_version_key name version) = seq 0 n.

Lemma load_one li name version n m :
  loads_with li n -> uncapped name m -> shutdown m = false ->
  registry_get name (Some version) (registry m) = None -> runtime_gone name version m ->
  exists m', load_model semver_parse semver_le li name version m = (Ok tt, m') /\
    ready_with name version n m' /\ uncapped name m' /\ shutdown m' = false /\
    same_elsewhere (model_version_key name version) m m' /\
    forall v, v <> version ->
      registry_get name (Some v) (registry m') = registry_get name (Some v) (registry m).
Proof.
  intros (Hund & Hcfg & Hdir & Hsrc & (d & Hdev) & (ready & Hready & Hlen) & Hwarm) Hcap Hsd Hget Hgone.
  destruct (load_model_ok semver_parse semver_le li name version m d ready) as (m' & Hload & [(mv & Hg & Hst & _) Hw _ _]);
    try done.
  { unfold enforce_max, enforce_max_loaded_versions. destruct (models (registry m) !! name) as [e|] eqn:He; [|done].
    simpl. by rewrite (Hcap e He). }
  destruct (frame_load _ _ _ _ _ _ _ Hund Hsrc Hcap Hload) as (Helse & Hsd' & Hcap' & Hother).
  exists m'. split_and!; [done| |done|congruence|done|done].
  split; [by exists mv|]. by rewrite Hw, Hlen.
Qed.

(** A version that another load leaves alone. *)
Lemma ready_elsewhere name v version n m m' :
  v <> version -> same_elsewhere (model_version_key name version) m m' ->
  registry_get name (Some v) (registry m') = registry_get name (Some v) (registry m) ->
  ready_with name v n m -> ready_with name v n m'.
Proof.
  intros Hne [Ew _ _ _ _] Hget [Hr Hw]. unfold ready_with. rewrite Hget, Ew; [done|].
  intros Heq. by apply model_version_key_inj in Heq.
Qed.

Lemma load_missing_spec config input name strategy loaded target sizes m :
  strategy ≫= (fun s => ms_max_loaded_versions (st_config s)) = None ->
  is_ok (validate_identifier name) = true -> NoDup target ->
  uncapped name m -> shutdown m = false ->
  (forall v, v ∈ target -> v ∉ loaded ->
     is_ok (validate_identifier v) = true /\ config v = Ok tt /\ loads_with (input v) (sizes v) /\
     registry_get name (Some v) (registry m) = None /\ runtime_gone name v m) ->
  exists m', load_missing config input strategy name loaded target m
      = (List.filter (fun v => negb (bool_decide (v ∈ loaded))) target, m') /\
    (forall v, v ∈ target -> v ∉ loaded -> ready_with name v (sizes v) m') /\
    (forall v, v ∉ target \/ v ∈ loaded ->
       registry_get name (Some v) (registry m') = registry_get name (Some v) (registry m) /\
       forall n, ready_with name v n m -> ready_with name v n m').
Proof.
  intros Hstrat Hname Hnd. revert m. induction target as [|x target IH]; intros m Hcap Hsd Hv.
  { exists m. split_and!; [done|set_solver|done]. }
  apply NoDup_cons in Hnd as [Hx Hnd]. cbn [Reconcile.load_missing List.filter]. case_bool_decide as Hin; cbn [negb].
  - destruct (IH Hnd m Hcap Hsd) as (m' & Heq & Hr & Ho); [intros; apply Hv; set_solver|].
    exists m'. split_and!; [done| |].
    + intros v. rewrite elem_of_cons. intros [->|]; [done|]. by apply Hr.
    + intros v Hout. apply Ho. set_solver.
  - destruct (Hv x ltac:(set_solver) Hin) as (Hid & Hcfg & Hload & Hget & Hgone).
    rewrite Hname, Hid. unfold cap_reached. rewrite Hstrat, Hcfg. cbn [negb].
    destruct (load_one _ _ _ _ _ Hload Hcap Hsd Hget Hgone) as (m1 & -> & Hr1 & Hcap1 & Hsd1 & Helse & Hother).
    destruct (IH Hnd m1 Hcap1 Hsd1) as (m' & -> & Hr & Ho).
    { intros v Hv1 Hv2. destruct (Hv v ltac:(set_solver) Hv2) as (? & ? & ? & Hg & Hgn).
      assert (v <> x) by (intros ->; done). split_and!; [done|done|done|by rewrite Hother|].
      eapply gone_elsewhere; [exact Helse| |done]. intros Heq. by apply model_version_key_inj in Heq. }
    exists m'. split_and!; [done| |].
    + intros v. rewrite elem_of_cons. intros [->|Hv1] Hv2; [|by apply Hr].
      destruct (Ho x (or_introl Hx)) as [_ Hkeep]. by apply Hkeep.
    + intros v Hout. assert (v <> x) as Hne by set_solver.
      destruct (Ho v ltac:(set_solver)) as [Hg Hkeep]. split; [by rewrite Hg, Hother|].
      intros n Hrn. apply Hkeep. eapply ready_elsewhere; [exact Hne|exact Helse|by apply Hother|done].
Qed.

(** ** Activation *)

Lemma activate_ok name v r mv :
  registry_get name (Some v) r = Some mv -> mv_status mv = Ready ->
  activate_version name v r = (Ok true, set_active (<[name := v]> (active_versions r)) r).
Proof.
  unfold activate_version, activate_check, activate_pin, registry_get. destruct (models r !! name) as [e|]; [|done]. intros -> ->. done.
Qed.

(** A version that may be activated. *)
Definition activatable (name v : string) (r : ModelRegistry) : Prop :=
  exists mv, registry_get name (Some v) r = Some mv /\ mv_status mv = Ready.

Lemma activated_ready name v r :
  activatable name v r -> active_version_is_ready name (set_active (<[name := v]> (active_versions r)) r) = true.
Proof.
  intros (mv & Hg & Hst). unfold active_version_is_ready, get_active_version, is_ready. simpl.
  rewrite lookup_insert_eq. unfold registry_get in *. simpl. destruct (models r !! name); [|done].
  by rewrite Hg, Hst.
Qed.

Lemma default_ready_some name dv r d :
  default_ready name dv r = Some d <-> dv = Some d /\ activatable name d r.
Proof.
  unfold default_ready, activatable. destruct dv as [d'|]; [|naive_solver].
  destruct (registry_get name (Some d') r) as [mv|] eqn:Hg; [|naive_solver].
  case_bool_decide; naive_solver.
Qed.

(** Activation: the default if it was just loaded, or is ready while nothing usable is
    active; some ready version in any case. *)
Lemma activate_after_load_spec name dv vs r :
  Forall (fun v => activatable name v r) vs ->
  let '(a, r') := activate_after_load name dv vs r in
  models r' = models r /\
  (vs = [] -> a = Unchanged /\ r' = r) /\
  (vs <> [] -> active_version_is_ready name r' = true) /\
  (forall d, dv = Some d -> vs <> [] ->
     d ∈ vs \/ (active_version_is_ready name r = false /\ activatable name d r) ->
     get_active_version name r' = Some d) /\
  ((forall d, dv = Some d -> d ∉ vs) -> active_version_is_ready name r = true -> r' = r).
Proof.
  intros Hall. unfold activate_after_load.
  assert (Hact : forall v, activatable name v r ->
    activate_version name v r = (Ok true, set_active (<[name := v]> (active_versions r)) r)).
  { intros v (mv & Hg & Hst). by eapply activate_ok. }
  destruct vs as [|first vs].
  { destruct dv as [d|]; [rewrite bool_decide_eq_false_2 by set_solver|]; done. }
  assert (activatable name first r) as Hfirst by (by apply Forall_cons in Hall as [? _]).
  assert (Hself : forall d, get_active_version name (set_active (<[name := d]> (active_versions r)) r) = Some d)
    by (intros; apply lookup_insert_eq).
  destruct dv as [d|].
  - case_bool_decide as Hd.
    + assert (activatable name d r) as Hdr by (by eapply Forall_forall in Hall).
      rewrite (Hact d Hdr). split_and!; [done|done| |naive_solver|naive_solver].
      intros _. by apply activated_ready.
    + destruct (active_version_is_ready name r) eqn:Hready.
      { split_and!; [done|done|done|naive_solver|done]. }
      destruct (default_ready name (Some d) r) as [d'|] eqn:Hdr.
      * apply default_ready_some in Hdr as [[= <-] Hdr]. rewrite (Hact d Hdr).
        split_and!; [done|done| |naive_solver|done]. intros _. by apply activated_ready.
      * rewrite (Hact first Hfirst). split_and!; [done|done| | |done].
        { intros _. by apply activated_ready. }
        intros d' [= <-] _ [?|[_ Hd']]; [done|].
        assert (default_ready name (Some d) r = Some d) by (by apply default_ready_some). congruence.
  - destruct (active_version_is_ready name r) eqn:Hready.
    + split_and!; done.
    + rewrite (Hact first Hfirst). split_and!; try done. intros _. by apply activated_ready.
Qed.

(** ** Theorems *)

(** The target is the versions on disk that the policy names, and the configured
    default if it is on disk. *)
Theorem target_follows_policy all s v :
  v ∈ target_of all (Some s) <->
  v ∈ all /\
  (ms_default_version (st_config s) = Some v \/
   (if String.eqb (ms_load_policy (st_config s)) "all" then True
    else if String.eqb (ms_load_policy (st_config s)) "latest"
    then pick_latest_version semver_parse semver_le all = Some v
    else v ∈ versions_to_load s)).
Proof.
  unfold compute_target_versions. rewrite add_default_in.
  destruct (String.eqb _ "all"); [naive_solver|]. destruct (String.eqb _ "latest").
  - destruct (pick_latest_version _ _ all) as [l|] eqn:Hl; [|set_solver].
    assert (l ∈ all) as Hin.
    { destruct all as [|x all]; [done|].
      destruct (pick_latest_version_in semver_parse semver_le (x :: all)) as (l' & Hl' & Hin); [done|]. congruence. }
    rewrite list_elem_of_singleton. naive_solver.
  - rewrite elem_of_List_filter, bool_decide_eq_true. naive_solver.
Qed.

(** C15. One reconcile run of a model makes the loaded versions exactly the target
    of its policy: with no cap, valid names, and loads that succeed and are left
    undisturbed, versions outside the target are unloaded, missing ones end [Ready]
    with all their workers, versions already loaded are left as they are, the active
    version serves if anything was loaded, and is the configured default if that one
    was. *)
Theorem reconcile_converges config input strategy name disk sizes m :
  strategy ≫= (fun s => ms_max_loaded_versions (st_config s)) = None ->
  is_ok (validate_identifier name) = true -> NoDup disk -> settled name m ->
  let target := target_of disk strategy in
  (forall v, v ∈ target -> registry_get name (Some v) (registry m) = None ->
     is_ok (validate_identifier v) = true /\ config v = Ok tt /\ loads_with (input v) (sizes v)) ->
  let m' := snd (reconcile_model semver_parse semver_le config input strategy name disk m) in
  let new v := v ∈ target /\ registry_get name (Some v) (registry m) = None in
  (forall v, is_some (registry_get name (Some v) (registry m')) = true <-> v ∈ target) /\
  (forall v, new v -> ready_with name v (sizes v) m') /\
  (forall v, v ∈ target -> ~ new v ->
     registry_get name (Some v) (registry m') = registry_get name (Some v) (registry m)) /\
  ((exists v, new v) -> active_version_is_ready name (registry m') = true) /\
  (forall d, strategy ≫= (fun s => ms_default_version (st_config s)) = Some d -> new d ->
     get_active_version name (registry m') = Some d).
Proof.
  intros Hstrat Hname Hnd Hm target Hv m' new. pose proof (target_NoDup disk strategy Hnd) as Htnd.
  set (loaded := list_versions name (registry m)).
  assert (Hloaded : forall v, v ∈ loaded <-> is_some (registry_get name (Some v) (registry m)) = true)
    by (intros; by apply list_versions_in).
  assert (Hnone : forall v, v ∉ loaded <-> registry_get name (Some v) (registry m) = None).
  { intros v. rewrite Hloaded. destruct (registry_get _ _ _); simpl; naive_solver. }
  set (gone := List.filter (fun v => negb (bool_decide (v ∈ target))) loaded).
  destruct (unload_all_spec name gone m Hm) as [[_ Hg1 Hc1 Hs1] Hget1].
  assert (Hkeep : forall v, v ∈ target -> registry_get name (Some v) (registry (unload_all name gone m))
    = registry_get name (Some v) (registry m)).
  { intros v Hin. rewrite Hget1, bool_decide_eq_false_2; [done|]. unfold gone.
    rewrite elem_of_List_filter, bool_decide_eq_true_2 by done. naive_solver. }
  destruct (load_missing_spec config input name strategy loaded target sizes (unload_all name gone m)) as (m2 & Hload & Hnew & Hold);
    try done.
  { intros v Hin Hout%Hnone. destruct (Hv v Hin Hout) as (? & ? & ?). rewrite Hkeep by done.
    split_and!; try done. apply Hg1. by rewrite Hkeep. }
  set (vs := List.filter (fun v => negb (bool_decide (v ∈ loaded))) target) in *.
  assert (Hvs : forall v, v ∈ vs <-> new v).
  { intros v. unfold vs, new. rewrite elem_of_List_filter, <- Hnone, negb_true_iff, bool_decide_eq_false. done. }
  pose proof (activate_after_load_spec name (strategy ≫= fun s => ms_default_version (st_config s)) vs (registry m2)) as Ha.
  assert (m' = set_registry (snd (activate_after_load name (strategy ≫= fun s => ms_default_version (st_config s))
    vs (registry m2))) m2) as ->.
  { unfold m', reconcile_model. fold target loaded gone. rewrite Hload. by destruct (activate_after_load _ _ _ _). }
  destruct (activate_after_load _ _ _ _) as [a r']. destruct Ha as (Hmod & _ & Hact & Hdef & _).
  { apply Forall_forall. intros v Hin%Hvs. destruct Hin as [Hin Hout]. destruct (Hnew v Hin) as [? _]; [by apply Hnone|done]. }
  assert (Hget : forall v, registry_get name (Some v) r' = registry_get name (Some v) (registry m2))
    by (intros; unfold registry_get; by rewrite Hmod).
  simpl. split_and!.
  - intros v. rewrite Hget. destruct (decide (v ∈ target)) as [Hin|Hin]; [|].
    + split; [done|]. intros _. destruct (decide (v ∈ loaded)) as [Hl|Hl].
      * destruct (Hold v (or_intror Hl)) as [-> _]. rewrite Hkeep by done. by apply Hloaded.
      * by destruct (Hnew v Hin Hl) as [(mv & -> & _) _].
    + split; [|done]. destruct (Hold v (or_introl Hin)) as [-> _]. rewrite Hget1. case_bool_decide as Hgo; [done|].
      intros Hsome%Hloaded. exfalso. apply Hgo. unfold gone. rewrite elem_of_List_filter.
      by rewrite bool_decide_eq_false_2.
  - intros v [Hin Hout%Hnone]. unfold ready_with. simpl. rewrite Hget. by apply Hnew.
  - intros v Hin Hnn. rewrite Hget. assert (v ∈ loaded) as Hl.
    { destruct (decide (v ∈ loaded)) as [|Hl%Hnone]; [done|]. by exfalso; apply Hnn. }
    destruct (Hold v (or_intror Hl)) as [-> _]. by apply Hkeep.
  - intros [v Hn%Hvs]. apply Hact. intros Hempty. rewrite Hempty in Hn. set_solver.
  - intros d Hd Hn%Hvs. apply Hdef; [done| |by left]. intros Hempty. rewrite Hempty in Hn. set_solver.
Qed.
End converge.

(** ** Unpacking *)

Section unpacking.
Context (aside in_ : string -> result string unit) (back : string -> bool).

(** Moving the staging area into the repository leaves every model directory either
    as it was or as staged (or missing, when even the rollback failed), and on
    success all staged ones. *)
Theorem staging_swaps_whole_models entries repo r repo' :
  NoDup entries.*1 -> move_staging_into_repo aside in_ back entries repo = (r, repo') ->
  (forall name,
     repo' !! name = repo !! name \/
     (exists dir, (name, dir) ∈ entries /\ validate_identifier name = Ok tt /\ repo' !! name = Some dir) \/
     (back name = false /\ repo' !! name = None /\ exists e, r = Err e)) /\
  (r = Ok tt -> forall name dir, (name, dir) ∈ entries -> validate_identifier name = Ok tt ->
     repo' !! name = Some dir).
Proof.
  revert repo. induction entries as [|[name dir] entries IH]; intros repo Hnd; simpl.
  { intros [= <- <-]. split; [by left|set_solver]. }
  apply NoDup_cons in Hnd as [Hout Hnd].
  assert (Hother : forall d, (name, d) ∉ entries).
  { intros d Hin. apply Hout. apply list_elem_of_fmap. by exists (name, d). }
  destruct (validate_identifier name) as [[]|] eqn:Hid; simpl.
  2:{ intros Hr. destruct (IH repo Hnd Hr) as [Heach Hok]. split.
      - intros n. destruct (Heach n) as [?|[(d & ? & ?)|?]]; [by left| |by right; right].
        right; left. exists d. set_solver.
      - intros Hr' n d [[= -> ->]|Hin]%elem_of_cons Hv; [congruence|by apply Hok]. }
  destruct (if is_some (repo !! name) then aside name else Ok tt); [|intros [= <- <-]; split; [by left|done]].
  destruct (in_ name).
  - intros Hr. destruct (IH _ Hnd Hr) as [Heach Hok]. split.
    + intros n. destruct (Heach n) as [Hn|[(d & ? & ?)|?]]; [| |by right; right].
      * destruct (decide (n = name)) as [->|Hne].
        { rewrite lookup_insert_eq in Hn. right; left. exists dir. set_solver. }
        left. by rewrite Hn, lookup_insert_ne.
      * right; left. exists d. set_solver.
    + intros Hr' n d [[= -> ->]|Hin]%elem_of_cons Hv; [|by apply Hok].
      destruct (Heach name) as [Hn|[(d & Hd & _)|(_ & _ & e' & He)]]; [|by destruct (Hother d)|congruence].
      by rewrite Hn, lookup_insert_eq.
  - intros [= <- <-]. split; [|done]. intros n. destruct (is_some (repo !! name) && negb (back name)) eqn:Hb; [|by left].
    apply andb_true_iff in Hb as [_ Hb%negb_true_iff]. destruct (decide (n = name)) as [->|Hne].
    + right; right. rewrite lookup_delete_eq. split_and!; [done|done|by eexists].
    + left. by rewrite lookup_delete_ne.
Qed.

Lemma unpack_loop_seen artifacts on_disk seen repo d s r :
  unpack_loop aside in_ back artifacts on_disk seen repo = (d, s, r) ->
  seen ⊆ s /\ on_disk ⊆ d /\
  forall a t, a ∈ artifacts -> af_mtime a = Some t -> (af_name a, t) ∈ s /\ (af_name a, t) ∈ d.
Proof.
  revert on_disk seen repo. induction artifacts as [|a artifacts IH]; intros on_disk seen repo; simpl.
  { intros [= <- <- <-]. set_solver. }
  destruct (af_mtime a) as [t|] eqn:Ht.
  - intros Hu. assert (exists seen' repo', {[(af_name a, t)]} ∪ seen ⊆ seen' /\
      unpack_loop aside in_ back artifacts ({[(af_name a, t)]} ∪ on_disk) seen' repo' = (d, s, r)) as (seen' & repo' & Hsub & Hr).
    { revert Hu. case_bool_decide; [|case_goal]; intros Hu; eexists _, _; (split; [|exact Hu]); set_solver. }
    destruct (IH _ _ _ Hr) as (Hs & Hd & Hall). split_and!; [set_solver|set_solver|].
    intros a' t' [->|Hin]%elem_of_cons Ha'; [|by apply Hall].
    rewrite Ht in Ha'. injection Ha' as <-. set_solver.
  - intros Hu. destruct (IH _ _ _ Hu) as (Hs & Hd & Hall). split_and!; [done|done|].
    intros a' t' [->|Hin]%elem_of_cons Ha'; [congruence|by apply Hall].
Qed.

Lemma unpack_loop_again artifacts on_disk seen repo :
  (forall a t, a ∈ artifacts -> af_mtime a = Some t -> (af_name a, t) ∈ seen) ->
  exists d, unpack_loop aside in_ back artifacts on_disk seen repo = (d, seen, repo).
Proof.
  revert on_disk. induction artifacts as [|a artifacts IH]; intros on_disk Hin; simpl; [by eexists|].
  assert (forall a' t, a' ∈ artifacts -> af_mtime a' = Some t -> (af_name a', t) ∈ seen) by (intros; apply Hin; set_solver).
  destruct (af_mtime a) as [t|] eqn:Ht; [|by apply IH].
  rewrite bool_decide_eq_true_2 by (apply Hin; set_solver). by apply IH.
Qed.

End unpacking.

(** A second scan of the same artifacts, at the same modification times, unpacks
    nothing. *)
Theorem artifacts_unpacked_once aside in_ back aside' in' back' artifacts artifacts' complete seen repo :
  (forall a' t, a' ∈ artifacts' -> af_mtime a' = Some t ->
     exists a, a ∈ artifacts /\ af_name a = af_name a' /\ af_mtime a = Some t) ->
  let '(seen1, repo1) := auto_unpack_lma_files aside in_ back artifacts complete seen repo in
  snd (auto_unpack_lma_files aside' in' back' artifacts' complete seen1 repo1) = repo1.
Proof.
  intros Hsub. unfold auto_unpack_lma_files.
  destruct (unpack_loop aside in_ back artifacts ∅ seen repo) as [[d s] r] eqn:Hu.
  destruct (unpack_loop_seen _ _ _ _ _ _ _ _ _ _ Hu) as (_ & _ & Hall).
  destruct (unpack_loop_again aside' in' back' artifacts' ∅ (if complete then s ∩ d else s) r) as [d' ->]; [|by destruct complete].
  intros a' t Hin Ht. destruct (Hsub a' t Hin Ht) as (a & Ha & Hname & Hat).
  destruct (Hall a t Ha Hat) as [Hs Hd]. rewrite Hname in Hs, Hd. destruct complete; set_solver.
Qed.

(** ** Concrete runs *)

Definition quiet : string -> result string unit := fun _ => Ok tt.
Definition a_dir : VersionDir := {| has_model_py := true; is_ensemble := false; dir_mtime := Some 5 |}.
Definition artifact (name : string) (mtime : Z) (model version : string) : Artifact :=
  {| af_name := name; af_mtime := Some mtime; af_output := Some [(model, {[version := a_dir]})] |}.

(** Unpacking version 2 of a model removes version 1 from the disk: the swap replaces
    the model's whole directory with the one the artifact holds. *)
Theorem unpacking_drops_other_versions :
  let repo := {["m" := {["1" := a_dir]}]} in
  let '(_, repo') := auto_unpack_lma_files quiet quiet (fun _ => true) [artifact "m_v2.lma" 9 "m" "2"] true ∅ repo in
  scan_repo_models repo !! "m" = Some ["1"] /\ scan_repo_models repo' !! "m" = Some ["2"].
Proof. vm_compute. split; reflexivity. Qed.

(** A version as [validate_version] accepts it, but not [validate_identifier], is never
    loaded: the run ends without a change. *)
Theorem dotted_version_never_loaded :
  validate_version "1.0.0" = Ok tt /\
  reconcile_model (fun _ => None) Z.leb quiet (fun _ => two_workers) None "m" ["1.0.0"] manager_new
  = (Unchanged, manager_new).
Proof. split; vm_compute; reflexivity. Qed.

(** The default was loaded in this round but is not [Ready]: nothing becomes active although
    another loaded version is. *)
Definition failed_default : ModelRegistry :=
  match (do! (fun m => load_model (fun _ => None) Z.leb two_workers "m" "1" m) in
         do! (fun m => load_model (fun _ => None) Z.leb two_workers "m" "2" m) in
         do! on_registry (set_status "m" "2" Failed) in
         on_registry (fun r => Ok (deactivate "m" r))) manager_new with
  | (_, m) => registry m
  end.

Theorem unready_default_blocks_fallback :
  activate_after_load "m" (Some "2") ["1"; "2"] failed_default = (DefaultFailed, failed_default) /\
  active_version_is_ready "m" failed_default = false /\
  is_ready "m" (Some "1") failed_default = true.
Proof. vm_compute. split_and!; reflexivity. Qed.

(** ** The theorems at concrete inputs *)

Lemma staging_witness :
  let repo := {["m" := {["1" := a_dir]}]} in
  snd (move_staging_into_repo quiet quiet (fun _ => true) [("m", {["2" := a_dir]})] repo) !! "m"
  = Some {["2" := a_dir]}.
Proof.
  apply (staging_swaps_whole_models quiet quiet (fun _ => true) [("m", {["2" := a_dir]})] {["m" := {["1" := a_dir]}]} (Ok tt)).
  - apply NoDup_singleton.
  - reflexivity.
  - reflexivity.
  - by apply list_elem_of_here.
  - reflexivity.
Defined.

Lemma artifacts_unpacked_once_witness :
  let arts := [artifact "m_v2.lma" 9 "m" "2"] in
  let '(seen1, repo1) := auto_unpack_lma_files quiet quiet (fun _ => true) arts true ∅ ∅ in
  snd (auto_unpack_lma_files quiet quiet (fun _ => false) arts true seen1 repo1) = repo1.
Proof.
  apply (artifacts_unpacked_once quiet quiet (fun _ => true) quiet quiet (fun _ => false)
    [artifact "m_v2.lma" 9 "m" "2"] [artifact "m_v2.lma" 9 "m" "2"] true ∅ ∅).
  intros a t Ha Ht. by exists a.
Defined.

Definition latest_of : option Strategy :=
  Some {| st_config := {| ms_name := "m"; ms_load_policy := "all"; ms_default_version := Some "2";
                          ms_max_loaded_versions := None; ms_weights := None |};
          versions_to_load := [] |}.

Lemma reconcile_converges_witness :
  let m' := snd (reconcile_model (fun _ => None) Z.leb quiet (fun _ => two_workers) latest_of "m" ["1"; "2"] manager_new) in
  ready_with "m" "1" 2 m' /\ ready_with "m" "2" 2 m' /\ get_active_version "m" (registry m') = Some "2".
Proof.
  destruct (reconcile_converges (fun _ => None) Z.leb quiet (fun _ => two_workers) latest_of "m" ["1"; "2"]
    (fun _ => 2%nat) manager_new) as (_ & Hnew & _ & _ & Hdef).
  - reflexivity.
  - reflexivity.
  - by apply (bool_decide_eq_true_1 (NoDup ["1"; "2"])).
  - split; [done|by intros v _|done|done].
  - intros v Hin _. change (v ∈ ["1"; "2"]) in Hin.
    split_and!; [|done|].
    + by repeat (apply elem_of_cons in Hin as [->|Hin]); [..|apply elem_of_nil in Hin].
    + split; [exact undisturbed_two|]. split_and!; try done; [by eexists|by eexists|by left].
  - assert (Hin : forall v, v = "1" \/ v = "2" -> v ∈ ["1"; "2"]) by set_solver.
    split_and!; [apply (Hnew "1")|apply (Hnew "2")|apply (Hdef "2" eq_refl)];
      (split; [apply Hin; tauto|reflexivity]).
Defined.
