(* ===== verification/Upload.v ===== *)
(** * Uploads

    Models the upload paths of [src/src/http/handlers/files.rs] (the multipart handler,
    the shared tail [finalize_upload], the commit into the repository, retained
    artifacts) and the resumable sessions of [src/src/http/handlers/upload_sessions.rs].
    A file is its bytes; a directory is a map.  The unpacker and the manifest's JSON are
    parameters, as is SHA-256; file operations are taken to succeed, what can fail for
    other reasons is modelled.

    A request on a session is a [Task]; a step is what it does between two points where
    others can run: before the lock of the session, under it, and where its future can
    be dropped.  The theorems ([UploadProps.v]) show that chunks keep their strict
    lengths in every interleaving, that a completed upload is the content the client
    sent, and that nothing else in the repository changes. *)

From S2P Require Import Prelude Text Errors Registry Validation.
Open Scope string_scope.
Open Scope Z_scope.

Abbreviation bytes := (list Z) (only parsing).

(** ** The repository *)

(** A model's root, or a staging root: version directories and plain files. *)
Record Tree := {
  t_dirs : gmap string (gmap string bytes);
  t_files : gmap string bytes;
}.

Definition empty_tree : Tree := {| t_dirs := ∅; t_files := ∅ |}.

Record Repository := {
  r_models : gmap string Tree;
  r_root_artifacts : gmap string bytes;      (** [.lma] files placed in the root *)
  r_artifacts : gmap string bytes;           (** retained in [.artifacts] *)
}.

Definition model_root (repo : Repository) (model : string) : Tree :=
  default empty_tree (r_models repo !! model).

Definition artifact_name (model version : string) : string := model +:+ "_v" +:+ version +:+ ".lma".

(** What the code reads of a manifest; [mf_sizes] are the sizes of the entries of
    [files], when that is an object. *)
Record Manifest := {
  mf_name : option string;
  mf_version : option string;
  mf_sizes : option (list (option Z));
}.

Record StagedUploadFile := {
  su_name : string;
  su_is_lma : bool;
}.

Definition declared_unpacked_bytes (m : Manifest) : option Z :=
  match mf_sizes m with
  | None => None
  | Some sizes =>
      let total := wrap64 (foldr Z.add 0 (omap id sizes)) in
      if 0 <? total then Some total else None
  end.

(** [Path::file_name] of an unsanitized name: its last component, if that is a name. *)
Definition file_name (s : string) : string :=
  match last (piece_components s) with
  | Some (Normal n) => n
  | _ => EmptyString
  end.

Section finalize.
Context (unpack : Tree -> bytes -> option string -> result AppError Tree).
Context (parse_manifest : bytes -> result string Manifest) (not_found : string).
Context (max_upload_bytes : option Z).

Definition unusable (max : Z) (detail : string) : AppError :=
  Validation ("cannot enforce max_upload_bytes=" +:+ pretty max +:+ ": artifact manifest " +:+ detail).

Definition enforce_unpacked_size_cap (manifest : option bytes) (max : Z) : result AppError unit :=
  match manifest with
  | None => Err (unusable max ("unreadable (" +:+ not_found +:+ ")"))
  | Some raw =>
      match parse_manifest raw with
      | Err e => Err (unusable max ("invalid (" +:+ e +:+ ")"))
      | Ok m =>
          match declared_unpacked_bytes m with
          | Some declared => if max <? declared then Err (PayloadTooLarge max (Some declared)) else Ok tt
          | None => Err (unusable max "declares no usable unpacked size")
          end
      end
  end.

(** [unpack_artifact] of a staged [.lma], which lies in the staging root. *)
Definition unpack_artifact (expect : option string) (f : StagedUploadFile) (staging : Tree)
    : result AppError Tree :=
  match t_files staging !! su_name f with
  | Some data => unpack staging data expect
  | None => Err (Io not_found)
  end.

Fixpoint unpack_artifacts (expect : option string) (staged : list StagedUploadFile) (staging : Tree)
    : result AppError Tree :=
  match staged with
  | [] => Ok staging
  | f :: staged =>
      if su_is_lma f then
        let? staging := unpack_artifact expect f staging in unpack_artifacts expect staged staging
      else unpack_artifacts expect staged staging
  end.

Definition has_raw (staged : list StagedUploadFile) : bool := existsb (fun f => negb (su_is_lma f)) staged.
Definition has_lma (staged : list StagedUploadFile) : bool := existsb su_is_lma staged.

Definition strip_v (v : string) : string := default v (strip_prefix "v" v).

Definition single_artifact (model : string) : AppError :=
  InvalidRequestBody ("model-level upload accepts a single .lma artifact; raw files need the versioned endpoint "
    +:+ "/v2/repository/models/" +:+ model +:+ "/versions/{v}/upload").

(** The version the upload is for, and the staging root with the artifacts unpacked. *)
Definition effective_version (model : string) (staged : list StagedUploadFile) (url_version : option string)
    (staging : Tree) : result AppError (string * Tree) :=
  match url_version with
  | None =>
      match staged with
      | [f] =>
          if negb (su_is_lma f) then Err (single_artifact model)
          else
            let? staging := unpack_artifact None f staging in
            let? raw := ok_or (t_files staging !! "manifest.json") (Validation "artifact manifest.json missing") in
            match parse_manifest raw with
            | Err _ => Err (Validation "artifact manifest.json invalid")
            | Ok m =>
                let? name := ok_or (mf_name m) (Validation "artifact manifest lacks a name") in
                if negb (String.eqb name model) then
                  Err (InvalidRequestBody ("artifact is for model '" +:+ name +:+ "', not '" +:+ model +:+ "'"))
                else
                  let? version := ok_or (mf_version m) (Validation "artifact manifest lacks a version") in
                  let? _ := validate_version (strip_v version) in
                  Ok (strip_v version, staging)
            end
      | _ => Err (single_artifact model)
      end
  | Some url_v =>
      let effective := if has_lma staged then strip_v url_v else url_v in
      let? staging := unpack_artifacts (Some effective) staged staging in
      Ok (effective, staging)
  end.

(** The raw files of a mixed upload, moved from the directory of the URL's version. *)
Fixpoint move_raw (src dst : string) (staged : list StagedUploadFile) (staging : Tree) : result AppError Tree :=
  match staged with
  | [] => Ok staging
  | f :: staged =>
      if su_is_lma f then move_raw src dst staged staging
      else
        let src_dir := default ∅ (t_dirs staging !! src) in
        let? data := ok_or (src_dir !! su_name f) (Io not_found) in
        let dst_dir := default ∅ (t_dirs staging !! dst) in
        move_raw src dst staged
          {| t_dirs := <[dst := <[su_name f := data]> dst_dir]> (<[src := delete (su_name f) src_dir]> (t_dirs staging));
             t_files := t_files staging |}
  end.

Definition merge_raw (staged : list StagedUploadFile) (url_version : option string) (effective : string)
    (staging : Tree) : result AppError Tree :=
  match url_version with
  | Some url_v =>
      if has_raw staged && has_lma staged && negb (String.eqb url_v effective)
         && is_some (t_dirs staging !! url_v) then
        let? staging := move_raw url_v effective staged staging in
        Ok {| t_dirs := delete url_v (t_dirs staging); t_files := t_files staging |}
      else Ok staging
  | None => Ok staging
  end.

(** [commit_staging]: directories replace their counterparts whole, files overwrite
    theirs, artifacts are left. *)
Definition commit_staging (model : string) (staging : Tree) (repo : Repository) : Repository :=
  let root := model_root repo model in
  {| r_models := <[model := {| t_dirs := t_dirs staging ∪ t_dirs root;
                              t_files := filter (fun nf => ends_with ".lma" (fst nf) = false) (t_files staging)
                                         ∪ t_files root |}]> (r_models repo);
     r_root_artifacts := r_root_artifacts repo; r_artifacts := r_artifacts repo |}.

Fixpoint retain_artifacts (name : string) (staged : list StagedUploadFile) (staging : Tree)
    (artifacts : gmap string bytes) : gmap string bytes :=
  match staged with
  | [] => artifacts
  | f :: staged =>
      retain_artifacts name staged staging
        (if su_is_lma f then
           match t_files staging !! su_name f with Some data => <[name := data]> artifacts | None => artifacts end
         else artifacts)
  end.

Definition remove_linked_artifacts (model version : string) (repo : Repository) : Repository :=
  {| r_models := r_models repo;
     r_root_artifacts := delete (artifact_name model version) (r_root_artifacts repo);
     r_artifacts := delete (artifact_name model version) (r_artifacts repo) |}.

Definition house_keeping (model version : string) (staged : list StagedUploadFile) (staging : Tree)
    (repo : Repository) : Repository :=
  let repo :=
    if has_lma staged then
      {| r_models := r_models repo; r_root_artifacts := r_root_artifacts repo;
         r_artifacts := retain_artifacts (artifact_name model version) staged staging (r_artifacts repo) |}
    else repo in
  if has_raw staged && negb (has_lma staged) then remove_linked_artifacts model version repo else repo.

(** The shared tail of every upload, up to the load. *)
Definition finalize_upload (model : string) (staging : Tree) (staged : list StagedUploadFile)
    (url_version : option string) (force : bool) (repo : Repository)
    : result AppError (string * list string) * Repository :=
  let prepared :=
    let? vs := effective_version model staged url_version staging in
    let? _ := match max_upload_bytes with
              | Some max => if has_lma staged
                            then enforce_unpacked_size_cap (t_files (snd vs) !! "manifest.json") max else Ok tt
              | None => Ok tt
              end in
    let? staging := merge_raw staged url_version (fst vs) (snd vs) in
    Ok (fst vs, staging) in
  match prepared with
  | Err e => (Err e, repo)
  | Ok (version, staging) =>
      if negb force && is_some (t_dirs (model_root repo model) !! version) then
        (Err (Conflict ("version " +:+ version +:+ " of model " +:+ model
                        +:+ " already exists; pass ?force=true to overwrite")), repo)
      else
        (Ok (version, map su_name staged),
         house_keeping model version staged staging (commit_staging model staging repo))
  end.

(** ** The multipart handler *)

(** A field: its file name, if it has one, and the pieces of its body. *)
Record Field := {
  fl_name : option string;
  fl_body : list (result string bytes);
}.

(** [stream_field_to_file]: the field's bytes and the running total, within the limit. *)
Fixpoint stream_field (body : list (result string bytes)) (total : Z) (got : bytes)
    : result AppError (bytes * Z) :=
  match body with
  | [] => Ok (got, total)
  | Err e :: _ => Err (Transport ("read upload field: " +:+ e))
  | Ok data :: body =>
      let total := total + Z.of_nat (length data) in
      match max_upload_bytes with
      | Some max => if max <? total then Err (PayloadTooLarge max (Some total))
                    else stream_field body total (got ++ data)%list
      | None => stream_field body total (got ++ data)%list
      end
  end.

Definition put_file (dir name : string) (data : bytes) (t : Tree) : Tree :=
  {| t_dirs := <[dir := <[name := data]> (default ∅ (t_dirs t !! dir))]> (t_dirs t); t_files := t_files t |}.

Definition put_root_file (name : string) (data : bytes) (t : Tree) : Tree :=
  {| t_dirs := t_dirs t; t_files := <[name := data]> (t_files t) |}.

Fixpoint ingest (version : string) (fields : list Field) (total : Z) (staged : list StagedUploadFile) (staging : Tree)
    : result AppError (list StagedUploadFile * Tree) :=
  match fields with
  | [] => Ok (staged, staging)
  | fl :: fields =>
      let? filename := ok_or (fl_name fl)
        (Validation "multipart field without a filename — uploads carry files only") in
      let safe_name := file_name filename in
      if ends_with ".lma" filename then
        if has_lma staged then Err (InvalidRequestBody "a version upload accepts a single .lma artifact")
        else if bool_decide (safe_name = EmptyString) || starts_with "." safe_name || negb (ends_with ".lma" safe_name)
        then Err (Validation ("invalid .lma file name: " +:+ filename))
        else
          let? dt := stream_field (fl_body fl) total [] in
          ingest version fields (snd dt) (staged ++ [{| su_name := safe_name; su_is_lma := true |}])%list
            (put_root_file safe_name (fst dt) staging)
      else if bool_decide (safe_name = EmptyString) || starts_with "." safe_name
      then ingest version fields total staged staging
      else
        let? dt := stream_field (fl_body fl) total [] in
        ingest version fields (snd dt) (staged ++ [{| su_name := safe_name; su_is_lma := false |}])%list
          (put_file version safe_name (fst dt) staging)
  end.

Definition upload_model_handler (model version : string) (fields : list Field) (force : bool) (repo : Repository)
    : result AppError (string * list string) * Repository :=
  let prepared :=
    let? _ := validate_identifier model in
    let? _ := validate_version version in
    let? st := ingest version fields 0 [] empty_tree in
    if bool_decide (fst st = []) then Err (Validation "no files uploaded") else Ok st in
  match prepared with
  | Err e => (Err e, repo)
  | Ok (staged, staging) => finalize_upload model staging staged (Some version) force repo
  end.
End finalize.

(** ** Sessions *)

Definition CHUNK_SIZE : Z := 16 * 1024 * 1024.
Definition MAX_SESSION_FILES : nat := 1024.
Definition MAX_ACTIVE_SESSIONS : nat := 8.

Record SessionFile := {
  sf_name : string;
  sf_size : Z;
  sf_sha256 : option string;
  sf_is_lma : bool;
}.

Inductive SessionState := Uploading | Completing | Completed.

#[export] Instance SessionState_eq_dec : EqDecision SessionState.
Proof. solve_decision. Defined.

Record SessionMeta := {
  sm_model : string;
  sm_version : string;
  sm_chunk_size : Z;
  sm_files : list SessionFile;
  sm_state : SessionState;
}.

Definition with_state (st : SessionState) (m : SessionMeta) : SessionMeta :=
  {| sm_model := sm_model m; sm_version := sm_version m; sm_chunk_size := sm_chunk_size m;
     sm_files := sm_files m; sm_state := st |}.

(** A staging directory: [session.json], and the chunks under their final names by file
    and chunk index.  The parts being written are private to their requests. *)
Record Staging := {
  sg_meta : option SessionMeta;
  sg_chunks : gmap (nat * Z) bytes;
}.

Abbreviation Stagings := (gmap string Staging) (only parsing).

Record InitFile := {
  if_name : string;
  if_size : Z;
  if_sha256 : option string;
}.

(** [u64::div_ceil]. *)
Definition expected_chunks (size chunk_size : Z) : Z :=
  if size mod chunk_size =? 0 then size / chunk_size else size / chunk_size + 1.

(** The strict length of a chunk. *)
Definition chunk_len (size chunk_size ci : Z) : Z :=
  if ci + 1 =? expected_chunks size chunk_size then size - ci * chunk_size else chunk_size.

Definition sanitize_upload_name (name : string) : result AppError string :=
  let safe := file_name name in
  if bool_decide (safe = EmptyString) || starts_with "." safe
  then Err (Validation ("invalid upload file name: " +:+ name)) else Ok safe.

(** The declared files, and their total size. *)
Fixpoint init_files (fs : list InitFile) (files : list SessionFile) (total : Z)
    : result AppError (list SessionFile * Z) :=
  match fs with
  | [] => Ok (files, total)
  | f :: fs =>
      let? safe := sanitize_upload_name (if_name f) in
      let is_lma := ends_with ".lma" safe in
      if is_lma && existsb sf_is_lma files
      then Err (InvalidRequestBody "a version upload accepts a single .lma artifact")
      else
        init_files fs
          (files ++ [{| sf_name := safe; sf_size := if_size f; sf_sha256 := if_sha256 f; sf_is_lma := is_lma |}])%list
          (Z.min usize_max (total + if_size f))
  end.

Definition session_of (model version : string) (d : Staging) : bool :=
  match sg_meta d with
  | Some m => String.eqb (sm_model m) model && String.eqb (sm_version m) version
  | None => false
  end.

Definition active_sessions (model version : string) (st : Stagings) : nat :=
  length (List.filter (fun d => session_of model version (snd d)) (map_to_list st)).

Section sessions.
Context (is_uuid : string -> bool) (max_upload_bytes : option Z).

(** [create_upload_session]; [sid] is the fresh UUID. *)
Definition create_upload_session (model version : string) (body : list InitFile) (sid : string) (st : Stagings)
    : result AppError (string * Z) * Stagings :=
  let checked :=
    let? _ := validate_identifier model in
    let? _ := validate_version version in
    if bool_decide (body = []) || Nat.ltb MAX_SESSION_FILES (length body)
    then Err (Validation ("a session declares 1..=" +:+ pretty MAX_SESSION_FILES +:+ " files"))
    else
      let? ft := init_files body [] 0 in
      let? _ := match max_upload_bytes with
                | Some max => if max <? snd ft then Err (PayloadTooLarge max (Some (snd ft))) else Ok tt
                | None => Ok tt
                end in
      if Nat.leb MAX_ACTIVE_SESSIONS (active_sessions model version st)
      then Err (Conflict ("too many active upload sessions for " +:+ model +:+ "/" +:+ version +:+ " (max "
                          +:+ pretty MAX_ACTIVE_SESSIONS +:+ "); resume or delete one first"))
      else Ok (fst ft) in
  match checked with
  | Err e => (Err e, st)
  | Ok files =>
      let meta := {| sm_model := model; sm_version := version; sm_chunk_size := CHUNK_SIZE;
                     sm_files := files; sm_state := Uploading |} in
      (Ok (sid, CHUNK_SIZE), <[sid := {| sg_meta := Some meta; sg_chunks := ∅ |}]> st)
  end.

Definition session_not_found : AppError := ModelNotFound "upload session not found".

Definition read_meta (sid : string) (st : Stagings) : result AppError SessionMeta :=
  ok_or (st !! sid ≫= sg_meta) session_not_found.

(** What every request on a session checks first. *)
Definition load_session (model version sid : string) (st : Stagings) : result AppError SessionMeta :=
  let? _ := validate_identifier model in
  let? _ := validate_version version in
  if negb (is_uuid sid) then Err (Validation "invalid session id")
  else
    let? meta := read_meta sid st in
    if String.eqb (sm_model meta) model && String.eqb (sm_version meta) version then Ok meta
    else Err session_not_found.

(** The received chunk indices of one file, in increasing order. *)
Definition scan_received (fi : nat) (d : Staging) : list Z :=
  merge_sort Z.le (omap (fun c => if Nat.eqb (fst (fst c)) fi then Some (snd (fst c)) else None)
                    (map_to_list (sg_chunks d))).

(** One entry of the answer of [get_upload_session]: name, size, received chunks, and
    whether the file is complete. *)
Definition file_status (meta : SessionMeta) (d : Staging) (fi : nat) (f : SessionFile)
    : string * Z * list Z * bool :=
  let received := scan_received fi d in
  (sf_name f, sf_size f, received,
   Z.of_nat (length received) =? expected_chunks (sf_size f) (sm_chunk_size meta)).

Definition get_upload_session (model version sid : string) (st : Stagings)
    : result AppError (SessionState * list (string * Z * list Z * bool)) :=
  let? meta := load_session model version sid st in
  let d := default {| sg_meta := None; sg_chunks := ∅ |} (st !! sid) in
  Ok (sm_state meta, imap (file_status meta d) (sm_files meta)).

(** ** Chunks *)

(** The bounds of a chunk, checked before its body is read: its strict length. *)
Definition put_check (meta : SessionMeta) (fi : nat) (ci : Z) : result AppError Z :=
  let? f := ok_or (sm_files meta !! fi) (Validation ("file index " +:+ pretty fi +:+ " out of range")) in
  let expected := expected_chunks (sf_size f) (sm_chunk_size meta) in
  if expected <=? ci then
    Err (Validation ("chunk index " +:+ pretty ci +:+ " out of range (file " +:+ pretty fi +:+ " expects "
                     +:+ pretty expected +:+ " chunks)"))
  else Ok (chunk_len (sf_size f) (sm_chunk_size meta) ci).

(** The body, piece by piece, into the private part. *)
Fixpoint receive_body (chunk_size ci want : Z) (body : list (result string bytes)) (got : bytes)
    : result AppError bytes :=
  match body with
  | [] =>
      if Z.of_nat (length got) =? want then Ok got
      else Err (InvalidRequestBody ("chunk " +:+ pretty ci +:+ " expects exactly " +:+ pretty want
                                    +:+ " bytes (got " +:+ pretty (Z.of_nat (length got)) +:+ ")"))
  | Err e :: _ => Err (Transport ("read chunk body: " +:+ e))
  | Ok data :: body =>
      let got := (got ++ data)%list in
      let written := Z.of_nat (length got) in
      if want <? written then
        Err (if chunk_size <? written then PayloadTooLarge chunk_size (Some written)
             else InvalidRequestBody ("chunk " +:+ pretty ci +:+ " expects exactly " +:+ pretty want +:+ " bytes"))
      else receive_body chunk_size ci want body got
  end.

(** ** Completion *)

Definition seqZ_to (n : Z) : list Z := map Z.of_nat (seq 0 (Z.to_nat n)).

Fixpoint verify_lengths (d : Staging) (fi : nat) (f : SessionFile) (chunk_size : Z) (cis : list Z)
    : result AppError unit :=
  match cis with
  | [] => Ok tt
  | ci :: cis =>
      let want := chunk_len (sf_size f) chunk_size ci in
      let? data := ok_or (sg_chunks d !! (fi, ci)) (Io "not found") in
      let got := Z.of_nat (length data) in
      if negb (got =? want) then
        Err (InvalidRequestBody ("chunk " +:+ pretty ci +:+ " of '" +:+ sf_name f +:+ "' holds " +:+ pretty got
                                 +:+ " bytes, expected " +:+ pretty want +:+ " — re-upload it"))
      else verify_lengths d fi f chunk_size cis
  end.

Definition verify_chunk_lengths (d : Staging) (fi : nat) (f : SessionFile) (chunk_size : Z) : result AppError unit :=
  verify_lengths d fi f chunk_size (seqZ_to (expected_chunks (sf_size f) chunk_size)).

(** Every declared chunk is there with its length. *)
Fixpoint check_files (d : Staging) (chunk_size : Z) (fi : nat) (files : list SessionFile) : result AppError unit :=
  match files with
  | [] => Ok tt
  | f :: files =>
      let expected := expected_chunks (sf_size f) chunk_size in
      let received := Z.of_nat (length (scan_received fi d)) in
      if negb (received =? expected) then
        Err (Conflict ("file '" +:+ sf_name f +:+ "' is missing " +:+ pretty (wrap64 (expected - received)) +:+ " chunks"))
      else
        let? _ := verify_chunk_lengths d fi f chunk_size in
        check_files d chunk_size (S fi) files
  end.
End sessions.

(** ** Assembly *)

Section complete.
Context (sha256_hex : bytes -> string).

(** The chunks of one file in order; a chunk that is not there is an I/O error. *)
Fixpoint read_chunks (d : Staging) (fi : nat) (cis : list Z) : result AppError bytes :=
  match cis with
  | [] => Ok []
  | ci :: cis =>
      let? data := ok_or (sg_chunks d !! (fi, ci)) (Io "not found") in
      let? rest := read_chunks d fi cis in
      Ok (data ++ rest)%list
  end.

Definition assemble_file (d : Staging) (fi : nat) (f : SessionFile) (chunk_size : Z) : result AppError bytes :=
  let? data := read_chunks d fi (seqZ_to (expected_chunks (sf_size f) chunk_size)) in
  let total := Z.of_nat (length data) in
  if negb (total =? sf_size f) then
    Err (InvalidRequestBody ("assembled size mismatch for '" +:+ sf_name f +:+ "': declared " +:+ pretty (sf_size f)
                             +:+ " bytes, got " +:+ pretty total))
  else
    match sf_sha256 f with
    | Some declared =>
        if negb (String.eqb (sha256_hex data) declared) then
          Err (InvalidRequestBody ("sha256 mismatch for '" +:+ sf_name f +:+ "': declared " +:+ declared
                                   +:+ ", assembled " +:+ sha256_hex data))
        else Ok data
    | None => Ok data
    end.

Fixpoint assemble_files (d : Staging) (meta : SessionMeta) (fi : nat) (files : list SessionFile) (asm : Tree)
    : result AppError Tree :=
  match files with
  | [] => Ok asm
  | f :: files =>
      let? data := assemble_file d fi f (sm_chunk_size meta) in
      assemble_files d meta (S fi) files
        (if sf_is_lma f then put_root_file (sf_name f) data asm
         else put_file (sm_version meta) (sf_name f) data asm)
  end.

Definition staged_of (f : SessionFile) : StagedUploadFile := {| su_name := sf_name f; su_is_lma := sf_is_lma f |}.

Context (unpack : Tree -> bytes -> option string -> result AppError Tree).
Context (parse_manifest : bytes -> result string Manifest) (not_found : string).
Context (is_uuid : string -> bool) (max_upload_bytes : option Z).

Definition assemble_and_finalize (model : string) (d : Staging) (meta : SessionMeta) (force : bool) (repo : Repository)
    : result AppError (string * list string) * Repository :=
  match assemble_files d meta 0 (sm_files meta) empty_tree with
  | Err e => (Err e, repo)
  | Ok asm =>
      finalize_upload unpack parse_manifest not_found max_upload_bytes model asm
        (map staged_of (sm_files meta)) (Some (sm_version meta)) force repo
  end.

(** ** Concurrent requests *)

Inductive Reply :=
  | Received (ci : Z)
  | Uploaded (version : string) (files : list string)
  | Deleted.

Inductive Task :=
  | PutLoaded (sid : string) (fi : nat) (ci : Z) (meta : SessionMeta)    (** before the body *)
  | PutWritten (sid : string) (fi : nat) (ci : Z) (data : bytes)         (** waiting for the lock *)
  | CompleteLoaded (model sid : string) (force : bool)                   (** waiting for the lock *)
  | CompleteLocked (model sid : string) (force : bool) (meta : SessionMeta)
      (** marked [Completing], assembling *)
  | DeleteLoaded (sid : string)                                          (** waiting for the lock *)
  | Finished (r : result AppError Reply)
  | Dropped.                                                             (** its future was dropped *)

Record State := {
  stagings : Stagings;
  locked : gset string;                 (** sessions whose lock a [complete] holds *)
  used : gset string;                   (** session ids handed out: UUIDs are fresh *)
  repo : Repository;
  tasks : list Task;
}.

Definition set_task (i : nat) (t : Task) (s : State) : State :=
  {| stagings := stagings s; locked := locked s; used := used s; repo := repo s; tasks := <[i := t]> (tasks s) |}.

Definition set_stagings (st : Stagings) (s : State) : State :=
  {| stagings := st; locked := locked s; used := used s; repo := repo s; tasks := tasks s |}.

Definition set_locked (l : gset string) (s : State) : State :=
  {| stagings := stagings s; locked := l; used := used s; repo := repo s; tasks := tasks s |}.

Definition set_repo (r : Repository) (s : State) : State :=
  {| stagings := stagings s; locked := locked s; used := used s; repo := r; tasks := tasks s |}.

Definition spawn (t : Task) (s : State) : State :=
  {| stagings := stagings s; locked := locked s; used := used s; repo := repo s; tasks := (tasks s ++ [t])%list |}.

(** [put_session_chunk] up to the body. *)
Definition put_begin (model version sid : string) (fi : nat) (ci : Z) (st : Stagings) : Task :=
  match (let? meta := load_session is_uuid model version sid st in
         let? _ := put_check meta fi ci in Ok meta) with
  | Ok meta => PutLoaded sid fi ci meta
  | Err e => Finished (Err e)
  end.

(** The body: the chunk directory is created if it is gone. *)
Definition put_body (i : nat) (sid : string) (fi : nat) (ci : Z) (meta : SessionMeta)
    (body : list (result string bytes)) (s : State) : State :=
  let st := match stagings s !! sid with
            | Some _ => stagings s
            | None => <[sid := {| sg_meta := None; sg_chunks := ∅ |}]> (stagings s)
            end in
  let r := let? want := put_check meta fi ci in receive_body (sm_chunk_size meta) ci want body [] in
  set_task i (match r with Ok data => PutWritten sid fi ci data | Err e => Finished (Err e) end)
    (set_stagings st s).

(** The critical section of [put_session_chunk]. *)
Definition put_commit (i : nat) (sid : string) (fi : nat) (ci : Z) (data : bytes) (s : State) : State :=
  match read_meta sid (stagings s), stagings s !! sid with
  | Ok meta, Some d =>
      if negb (bool_decide (sm_state meta = Uploading)) then
        set_task i (Finished (Err (Conflict "session is completing; no further chunks accepted"))) s
      else
        set_task i (Finished (Ok (Received ci)))
          (set_stagings (<[sid := {| sg_meta := sg_meta d; sg_chunks := <[(fi, ci) := data]> (sg_chunks d) |}]>
                           (stagings s)) s)
  | _, _ =>       (* the session is gone: sweep what the body recreated *)
      set_task i (Finished (Err session_not_found)) (set_stagings (delete sid (stagings s)) s)
  end.

Definition set_meta (sid : string) (m : SessionMeta) (d : Staging) (st : Stagings) : Stagings :=
  <[sid := {| sg_meta := Some m; sg_chunks := sg_chunks d |}]> st.

(** [complete_upload_session] from the lock to the mark. *)
Definition complete_lock (i : nat) (model sid : string) (force : bool) (s : State) : State :=
  match read_meta sid (stagings s), stagings s !! sid with
  | Ok meta, Some d =>
      if negb (bool_decide (sm_state meta = Uploading)) then
        set_task i (Finished (Err (Conflict "session is already completing"))) s
      else
        match check_files d (sm_chunk_size meta) 0 (sm_files meta) with
        | Err e => set_task i (Finished (Err e)) s
        | Ok _ =>
            set_task i (CompleteLocked model sid force meta)
              (set_locked (locked s ∪ {[sid]})
                 (set_stagings (set_meta sid (with_state Completing meta) d (stagings s)) s))
        end
  | _, _ => set_task i (Finished (Err session_not_found)) s
  end.

(** The rest, under the lock; [removed] says whether the staging directory could be
    removed after a success. *)
Definition complete_finish (i : nat) (model sid : string) (force : bool) (meta : SessionMeta) (removed : bool)
    (s : State) : State :=
  let d := default {| sg_meta := None; sg_chunks := ∅ |} (stagings s !! sid) in
  match assemble_and_finalize model d meta force (repo s) with
  | (Ok (version, files), r) =>
      let st := set_meta sid (with_state Completed meta) d (stagings s) in
      set_task i (Finished (Ok (Uploaded version files)))
        (set_repo r (set_locked (locked s ∖ {[sid]}) (set_stagings (if removed then delete sid st else st) s)))
  | (Err e, r) =>
      set_task i (Finished (Err e))
        (set_repo r (set_locked (locked s ∖ {[sid]})
           (set_stagings (set_meta sid (with_state Uploading meta) d (stagings s)) s)))
  end.

Inductive Action :=
  | Create (model version : string) (body : list InitFile) (sid : string)
  | Put (model version sid : string) (fi : nat) (ci : Z)
  | Body (i : nat) (body : list (result string bytes))
  | Commit (i : nat)
  | Complete (model version sid : string) (force : bool)
  | Lock (i : nat)
  | Finish (i : nat) (removed : bool)
  | Delete (model version sid : string)
  | Remove (i : nat)
  | DropTask (i : nat) (committed : bool).
      (** the client went away; a [complete] may have committed by then *)

(** Steps that need a session's lock wait while a [complete] holds it; sizes and chunk
    indices are unsigned. *)
Definition step (act : Action) (s : State) : option State :=
  match act with
  | Create model version body sid =>
      if bool_decide (sid ∈ used s) || existsb (fun f => if_size f <? 0) body then None
      else
        let '(_, st) := create_upload_session max_upload_bytes model version body sid (stagings s) in
        Some {| stagings := st; locked := locked s; used := used s ∪ {[sid]}; repo := repo s; tasks := tasks s |}
  | Put model version sid fi ci =>
      if ci <? 0 then None else Some (spawn (put_begin model version sid fi ci (stagings s)) s)
  | Body i body =>
      match tasks s !! i with
      | Some (PutLoaded sid fi ci meta) => Some (put_body i sid fi ci meta body s)
      | _ => None
      end
  | Commit i =>
      match tasks s !! i with
      | Some (PutWritten sid fi ci data) =>
          if bool_decide (sid ∈ locked s) then None else Some (put_commit i sid fi ci data s)
      | _ => None
      end
  | Complete model version sid force =>
      Some (spawn (match load_session is_uuid model version sid (stagings s) with
                   | Ok _ => CompleteLoaded model sid force
                   | Err e => Finished (Err e)
                   end) s)
  | Lock i =>
      match tasks s !! i with
      | Some (CompleteLoaded model sid force) =>
          if bool_decide (sid ∈ locked s) then None else Some (complete_lock i model sid force s)
      | _ => None
      end
  | Finish i removed =>
      match tasks s !! i with
      | Some (CompleteLocked model sid force meta) => Some (complete_finish i model sid force meta removed s)
      | _ => None
      end
  | Delete model version sid =>
      Some (spawn (match load_session is_uuid model version sid (stagings s) with
                   | Ok _ => DeleteLoaded sid
                   | Err e => Finished (Err e)
                   end) s)
  | Remove i =>
      match tasks s !! i with
      | Some (DeleteLoaded sid) =>
          if bool_decide (sid ∈ locked s) then None
          else Some (set_task i (Finished (Ok Deleted)) (set_stagings (delete sid (stagings s)) s))
      | _ => None
      end
  | DropTask i committed =>
      match tasks s !! i with
      | Some (CompleteLocked model sid force meta) =>
          let d := default {| sg_meta := None; sg_chunks := ∅ |} (stagings s !! sid) in
          Some (set_task i Dropped
                  (set_repo (if committed then snd (assemble_and_finalize model d meta force (repo s)) else repo s)
                     (set_locked (locked s ∖ {[sid]}) s)))
      | Some (Finished _) | Some Dropped | None => None
      | Some _ => Some (set_task i Dropped s)
      end
  end.

Fixpoint run (acts : list Action) (s : State) : option State :=
  match acts with
  | [] => Some s
  | act :: acts => match step act s with Some s => run acts s | None => None end
  end.
End complete.

Definition initial (r : Repository) : State :=
  {| stagings := ∅; locked := ∅; used := ∅; repo := r; tasks := [] |}.
