(* ===== verification/UploadProps.v ===== *)
(** * Properties of uploads

    About [Upload.v]: in every interleaving of the requests on a session its chunks are
    in bounds and have their strict lengths, so completion is accepted exactly when every
    chunk is there; what is committed is the content the client cut into chunks, whatever
    the order, the retries and the other requests; and the rest of the repository stays
    as it was. *)

From S2P Require Import Prelude Text Errors Registry Validation Upload.
Open Scope string_scope.
Open Scope Z_scope.

(** ** Chunk arithmetic *)

Lemma expected_bounds size cs :
  0 <= size -> 0 < cs ->
  0 <= expected_chunks size cs /\ size <= expected_chunks size cs * cs /\
  (0 < expected_chunks size cs -> (expected_chunks size cs - 1) * cs < size).
Proof.
  intros Hs Hc. unfold expected_chunks. pose proof (Z.div_mod size cs ltac:(lia)) as Hd.
  pose proof (Z.mod_pos_bound size cs Hc). pose proof (Z.div_pos size cs Hs Hc).
  destruct (size mod cs =? 0) eqn:Hm; to_prop; split_and!; nia.
Qed.

Lemma chunk_len_bounds size cs ci :
  0 <= size -> 0 < cs -> 0 <= ci < expected_chunks size cs -> 0 < chunk_len size cs ci <= cs.
Proof.
  intros Hs Hc Hci. destruct (expected_bounds size cs Hs Hc) as (_ & Hle & Hlt). unfold chunk_len.
  destruct (ci + 1 =? expected_chunks size cs) eqn:He; to_prop; [|lia].
  assert (ci = expected_chunks size cs - 1) by lia. nia.
Qed.

(** The chunk [ci] of a file. *)
Definition slice (cs ci : Z) (content : list Z) : list Z :=
  take (Z.to_nat (chunk_len (Z.of_nat (length content)) cs ci)) (drop (Z.to_nat (ci * cs)) content).

Lemma slice_whole (cs k : nat) (l : list Z) :
  (0 < cs)%nat -> (k < Z.to_nat (expected_chunks (Z.of_nat (length l)) (Z.of_nat cs)))%nat ->
  slice (Z.of_nat cs) (Z.of_nat k) l = take cs (drop (k * cs) l).
Proof.
  intros Hcs Hk. unfold slice, chunk_len.
  replace (Z.to_nat (Z.of_nat k * Z.of_nat cs)) with (k * cs)%nat by lia.
  destruct (Z.of_nat k + 1 =? _) eqn:He; [|by rewrite Nat2Z.id]. to_prop.
  destruct (expected_bounds (Z.of_nat (length l)) (Z.of_nat cs)) as (_ & Hle & _); [lia..|].
  rewrite !take_ge; [done|rewrite length_drop; nia..].
Qed.

Lemma concat_takes (cs n : nat) (l : list Z) :
  concat (map (fun k => take cs (drop (k * cs) l)) (seq 0 n)) = take (n * cs) l.
Proof.
  induction n as [|n IH]; [by rewrite take_0|].
  rewrite seq_S, map_app, concat_app, IH. simpl. rewrite app_nil_r.
  rewrite take_take_drop. f_equal. lia.
Qed.

(** The chunks of a file make the file. *)
Lemma concat_slices (cs : Z) (content : list Z) :
  0 < cs ->
  concat (map (fun ci => slice cs ci content) (seqZ_to (expected_chunks (Z.of_nat (length content)) cs))) = content.
Proof.
  intros Hcs. unfold seqZ_to. rewrite map_map. set (n := Z.to_nat (expected_chunks _ cs)).
  transitivity (take (n * Z.to_nat cs) content).
  - rewrite <- concat_takes. f_equal. apply map_ext_in. intros k Hk%in_seq.
    replace cs with (Z.of_nat (Z.to_nat cs)) at 1 by lia.
    apply slice_whole; [lia|]. rewrite Z2Nat.id by lia. fold n. lia.
  - apply take_ge. destruct (expected_bounds (Z.of_nat (length content)) cs) as (Hp & Hle & _); [lia..|]. nia.
Qed.

Lemma slice_length cs ci content :
  0 < cs -> 0 <= ci < expected_chunks (Z.of_nat (length content)) cs ->
  Z.of_nat (length (slice cs ci content)) = chunk_len (Z.of_nat (length content)) cs ci.
Proof.
  intros Hcs Hci. destruct (expected_bounds (Z.of_nat (length content)) cs) as (_ & Hle & Hlt); [lia..|].
  pose proof (chunk_len_bounds (Z.of_nat (length content)) cs ci ltac:(lia) Hcs Hci) as Hl.
  unfold slice. rewrite length_take, length_drop. revert Hl. unfold chunk_len.
  destruct (ci + 1 =? _) eqn:He; to_prop; intros; nia.
Qed.

(** ** One session *)

Lemma receive_body_length cs ci want body got data :
  receive_body cs ci want body got = Ok data -> Z.of_nat (length data) = want.
Proof.
  revert got. induction body as [|[piece|e] body IH]; intros got; simpl; [| |done].
  - destruct (Z.eqb_spec (Z.of_nat (length got)) want); [|done]. by intros [= <-].
  - case_goal; [done|]. apply IH.
Qed.

(** Everything a session directory may hold of a file: chunks in bounds, of their
    strict lengths. *)
Definition chunk_ok (m : SessionMeta) (fi : nat) (ci : Z) (data : list Z) : Prop :=
  0 <= ci /\ put_check m fi ci = Ok (Z.of_nat (length data)).

Lemma chunk_ok_spec m fi ci data :
  chunk_ok m fi ci data <->
  exists f, sm_files m !! fi = Some f /\ 0 <= ci < expected_chunks (sf_size f) (sm_chunk_size m) /\
    Z.of_nat (length data) = chunk_len (sf_size f) (sm_chunk_size m) ci.
Proof.
  unfold chunk_ok, put_check. destruct (sm_files m !! fi) as [f|]; simpl; [|naive_solver].
  destruct (Z.leb_spec (expected_chunks (sf_size f) (sm_chunk_size m)) ci).
  - split; [naive_solver|]. intros (? & [= <-] & ? & _). lia.
  - split.
    + intros [Hci [= Hlen]]. exists f. split_and!; [done|lia|lia|done].
    + intros (? & [= <-] & [? _] & ->). done.
Qed.

Lemma elem_of_seqZ_to n ci : ci ∈ seqZ_to n <-> 0 <= ci < n.
Proof.
  unfold seqZ_to. rewrite list_elem_of_fmap. split.
  - intros (k & -> & Hk%elem_of_seq). lia.
  - intros Hci. exists (Z.to_nat ci). rewrite elem_of_seq. lia.
Qed.

Lemma NoDup_seqZ_to n : NoDup (seqZ_to n).
Proof. unfold seqZ_to. apply NoDup_fmap_2; [apply _|apply NoDup_seq]. Qed.

Lemma length_seqZ_to n : 0 <= n -> Z.of_nat (length (seqZ_to n)) = n.
Proof. intros. unfold seqZ_to. rewrite length_map, length_seq. lia. Qed.

(** The indices [scan_received] sorts. *)
Lemma scan_received_perm fi d :
  scan_received fi d ≡ₚ
  omap (fun c => if Nat.eqb (fst (fst c)) fi then Some (snd (fst c)) else None) (map_to_list (sg_chunks d)).
Proof. apply merge_sort_Permutation. Qed.

Lemma elem_of_scan_received fi d ci : ci ∈ scan_received fi d <-> is_some (sg_chunks d !! (fi, ci)) = true.
Proof.
  rewrite scan_received_perm, list_elem_of_omap. split.
  - intros ([[fi' ci'] data] & Hin%elem_of_map_to_list & Heq). simpl in Heq.
    destruct (Nat.eqb_spec fi' fi); [|done]. injection Heq as <-. subst. by rewrite Hin.
  - destruct (sg_chunks d !! (fi, ci)) as [data|] eqn:Hd; [|done]. intros _.
    exists ((fi, ci), data). rewrite elem_of_map_to_list. simpl. by rewrite Nat.eqb_refl.
Qed.

Lemma NoDup_scan_received fi d : NoDup (scan_received fi d).
Proof.
  rewrite scan_received_perm. pose proof (NoDup_fst_map_to_list (sg_chunks d)) as Hnd.
  induction (map_to_list (sg_chunks d)) as [|[[fi' ci'] data] l IH]; simpl; [constructor|].
  simpl in Hnd. apply NoDup_cons in Hnd as [Hout Hnd].
  destruct (Nat.eqb_spec fi' fi); [|by apply IH]. subst. apply NoDup_cons. split; [|by apply IH].
  rewrite list_elem_of_omap. intros ([[f2 c2] data2] & Hin & Heq). simpl in Heq.
  destruct (Nat.eqb_spec f2 fi); [|done]. injection Heq as <-. subst. apply Hout.
  apply list_elem_of_fmap. by exists (fi, c2, data2).
Qed.

(** All chunks of a file are there. *)
Definition all_chunks (d : Staging) (cs : Z) (fi : nat) (f : SessionFile) : Prop :=
  forall ci, 0 <= ci < expected_chunks (sf_size f) cs -> is_some (sg_chunks d !! (fi, ci)) = true.

Lemma received_within m d fi f :
  0 < sm_chunk_size m -> 0 <= sf_size f -> sm_files m !! fi = Some f ->
  (forall ci data, sg_chunks d !! (fi, ci) = Some data -> chunk_ok m fi ci data) ->
  let expected := expected_chunks (sf_size f) (sm_chunk_size m) in
  Z.of_nat (length (scan_received fi d)) <= expected /\
  (Z.of_nat (length (scan_received fi d)) = expected <-> all_chunks d (sm_chunk_size m) fi f).
Proof.
  intros Hcs Hsz Hf Hok expected. subst expected.
  set (expected := expected_chunks (sf_size f) (sm_chunk_size m)).
  assert (Hp : 0 <= expected) by (by apply expected_bounds).
  assert (Hsub : scan_received fi d ⊆+ seqZ_to expected).
  { apply NoDup_submseteq; [apply NoDup_scan_received|]. intros ci Hin%elem_of_scan_received.
    destruct (sg_chunks d !! (fi, ci)) as [data|] eqn:Hd; [|done].
    apply Hok, chunk_ok_spec in Hd as (f' & Hf' & Hci & _). apply elem_of_seqZ_to. assert (f' = f) as -> by congruence. done. }
  pose proof (submseteq_length _ _ Hsub) as Hlen. pose proof (length_seqZ_to expected Hp) as Hseq.
  split; [lia|]. split.
  - intros Heq ci Hci. apply elem_of_scan_received.
    rewrite (submseteq_length_Permutation _ _ Hsub) by lia. by apply elem_of_seqZ_to.
  - intros Hall. enough (seqZ_to expected ⊆+ scan_received fi d) as Hsub' by (apply submseteq_length in Hsub'; lia).
    apply NoDup_submseteq; [apply NoDup_seqZ_to|]. intros ci Hci%elem_of_seqZ_to.
    apply elem_of_scan_received. by apply Hall.
Qed.

Lemma verify_lengths_ok m d fi f cis :
  sm_files m !! fi = Some f ->
  (forall ci data, sg_chunks d !! (fi, ci) = Some data -> chunk_ok m fi ci data) ->
  (forall ci, ci ∈ cis -> is_some (sg_chunks d !! (fi, ci)) = true) ->
  verify_lengths d fi f (sm_chunk_size m) cis = Ok tt.
Proof.
  intros Hf Hok. induction cis as [|ci cis IH]; intros Hall; simpl; [done|].
  destruct (sg_chunks d !! (fi, ci)) as [data|] eqn:Hd;
    [|specialize (Hall ci ltac:(by left)); by rewrite Hd in Hall]. simpl.
  apply Hok, chunk_ok_spec in Hd as (f' & Hf' & _ & ->). replace f' with f by congruence.
  rewrite Z.eqb_refl. simpl. apply IH. intros ci' Hin. apply Hall. by right.
Qed.

(** A directory as the invariant describes it. *)
Definition dir_ok (m : SessionMeta) (d : Staging) : Prop :=
  0 < sm_chunk_size m /\ Forall (fun f => 0 <= sf_size f) (sm_files m) /\
  forall fi ci data, sg_chunks d !! (fi, ci) = Some data -> chunk_ok m fi ci data.

(** Completion accepts exactly the sessions with every chunk there. *)
Lemma check_files_spec m d k files :
  dir_ok m d -> drop k (sm_files m) = files ->
  check_files d (sm_chunk_size m) k files = Ok tt <->
  forall j f, files !! j = Some f -> all_chunks d (sm_chunk_size m) (k + j) f.
Proof.
  intros (Hcs & Hsz & Hok). revert k. induction files as [|f files IH]; intros k Hdrop; simpl.
  { split; [|done]. intros _ j f Hj. by rewrite lookup_nil in Hj. }
  assert (Hf : sm_files m !! k = Some f).
  { rewrite <- (Nat.add_0_r k), <- lookup_drop, Hdrop. done. }
  assert (Hdrop' : drop (S k) (sm_files m) = files).
  { rewrite <- Nat.add_1_r, <- drop_drop, Hdrop. done. }
  assert (0 <= sf_size f) as Hfs by (by eapply Forall_lookup_1 in Hsz).
  destruct (received_within m d k f Hcs Hfs Hf (Hok k)) as [_ Hrec].
  assert (Hsplit : (forall j f0, (f :: files) !! j = Some f0 -> all_chunks d (sm_chunk_size m) (k + j) f0) <->
    all_chunks d (sm_chunk_size m) k f /\
    (forall j f0, files !! j = Some f0 -> all_chunks d (sm_chunk_size m) (S k + j) f0)).
  { split.
    - intros Hall. split; [rewrite <- (Nat.add_0_r k); by apply Hall|]. intros j f0 Hj.
      replace (S k + j)%nat with (k + S j)%nat by lia. by apply Hall.
    - intros [H0 Hall] [|j] f0 Hj; [injection Hj as <-; by rewrite Nat.add_0_r|].
      replace (k + S j)%nat with (S k + j)%nat by lia. by apply Hall. }
  rewrite Hsplit, <- (IH (S k) Hdrop').
  destruct (Z.eqb_spec (Z.of_nat (length (scan_received k d))) (expected_chunks (sf_size f) (sm_chunk_size m))) as [He|He]; simpl.
  - assert (all_chunks d (sm_chunk_size m) k f) as Hall by (by apply Hrec).
    unfold verify_chunk_lengths. rewrite (verify_lengths_ok m d k f); [simpl; naive_solver|done|apply Hok|].
    intros ci Hci%elem_of_seqZ_to. by apply Hall.
  - split; [done|]. intros [Hall _]. apply Hrec in Hall. done.
Qed.

(** ** Every interleaving *)

Definition good_meta (m : SessionMeta) : Prop :=
  sm_chunk_size m = CHUNK_SIZE /\ Forall (fun f => 0 <= sf_size f) (sm_files m).

Definition locked_on (t : Task) : option string :=
  match t with CompleteLocked _ sid _ _ => Some sid | _ => None end.

Definition task_sid (t : Task) : option string :=
  match t with
  | PutLoaded sid _ _ _ | PutWritten sid _ _ _ | CompleteLoaded _ sid _ | CompleteLocked _ sid _ _
  | DeleteLoaded sid => Some sid
  | Finished _ | Dropped => None
  end.

Section invariant.
Context (sha256_hex : list Z -> string) (unpack : Tree -> list Z -> option string -> result AppError Tree).
Context (parse_manifest : list Z -> result string Manifest) (not_found : string).
Context (is_uuid : string -> bool) (max_upload_bytes : option Z).

(** What is known of the bytes of a chunk: [P sid fi ci data]. *)
Context (P : string -> nat -> Z -> list Z -> Prop).

Abbreviation step := (step sha256_hex unpack parse_manifest not_found is_uuid max_upload_bytes).
Abbreviation run := (run sha256_hex unpack parse_manifest not_found is_uuid max_upload_bytes).

(** The invariant, for the declarations [b] of the sessions. *)
Definition task_ok (b : string -> SessionMeta) (st : gmap string Staging) (l : gset string) (t : Task) : Prop :=
  match t with
  | PutLoaded sid fi ci meta =>
      with_state Uploading meta = b sid /\ 0 <= ci /\ is_ok (put_check meta fi ci) = true
  | PutWritten sid fi ci data => chunk_ok (b sid) fi ci data /\ P sid fi ci data
  | CompleteLocked _ sid _ meta =>
      sid ∈ l /\ with_state Uploading meta = b sid /\
      exists d, st !! sid = Some d /\ sg_meta d = Some (with_state Completing meta) /\
        check_files d (sm_chunk_size meta) 0 (sm_files meta) = Ok tt
  | _ => True
  end.

Definition staging_ok (b : string -> SessionMeta) (sid : string) (d : Staging) : Prop :=
  (forall m, sg_meta d = Some m -> with_state Uploading m = b sid) /\
  forall fi ci data, sg_chunks d !! (fi, ci) = Some data ->
    chunk_ok (b sid) fi ci data /\ P sid fi ci data /\ is_some (sg_meta d) = true.

Record inv (b : string -> SessionMeta) (s : State) : Prop := {
  iv_good : forall sid, good_meta (b sid);
  iv_used : forall sid d, stagings s !! sid = Some d -> sid ∈ used s;
  iv_tasks_used : forall i t sid, tasks s !! i = Some t -> task_sid t = Some sid -> sid ∈ used s;
  iv_dirs : forall sid d, stagings s !! sid = Some d -> staging_ok b sid d;
  iv_tasks : forall i t, tasks s !! i = Some t -> task_ok b (stagings s) (locked s) t;
  iv_unique : forall i j t t' sid, tasks s !! i = Some t -> tasks s !! j = Some t' ->
    locked_on t = Some sid -> locked_on t' = Some sid -> i = j;
  iv_holder : forall sid, sid ∈ locked s -> exists i t, tasks s !! i = Some t /\ locked_on t = Some sid;
}.

Lemma put_check_state st m fi ci : put_check (with_state st m) fi ci = put_check m fi ci.
Proof. done. Qed.

Lemma session_set_task b s i t0 t :
  inv b s -> tasks s !! i = Some t0 -> locked_on t0 = None -> task_ok b (stagings s) (locked s) t -> locked_on t = None ->
  (forall sid, task_sid t = Some sid -> sid ∈ used s) -> inv b (set_task i t s).
Proof.
  intros [Ig Iu It Id Ik Iq Ih] Hi Hold Ht Hl Hu. split; simpl; try done.
  - intros j t' sid Hj%list_lookup_insert_Some Hs.
    destruct Hj as [(<- & <- & _)|[_ Hj]]; [by apply Hu|by eapply It].
  - intros j t' Hj%list_lookup_insert_Some. destruct Hj as [(<- & <- & _)|[_ Hj]]; [done|by eapply Ik].
  - intros j k t1 t2 sid Hj%list_lookup_insert_Some Hk%list_lookup_insert_Some H1 H2.
    destruct Hj as [(<- & <- & _)|[_ Hj]], Hk as [(<- & <- & _)|[_ Hk]]; [done|congruence|congruence|].
    by eapply Iq.
  - intros sid Hin. destruct (Ih sid Hin) as (j & t' & Hj & Hl'). exists j, t'. split; [|done].
    rewrite list_lookup_insert_ne; [done|]. intros <-. congruence.
Qed.

Lemma inv_spawn b s t :
  inv b s -> task_ok b (stagings s) (locked s) t -> locked_on t = None ->
  (forall sid, task_sid t = Some sid -> sid ∈ used s) -> inv b (spawn t s).
Proof.
  intros [Ig Iu It Id Ik Iq Ih] Ht Hl Hu.
  assert (Hnew : forall j t', (tasks s ++ [t])%list !! j = Some t' -> tasks s !! j = Some t' \/ t' = t).
  { intros j t' [?|[_ Hj]]%lookup_app_Some; [by left|]. right. by apply list_lookup_singleton_Some in Hj as [_ ->]. }
  split; simpl; try done.
  - intros j t' sid [Hj| ->]%Hnew Hs; [by eapply It|by apply Hu].
  - intros j t' [Hj| ->]%Hnew; [by eapply Ik|done].
  - intros j k t1 t2 sid Hj Hk H1 H2. apply Hnew in Hj as [Hj| ->]; [|congruence].
    apply Hnew in Hk as [Hk| ->]; [|congruence]. by eapply Iq.
  - intros sid Hin. destruct (Ih sid Hin) as (j & t' & Hj & Hl'). exists j, t'. split; [|done].
    by apply lookup_app_l_Some.
Qed.

(** A directory whose lock nobody holds changes. *)
Lemma inv_set_stagings b s sid st :
  inv b s -> sid ∉ locked s -> (forall k, k <> sid -> st !! k = stagings s !! k) ->
  (forall d, st !! sid = Some d -> sid ∈ used s /\ staging_ok b sid d) -> inv b (set_stagings st s).
Proof.
  intros [Ig Iu It Id Ik Iq Ih] Hfree Hother Hsid. split; simpl; try done.
  - intros k d Hk. destruct (decide (k = sid)) as [->|Hne]; [by eapply Hsid|]. rewrite Hother in Hk by done. by eapply Iu.
  - intros k d Hk. destruct (decide (k = sid)) as [->|Hne]; [by eapply Hsid|]. rewrite Hother in Hk by done. by apply Id.
  - intros i t Hi. specialize (Ik i t Hi). destruct t; try done. destruct Ik as (Hin & ? & Hd).
    split_and!; [done|done|]. rewrite Hother; [done|]. intros ->. done.
Qed.

(** The holder of a lock ends: its task, its directory and the lock change together. *)
Lemma inv_unlock b s i t sid st t' :
  inv b s -> tasks s !! i = Some t -> locked_on t = Some sid -> task_sid t' = None ->
  (forall k, k <> sid -> st !! k = stagings s !! k) ->
  (forall d, st !! sid = Some d -> staging_ok b sid d) ->
  forall r, inv b (set_task i t' (set_repo r (set_locked (locked s ∖ {[sid]}) (set_stagings st s)))).
Proof.
  intros [Ig Iu It Id Ik Iq Ih] Hi Hl Ht' Hother Hsid r.
  assert (Hused : sid ∈ used s) by (eapply It; [done|by destruct t; try done; injection Hl as ->]).
  assert (Hnone : locked_on t' = None) by (by destruct t').
  split; simpl; try done.
  - intros k d Hk. destruct (decide (k = sid)) as [->|Hne]; [done|]. rewrite Hother in Hk by done. by eapply Iu.
  - intros j t2 k Hj%list_lookup_insert_Some Hs. destruct Hj as [(<- & <- & _)|[_ Hj]]; [congruence|by eapply It].
  - intros k d Hk. destruct (decide (k = sid)) as [->|Hne]; [by apply Hsid|]. rewrite Hother in Hk by done. by apply Id.
  - intros j t2 Hj%list_lookup_insert_Some. destruct Hj as [(<- & <- & _)|[Hne Hj]]; [by destruct t'|].
    pose proof (Ik j t2 Hj) as Hok. destruct t2 as [| | |model2 sid2 force2 meta2| | |]; try done.
    destruct Hok as (Hin & ? & Hd).
    assert (sid2 <> sid) as Hns.
    { intros ->. apply Hne. by eapply (Iq i j). }
    split_and!; [set_solver|done|]. by rewrite Hother.
  - intros j k t1 t2 x Hj%list_lookup_insert_Some Hk%list_lookup_insert_Some H1 H2.
    destruct Hj as [(<- & <- & _)|[_ Hj]], Hk as [(<- & <- & _)|[_ Hk]]; [done|congruence|congruence|].
    by eapply Iq.
  - intros k [Hin Hne]%elem_of_difference. destruct (Ih k Hin) as (j & t2 & Hj & Hl2). exists j, t2. split; [|done].
    rewrite list_lookup_insert_ne; [done|]. intros <-. assert (k = sid) by congruence. set_solver.
Qed.

Lemma load_session_ok model version sid st m :
  load_session is_uuid model version sid st = Ok m ->
  exists d, st !! sid = Some d /\ sg_meta d = Some m.
Proof.
  unfold load_session. destruct (validate_identifier model); [|done]. destruct (validate_version version); [|done].
  simpl. destruct (is_uuid sid); [|done]. simpl. unfold read_meta.
  destruct (st !! sid) as [d|] eqn:Hd; [|done]. simpl. destruct (sg_meta d) as [m'|] eqn:Hm; [|done]. simpl.
  destruct (_ && _); [|done]. intros [= <-]. by exists d.
Qed.

Lemma read_meta_ok sid st m :
  read_meta sid st = Ok m -> exists d, st !! sid = Some d /\ sg_meta d = Some m.
Proof.
  unfold read_meta. destruct (st !! sid) as [d|] eqn:Hd; [|done]. simpl.
  destruct (sg_meta d) as [m'|] eqn:Hm; [|done]. intros [= <-]. by exists d.
Qed.

(** What the bodies that are received hold. *)
Definition honest (act : Action) (s : State) : Prop :=
  match act with
  | Body i body =>
      match tasks s !! i with
      | Some (PutLoaded sid fi ci meta) =>
          match (let? want := put_check meta fi ci in receive_body (sm_chunk_size meta) ci want body []) with
          | Ok data => P sid fi ci data
          | Err _ => True
          end
      | _ => True
      end
  | _ => True
  end.

Fixpoint honest_run (acts : list Action) (s : State) : Prop :=
  match acts with
  | [] => True
  | act :: acts => honest act s /\ match step act s with Some s => honest_run acts s | None => True end
  end.

Lemma init_files_sizes fs files total files' total' :
  existsb (fun f => if_size f <? 0) fs = false -> Forall (fun f => 0 <= sf_size f) files ->
  init_files fs files total = Ok (files', total') -> Forall (fun f => 0 <= sf_size f) files'.
Proof.
  revert files total. induction fs as [|f fs IH]; intros files total Hneg Hf; simpl; [by intros [= <- <-]|].
  simpl in Hneg. apply orb_false_iff in Hneg as [Hneg Hnegs]. to_prop.
  destruct (sanitize_upload_name _); [|done]. simpl. case_goal; [done|]. apply IH; [done|].
  apply Forall_app. split; [done|]. constructor; [simpl; lia|constructor].
Qed.

Definition any_meta : SessionMeta :=
  {| sm_model := ""; sm_version := ""; sm_chunk_size := CHUNK_SIZE; sm_files := []; sm_state := Uploading |}.

Lemma create_spec model version body sid st r st' :
  existsb (fun f => if_size f <? 0) body = false ->
  create_upload_session max_upload_bytes model version body sid st = (r, st') ->
  st' = st \/ exists m, good_meta m /\ sm_state m = Uploading /\
    st' = <[sid := {| sg_meta := Some m; sg_chunks := ∅ |}]> st.
Proof.
  intros Hneg. unfold create_upload_session.
  destruct (validate_identifier model); cbn [result_bind snd]; [|intros [= <- <-]; by left].
  destruct (validate_version version); cbn [result_bind snd]; [|intros [= <- <-]; by left].
  destruct (_ || _); [intros [= <- <-]; by left|].
  destruct (init_files body [] 0) as [[files total]|] eqn:Hf; cbn [result_bind snd]; [|intros [= <- <-]; by left].
  destruct (match max_upload_bytes with Some _ => _ | None => _ end); cbn [result_bind snd]; [|intros [= <- <-]; by left].
  case_goal; [intros [= <- <-]; by left|]. intros [= <- <-]. right. eexists. split; [|split; [|reflexivity]]; [|done].
  split; [done|]. simpl. by eapply init_files_sizes.
Qed.

(** Changing the declarations of unused sessions changes nothing. *)
Lemma inv_declare b b' s :
  inv b s -> (forall sid, good_meta (b' sid)) -> (forall sid, sid ∈ used s -> b' sid = b sid) -> inv b' s.
Proof.
  intros [Ig Iu It Id Ik Iq Ih] Hgood Heq. split; try done.
  - intros sid d Hd. specialize (Id sid d Hd). unfold staging_ok in *. by rewrite Heq by (by eapply Iu).
  - intros i t Hi. pose proof (Ik i t Hi) as Hok.
    destruct t; try done; simpl in *; rewrite Heq by (by eapply It); done.
Qed.

Lemma inv_create b s sid st' m :
  inv b s -> sid ∉ used s -> good_meta m -> sm_state m = Uploading ->
  st' = stagings s \/ st' = <[sid := {| sg_meta := Some m; sg_chunks := ∅ |}]> (stagings s) ->
  exists b', inv b' {| stagings := st'; locked := locked s; used := used s ∪ {[sid]}; repo := repo s; tasks := tasks s |} /\
    forall k, k ∈ used s -> b' k = b k.
Proof.
  intros Hinv Hfresh Hgood Hup Hst. set (b' := fun k => if decide (k = sid) then m else b k). exists b'.
  assert (Hb : forall k, k ∈ used s -> b' k = b k).
  { intros k Hk. unfold b'. rewrite decide_False; [done|]. by intros ->. }
  split; [|done]. assert (inv b' s) as [Ig Iu It Id Ik Iq Ih].
  { eapply inv_declare; [exact Hinv| |done]. intros k. unfold b'. destruct (decide (k = sid)); [done|apply Hinv]. }
  assert (Hfree : stagings s !! sid = None).
  { destruct (stagings s !! sid) eqn:Hd; [|done]. by destruct Hfresh; eapply Iu. }
  assert (Hother : forall k, k <> sid -> st' !! k = stagings s !! k).
  { intros k Hk. destruct Hst as [->| ->]; [done|]. by rewrite lookup_insert_ne. }
  split; simpl; try done.
  - intros k d Hk. destruct (decide (k = sid)) as [->|Hne]; [set_solver|]. rewrite Hother in Hk by done.
    apply elem_of_union_l. by eapply Iu.
  - intros i t k Hi Hs. apply elem_of_union_l. by eapply It.
  - intros k d Hk. destruct (decide (k = sid)) as [->|Hne]; [|rewrite Hother in Hk by done; by apply Id].
    destruct Hst as [->| ->]; [by rewrite Hfree in Hk|]. rewrite lookup_insert_eq in Hk. injection Hk as <-.
    split; simpl; [|by intros fi ci data; rewrite lookup_empty]. intros m' [= <-]. unfold b'. rewrite decide_True by done.
    unfold with_state. destruct m; simpl in *. by subst.
  - intros i t Hi. pose proof (Ik i t Hi) as Hok. destruct t; try done. destruct Hok as (? & ? & d & Hd & ?).
    split_and!; [done|done|]. exists d. split; [|done]. rewrite Hother; [done|]. intros ->. congruence.
Qed.

Lemma inv_put b s model version sid fi ci :
  inv b s -> 0 <= ci -> inv b (spawn (put_begin is_uuid model version sid fi ci (stagings s)) s).
Proof.
  intros Hinv Hci. unfold put_begin. destruct (load_session _ _ _ _ _) as [meta|] eqn:Hl; simpl; [|by apply inv_spawn].
  destruct (put_check meta fi ci) eqn:Hp; simpl; [|by apply inv_spawn].
  apply load_session_ok in Hl as (d & Hd & Hm). apply inv_spawn; [done| |done|].
  - simpl. rewrite Hp. split_and!; [|done|done]. by eapply (iv_dirs _ _ Hinv sid d Hd).
  - intros ? [= <-]. by eapply iv_used.
Qed.

Lemma inv_body b s i sid fi ci meta body :
  inv b s -> tasks s !! i = Some (PutLoaded sid fi ci meta) -> honest (Body i body) s ->
  inv b (put_body i sid fi ci meta body s).
Proof.
  intros Hinv Hi Hhon. pose proof (iv_tasks _ _ Hinv _ _ Hi) as (Hb & Hci & Hpc).
  pose proof (iv_tasks_used _ _ Hinv _ _ sid Hi eq_refl) as Hused. unfold put_body.
  assert (inv b (set_stagings match stagings s !! sid with
      | Some _ => stagings s
      | None => <[sid := {| sg_meta := None; sg_chunks := ∅ |}]> (stagings s) end s)) as Hinv'.
  { destruct (stagings s !! sid) as [d|] eqn:Hd; [by destruct s|].
    apply inv_set_stagings with sid; [done| |intros; by rewrite lookup_insert_ne|].
    - intros Hin. destruct (iv_holder _ _ Hinv sid Hin) as (j & t & Hj & Hl).
      pose proof (iv_tasks _ _ Hinv _ _ Hj) as Hok. destruct t; try done. injection Hl as ->.
      destruct Hok as (_ & _ & d & Hd' & _). congruence.
    - intros d. rewrite lookup_insert_eq. intros [= <-]. split; [done|].
      split; simpl; [done|]. intros fi' ci' data'. by rewrite lookup_empty. }
  destruct (put_check meta fi ci) as [want|] eqn:Hp; [|done]. simpl.
  destruct (receive_body _ _ _ _ _) as [data|] eqn:Hr; (eapply session_set_task; [done|exact Hi|done| |done|]); try done.
  - simpl in Hhon. rewrite Hi, Hp in Hhon. simpl in Hhon. rewrite Hr in Hhon.
    simpl. split; [|exact Hhon]. split; [done|]. rewrite <- Hb, put_check_state, Hp.
    by apply receive_body_length in Hr as ->.
  - intros ? [= <-]. done.
Qed.

Lemma inv_commit b s i sid fi ci data :
  inv b s -> tasks s !! i = Some (PutWritten sid fi ci data) -> sid ∉ locked s ->
  inv b (put_commit i sid fi ci data s).
Proof.
  intros Hinv Hi Hfree. pose proof (iv_tasks _ _ Hinv _ _ Hi) as [Hc HP]. unfold put_commit.
  assert (Hgone : inv b (set_task i (Finished (Err session_not_found)) (set_stagings (delete sid (stagings s)) s))).
  { eapply session_set_task; [|exact Hi|done..]. apply inv_set_stagings with sid; [done|done| |].
    - intros k Hk. by rewrite lookup_delete_ne.
    - intros d. by rewrite lookup_delete_eq. }
  destruct (read_meta sid (stagings s)) as [meta|] eqn:Hm; [|done].
  apply read_meta_ok in Hm as (d & Hd & Hm). rewrite Hd. case_bool_decide; simpl.
  - eapply session_set_task; [|exact Hi|done..]. apply inv_set_stagings with sid; [done|done| |].
    + intros k Hk. by rewrite lookup_insert_ne.
    + intros d'. rewrite lookup_insert_eq. intros [= <-]. split; [by eapply iv_used|].
      destruct (iv_dirs _ _ Hinv sid d Hd) as [Hmeta Hchunks]. split; simpl; [done|].
      intros fi' ci' data'. rewrite lookup_insert_Some.
      intros [[[= <- <-] <-]|[_ Hl]]; [|by apply Hchunks]. by rewrite Hm.
  - eapply session_set_task; [done|exact Hi|done..].
Qed.

Lemma staging_ok_state b sid d m st :
  staging_ok b sid d -> sg_meta d = Some m ->
  staging_ok b sid {| sg_meta := Some (with_state st m); sg_chunks := sg_chunks d |}.
Proof.
  intros [Hm Hc] Hd. split; simpl.
  - intros m' [= <-]. rewrite <- (Hm m Hd). done.
  - intros fi ci data Hl. by destruct (Hc _ _ _ Hl) as (? & ? & _).
Qed.

(** The check looks at the chunks only. *)
Lemma check_files_chunks d d' cs fi files :
  sg_chunks d = sg_chunks d' -> check_files d cs fi files = check_files d' cs fi files.
Proof.
  intros Heq. assert (Hv : forall k f cis, verify_lengths d k f cs cis = verify_lengths d' k f cs cis).
  { intros k f cis. induction cis as [|ci cis IH]; simpl; [done|]. rewrite Heq.
    destruct (sg_chunks d' !! (k, ci)); simpl; [|done]. by rewrite IH. }
  revert fi. induction files as [|f files IH]; intros fi; simpl; [done|].
  unfold verify_chunk_lengths, scan_received. rewrite Heq, Hv. by rewrite IH.
Qed.

Lemma inv_lock b s i model sid force :
  inv b s -> tasks s !! i = Some (CompleteLoaded model sid force) -> sid ∉ locked s ->
  inv b (complete_lock i model sid force s).
Proof.
  intros Hinv Hi Hfree. unfold complete_lock.
  assert (Hfail : forall e, inv b (set_task i (Finished (Err e)) s)) by (intros; by eapply session_set_task).
  destruct (read_meta sid (stagings s)) as [meta|] eqn:Hm; [|apply Hfail].
  apply read_meta_ok in Hm as (d & Hd & Hm). rewrite Hd. case_bool_decide as Hup; simpl; [|apply Hfail].
  destruct (check_files _ _ _ _) as [[]|] eqn:Hck; [|apply Hfail].
  assert (Hinv' : inv b (set_stagings (set_meta sid (with_state Completing meta) d (stagings s)) s)).
  { apply inv_set_stagings with sid; [done|done|intros k Hk; unfold set_meta; by rewrite lookup_insert_ne|].
    intros d'. unfold set_meta. rewrite lookup_insert_eq. intros [= <-]. split; [by eapply iv_used|].
    eapply staging_ok_state; [by apply (iv_dirs _ _ Hinv)|done]. }
  destruct Hinv' as [Ig Iu It Id Ik Iq Ih]. simpl in *.
  assert (Hnone : forall j t, tasks s !! j = Some t -> locked_on t <> Some sid).
  { intros j t Hj Hl. pose proof (Ik j t Hj) as Hok. destruct t; try done. injection Hl as ->. by destruct Hok. }
  split; simpl; try done.
  - intros j t k Hj%list_lookup_insert_Some Hs. destruct Hj as [(<- & <- & _)|[_ Hj]]; [|by eapply It].
    by apply (It i _ k Hi).
  - intros j t Hj%list_lookup_insert_Some. destruct Hj as [(<- & <- & _)|[_ Hj]].
    + split_and!; [set_solver|by eapply (iv_dirs _ _ Hinv)|]. eexists. unfold set_meta.
      rewrite lookup_insert_eq. split; [done|]. split; [done|]. rewrite <- Hck. by apply check_files_chunks.
    + pose proof (Ik j t Hj) as Hok. destruct t; try done. destruct Hok as (? & ? & ?). split_and!; [set_solver|done|done].
  - intros j k t1 t2 x Hj%list_lookup_insert_Some Hk%list_lookup_insert_Some H1 H2.
    destruct Hj as [(<- & <- & _)|[_ Hj]], Hk as [(<- & <- & _)|[_ Hk]]; [done| | |by eapply Iq].
    + injection H1 as <-. by destruct (Hnone k t2).
    + injection H2 as <-. by destruct (Hnone j t1).
  - intros k [Hin| ->%elem_of_singleton]%elem_of_union.
    + destruct (Ih k Hin) as (j & t & Hj & Hl). exists j, t. split; [|done].
      rewrite list_lookup_insert_ne; [done|]. intros <-. rewrite Hi in Hj. injection Hj as <-. done.
    + exists i. eexists. split; [apply list_lookup_insert_eq; by eapply lookup_lt_Some|]. done.
Qed.

Lemma inv_finish b s i model sid force meta removed :
  inv b s -> tasks s !! i = Some (CompleteLocked model sid force meta) ->
  inv b (complete_finish sha256_hex unpack parse_manifest not_found max_upload_bytes i model sid force meta removed s).
Proof.
  intros Hinv Hi. pose proof (iv_tasks _ _ Hinv _ _ Hi) as (_ & Hb & d & Hd & Hm & _).
  unfold complete_finish. rewrite Hd. simpl.
  assert (Hok : forall st, staging_ok b sid {| sg_meta := Some (with_state st meta); sg_chunks := sg_chunks d |}).
  { intros st. pose proof (staging_ok_state b sid d _ st (iv_dirs _ _ Hinv sid d Hd) Hm) as Hs. exact Hs. }
  assert (Hset : forall st k, k <> sid -> set_meta sid (with_state st meta) d (stagings s) !! k = stagings s !! k).
  { intros st k Hk. unfold set_meta. by rewrite lookup_insert_ne. }
  assert (Hsid : forall st d', set_meta sid (with_state st meta) d (stagings s) !! sid = Some d' -> staging_ok b sid d').
  { intros st d'. unfold set_meta. rewrite lookup_insert_eq. intros [= <-]. apply Hok. }
  destruct (assemble_and_finalize _ _ _ _ _ _ _ _ _ _) as [[[version files]|e] r];
    (eapply (inv_unlock b s i _ sid); [done|exact Hi|done|done| |]).
  - intros k Hk. destruct removed; [rewrite lookup_delete_ne by done|]; by apply Hset.
  - intros d'. destruct removed; [by rewrite lookup_delete_eq|apply Hsid].
  - intros k Hk. by apply Hset.
  - intros d'. apply Hsid.
Qed.

Lemma step_keeps_inv b s act s' :
  inv b s -> honest act s -> step act s = Some s' ->
  exists b', inv b' s' /\ forall sid, sid ∈ used s -> b' sid = b sid.
Proof.
  intros Hinv Hhon Hs. destruct act as [model version body sid|model version sid fi ci|i body|i|model version sid force|i|i removed|model version sid|i|i committed];
    cbn [Upload.step] in Hs.
  { destruct (bool_decide (sid ∈ used s)) eqn:Hu; [done|]. apply bool_decide_eq_false in Hu. simpl in Hs.
    destruct (existsb _ body) eqn:Hneg; [done|].
    destruct (create_upload_session _ _ _ _ _ _) as [r st'] eqn:Hc. injection Hs as <-.
    destruct (create_spec _ _ _ _ _ _ _ Hneg Hc) as [->|(m & Hgood & Hup & ->)].
    - apply inv_create with any_meta; [done|done|split; [done|constructor]|done|by left].
    - apply inv_create with m; [done|done|done|done|by right]. }
  all: exists b; split; [|done].
  - destruct (Z.ltb_spec ci 0); [done|]. injection Hs as <-. by apply inv_put.
  - destruct (tasks s !! i) as [[]|] eqn:Hi; try done. injection Hs as <-. by apply inv_body.
  - destruct (tasks s !! i) as [[]|] eqn:Hi; try done. case_bool_decide; [done|]. injection Hs as <-. by apply inv_commit.
  - injection Hs as <-. destruct (load_session _ _ _ _ _) as [m|] eqn:Hl; apply inv_spawn; try done.
    apply load_session_ok in Hl as (d & Hd & _). intros ? [= <-]. by eapply iv_used.
  - destruct (tasks s !! i) as [[]|] eqn:Hi; try done. case_bool_decide; [done|]. injection Hs as <-. by apply inv_lock.
  - destruct (tasks s !! i) as [[]|] eqn:Hi; try done. injection Hs as <-. by apply inv_finish.
  - injection Hs as <-. destruct (load_session _ _ _ _ _) as [m|] eqn:Hl; apply inv_spawn; try done.
    apply load_session_ok in Hl as (d & Hd & _). intros ? [= <-]. by eapply iv_used.
  - destruct (tasks s !! i) as [[]|] eqn:Hi; try done. case_bool_decide; [done|]. injection Hs as <-.
    eapply session_set_task; [|exact Hi|done..]. apply inv_set_stagings with sid; [done|done| |].
    + intros k Hk. by rewrite lookup_delete_ne.
    + intros d. by rewrite lookup_delete_eq.
  - destruct (tasks s !! i) as [t|] eqn:Hi; [|done].
    destruct t as [| | |model sid force meta| | |]; try done; injection Hs as <-; try by eapply session_set_task.
    pose proof (iv_tasks _ _ Hinv _ _ Hi) as (_ & _ & d & Hd & _).
    apply (inv_unlock b s i _ sid (stagings s) Dropped Hinv Hi); try done.
    intros d' Hd'. by apply (iv_dirs _ _ Hinv).
Qed.
Lemma inv_initial r : inv (fun _ => any_meta) (initial r).
Proof. split; simpl; try done; intros; try (split; [done|constructor]); set_solver. Qed.

Lemma run_keeps_inv b acts s s' : inv b s -> honest_run acts s -> run acts s = Some s' -> exists b', inv b' s'.
Proof.
  revert b s. induction acts as [|act acts IH]; intros b s Hinv; simpl; [intros _ [= <-]; by exists b|].
  intros [Hhon Hruns]. destruct (step act s) as [s1|] eqn:Hs; [|done].
  destruct (step_keeps_inv b s act s1 Hinv Hhon Hs) as (b1 & Hinv1 & _). by apply (IH b1).
Qed.

(** What the invariant says of a session directory. *)
Lemma inv_dir_ok b s sid d m :
  inv b s -> stagings s !! sid = Some d -> sg_meta d = Some m ->
  sm_chunk_size m = CHUNK_SIZE /\ dir_ok m d /\
  forall fi ci data, sg_chunks d !! (fi, ci) = Some data -> P sid fi ci data.
Proof.
  intros Hinv Hd Hm. destruct (iv_dirs _ _ Hinv sid d Hd) as [Hb Hc]. specialize (Hb m Hm).
  destruct (iv_good _ _ Hinv sid) as [Hcs Hsz]. rewrite <- Hb in Hcs, Hsz, Hc. simpl in Hcs, Hsz.
  split; [done|]. split; [split_and!; [by rewrite Hcs|done|]|]; intros fi ci data Hl; by destruct (Hc _ _ _ Hl) as (? & ? & _).
Qed.
End invariant.

(** ** Sessions *)

Section theorems.
Context (sha256_hex : list Z -> string) (unpack : Tree -> list Z -> option string -> result AppError Tree).
Context (parse_manifest : list Z -> result string Manifest) (not_found : string).
Context (is_uuid : string -> bool) (max_upload_bytes : option Z).

Abbreviation step := (step sha256_hex unpack parse_manifest not_found is_uuid max_upload_bytes).
Abbreviation run := (run sha256_hex unpack parse_manifest not_found is_uuid max_upload_bytes).
Abbreviation honest_run P := (honest_run sha256_hex unpack parse_manifest not_found is_uuid max_upload_bytes P).

Lemma anything_honest acts s : honest_run (fun _ _ _ _ => True) acts s.
Proof.
  revert s. induction acts as [|act acts IH]; intros s; simpl; [done|].
  split; [|by destruct (step act s)]. unfold honest. repeat case_match; done.
Qed.

(** In every interleaving of creations, chunk bodies, completions, deletions and
    dropped requests, the chunks of a session are in bounds and have their strict
    lengths; so completion's check passes exactly when every declared chunk is
    there. *)
Theorem chunks_keep_their_lengths acts r s sid d m :
  run acts (initial r) = Some s -> stagings s !! sid = Some d -> sg_meta d = Some m ->
  (forall fi ci data, sg_chunks d !! (fi, ci) = Some data ->
     exists f, sm_files m !! fi = Some f /\ 0 <= ci < expected_chunks (sf_size f) (sm_chunk_size m) /\
       Z.of_nat (length data) = chunk_len (sf_size f) (sm_chunk_size m) ci) /\
  (check_files d (sm_chunk_size m) 0 (sm_files m) = Ok tt <->
   forall fi f ci, sm_files m !! fi = Some f -> 0 <= ci < expected_chunks (sf_size f) (sm_chunk_size m) ->
     is_some (sg_chunks d !! (fi, ci)) = true).
Proof.
  intros Hrun Hd Hm.
  destruct (run_keeps_inv _ _ _ _ _ _ _ _ _ _ _ (inv_initial _ r) (anything_honest acts _) Hrun) as [b Hinv].
  destruct (inv_dir_ok _ _ _ _ _ _ Hinv Hd Hm) as (_ & Hok & _). split.
  - intros fi ci data Hl. apply chunk_ok_spec. by apply Hok.
  - rewrite (check_files_spec m d 0 (sm_files m) Hok (drop_0 _)). simpl. unfold all_chunks. naive_solver.
Qed.

(** ** Assembly *)

(** The client of session [sid] sends the chunks of these files; others send anything. *)
Definition chunk_of (sid : string) (contents : list (list Z)) (k : string) (fi : nat) (ci : Z) (data : list Z) : Prop :=
  k = sid -> exists c, contents !! fi = Some c /\ data = slice CHUNK_SIZE ci c.

(** A declaration that is true of its file, a raw one. *)
Definition declares (f : SessionFile) (c : list Z) : Prop :=
  sf_size f = Z.of_nat (length c) /\ sf_is_lma f = false /\
  match sf_sha256 f with Some h => sha256_hex c = h | None => True end.

Lemma read_chunks_concat d fi cis (g : Z -> list Z) :
  (forall ci, ci ∈ cis -> sg_chunks d !! (fi, ci) = Some (g ci)) ->
  read_chunks d fi cis = Ok (concat (map g cis)).
Proof.
  induction cis as [|ci cis IH]; intros Hall; simpl; [done|].
  rewrite (Hall ci) by (by left). simpl. rewrite IH; [done|]. intros ci' Hin. apply Hall. by right.
Qed.

Lemma assemble_file_content d fi f c :
  declares f c -> (forall ci, 0 <= ci < expected_chunks (sf_size f) CHUNK_SIZE ->
    sg_chunks d !! (fi, ci) = Some (slice CHUNK_SIZE ci c)) ->
  assemble_file sha256_hex d fi f CHUNK_SIZE = Ok c.
Proof.
  intros (Hsz & _ & Hsha) Hall. unfold assemble_file.
  rewrite (read_chunks_concat d fi _ (fun ci => slice CHUNK_SIZE ci c))
    by (intros ci Hci%elem_of_seqZ_to; by apply Hall).
  rewrite Hsz, concat_slices by done. simpl. rewrite Z.eqb_refl. simpl.
  destruct (sf_sha256 f); [|done]. by rewrite Hsha, String.eqb_refl.
Qed.

Definition put_files (v : string) (l : list (string * list Z)) (t : Tree) : Tree :=
  foldl (fun t nc => put_file v (fst nc) (snd nc) t) t l.

Lemma put_files_spec v l t :
  l <> [] -> NoDup l.*1 ->
  put_files v l t =
  {| t_dirs := <[v := list_to_map l ∪ default ∅ (t_dirs t !! v)]> (t_dirs t); t_files := t_files t |}.
Proof.
  revert t. induction l as [|[n c] l IH]; intros t Hne Hnd; [done|].
  apply NoDup_cons in Hnd as [Hout Hnd]. change (put_files v ((n, c) :: l) t) with (put_files v l (put_file v n c t)).
  destruct l as [|p l].
  { unfold put_files, put_file. simpl. f_equal. f_equal. by rewrite <- insert_union_l, (left_id_L ∅ (∪)). }
  rewrite IH by done. simpl t_files. f_equal. unfold put_file. simpl t_dirs.
  rewrite lookup_insert_eq, insert_insert_eq. f_equal. simpl default.
  rewrite <- insert_union_r by (by apply not_elem_of_list_to_map_1).
  change (list_to_map ((n, c) :: p :: l)) with (<[n:=c]> (list_to_map (p :: l) : gmap string (list Z))).
  by rewrite insert_union_l.
Qed.

Lemma assemble_files_contents d meta k files contents asm :
  sm_chunk_size meta = CHUNK_SIZE -> Forall2 declares files contents ->
  (forall j f c ci, files !! j = Some f -> contents !! j = Some c ->
     0 <= ci < expected_chunks (sf_size f) CHUNK_SIZE ->
     sg_chunks d !! ((k + j)%nat, ci) = Some (slice CHUNK_SIZE ci c)) ->
  assemble_files sha256_hex d meta k files asm
  = Ok (put_files (sm_version meta) (zip (map sf_name files) contents) asm).
Proof.
  intros Hcs Hdecl. revert k asm. induction Hdecl as [|f c files contents Hf Hfs IH]; intros k asm Hall; simpl; [done|].
  rewrite Hcs, (assemble_file_content d k f c Hf)
    by (intros ci Hci; rewrite <- (Nat.add_0_r k); by apply (Hall 0%nat f c)).
  simpl. destruct Hf as (_ & -> & _). rewrite IH; [done|]. intros j f' c' ci Hj Hc Hci.
  replace (S k + j)%nat with (k + S j)%nat by lia. by apply (Hall (S j) f' c').
Qed.
(** ** The shared tail *)

Abbreviation finalize := (finalize_upload unpack parse_manifest not_found max_upload_bytes).

Lemma raw_only (files : list SessionFile) :
  Forall (fun f => sf_is_lma f = false) files -> has_lma (map staged_of files) = false.
Proof. induction 1 as [|f files Hf _ IH]; [done|]. unfold has_lma in *. simpl. by rewrite Hf, IH. Qed.

Lemma raw_present (files : list SessionFile) :
  files <> [] -> Forall (fun f => sf_is_lma f = false) files -> has_raw (map staged_of files) = true.
Proof. intros Hne Hall. destruct Hall as [|f files Hf _]; [done|]. unfold has_raw. simpl. by rewrite Hf. Qed.

Lemma unpack_none staged expect staging :
  has_lma staged = false -> unpack_artifacts unpack not_found expect staged staging = Ok staging.
Proof.
  induction staged as [|f staged IH]; simpl; [done|]. unfold has_lma. simpl.
  intros [Hf Hs]%orb_false_iff. rewrite Hf. by apply IH.
Qed.

(** An upload of raw files: it is refused, or replaces the one version. *)
Lemma finalize_raw model staging staged version force repo :
  has_lma staged = false -> has_raw staged = true ->
  t_files staging = ∅ ->
  finalize model staging staged (Some version) force repo =
  if negb force && is_some (t_dirs (model_root repo model) !! version) then
    (Err (Conflict ("version " +:+ version +:+ " of model " +:+ model
                    +:+ " already exists; pass ?force=true to overwrite")), repo)
  else
    (Ok (version, map su_name staged),
     {| r_models := <[model := {| t_dirs := t_dirs staging ∪ t_dirs (model_root repo model);
                                  t_files := t_files (model_root repo model) |}]> (r_models repo);
        r_root_artifacts := delete (artifact_name model version) (r_root_artifacts repo);
        r_artifacts := delete (artifact_name model version) (r_artifacts repo) |}).
Proof.
  intros Hl Hr Hf. unfold finalize_upload, effective_version. rewrite Hl, unpack_none by done.
  cbn [result_bind fst snd]. unfold merge_raw. rewrite Hl, Hr. simpl andb.
  destruct max_upload_bytes; cbn [result_bind fst snd]; case_goal; try done;
    unfold house_keeping, commit_staging, remove_linked_artifacts; rewrite Hl, Hr, Hf; cbn;
    by rewrite map_filter_empty, (left_id_L ∅ (∪)).
Qed.

Lemma declares_raw files contents :
  Forall2 declares files contents -> Forall (fun f => sf_is_lma f = false) files.
Proof. induction 1 as [|f c files contents (_ & Hf & _) _ IH]; by constructor. Qed.

(** What a checked session of a true declaration holds. *)
Lemma checked_chunks d m (contents : list (list Z)) :
  dir_ok m d -> sm_chunk_size m = CHUNK_SIZE -> check_files d CHUNK_SIZE 0 (sm_files m) = Ok tt ->
  (forall fi ci data, sg_chunks d !! (fi, ci) = Some data ->
     exists c, contents !! fi = Some c /\ data = slice CHUNK_SIZE ci c) ->
  forall j f c ci, sm_files m !! j = Some f -> contents !! j = Some c ->
    0 <= ci < expected_chunks (sf_size f) CHUNK_SIZE ->
    sg_chunks d !! ((0 + j)%nat, ci) = Some (slice CHUNK_SIZE ci c).
Proof.
  intros Hok Hcs Hck Hsent j f c ci Hf Hc Hci. rewrite <- Hcs in Hck.
  pose proof (proj1 (check_files_spec m d 0 (sm_files m) Hok (drop_0 _)) Hck j f Hf ci) as Hall.
  rewrite Hcs in Hall. specialize (Hall Hci).
  destruct (sg_chunks d !! ((0 + j)%nat, ci)) as [data|] eqn:Hd; [|done].
  destruct (Hsent _ _ _ Hd) as (c' & Hc' & ->). simpl in Hc'. congruence.
Qed.

Lemma committed_files d meta contents :
  sm_chunk_size meta = CHUNK_SIZE -> sm_files meta <> [] -> Forall2 declares (sm_files meta) contents ->
  NoDup (map sf_name (sm_files meta)) ->
  (forall j f c ci, sm_files meta !! j = Some f -> contents !! j = Some c ->
     0 <= ci < expected_chunks (sf_size f) CHUNK_SIZE ->
     sg_chunks d !! ((0 + j)%nat, ci) = Some (slice CHUNK_SIZE ci c)) ->
  assemble_files sha256_hex d meta 0 (sm_files meta) empty_tree =
  Ok {| t_dirs := {[ sm_version meta := list_to_map (zip (map sf_name (sm_files meta)) contents) ]}; t_files := ∅ |}.
Proof.
  intros Hcs Hne Hdecl Hnd Hall. rewrite (assemble_files_contents d meta 0 _ contents) by done.
  pose proof (Forall2_length _ _ _ Hdecl) as Hlen.
  rewrite put_files_spec.
  - simpl. rewrite lookup_empty. simpl. by rewrite (right_id_L ∅ (∪)).
  - destruct Hdecl; [done|]. done.
  - rewrite fst_zip; [done|]. rewrite length_map. lia.
Qed.

(** C40. What a chunked upload commits is what the client sent: in every
    interleaving of requests on any sessions, if the bodies of one session are the
    chunks of truthfully declared raw files of distinct names, then once its
    completion is accepted, with [force] set or the version not yet there, it
    answers [Ok], the version directory holds exactly those names with exactly those
    contents, artifacts of the version are gone, and the rest of the repository is
    as it was. *)
Theorem completed_upload_is_what_was_sent acts r s i model sid force meta contents removed :
  run acts (initial r) = Some s -> honest_run (chunk_of sid contents) acts (initial r) ->
  tasks s !! i = Some (CompleteLocked model sid force meta) ->
  sm_files meta <> [] -> Forall2 declares (sm_files meta) contents -> NoDup (map sf_name (sm_files meta)) ->
  force = true \/ t_dirs (model_root (repo s) model) !! sm_version meta = None ->
  exists s', step (Finish i removed) s = Some s' /\
    tasks s' !! i = Some (Finished (Ok (Uploaded (sm_version meta) (map sf_name (sm_files meta))))) /\
    repo s' =
      {| r_models := <[model :=
           {| t_dirs := <[sm_version meta := list_to_map (zip (map sf_name (sm_files meta)) contents)]>
                          (t_dirs (model_root (repo s) model));
              t_files := t_files (model_root (repo s) model) |}]> (r_models (repo s));
         r_root_artifacts := delete (artifact_name model (sm_version meta)) (r_root_artifacts (repo s));
         r_artifacts := delete (artifact_name model (sm_version meta)) (r_artifacts (repo s)) |}.
Proof.
  intros Hrun Hhon Hi Hne Hdecl Hnd Hfree.
  destruct (run_keeps_inv _ _ _ _ _ _ _ _ _ _ _ (inv_initial _ r) Hhon Hrun) as [b Hinv].
  destruct (iv_tasks _ _ _ Hinv _ _ Hi) as (_ & _ & d & Hd & Hm & Hck).
  destruct (inv_dir_ok _ _ _ _ _ _ Hinv Hd Hm) as (Hcs & Hok & Hsent). simpl in Hcs. rewrite Hcs in Hck.
  pose proof (checked_chunks d _ contents Hok Hcs Hck (fun fi ci data Hl => Hsent fi ci data Hl eq_refl)) as Hall.
  simpl sm_files in Hall.
  eexists. split; [cbn [Upload.step]; by rewrite Hi|]. unfold complete_finish. rewrite Hd. simpl default.
  unfold assemble_and_finalize. rewrite (committed_files d meta contents) by done.
  rewrite finalize_raw; [|by apply raw_only, declares_raw with contents|by apply raw_present; [|apply declares_raw with contents]|done].
  replace (negb force && _) with false by (destruct Hfree as [->| ->]; [done|by rewrite andb_false_r]).
  assert (i < length (tasks s))%nat as Hlt by (by eapply lookup_lt_Some).
  cbn [set_task tasks repo set_repo]. split.
  - cbn [set_locked set_stagings tasks]. rewrite list_lookup_insert_eq by done. by rewrite map_map.
  - cbn [t_dirs]. by rewrite <- insert_union_singleton_l.
Qed.

(** An upload that fails leaves the repository as it was; one that succeeds without
    force did not find its version there, and changes no other model, removes no
    version, and touches no artifact but that of its version. *)
Theorem uploads_do_not_overwrite model staging staged url_version force repo :
  match finalize model staging staged url_version force repo with
  | (Err _, repo') => repo' = repo
  | (Ok (version, names), repo') =>
      names = map su_name staged /\
      (force = false -> t_dirs (model_root repo model) !! version = None) /\
      (forall other, other <> model -> r_models repo' !! other = r_models repo !! other) /\
      (forall v, is_some (t_dirs (model_root repo model) !! v) = true ->
         is_some (t_dirs (model_root repo' model) !! v) = true) /\
      (forall a, a <> artifact_name model version ->
         r_artifacts repo' !! a = r_artifacts repo !! a /\ r_root_artifacts repo' !! a = r_root_artifacts repo !! a)
  end.
Proof.
  unfold finalize_upload. cbv zeta.
  match goal with |- match (match ?p with Ok _ => _ | Err _ => _ end) with _ => _ end => destruct p as [[s0 t]|e]; [|done] end.
  destruct (negb force && _) eqn:Hg; [done|].
  assert (Hm : forall s, r_models (house_keeping model s0 staged s (commit_staging model s repo))
                         = r_models (commit_staging model s repo)).
  { intros st. unfold house_keeping, remove_linked_artifacts. by repeat case_match. }
  split_and!; [done| | | |].
  - intros ->. simpl in Hg. by destruct (t_dirs _ !! _).
  - intros other Hne. rewrite Hm. simpl. by rewrite lookup_insert_ne.
  - intros v Hv. unfold model_root at 1. rewrite Hm. simpl. rewrite lookup_insert_eq. simpl.
    rewrite lookup_union. destruct (t_dirs t !! v); [by destruct (t_dirs _ !! v)|].
    by destruct (t_dirs (model_root repo model) !! v).
  - intros a Ha. unfold house_keeping, remove_linked_artifacts.
    assert (Hret : forall st l arts, retain_artifacts (artifact_name model s0) l st arts !! a = arts !! a).
    { intros st l. induction l as [|f l IH]; intros arts; simpl; [done|]. rewrite IH.
      repeat case_match; try done. by rewrite lookup_insert_ne. }
    repeat case_match; simpl; rewrite ?lookup_delete_ne, ?Hret by done; done.
Qed.

(** ** The limit of a multipart upload *)

Definition body_bytes (body : list (result string (list Z))) : Z :=
  foldr (fun p n => match p with Ok data => Z.of_nat (length data) + n | Err _ => n end) 0 body.

(** A raw field whose name is empty or hidden is not staged. *)
Definition field_bytes (fl : Field) : Z :=
  match fl_name fl with
  | Some n =>
      if negb (ends_with ".lma" n) && (bool_decide (file_name n = EmptyString) || starts_with "." (file_name n))
      then 0 else body_bytes (fl_body fl)
  | None => 0
  end.

Lemma stream_field_total body total got got' total' :
  stream_field max_upload_bytes body total got = Ok (got', total') ->
  total' = total + body_bytes body /\ (forall max, max_upload_bytes = Some max -> total <= max -> total' <= max).
Proof.
  revert total got. induction body as [|[data|e] body IH]; intros total got; simpl; [|intros Hb|done].
  { intros [= <- <-]. split; [lia|done]. }
  destruct max_upload_bytes as [max|]; [destruct (Z.ltb_spec max (total + Z.of_nat (length data))); [done|]|];
    apply IH in Hb as [-> Hle]; (split; [lia|]); [|done]. intros ? [= <-] _. by apply Hle.
Qed.

Lemma ingest_total version fields total staged staging res :
  ingest max_upload_bytes version fields total staged staging = Ok res ->
  forall max, max_upload_bytes = Some max -> total <= max ->
  total + foldr Z.add 0 (map field_bytes fields) <= max.
Proof.
  revert total staged staging. induction fields as [|fl fields IH]; intros total staged staging Hin max Hmax Hle;
    [simpl; lia|].
  cbn [ingest] in Hin. cbn [map foldr]. unfold field_bytes at 1.
  destruct (fl_name fl) as [n|]; [|done]. cbn [ok_or result_bind] in Hin.
  destruct (ends_with ".lma" n); cbn [negb andb].
  - destruct (has_lma staged); [done|]. destruct (_ || negb _); [done|].
    destruct (stream_field _ _ _ _) as [[got total']|] eqn:Hs; [|done]. cbn [result_bind snd] in Hin.
    apply stream_field_total in Hs as [-> Hb]. pose proof (IH _ _ _ Hin max Hmax (Hb max Hmax Hle)). lia.
  - destruct (bool_decide (file_name n = EmptyString) || starts_with "." (file_name n));
      [pose proof (IH _ _ _ Hin max Hmax Hle); lia|].
    destruct (stream_field _ _ _ _) as [[got total']|] eqn:Hs; [|done]. cbn [result_bind snd] in Hin.
    apply stream_field_total in Hs as [-> Hb]. pose proof (IH _ _ _ Hin max Hmax (Hb max Hmax Hle)). lia.
Qed.

(** An accepted multipart upload has not staged more bytes than the limit. *)
Theorem multipart_upload_within_limit model version fields force repo res repo' max :
  max_upload_bytes = Some max -> 0 <= max ->
  upload_model_handler unpack parse_manifest not_found max_upload_bytes model version fields force repo = (Ok res, repo') ->
  foldr Z.add 0 (map field_bytes fields) <= max.
Proof.
  intros Hmax Hpos. unfold upload_model_handler.
  destruct (validate_identifier model); [|done]. destruct (validate_version version); [|done]. cbn [result_bind].
  destruct (ingest _ _ _ _ _ _) as [st|] eqn:Hin; [|done]. intros _.
  exact (ingest_total _ _ _ _ _ _ Hin max Hmax Hpos).
Qed.

(** ** A session left in [Completing] *)

Definition wedged (sid : string) (s : State) : Prop :=
  (sid ∉ locked s) /\ exists d m, stagings s !! sid = Some d /\ sg_meta d = Some m /\ sm_state m = Completing.

Definition is_remove (act : Action) : bool := match act with Remove _ => true | _ => false end.

Lemma wedged_meta sid s :
  wedged sid s -> exists d m, stagings s !! sid = Some d /\ read_meta sid (stagings s) = Ok m /\ sm_state m = Completing.
Proof. intros (_ & d & m & Hd & Hm & Hst). exists d, m. unfold read_meta. rewrite Hd. simpl. by rewrite Hm. Qed.

Lemma wedged_commit i sid fi ci data s :
  wedged sid s -> put_commit i sid fi ci data s =
    set_task i (Finished (Err (Conflict "session is completing; no further chunks accepted"))) s.
Proof. intros (d & m & Hd & Hm & Hst)%wedged_meta. unfold put_commit. rewrite Hm, Hd, Hst. done. Qed.

Lemma wedged_lock i model sid force s :
  wedged sid s -> complete_lock i model sid force s =
    set_task i (Finished (Err (Conflict "session is already completing"))) s.
Proof. intros (d & m & Hd & Hm & Hst)%wedged_meta. unfold complete_lock. rewrite Hm, Hd, Hst. done. Qed.

(** A step on another session, or one that leaves this session's directory. *)
Lemma wedged_same sid s s' :
  wedged sid s -> stagings s' !! sid = stagings s !! sid -> (sid ∈ locked s' -> sid ∈ locked s) -> wedged sid s'.
Proof. intros (Hl & d & m & Hd & Hm & Hst) Heq Hin. split; [naive_solver|]. exists d, m. by rewrite Heq. Qed.

Lemma wedged_put_commit sid i k fi ci data s : wedged sid s -> wedged sid (put_commit i k fi ci data s).
Proof.
  intros Hw. destruct (decide (k = sid)) as [->|Hne].
  { rewrite wedged_commit by done. by apply (wedged_same sid s). }
  unfold put_commit. repeat case_match; apply (wedged_same sid s); try done; simpl; intros.
  all: by rewrite ?lookup_insert_ne, ?lookup_delete_ne.
Qed.

Lemma wedged_complete_lock sid i model k force s : wedged sid s -> wedged sid (complete_lock i model k force s).
Proof.
  intros Hw. destruct (decide (k = sid)) as [->|Hne].
  { rewrite wedged_lock by done. by apply (wedged_same sid s). }
  unfold complete_lock, set_meta. repeat case_match; apply (wedged_same sid s); try done; simpl.
  - by rewrite lookup_insert_ne.
  - set_solver.
Qed.

Lemma wedged_step b sid s act s' :
  inv (fun _ _ _ _ => True) b s -> wedged sid s -> is_remove act = false -> step act s = Some s' -> wedged sid s'.
Proof.
  intros Hinv Hw Hrm Hs. assert (Hused : sid ∈ used s) by (destruct Hw as (_ & d & m & Hd & _); by eapply iv_used).
  assert (Hlocked : forall i model k force meta, tasks s !! i = Some (CompleteLocked model k force meta) -> k <> sid).
  { intros i model k force meta Hi ->. destruct (iv_tasks _ _ _ Hinv _ _ Hi) as [Hin _]. by apply Hw. }
  destruct act; cbn [Upload.step] in Hs; try done.
  - destruct (bool_decide _) eqn:Hu; [done|]. apply bool_decide_eq_false in Hu. simpl in Hs.
    destruct (existsb _ body) eqn:Hneg; [done|].
    destruct (create_upload_session _ _ _ _ _ _) as [r st'] eqn:Hc. injection Hs as <-.
    apply (wedged_same sid s); [done| |done]. simpl.
    destruct (create_spec _ _ _ _ _ _ _ _ Hneg Hc) as [->|(m & _ & _ & ->)]; [done|].
    rewrite lookup_insert_ne; [done|]. by intros ->.
  - destruct (ci <? 0); [done|]. injection Hs as <-. by apply (wedged_same sid s).
  - destruct (tasks s !! i) as [[]|]; try done. injection Hs as <-. apply (wedged_same sid s); [done| |done]. simpl.
    case_match eqn:Hk; [done|]. rewrite lookup_insert_ne; [done|]. intros ->.
    destruct Hw as (_ & d & m & Hd & _). congruence.
  - destruct (tasks s !! i) as [[]|]; try done. case_bool_decide; [done|]. injection Hs as <-. by apply wedged_put_commit.
  - injection Hs as <-. by apply (wedged_same sid s).
  - destruct (tasks s !! i) as [[]|]; try done. case_bool_decide; [done|]. injection Hs as <-. by apply wedged_complete_lock.
  - destruct (tasks s !! i) as [[]|] eqn:Hi; try done. injection Hs as <-. specialize (Hlocked _ _ _ _ _ Hi).
    unfold complete_finish, set_meta. repeat case_match; apply (wedged_same sid s); try done; simpl;
      rewrite ?lookup_delete_ne, ?lookup_insert_ne by done; try done; set_solver.
  - injection Hs as <-. by apply (wedged_same sid s).
  - destruct (tasks s !! i) as [t|] eqn:Hi; [|done].
    destruct t; try done; injection Hs as <-; apply (wedged_same sid s); try done. simpl. set_solver.
Qed.

Lemma wedged_run b acts sid s s' :
  inv (fun _ _ _ _ => True) b s -> wedged sid s -> existsb is_remove acts = false -> run acts s = Some s' -> wedged sid s'.
Proof.
  revert b s. induction acts as [|act acts IH]; intros b s Hinv Hw; simpl; [by intros _ [= <-]|].
  intros [Hr Hrs]%orb_false_iff. destruct (step act s) as [s1|] eqn:Hs; [|done].
  destruct (anything_honest [act] s) as [Hhon _].
  destruct (step_keeps_inv _ _ _ _ _ _ _ b s act s1 Hinv Hhon Hs) as (b1 & Hinv1 & _).
  apply (IH b1); [done| |done]. exact (wedged_step b sid s act s1 Hinv Hw Hr Hs).
Qed.

(** A completion whose request is dropped while it assembles leaves its session
    marked as completing: whatever happens later, until it is deleted, every chunk
    and every further completion is refused. *)
Theorem dropped_complete_wedges_session acts r s i model sid force meta committed later s' :
  run acts (initial r) = Some s -> tasks s !! i = Some (CompleteLocked model sid force meta) ->
  run (DropTask i committed :: later) s = Some s' -> existsb is_remove later = false ->
  (exists d m, stagings s' !! sid = Some d /\ sg_meta d = Some m /\ sm_state m = Completing) /\
  (forall j fi ci data, tasks s' !! j = Some (PutWritten sid fi ci data) ->
     step (Commit j) s' =
     Some (set_task j (Finished (Err (Conflict "session is completing; no further chunks accepted"))) s')) /\
  (forall j model' force', tasks s' !! j = Some (CompleteLoaded model' sid force') ->
     step (Lock j) s' = Some (set_task j (Finished (Err (Conflict "session is already completing"))) s')).
Proof.
  intros Hrun Hi Hlater Hrm.
  destruct (run_keeps_inv _ _ _ _ _ _ _ _ _ _ _ (inv_initial _ r) (anything_honest acts _) Hrun) as [b Hinv].
  destruct (iv_tasks _ _ _ Hinv _ _ Hi) as (_ & _ & d & Hd & Hm & _).
  cbn [Upload.run] in Hlater. destruct (step (DropTask i committed) s) as [s1|] eqn:Hs; [|done].
  destruct (anything_honest [DropTask i committed] s) as [Hhon _].
  destruct (step_keeps_inv _ _ _ _ _ _ _ b s _ s1 Hinv Hhon Hs) as (b1 & Hinv1 & _).
  assert (Hw : wedged sid s').
  { apply (wedged_run b1 later sid s1); [done| |done|done]. cbn [Upload.step] in Hs. rewrite Hi in Hs.
    injection Hs as <-. split; [simpl; set_solver|]. exists d, (with_state Completing meta). done. }
  split; [by destruct Hw|]. split.
  - intros j fi ci data Hj. cbn [Upload.step]. rewrite Hj, bool_decide_eq_false_2 by apply Hw. by rewrite wedged_commit.
  - intros j model' force' Hj. cbn [Upload.step]. rewrite Hj, bool_decide_eq_false_2 by apply Hw. by rewrite wedged_lock.
Qed.
End theorems.


(** ** Instances *)

Definition empty_repo : Repository := {| r_models := ∅; r_root_artifacts := ∅; r_artifacts := ∅ |}.

Definition sample_run (acts : list Action) (s : State) : option State :=
  run (fun _ => "") (fun t _ _ => Ok t) (fun _ => Err "") "not found" (fun _ => true) None acts s.

(** A session of one file, its chunk sent, up to the mark of its completion. *)
Definition sample_acts : list Action :=
  [Create "m" "1" [{| if_name := "weights.bin"; if_size := 3; if_sha256 := None |}] "s";
   Put "m" "1" "s" 0 0; Body 0 [Ok [1; 2]; Ok [3]]; Commit 0; Complete "m" "1" "s" false; Lock 1].

Definition sample_files : list SessionFile :=
  [{| sf_name := "weights.bin"; sf_size := 3; sf_sha256 := None; sf_is_lma := false |}].

Definition sample_meta : SessionMeta :=
  {| sm_model := "m"; sm_version := "1"; sm_chunk_size := CHUNK_SIZE; sm_files := sample_files; sm_state := Uploading |}.

Definition sample_state : State := default (initial empty_repo) (sample_run sample_acts (initial empty_repo)).

Lemma chunks_keep_their_lengths_witness :
  forall fi ci data,
    sg_chunks (default {| sg_meta := None; sg_chunks := ∅ |} (stagings sample_state !! "s")) !! (fi, ci) = Some data ->
    exists f, sample_files !! fi = Some f /\ 0 <= ci < expected_chunks (sf_size f) CHUNK_SIZE /\
      Z.of_nat (length data) = chunk_len (sf_size f) CHUNK_SIZE ci.
Proof.
  refine (proj1 (chunks_keep_their_lengths (fun _ => "") (fun t _ _ => Ok t) (fun _ => Err "") "not found"
    (fun _ => true) None sample_acts empty_repo sample_state "s" _ (with_state Completing sample_meta) _ _ _));
    vm_compute; reflexivity.
Defined.

Lemma sample_honest (P : string -> nat -> Z -> list Z -> Prop) :
  P "s" 0%nat 0 [1; 2; 3] ->
  honest_run (fun _ => "") (fun t _ _ => Ok t) (fun _ => Err "") "not found" (fun _ => true) None P
    sample_acts (initial empty_repo).
Proof. intros HP. vm_compute. by split_and!. Qed.

Lemma completed_upload_is_what_was_sent_witness :
  exists s', sample_run [Finish 1 true] sample_state = Some s' /\
    tasks s' !! 1%nat = Some (Finished (Ok (Uploaded "1" ["weights.bin"]))) /\
    t_dirs (model_root (repo s') "m") !! "1" = Some {[ "weights.bin" := [1; 2; 3] ]}.
Proof.
  destruct (completed_upload_is_what_was_sent (fun _ => "") (fun t _ _ => Ok t) (fun _ => Err "") "not found"
    (fun _ => true) None sample_acts empty_repo sample_state 1 "m" "s" false sample_meta [[1; 2; 3]] true)
    as (s' & Hs & Ht & Hr).
  - vm_compute. reflexivity.
  - apply sample_honest. intros _. exists [1; 2; 3]. split; [reflexivity|vm_compute; reflexivity].
  - vm_compute. reflexivity.
  - done.
  - repeat constructor.
  - repeat constructor. set_solver.
  - right. vm_compute. reflexivity.
  - exists s'. split_and!.
    + unfold sample_run. cbn [run]. by rewrite Hs.
    + exact Ht.
    + rewrite Hr. vm_compute. reflexivity.
Defined.

Lemma dropped_complete_wedges_session_witness :
  exists d m, stagings (default sample_state (sample_run [DropTask 1 false; Complete "m" "1" "s" false] sample_state)) !! "s"
              = Some d /\ sg_meta d = Some m /\ sm_state m = Completing.
Proof.
  refine (proj1 (dropped_complete_wedges_session (fun _ => "") (fun t _ _ => Ok t) (fun _ => Err "") "not found"
    (fun _ => true) None sample_acts empty_repo sample_state 1 "m" "s" false sample_meta false
    [Complete "m" "1" "s" false] _ _ _ _ _)); vm_compute; reflexivity.
Defined.

Lemma multipart_upload_within_limit_witness :
  foldr Z.add 0 (map field_bytes [{| fl_name := Some "weights.bin"; fl_body := [Ok [1; 2]; Ok [3]] |}]) <= 3.
Proof.
  refine (multipart_upload_within_limit (fun t _ _ => Ok t) (fun _ => Err "") "not found" (Some 3) "m" "1" _ false
    empty_repo ("1", ["weights.bin"]) _ 3 _ _ _); [reflexivity|lia|vm_compute; reflexivity].
Defined.

(** Two declared files of one base name: both are received and acknowledged, one is kept. *)
Example same_base_name_loses_a_file :
  exists s', sample_run
    ([Create "m" "1" [{| if_name := "a/x.bin"; if_size := 1; if_sha256 := None |};
                      {| if_name := "b/x.bin"; if_size := 1; if_sha256 := None |}] "s";
      Put "m" "1" "s" 0 0; Body 0 [Ok [7]]; Commit 0; Put "m" "1" "s" 1 0; Body 1 [Ok [8]]; Commit 1;
      Complete "m" "1" "s" false; Lock 2; Finish 2 true]) (initial empty_repo) = Some s' /\
    tasks s' !! 2%nat = Some (Finished (Ok (Uploaded "1" ["x.bin"; "x.bin"]))) /\
    t_dirs (model_root (repo s') "m") !! "1" = Some {[ "x.bin" := [8] ]}.
Proof. eexists. split; [vm_compute; reflexivity|]. split; vm_compute; reflexivity. Qed.
