(* ===== verification/Cors.v ===== *)
(** * Origins and cross-origin requests

    Models [src/src/http/cors.rs]: the normal form of an origin, its comparison with
    the [Host] of a request and with the entries of an allow list (exact, sub-domain
    wildcards, star), the CORS middleware with its preflight answer, and the check of
    a WebSocket handshake.  Text is ASCII; response headers are the list of the
    headers in the order they are added. *)

From S2P Require Import Prelude Text Errors Registry.
Import Errors.Render.
Open Scope Z_scope.

(** Request headers by lower-case name: present with a text value, or present with
    one that is not text ([to_str] fails). *)
Abbreviation HeaderMap := (gmap string (option string)) (only parsing).

Definition header (headers : HeaderMap) (name : string) : option string :=
  match headers !! to_ascii_lowercase name with Some v => v | None => None end.

Definition contains_key (headers : HeaderMap) (name : string) : bool :=
  is_some (headers !! to_ascii_lowercase name).

(** ** Origins *)

Record NormalizedOrigin := {
  scheme : string;
  host : string;
  port : option Z;
}.

#[export] Instance NormalizedOrigin_eq_dec : EqDecision NormalizedOrigin.
Proof. solve_decision. Defined.

Definition canonical (o : NormalizedOrigin) : string :=
  match port o with
  | Some p => scheme o +:+ "://" +:+ host o +:+ ":" +:+ pretty p
  | None => scheme o +:+ "://" +:+ host o
  end.

Definition scheme_char (c : Ascii.ascii) : bool :=
  is_alphanumeric c || eq_char c "+"%char || eq_char c "-"%char || eq_char c "."%char.

Definition authority_end (c : Ascii.ascii) : bool :=
  eq_char c "/"%char || eq_char c "?"%char || eq_char c "#"%char.

Definition split_host_port (authority : string) : option (string * option Z) :=
  match split_once "]"%char authority with
  | Some (before, after) =>
      if negb (starts_with "[" authority) then None
      else
        let port := match strip_prefix ":" after with Some p => parse_u16 p | None => None end in
        Some (before +:+ "]", port)
  | None =>
      match rsplit_once ":"%char authority with
      | Some (h, port_str) =>
          if bool_decide (h = EmptyString) then Some (authority, None)
          else match parse_u16 port_str with
               | Some p => Some (h, Some p)
               | None => Some (authority, None)
               end
      | None => Some (authority, None)
      end
  end.

Definition default_port (scheme : string) : option Z :=
  if String.eqb scheme "https" then Some 443
  else if String.eqb scheme "http" then Some 80
  else None.

Definition normalize_origin (raw : string) : option NormalizedOrigin :=
  let raw := trim raw in
  if bool_decide (raw = EmptyString) || eq_ignore_ascii_case raw "null" then None
  else
    match split_once_str "://" raw with
    | None => None
    | Some (scheme, rest) =>
        let scheme := to_ascii_lowercase scheme in
        if bool_decide (scheme = EmptyString) || negb (all_chars scheme_char scheme) then None
        else
          match split_host_port (take_until authority_end rest) with
          | None => None
          | Some (host, port) =>
              if bool_decide (host = EmptyString) then None
              else
                Some {| scheme := scheme; host := to_ascii_lowercase host;
                        port := match port with
                                | Some p => if bool_decide (Some p = default_port scheme) then None
                                            else Some p
                                | None => None
                                end |}
          end
    end.

Definition origin_matches_host (announced host_header : string) : bool :=
  match normalize_origin announced with
  | None => false
  | Some origin =>
      match split_host_port (trim host_header) with
      | None => false
      | Some (host_name, host_port) =>
          if negb (eq_ignore_ascii_case (host origin) host_name) then false
          else
            match port origin, host_port with
            | None, None => true
            | Some a, Some b => a =? b
            | None, Some p => bool_decide (default_port (scheme origin) = Some p)
            | Some p, None => bool_decide (default_port (scheme origin) = Some p)
            end
      end
  end.

(** ** Allow lists *)

Inductive AcaoValue :=
  | Star
  | Origin (value : string).

Record WildcardOrigin := {
  w_scheme : string;
  w_suffix : string;
  w_port : option Z;
}.

Definition parse_wildcard (pattern : string) : option WildcardOrigin :=
  let '(scheme, rest) :=
    match split_once_str "://" pattern with
    | Some (s, r) => (to_ascii_lowercase s, r)
    | None => ("*"%string, pattern)
    end in
  match split_host_port rest with
  | None => None
  | Some (hostpat, port) =>
      match strip_prefix "*." hostpat with
      | None => None
      | Some suffix =>
          if bool_decide (suffix = EmptyString) || has_char "*"%char suffix then None
          else Some {| w_scheme := scheme; w_suffix := "." +:+ to_ascii_lowercase suffix;
                       w_port := port |}
      end
  end.

Definition matches_port (w : WildcardOrigin) (o : NormalizedOrigin) : bool :=
  match w_port w with
  | None => String.eqb (w_scheme w) "*" || negb (is_some (port o))
  | Some pattern_port =>
      match port o with
      | Some p => p =? pattern_port
      | None => bool_decide (default_port (scheme o) = Some pattern_port)
      end
  end.

Definition wildcard_matches (w : WildcardOrigin) (o : NormalizedOrigin) : bool :=
  if negb (String.eqb (w_scheme w) "*") && negb (String.eqb (w_scheme w) (scheme o)) then false
  else if negb (matches_port w o) then false
  else ends_with (w_suffix w) (host o)
       && Nat.ltb (String.length (w_suffix w)) (String.length (host o)).

Definition matches_exactly (pattern : string) (o : NormalizedOrigin) : bool :=
  match normalize_origin pattern with Some n => bool_decide (n = o) | None => false end.

Definition matches_specific (pattern : string) (o : NormalizedOrigin) : bool :=
  if contains_str "*." pattern then
    match parse_wildcard pattern with
    | Some w => wildcard_matches w o
    | None => matches_exactly pattern o
    end
  else matches_exactly pattern o.

(** An entry that can name the origin: not blank, not the star. *)
Definition specific_entry (o : NormalizedOrigin) (entry : string) : bool :=
  let entry := trim entry in
  negb (bool_decide (entry = EmptyString) || String.eqb entry "*") && matches_specific entry o.

Definition resolve_acao (o : NormalizedOrigin) (allow_origins : list string) : option AcaoValue :=
  if existsb (specific_entry o) allow_origins then Some (Origin (canonical o))
  else if existsb (fun e => String.eqb (trim e) "*") allow_origins then Some Star
  else None.

Record CorsPolicy := {
  allow_origins : list string;
  allow_methods : list string;
  allow_headers : list string;
  expose_headers : list string;
  allow_credentials : bool;
  max_age_secs : Z;
}.

(** ** Responses *)

Abbreviation Headers := (list (string * string)) (only parsing).

(** [HeaderMap::insert] replaces, [HeaderMap::append] adds. *)
Definition insert_header (k v : string) (h : Headers) : Headers :=
  List.filter (fun kv => negb (String.eqb (fst kv) k)) h ++ [(k, v)].

Record Response := {
  resp_status : Z;
  resp_headers : Headers;
}.

Section middleware.
Context `{HttpSyntax}.

(** [HeaderValue::from_str] then [f], or nothing. *)
Definition insert_if_valid (k v : string) (h : Headers) : Headers :=
  if header_value v then insert_header k v h else h.

Definition vary (value : string) (h : Headers) : Headers :=
  if header_value value then h ++ [("vary"%string, value)] else h.

Definition apply_acao (acao : AcaoValue) (credentials : bool) (h : Headers) : bool * Headers :=
  let val := match acao with Star => "*"%string | Origin s => s end in
  if credentials && match acao with Star => true | _ => false end then (false, h)
  else if header_value val then
    let h := insert_header "access-control-allow-origin" val h in
    (true, if credentials then insert_header "access-control-allow-credentials" "true" h else h)
  else (false, h).

Definition method_ok (policy : CorsPolicy) (req_method : option string) : bool :=
  match req_method with
  | None => false
  | Some m =>
      existsb (fun am => String.eqb am "*" || eq_ignore_ascii_case am (trim m))
        (allow_methods policy)
  end.

Definition headers_ok (policy : CorsPolicy) (req_headers : option string) : bool :=
  match req_headers with
  | None => true
  | Some h =>
      forallb (fun h => existsb (fun ah => String.eqb ah "*" || eq_ignore_ascii_case ah h)
                          (allow_headers policy))
        (List.filter (fun h => negb (bool_decide (h = EmptyString)))
           (map trim (split_char ","%char h)))
  end.

Definition preflight_response (policy : CorsPolicy) (acao : option AcaoValue)
    (req_method req_headers : option string) : Response :=
  let h := vary "access-control-request-headers"
             (vary "access-control-request-method" (vary "origin" [])) in
  let h :=
    match acao with
    | Some acao =>
        if method_ok policy req_method && headers_ok policy req_headers then
          match apply_acao acao (allow_credentials policy) h with
          | (true, h) =>
              let h := insert_if_valid "access-control-allow-methods"
                         (join_str ", " (allow_methods policy)) h in
              let h := insert_if_valid "access-control-allow-headers"
                         (join_str ", " (allow_headers policy)) h in
              insert_if_valid "access-control-max-age" (pretty (max_age_secs policy)) h
          | (false, h) => h
          end
        else h
    | None => h
    end in
  {| resp_status := 204; resp_headers := h |}.

(** The middleware under a policy: the response it sends itself, or what it makes of
    the response of the inner layers. *)
Inductive CorsVerdict :=
  | ShortCircuit (r : Response)
  | Forward (finish : Response -> Response).

Definition with_headers (f : Headers -> Headers) (r : Response) : Response :=
  {| resp_status := resp_status r; resp_headers := f (resp_headers r) |}.

Definition cors_policy_applied (policy : CorsPolicy) (is_options : bool) (headers : HeaderMap)
    : CorsVerdict :=
  match header headers "origin" with
  | None => Forward (with_headers (vary "origin"))
  | Some origin_raw =>
      match normalize_origin origin_raw with
      | None => Forward (with_headers (vary "origin"))
      | Some norm =>
          let acao := resolve_acao norm (allow_origins policy) in
          if is_options && contains_key headers "access-control-request-method" then
            ShortCircuit (preflight_response policy acao
              (header headers "access-control-request-method")
              (header headers "access-control-request-headers"))
          else
            Forward (with_headers (fun h =>
              let h := vary "origin" h in
              match acao with
              | None => h
              | Some acao =>
                  let '(attached, h) := apply_acao acao (allow_credentials policy) h in
                  if attached && negb (bool_decide (expose_headers policy = [])) then
                    insert_if_valid "access-control-expose-headers"
                      (join_str ", " (expose_headers policy)) h
                  else h
              end))
      end
  end.
End middleware.

(** ** Which policy applies *)

Section policies.
(** The [cors] field of each loaded version, and [server.cors]. *)
Variable cors : string -> string -> option CorsPolicy.
Variable global : option CorsPolicy.

Definition cors_policy_for (r : ModelRegistry) (model version : string) : option CorsPolicy :=
  match models r !! model with
  | None => None
  | Some e => match me_versions e !! version with None => None | Some _ => cors model version end
  end.

Definition active_cors_policy (r : ModelRegistry) (model : string) : option CorsPolicy :=
  match active_versions r !! model with
  | None => None
  | Some v => cors_policy_for r model v
  end.

Definition or_else {A} (a b : option A) : option A := match a with Some _ => a | None => b end.

(** [effective_policy], given the model and version the path targets. *)
Definition effective_policy (r : ModelRegistry) (target : option (string * option string))
    : option CorsPolicy :=
  match target with
  | Some (model, version) =>
      or_else (match version with
               | Some v => cors_policy_for r model v
               | None => active_cors_policy r model
               end) global
  | None => global
  end.

Definition ws_origin_allowed (r : ModelRegistry) (model : string) (version : option string)
    (headers : HeaderMap) : bool :=
  let policy := or_else (or_else (match version with
                                  | Some v => cors_policy_for r model v
                                  | None => None
                                  end) (active_cors_policy r model)) global in
  match policy with
  | None => true
  | Some policy =>
      match header headers "origin" with
      | None => true
      | Some origin =>
          match normalize_origin origin with
          | None => false
          | Some norm => is_some (resolve_acao norm (allow_origins policy))
          end
      end
  end.
End policies.
