(* ===== verification/CorsProps.v ===== *)
(** * What CORS grants

    Theorems about [Cors.v]: the middleware grants an origin only if the policy in force
    lists it, exactly or as a proper sub-domain of a wildcard entry, and never grants
    credentials to the star.  What the inner layers put there themselves is replaced by a
    grant and otherwise kept. *)

From S2P Require Import Prelude Text Errors Registry Cors.
Import Errors.Render.
Open Scope Z_scope.

Lemma in_insert_header k v k' v' (h : list (string * string)) :
  (k, v) ∈ insert_header k' v' h <-> (k = k' /\ v = v') \/ (k <> k' /\ (k, v) ∈ h).
Proof.
  unfold insert_header. rewrite elem_of_app, list_elem_of_singleton, !list_elem_of_In, filter_In.
  simpl. destruct (String.eqb_spec k k') as [->|Hne]; naive_solver.
Qed.

Section facts.
Context `{HttpSyntax}.

Lemma in_insert_if_valid k v k' v' (h : list (string * string)) :
  k <> k' -> (k, v) ∈ insert_if_valid k' v' h -> (k, v) ∈ h.
Proof.
  intros Hne. unfold insert_if_valid. case_goal; [|done]. rewrite in_insert_header. naive_solver.
Qed.

Lemma in_vary k v value (h : list (string * string)) :
  k <> "vary"%string -> (k, v) ∈ vary value h -> (k, v) ∈ h.
Proof.
  intros Hne. unfold vary. case_goal; [|done]. rewrite elem_of_app, list_elem_of_singleton.
  naive_solver.
Qed.

Definition ACAO : string := "access-control-allow-origin".
Definition ACAC : string := "access-control-allow-credentials".

(** A granting header: the allowed origin, or credentials. *)
Definition granting (k : string) : Prop := k = ACAO \/ k = ACAC.

Lemma granting_vary k value v h : granting k -> (k, v) ∈ vary value h -> (k, v) ∈ h.
Proof. intros [->| ->]; by apply in_vary. Qed.

(** The value and the granting headers of an attached grant. *)
Definition acao_value (acao : AcaoValue) : string := match acao with Star => "*" | Origin s => s end.

(** The middleware can attach the grant. *)
Definition attachable (credentials : bool) (acao : AcaoValue) : bool :=
  negb (credentials && match acao with Star => true | _ => false end) && header_value (acao_value acao).

(** The granting headers of [h] are those of [h0], or an attached grant's, which leaves
    no other allowed origin. *)
Definition grants_over (h0 : list (string * string)) (acao : AcaoValue) (credentials : bool)
    (h : list (string * string)) : Prop :=
  (forall v, (ACAO, v) ∈ h ->
     if attachable credentials acao then v = acao_value acao else (ACAO, v) ∈ h0) /\
  (forall v, (ACAC, v) ∈ h ->
     if attachable credentials acao && credentials then v = "true"%string /\ (ACAO, acao_value acao) ∈ h
     else (ACAC, v) ∈ h0).

Lemma apply_acao_attached acao credentials h : fst (apply_acao acao credentials h) = attachable credentials acao.
Proof.
  unfold apply_acao, attachable, acao_value. destruct (credentials && _); [done|]. simpl. by destruct (header_value _).
Qed.

Lemma apply_acao_grants acao credentials h :
  grants_over h acao credentials (snd (apply_acao acao credentials h)).
Proof.
  unfold apply_acao, grants_over, attachable. fold (acao_value acao).
  destruct (credentials && match acao with Star => true | _ => false end); simpl; [done|].
  destruct (header_value (acao_value acao)); simpl; [|done].
  assert (ACAO <> ACAC) by done. fold ACAO ACAC.
  destruct credentials; simpl; split; intros v; rewrite ?in_insert_header; naive_solver.
Qed.

Lemma grants_insert_if_valid h0 acao c k v h :
  ~ granting k -> grants_over h0 acao c h -> grants_over h0 acao c (insert_if_valid k v h).
Proof.
  unfold granting. intros Hk [Ha Hc].
  split; intros v' Hv; (apply in_insert_if_valid in Hv; [|by intros <-; tauto]); [by apply Ha|].
  specialize (Hc _ Hv). destruct (attachable c acao && c); [|done]. destruct Hc as [? Hin]. split; [done|].
  unfold insert_if_valid. case_goal; [|done]. apply in_insert_header. right. split; [|done]. intros <-. tauto.
Qed.

Lemma grants_over_mono h0 h0' acao c h :
  (forall k v, granting k -> (k, v) ∈ h0 -> (k, v) ∈ h0') -> grants_over h0 acao c h -> grants_over h0' acao c h.
Proof.
  intros Hm [Ha Hc]. split; intros v Hv; [specialize (Ha v Hv)|specialize (Hc v Hv)]; case_goal; try done.
  - apply Hm; [by left|done].
  - apply Hm; [by right|done].
Qed.
End facts.

(** ** What an entry names *)

(** The meaning of an allow-list entry: the same origin once normalised, or a
    sub-domain, at least one label below the suffix, under the entry's scheme. *)
Definition entry_names (entry : string) (o : NormalizedOrigin) : Prop :=
  normalize_origin (trim entry) = Some o \/
  exists w label suffix, parse_wildcard (trim entry) = Some w /\
    host o = (label +:+ "." +:+ suffix)%string /\ w_suffix w = ("." +:+ suffix)%string /\
    label <> EmptyString /\ suffix <> EmptyString /\ has_char "*"%char suffix = false /\
    (w_scheme w = "*"%string \/ w_scheme w = scheme o) /\ matches_port w o = true.

Lemma to_lower_empty s : to_ascii_lowercase s = EmptyString -> s = EmptyString.
Proof. by destruct s. Qed.

Lemma lower_star c : eq_char (lower_char c) "*"%char = eq_char c "*"%char.
Proof. destruct c as [[] [] [] [] [] [] [] []]; reflexivity. Qed.

Lemma has_star_lower s : has_char "*"%char (to_ascii_lowercase s) = has_char "*"%char s.
Proof. induction s as [|c s IH]; simpl; [done|]. by rewrite lower_star, IH. Qed.

Lemma wildcard_suffix p w :
  parse_wildcard p = Some w ->
  exists s, w_suffix w = ("." +:+ s)%string /\ s <> EmptyString /\ has_char "*"%char s = false.
Proof.
  unfold parse_wildcard. destruct (match split_once_str _ _ with Some _ => _ | None => _ end) as [sc rest].
  destruct (split_host_port rest) as [[hp port]|]; [|done].
  destruct (strip_prefix "*." hp) as [s|]; [|done].
  destruct (bool_decide (s = EmptyString) || has_char "*"%char s) eqn:Hs; [done|].
  intros [= <-]. apply orb_false_iff in Hs as [Hs1 Hs2]. to_prop.
  exists (to_ascii_lowercase s). split; [done|]. split; [|by rewrite has_star_lower].
  intros He. by apply Hs1, to_lower_empty.
Qed.

Lemma specific_entry_names o entry : specific_entry o entry = true -> entry_names entry o.
Proof.
  unfold specific_entry, matches_specific. intros [_ Hm]%andb_prop.
  assert (matches_exactly (trim entry) o = true -> entry_names entry o) as Hex.
  { unfold matches_exactly. destruct (normalize_origin (trim entry)) as [n|] eqn:Hn; [|done].
    intros Hd%bool_decide_eq_true_1. left. by subst n. }
  destruct (contains_str _ _); [|by apply Hex].
  destruct (parse_wildcard (trim entry)) as [w|] eqn:Hw; [|by apply Hex].
  right. unfold wildcard_matches in Hm.
  destruct (negb (String.eqb (w_scheme w) "*") && negb (String.eqb (w_scheme w) (scheme o))) eqn:Hsc;
    [done|].
  destruct (matches_port w o) eqn:Hp; [|done]. apply andb_prop in Hm as [Hend Hlen].
  apply ends_with_spec in Hend as (label & Hh). destruct (wildcard_suffix _ _ Hw) as (s & Hs & Hne & Hst).
  exists w, label, s. rewrite <- Hs. split_and!; try done.
  - intros ->. rewrite Hh in Hlen. cbn [String.append] in Hlen. by rewrite Nat.ltb_irrefl in Hlen.
  - apply andb_false_iff in Hsc as [Hsc|Hsc]; apply negb_false_iff, String.eqb_eq in Hsc;
      [by left|by right].
Qed.

(** ** The middleware *)

Section middleware.
Context `{HttpSyntax}.

(** The response a client gets, from the response of the inner layers. *)
Definition outcome (v : CorsVerdict) (inner : Response) : Response :=
  match v with ShortCircuit r => r | Forward f => f inner end.

Definition star_listed (policy : CorsPolicy) : Prop :=
  exists e, e ∈ allow_origins policy /\ trim e = "*"%string.

Lemma resolve_acao_spec o l acao :
  resolve_acao o l = Some acao ->
  match acao with
  | Origin s => s = canonical o /\ exists e, e ∈ l /\ entry_names e o
  | Star => exists e, e ∈ l /\ trim e = "*"%string
  end.
Proof.
  unfold resolve_acao. destruct (existsb (specific_entry o) l) eqn:He.
  - intros [= <-]. split; [done|]. apply existsb_exists in He as (e & Hin & Hs).
    exists e. split; [by apply list_elem_of_In|]. by apply specific_entry_names.
  - destruct (existsb (fun e => String.eqb (trim e) "*") l) eqn:Hs; [|intros; discriminate].
    intros [= <-].
    apply existsb_exists in Hs as (e & Hin & Heq). exists e.
    split; [by apply list_elem_of_In|]. by apply String.eqb_eq.
Qed.

(** No entry but the star can name the origin. *)
Definition only_star (policy : CorsPolicy) (o : NormalizedOrigin) : Prop :=
  forall e, e ∈ allow_origins policy -> specific_entry o e = false.

(** The policy grants the request the value: the name of its origin, which an entry
    names, or the star, where it is listed, no entry names the origin and credentials are
    off. *)
Definition granted (policy : CorsPolicy) (headers : gmap string (option string)) (v : string) : Prop :=
  header_value v = true /\ exists raw o,
    header headers "origin" = Some raw /\ normalize_origin raw = Some o /\
    ((v = canonical o /\ exists e, e ∈ allow_origins policy /\ specific_entry o e = true /\ entry_names e o) \/
     (v = "*"%string /\ star_listed policy /\ only_star policy o /\ allow_credentials policy = false)).

(** The middleware answers the request itself. *)
Definition is_preflight (is_options : bool) (headers : gmap string (option string)) : Prop :=
  is_options = true /\ contains_key headers "access-control-request-method" = true /\
  exists raw o, header headers "origin" = Some raw /\ normalize_origin raw = Some o.

Lemma specific_exists o l :
  existsb (specific_entry o) l = true <-> exists e, e ∈ l /\ specific_entry o e = true.
Proof. rewrite existsb_exists. by setoid_rewrite list_elem_of_In. Qed.

(** What is granted is what the resolution finds and the middleware can attach. *)
Lemma granted_resolved policy headers raw o v :
  header headers "origin" = Some raw -> normalize_origin raw = Some o ->
  (granted policy headers v <->
   exists acao, resolve_acao o (allow_origins policy) = Some acao /\
     attachable (allow_credentials policy) acao = true /\ v = acao_value acao).
Proof.
  intros Hr Ho. unfold granted, resolve_acao, attachable. split.
  - intros (Hv & raw' & o' & Hr' & Ho' & Hcase). simplify_eq.
    destruct Hcase as [(-> & e & He & Hs & _)|(-> & (e & He & Hst) & Hno & Hc)].
    + assert (existsb (specific_entry o) (allow_origins policy) = true) as -> by (apply specific_exists; eauto).
      exists (Origin (canonical o)). simpl. by rewrite andb_false_r, Hv.
    + destruct (existsb (specific_entry o) _) eqn:Hex.
      { apply specific_exists in Hex as (e' & He' & Hs). by rewrite Hno in Hs. }
      assert (existsb (fun e => String.eqb (trim e) "*") (allow_origins policy) = true) as ->.
      { apply existsb_exists. exists e. split; [by apply list_elem_of_In|by apply String.eqb_eq]. }
      exists Star. simpl. by rewrite Hc, Hv.
  - intros (acao & Hres & [Hc Hv]%andb_prop & ->). split; [done|]. exists raw, o. split_and!; [done..|].
    pose proof (resolve_acao_spec _ _ _ Hres) as Hspec.
    destruct (existsb (specific_entry o) (allow_origins policy)) eqn:Hex.
    + injection Hres as <-. left. apply specific_exists in Hex as (e & He & Hs). split; [done|].
      exists e. split_and!; [done..|]. by apply specific_entry_names.
    + destruct acao as [|s]; [|by destruct (existsb (fun e => String.eqb (trim e) "*") _)].
      right. split_and!; [done|done| |by destruct (allow_credentials policy)].
      intros e He. destruct (specific_entry o e) eqn:Hs; [|done].
      rewrite (proj2 (specific_exists o _)) in Hex by eauto. done.
Qed.

Lemma preflight_grants policy acao m h :
  grants_over [] acao (allow_credentials policy) (resp_headers (preflight_response policy (Some acao) m h)).
Proof.
  unfold preflight_response. set (h0 := vary _ _). simpl.
  assert (forall k v, granting k -> (k, v) ∈ h0 -> (k, v) ∈ ([] : list (string * string))) as Hn.
  { intros k v Hk Hin. unfold h0 in Hin. by do 3 apply granting_vary in Hin. }
  pose proof (grants_over_mono _ _ _ _ _ Hn (apply_acao_grants acao (allow_credentials policy) h0)) as Hg.
  destruct (method_ok policy m && headers_ok policy h).
  - destruct (apply_acao acao (allow_credentials policy) h0) as [[] h1]; simpl in Hg; [|done].
    repeat (apply grants_insert_if_valid; [by intros [?|?]|]). done.
  - split; intros v Hv; (apply Hn in Hv; [|by (left + right)]); by apply not_elem_of_nil in Hv.
Qed.

(** The response of the middleware: what the inner layers answered with the grant over
    it, or the preflight answer, which holds nothing of theirs. *)
Lemma outcome_grants policy is_options headers inner :
  let h := resp_headers (outcome (cors_policy_applied policy is_options headers) inner) in
  (exists raw o acao h0, header headers "origin" = Some raw /\ normalize_origin raw = Some o /\
     resolve_acao o (allow_origins policy) = Some acao /\ grants_over h0 acao (allow_credentials policy) h /\
     (is_preflight is_options headers -> h0 = []) /\ (~ is_preflight is_options headers -> h0 = resp_headers inner)) \/
  ((forall v, ~ granted policy headers v) /\
   forall k v, granting k -> (k, v) ∈ h -> (k, v) ∈ resp_headers inner /\ ~ is_preflight is_options headers).
Proof.
  unfold cors_policy_applied, is_preflight. set (c := contains_key headers _). clearbody c.
  destruct (header headers "origin") as [raw|] eqn:Hr; simpl.
  2:{ right. split; [intros v (_ & ? & ? & ? & _); congruence|]. intros k v Hk Hin%granting_vary; [|done].
      split; [done|]. naive_solver. }
  destruct (normalize_origin raw) as [o|] eqn:Ho; simpl.
  2:{ right. split; [intros v (_ & ? & ? & ? & ? & _); congruence|]. intros k v Hk Hin%granting_vary; [|done].
      split; [done|]. naive_solver. }
  destruct (resolve_acao o (allow_origins policy)) as [acao|] eqn:Hac.
  - left. exists raw, o, acao. destruct (is_options && c) eqn:Hp.
    + exists []. split_and!; [done..|apply preflight_grants|done|].
      intros Hnp. destruct Hnp. apply andb_prop in Hp as [? ?]. split_and!; [done..|by exists raw, o].
    + exists (resp_headers inner). simpl. split_and!; [done..| |by intros (-> & -> & _)|done].
      pose proof (apply_acao_grants acao (allow_credentials policy) (vary "origin" (resp_headers inner))) as Hg.
      eapply grants_over_mono in Hg; [|intros k v Hk Hv; by apply granting_vary in Hv].
      destruct (apply_acao acao (allow_credentials policy) _) as [at_ h1]. simpl in Hg.
      case_goal; [|done]. apply grants_insert_if_valid; [by intros [?|?]|done].
  - right. split.
    { intros v Hv. apply (granted_resolved _ _ raw o) in Hv as (? & ? & _); [congruence|done..]. }
    intros k v Hk. destruct (is_options && c) eqn:Hp; simpl.
    + unfold preflight_response. simpl. intros Hin. do 3 (apply granting_vary in Hin; [|done]).
      by apply not_elem_of_nil in Hin.
    + intros Hin%granting_vary; [|done]. split; [done|]. by intros (-> & -> & _).
Qed.

(** C32. The CORS middleware grants only what the policy lists: an allow-origin
    header of the response is either the one the policy grants (the canonical name
    of the request's own origin with an entry of the policy that names it, or the
    star, where it is listed, no entry names the origin and credentials are off),
    and then no other value is left beside it; or it was put by the inner layers
    themselves, on a request that is no preflight and to which the policy grants
    nothing. An allow-credentials header is [true] under a policy that allows
    credentials, beside the origin's own name, or was likewise put by the inner
    layers where the policy grants nothing or allows no credentials. *)
Theorem cors_grants_only_listed policy is_options headers inner :
  let h := resp_headers (outcome (cors_policy_applied policy is_options headers) inner) in
  (forall v, (ACAO, v) ∈ h ->
     granted policy headers v \/
     ((ACAO, v) ∈ resp_headers inner /\ ~ is_preflight is_options headers /\ forall w, ~ granted policy headers w)) /\
  (forall v, (ACAC, v) ∈ h ->
     (v = "true"%string /\ allow_credentials policy = true /\ exists raw o, header headers "origin" = Some raw /\
        normalize_origin raw = Some o /\ granted policy headers (canonical o) /\ (ACAO, canonical o) ∈ h) \/
     ((ACAC, v) ∈ resp_headers inner /\ ~ is_preflight is_options headers /\
      (allow_credentials policy = false \/ forall w, ~ granted policy headers w))).
Proof.
  intros h. pose proof (outcome_grants policy is_options headers inner) as Hout. cbv zeta in Hout. fold h in Hout.
  destruct Hout as [(raw & o & acao & h0 & Hr & Ho & Hac & [Ha Hc] & Hpre & Hinner)|[Hno Hkeep]].
  2:{ split; intros v Hin; right; apply Hkeep in Hin as [? ?]; [done|by left|naive_solver|by right]. }
  assert (Hg : forall w, granted policy headers w <-> attachable (allow_credentials policy) acao = true /\ w = acao_value acao).
  { intros w. rewrite (granted_resolved policy headers raw o w Hr Ho). naive_solver. }
  assert (Hp0 : forall k v, (k, v) ∈ h0 -> (k, v) ∈ resp_headers inner /\ ~ is_preflight is_options headers).
  { intros k v Hin. destruct (decide (is_options = true /\ contains_key headers "access-control-request-method" = true)) as [[? ?]|Hn].
    - rewrite Hpre in Hin; [by apply not_elem_of_nil in Hin|]. split_and!; [done..|by exists raw, o].
    - assert (~ is_preflight is_options headers) as Hnp by (intros (? & ? & _); tauto). split; [|done].
      by rewrite <- Hinner. }
  split; intros v Hin; [specialize (Ha v Hin)|specialize (Hc v Hin)].
  - destruct (attachable _ acao) eqn:Hat; [left; by apply Hg|]. right. destruct (Hp0 _ _ Ha). split_and!; [done..|].
    intros w Hw%Hg. naive_solver.
  - destruct (attachable _ acao) eqn:Hat; simpl in Hc.
    + destruct (allow_credentials policy) eqn:Hcr.
      * left. destruct Hc as [-> Hh]. split; [done|]. split; [done|]. exists raw, o.
        assert (acao_value acao = canonical o) as <-.
        { destruct acao as [|s]; [done|]. by destruct (resolve_acao_spec _ _ _ Hac) as [-> _]. }
        split_and!; [done..|by apply Hg|done].
      * right. destruct (Hp0 _ _ Hc). split_and!; [done..|by left].
    + right. destruct (Hp0 _ _ Hc). split_and!; [done..|right]. intros w Hw%Hg. naive_solver.
Qed.

(** The grant of a listed origin replaces what the inner layers put, and an origin the
    policy grants nothing keeps theirs: a worker's own allow-origin header, which the
    header filter lets through, reaches an origin no entry lists. *)
Theorem worker_grant_survives `{MapIter} policy headers raw o w :
  header headers "origin" = Some raw -> normalize_origin raw = Some o ->
  resolve_acao o (allow_origins policy) = None ->
  header_name ACAO = Some ACAO -> header_value w = true ->
  let inner := {| resp_status := 200; resp_headers := map_to_list (inject_response_headers_into ∅ {[ACAO := w]}) |} in
  (ACAO, w) ∈ resp_headers (outcome (cors_policy_applied policy false headers) inner) /\
  forall v, ~ granted policy headers v.
Proof.
  intros Hr Ho Hno Hn Hw inner. split.
  - unfold cors_policy_applied. rewrite Hr, Ho, Hno. simpl.
    assert ((ACAO, w) ∈ resp_headers inner) as Hin.
    { unfold inner. simpl. apply elem_of_map_to_list. unfold inject_response_headers_into.
      pose proof (map_iter_perm (V := string) {[ACAO := w]}) as Hp. rewrite map_to_list_singleton in Hp.
      apply Permutation_singleton_r in Hp. rewrite Hp. simpl. rewrite Hn, Hw. by rewrite lookup_insert_eq. }
    unfold vary. case_goal; [|done]. apply elem_of_app. by left.
  - intros v Hv. apply (granted_resolved _ _ raw o) in Hv as (? & ? & _); [congruence|done..].
Qed.
End middleware.

(** ** The handshake and the middleware *)

(** For a version that declares no policy the handshake falls back to the policy of
    the active version, the middleware to the global one. *)
Theorem handshake_uses_active_policy (cors : string -> string -> option CorsPolicy)
    (global : option CorsPolicy) r m v p headers raw o :
  cors_policy_for cors r m v = None -> active_cors_policy cors r m = Some p ->
  header headers "origin" = Some raw -> normalize_origin raw = Some o ->
  effective_policy cors global r (Some (m, Some v)) = global /\
  ws_origin_allowed cors global r m (Some v) headers = is_some (resolve_acao o (allow_origins p)).
Proof.
  intros Hv Ha Ho Hn. unfold effective_policy, ws_origin_allowed. rewrite Hv, Ha. simpl.
  by rewrite Ho, Hn.
Qed.

(** ** The theorems at concrete inputs *)

Definition policy1 : CorsPolicy :=
  {| allow_origins := ["https://*.example.com"; "http://localhost:3000"]; allow_methods := ["POST"];
     allow_headers := ["content-type"]; expose_headers := []; allow_credentials := true;
     max_age_secs := 7200 |}.

Definition request1 (origin : string) : gmap string (option string) := {[ "origin"%string := Some origin ]}.

Definition answered (origin : string) : list (string * string) :=
  resp_headers (outcome (cors_policy_applied policy1 false (request1 origin))
                        {| resp_status := 200; resp_headers := [] |}).

(** A sub-domain is granted, the apex and a look-alike are not. *)
Example cors_examples :
  answered "https://App.example.com:443" = [("vary", "origin"); (ACAO, "https://app.example.com");
                                            (ACAC, "true")] /\
  answered "https://example.com" = [("vary", "origin")] /\
  answered "https://evilexample.com" = [("vary", "origin")] /\
  answered "null" = [("vary", "origin")].
Proof. vm_compute. done. Qed.
