(* ===== verification/Access.v ===== *)
(** * Access control

    Models [src/src/access_control.rs] (the endpoint-class policy, the key comparison,
    the /v1 gate), the path classes it builds on ([access_log_target] of
    [src/src/http/routes.rs]), the HTTP gate with its cross-site guard
    ([access_control_middleware] of [src/src/http/mod.rs]) and the per-model API keys
    ([enforce_auth] of [src/src/http/handlers/mod.rs], [enforce_auth_grpc] of
    [src/src/grpc/auth.rs]).  The environment, the secret files and the SHA-256
    fingerprint are arguments. *)

From S2P Require Import Prelude Text Errors Registry Cors.
Open Scope Z_scope.

(** ** Endpoint classes *)

Inductive EndpointClass := Admin | Inference | Health.

#[export] Instance EndpointClass_eq_dec : EqDecision EndpointClass.
Proof. solve_decision. Defined.

Inductive Protocol := Http | Grpc | Sse | WebSocket | Http2.

Inductive ProtocolAxis := AxisHttp | AxisGrpc.

Definition protocol_axis (p : Protocol) : ProtocolAxis :=
  match p with
  | Grpc => AxisGrpc
  | Http | Sse | WebSocket | Http2 => AxisHttp
  end.

(** The last segments of the inference routes, and of the routes under a model that
    are not inference. *)
Definition inference_leaf (s : string) : bool :=
  bool_decide (s ∈ ["infer"; "events"; "stream"; "bidi"; "decoupled"; "decoupled-stream";
                    "generate"; "generate_stream"]%string).

Definition admin_leaf (s : string) : bool :=
  bool_decide (s ∈ ["ready"; "health"; "routing"; "activate"; "compare"; "reload"]%string).

Definition access_log_target (path : string) : option (string * option string) :=
  match strip_prefix "/v2/models/" path with
  | None => None
  | Some rest =>
      match split_char "/"%char rest with
      | [] => None
      | model :: segs =>
          if bool_decide (model = EmptyString) then None
          else
            match segs with
            | [] => None
            | [leaf] =>
                if inference_leaf leaf then Some (model, None)
                else if String.eqb leaf "versions" then None
                else if admin_leaf leaf then None
                else Some (model, None)
            | v :: segs' =>
                if String.eqb v "versions" then
                  match segs' with
                  | [version; leaf] =>
                      if inference_leaf leaf && negb (bool_decide (version = EmptyString))
                      then Some (model, Some version) else None
                  | _ => None
                  end
                else Some (model, None)
            end
      end
  end.

Definition health_path (path : string) : bool :=
  bool_decide (path ∈ ["/health"; "/livez"; "/readyz"; "/startupz"; "/v2/health/live";
                       "/v2/health/ready"]%string).

Definition classify_http_path (path : string) : EndpointClass :=
  if health_path path then Health
  else if is_some (access_log_target path) then Inference
  else if starts_with "/v1/" path then Inference
  else Admin.

(** ** Secrets *)

(** [ct_eq]: every byte is compared. *)
Definition ct_eq (a b : list Ascii.ascii) : bool :=
  if negb (Nat.eqb (length a) (length b)) then false
  else foldl (fun acc xy => acc && eq_char (fst xy) (snd xy)) true (zip a b).

Abbreviation as_bytes := String.list_ascii_of_string.

(** [ct_contains]: every key is compared. *)
Definition ct_contains (keys : list string) (value : string) : bool :=
  foldl (fun found k => found || ct_eq (as_bytes k) (as_bytes value)) false keys.

Inductive EndpointControl :=
  | CPublic
  | CKey (key : string) (value value_env value_file : option string).

Inductive ResolvedControl :=
  | Unconfigured
  | Public
  | Key (header : string) (secret : list Ascii.ascii) (fingerprint : string).

Section build.
Variable env : string -> option string.                 (** [std::env::var] *)
Variable read_file : string -> result string string.    (** [std::fs::read], as text *)
Variable secret_fingerprint : list Ascii.ascii -> string.

Definition nonempty (v : option string) : option string :=
  match v with Some v => if bool_decide (v = EmptyString) then None else Some v | None => None end.

Definition resolve_secret (value value_env value_file : option string)
    : result AppError (list Ascii.ascii) :=
  match nonempty value with
  | Some v => Ok (as_bytes v)
  | None =>
      match value_env, value_file with
      | Some e, _ =>
          match nonempty (env e) with
          | Some v => Ok (as_bytes v)
          | None =>
              Err (Config ("access_control value_env '" +:+ e +:+ "' is unset or empty"))
          end
      | None, Some path =>
          match read_file path with
          | Err e =>
              Err (Config ("access_control value_file '" +:+ path +:+ "' unreadable: " +:+ e))
          | Ok bytes =>
              let v := trim bytes in
              if bool_decide (v = EmptyString) then
                Err (Config ("access_control value_file '" +:+ path +:+ "' is empty"))
              else Ok (as_bytes v)
          end
      | None, None =>
          Err (Config "access_control key mode requires one of value / value_env / value_file")
      end
  end.

Definition resolve_one (ctrl : option EndpointControl) : result AppError ResolvedControl :=
  match ctrl with
  | None => Ok Unconfigured
  | Some CPublic => Ok Public
  | Some (CKey key value value_env value_file) =>
      if bool_decide (trim key = EmptyString) then
        Err (Config "access_control key mode requires a non-empty header name (`key`)")
      else
        let? secret := resolve_secret value value_env value_file in
        Ok (Key key secret (secret_fingerprint secret))
  end.

Record CellPolicy := { cp_http : ResolvedControl; cp_grpc : ResolvedControl }.

Definition resolve_cell (http grpc : option EndpointControl) : result AppError CellPolicy :=
  let? http := resolve_one http in
  let? grpc := resolve_one grpc in
  Ok {| cp_http := http; cp_grpc := grpc |}.

Record ProtocolControl := { pc_http : option EndpointControl; pc_grpc : option EndpointControl }.

Record AccessControlConfig := {
  acc_admin : ProtocolControl;
  acc_inference : ProtocolControl;
  acc_health : option EndpointControl;
}.

Record AccessControl := {
  ac_admin : CellPolicy;
  ac_inference : CellPolicy;
  ac_health : CellPolicy;
  trusted_origins : list NormalizedOrigin;
}.

Definition build (cfg : AccessControlConfig) : result AppError AccessControl :=
  let? health := resolve_one (acc_health cfg) in
  let? admin := resolve_cell (pc_http (acc_admin cfg)) (pc_grpc (acc_admin cfg)) in
  let? inference := resolve_cell (pc_http (acc_inference cfg)) (pc_grpc (acc_inference cfg)) in
  Ok {| ac_admin := admin; ac_inference := inference;
        ac_health := {| cp_http := health; cp_grpc := health |}; trusted_origins := [] |}.

(** *** The gate of the /v1 routes *)

Record OpenaiAuthGate := { og_header : string; og_secret : list Ascii.ascii }.

Definition openai_build (ctrl : option EndpointControl) : result AppError (option OpenaiAuthGate) :=
  match ctrl with
  | None | Some CPublic => Ok None
  | Some (CKey key value value_env value_file) =>
      if bool_decide (trim key = EmptyString) then
        Err (Config "openai_compact.auth key mode requires a non-empty header name (`key`)")
      else
        let? secret := resolve_secret value value_env value_file in
        Ok (Some {| og_header := key; og_secret := secret |})
  end.
End build.

(** ** Decisions *)

Definition cell (ac : AccessControl) (class : EndpointClass) (axis : ProtocolAxis)
    : ResolvedControl :=
  let cp := match class with
            | Admin => ac_admin ac
            | Inference => ac_inference ac
            | Health => ac_health ac
            end in
  match axis with AxisHttp => cp_http cp | AxisGrpc => cp_grpc cp end.

Definition check (ac : AccessControl) (class : EndpointClass) (protocol : Protocol)
    (headers : string -> option string) (is_loopback : bool) : bool :=
  match cell ac class (protocol_axis protocol) with
  | Public => true
  | Key header secret _ =>
      match headers header with
      | Some presented => ct_eq (as_bytes presented) secret
      | None => false
      end
  | Unconfigured =>
      match class with
      | Admin => is_loopback
      | Inference | Health => true
      end
  end.

Definition uses_loopback_exemption (ac : AccessControl) (class : EndpointClass)
    (protocol : Protocol) : bool :=
  match cell ac class (protocol_axis protocol) with Unconfigured => true | _ => false end.

Fixpoint parse_origins (origins : list string) : result AppError (list NormalizedOrigin) :=
  match origins with
  | [] => Ok []
  | raw :: origins =>
      let? origin := ok_or (normalize_origin raw)
                       (Validation ("invalid trusted_origin entry: " +:+ raw)) in
      let? rest := parse_origins origins in
      Ok (origin :: rest)
  end.

Definition set_trusted_origins (origins : list string) (ac : AccessControl)
    : result AppError AccessControl :=
  let? parsed := parse_origins origins in
  Ok {| ac_admin := ac_admin ac; ac_inference := ac_inference ac; ac_health := ac_health ac;
        trusted_origins := parsed |}.

Definition origin_is_trusted (ac : AccessControl) (announced : string) : bool :=
  match normalize_origin announced with
  | None => false
  | Some origin => bool_decide (origin ∈ trusted_origins ac)
  end.

Definition admin_denies_non_loopback (ac : AccessControl) : bool :=
  match cell ac Admin AxisHttp, cell ac Admin AxisGrpc with
  | Unconfigured, Unconfigured => true
  | _, _ => false
  end.

Definition key_fingerprint (ac : AccessControl) (class : EndpointClass) (protocol : Protocol)
    : option string :=
  match cell ac class (protocol_axis protocol) with
  | Key _ _ fingerprint => Some fingerprint
  | _ => None
  end.

Definition strip_bearer (value : string) : option string :=
  match split_once " "%char value with
  | Some (scheme, rest) => if eq_ignore_ascii_case scheme "Bearer" then Some rest else None
  | None => None
  end.

Definition openai_check (g : OpenaiAuthGate) (headers : string -> option string) : bool :=
  match headers (og_header g) with
  | None => false
  | Some presented =>
      (eq_ignore_ascii_case (og_header g) "authorization"
       && match strip_bearer presented with
          | Some token => ct_eq (as_bytes token) (og_secret g)
          | None => false
          end)
      || ct_eq (as_bytes presented) (og_secret g)
  end.

(** ** The HTTP gate *)

Inductive Method := GET | HEAD | OPTIONS | TRACE | POST | PUT | DELETE | PATCH | CONNECT.

#[export] Instance Method_eq_dec : EqDecision Method.
Proof. solve_decision. Defined.

(** What the layers read of a request; [peer] is whether the transport peer is a
    loopback address, [None] without one (a Unix socket). *)
Record Request := {
  method : Method;
  path : string;
  headers : HeaderMap;
  peer : option bool;
}.

Definition admin_request_is_cross_site (class : EndpointClass) (ac : AccessControl) (r : Request)
    : bool :=
  if negb (bool_decide (class = Admin)) then false
  else if match method r with GET | HEAD | OPTIONS | TRACE => true | _ => false end then false
  else if negb (uses_loopback_exemption ac class Http) then false
  else
    match header (headers r) "host" with
    | None => false
    | Some host =>
        match or_else (header (headers r) "origin") (header (headers r) "referer") with
        | None => false
        | Some value => negb (origin_matches_host value host) && negb (origin_is_trusted ac value)
        end
    end.

(** [access_control_middleware]: [Ok] lets the request pass. *)
Definition access_control_middleware (ac : AccessControl) (r : Request) : result AppError unit :=
  let class := classify_http_path (path r) in
  let is_loopback := default true (peer r) in
  if negb (check ac class Http (header (headers r)) is_loopback) then
    Err (Unauthorized "access denied")
  else if admin_request_is_cross_site class ac r then
    Err (Unauthorized "cross-site admin request denied (Origin/Referer does not match Host)")
  else Ok tt.

(** ** API keys of a model *)

Record AuthPolicy := { auth_header : string; auth_keys : list string }.

Definition key_accepted (auth : AuthPolicy) (value : string) : bool :=
  bool_decide (auth_keys auth = []) || ct_contains (auth_keys auth) value.

Definition enforce_auth (auth : option AuthPolicy) (headers : HeaderMap) : result AppError unit :=
  match auth with
  | None => Ok tt
  | Some auth =>
      let value := default EmptyString (header headers (auth_header auth)) in
      if bool_decide (value = EmptyString) then
        Err (Unauthorized ("missing API key (header: " +:+ auth_header auth +:+ ")"))
      else if negb (key_accepted auth value) then
        Err (Unauthorized ("invalid API key (header: " +:+ auth_header auth +:+ ")"))
      else Ok tt
  end.

Definition credentials_ok (headers : HeaderMap) (p : AuthPolicy) : bool :=
  let value := default EmptyString (header headers (auth_header p)) in
  negb (bool_decide (value = EmptyString)) && key_accepted p value.

(** The error an unresolved model answers with. *)
Definition auth_gate_for_unknown_model (policies : list AuthPolicy) (headers : HeaderMap)
    (original : AppError) : AppError :=
  if bool_decide (policies = []) then original
  else if existsb (credentials_ok headers) policies then original
  else Unauthorized "missing or invalid API key".

(** gRPC: the transport metadata first, then the [headers] map of the message, whose
    entries come in some order. *)
Definition enforce_auth_grpc (auth : option AuthPolicy) (metadata : HeaderMap)
    (proto_headers : list (string * string)) : result AppError unit :=
  match auth with
  | None => Ok tt
  | Some auth =>
      let value :=
        default EmptyString
          (or_else (header metadata (auth_header auth))
             (snd <$> List.find (fun kv => eq_ignore_ascii_case (fst kv) (auth_header auth))
                        proto_headers)) in
      if bool_decide (value = EmptyString) then
        Err (Unauthorized ("missing API key (header: " +:+ auth_header auth +:+ ")"))
      else if negb (key_accepted auth value) then
        Err (Unauthorized ("invalid API key (header: " +:+ auth_header auth +:+ ")"))
      else Ok tt
  end.
