(* ===== verification/ClientIp.v ===== *)
(** * The client's address

    Models [src/src/client_ip.rs] (which hop of [X-Forwarded-For] is the client),
    the contexts built from it ([http_client_ip] of [src/src/request_context.rs],
    [from_grpc_metadata], [finalize_context] and [service_interceptor] of
    [src/src/grpc/interceptor.rs]), [peer_ip_fallback_target] of
    [src/src/http/handlers/mod.rs] and the request ids.  [IpAddr]'s parser and printer
    are those of the Rust library; the CIDR type of the [ipnet] crate is a parameter.

    The theorems: what a client writes into the forwarding headers does not change the
    address it is charged for, unless the connection has no peer address; an IPv4
    address prints and parses back. *)

From S2P Require Import Prelude Text Errors Validation Cors Access.
Open Scope Z_scope.

(** ** Addresses *)

Inductive IpAddr :=
  | V4 (a b c d : Z)              (** four octets *)
  | V6 (groups : list Z).         (** eight 16-bit groups *)

#[export] Instance IpAddr_eq_dec : EqDecision IpAddr.
Proof. solve_decision. Defined.

Definition is_loopback (ip : IpAddr) : bool :=
  match ip with
  | V4 a _ _ _ => a =? 127
  | V6 groups => bool_decide (groups = [0; 0; 0; 0; 0; 0; 0; 1])
  end.

(** *** Parsing: a reader returns its value and the rest of the input *)

Definition to_digit (radix : Z) (c : Ascii.ascii) : option Z :=
  let n := char_code c in
  let d := if is_digit c then n - 48
           else if (97 <=? n) && (n <=? 122) then n - 87
           else if (65 <=? n) && (n <=? 90) then n - 55
           else radix in
  if d <? radix then Some d else None.

(** The digits of a number below [limit], at most [max_digits] of them. *)
Fixpoint read_digits (radix limit : Z) (max_digits : nat) (count : nat) (acc : Z) (s : string)
    : option (Z * nat * string) :=
  match s with
  | EmptyString => Some (acc, count, s)
  | String c rest =>
      match to_digit radix c with
      | None => Some (acc, count, s)
      | Some d =>
          if limit <? acc * radix + d then None
          else if Nat.ltb max_digits (S count) then None
          else read_digits radix limit max_digits (S count) (acc * radix + d) rest
      end
  end.

Definition read_number (radix limit : Z) (max_digits : nat) (allow_zero_prefix : bool) (s : string)
    : option (Z * string) :=
  match read_digits radix limit max_digits 0 0 s with
  | Some (n, count, rest) =>
      if Nat.eqb count 0 then None
      else if negb allow_zero_prefix && starts_with "0" s && Nat.ltb 1 count then None
      else Some (n, rest)
  | None => None
  end.

Definition read_given_char (c : Ascii.ascii) (s : string) : option string :=
  match s with
  | String a rest => if eq_char a c then Some rest else None
  | EmptyString => None
  end.

Definition read_octet (s : string) : option (Z * string) := read_number 10 255 3 false s.

(** [read_separator]: the separator is read before every item but the first. *)
Definition read_separator {A} (sep : Ascii.ascii) (index : nat)
    (inner : string -> option (A * string)) (s : string) : option (A * string) :=
  match index with
  | O => inner s
  | S _ => match read_given_char sep s with Some s => inner s | None => None end
  end.

Definition read_ipv4_addr (s : string) : option (Z * Z * Z * Z * string) :=
  match read_separator "."%char 0 read_octet s with
  | None => None
  | Some (a, s) =>
      match read_separator "."%char 1 read_octet s with
      | None => None
      | Some (b, s) =>
          match read_separator "."%char 2 read_octet s with
          | None => None
          | Some (c, s) =>
              match read_separator "."%char 3 read_octet s with
              | None => None
              | Some (d, s) => Some (a, b, c, d, s)
              end
          end
      end
  end.

(** An IPv4 address as two groups. *)
Definition read_ipv4_groups (s : string) : option (Z * Z * string) :=
  match read_ipv4_addr s with
  | Some (a, b, c, d, s) => Some (a * 256 + b, c * 256 + d, s)
  | None => None
  end.

(** [read_groups]: the groups from index [i] on, whether an IPv4 address ended them, and
    the rest; [left] is how many may still be read. *)
Fixpoint read_groups (left i : nat) (s : string) : list Z * bool * string :=
  match left with
  | O => ([], false, s)
  | S left' =>
      match (if Nat.ltb 1 left then
               match i with
               | O => read_ipv4_groups s
               | S _ => match read_given_char ":"%char s with
                        | Some s => read_ipv4_groups s
                        | None => None
                        end
               end
             else None) with
      | Some (g1, g2, s) => ([g1; g2], true, s)
      | None =>
          match read_separator ":"%char i (read_number 16 65535 4 true) s with
          | Some (g, s) =>
              let '(gs, v4, s) := read_groups left' (S i) s in (g :: gs, v4, s)
          | None => ([], false, s)
          end
      end
  end.

Definition read_ipv6_addr (s : string) : option (list Z * string) :=
  let '(head, head_ipv4, s) := read_groups 8 0 s in
  if Nat.eqb (length head) 8 then Some (head, s)
  else if head_ipv4 then None
  else
    match read_given_char ":"%char s with
    | None => None
    | Some s =>
        match read_given_char ":"%char s with
        | None => None
        | Some s =>
            let limit := (8 - (length head + 1))%nat in
            let '(tail, _, s) := read_groups limit 0 s in
            Some (head ++ replicate (8 - length head - length tail) 0 ++ tail, s)
        end
    end.

(** [str::parse::<IpAddr>]. *)
Definition parse_ip (s : string) : option IpAddr :=
  match read_ipv4_addr s with
  | Some (a, b, c, d, rest) => if bool_decide (rest = EmptyString) then Some (V4 a b c d) else None
  | None =>
      match read_ipv6_addr s with
      | Some (groups, rest) => if bool_decide (rest = EmptyString) then Some (V6 groups) else None
      | None => None
      end
  end.

(** *** Printing *)

Definition show_v4 (a b c d : Z) : string :=
  (pretty a +:+ "." +:+ pretty b +:+ "." +:+ pretty c +:+ "." +:+ pretty d)%string.

Definition hex_digit (d : Z) : Ascii.ascii :=
  Ascii.ascii_of_N (Z.to_N (if d <? 10 then 48 + d else 87 + d)).

(** [{:x}] of a 16-bit group: no leading zeros. *)
Fixpoint show_hex_digits (ds : list Z) (leading : bool) : string :=
  match ds with
  | [] => EmptyString
  | [d] => String (hex_digit d) EmptyString
  | d :: ds =>
      if leading && (d =? 0) then show_hex_digits ds true
      else String (hex_digit d) (show_hex_digits ds false)
  end.

Definition show_hex (g : Z) : string :=
  show_hex_digits [g / 4096 mod 16; g / 256 mod 16; g / 16 mod 16; g mod 16] true.

(** The first longest run of zero groups: its start and length. *)
Fixpoint longest_zeros (i : nat) (cur best : nat * nat) (gs : list Z) : nat * nat :=
  match gs with
  | [] => best
  | g :: gs =>
      if g =? 0 then
        let cur := ((if Nat.eqb cur.2 0 then i else cur.1), S cur.2) in
        longest_zeros (S i) cur (if Nat.ltb best.2 cur.2 then cur else best) gs
      else longest_zeros (S i) (0, 0)%nat best gs
  end.

Definition show_groups (groups : list Z) : string :=
  let '(start, len) := longest_zeros 0 (0, 0)%nat (0, 0)%nat groups in
  if Nat.ltb 1 len then
    (join_str ":" (map show_hex (take start groups)) +:+ "::"
     +:+ join_str ":" (map show_hex (drop (start + len) groups)))%string
  else join_str ":" (map show_hex groups).

Definition show_v6 (groups : list Z) : string :=
  match groups with
  | [0; 0; 0; 0; 0; 65535; hi; lo] =>
      ("::ffff:" +:+ show_v4 (hi / 256) (hi mod 256) (lo / 256) (lo mod 256))%string
  | _ => show_groups groups
  end.

(** [IpAddr::to_string]. *)
Definition show_ip (ip : IpAddr) : string :=
  match ip with
  | V4 a b c d => show_v4 a b c d
  | V6 groups => show_v6 groups
  end.

(** ** Which hop is the client *)

(** [merge_xff]: the header's values in order of appearance. *)
Definition merge_xff (values : list string) : option string :=
  let joined := filter (fun s => s <> EmptyString) (map trim values) in
  if bool_decide (joined = []) then None else Some (join_str ", " joined).

Definition segments (xff : string) : list string :=
  filter (fun s => s <> EmptyString) (map trim (split_char ","%char xff)).

(** How the walk from the right ends. *)
Inductive Walk :=
  | Client (ip : IpAddr)
  | HitInvalid
  | AllTrusted.

Section networks.
(** [ipnet]: networks, membership, the parser of a CIDR and the network of one address. *)
Context {IpNet : Type}.
Variable contains : IpNet -> IpAddr -> bool.
Variable parse_cidr : string -> option IpNet.
Variable single : IpAddr -> IpNet.

Definition parse_network (entry : string) : option IpNet :=
  match parse_cidr (trim entry) with
  | Some net => Some net
  | None => single <$> parse_ip (trim entry)
  end.

(** [trusted_networks] of the server's configuration: one bad entry fails the start. *)
Fixpoint trusted_networks (entries : list string) : result string (list IpNet) :=
  match entries with
  | [] => Ok []
  | entry :: entries =>
      let? net := ok_or (parse_network entry)
        ("server.trusted_proxies entry " +:+ entry +:+ " is not a valid CIDR or IP address")%string in
      let? nets := trusted_networks entries in
      Ok (net :: nets)
  end.

Section trusted.
Variable trusted : list IpNet.

Definition is_trusted (ip : IpAddr) : bool := existsb (fun net => contains net ip) trusted.

Fixpoint walk (segs : list string) : Walk :=
  match segs with
  | [] => AllTrusted
  | seg :: segs =>
      match parse_ip seg with
      | Some ip => if is_trusted ip then walk segs else Client ip
      | None => HitInvalid
      end
  end.

Definition walk_xff (xff : string) : option IpAddr :=
  let segs := segments xff in
  match walk (rev segs) with
  | Client ip => Some ip
  | HitInvalid => None
  | AllTrusted => head (omap parse_ip segs)
  end.

Definition nonblank (o : option string) : option string :=
  match o with
  | Some s => if bool_decide (trim s = EmptyString) then None else Some (trim s)
  | None => None
  end.

Definition resolve_from_headers (xff x_real_ip : option string) : option IpAddr :=
  or_else
    (match nonblank xff with Some xff => walk_xff xff | None => None end)
    (match nonblank x_real_ip with Some xri => parse_ip xri | None => None end).

Definition extract_client_ip (xff x_real_ip : option string) (peer : option IpAddr)
    : option IpAddr :=
  match peer with
  | Some p =>
      if negb (is_trusted p) then Some p
      else or_else (resolve_from_headers xff x_real_ip) (Some p)
  | None => resolve_from_headers xff x_real_ip
  end.

(** ** The contexts *)

(** All the headers in order of appearance, under their lower-case names; [None] is a
    value that is not visible ASCII. *)
Abbreviation Headers := (list (string * option string)) (only parsing).

Definition get_all (h : Headers) (name : string) : list string :=
  omap (fun kv => if String.eqb (fst kv) (to_ascii_lowercase name) then snd kv else None) h.

(** [headers.get(name).and_then(to_str)]: the first value. *)
Definition get_first (h : Headers) (name : string) : option string :=
  match List.find (fun kv => String.eqb (fst kv) (to_ascii_lowercase name)) h with
  | Some (_, v) => v
  | None => None
  end.

Definition header_first (h : Headers) (name : string) : option string := nonempty (get_first h name).

Definition http_client_ip (h : Headers) (peer : option IpAddr) : string :=
  default EmptyString
    (show_ip <$> extract_client_ip (merge_xff (get_all h "x-forwarded-for"))
                   (header_first h "x-real-ip") peer).

Definition peer_ip_fallback_target (h : Headers) (peer : option IpAddr) : option string :=
  if existsb (fun kv => String.eqb (fst kv) "x-forwarded-for" || String.eqb (fst kv) "x-real-ip") h
  then None
  else show_ip <$> peer.

Definition peer_ip_fallback (h : Headers) (peer : option IpAddr) : Headers :=
  match peer_ip_fallback_target h peer with
  | Some ip => h ++ [("x-real-ip"%string, Some ip)]
  | None => h
  end.

(** [observability_middleware]: the request id; [uuid] is the generated one. *)
Definition http_request_id (h : Headers) (uuid : string) : string :=
  match get_first h "x-client-request-id" with
  | Some id => if is_valid_request_id id then id else uuid
  | None => uuid
  end.

Record RequestContext := {
  request_id : string;
  client_ip : string;
}.

Definition from_http_parts (h : Headers) (peer : option IpAddr) (uuid : string) : RequestContext :=
  {| request_id := http_request_id h uuid; client_ip := http_client_ip h peer |}.

(** Empty strings stand for what the metadata did not say. *)
Definition from_grpc_metadata (m : Headers) (peer : option IpAddr) : RequestContext :=
  {| request_id := http_request_id m EmptyString; client_ip := http_client_ip m peer |}.

(** [finalize_context], with the [headers] map of the decoded message. *)
Definition finalize_context (cx : option RequestContext) (m : Headers)
    (proto_headers : gmap string string) (peer : option IpAddr) (uuid : string) : RequestContext :=
  let cx := default (from_grpc_metadata m peer) cx in
  {| request_id :=
       if bool_decide (request_id cx = EmptyString) then
         match proto_headers !! "x-client-request-id"%string with
         | Some id => if is_valid_request_id id then id else uuid
         | None => uuid
         end
       else request_id cx;
     client_ip :=
       if bool_decide (client_ip cx = EmptyString) then
         default EmptyString
           (show_ip <$> extract_client_ip (proto_headers !! "x-forwarded-for"%string)
                          (proto_headers !! "x-real-ip"%string) peer)
       else client_ip cx |}.

(** [service_interceptor] of a service of the given class: the context, or the refusal
    ([Unauthenticated]). *)
Definition service_interceptor (ac : AccessControl) (class : EndpointClass) (m : Headers)
    (peer : option IpAddr) (uuid : string) : option RequestContext :=
  let cx := from_grpc_metadata m peer in
  let id := if bool_decide (request_id cx = EmptyString) && negb (bool_decide (class = Inference))
            then uuid else request_id cx in
  if check ac class Grpc (get_first m) (match peer with Some ip => is_loopback ip | None => true end)
  then Some {| request_id := id; client_ip := client_ip cx |}
  else None.
End trusted.
End networks.

(** ** Facts *)

Lemma segments_cons_space c s : is_space c = true -> segments (String c s) = segments s.
Proof.
  intros Hc. unfold segments. cbn [split_char].
  replace (eq_char c ","%char) with false
    by (symmetry; apply not_true_is_false; rewrite eq_char_true; intros ->; by vm_compute in Hc).
  pose proof (split_char_nonempty ","%char s) as Hne.
  destruct (split_char ","%char s) as [|p ps]; [done|]. cbn [map]. by rewrite trim_cons_space.
Qed.

(** Joining header values concatenates their hops. *)
Lemma segments_join values :
  segments (join_str ", " values) = concat (map segments values).
Proof.
  induction values as [|v [|v' values] IH]; [done|simpl; by rewrite app_nil_r|].
  change (join_str ", " (v :: v' :: values)) with
    (v +:+ String ","%char (String " "%char (join_str ", " (v' :: values))))%string.
  change (concat (map segments (v :: v' :: values)))
    with (segments v ++ concat (map segments (v' :: values))).
  rewrite <- IH, <- (segments_cons_space " "%char (join_str ", " (v' :: values))) by done.
  unfold segments at 1. rewrite split_char_sep, map_app, filter_app. done.
Qed.

Lemma segments_trim s : segments (trim s) = segments s.
Proof.
  assert (forall s, segments (trim_end s) = segments s) as He.
  { intros t. unfold segments. f_equal.
    assert (forall l l', map trim_end l = map trim_end l' -> map trim l = map trim l') as Hm.
    { clear. induction l as [|x l IH]; intros [|y l'] H; try done. simpl in *. injection H as Hx Hl.
      by rewrite (trim_of_ends x y), (IH l'). }
    by apply Hm, split_trim_end. }
  unfold trim. rewrite He. clear He. induction s as [|c s IH]; [done|]. simpl.
  destruct (is_space c) eqn:Hc; [|done]. by rewrite segments_cons_space.
Qed.

Section networks_facts.
Context {IpNet : Type} (contains : IpNet -> IpAddr -> bool) (trusted : list IpNet).

(** The hops the proxies appended decide: trusted ones are passed over, the first that
    is not is the client, whatever stands to the left of it. *)
Lemma walk_hops proxies client forged ip :
  Forall (fun seg => exists p, parse_ip seg = Some p /\ is_trusted contains trusted p = true) proxies ->
  parse_ip client = Some ip -> is_trusted contains trusted ip = false ->
  walk contains trusted (proxies ++ client :: forged) = Client ip.
Proof.
  intros Hp Hc Ht. induction Hp as [|seg proxies (p & Hseg & Hp) _ IH]; simpl.
  - by rewrite Hc, Ht.
  - by rewrite Hseg, Hp.
Qed.

Lemma merge_xff_segments values :
  concat (map segments values) =
  match merge_xff values with Some xff => segments xff | None => [] end.
Proof.
  assert (concat (map segments values)
          = concat (map segments (filter (fun s => s <> EmptyString) (map trim values)))) as ->.
  { induction values as [|v values IH]; [done|]. cbn [map concat]. rewrite IH, <- (segments_trim v).
    destruct (decide (trim v = EmptyString)) as [He|He].
    - rewrite filter_cons_False by (intros Hn; by apply Hn). by rewrite He.
    - by rewrite filter_cons_True. }
  unfold merge_xff. case_bool_decide as He; [by rewrite He|]. by rewrite segments_join.
Qed.

Lemma nonblank_segments xff seg :
  seg ∈ segments xff -> nonblank (Some xff) = Some (trim xff).
Proof.
  intros Hs. unfold nonblank. case_bool_decide as He; [|done].
  rewrite <- segments_trim, He in Hs. by apply elem_of_nil in Hs.
Qed.

Lemma extract_from_hops h p forged client proxies ip xri :
  concat (map segments (get_all h "x-forwarded-for")) = forged ++ client :: proxies ->
  Forall (fun seg => exists p, parse_ip seg = Some p /\ is_trusted contains trusted p = true) proxies ->
  parse_ip client = Some ip -> is_trusted contains trusted ip = false ->
  is_trusted contains trusted p = true ->
  extract_client_ip contains trusted (merge_xff (get_all h "x-forwarded-for")) xri (Some p) = Some ip.
Proof.
  intros Hsegs Hproxies Hip Hclient Hpeer. rewrite merge_xff_segments in Hsegs.
  unfold extract_client_ip. rewrite Hpeer. simpl. unfold resolve_from_headers.
  destruct (merge_xff _) as [xff|]; [|by destruct forged].
  rewrite (nonblank_segments xff client) by (rewrite Hsegs; set_solver).
  unfold walk_xff. rewrite segments_trim, Hsegs, rev_app_distr. simpl. rewrite <- app_assoc. simpl.
  rewrite (walk_hops (rev proxies) client (rev forged) ip); [done| |done|done].
  by apply List.Forall_rev.
Qed.

(** C21. The client address cannot be forged: behind an untrusted peer it is the
    peer's own address whatever the headers say, and behind a trusted chain it is
    the rightmost forwarded address that is not a trusted proxy, whatever a client
    put in front of it. *)
Theorem client_address_not_forgeable h p uuid :
  (is_trusted contains trusted p = false -> http_client_ip contains trusted h (Some p) = show_ip p) /\
  (forall forged client proxies ip,
     concat (map segments (get_all h "x-forwarded-for")) = forged ++ client :: proxies ->
     Forall (fun seg => exists q, parse_ip seg = Some q /\ is_trusted contains trusted q = true) proxies ->
     parse_ip client = Some ip -> is_trusted contains trusted ip = false ->
     is_trusted contains trusted p = true ->
     client_ip (from_http_parts contains trusted h (Some p) uuid) = show_ip ip).
Proof.
  split.
  - intros Hp. unfold http_client_ip, extract_client_ip. by rewrite Hp.
  - intros forged client proxies ip Hsegs Hproxies Hip Hclient Hpeer. simpl. unfold http_client_ip.
    by rewrite (extract_from_hops _ _ _ _ _ _ _ Hsegs Hproxies Hip Hclient Hpeer).
Qed.
End networks_facts.

(** ** Well-formed addresses *)

Definition wf_ip (ip : IpAddr) : Prop :=
  match ip with
  | V4 a b c d => Forall (fun o => 0 <= o <= 255) [a; b; c; d]
  | V6 groups => length groups = 8%nat /\ Forall (fun g => 0 <= g <= 65535) groups
  end.

Lemma to_digit_range radix c d : 0 < radix -> to_digit radix c = Some d -> 0 <= d.
Proof.
  intros Hr. unfold to_digit, is_digit. intros H.
  repeat case_match; simplify_eq; to_prop; lia.
Qed.

Lemma read_digits_range radix limit max count acc s n k rest :
  0 < radix -> 0 <= acc <= limit -> read_digits radix limit max count acc s = Some (n, k, rest) ->
  0 <= n <= limit.
Proof.
  intros Hr. revert count acc. induction s as [|c s IH]; intros count acc Ha; simpl.
  - intros [= <- <- <-]. done.
  - destruct (to_digit radix c) as [d|] eqn:Hd; [|intros [= <- <- <-]; done].
    apply to_digit_range in Hd; [|done]. destruct (Z.ltb_spec limit (acc * radix + d)); [done|].
    destruct (Nat.ltb _ _); [done|]. apply IH. nia.
Qed.

Lemma read_number_range radix limit max allow s n rest :
  0 < radix -> 0 <= limit -> read_number radix limit max allow s = Some (n, rest) -> 0 <= n <= limit.
Proof.
  intros Hr Hl. unfold read_number. destruct (read_digits _ _ _ _ _ _) as [[[v k] t]|] eqn:Hd; [|done].
  repeat case_goal; intros [= <- <-] || intros [=]. eapply read_digits_range; [..|exact Hd]; lia.
Qed.

Lemma read_separator_spec {A} sep i (inner : string -> option (A * string)) s x rest :
  read_separator sep i inner s = Some (x, rest) -> exists t, inner t = Some (x, rest).
Proof. unfold read_separator. destruct i; [by eexists|]. destruct (read_given_char sep s); [by eexists|done]. Qed.

Lemma read_octet_range sep i s n rest :
  read_separator sep i read_octet s = Some (n, rest) -> 0 <= n <= 255.
Proof. intros [t Ht]%read_separator_spec. by apply read_number_range in Ht. Qed.

Lemma read_ipv4_range s a b c d rest :
  read_ipv4_addr s = Some (a, b, c, d, rest) -> wf_ip (V4 a b c d).
Proof.
  unfold read_ipv4_addr. intros H.
  destruct (read_separator _ 0 _ _) as [[a' s1]|] eqn:Ha; [|done].
  destruct (read_separator _ 1 _ _) as [[b' s2]|] eqn:Hb; [|done].
  destruct (read_separator _ 2 _ _) as [[c' s3]|] eqn:Hc; [|done].
  destruct (read_separator _ 3 _ _) as [[d' s4]|] eqn:Hd; [|done]. simplify_eq.
  apply read_octet_range in Ha, Hb, Hc, Hd. unfold wf_ip. by rewrite !Forall_cons, Forall_nil.
Qed.

Lemma read_ipv4_groups_range s g1 g2 rest :
  read_ipv4_groups s = Some (g1, g2, rest) -> 0 <= g1 <= 65535 /\ 0 <= g2 <= 65535.
Proof.
  unfold read_ipv4_groups. destruct (read_ipv4_addr s) as [[[[[a b] c] d] t]|] eqn:Hr; [|done].
  intros [= <- <- <-]. apply read_ipv4_range in Hr. unfold wf_ip in Hr. rewrite !Forall_cons in Hr. lia.
Qed.

Lemma read_groups_wf left i s gs v4 rest :
  read_groups left i s = (gs, v4, rest) ->
  (length gs <= left)%nat /\ Forall (fun g => 0 <= g <= 65535) gs.
Proof.
  revert i s gs v4 rest. induction left as [|left IH]; intros i s gs v4 rest;
    cbn [read_groups].
  - intros [= <- <- <-]. by split.
  - destruct (if Nat.ltb 1 (S left) then _ else None) as [[[g1 g2] t]|] eqn:Hv4.
    + intros [= <- <- <-]. destruct left as [|left]; [done|]. split; [simpl; lia|].
      assert (exists t', read_ipv4_groups t' = Some (g1, g2, t)) as [t' Ht'].
      { simpl in Hv4. destruct i; [by exists s|]. destruct (read_given_char _ s); [by eexists|done]. }
      apply read_ipv4_groups_range in Ht' as [? ?]. by rewrite !Forall_cons, Forall_nil.
    + destruct (read_separator _ i _ s) as [[g t]|] eqn:Hg.
      * destruct (read_groups left (S i) t) as [[gs' v4'] t'] eqn:Hr.
        intros [= <- <- <-]. destruct (IH _ _ _ _ _ Hr) as [Hl Hf].
        apply read_separator_spec in Hg as [u Hu]. apply read_number_range in Hu; [|done..].
        split; [simpl; lia|]. by constructor.
      * intros [= <- <- <-]. split; [simpl; lia|done].
Qed.

Lemma read_ipv6_wf s groups rest : read_ipv6_addr s = Some (groups, rest) -> wf_ip (V6 groups).
Proof.
  unfold read_ipv6_addr. destruct (read_groups 8 0 s) as [[head v4] t] eqn:Hh.
  apply read_groups_wf in Hh as [Hlen Hf]. destruct (Nat.eqb_spec (length head) 8) as [H8|H8].
  { intros [= <- <-]. by split. }
  destruct v4; [done|]. destruct (read_given_char _ t) as [t1|]; [|done].
  destruct (read_given_char _ t1) as [t2|]; [|done].
  destruct (read_groups _ 0 t2) as [[tail v4] t3] eqn:Ht. apply read_groups_wf in Ht as [Hlt Hft].
  intros [= <- <-]. split.
  - rewrite !length_app, length_replicate. lia.
  - rewrite !Forall_app. split_and!; [done| |done]. apply Forall_replicate. lia.
Qed.

Lemma parse_ip_wf s ip : parse_ip s = Some ip -> wf_ip ip.
Proof.
  unfold parse_ip. destruct (read_ipv4_addr s) as [[[[[a b] c] d] t]|] eqn:H4.
  - case_bool_decide; [|done]. intros [= <-]. by eapply read_ipv4_range.
  - destruct (read_ipv6_addr s) as [[groups t]|] eqn:H6; [|done].
    case_bool_decide; [|done]. intros [= <-]. by eapply read_ipv6_wf.
Qed.

(** ** Printing and parsing back *)

(** An octet is read up to the next dot. *)
Lemma read_octet_pretty o rest :
  0 <= o <= 255 -> rest = EmptyString \/ (exists t, rest = String "."%char t) ->
  read_octet (pretty o +:+ rest)%string = Some (o, rest).
Proof.
  intros Ho Hrest.
  assert (exists n : nat, (n < 256)%nat /\ o = Z.of_nat n) as (n & Hn & ->)
    by (exists (Z.to_nat o); lia).
  clear Ho. destruct Hrest as [->|[t ->]];
    do 256 (destruct n as [|n]; [vm_compute; reflexivity|]); lia.
Qed.

Lemma read_dot s : read_given_char "."%char ("." +:+ s)%string = Some s.
Proof. reflexivity. Qed.

(** An IPv4 address that is printed parses back. *)
Theorem ipv4_print_parse a b c d :
  wf_ip (V4 a b c d) -> parse_ip (show_ip (V4 a b c d)) = Some (V4 a b c d).
Proof.
  unfold wf_ip. rewrite !Forall_cons. intros (Ha & Hb & Hc & Hd & _).
  unfold parse_ip, show_ip, show_v4, read_ipv4_addr, read_separator.
  rewrite read_octet_pretty by (try done; right; by eexists). rewrite read_dot.
  rewrite read_octet_pretty by (try done; right; by eexists). rewrite read_dot.
  rewrite read_octet_pretty by (try done; right; by eexists). rewrite read_dot.
  assert (pretty d = pretty d +:+ EmptyString)%string as Hp.
  { generalize (pretty d). intros s. induction s as [|x s IH]; [done|]. exact (f_equal (String x) IH). }
  rewrite Hp. rewrite read_octet_pretty by (try done; by left). done.
Qed.

(** A printed address is not the empty string, so the address of a peer is final. *)
Lemma show_groups_nonempty groups : groups <> [] -> show_groups groups <> EmptyString.
Proof.
  intros Hne. unfold show_groups. destruct (longest_zeros _ _ _ _) as [start len]. case_goal.
  - intros H. by destruct (join_str ":" (map show_hex (take start groups))).
  - destruct groups as [|g gs]; [done|]. intros H. cbn [map join_str] in H.
    assert (show_hex g <> EmptyString) by (unfold show_hex; simpl; by repeat case_goal).
    destruct (map show_hex gs); [done|]. by destruct (show_hex g).
Qed.

Lemma show_ip_nonempty ip : wf_ip ip -> show_ip ip <> EmptyString.
Proof.
  destruct ip as [a b c d|groups]; intros Hwf.
  - unfold show_ip, show_v4. intros H. by destruct (pretty a).
  - assert (groups <> []) as Hne by (destruct Hwf as [Hlen _]; by destruct groups).
    unfold show_ip, show_v6. repeat case_match; try done; by apply show_groups_nonempty.
Qed.

Lemma resolve_from_headers_wf {IpNet} (contains : IpNet -> IpAddr -> bool) trusted xff xri ip :
  resolve_from_headers contains trusted xff xri = Some ip -> wf_ip ip.
Proof.
  unfold resolve_from_headers.
  assert (Hwalk : forall segs ip', walk contains trusted segs = Client ip' -> wf_ip ip').
  { induction segs as [|seg segs IH]; intros ip'; simpl; [done|].
    destruct (parse_ip seg) as [q|] eqn:Hq; [|done]. case_goal; [apply IH|].
    intros [= <-]. by eapply parse_ip_wf. }
  assert (Hxff : forall x ip', walk_xff contains trusted x = Some ip' -> wf_ip ip').
  { intros x ip'. unfold walk_xff. destruct (walk _ _ _) as [q| |] eqn:Hw; [|done|].
    - intros [= <-]. by eapply Hwalk.
    - intros Hh%head_Some_elem_of. apply list_elem_of_omap in Hh as (seg & _ & Hseg).
      by eapply parse_ip_wf. }
  destruct (nonblank xff) as [x|], (nonblank xri) as [y|]; simpl; try done;
    try (destruct (walk_xff contains trusted x) as [q|] eqn:Hx; simpl; [intros [= <-]; by eapply Hxff|]);
    try done; apply parse_ip_wf.
Qed.

(** An address is resolved whenever there is a peer, and only a well-formed one. *)
Lemma extract_client_ip_wf {IpNet} (contains : IpNet -> IpAddr -> bool) trusted xff x_real_ip peer :
  (forall p, peer = Some p -> wf_ip p) ->
  match extract_client_ip contains trusted xff x_real_ip peer with
  | Some ip => wf_ip ip
  | None => peer = None
  end.
Proof.
  intros Hp. unfold extract_client_ip. destruct peer as [p|].
  - destruct (negb _); [by apply Hp|].
    destruct (resolve_from_headers _ _ _ _) as [q|] eqn:Hq; simpl; [|by apply Hp].
    by eapply resolve_from_headers_wf.
  - destruct (resolve_from_headers _ _ _ _) as [q|] eqn:Hq; [|done]. by eapply resolve_from_headers_wf.
Qed.

(** The resolved client address is well formed: whatever bytes the forwarding
    headers hold, it is four octets below 256 or eight groups below 65536 (as long
    as the transport's peer address is), and one is always resolved when there is a
    peer. *)
Theorem client_addresses_well_formed {IpNet} (contains : IpNet -> IpAddr -> bool) trusted xff x_real_ip peer :
  (forall p, peer = Some p -> wf_ip p) ->
  match extract_client_ip contains trusted xff x_real_ip peer with
  | Some ip => wf_ip ip
  | None => peer = None
  end.
Proof. apply extract_client_ip_wf. Qed.

(** On gRPC the headers of the message do not change the address that the transport
    gave. *)
Theorem message_headers_do_not_set_address {IpNet} (contains : IpNet -> IpAddr -> bool) trusted
    ac class m p uuid uuid' cx headers :
  wf_ip p -> service_interceptor contains trusted ac class m (Some p) uuid = Some cx ->
  client_ip (finalize_context contains trusted (Some cx) m headers (Some p) uuid')
  = http_client_ip contains trusted m (Some p).
Proof.
  intros Hp. unfold service_interceptor. case_goal; [|done]. intros [= <-]. simpl.
  rewrite bool_decide_eq_false_2; [done|]. unfold http_client_ip.
  pose proof (extract_client_ip_wf contains trusted (merge_xff (get_all m "x-forwarded-for"))
    (header_first m "x-real-ip") (Some p) ltac:(by intros ? [= <-])) as Hwf.
  destruct (extract_client_ip _ _ _ _ _) as [ip|]; [|done].
  by apply show_ip_nonempty.
Qed.

(** ** The theorems at concrete inputs *)

(** One trusted proxy network, 10.0.0.0/8. *)
Definition ten_net (_ : unit) (ip : IpAddr) : bool :=
  match ip with V4 a _ _ _ => a =? 10 | V6 _ => false end.

Definition spoofed : list (string * option string) :=
  [("x-forwarded-for", Some "8.8.8.8, 10.0.0.1"); ("x-forwarded-for", Some "203.0.113.9 , 10.0.0.7")]%string.

Lemma client_address_witness :
  client_ip (from_http_parts ten_net [tt] spoofed (Some (V4 10 0 0 9)) EmptyString) = "203.0.113.9"%string.
Proof.
  destruct (client_address_not_forgeable ten_net [tt] spoofed (V4 10 0 0 9) EmptyString) as [_ H].
  apply (H ["8.8.8.8"; "10.0.0.1"]%string "203.0.113.9"%string ["10.0.0.7"%string] (V4 203 0 113 9)).
  - vm_compute. reflexivity.
  - constructor; [|constructor]. exists (V4 10 0 0 7). split; vm_compute; reflexivity.
  - vm_compute. reflexivity.
  - vm_compute. reflexivity.
  - vm_compute. reflexivity.
Defined.

Lemma client_addresses_witness : wf_ip (V6 [8193; 3512; 0; 0; 0; 0; 0; 1]).
Proof.
  apply (client_addresses_well_formed ten_net [tt] (Some "2001:db8::1"%string) None (Some (V4 10 0 0 9))).
  intros p [= <-]. unfold wf_ip. repeat (constructor; [lia|]). constructor.
Defined.

Lemma ipv4_print_parse_witness : parse_ip (show_ip (V4 192 168 0 1)) = Some (V4 192 168 0 1).
Proof. apply ipv4_print_parse. unfold wf_ip. repeat (constructor; [lia|]). constructor. Defined.

Definition open_access : AccessControl :=
  {| ac_admin := {| cp_http := Unconfigured; cp_grpc := Unconfigured |};
     ac_inference := {| cp_http := Unconfigured; cp_grpc := Unconfigured |};
     ac_health := {| cp_http := Unconfigured; cp_grpc := Unconfigured |};
     trusted_origins := [] |}.

Lemma message_headers_witness :
  client_ip (finalize_context ten_net [tt] (Some {| request_id := ""; client_ip := "192.0.2.1" |})
    [] {[ "x-forwarded-for" := "8.8.8.8" ]} (Some (V4 192 0 2 1)) "id")%string
  = "192.0.2.1"%string.
Proof.
  rewrite (message_headers_do_not_set_address ten_net [tt] open_access Inference [] (V4 192 0 2 1) "u").
  - vm_compute. reflexivity.
  - unfold wf_ip. repeat (constructor; [lia|]). constructor.
  - vm_compute. reflexivity.
Defined.
