(* ===== verification/Deadline.v ===== *)
(** * Deadlines

    Models [src/src/deadline.rs]: how the time a client grants a request
    ([x-lite-timeout], [grpc-timeout]) and the server's default become an absolute
    deadline in [i64] nanoseconds, and the budgets derived from it.  [str::parse::<f64>]
    is the Rust library's (decimal and scientific notation, correctly rounded); the
    wall clock is an argument.

    The theorems: no value of a header produces a deadline in the past or an overflow,
    a value that is not a positive finite number of seconds is ignored, the server's
    default never reaches a stream, and the time left is exact. *)

From S2P Require Import Prelude Text Float.
Open Scope Z_scope.

(** ** [str::parse::<f64>] *)

(** The digits at the front of a string: their value, their number and the rest. *)
Fixpoint digits (acc : Z) (count : nat) (s : string) : Z * nat * string :=
  match s with
  | String c rest =>
      if is_digit c then digits (acc * 10 + (char_code c - 48)) (S count) rest else (acc, count, s)
  | EmptyString => (acc, count, s)
  end.

(** An optional sign: whether it is a minus. *)
Definition sign (s : string) : bool * string :=
  match s with
  | String c rest =>
      if eq_char c "-"%char then (true, rest)
      else if eq_char c "+"%char then (false, rest)
      else (false, s)
  | EmptyString => (false, s)
  end.

(** [n * 10^k], rounded to nearest even. *)
Definition f64_of_decimal (neg : bool) (n k : Z) : spec_float :=
  match n with
  | Z.pos m =>
      if 0 <=? k then binary_round 53 1024 neg (m * Z.to_pos (10 ^ k))%positive 0
      else f64_div (S754_finite neg m 0) (S754_finite false (Z.to_pos (10 ^ (- k))) 0)
  | _ => S754_zero neg
  end.

(** The exponent after the digits: [e] or [E], a sign, at least one digit. *)
Definition exponent (s : string) : option (Z * string) :=
  match s with
  | String c rest =>
      if eq_char c "e"%char || eq_char c "E"%char then
        let '(neg, rest) := sign rest in
        let '(n, count, rest) := digits 0 0 rest in
        if Nat.eqb count 0 then None else Some (if neg then - n else n, rest)
      else Some (0, s)
  | EmptyString => Some (0, s)
  end.

Definition parse_number (neg : bool) (s : string) : option spec_float :=
  let '(n, int_count, rest) := digits 0 0 s in
  let '(n, frac_count, rest) :=
    match rest with
    | String c t => if eq_char c "."%char then digits n 0 t else (n, O, rest)
    | EmptyString => (n, O, rest)
    end in
  if Nat.eqb (int_count + frac_count) 0 then None
  else
    match exponent rest with
    | Some (e, EmptyString) => Some (f64_of_decimal neg n (e - Z.of_nat frac_count))
    | _ => None
    end.

Definition parse_inf_nan (neg : bool) (s : string) : option spec_float :=
  if eq_ignore_ascii_case s "nan" then Some S754_nan
  else if eq_ignore_ascii_case s "inf" || eq_ignore_ascii_case s "infinity"
  then Some (S754_infinity neg)
  else None.

Definition parse_f64 (s : string) : option spec_float :=
  let '(neg, s) := sign s in
  match parse_number neg s with
  | Some f => Some f
  | None => parse_inf_nan neg s
  end.

(** ** Deadlines *)

Record ResolvedDeadline := {
  unix_ns : option Z;           (** [i64] *)
  client_specified : bool;
}.

Definition NONE : ResolvedDeadline := {| unix_ns := None; client_specified := false |}.

Definition stream_meta_unix_ns (d : ResolvedDeadline) : option Z :=
  if client_specified d then unix_ns d else None.

Definition saturating_add_i64 (a b : Z) : Z := Z.max i64_min (Z.min i64_max (a + b)).

Definition from_relative_secs (now : Z) (secs : spec_float) : Z :=
  saturating_add_i64 now (as_i64 (f64_mul secs (f64_of_Z 1000000000))).

(** [x.is_finite() && x > 0.0]. *)
Definition positive_finite (f : spec_float) : bool := is_finite f && fgt f float_zero.

Definition fallback (now : Z) (server_timeout : spec_float) : ResolvedDeadline :=
  if positive_finite server_timeout then
    {| unix_ns := Some (from_relative_secs now (f64_of_f32 server_timeout));
       client_specified := false |}
  else NONE.

Definition resolve_from_http (now : Z) (header : option string) (server_timeout : spec_float)
    : ResolvedDeadline :=
  match header ≫= parse_f64 with
  | Some secs =>
      if positive_finite secs then
        {| unix_ns := Some (from_relative_secs now secs); client_specified := true |}
      else fallback now server_timeout
  | None => fallback now server_timeout
  end.

(** The last character and what precedes it. *)
Fixpoint split_last (s : string) : option (string * Ascii.ascii) :=
  match s with
  | EmptyString => None
  | String c EmptyString => Some (EmptyString, c)
  | String c rest =>
      match split_last rest with
      | Some (init, last) => Some (String c init, last)
      | None => None
      end
  end.

Definition unit_factor (unit : Ascii.ascii) : option spec_float :=
  if eq_char unit "H"%char then Some (f64_of_Z 3600)
  else if eq_char unit "M"%char then Some (f64_of_Z 60)
  else if eq_char unit "S"%char then Some (f64_of_Z 1)
  else if eq_char unit "m"%char then Some (f64_of_decimal false 1 (-3))
  else if eq_char unit "u"%char then Some (f64_of_decimal false 1 (-6))
  else if eq_char unit "n"%char then Some (f64_of_decimal false 1 (-9))
  else None.

Definition parse_grpc_timeout (value : string) : option spec_float :=
  match split_last value with
  | None => None
  | Some (digits, unit) =>
      if bool_decide (digits = EmptyString) then None
      else
        match parse_f64 digits with
        | None => None
        | Some val =>
            match unit_factor unit with
            | None => None
            | Some factor =>
                let secs := if eq_char unit "S"%char then val else f64_mul val factor in
                if positive_finite secs then Some secs else None
            end
        end
  end.

Definition resolve_from_grpc (now : Z) (metadata : option string) (server_timeout : spec_float)
    : ResolvedDeadline :=
  match metadata ≫= parse_grpc_timeout with
  | Some secs => {| unix_ns := Some (from_relative_secs now secs); client_specified := true |}
  | None => fallback now server_timeout
  end.

(** ** Budgets *)

Definition remaining (now : Z) (deadline : option Z) : option Duration :=
  match deadline with
  | None => None
  | Some deadline => if deadline <=? now then Some 0 else Some (deadline - now)
  end.

(** [Instant::checked_add]: an [Instant] counts [i64] seconds. *)
Definition checked_add (i : Instant) (d : Duration) : option Instant :=
  if i + d <? 2 ^ 63 * 1000000000 then Some (i + d) else None.

Definition to_instant (now : Z) (mono : Instant) (deadline : option Z) : option Instant :=
  match remaining now deadline with
  | None => None
  | Some d => checked_add mono d
  end.

Definition min_instant (a b : option Instant) : option Instant :=
  match a, b with
  | Some x, Some y => Some (Z.min x y)
  | Some x, None => Some x
  | None, y => y
  end.

(** The panic of [Duration::from_secs_f32] beyond [u64] seconds. *)
Definition too_big : string :=
  "can not convert float seconds to Duration: value is either too big or NaN".

Definition idle_budget (idle_secs : spec_float) : option (result string Duration) :=
  if positive_finite idle_secs then
    Some (if flt idle_secs (f32_of_Z (2 ^ 64)) then Ok (nanos_of_secs idle_secs)
          else Err too_big)
  else None.

(** ** Facts *)

Lemma ftrunc_nonneg m e : 0 <= ftrunc false m e.
Proof. unfold ftrunc. case_goal; [|by apply Z.div_pos; lia]. lia. Qed.

(** No minus sign. *)
Definition unsigned (f : spec_float) : bool :=
  match f with S754_zero s | S754_infinity s | S754_finite s _ _ => negb s | S754_nan => true end.

Lemma round_aux_unsigned m e l : unsigned (binary_round_aux 53 1024 false m e l) = true.
Proof.
  unfold binary_round_aux. destruct (shr_fexp _ _ _ _ _) as [mrs e'].
  destruct (shr_fexp _ _ _ _ _) as [mrs' e''].
  destruct (shr_m mrs') as [|m'|m']; [done| |done]. by case_goal.
Qed.

Lemma f64_of_f32_unsigned f : unsigned f = true -> unsigned (f64_of_f32 f) = true.
Proof.
  destruct f as [| | |[] m e]; try done. intros _. unfold f64_of_f32, binary_round.
  destruct (shl_align _ _ _). apply round_aux_unsigned.
Qed.

Lemma positive_finite_unsigned f : positive_finite f = true -> unsigned f = true.
Proof. by destruct f as [| | |[] m e]. Qed.

Lemma mul_unsigned f : unsigned f = true -> unsigned (f64_mul f (f64_of_Z 1000000000)) = true.
Proof.
  assert (f64_of_Z 1000000000 = S754_finite false 8388608000000000 (-23)) as -> by reflexivity.
  destruct f as [[]|[]| |[] m e]; try done. intros _. apply round_aux_unsigned.
Qed.

Lemma as_i64_unsigned f : unsigned f = true -> 0 <= as_i64 f.
Proof.
  destruct f as [|[]| |[] m e]; try done. intros _. unfold as_i64.
  pose proof (ftrunc_nonneg m e). assert (0 <= i64_max) by done. lia.
Qed.

(** Any number of seconds without a minus sign gives a deadline that is not in the past
    and does not overflow. *)
Lemma from_relative_range now secs :
  0 <= now <= i64_max -> unsigned secs = true -> now <= from_relative_secs now secs <= i64_max.
Proof.
  intros Hnow Hs%mul_unsigned%as_i64_unsigned.
  unfold from_relative_secs, saturating_add_i64, i64_min in *. lia.
Qed.

Lemma fallback_range now t d :
  0 <= now <= i64_max -> unix_ns (fallback now t) = Some d -> now <= d <= i64_max.
Proof.
  intros Hnow. unfold fallback. destruct (positive_finite t) eqn:Ht; [|done]. intros [= <-].
  by apply from_relative_range, f64_of_f32_unsigned, positive_finite_unsigned.
Qed.

Lemma parse_grpc_timeout_positive s f : parse_grpc_timeout s = Some f -> positive_finite f = true.
Proof. unfold parse_grpc_timeout. intros H. repeat case_match; by simplify_eq. Qed.

(** ** Theorems *)

(** A resolved deadline lies between now and the largest 64-bit nanosecond count,
    whatever the header, metadata or server timeout, so what remains of it is
    exactly the difference to now. *)
Theorem deadlines_not_in_the_past now header metadata t :
  0 <= now <= i64_max ->
  (forall d, unix_ns (resolve_from_http now header t) = Some d ->
     now <= d <= i64_max /\ remaining now (Some d) = Some (d - now)) /\
  (forall d, unix_ns (resolve_from_grpc now metadata t) = Some d ->
     now <= d <= i64_max /\ remaining now (Some d) = Some (d - now)).
Proof.
  intros Hnow.
  assert (Hrem : forall d, now <= d <= i64_max -> now <= d <= i64_max /\ remaining now (Some d) = Some (d - now)).
  { intros d Hd. split; [done|]. unfold remaining. destruct (Z.leb_spec d now); [|done]. f_equal. lia. }
  split; intros d Hd; apply Hrem; revert Hd.
  - unfold resolve_from_http. destruct (header ≫= parse_f64) as [secs|]; [|by apply fallback_range].
    destruct (positive_finite secs) eqn:Hs; [|by apply fallback_range]. intros [= <-].
    by apply from_relative_range, positive_finite_unsigned.
  - unfold resolve_from_grpc. destruct (metadata ≫= parse_grpc_timeout) as [secs|] eqn:Hm;
      [|by apply fallback_range]. intros [= <-]. destruct metadata as [m|]; [|done]. simpl in Hm.
    by eapply from_relative_range, positive_finite_unsigned, parse_grpc_timeout_positive.
Qed.

(** A stream carries a deadline exactly when the client sent a valid timeout;
    without one both protocols resolve alike. *)
Theorem only_clients_bound_streams now header metadata t :
  (forall d, stream_meta_unix_ns (resolve_from_http now header t) = Some d <->
     exists secs, header ≫= parse_f64 = Some secs /\ positive_finite secs = true /\
       d = from_relative_secs now secs) /\
  (forall d, stream_meta_unix_ns (resolve_from_grpc now metadata t) = Some d <->
     exists secs, metadata ≫= parse_grpc_timeout = Some secs /\ d = from_relative_secs now secs) /\
  (header ≫= parse_f64 = None -> metadata ≫= parse_grpc_timeout = None ->
     resolve_from_http now header t = resolve_from_grpc now metadata t).
Proof.
  assert (Hf : stream_meta_unix_ns (fallback now t) = None)
    by (unfold fallback, stream_meta_unix_ns; by destruct (positive_finite t)).
  split_and!.
  - intros d. unfold resolve_from_http. destruct (header ≫= parse_f64) as [secs|].
    + destruct (positive_finite secs) eqn:Hs.
      * unfold stream_meta_unix_ns. cbn [client_specified unix_ns]. split.
        -- intros [= <-]. by exists secs.
        -- by intros (? & [= <-] & _ & ->).
      * rewrite Hf. split; [done|]. intros (? & [= <-] & ? & _). congruence.
    + rewrite Hf. split; [done|]. by intros (? & ? & _).
  - intros d. unfold resolve_from_grpc. destruct (metadata ≫= parse_grpc_timeout) as [secs|].
    + unfold stream_meta_unix_ns. cbn [client_specified unix_ns]. split.
      * intros [= <-]. by exists secs.
      * by intros (? & [= <-] & ->).
    + rewrite Hf. split; [done|]. by intros (? & ? & _).
  - intros Hh Hm. unfold resolve_from_http, resolve_from_grpc. by rewrite Hh, Hm.
Qed.

(** The values the tests of the source try, and a few more. *)
Theorem timeouts_parse :
  from_relative_secs 0 (default S754_nan (parse_f64 "2.5")) = 2500000000 /\
  from_relative_secs 0 (default S754_nan (parse_grpc_timeout "100m")) = 100000000 /\
  from_relative_secs 5 (default S754_nan (parse_f64 "1e10")) = i64_max /\
  positive_finite (default S754_nan (parse_f64 "-1")) = false /\
  positive_finite (default S754_nan (parse_f64 "inf")) = false /\
  parse_f64 "abc" = None /\ parse_grpc_timeout "S" = None /\ parse_grpc_timeout "5X" = None /\
  parse_grpc_timeout "0S" = None.
Proof. vm_compute. tauto. Qed.

(** [grpc-timeout] is documented as digits and a unit; signs, fractions and exponents
    are taken too. *)
Theorem grpc_timeout_accepts_more :
  Forall (fun s => is_some (parse_grpc_timeout s) = true) ["+5S"; "1.5S"; "1e3S"; ".5H"; "123456789S"]%string.
Proof. repeat constructor. Qed.

(** ** Configured durations *)

(** [check_duration_secs] of [src/src/config.rs]. *)
Definition check_duration_secs (name : string) (v : spec_float) : result string unit :=
  if negb (is_finite v) then
    Err ("config field `" +:+ name +:+ "` must be a finite number of seconds")%string
  else if flt v float_zero then
    Err ("config field `" +:+ name +:+ "` must be >= 0 seconds")%string
  else Ok tt.

(** A duration the configuration check accepts can panic where it is used. *)
Theorem accepted_duration_can_panic :
  exists v, check_duration_secs "server.request_body_timeout_secs" v = Ok tt /\
    idle_budget v = Some (Err too_big).
Proof. exists (f32_of_Z (2 * 10 ^ 19)). split; vm_compute; reflexivity. Qed.

Lemma deadlines_not_in_the_past_witness :
  remaining 1000 (unix_ns (resolve_from_http 1000 (Some "1e300"%string) float_zero)) = Some (i64_max - 1000).
Proof.
  destruct (deadlines_not_in_the_past 1000 (Some "1e300"%string) None float_zero) as [H _].
  { unfold i64_max. lia. }
  exact (proj2 (H i64_max ltac:(vm_compute; reflexivity))).
Defined.

Lemma only_clients_witness :
  stream_meta_unix_ns (resolve_from_http 0 (Some "2"%string) (f32_of_Z 30)) = Some 2000000000.
Proof.
  destruct (only_clients_bound_streams 0 (Some "2"%string) None (f32_of_Z 30)) as [H _].
  apply H. exists (f64_of_Z 2). split_and!; vm_compute; reflexivity.
Defined.
