(* ===== verification/Routes.v ===== *)
(** * The route table and the endpoint classes

    The routes [create_routes] ([src/src/http/routes.rs]) and the /v1 [mount]
    ([src/src/http/handlers/openai_compact.rs]) register, with the handlers of their
    methods, under every combination of the feature toggles.  A pattern matches a path
    with the same segments, a [:name] segment standing for any non-empty one (the
    router's documented rule).

    The theorems: the class access control gives a path is the class of the handler
    the router dispatches it to (so no management handler is reachable as inference),
    and the secret comparisons decide equality. *)

From S2P Require Import Prelude Text Errors Registry Validation Cors Access.
Open Scope Z_scope.
Open Scope string_scope.

Record FeaturesConfig := {
  timeline : bool;
  alerts : bool;
  version_compare : bool;
  streaming : bool;
  sse : bool;
  websocket_streaming : bool;
  http_bidi : bool;
  decoupled : bool;
  accelerator_metrics : bool;
}.

Record Route := {
  pattern : string;
  handlers : list (Method * string);
}.

#[export] Instance Route_eq_dec : EqDecision Route.
Proof. solve_decision. Defined.

Definition route (p : string) (hs : list (Method * string)) : Route :=
  {| pattern := p; handlers := hs |}.

(** The probes. *)
Definition probe_routes : list Route := [
  route "/health" [(GET, "health_handler")];
  route "/livez" [(GET, "livez_handler")];
  route "/readyz" [(GET, "readyz_handler")];
  route "/startupz" [(GET, "startupz_handler")];
  route "/v2/health/live" [(GET, "livez_handler")];
  route "/v2/health/ready" [(GET, "readyz_handler")]
].

(** Server information and the management of models, always mounted. *)
Definition management_routes : list Route := [
  route "/info" [(GET, "info_handler")];
  route "/metrics" [(GET, "metrics_handler")];
  route "/v2" [(GET, "v2_server_metadata_handler")];
  route "/v2/models/:model_name" [(GET, "model_metadata_handler"); (DELETE, "delete_model_handler")];
  route "/v2/models/:model_name/versions/:version"
    [(GET, "model_metadata_version_handler"); (DELETE, "delete_version_handler")];
  route "/v2/models" [(GET, "list_models_handler")];
  route "/v2/models/:model_name/versions"
    [(GET, "list_versions_handler"); (DELETE, "delete_versions_handler")];
  route "/v2/models/:model_name/ready" [(GET, "model_ready_handler")];
  route "/v2/models/:model_name/versions/:version/ready" [(GET, "model_ready_version_handler")];
  route "/v2/models/:model_name/health" [(GET, "model_health_handler")];
  route "/v2/models/:model_name/versions/:version/health" [(GET, "model_health_version_handler")];
  route "/v2/repository/index" [(POST, "repository_index_handler")];
  route "/v2/repository/drift" [(GET, "repository_drift_handler")];
  route "/v2/repository/models/:model_name/load" [(POST, "bare_load_model_handler")];
  route "/v2/repository/models/:model_name/versions/:version/load" [(POST, "load_model_handler")];
  route "/v2/repository/models/:model_name/unload" [(POST, "unload_model_handler")];
  route "/v2/repository/models/:model_name/versions/:version/unload"
    [(POST, "unload_version_handler")];
  route "/v2/models/:model_name/reload" [(POST, "reload_model_handler")];
  route "/v2/models/:model_name/versions/:version/reload" [(POST, "reload_version_handler")];
  route "/v2/repository/models/:model_name/versions/:version/upload"
    [(POST, "upload_model_handler")];
  route "/v2/repository/models/:model_name/versions/:version/download"
    [(GET, "download_model_handler")];
  route "/v2/repository/models/:model_name/versions/:version/files" [(GET, "list_files_handler")];
  route "/v2/repository/models/:model_name/versions/:version/upload-sessions"
    [(POST, "create_upload_session")];
  route "/v2/repository/models/:model_name/versions/:version/upload-sessions/:session_id"
    [(GET, "get_upload_session"); (DELETE, "delete_upload_session")];
  route "/v2/repository/models/:model_name/versions/:version/upload-sessions/:session_id/complete"
    [(POST, "complete_upload_session")];
  route "/v2/repository/models/:model_name/versions/:version/upload-sessions/:session_id/files/:file_index/chunks/:chunk_index"
    [(PUT, "put_session_chunk")];
  route "/v2/repository/models/:model_name/upload" [(POST, "upload_model_package_handler")];
  route "/v2/repository/models/:model_name/download" [(GET, "download_model_package_handler")];
  route "/v2/models/:model_name/versions/:version/activate" [(POST, "activate_version_handler")];
  route "/v2/models/:model_name/versions/:version/config"
    [(GET, "model_version_config_handler"); (PATCH, "model_version_config_patch_handler")];
  route "/v2/server/config" [(GET, "server_config_handler")];
  route "/v2/models/:model_name/routing" [(PUT, "set_routing_handler")]
].

Definition optional_management_routes (f : FeaturesConfig) : list Route :=
  (if timeline f then [
    route "/metrics/timeline" [(GET, "timeline_handler")];
    route "/metrics/timeline/:model_name" [(GET, "timeline_model_handler")];
    route "/metrics/timeline/:model_name/versions/:version"
      [(GET, "timeline_model_version_handler")]] else []) ++
  (if alerts f then [route "/metrics/alerts" [(GET, "alerts_handler")]] else []) ++
  (if accelerator_metrics f then [route "/metrics/accelerator" [(GET, "accelerator_handler")]]
   else []) ++
  (if version_compare f then
    [route "/v2/models/:model_name/compare" [(GET, "compare_versions_handler")]] else []).

(** The bare and the versioned form of an inference route. *)
Definition leaf_routes (leaf : string) (m : Method) (bare versioned : string) : list Route := [
  route ("/v2/models/:model_name/" +:+ leaf) [(m, bare)];
  route ("/v2/models/:model_name/versions/:version/" +:+ leaf) [(m, versioned)]].

Definition inference_routes (f : FeaturesConfig) : list Route :=
  leaf_routes "infer" POST "infer_handler" "infer_version_handler" ++
  leaf_routes "generate" POST "generate_handler" "generate_version_handler" ++
  (if streaming f && sse f then
    leaf_routes "events" POST "sse_infer_handler" "sse_infer_version_handler" ++
    leaf_routes "generate_stream" POST "generate_stream_handler" "generate_stream_version_handler"
   else []) ++
  (if streaming f && sse f && decoupled f then
    leaf_routes "decoupled" POST "sse_decoupled_handler" "sse_decoupled_version_handler"
   else []) ++
  (if streaming f && websocket_streaming f then
    leaf_routes "stream" GET "ws_stream_handler" "ws_stream_version_handler"
   else []) ++
  (if streaming f && websocket_streaming f && decoupled f then
    leaf_routes "decoupled-stream" GET "ws_decoupled_handler" "ws_decoupled_version_handler"
   else []) ++
  (if streaming f && http_bidi f then
    leaf_routes "bidi" POST "h2_bidi_handler" "h2_bidi_version_handler"
   else []).

(** [openai_compact::mount]. *)
Definition openai_routes : list Route := [
  route "/v1/chat/completions" [(POST, "openai_infer_handler")];
  route "/v1/completions" [(POST, "openai_infer_handler")];
  route "/v1/embeddings" [(POST, "openai_infer_handler")];
  route "/v1/models" [(GET, "v1_models_handler")];
  route "/v1/models/:model" [(GET, "v1_model_retrieve_handler")]
].

Definition create_routes (f : FeaturesConfig) : list Route :=
  probe_routes ++ management_routes ++ optional_management_routes f ++ inference_routes f
  ++ openai_routes.

(** ** Matching *)

Fixpoint segs_match (ps ss : list string) : bool :=
  match ps, ss with
  | [], [] => true
  | p :: ps, s :: ss =>
      (if starts_with ":" p then negb (bool_decide (s = EmptyString)) else String.eqb p s)
      && segs_match ps ss
  | _, _ => false
  end.

Definition matches (r : Route) (path : string) : bool :=
  segs_match (split_char "/"%char (pattern r)) (split_char "/"%char path).

(** ** Paths as segments *)

(** The first segment and the rest. *)
Lemma split_char_cons c s p ps :
  split_char c s = p :: ps -> ps <> [] ->
  exists t, s = p +:+ String c t /\ split_char c t = ps /\ has_char c p = false.
Proof.
  revert p ps. induction s as [|a s IH]; simpl; intros p ps; [by intros [= <- <-]|].
  destruct (eq_char a c) eqn:Ha.
  - apply eq_char_true in Ha as ->. intros [= <- <-] _. by exists s.
  - destruct (split_char c s) as [|p' ps'] eqn:Hs; [by intros [= <- <-]|].
    intros [= <- <-] Hne. destruct (IH p' ps' eq_refl Hne) as (t & -> & Ht & Hp).
    exists t. simpl. by rewrite Ha, Hp.
Qed.

(** [access_log_target] on segments. *)
Definition target_of_segs (segs : list string) : option (string * option string) :=
  match segs with
  | [] => None
  | model :: segs =>
      if bool_decide (model = EmptyString) then None
      else
        match segs with
        | [] => None
        | [leaf] =>
            if inference_leaf leaf then Some (model, None)
            else if String.eqb leaf "versions" then None
            else if admin_leaf leaf then None
            else Some (model, None)
        | v :: segs' =>
            if String.eqb v "versions" then
              match segs' with
              | [version; leaf] =>
                  if inference_leaf leaf && negb (bool_decide (version = EmptyString))
                  then Some (model, Some version) else None
              | _ => None
              end
            else Some (model, None)
        end
  end.

Definition target_spec (segs : list string) : option (string * option string) :=
  match segs with
  | "" :: "v2" :: "models" :: rest => if decide (rest = []) then None else target_of_segs rest
  | _ => None
  end.

Lemma access_log_target_segs path :
  access_log_target path = target_spec (split_char "/"%char path).
Proof.
  unfold access_log_target. destruct (strip_prefix "/v2/models/" path) as [rest|] eqn:Hs.
  - apply strip_prefix_spec in Hs as ->.
    change ("/v2/models/" +:+ rest)
      with ("" +:+ String "/" ("v2" +:+ String "/" ("models" +:+ String "/" rest))).
    rewrite !split_char_app by done. simpl.
    rewrite decide_False by apply split_char_nonempty. done.
  - unfold target_spec.
    destruct (split_char "/"%char path) as [|s1 [|s2 [|s3 rest]]] eqn:Hp; try by repeat case_match.
    destruct (decide (rest = [])) as [->|Hne]; [by repeat case_match|].
    destruct (decide (s1 = "" /\ s2 = "v2" /\ s3 = "models")) as [(-> & -> & ->)|Hno].
    + exfalso. apply split_char_cons in Hp as (t1 & -> & Hp & _); [|done].
      apply split_char_cons in Hp as (t2 & -> & Hp & _); [|done].
      apply split_char_cons in Hp as (t3 & -> & Hp & _); [|done].
      assert (strip_prefix "/v2/models/" ("" +:+ String "/" ("v2" +:+ String "/" ("models" +:+ String "/" t3)))
              = Some t3) by (by apply strip_prefix_spec). congruence.
    + repeat case_match; try done. exfalso. apply Hno. done.
Qed.

Definition health_segs (segs : list string) : bool :=
  bool_decide (segs ∈ [[""; "health"]; [""; "livez"]; [""; "readyz"]; [""; "startupz"];
                       [""; "v2"; "health"; "live"]; [""; "v2"; "health"; "ready"]]).

Lemma split_char_inj c s t : split_char c s = split_char c t -> s = t.
Proof.
  revert t. induction s as [|a s IH]; intros t.
  - destruct t as [|b t]; [done|]. simpl. destruct (eq_char b c); intros Ht.
    + injection Ht as Ht. by destruct (split_char_nonempty c t).
    + by destruct (split_char c t).
  - destruct t as [|b t]; simpl.
    + destruct (eq_char a c); intros Ht; [|by destruct (split_char c s)].
      injection Ht as Ht. by destruct (split_char_nonempty c s).
    + pose proof (split_char_nonempty c s). pose proof (split_char_nonempty c t).
      destruct (eq_char a c) eqn:Ha, (eq_char b c) eqn:Hb.
      * apply eq_char_true in Ha as ->. apply eq_char_true in Hb as ->.
        intros [= Ht]. f_equal. by apply IH.
      * destruct (split_char c t); done.
      * destruct (split_char c s); done.
      * destruct (split_char c s) as [|p ps] eqn:Hs; [done|].
        destruct (split_char c t) as [|q qs] eqn:Hq; [done|].
        intros [= -> -> ->]. f_equal. apply IH. by rewrite Hq.
Qed.

Lemma health_path_segs path : health_path path = health_segs (split_char "/"%char path).
Proof.
  unfold health_path, health_segs. apply bool_decide_ext.
  assert (forall c, path = c <-> split_char "/"%char path = split_char "/"%char c) as Heq.
  { intros c. split; [by intros ->|]. apply split_char_inj. }
  rewrite !elem_of_cons, !Heq. simpl. set_solver.
Qed.

Definition v1_segs (segs : list string) : bool :=
  match segs with "" :: "v1" :: _ :: _ => true | _ => false end.

Lemma v1_path_segs path : starts_with "/v1/" path = v1_segs (split_char "/"%char path).
Proof.
  unfold starts_with. destruct (strip_prefix "/v1/" path) as [rest|] eqn:Hs; simpl.
  - apply strip_prefix_spec in Hs as ->.
    change ("/v1/" +:+ rest) with ("" +:+ String "/" ("v1" +:+ String "/" rest)).
    rewrite !split_char_app by done. pose proof (split_char_nonempty "/"%char rest).
    by destruct (split_char "/"%char rest).
  - unfold v1_segs.
    destruct (split_char "/"%char path) as [|s1 [|s2 [|s3 rest]]] eqn:Hp; try by repeat case_match.
    destruct (decide (s1 = "" /\ s2 = "v1")) as [(-> & ->)|Hno].
    + exfalso. apply split_char_cons in Hp as (t1 & -> & Hp & _); [|done].
      apply split_char_cons in Hp as (t2 & -> & Hp & _); [|done].
      assert (strip_prefix "/v1/" ("" +:+ String "/" ("v1" +:+ String "/" t2)) = Some t2)
        by (by apply strip_prefix_spec). congruence.
    + repeat case_match; try done. exfalso. apply Hno. done.
Qed.

Definition class_of_segs (segs : list string) : EndpointClass :=
  if health_segs segs then Health
  else if is_some (target_spec segs) then Inference
  else if v1_segs segs then Inference
  else Admin.

Lemma classify_segs path : classify_http_path path = class_of_segs (split_char "/"%char path).
Proof.
  unfold classify_http_path, class_of_segs.
  by rewrite health_path_segs, access_log_target_segs, v1_path_segs.
Qed.

(** ** The classes of the routes *)

Lemma segs_match_cons p ps ss :
  segs_match (p :: ps) ss = true <->
  exists s ss', ss = s :: ss' /\ segs_match ps ss' = true /\
    if starts_with ":" p then s <> EmptyString else s = p.
Proof.
  destruct ss as [|s ss]; simpl; [naive_solver|].
  rewrite andb_true_iff. destruct (starts_with ":" p).
  - rewrite negb_true_iff, bool_decide_eq_false. naive_solver.
  - rewrite String.eqb_eq. naive_solver.
Qed.

Lemma segs_match_nil ss : segs_match [] ss = true <-> ss = [].
Proof. destruct ss; naive_solver. Qed.

#[local] Arguments segs_match : simpl never.
#[local] Arguments starts_with : simpl never.

(** A matched path, spelled out. *)
Ltac spell_out H :=
  match type of H with
  | segs_match ?ps ?segs = true =>
      let ps' := eval vm_compute in ps in change (segs_match ps' segs = true) in H
  end;
  repeat
    (let Hs := fresh "Hs" in
     apply segs_match_cons in H as (? & ? & -> & H & Hs);
     match type of Hs with
     | if starts_with ":" ?p then _ else _ =>
         let b := eval vm_compute in (starts_with ":" p) in
         change (starts_with ":" p) with b in Hs; cbv iota in Hs
     end;
     try (match type of Hs with _ = _ => subst end));
  apply segs_match_nil in H as ->.

Definition routes_have_class (c : EndpointClass) (l : list Route) : Prop :=
  Forall (fun r => forall segs, segs_match (split_char "/"%char (pattern r)) segs = true ->
                   class_of_segs segs = c) l.

(** The probes have two or four segments. *)
Lemma health_segs_false segs :
  (forall s1 s2, segs = [s1; s2] -> s2 ∉ ["health"; "livez"; "readyz"; "startupz"]) ->
  (forall s1 s2 s3 s4, segs = [s1; s2; s3; s4] -> s3 <> "health") ->
  health_segs segs = false.
Proof.
  intros H2 H4. apply bool_decide_eq_false_2. rewrite !elem_of_cons, elem_of_nil.
  intros [->|[->|[->|[->|[->|[->|[]]]]]]];
    first [by apply (H4 _ _ _ _ eq_refl) | apply (H2 _ _ eq_refl); set_solver].
Qed.

Ltac solve_class :=
  repeat (apply Forall_cons; split;
    [intros segs H; spell_out H; unfold class_of_segs;
     first [ vm_compute; reflexivity
           | rewrite health_segs_false by (intros; simplify_eq; set_solver);
             cbn -[bool_decide]; rewrite !bool_decide_eq_false_2 by done; reflexivity
           | rewrite health_segs_false by (intros; simplify_eq; set_solver); reflexivity ]|]);
  try apply Forall_nil; try exact I.

Lemma probe_class : routes_have_class Health probe_routes.
Proof. unfold probe_routes, routes_have_class. solve_class. Qed.

Lemma management_class : routes_have_class Admin management_routes.
Proof. unfold management_routes, routes_have_class. solve_class. Qed.

Lemma optional_class f : routes_have_class Admin (optional_management_routes f).
Proof.
  unfold optional_management_routes, routes_have_class.
  rewrite !Forall_app. split_and!; case_goal; solve_class.
Qed.

Lemma leaf_class leaf m b v :
  inference_leaf leaf = true -> has_char "/"%char leaf = false -> starts_with ":" leaf = false ->
  routes_have_class Inference (leaf_routes leaf m b v).
Proof.
  intros Hl Hs Hc. unfold leaf_routes, routes_have_class. cbn [pattern route].
  assert (split_char "/"%char ("/v2/models/:model_name/" +:+ leaf)
          = ["" ; "v2"; "models"; ":model_name"; leaf]) as H1.
  { change ("/v2/models/:model_name/" +:+ leaf) with
      ("" +:+ String "/" ("v2" +:+ String "/" ("models" +:+ String "/" (":model_name" +:+ String "/" leaf)))).
    by rewrite !split_char_app, split_char_none. }
  assert (split_char "/"%char ("/v2/models/:model_name/versions/:version/" +:+ leaf)
          = ["" ; "v2"; "models"; ":model_name"; "versions"; ":version"; leaf]) as H2.
  { change ("/v2/models/:model_name/versions/:version/" +:+ leaf) with
      ("" +:+ String "/" ("v2" +:+ String "/" ("models" +:+ String "/" (":model_name" +:+ String "/"
        ("versions" +:+ String "/" (":version" +:+ String "/" leaf)))))).
    by rewrite !split_char_app, split_char_none. }
  apply Forall_cons. split; [|apply Forall_cons; split; [|by apply Forall_nil]]; intros segs H;
    unfold route, pattern in H; [rewrite H1 in H|rewrite H2 in H].
  - do 5 apply segs_match_cons in H as (? & ? & -> & H & ?). apply segs_match_nil in H as ->.
    rewrite Hc in *. simpl in *. subst. unfold class_of_segs. rewrite health_segs_false by (by intros).
    cbn -[bool_decide]. rewrite bool_decide_eq_false_2 by done. by rewrite Hl.
  - do 7 apply segs_match_cons in H as (? & ? & -> & H & ?). apply segs_match_nil in H as ->.
    rewrite Hc in *. simpl in *. subst. unfold class_of_segs. rewrite health_segs_false by (by intros).
    cbn -[bool_decide]. rewrite !bool_decide_eq_false_2 by done. by rewrite Hl.
Qed.

Lemma inference_class f : routes_have_class Inference (inference_routes f).
Proof.
  unfold inference_routes. unfold routes_have_class.
  rewrite !Forall_app. split_and!; try case_goal; try (by apply leaf_class); try apply Forall_nil;
    try exact I. rewrite Forall_app. split; by apply leaf_class.
Qed.

Lemma openai_class : routes_have_class Inference openai_routes.
Proof. unfold openai_routes, routes_have_class. solve_class. Qed.

Lemma routes_have_class_path c l r path :
  routes_have_class c l -> r ∈ l -> matches r path = true -> classify_http_path path = c.
Proof.
  intros Hl Hr Hm. rewrite classify_segs.
  exact (proj1 (Forall_forall _ _) Hl r Hr _ Hm).
Qed.

(** ** The secret comparisons *)

Lemma ct_eq_fold acc (a b : list Ascii.ascii) :
  length a = length b ->
  foldl (fun acc xy => acc && eq_char (fst xy) (snd xy)) acc (zip a b) = acc && bool_decide (a = b).
Proof.
  revert acc b. induction a as [|x a IH]; intros acc [|y b] Hlen; try done; simpl.
  - by rewrite andb_true_r.
  - rewrite IH by (simpl in Hlen; lia). rewrite <- andb_assoc. f_equal. unfold eq_char.
    destruct (decide (x = y)) as [->|Hne].
    + rewrite (bool_decide_eq_true_2 (y = y)) by done. simpl. apply bool_decide_ext. naive_solver.
    + rewrite (bool_decide_eq_false_2 (x = y)) by done.
      by rewrite (bool_decide_eq_false_2 (x :: a = y :: b)) by (by intros [= ->]).
Qed.

Lemma ct_eq_spec a b : ct_eq a b = bool_decide (a = b).
Proof.
  unfold ct_eq. destruct (Nat.eqb_spec (length a) (length b)) as [Hl|Hl]; simpl.
  - by rewrite ct_eq_fold.
  - rewrite bool_decide_eq_false_2; [done|]. by intros ->.
Qed.

Lemma as_bytes_inj s t : as_bytes s = as_bytes t -> s = t.
Proof.
  intros H. by rewrite <- (String.string_of_list_ascii_of_string s), H,
    String.string_of_list_ascii_of_string.
Qed.

Lemma ct_contains_spec keys value : ct_contains keys value = bool_decide (value ∈ keys).
Proof.
  unfold ct_contains.
  assert (forall found, foldl (fun found k => found || ct_eq (as_bytes k) (as_bytes value)) found keys
    = found || bool_decide (value ∈ keys)) as Hgen; [|by rewrite Hgen].
  induction keys as [|k keys IH]; intros found; cbn [foldl].
  - simpl. by rewrite orb_false_r.
  - rewrite IH, <- orb_assoc. f_equal. rewrite ct_eq_spec.
    destruct (decide (value = k)) as [->|Hne].
    + rewrite (bool_decide_eq_true_2 (as_bytes k = as_bytes k)) by done.
      rewrite (bool_decide_eq_true_2 (k ∈ k :: keys)) by set_solver. done.
    + rewrite (bool_decide_eq_false_2 (as_bytes k = as_bytes value)).
      * apply bool_decide_ext. set_solver.
      * intros H. by apply Hne, eq_sym, as_bytes_inj.
Qed.

(** ** Theorems *)

Definition management (f : FeaturesConfig) : list Route :=
  management_routes ++ optional_management_routes f.

Lemma management_admin f r path :
  r ∈ management f -> matches r path = true -> classify_http_path path = Admin.
Proof.
  intros Hr. apply (routes_have_class_path Admin (management f)); [|done].
  apply Forall_app. split; [apply management_class|apply optional_class].
Qed.

(** The class of a route, by the group it is registered in. *)
Lemma route_class f r path :
  r ∈ create_routes f -> matches r path = true ->
  classify_http_path path =
    if decide (r ∈ probe_routes) then Health
    else if decide (r ∈ management f) then Admin
    else Inference.
Proof.
  intros Hr Hm. unfold create_routes in Hr. rewrite !elem_of_app in Hr.
  destruct (decide (r ∈ probe_routes)) as [Hp|Hp].
  - by eapply routes_have_class_path; [apply probe_class|..].
  - destruct (decide (r ∈ management f)) as [Hg|Hg]; [by eapply management_admin|].
    unfold management in Hg. rewrite elem_of_app in Hg.
    destruct Hr as [?|[?|[?|[Hi|Ho]]]]; try tauto.
    + by eapply routes_have_class_path; [apply (inference_class f)|..].
    + by eapply routes_have_class_path; [apply openai_class|..].
Qed.

(** Every registered route is classified as what it is: a probe, management or
    inference. *)
Theorem routes_classified f r path :
  r ∈ create_routes f -> matches r path = true ->
  classify_http_path path =
    if decide (r ∈ probe_routes) then Health
    else if decide (r ∈ management f) then Admin
    else Inference.
Proof. apply route_class. Qed.

(** A state-changing request is same-site: it announces no origin, or there is no
    [Host] to compare with, or the origin names the host or a trusted origin. *)
Definition same_site (ac : AccessControl) (q : Request) : Prop :=
  match method q with GET | HEAD | OPTIONS | TRACE => True | _ =>
    forall host value, header (headers q) "host" = Some host ->
      or_else (header (headers q) "origin") (header (headers q) "referer") = Some value ->
      origin_matches_host value host = true \/ origin_is_trusted ac value = true
  end.

(** What the admin cell of the policy asks of a request. *)
Definition admin_authorized (ac : AccessControl) (q : Request) : Prop :=
  match cell ac Admin AxisHttp with
  | Public => True
  | Key name secret _ =>
      exists value, header (headers q) name = Some value /\ as_bytes value = secret
  | Unconfigured => peer q <> Some false /\ same_site ac q
  end.

Lemma cross_site_spec ac q :
  uses_loopback_exemption ac Admin Http = true ->
  admin_request_is_cross_site Admin ac q = false <-> same_site ac q.
Proof.
  intros Hu. unfold admin_request_is_cross_site, same_site.
  rewrite bool_decide_eq_true_2, Hu by done. simpl.
  destruct (method q); try (split; done);
    (destruct (header (headers q) "host") as [h|]; [|by split; [intros _ ? ? [=]|]]);
    (destruct (or_else _ _) as [v|]; [|by split; [intros _ ? ? _ [=]|]]);
    rewrite andb_false_iff, !negb_false_iff; naive_solver.
Qed.

(** What the gate asks of a request it classifies as management. *)
Lemma admin_gate_spec q ac :
  classify_http_path (path q) = Admin ->
  access_control_middleware ac q = Ok tt <-> admin_authorized ac q.
Proof.
  intros Hclass. unfold access_control_middleware, admin_authorized, check.
  rewrite Hclass. simpl protocol_axis.
  destruct (cell ac Admin AxisHttp) as [| |name secret fp] eqn:Hc.
  - assert (uses_loopback_exemption ac Admin Http = true) as Hu
      by (unfold uses_loopback_exemption; simpl protocol_axis; by rewrite Hc).
    rewrite <- (cross_site_spec ac q Hu).
    destruct (peer q) as [[]|], (admin_request_is_cross_site Admin ac q); simpl; naive_solver.
  - assert (admin_request_is_cross_site Admin ac q = false) as ->.
    { unfold admin_request_is_cross_site, uses_loopback_exemption. simpl protocol_axis. rewrite Hc.
      by destruct (method q). }
    done.
  - assert (admin_request_is_cross_site Admin ac q = false) as ->.
    { unfold admin_request_is_cross_site, uses_loopback_exemption. simpl protocol_axis. rewrite Hc.
      by destruct (method q). }
    destruct (header (headers q) name) as [v|]; simpl; [|naive_solver].
    rewrite ct_eq_spec. case_bool_decide; naive_solver.
Qed.

(** C19. Every management route is behind the admin gate: a request whose path
    matches one passes [access_control_middleware] exactly when it is authorized,
    that is, with the configured key, or with a public cell, or, when nothing is
    configured, from a loopback peer (or a socket without address) and, for a method
    that changes state, not announcing another site than the host or a trusted
    origin. *)
Theorem management_needs_authorization f r q ac :
  r ∈ management f -> matches r (path q) = true ->
  access_control_middleware ac q = Ok tt <-> admin_authorized ac q.
Proof. intros Hr Hm. apply admin_gate_spec. by eapply management_admin. Qed.

(** Without valid credentials for some policy, the answer for a model that does not
    exist does not depend on the error, so it discloses nothing; with valid ones, or
    no policies, it is the error. *)
Theorem unknown_models_not_disclosed (policies : list AuthPolicy) (h : gmap string (option string)) :
  (forall p, enforce_auth (Some p) h = Ok tt <->
     exists v, header h (auth_header p) = Some v /\ v <> EmptyString /\
       (auth_keys p = [] \/ v ∈ auth_keys p)) /\
  (policies = [] \/ Exists (fun p => enforce_auth (Some p) h = Ok tt) policies ->
     forall e, auth_gate_for_unknown_model policies h e = e) /\
  (policies <> [] -> Forall (fun p => enforce_auth (Some p) h <> Ok tt) policies ->
     forall e e', auth_gate_for_unknown_model policies h e
                  = auth_gate_for_unknown_model policies h e').
Proof.
  assert (Hkey : forall p v, key_accepted p v = true <-> auth_keys p = [] \/ v ∈ auth_keys p).
  { intros p v. unfold key_accepted. rewrite orb_true_iff, ct_contains_spec, !bool_decide_eq_true. done. }
  assert (Hok : forall p, enforce_auth (Some p) h = Ok tt <-> credentials_ok h p = true).
  { intros p. unfold enforce_auth, credentials_ok.
    destruct (bool_decide _); [naive_solver|]. destruct (key_accepted p _); naive_solver. }
  split; [|split].
  - intros p. rewrite Hok. unfold credentials_ok. rewrite andb_true_iff, negb_true_iff, bool_decide_eq_false, Hkey.
    destruct (header h (auth_header p)) as [v|]; simpl; naive_solver.
  - intros Hp e. unfold auth_gate_for_unknown_model. case_bool_decide as Hn; [done|].
    destruct Hp as [?|Hex]; [done|].
    assert (existsb (credentials_ok h) policies = true) as ->; [|done].
    apply existsb_exists. apply Exists_exists in Hex as (p & Hin & Hp). exists p.
    split; [by apply list_elem_of_In|]. by apply Hok.
  - intros Hne Hall e e'. unfold auth_gate_for_unknown_model. rewrite bool_decide_eq_false_2 by done.
    assert (existsb (credentials_ok h) policies = false) as ->; [|done].
    apply not_true_is_false. intros (p & Hin & Hp)%existsb_exists.
    apply list_elem_of_In in Hin. apply (proj1 (Forall_forall _ _) Hall p Hin). by apply Hok.
Qed.

(** ** The theorems at concrete inputs *)

Definition all_features : FeaturesConfig :=
  {| timeline := true; alerts := true; version_compare := true; streaming := true; sse := true;
     websocket_streaming := true; http_bidi := true; decoupled := true;
     accelerator_metrics := true |}.

Definition reload_route : Route := route "/v2/models/:model_name/reload" [(POST, "reload_model_handler")].

Lemma routes_classified_witness :
  classify_http_path "/v2/models/bert/reload" = Admin.
Proof.
  rewrite (routes_classified all_features reload_route "/v2/models/bert/reload").
  - vm_compute. reflexivity.
  - apply (bool_decide_eq_true_1 (reload_route ∈ create_routes all_features)). vm_compute. reflexivity.
  - vm_compute. reflexivity.
Defined.

Definition no_policy : CellPolicy := {| cp_http := Unconfigured; cp_grpc := Unconfigured |}.
Definition default_access : AccessControl :=
  {| ac_admin := no_policy; ac_inference := no_policy; ac_health := no_policy;
     trusted_origins := [] |}.

(** A page on another site posts to the loopback address: the connection is local, the
    request is refused. *)
Definition forged : Request :=
  {| method := POST; path := "/v2/models/bert/reload";
     headers := {[ "host" := Some "127.0.0.1:8000"; "origin" := Some "https://evil.example" ]};
     peer := Some true |}.

Lemma management_needs_authorization_witness :
  access_control_middleware default_access forged <> Ok tt.
Proof.
  intros H.
  apply (management_needs_authorization all_features reload_route forged default_access) in H.
  - destruct H as [_ Hs].
    destruct (Hs "127.0.0.1:8000" "https://evil.example" eq_refl eq_refl) as [H|H];
      vm_compute in H; discriminate.
  - apply (bool_decide_eq_true_1 (reload_route ∈ management all_features)). vm_compute. reflexivity.
  - vm_compute. reflexivity.
Defined.
