(* ===== verification/Stack.v ===== *)
(** * The HTTP layers around the handlers

    The layers [start_http_server] ([src/src/http/mod.rs]) stacks around the router, in
    the order they decide: CORS, admission, the draining gate, access control, the
    decompression of request bodies, and the router's own dispatch by path and method.
    The layers in between only observe or transform (request ids, spans, compression, the
    request context) and decide nothing.

    The theorem composes [Cors.v], [Admission.v] and [Access.v] with the route table:
    which requests reach which handler, and what they hold when they do. *)

From S2P Require Import Prelude Text Errors Admission Lifecycle Registry Validation Cors Access Routes.
Import Errors.Render.
Open Scope string_scope.
Open Scope Z_scope.

(** [try_acquire] when nothing interferes with its loop. *)
Definition try_acquire (a : Inner) : option AdmissionGuard * Inner :=
  match try_acquire_load a with
  | Return g => (g, a)
  | Exchange c => try_acquire_exchange false c a
  end.

(** What [admission_middleware] decides: pass without a slot, pass holding one, or
    refuse. *)
Inductive Admission :=
  | Exempt
  | Slot (g : AdmissionGuard)
  | AtCapacity.

Definition admission_middleware (a : Inner) (q : Request) : Admission * Inner :=
  if cap a =? 0 then (Exempt, a)
  else if bool_decide (method q = OPTIONS) then (Exempt, a)
  else if negb (bool_decide (classify_http_path (path q) = Inference)) then (Exempt, a)
  else
    match try_acquire a with
    | (Some g, a) => (Slot g, a)
    | (None, a) => (AtCapacity, a)
    end.

Definition draining_gate (draining : bool) (q : Request) : bool :=
  negb draining || health_path (path q).

(** ** Request decompression *)

Inductive Encoding :=
  | NotEncoded       (** passed on as it is *)
  | Gzip             (** passed on with a decoding body *)
  | Unsupported (encoding : string).   (** 415 *)

Definition request_decompression_middleware (q : Request) : Encoding :=
  match headers q !! "content-encoding" with
  | None => NotEncoded
  | Some raw =>
      if ends_with "/bidi" (path q) then NotEncoded
      else
        let encoding := to_ascii_lowercase (default EmptyString (trim <$> raw)) in
        if bool_decide (encoding = "identity" \/ encoding = EmptyString) then NotEncoded
        else if bool_decide (encoding = "gzip") then Gzip
        else Unsupported encoding
  end.

(** ** The router

    A path selects a route, a method one of its handlers; [HEAD] is served by the [GET]
    handler when the route has none of its own (axum's documented rule). *)

Fixpoint handler_of (m : Method) (hs : list (Method * string)) : option string :=
  match hs with
  | [] => None
  | (m', h) :: hs => if bool_decide (m = m') then Some h else handler_of m hs
  end.

Definition method_handler (m : Method) (r : Route) : option string :=
  match handler_of m (handlers r) with
  | Some h => Some h
  | None => if bool_decide (m = HEAD) then handler_of GET (handlers r) else None
  end.

Inductive Dispatch :=
  | Handler (h : string)
  | MethodRefused        (** 405 *)
  | RouteFallback.          (** [route_fallback]: custom routes, or 404 *)

Definition dispatch (f : FeaturesConfig) (q : Request) : Dispatch :=
  match List.find (fun r => matches r (path q)) (create_routes f) with
  | Some r => match method_handler (method q) r with
              | Some h => Handler h
              | None => MethodRefused
              end
  | None => RouteFallback
  end.

(** ** The server *)

Record Server := {
  sv_features : FeaturesConfig;
  sv_decompression : bool;         (** [server.request_decompression] *)
  sv_access : AccessControl;
  sv_cors : string -> string -> option CorsPolicy;
  sv_global_cors : option CorsPolicy;
  sv_registry : ModelRegistry;
  sv_draining : bool;
  sv_admission : Inner;
}.

Inductive Verdict :=
  | Preflight (r : Response)      (** answered by the CORS layer *)
  | Overloaded                    (** 503, [max_inflight] *)
  | Draining                      (** 503, shutting down *)
  | Denied (e : AppError)         (** 401 *)
  | UnsupportedEncoding (encoding : string)    (** 415 *)
  | Routed (slot : Admission) (d : Dispatch).   (** what the router does with it *)

Section serve.
Context `{HttpSyntax}.

(** [cors_middleware]: the answer it gives itself, if any. *)
Definition cors_middleware (s : Server) (q : Request) : option Response :=
  if bool_decide (classify_http_path (path q) = Admin) then None
  else
    match effective_policy (sv_cors s) (sv_global_cors s) (sv_registry s)
            (access_log_target (path q)) with
    | None => None
    | Some policy =>
        match cors_policy_applied policy (bool_decide (method q = OPTIONS)) (headers q) with
        | ShortCircuit r => Some r
        | Forward _ => None
        end
    end.

(** Inside access control. *)
Definition route_request (s : Server) (slot : Admission) (q : Request) : Verdict :=
  match (if sv_decompression s then request_decompression_middleware q else NotEncoded) with
  | Unsupported e => UnsupportedEncoding e
  | _ => Routed slot (dispatch (sv_features s) q)
  end.

Definition serve (s : Server) (q : Request) : Verdict :=
  match cors_middleware s q with
  | Some r => Preflight r
  | None =>
      match fst (admission_middleware (sv_admission s) q) with
      | AtCapacity => Overloaded
      | slot =>
          if negb (draining_gate (sv_draining s) q) then Draining
          else
            match access_control_middleware (sv_access s) q with
            | Err e => Denied e
            | Ok _ => route_request s slot q
            end
      end
  end.

Lemma cors_only_preflights s q :
  method q <> OPTIONS -> cors_middleware s q = None.
Proof.
  intros Hm. unfold cors_middleware. case_bool_decide; [done|].
  destruct (effective_policy _ _ _ _) as [policy|]; [|done].
  rewrite bool_decide_eq_false_2 by done. unfold cors_policy_applied. by repeat case_match.
Qed.

Lemma cors_skips_admin s q :
  classify_http_path (path q) = Admin -> cors_middleware s q = None.
Proof. intros Hc. unfold cors_middleware. by rewrite bool_decide_eq_true_2. Qed.

Lemma admission_exempts s q :
  classify_http_path (path q) <> Inference -> admission_middleware s q = (Exempt, s).
Proof.
  intros Hc. unfold admission_middleware. case_goal; [done|]. case_goal; [done|].
  by rewrite bool_decide_eq_false_2.
Qed.

Lemma health_path_class p : health_path p = true <-> classify_http_path p = Health.
Proof. unfold classify_http_path. repeat case_goal; naive_solver. Qed.

(** A refused or counted slot. *)
Lemma admission_inference s q :
  cap s <> 0 -> method q <> OPTIONS -> classify_http_path (path q) = Inference ->
  admission_middleware s q =
    if cap s <=? current s then (AtCapacity, s)
    else (Slot {| guard_inner := true |}, {| current := current s + 1; cap := cap s |}).
Proof.
  intros Hcap Hm Hc. unfold admission_middleware, try_acquire, try_acquire_load, try_acquire_exchange.
  rewrite (proj2 (Z.eqb_neq _ _)) by lia. rewrite bool_decide_eq_false_2 by done.
  rewrite bool_decide_eq_true_2 by done. simpl. case_goal; [done|]. by rewrite Z.eqb_refl.
Qed.

(** The gates after CORS, for a request CORS passes on. *)
Lemma serve_passed s q :
  cors_middleware s q = None ->
  serve s q =
    match fst (admission_middleware (sv_admission s) q) with
    | AtCapacity => Overloaded
    | slot =>
        if negb (draining_gate (sv_draining s) q) then Draining
        else match access_control_middleware (sv_access s) q with
             | Err e => Denied e
             | Ok _ => route_request s slot q
             end
    end.
Proof. intros Hc. unfold serve. by rewrite Hc. Qed.

(** What the policy asks of a probe or an inference request. *)
Definition key_authorized (ac : AccessControl) (c : EndpointClass) (q : Request) : Prop :=
  match cell ac c AxisHttp with
  | Key name secret _ => exists v, header (headers q) name = Some v /\ as_bytes v = secret
  | Public | Unconfigured => True
  end.

Lemma key_gate_spec ac q :
  classify_http_path (path q) <> Admin ->
  access_control_middleware ac q = Ok tt <-> key_authorized ac (classify_http_path (path q)) q.
Proof.
  intros Hc. unfold access_control_middleware, key_authorized, check, admin_request_is_cross_site.
  rewrite bool_decide_eq_false_2 by done. simpl protocol_axis.
  destruct (cell ac _ AxisHttp) as [| |name secret fp].
  - by destruct (classify_http_path (path q)).
  - done.
  - destruct (header (headers q) name) as [v|]; simpl; [|naive_solver].
    rewrite ct_eq_spec. case_bool_decide; naive_solver.
Qed.

(** What a request of each class needs to reach its handler. *)
Definition passes (c : EndpointClass) (s : Server) (q : Request) : Prop :=
  match c with
  | Health => key_authorized (sv_access s) Health q
  | Admin => sv_draining s = false /\ admin_authorized (sv_access s) q
  | Inference =>
      (cap (sv_admission s) = 0 \/ current (sv_admission s) < cap (sv_admission s)) /\
      sv_draining s = false /\ key_authorized (sv_access s) Inference q
  end.

(** What it holds there. *)
Definition holds (c : EndpointClass) (s : Server) : Admission :=
  match c with
  | Health | Admin => Exempt
  | Inference =>
      if cap (sv_admission s) =? 0 then Exempt else Slot {| guard_inner := true |}
  end.

Lemma draining_gate_spec s q c :
  classify_http_path (path q) = c ->
  draining_gate (sv_draining s) q = true <-> sv_draining s = false \/ c = Health.
Proof.
  intros <-. unfold draining_gate. rewrite orb_true_iff, negb_true_iff, health_path_class. done.
Qed.

Lemma admission_spec s q :
  method q <> OPTIONS -> classify_http_path (path q) = Inference ->
  fst (admission_middleware s q) =
    if cap s =? 0 then Exempt
    else if cap s <=? current s then AtCapacity else Slot {| guard_inner := true |}.
Proof.
  intros Hm Hc. destruct (Z.eqb_spec (cap s) 0) as [Hz|Hz].
  - unfold admission_middleware. by rewrite Hz.
  - rewrite admission_inference by done. by case_goal.
Qed.

(** Past the gates, with the slot its class holds. *)
Lemma serve_class s q v :
  method q <> OPTIONS ->
  match v with UnsupportedEncoding _ | Routed _ _ => True | _ => False end ->
  serve s q = v <->
    passes (classify_http_path (path q)) s q /\
    route_request s (holds (classify_http_path (path q)) s) q = v.
Proof.
  intros Hm Hv. rewrite serve_passed by by apply cors_only_preflights.
  pose proof (draining_gate_spec s q _ eq_refl) as Hd.
  assert (Hno : v <> Overloaded /\ v <> Draining /\ forall e, v <> Denied e) by (by destruct v).
  destruct Hno as (Hn1 & Hn2 & Hn3).
  destruct (classify_http_path (path q)) eqn:Hc; simpl.
  - rewrite admission_exempts by (by rewrite Hc). simpl. rewrite <- admin_gate_spec by done.
    destruct (draining_gate _ _), (access_control_middleware _ _) as [[]|]; naive_solver.
  - rewrite admission_spec by done. rewrite <- Hc, <- key_gate_spec by (by rewrite Hc).
    destruct (Z.eqb_spec (cap (sv_admission s)) 0), (Z.leb_spec (cap (sv_admission s)) (current (sv_admission s))),
      (draining_gate _ _), (access_control_middleware _ _) as [[]|]; naive_solver lia.
  - rewrite admission_exempts by (by rewrite Hc). simpl. rewrite <- Hc, <- key_gate_spec by (by rewrite Hc).
    destruct (draining_gate _ _), (access_control_middleware _ _) as [[]|]; naive_solver.
Qed.
End serve.

(** ** No two routes match the same path *)

Fixpoint overlap (ps qs : list string) : bool :=
  match ps, qs with
  | [], [] => true
  | p :: ps, q :: qs =>
      (starts_with ":" p || starts_with ":" q || String.eqb p q) && overlap ps qs
  | _, _ => false
  end.

Lemma overlap_spec ps qs ss : segs_match ps ss = true -> segs_match qs ss = true -> overlap ps qs = true.
Proof.
  revert qs ss. induction ps as [|p ps IH]; intros [|q qs] [|s ss]; simpl; try done.
  rewrite !andb_true_iff. intros [Hp Hps] [Hq Hqs]. split; [|by eapply IH].
  destruct (starts_with ":" p), (starts_with ":" q); try done. simpl.
  apply String.eqb_eq in Hp as <-. by rewrite String.eqb_sym.
Qed.

Definition segments (r : Route) : list string := split_char "/"%char (pattern r).

Lemma elem_of_toggled {A} (b : bool) (l : list A) x : x ∈ (if b then l else []) -> x ∈ l.
Proof. destruct b; [done|]. by intros ?%elem_of_nil. Qed.

(** A feature only adds routes. *)
Lemma create_routes_all f r : r ∈ create_routes f -> r ∈ create_routes all_features.
Proof.
  unfold create_routes, optional_management_routes, inference_routes.
  cbn [timeline alerts accelerator_metrics version_compare streaming sse websocket_streaming
    http_bidi decoupled all_features andb].
  rewrite !elem_of_app. intros Hr.
  repeat match goal with
  | H : _ \/ _ |- _ => destruct H as [H|H]
  end; try apply elem_of_toggled in Hr; rewrite ?elem_of_app in Hr; tauto.
Qed.

Lemma routes_apart f r1 r2 path :
  r1 ∈ create_routes f -> r2 ∈ create_routes f -> matches r1 path = true -> matches r2 path = true -> r1 = r2.
Proof.
  intros H1%create_routes_all H2%create_routes_all Hm1 Hm2.
  assert (Hall : forallb (fun r1 => forallb (fun r2 =>
    bool_decide (r1 = r2) || negb (overlap (segments r1) (segments r2)))
    (create_routes all_features)) (create_routes all_features) = true) by (vm_compute; reflexivity).
  rewrite forallb_forall in Hall. specialize (Hall r1 (proj1 (list_elem_of_In _ _) H1)).
  rewrite forallb_forall in Hall. specialize (Hall r2 (proj1 (list_elem_of_In _ _) H2)).
  simpl in Hall. unfold segments in Hall. rewrite (overlap_spec _ _ _ Hm1 Hm2), orb_false_r in Hall.
  by apply bool_decide_eq_true_1 in Hall.
Qed.

Lemma dispatch_route f r q :
  r ∈ create_routes f -> matches r (path q) = true ->
  dispatch f q = match method_handler (method q) r with Some h => Handler h | None => MethodRefused end.
Proof.
  intros Hr Hm. unfold dispatch. destruct (List.find _ _) as [r'|] eqn:Hf.
  - apply find_some in Hf as [Hin Hm']. apply list_elem_of_In in Hin.
    by rewrite (routes_apart f r' r (path q)).
  - apply list_elem_of_In in Hr. pose proof (find_none _ _ Hf r Hr) as Hn. simpl in Hn. congruence.
Qed.

(** The body's encoding is one the server reads, where it looks at it. *)
Definition readable_encoding (s : Server) (q : Request) : Prop :=
  sv_decompression s = true -> ends_with "/bidi" (path q) = false ->
  forall raw, headers q !! "content-encoding" = Some raw ->
    to_ascii_lowercase (default EmptyString (trim <$> raw)) ∈ ["identity"; ""; "gzip"].

Lemma route_request_spec s slot q v :
  match v with Routed _ _ => True | _ => False end ->
  route_request s slot q = v <-> readable_encoding s q /\ v = Routed slot (dispatch (sv_features s) q).
Proof.
  intros Hv. unfold route_request, readable_encoding, request_decompression_middleware.
  destruct (sv_decompression s); [|naive_solver].
  destruct (headers q !! "content-encoding") as [raw|]; [|naive_solver].
  destruct (ends_with "/bidi" (path q)); [naive_solver|].
  set (e := to_ascii_lowercase _).
  assert (He : (e ∈ ["identity"; ""; "gzip"]) <-> (e = "identity" \/ e = "") \/ e = "gzip") by set_solver.
  destruct (decide (e = "identity" \/ e = "")) as [H1|H1].
  - rewrite bool_decide_eq_true_2 by done. split; [intros <-|by intros [_ ->]]. split; [|done].
    intros _ _ ? [= <-]. apply He. by left.
  - rewrite bool_decide_eq_false_2 by done. destruct (decide (e = "gzip")) as [H2|H2].
    + rewrite bool_decide_eq_true_2 by done. split; [intros <-|by intros [_ ->]]. split; [|done].
      intros _ _ ? [= <-]. apply He. by right.
    + rewrite bool_decide_eq_false_2 by done. split; [by intros <-|]. intros [Hr _].
      specialize (Hr eq_refl eq_refl _ eq_refl). apply He in Hr. tauto.
Qed.

Section layers.
Context `{HttpSyntax}.

(** C20. The layers of the HTTP server as a whole, with the router's choice of a
    method: a request for a registered route (other than OPTIONS) reaches a handler
    exactly when its class admits it (probes always subject to their own key,
    inference while not draining, below the in-flight cap and with the inference
    credentials, management while not draining and authorized), its content encoding
    is none, identity or gzip (where bodies are decompressed and the path is not a
    bidirectional stream), and the route has that handler for the method, HEAD
    falling back to GET; it is answered 405 exactly when all but the last hold; and
    it then holds an admission slot exactly if it is an inference request under a
    cap. *)
Theorem layers_decide r s q :
  r ∈ create_routes (sv_features s) -> matches r (path q) = true -> method q <> OPTIONS ->
  let c := if decide (r ∈ probe_routes) then Health
           else if decide (r ∈ management (sv_features s)) then Admin else Inference in
  (forall slot h, serve s q = Routed slot (Handler h) <->
     passes c s q /\ slot = holds c s /\ readable_encoding s q /\ method_handler (method q) r = Some h) /\
  (forall slot, serve s q = Routed slot MethodRefused <->
     passes c s q /\ slot = holds c s /\ readable_encoding s q /\ method_handler (method q) r = None).
Proof.
  intros Hr Hm Hmethod c. pose proof (dispatch_route _ r q Hr Hm) as Hd.
  assert (Hc : classify_http_path (path q) = c) by (by apply route_class).
  split; [intros slot h|intros slot]; rewrite serve_class, Hc, route_request_spec, Hd by done;
    destruct (method_handler (method q) r); naive_solver.
Qed.
End layers.

(** A probe during a drain, with every slot taken: it is answered. *)
Definition drained : Server :=
  {| sv_features := all_features; sv_decompression := true;
     sv_access := default_access; sv_cors := fun _ _ => None; sv_global_cors := None;
     sv_registry := registry_new; sv_draining := true; sv_admission := {| current := 4; cap := 4 |} |}.

Definition probe : Request :=
  {| method := HEAD; path := "/livez"; headers := {[ "content-encoding" := Some " GZip" ]}; peer := Some false |}.

Definition livez_route : Route := route "/livez" [(GET, "livez_handler")].

Lemma layers_decide_witness :
  @serve plain_syntax drained probe = Routed Exempt (Handler "livez_handler") /\
  @serve plain_syntax drained {| method := POST; path := "/livez"; headers := ∅; peer := Some false |}
  = Routed Exempt MethodRefused.
Proof.
  assert (Hin : livez_route ∈ create_routes all_features)
    by (apply (bool_decide_eq_true_1 (livez_route ∈ create_routes all_features)); vm_compute; reflexivity).
  split.
  - apply (@layers_decide plain_syntax livez_route drained probe Hin); [vm_compute; reflexivity|done|].
    split_and!; [vm_compute; done|vm_compute; reflexivity| |vm_compute; reflexivity].
    intros _ _ raw Hraw. vm_compute in Hraw. injection Hraw as <-. vm_compute. set_solver.
  - apply (@layers_decide plain_syntax livez_route drained _ Hin); [vm_compute; reflexivity|done|].
    split_and!; [vm_compute; done|vm_compute; reflexivity| |vm_compute; reflexivity].
    intros _ _ raw Hraw. vm_compute in Hraw. discriminate.
Defined.

(** Leaves of built-in routes that [is_reserved_route] does not reserve: a worker's
    custom route of that name is accepted and never reached. *)
Theorem unreserved_system_leaves :
  Forall (fun leaf =>
    is_reserved_route ("/" +:+ leaf) = false /\
    existsb (fun r => matches r ("/v2/models/m/" +:+ leaf)) (create_routes all_features) = true)
    ["bidi"; "decoupled"; "decoupled-stream"; "generate"; "generate_stream"; "routing"].
Proof. repeat constructor. Qed.
