(* ===== verification/Json.v ===== *)
(** * JSON values and ordered maps

    [serde_json::Value] with the accessors the ensemble code uses, and [IndexMap], a map
    that keeps the order of insertion, as the list of its entries.  Parsing and printing
    belong to the [serde_json] crate: where the code needs them they are arguments. *)

From S2P Require Import Prelude Text Float.
Open Scope Z_scope.

Abbreviation Bytes := (list Z) (only parsing).

(** ** Ordered maps *)

Abbreviation IndexMap A := (list (string * A)) (only parsing).

(** [map.get(k)]. *)
Fixpoint index_get {A} (k : string) (m : IndexMap A) : option A :=
  match m with
  | [] => None
  | (k', a) :: m => if String.eqb k k' then Some a else index_get k m
  end.

Lemma index_get_Some {A} k (m : IndexMap A) a : index_get k m = Some a -> (k, a) ∈ m.
Proof.
  induction m as [|[k' a'] m IH]; simpl; [done|].
  destruct (String.eqb_spec k k'); [|by right; apply IH]. intros [= ->]. subst. by left.
Qed.

Lemma index_get_None {A} k (m : IndexMap A) : index_get k m = None <-> k ∉ m.*1.
Proof.
  induction m as [|[k' a'] m IH]; simpl; [set_solver|].
  destruct (String.eqb_spec k k'); [set_solver|]. rewrite IH. set_solver.
Qed.

Lemma index_get_NoDup {A} k (m : IndexMap A) a : NoDup m.*1 -> (k, a) ∈ m -> index_get k m = Some a.
Proof.
  induction m as [|[k' a'] m IH]; simpl; [set_solver|]. intros [Hout Hnd]%NoDup_cons Hin.
  destruct (String.eqb_spec k k') as [->|Hne].
  - apply elem_of_cons in Hin as [[= ->]|Hin]; [done|]. destruct Hout. apply list_elem_of_fmap. by exists (k', a).
  - apply elem_of_cons in Hin as [[= -> ->]|Hin]; [done|]. by apply IH.
Qed.

(** ** Values *)

(** [serde_json::Number]: an unsigned integer, a negative integer or a finite float. *)
Inductive Number :=
  | PosInt (n : Z)
  | NegInt (n : Z)
  | FloatNum (f : spec_float).

Inductive Value :=
  | Null
  | Bool (b : bool)
  | Num (n : Number)
  | Str (s : string)
  | Array (a : list Value)
  | Object (o : IndexMap Value).

(** [v.get(key)]: none unless [v] is an object. *)
Definition get (key : string) (v : Value) : option Value :=
  match v with Object o => index_get key o | _ => None end.

Definition as_str (v : Value) : option string :=
  match v with Str s => Some s | _ => None end.

Definition as_array (v : Value) : option (list Value) :=
  match v with Array a => Some a | _ => None end.

Definition as_object (v : Value) : option (IndexMap Value) :=
  match v with Object o => Some o | _ => None end.

(** [v.as_u64()]: floats are not converted. *)
Definition value_as_u64 (v : Value) : option Z :=
  match v with Num (PosInt n) => Some n | _ => None end.

Definition is_array (v : Value) : bool := is_some (as_array v).

(** [==] on numbers: the three forms are never equal to each other. *)
Definition number_eqb (a b : Number) : bool :=
  match a, b with
  | PosInt a, PosInt b | NegInt a, NegInt b => a =? b
  | FloatNum a, FloatNum b => SFeqb a b
  | _, _ => false
  end.

(** [==] on values.  Objects are kept in the order of their keys, so equal objects have
    the same entries in the same places. *)
Fixpoint value_eqb (a b : Value) : bool :=
  match a, b with
  | Null, Null => true
  | Bool a, Bool b => Bool.eqb a b
  | Num a, Num b => number_eqb a b
  | Str a, Str b => String.eqb a b
  | Array a, Array b =>
      (fix go (a b : list Value) : bool :=
         match a, b with
         | [], [] => true
         | x :: a, y :: b => value_eqb x y && go a b
         | _, _ => false
         end) a b
  | Object a, Object b =>
      (fix go (a b : list (string * Value)) : bool :=
         match a, b with
         | [], [] => true
         | (k, x) :: a, (l, y) :: b => String.eqb k l && value_eqb x y && go a b
         | _, _ => false
         end) a b
  | _, _ => false
  end.

(** Induction with a hypothesis for every element and every member. *)
Lemma value_nested_ind (P : Value -> Prop) :
  P Null -> (forall b, P (Bool b)) -> (forall n, P (Num n)) -> (forall s, P (Str s)) ->
  (forall a, Forall P a -> P (Array a)) -> (forall o, Forall (fun kv => P (snd kv)) o -> P (Object o)) ->
  forall v, P v.
Proof.
  intros Hnull Hbool Hnum Hstr Harr Hobj. fix IH 1. intros [|b|n|s|a|o];
    [exact Hnull|apply Hbool|apply Hnum|apply Hstr| |].
  - apply Harr. induction a as [|v a IHa]; constructor; [apply IH|exact IHa].
  - apply Hobj. induction o as [|[k v] o IHo]; constructor; [apply IH|exact IHo].
Qed.

(** [is_object]. *)
Definition is_object (v : Value) : bool := is_some (as_object v).

(** ** [serde_json]'s map

    Entries in the order of their keys. *)

(** [insert]: replaces the value of a key that is there. *)
Fixpoint btree_insert {A} (k : string) (a : A) (m : IndexMap A) : IndexMap A :=
  match m with
  | [] => [(k, a)]
  | (k', a') :: m' =>
      match String.compare k k' with
      | Eq => (k, a) :: m'
      | Lt => (k, a) :: m
      | Gt => (k', a') :: btree_insert k a m'
      end
  end.

(** [remove]. *)
Definition btree_remove {A} (k : string) (m : IndexMap A) : IndexMap A :=
  List.filter (fun e => negb (String.eqb (fst e) k)) m.

(** Strictly increasing keys. *)
Definition str_lt (a b : string) : Prop := String.compare a b = Lt.

Definition btree {A} (m : IndexMap A) : Prop := StronglySorted str_lt (map fst m).

#[export] Instance str_lt_trans : Transitive str_lt.
Proof.
  unfold str_lt. intros a. induction a as [|x a IH]; intros [|y b] [|z c]; simpl; try done.
  unfold Ascii.compare.
  destruct (N.compare_spec (Ascii.N_of_ascii x) (Ascii.N_of_ascii y)),
    (N.compare_spec (Ascii.N_of_ascii y) (Ascii.N_of_ascii z)), (N.compare_spec (Ascii.N_of_ascii x) (Ascii.N_of_ascii z));
    try done; try lia. by apply IH.
Qed.

Lemma str_lt_irrefl a : ~ str_lt a a.
Proof.
  unfold str_lt. pose proof (String.compare_antisym a a) as H. destruct (String.compare a a); discriminate.
Qed.

Lemma str_gt a b : String.compare a b = Gt <-> str_lt b a.
Proof. unfold str_lt. rewrite (String.compare_antisym b a). by destruct (String.compare a b). Qed.

Lemma btree_cons {A} k (a : A) m : btree ((k, a) :: m) <-> Forall (str_lt k) (map fst m) /\ btree m.
Proof. unfold btree. simpl. split; [intros H; inversion H; auto|intros [??]; by constructor]. Qed.

Lemma index_get_insert {A} k k' (a : A) m :
  index_get k' (btree_insert k a m) = if String.eqb k' k then Some a else index_get k' m.
Proof.
  induction m as [|[l b] m IH]; simpl; [done|].
  destruct (String.compare k l) eqn:Hc; simpl.
  - apply String.compare_eq_iff in Hc as ->. by destruct (String.eqb k' l).
  - done.
  - rewrite IH. destruct (String.eqb_spec k' k) as [->|]; [|done].
    destruct (String.eqb_spec k l) as [->|]; [|done]. apply str_gt in Hc. by destruct (str_lt_irrefl l).
Qed.

Lemma index_get_remove {A} k k' (m : IndexMap A) :
  index_get k' (btree_remove k m) = if String.eqb k' k then None else index_get k' m.
Proof.
  induction m as [|[l b] m IH]; simpl; [by destruct (String.eqb k' k)|].
  destruct (String.eqb_spec l k) as [->|Hne]; simpl; rewrite IH.
  - by destruct (String.eqb k' k).
  - destruct (String.eqb_spec k' k) as [->|]; [|done]. destruct (String.eqb_spec k l); [congruence|done].
Qed.

Lemma btree_insert_keys {A} k (a : A) m x : x ∈ map fst (btree_insert k a m) -> x = k \/ x ∈ map fst m.
Proof.
  induction m as [|[l b] m IH]; simpl; [set_solver|].
  destruct (String.compare k l) eqn:Hc; simpl; set_solver.
Qed.

Lemma btree_insert_sorted {A} k (a : A) m : btree m -> btree (btree_insert k a m).
Proof.
  induction m as [|[l b] m IH]; simpl; [by repeat constructor|].
  intros [Hl Hm]%btree_cons. destruct (String.compare k l) eqn:Hc.
  - apply String.compare_eq_iff in Hc as ->. by apply btree_cons.
  - apply btree_cons. split; [|by apply btree_cons]. simpl. constructor; [done|].
    eapply Forall_impl; [exact Hl|]. intros x Hx. exact (str_lt_trans _ _ _ Hc Hx).
  - apply btree_cons. split; [|by apply IH]. apply Forall_forall. intros x Hx%btree_insert_keys.
    destruct Hx as [->|Hx]; [by apply str_gt|]. by apply (proj1 (Forall_forall _ _) Hl).
Qed.

Lemma btree_remove_keys {A} k (m : IndexMap A) x : x ∈ map fst (btree_remove k m) -> x ∈ map fst m.
Proof.
  induction m as [|[l b] m IH]; simpl; [done|]. destruct (String.eqb l k); simpl; set_solver.
Qed.

Lemma btree_remove_sorted {A} k (m : IndexMap A) : btree m -> btree (btree_remove k m).
Proof.
  induction m as [|[l b] m IH]; simpl; [done|]. intros [Hl Hm]%btree_cons.
  destruct (String.eqb l k); simpl; [by apply IH|]. apply btree_cons. split; [|by apply IH].
  apply Forall_forall. intros x Hx%btree_remove_keys. by apply (proj1 (Forall_forall _ _) Hl).
Qed.

(** A map is determined by its lookups. *)
Lemma btree_ext {A} (m m' : IndexMap A) :
  btree m -> btree m' -> (forall k, index_get k m = index_get k m') -> m = m'.
Proof.
  revert m'. induction m as [|[k a] m IH]; intros [|[k' a'] m'] Hm Hm' Hext; [done| | |].
  - specialize (Hext k'). simpl in Hext. by rewrite String.eqb_refl in Hext.
  - specialize (Hext k). simpl in Hext. by rewrite String.eqb_refl in Hext.
  - apply btree_cons in Hm as [Hk Hm], Hm' as [Hk' Hm'].
    assert (forall x (n : IndexMap A), Forall (str_lt x) (map fst n) -> index_get x n = None) as Hout.
    { intros x n Hn. apply index_get_None. intros Hx. apply (str_lt_irrefl x).
      by apply (proj1 (Forall_forall _ _) Hn). }
    assert (k = k') as <-.
    { pose proof (Hext k) as H1. pose proof (Hext k') as H2. simpl in H1, H2. rewrite !String.eqb_refl in *.
      destruct (String.eqb_spec k k') as [|Hne]; [done|]. destruct (String.eqb_spec k' k) as [|_]; [congruence|].
      symmetry in H1. apply index_get_Some, (list_elem_of_fmap_2 fst) in H1.
      apply index_get_Some, (list_elem_of_fmap_2 fst) in H2. simpl in *.
      pose proof (proj1 (Forall_forall _ _) Hk _ H2). pose proof (proj1 (Forall_forall _ _) Hk' _ H1).
      by destruct (str_lt_irrefl k); etransitivity. }
    pose proof (Hext k) as H1. simpl in H1. rewrite String.eqb_refl in H1. injection H1 as <-. f_equal.
    apply IH; [done..|]. intros x. specialize (Hext x). simpl in Hext.
    destruct (String.eqb_spec x k) as [Heq|]; [|done]. subst x. by rewrite !Hout.
Qed.
