(* ===== verification/EnsembleProps.v ===== *)
(** * Properties of ensemble plans

    Kahn's algorithm visits exactly the steps whose dependencies are well founded,
    so [validate_dag] decides acyclicity; the layers of an accepted plan partition
    its steps in dependency order. *)

From S2P Require Import Prelude Text Json Ensemble.
From stdpp Require Import gmap fin_sets.

(** [d] is a dependency of step [n]. *)
Definition depends_on `{MapIter} (steps : list EnsembleStep) (d n : string) : Prop :=
  exists s, s ∈ steps /\ es_name s = n /\ d ∈ step_deps s.

(** A reference that parses and names a root or a step. *)
Definition ref_ok (names : list string) (r : string) : Prop :=
  exists source p, ref_captures r = Some (source, p) /\ (is_root source = true \/ source ∈ names).

(** ** Sizes *)

Lemma size_minus_one (D P : gset string) x :
  x ∈ D -> x ∉ P -> size (D ∖ ({[x]} ∪ P)) = (size (D ∖ P) - 1)%nat.
Proof.
  intros HD HP. replace (D ∖ ({[x]} ∪ P)) with ((D ∖ P) ∖ {[x]}) by set_solver.
  rewrite size_difference by set_solver. by rewrite size_singleton.
Qed.

Lemma size_inter_minus (D R : gset string) x :
  x ∈ D -> x ∈ R -> size (D ∩ (R ∖ {[x]})) = Nat.pred (size (D ∩ R)).
Proof.
  intros HD HR. replace (D ∩ (R ∖ {[x]})) with ((D ∩ R) ∖ ({[x]} ∪ ∅)) by set_solver.
  rewrite size_minus_one by set_solver. rewrite difference_empty_L. lia.
Qed.

Lemma inter_minus_same (D R : gset string) x : x ∉ D -> D ∩ (R ∖ {[x]}) = D ∩ R.
Proof. set_solver. Qed.

Lemma size_zero_subseteq (D P : gset string) : size (D ∖ P) = 0%nat <-> D ⊆ P.
Proof.
  rewrite size_empty_iff. split; [apply empty_difference_subseteq|apply subseteq_empty_difference].
Qed.

(** Counting the set of a list tells whether it repeats. *)
Lemma size_list_to_set_le (l : list string) : (size (list_to_set l : gset string) <= length l)%nat.
Proof.
  induction l as [|x l IH]; cbn [list_to_set length]; [by rewrite size_empty|].
  rewrite size_union_alt, size_singleton.
  pose proof (subseteq_size ((list_to_set l : gset string) ∖ {[x]}) (list_to_set l)
    ltac:(set_solver)). lia.
Qed.

Lemma size_list_to_set_NoDup (l : list string) :
  size (list_to_set l : gset string) = length l -> NoDup l.
Proof.
  induction l as [|x l IH]; cbn [list_to_set length]; [constructor|]. pose proof (size_list_to_set_le l) as Hle.
  destruct (decide (x ∈ l)) as [Hx|Hx].
  - replace ({[x]} ∪ list_to_set l : gset string) with (list_to_set l : gset string) by set_solver. lia.
  - rewrite size_union by set_solver. rewrite size_singleton. intros Hs. constructor; [done|].
    apply IH. lia.
Qed.

(** ** The inner loop *)

Lemma relax_spec dependencies x steps deg q :
  NoDup (map es_name steps) ->
  let '(deg', q') := relax dependencies x steps deg q in
  (forall n, deg' !! n =
     if decide (n ∈ map es_name steps /\ x ∈ deps_of dependencies n)
     then Some (default 0 (deg !! n) - 1)%nat else deg !! n) /\
  exists new, q' = new ++ q /\ NoDup new /\
    forall n, n ∈ new <-> n ∈ map es_name steps /\ x ∈ deps_of dependencies n /\
                          (default 0 (deg !! n) - 1 = 0)%nat.
Proof.
  revert deg q. induction steps as [|s steps IH]; intros deg q Hnd.
  { split.
    - intros n. rewrite decide_False; [done|]. by intros [?%elem_of_nil _].
    - exists []. split_and!; [done|constructor|]. intros n. rewrite !elem_of_nil. tauto. }
  cbn [map relax] in *. apply NoDup_cons in Hnd as [Hs Hnd].
  destruct (decide (x ∈ deps_of dependencies (es_name s))) as [Hx|Hx].
  - set (d := (default 0 (deg !! es_name s) - 1)%nat).
    specialize (IH (<[es_name s := d]> deg) (if Nat.eqb d 0 then es_name s :: q else q) Hnd).
    destruct (relax _ _ _ _ _) as [deg' q']. destruct IH as (Hdeg & new & -> & Hnew & Hin). split.
    + intros n. rewrite Hdeg. destruct (decide (n = es_name s)) as [->|Hne].
      * rewrite decide_False by tauto. rewrite lookup_insert_eq, decide_True; [done|].
        split; [left|done].
      * rewrite !lookup_insert_ne by done.
        destruct (decide (n ∈ map es_name steps /\ _)) as [Ha|Ha].
        -- rewrite decide_True; [done|]. split; [right; tauto|tauto].
        -- rewrite decide_False; [done|]. rewrite elem_of_cons. tauto.
    + exists (if Nat.eqb d 0 then new ++ [es_name s] else new).
      assert (Hother : forall n, n ∈ new <-> n ∈ map es_name steps /\ x ∈ deps_of dependencies n /\
        (default 0 (deg !! n) - 1 = 0)%nat).
      { intros n. rewrite Hin. destruct (decide (n = es_name s)) as [->|Hne]; [tauto|].
        by rewrite lookup_insert_ne. }
      destruct (Nat.eqb_spec d 0) as [H0|H0]; (split; [by rewrite <- ?app_assoc|]).
      * split.
        -- apply NoDup_app. split; [done|]. split; [|apply NoDup_singleton].
           intros n Hn Hns. apply list_elem_of_singleton in Hns as ->. apply Hother in Hn. tauto.
        -- intros n. rewrite elem_of_app, list_elem_of_singleton, Hother, elem_of_cons.
           split; [intros [?|Hn]; [tauto|subst n; tauto]|].
           intros ([->|?] & ? & ?); tauto.
      * split; [done|]. intros n. rewrite Hother, elem_of_cons. split; [tauto|].
        intros ([->|?] & ? & ?); [done|tauto].
  - specialize (IH deg q Hnd). destruct (relax _ _ _ _ _) as [deg' q'].
    destruct IH as (Hdeg & new & -> & Hnew & Hin). split.
    + intros n. rewrite Hdeg. destruct (decide (n ∈ map es_name steps /\ _)) as [Ha|Ha].
      * rewrite decide_True; [done|]. split; [right; tauto|tauto].
      * rewrite decide_False; [done|]. rewrite elem_of_cons. intros [[->|?] ?]; tauto.
    + exists new. split_and!; [done|done|]. intros n. rewrite Hin, elem_of_cons.
      split; [tauto|]. intros ([->|?] & ? & ?); [done|tauto].
Qed.

(** ** The outer loop *)

(** After the steps [P] were visited, with [q] waiting. *)
Record kahn_inv (dependencies : gmap string (gset string)) (names : list string)
    (P : gset string) (deg : gmap string nat) (q : list string) : Prop := {
  ki_nodup : NoDup q;
  ki_names : forall n, n ∈ P \/ n ∈ q -> n ∈ names;
  ki_apart : forall n, n ∈ q -> n ∉ P;
  ki_deg : forall n, n ∈ names -> deg !! n = Some (size (deps_of dependencies n ∖ P));
  ki_ready : forall n, n ∈ names -> (n ∈ P \/ n ∈ q) <-> deps_of dependencies n ⊆ P;
  ki_acc : forall n, n ∈ P -> Acc (fun d n => d ∈ deps_of dependencies n) n;
}.

Lemma kahn_inv_step dependencies steps P deg x q :
  NoDup (map es_name steps) ->
  kahn_inv dependencies (map es_name steps) P deg (x :: q) ->
  let '(deg', q') := relax dependencies x steps deg q in
  kahn_inv dependencies (map es_name steps) ({[x]} ∪ P) deg' q'.
Proof.
  intros Hnd Hinv. pose proof (relax_spec dependencies x steps deg q Hnd) as Hr.
  destruct (relax _ _ _ _ _) as [deg' q']. destruct Hr as (Hdeg & new & -> & Hnew & Hin).
  set (names := map es_name steps) in *.
  assert (Hxn : x ∈ names) by (apply (ki_names _ _ _ _ _ Hinv); right; left).
  assert (HxP : x ∉ P) by (apply (ki_apart _ _ _ _ _ Hinv); left).
  pose proof (ki_nodup _ _ _ _ _ Hinv) as [Hxq Hq]%NoDup_cons.
  assert (Hsub : forall n, n ∈ x :: q -> deps_of dependencies n ⊆ P).
  { intros n Hn. apply (ki_ready _ _ _ _ _ Hinv); [|by right].
    apply (ki_names _ _ _ _ _ Hinv). by right. }
  assert (Hnew' : forall n, n ∈ new <->
    n ∈ names /\ x ∈ deps_of dependencies n /\ deps_of dependencies n ⊆ {[x]} ∪ P).
  { intros n. rewrite Hin. split.
    - intros (Hn & Hx & Hz). split_and!; [done|done|]. apply size_zero_subseteq.
      rewrite size_minus_one by done. by rewrite (ki_deg _ _ _ _ _ Hinv n Hn) in Hz.
    - intros (Hn & Hx & Hz%size_zero_subseteq). split_and!; [done|done|].
      rewrite size_minus_one in Hz by done. by rewrite (ki_deg _ _ _ _ _ Hinv n Hn). }
  split.
  - apply NoDup_app. split_and!; [done| |done]. intros n Hn Hnq. apply Hnew' in Hn as (_ & Hx & _).
    pose proof (Hsub n ltac:(by right)). set_solver.
  - intros n [[Hn%elem_of_singleton|Hn]%elem_of_union|[Hn|Hn]%elem_of_app]; [by subst n| | |].
    + apply (ki_names _ _ _ _ _ Hinv). by left.
    + apply Hnew' in Hn. tauto.
    + apply (ki_names _ _ _ _ _ Hinv). by right; right.
  - intros n [Hn|Hn]%elem_of_app.
    + apply Hnew' in Hn as (Hnn & Hx & _). rewrite not_elem_of_union, not_elem_of_singleton. split.
      * intros ->. pose proof (Hsub x ltac:(left)). set_solver.
      * intros HnP. pose proof (proj1 (ki_ready _ _ _ _ _ Hinv n Hnn) (or_introl HnP)). set_solver.
    + rewrite not_elem_of_union, not_elem_of_singleton. split; [congruence|].
      apply (ki_apart _ _ _ _ _ Hinv). by right.
  - intros n Hn. rewrite Hdeg. rewrite (ki_deg _ _ _ _ _ Hinv n Hn).
    destruct (decide _) as [[_ Hx]|Hx]; simpl.
    + by rewrite size_minus_one.
    + f_equal. f_equal. assert (x ∉ deps_of dependencies n) by tauto. set_solver.
  - intros n Hn. rewrite elem_of_app, Hnew', elem_of_union, elem_of_singleton.
    pose proof (ki_ready _ _ _ _ _ Hinv n Hn) as Hrd. rewrite elem_of_cons in Hrd. split.
    + intros [[->|HP]|[(_ & _ & ?)|Hq']]; [|set_solver|done|set_solver].
      pose proof (Hsub x ltac:(left)). set_solver.
    + intros Hs. destruct (decide (x ∈ deps_of dependencies n)) as [Hx|Hx]; [tauto|].
      assert (deps_of dependencies n ⊆ P) as HP%Hrd by set_solver. tauto.
  - intros n [Hx%elem_of_singleton|Hn]%elem_of_union; [|by apply (ki_acc _ _ _ _ _ Hinv)].
    subst n. constructor. intros d Hd. apply (ki_acc _ _ _ _ _ Hinv). by apply (Hsub x ltac:(left)).
Qed.

Lemma kahn_spec fuel dependencies steps P deg q v :
  NoDup (map es_name steps) -> kahn_inv dependencies (map es_name steps) P deg q ->
  (length steps <= size P + fuel)%nat ->
  exists P' deg', kahn fuel dependencies steps deg q v = Some (v + (size P' - size P))%nat /\
    (size P <= size P')%nat /\ kahn_inv dependencies (map es_name steps) P' deg' [].
Proof.
  intros Hnd. revert P deg q v. induction fuel as [|fuel IH]; intros P deg q v Hinv Hf.
  - destruct q as [|x q]; [exists P, deg; split_and!; [simpl; f_equal; lia|done|done]|].
    exfalso. assert (Hle : (size ({[x]} ∪ P) <= length steps)%nat).
    { rewrite <- (length_map es_name), <- (size_list_to_set (C:=gset string)) by done.
      apply subseteq_size. intros n Hn. apply elem_of_list_to_set.
      apply (ki_names _ _ _ _ _ Hinv). set_solver. }
    rewrite size_union in Hle by (pose proof (ki_apart _ _ _ _ _ Hinv x ltac:(left)); set_solver).
    rewrite size_singleton in Hle. lia.
  - destruct q as [|x q]; [exists P, deg; split_and!; [simpl; f_equal; lia|done|done]|].
    simpl. pose proof (kahn_inv_step _ _ _ _ _ _ Hnd Hinv) as Hstep.
    destruct (relax _ _ _ _ _) as [deg' q'].
    assert (Hsz : size ({[x]} ∪ P) = S (size P)).
    { rewrite size_union by (pose proof (ki_apart _ _ _ _ _ Hinv x ltac:(left)); set_solver).
      by rewrite size_singleton. }
    destruct (IH _ _ _ (S v) Hstep) as (P' & deg'' & -> & Hle & Hend); [lia|].
    exists P', deg''. split_and!; [f_equal; lia|lia|done].
Qed.

(** ** The dependency map *)

Section plans.
Context `{MapIter}.

Definition ref_okb (names : gset string) (r : string) : bool :=
  match ref_captures r with
  | None => false
  | Some (source, _) => is_root source || bool_decide (source ∈ names)
  end.

Definition ref_source (r : string) : option string :=
  match ref_captures r with
  | Some (source, _) => if is_root source then None else Some source
  | None => None
  end.

Lemma step_deps_sources s : step_deps s = list_to_set (omap ref_source (step_refs s)).
Proof. done. Qed.

Lemma collect_deps_spec names st refs acc :
  if forallb (ref_okb names) refs
  then collect_deps names st refs acc = Ok (list_to_set (omap ref_source refs) ∪ acc)
  else exists e, collect_deps names st refs acc = Err e.
Proof.
  revert acc. induction refs as [|r refs IH]; intros acc; cbn [forallb collect_deps].
  { cbn. by rewrite union_empty_l_L. }
  unfold ref_okb at 1. cbn [omap list_omap]. unfold ref_source at 1.
  destruct (ref_captures r) as [[src p]|]; [|by exists (InvalidReference r)].
  destruct (is_root src) eqn:Hroot; cbn [orb negb andb].
  { specialize (IH acc). by destruct (forallb (ref_okb names) refs). }
  case_bool_decide as Hin; cbn [negb andb]; [|by eexists].
  specialize (IH ({[src]} ∪ acc)). destruct (forallb (ref_okb names) refs); [|done].
  rewrite IH. f_equal. cbn [list_to_set]. fold (omap ref_source refs). set_solver.
Qed.

Lemma build_dependencies_spec names steps m :
  NoDup (map es_name steps) -> (forall s, s ∈ steps -> m !! es_name s = None) ->
  if forallb (fun s => forallb (ref_okb names) (step_refs s)) steps
  then exists m', build_dependencies names steps m = Ok m' /\
         (forall s, s ∈ steps -> m' !! es_name s = Some (step_deps s)) /\
         (forall n, n ∉ map es_name steps -> m' !! n = m !! n)
  else exists e, build_dependencies names steps m = Err e.
Proof.
  revert m. induction steps as [|s steps IH]; intros m Hnd Hm; cbn [forallb build_dependencies].
  { exists m. split_and!; [done| |done]. by intros s ?%elem_of_nil. }
  apply NoDup_cons in Hnd as [Hs Hnd]. rewrite (Hm s) by left. cbn [default].
  pose proof (collect_deps_spec names (es_name s) (step_refs s) ∅) as Hc.
  destruct (forallb (ref_okb names) (step_refs s)); cbn [andb].
  2:{ destruct Hc as [e ->]. by exists e. }
  rewrite Hc, union_empty_r_L, <- step_deps_sources. cbn [result_bind].
  specialize (IH (<[es_name s := step_deps s]> m) Hnd).
  destruct (forallb _ steps).
  - destruct IH as (m' & Hb & Hin & Hout).
    { intros s' Hs'. rewrite lookup_insert_ne; [apply Hm; by right|].
      intros Heq. apply Hs. rewrite Heq. by apply list_elem_of_fmap_2. }
    exists m'. split_and!; [done| |].
    + intros s' [->|Hs']%elem_of_cons; [|by apply Hin]. by rewrite Hout, lookup_insert_eq.
    + intros n Hn. cbn [map] in Hn. rewrite not_elem_of_cons in Hn.
      rewrite Hout by tauto. by rewrite lookup_insert_ne by naive_solver.
  - apply IH. intros s' Hs'. rewrite lookup_insert_ne; [apply Hm; by right|].
    intros Heq. apply Hs. rewrite Heq. by apply list_elem_of_fmap_2.
Qed.

(** ** Kahn from the start *)

Lemma initial_degrees_spec steps dependencies n :
  NoDup (map es_name steps) -> n ∈ map es_name steps ->
  initial_degrees steps dependencies !! n = Some (size (deps_of dependencies n)).
Proof.
  intros Hnd Hn. unfold initial_degrees. apply elem_of_list_to_map_1.
  - rewrite <- list_fmap_compose. exact Hnd.
  - apply list_elem_of_fmap in Hn as (s & -> & Hs). apply list_elem_of_fmap. by exists s.
Qed.

Lemma initial_degrees_dom steps dependencies n d :
  initial_degrees steps dependencies !! n = Some d -> n ∈ map es_name steps.
Proof.
  unfold initial_degrees. intros Hd%elem_of_list_to_map_2.
  apply list_elem_of_fmap in Hd as (s & [= -> _] & Hs). by apply list_elem_of_fmap_2.
Qed.

Lemma kahn_inv_init steps dependencies :
  NoDup (map es_name steps) ->
  kahn_inv dependencies (map es_name steps) ∅ (initial_degrees steps dependencies)
    (omap (fun nd => if Nat.eqb (snd nd) 0 then Some (fst nd) else None)
       (map_iter (initial_degrees steps dependencies))).
Proof.
  intros Hnd. set (deg := initial_degrees steps dependencies).
  assert (Hq : forall n, n ∈ omap (fun nd : string * nat => if Nat.eqb (snd nd) 0 then Some (fst nd) else None)
    (map_iter deg) <-> deg !! n = Some 0%nat).
  { intros n. rewrite list_elem_of_omap. split.
    - intros ([n' d] & Hin & Hd). simpl in Hd. destruct (Nat.eqb_spec d 0) as [->|]; [|done].
      injection Hd as ->. by apply elem_of_map_iter.
    - intros Hd. exists (n, 0%nat). split; [by apply elem_of_map_iter|done]. }
  split.
  - assert (Hfst : forall l : list (string * nat), NoDup l.*1 ->
      NoDup (omap (fun nd : string * nat => if Nat.eqb (snd nd) 0 then Some (fst nd) else None) l)).
    { induction l as [|[n d] l IH]; [constructor|]. intros [Hn Hl]%NoDup_cons. simpl.
      destruct (Nat.eqb d 0); [|by apply IH]. constructor; [|by apply IH].
      intros ([n' d'] & Hin & Hd)%list_elem_of_omap. simpl in Hd.
      destruct (Nat.eqb d' 0); [|done]. injection Hd as ->. apply Hn. by apply (list_elem_of_fmap_2' fst _ (n, d')). }
    apply Hfst, NoDup_fst_map_iter.
  - intros n [[]%not_elem_of_empty|Hn%Hq]. by eapply initial_degrees_dom.
  - intros n _. apply not_elem_of_empty.
  - intros n Hn. rewrite difference_empty_L. by apply initial_degrees_spec.
  - intros n Hn. rewrite Hq. unfold deg. rewrite initial_degrees_spec by done. split.
    + intros [[]%not_elem_of_empty|[= Hz%size_empty_iff]]. by rewrite Hz.
    + intros Hs. right. f_equal. apply size_empty_iff. set_solver.
  - by intros n ?%not_elem_of_empty.
Qed.

(** ** What is accepted *)

(** The dependencies recorded for the steps are those of the relation. *)
Lemma acc_depends steps dependencies n :
  NoDup (map es_name steps) ->
  (forall s, s ∈ steps -> dependencies !! es_name s = Some (step_deps s)) ->
  (forall n, n ∉ map es_name steps -> dependencies !! n = None) ->
  Acc (fun d n => d ∈ deps_of dependencies n) n <-> Acc (depends_on steps) n.
Proof.
  intros Hnd Hin Hout.
  assert (Heq : forall d n, d ∈ deps_of dependencies n <-> depends_on steps d n).
  { intros d m. unfold deps_of, depends_on. split.
    - intros Hd. destruct (decide (m ∈ map es_name steps)) as [Hm|Hm].
      + apply list_elem_of_fmap in Hm as (s & -> & Hs). rewrite (Hin s Hs) in Hd. by exists s.
      + rewrite (Hout m Hm) in Hd. by apply not_elem_of_empty in Hd.
    - intros (s & Hs & <- & Hd). by rewrite (Hin s Hs). }
  split; (induction 1 as [m _ IH]; constructor; intros d Hd; apply IH; by apply Heq).
Qed.

(** The conditions of an accepted plan. *)
Record plan_ok (steps : list EnsembleStep) : Prop := {
  po_some : steps <> [];
  po_distinct : NoDup (map es_name steps);
  po_names : forall s, s ∈ steps -> is_root (es_name s) = false;
  po_refs : forall s r, s ∈ steps -> r ∈ step_refs s -> ref_ok (map es_name steps) r;
  po_acyclic : forall s, s ∈ steps -> Acc (depends_on steps) (es_name s);
}.

Lemma refs_okb_spec steps :
  forallb (fun s => forallb (ref_okb (list_to_set (map es_name steps))) (step_refs s)) steps = true
  <-> forall s r, s ∈ steps -> r ∈ step_refs s -> ref_ok (map es_name steps) r.
Proof.
  assert (Hr : forall r, ref_okb (list_to_set (map es_name steps)) r = true
    <-> ref_ok (map es_name steps) r).
  { intros r. unfold ref_okb, ref_ok. destruct (ref_captures r) as [[src p]|].
    - rewrite orb_true_iff, bool_decide_eq_true, elem_of_list_to_set. split; [eauto|].
      by intros (? & ? & [= <- <-] & ?).
    - split; [done|]. by intros (? & ? & ? & ?). }
  rewrite forallb_forall. split.
  - intros Hall s r Hs Hin. apply Hr.
    pose proof (Hall s (proj1 (list_elem_of_In _ _) Hs)) as Hf.
    exact (proj1 (forallb_forall _ _) Hf r (proj1 (list_elem_of_In _ _) Hin)).
  - intros Hall s Hs. apply forallb_forall. intros r Hin. apply Hr.
    apply (Hall s); by apply list_elem_of_In.
Qed.

(** The steps' dependencies are steps. *)
Lemma step_deps_names steps s d :
  (forall s r, s ∈ steps -> r ∈ step_refs s -> ref_ok (map es_name steps) r) ->
  s ∈ steps -> d ∈ step_deps s -> d ∈ map es_name steps.
Proof.
  intros Hr Hs. rewrite step_deps_sources, elem_of_list_to_set, list_elem_of_omap.
  intros (r & Hin & Hd). unfold ref_source in Hd. destruct (Hr s r Hs Hin) as (src & p & Hc & Hor).
  rewrite Hc in Hd. destruct (is_root src); [done|]. injection Hd as ->. by destruct Hor.
Qed.

Lemma validate_dag_spec steps :
  exists r, validate_dag steps = Some r /\ (r = Ok tt <-> plan_ok steps).
Proof.
  unfold validate_dag. destruct steps as [|s0 rest] eqn:Heq.
  { eexists. split; [done|]. split; [done|]. by intros [? _]. }
  rewrite <- Heq. assert (Hne : steps <> []) by (by subst). clear s0 rest Heq.
  set (names := list_to_set (map es_name steps)).
  destruct (Nat.eqb_spec (size names) (length steps)) as [Hsz|Hsz]; cbn [negb].
  2:{ eexists. split; [done|]. split; [done|]. intros [_ Hnd]. destruct Hsz. unfold names.
      rewrite size_list_to_set by done. apply length_map. }
  assert (Hnd : NoDup (map es_name steps)).
  { apply size_list_to_set_NoDup. by rewrite length_map. }
  destruct (List.find (fun s => is_root (es_name s)) steps) as [s|] eqn:Hf.
  { apply find_some in Hf as [Hin Hroot]. eexists. split; [done|]. split; [done|].
    intros [_ _ Hn]. rewrite (Hn s) in Hroot; [done|]. by apply list_elem_of_In. }
  assert (Hroots : forall s, s ∈ steps -> is_root (es_name s) = false).
  { intros s Hs. apply (find_none _ _ Hf s). by apply list_elem_of_In. }
  pose proof (build_dependencies_spec names steps ∅ Hnd ltac:(done)) as Hb.
  destruct (forallb _ steps) eqn:Hrefs.
  2:{ destruct Hb as [e ->]. eexists. split; [done|]. split; [done|]. intros [_ _ _ Hr].
      apply refs_okb_spec in Hr. unfold names in Hrefs. congruence. }
  pose proof (proj1 (refs_okb_spec steps) Hrefs) as Hrefs'. destruct Hb as (dependencies & -> & Hin & Hout).
  destruct (kahn_spec (length steps) dependencies steps ∅ _ _ 0 Hnd (kahn_inv_init _ _ Hnd))
    as (P & deg' & -> & _ & Hend); [lia|].
  rewrite size_empty, Nat.sub_0_r, Nat.add_0_l. eexists. split; [done|].
  assert (HP : size P = length steps <-> forall n, n ∈ map es_name steps -> n ∈ P).
  { assert (HPn : P ⊆ names).
    { intros n Hn. apply elem_of_list_to_set. apply (ki_names _ _ _ _ _ Hend). by left. }
    rewrite <- Hsz. split.
    - intros Hs n Hn. assert (P = names) as -> by (by apply set_subseteq_size_eq; [|lia]).
      by apply elem_of_list_to_set.
    - intros Hall. f_equal. apply set_eq. intros n. split; [apply HPn|].
      intros Hn%elem_of_list_to_set. by apply Hall. }
  pose proof (fun n => acc_depends steps dependencies n Hnd Hin Hout) as Hacc.
  destruct (Nat.eqb_spec (size P) (length steps)) as [Hv|Hv].
  - split; [|done]. intros _. split; [exact Hne|exact Hnd|exact Hroots|exact Hrefs'|]. intros s Hs. apply Hacc, (ki_acc _ _ _ _ _ Hend).
    apply HP; [done|]. by apply list_elem_of_fmap_2.
  - split; [done|]. intros Hok. destruct Hv. apply HP. intros n Hn.
    pose proof Hn as (s & -> & Hs)%list_elem_of_fmap.
    pose proof (po_acyclic _ Hok s Hs) as Ha. apply Hacc in Ha. clear Hs.
    induction Ha as [m _ IH].
    destruct (proj2 (ki_ready _ _ _ _ _ Hend m Hn)) as [|[]%elem_of_nil]; [|done].
    intros d Hd. apply IH; [done|].
    apply list_elem_of_fmap in Hn as (s' & -> & Hs'). unfold deps_of in Hd. rewrite (Hin s' Hs') in Hd.
    by apply (step_deps_names steps s' d).
Qed.

(** C28. [validate_dag] always decides, and accepts an ensemble plan exactly when it
    has a step, its step names are distinct and none is a reserved root, every input
    reference is well formed and names a root or a step, and the dependency relation
    between steps is well founded (no cycles). *)
Theorem plan_accepted_iff_well_founded (steps : list EnsembleStep) :
  exists r, validate_dag steps = Some r /\
    (r = Ok tt <->
     steps <> [] /\ NoDup (map es_name steps) /\
     (forall s, s ∈ steps -> is_root (es_name s) = false) /\
     (forall s r, s ∈ steps -> r ∈ step_refs s -> ref_ok (map es_name steps) r) /\
     (forall s, s ∈ steps -> Acc (depends_on steps) (es_name s))).
Proof.
  destruct (validate_dag_spec steps) as (r & Hr & Hiff). exists r. split; [done|]. rewrite Hiff.
  split; [by intros []|]. by intros (? & ? & ? & ? & ?).
Qed.

(** ** Layers *)

Lemma layer_dependencies_spec steps :
  NoDup (map es_name steps) ->
  (forall s, s ∈ steps -> layer_dependencies steps !! es_name s = Some (step_deps s)).
Proof.
  intros Hnd. unfold layer_dependencies.
  assert (Hgen : forall m, (forall s, s ∈ steps -> m !! es_name s = None) ->
    let m' := foldl (fun m s => <[es_name s := step_deps s ∪ deps_of m (es_name s)]> m) m steps in
    (forall s, s ∈ steps -> m' !! es_name s = Some (step_deps s)) /\
    (forall n, n ∉ map es_name steps -> m' !! n = m !! n)).
  { induction steps as [|s steps IH]; intros m Hm; cbn [foldl map].
    { split; [|done]. by intros s ?%elem_of_nil. }
    apply NoDup_cons in Hnd as [Hs Hnd].
    destruct (IH Hnd (<[es_name s := step_deps s ∪ deps_of m (es_name s)]> m)) as [Hin Hout].
    { intros s' Hs'. rewrite lookup_insert_ne; [apply Hm; by right|].
      intros Heq. apply Hs. rewrite Heq. by apply list_elem_of_fmap_2. }
    split.
    - intros s' [->|Hs']%elem_of_cons; [|by apply Hin]. rewrite Hout, lookup_insert_eq by done.
      unfold deps_of. rewrite Hm by left. simpl. by rewrite union_empty_r_L.
    - intros n Hn. rewrite not_elem_of_cons in Hn. rewrite Hout by tauto.
      by rewrite lookup_insert_ne by naive_solver. }
  apply Hgen. done.
Qed.

(** The degrees count the dependencies still remaining. *)
Definition degrees_ok (dependencies : gmap string (gset string)) (remaining : gset string)
    (deg : gmap string nat) : Prop :=
  forall n, n ∈ remaining -> deg !! n = Some (size (deps_of dependencies n ∩ remaining)).

Lemma settle_spec dependencies x remaining deg :
  x ∈ remaining -> degrees_ok dependencies remaining deg ->
  let '(remaining', deg') := settle dependencies x (remaining, deg) in
  remaining' = remaining ∖ {[x]} /\ degrees_ok dependencies remaining' deg'.
Proof.
  intros Hx Hok. unfold settle. split; [done|].
  set (R := remaining ∖ {[x]}).
  assert (Hfold : forall n, set_fold (fun other deg =>
      if decide (x ∈ deps_of dependencies other) then alter Nat.pred other deg else deg) deg R !! n
    = if decide (n ∈ R /\ x ∈ deps_of dependencies n) then Nat.pred <$> deg !! n else deg !! n).
  { pose (done_for := fun (m : gmap string nat) (X : gset string) => forall n, m !! n =
      if decide (n ∈ X /\ x ∈ deps_of dependencies n) then Nat.pred <$> deg !! n else deg !! n).
    apply (set_fold_ind_L done_for).
    - intros n. rewrite decide_False; [done|]. by intros [?%not_elem_of_empty _].
    - intros y X m Hy IH n. destruct (decide (x ∈ deps_of dependencies y)) as [Hd|Hd].
      + destruct (decide (n = y)) as [->|Hne].
        * rewrite lookup_alter_eq, IH. rewrite decide_False by tauto.
          rewrite decide_True by set_solver. done.
        * rewrite lookup_alter_ne, IH by done. destruct (decide (n ∈ X /\ _)).
          -- rewrite decide_True by set_solver. done.
          -- rewrite decide_False by set_solver. done.
      + rewrite IH. destruct (decide (n ∈ X /\ _)).
        * rewrite decide_True by set_solver. done.
        * rewrite decide_False by set_solver. done. }
  intros n Hn. rewrite Hfold. assert (Hnr : n ∈ remaining) by set_solver.
  rewrite (Hok n Hnr). destruct (decide _) as [[_ Hd]|Hd]; simpl.
  - by rewrite <- size_inter_minus with (x := x).
  - unfold R. rewrite inter_minus_same; [done|]. tauto.
Qed.

Lemma settle_all dependencies layer remaining deg :
  NoDup layer -> (forall n, n ∈ layer -> n ∈ remaining) -> degrees_ok dependencies remaining deg ->
  let '(remaining', deg') :=
    foldl (fun st n => settle dependencies n st) (remaining, deg) layer in
  remaining' = remaining ∖ list_to_set layer /\ degrees_ok dependencies remaining' deg'.
Proof.
  revert remaining deg. induction layer as [|x layer IH]; intros remaining deg Hnd Hin Hok.
  { cbn. split; [set_solver|done]. }
  apply NoDup_cons in Hnd as [Hx Hnd]. cbn [foldl].
  pose proof (settle_spec dependencies x remaining deg ltac:(apply Hin; left) Hok) as Hs.
  destruct (settle dependencies x (remaining, deg)) as [remaining1 deg1]. destruct Hs as [-> Hok1].
  specialize (IH (remaining ∖ {[x]}) deg1 Hnd).
  destruct (foldl _ _ layer) as [remaining' deg']. destruct IH as [-> Hok']; [|done|].
  - intros n Hn. assert (n <> x) by congruence. pose proof (Hin n ltac:(by right)). set_solver.
  - split; [|done]. cbn [list_to_set]. set_solver.
Qed.

Lemma next_layer_spec dependencies remaining deg :
  degrees_ok dependencies remaining deg ->
  NoDup (next_layer remaining deg) /\
  forall n, n ∈ next_layer remaining deg <->
    n ∈ remaining /\ deps_of dependencies n ∩ remaining = ∅.
Proof.
  intros Hok. unfold next_layer. split.
  - apply NoDup_ListNoDup, List.NoDup_filter, NoDup_ListNoDup. apply NoDup_fst_map_iter.
  - intros n. rewrite list_elem_of_In, filter_In, <- list_elem_of_In.
    assert (Hn : n ∈ map fst (map_iter (gset_to_gmap tt remaining)) <-> n ∈ remaining).
    { rewrite list_elem_of_fmap. split.
      - intros ([n' []] & -> & Hin). apply elem_of_map_iter, lookup_gset_to_gmap_Some in Hin. tauto.
      - intros Hin. exists (n, tt). split; [done|].
        by apply elem_of_map_iter, lookup_gset_to_gmap_Some. }
    rewrite Hn. split; intros [Hr Hd]; (split; [done|]); rewrite (Hok n Hr) in *; simpl in *.
    + apply Nat.eqb_eq, size_empty_iff in Hd. by apply leibniz_equiv.
    + rewrite Hd. by rewrite size_empty.
Qed.

(** Every layer depends on earlier ones, or on what is no longer remaining. *)
Lemma layers_loop_spec fuel dependencies remaining deg :
  degrees_ok dependencies remaining deg -> (size remaining <= fuel)%nat ->
  (forall n, n ∈ remaining -> Acc (fun d n => d ∈ deps_of dependencies n) n) ->
  exists layers, layers_loop fuel dependencies remaining deg = Some layers /\
    NoDup (mjoin layers) /\ (forall n, n ∈ mjoin layers <-> n ∈ remaining) /\
    forall i l n d, layers !! i = Some l -> n ∈ l -> d ∈ deps_of dependencies n ->
      d ∉ remaining \/ exists j l', (j < i)%nat /\ layers !! j = Some l' /\ d ∈ l'.
Proof.
  revert remaining deg. induction fuel as [|fuel IH]; intros remaining deg Hok Hf Hacc.
  { assert (remaining = ∅) as -> by (apply leibniz_equiv, size_empty_iff; lia).
    exists []. cbn. split_and!; [done|constructor| |done].
    intros n. split; [by intros ?%elem_of_nil|by intros ?%not_elem_of_empty]. }
  cbn [layers_loop]. destruct (decide (remaining = ∅)) as [->|Hne].
  { exists []. split_and!; [done|constructor| |done].
    intros n. split; [by intros ?%elem_of_nil|by intros ?%not_elem_of_empty]. }
  destruct (next_layer_spec dependencies remaining deg Hok) as [Hnd Hin].
  destruct (next_layer remaining deg) as [|x layer] eqn:Hl.
  { exfalso. apply set_choose_L in Hne as [n Hn]. pose proof (Hacc n Hn) as Ha.
    induction Ha as [m _ IHa]. destruct (decide (deps_of dependencies m ∩ remaining = ∅)) as [He|He].
    - by apply (not_elem_of_nil m), Hin.
    - apply set_choose_L in He as [d [Hd Hdr]%elem_of_intersection]. by apply (IHa d). }
  set (L := x :: layer) in *.
  pose proof (settle_all dependencies L remaining deg Hnd ltac:(intros n Hn; by apply Hin) Hok) as Hs.
  destruct (foldl _ _ L) as [remaining' deg']. destruct Hs as [-> Hok'].
  assert (HL : forall n, n ∈ L -> n ∈ remaining) by (intros n Hn; by apply Hin).
  destruct (IH (remaining ∖ list_to_set L) deg' Hok') as (layers & -> & Hnd' & Hin' & Hord).
  { assert (size (remaining ∖ list_to_set L) < size remaining)%nat; [|lia].
    apply subset_size. split; [set_solver|]. intros Hsub.
    pose proof (Hsub x (HL x ltac:(left))). set_solver. }
  { intros n Hn. apply Hacc. set_solver. }
  exists (L :: layers). split_and!; [done| | |].
  - cbn [mjoin list_join]. apply NoDup_app. split_and!; [done| |done].
    intros n Hn Hn'%Hin'. set_solver.
  - intros n. cbn [mjoin list_join]. rewrite elem_of_app. fold (mjoin layers). rewrite Hin'.
    destruct (decide (n ∈ L)); set_solver.
  - intros [|i] l n d Hi Hn Hd.
    + injection Hi as <-. left. apply Hin in Hn as [_ He]. set_solver.
    + destruct (Hord i l n d Hi Hn Hd) as [Hout|(j & l' & Hj & Hl' & Hdl)].
      * destruct (decide (d ∈ L)) as [HdL|HdL]; [|set_solver].
        right. exists 0%nat, L. by split_and!; [lia|..].
      * right. exists (S j), l'. by split_and!; [lia|..].
Qed.

(** The layers of an accepted plan. *)
Lemma layers_in_order (steps : list EnsembleStep) :
  validate_dag steps = Some (Ok tt) ->
  exists layers, topological_layers steps = Some layers /\
    mjoin layers ≡ₚ map es_name steps /\
    forall i l s d, layers !! i = Some l -> s ∈ steps -> es_name s ∈ l -> d ∈ step_deps s ->
      exists j l', (j < i)%nat /\ layers !! j = Some l' /\ d ∈ l'.
Proof.
  intros Hv. destruct (validate_dag_spec steps) as (r & Hr & Hiff).
  rewrite Hv in Hr. injection Hr as <-. destruct (proj1 Hiff eq_refl) as [_ Hnd _ Hrefs Hacyc].
  pose proof (layer_dependencies_spec steps Hnd) as Hdeps.
  set (dependencies := layer_dependencies steps) in *. unfold topological_layers.
  fold dependencies. set (names := list_to_set (map es_name steps)).
  assert (Hdn : forall n, n ∈ names -> deps_of dependencies n ⊆ names).
  { intros n Hn%elem_of_list_to_set. apply list_elem_of_fmap in Hn as (s & -> & Hs).
    unfold deps_of. rewrite (Hdeps s Hs). intros d Hd. apply elem_of_list_to_set.
    by apply (step_deps_names steps s d). }
  destruct (layers_loop_spec (length steps) dependencies names (initial_degrees steps dependencies))
    as (layers & -> & Hndl & Hin & Hord).
  - intros n Hn. rewrite initial_degrees_spec by (try apply elem_of_list_to_set in Hn; done).
    f_equal. f_equal. pose proof (Hdn n Hn). set_solver.
  - rewrite <- (length_map es_name). apply size_list_to_set_le.
  - intros n Hn%elem_of_list_to_set. pose proof Hn as (s & -> & Hs)%list_elem_of_fmap.
    pose proof (Hacyc s Hs) as Ha. clear Hs. induction Ha as [m _ IHa]. constructor.
    intros d Hd. apply list_elem_of_fmap in Hn as (s' & -> & Hs'). unfold deps_of in Hd.
    rewrite (Hdeps s' Hs') in Hd. apply IHa; [by exists s'|by apply (step_deps_names steps s' d)].
  - exists layers. split_and!; [done| |].
    + apply NoDup_Permutation; [done|done|]. intros n. rewrite Hin. apply elem_of_list_to_set.
    + intros i l s d Hi Hs Hn Hd.
      destruct (Hord i l (es_name s) d Hi Hn) as [Hout|?]; [|exfalso; apply Hout|done].
      * unfold deps_of. by rewrite (Hdeps s Hs).
      * apply elem_of_list_to_set. by apply (step_deps_names steps s d).
Qed.

(** For an accepted plan [topological_layers] finishes, its layers partition the
    steps, and every step a step depends on is in an earlier layer, in whatever
    order the hash sets are iterated. *)
Theorem layers_respect_dependencies (steps : list EnsembleStep) :
  validate_dag steps = Some (Ok tt) ->
  exists layers, topological_layers steps = Some layers /\
    mjoin layers ≡ₚ map es_name steps /\
    forall i l s d, layers !! i = Some l -> s ∈ steps -> es_name s ∈ l -> d ∈ step_deps s ->
      exists j l', (j < i)%nat /\ layers !! j = Some l' /\ d ∈ l'.
Proof. apply layers_in_order. Qed.
End plans.

(** ** The theorems at a concrete plan *)

Definition demo_plan : list EnsembleStep :=
  [ plain_step "out" "m" {[ "x" := "$left"; "y" := "$right.logits" ]};
    plain_step "left" "m" {[ "img" := "$request.image" ]};
    plain_step "right" "m" {[ "emb" := "$left" ]} ].

Lemma layers_witness :
  exists layers, topological_layers demo_plan = Some layers /\
    mjoin layers ≡ₚ ["out"; "left"; "right"].
Proof.
  destruct (layers_respect_dependencies demo_plan) as (layers & Hl & Hp & _);
    [vm_compute; reflexivity|].
  exists layers. split; [exact Hl|exact Hp].
Defined.
