(* ===== verification/EnsembleRules.v ===== *)
(** * Ensemble plans: the static rules

    Models [parse_ensemble_plan] of [src/src/ensemble/config.rs] and the analyses it runs
    ([src/src/ensemble/analysis.rs]): the output, the types of references, conditions,
    steps that may be absent, sinks, pipeline chains and streaming rules.  The YAML
    document is given as its fields; [serde_json]'s parser, for the literals of
    conditions, is an argument.  Words and spaces of the patterns are ASCII.

    An accepted plan is a record of what the executor ([EnsembleRun.v]) relies on. *)

From S2P Require Import Prelude Text Float Json Errors Ensemble.
Import Errors.Render.
Open Scope string_scope.

(** ** Pieces of references *)

(** [r.split('.').next()]. *)
Definition first_segment (r : string) : string := take_until (fun c => eq_char c "."%char) r.

(** [rest.and_then(|r| r.split('.').next()).unwrap_or("")]. *)
Definition ref_name (rest : option string) : string :=
  match rest with Some r => first_segment r | None => "" end.

Definition has_path (rest : option string) : bool :=
  match rest with Some r => has_char "."%char r | None => false end.

Definition find_step (steps : list EnsembleStep) (name : string) : option EnsembleStep :=
  List.find (fun s => String.eqb (es_name s) name) steps.

Definition step_position (steps : list EnsembleStep) (name : string) : option nat :=
  fst <$> list_find (fun s => es_name s = name) steps.

(** [IDENT_RE] and [JSON_PATH_RE]. *)
Definition is_ident (s : string) : bool :=
  match s with
  | EmptyString => false
  | String c rest => (is_ascii_alpha c || eq_char c "_"%char) && all_chars word_char s
  end.

Definition is_json_path (s : string) : bool :=
  match split_char "."%char s with
  | dollar :: (_ :: _) as segs => String.eqb dollar "$" && forallb is_ident segs
  | _ => false
  end.

(** ** The output *)

Definition resolve_output (output : option string) (steps : list EnsembleStep)
    : result ConfigError (nat * option string) :=
  match output with
  | None => Ok ((length steps - 1)%nat, None)
  | Some output =>
      match ref_captures output with
      | None => Err (Rule "output" output)
      | Some (source, field) =>
          if String.eqb source "request" then Err (Rule "output" output)
          else
            let? idx := ok_or (step_position steps source) (Rule "output" output) in
            if match field with Some f => has_char "."%char f | None => false end
            then Err (Rule "output" output) else Ok (idx, field)
      end
  end.

(** ** Types of references *)

Inductive InputMode := GroupJson | BinaryPassThrough.

#[export] Instance InputMode_eq_dec : EqDecision InputMode.
Proof. solve_decision. Defined.

Definition check_input_decl (nd : string * InputDecl) : result ConfigError unit :=
  let '(name, d) := nd in
  if negb (is_ident name) then Err (Rule "R1" name)
  else if match id_ty d with
          | TJson => is_some (id_content_type d) || is_some (id_shape d) || is_some (id_datatype d)
          | TBinary => is_some (id_default d)
          end then Err (Rule "R2" name)
  else if id_required d && is_some (id_default d) then Err (Rule "R2" name)
  else Ok tt.

Fixpoint check_all {A} (f : A -> result ConfigError unit) (l : list A) : result ConfigError unit :=
  match l with
  | [] => Ok tt
  | a :: l => let? _ := f a in check_all f l
  end.

(** An input that a request may leave out. *)
Definition optional_input (d : InputDecl) : bool := negb (id_required d) && negb (is_some (id_default d)).

Section rules.
Context `{MapIter}.

(** A json reference joins the group; a binary one must stand alone. *)
Definition join_json (step : string) (mode : option InputMode) : result ConfigError (option InputMode) :=
  match mode with
  | Some BinaryPassThrough => Err (Rule "R12" step)
  | _ => Ok (Some GroupJson)
  end.

Definition join_binary (step : string) (mode : option InputMode) : result ConfigError (option InputMode) :=
  match mode with
  | Some _ => Err (Rule "R12" step)
  | None => Ok (Some BinaryPassThrough)
  end.

Definition join_type (ty : InputType) (step : string) (mode : option InputMode)
    : result ConfigError (option InputMode) :=
  match ty with TJson => join_json step mode | TBinary => join_binary step mode end.

(** One reference of a step: the new mode, and the optional input it names, if any. *)
Definition analyze_ref (steps : list EnsembleStep) (inputs_decl : option (IndexMap InputDecl)) (step r : string)
    (mode : option InputMode) : result ConfigError (option InputMode * list string) :=
  match ref_captures r with
  | None => Err (InvalidReference r)
  | Some (source, rest) =>
      if String.eqb source "request" then
        match inputs_decl with Some _ => Err (Rule "R5" step) | None => Ok (mode, []) end
      else if String.eqb source "inputs" then
        match inputs_decl with
        | None => Err (Rule "R5" step)
        | Some decl =>
            let name := ref_name rest in
            let? d := ok_or (index_get name decl) (Rule "R5" step) in
            if bool_decide (id_ty d = TBinary) && has_path rest then Err (Rule "R3" step)
            else
              let? mode := join_type (id_ty d) step mode in
              Ok (mode, if optional_input d then [name] else [])
        end
      else
        let? src := ok_or (find_step steps source) (UnknownStep step source) in
        match es_outputs_decl src with
        | None =>
            match inputs_decl with
            | Some _ => let? mode := join_json step mode in Ok (mode, [])
            | None => Ok (mode, [])
            end
        | Some alias_decl =>
            let? alias := ok_or (first_segment <$> rest) (Rule "R7" step) in
            let? d := ok_or (index_get alias alias_decl) (Rule "R7" step) in
            if bool_decide (od_ty d = TBinary) && has_path rest then Err (Rule "R8" step)
            else
              match inputs_decl with
              | Some _ => let? mode := join_type (od_ty d) step mode in Ok (mode, [])
              | None => Ok (mode, [])
              end
        end
  end.

Fixpoint analyze_refs (steps : list EnsembleStep) (inputs_decl : option (IndexMap InputDecl)) (step : string)
    (refs : list string) (mode : option InputMode) (cond : list string)
    : result ConfigError (option InputMode * list string) :=
  match refs with
  | [] => Ok (mode, cond)
  | r :: refs =>
      let? mc := analyze_ref steps inputs_decl step r mode in
      analyze_refs steps inputs_decl step refs (fst mc) (cond ++ snd mc)%list
  end.

Definition analyze_step (steps : list EnsembleStep) (inputs_decl : option (IndexMap InputDecl)) (s : EnsembleStep)
    : result ConfigError (option InputMode * list string) :=
  if es_stream s && is_some (es_outputs_decl s) then Err (Rule "R10" (es_name s))
  else
    let? mc := analyze_refs steps inputs_decl (es_name s) (step_refs s) None [] in
    if bool_decide (fst mc = Some BinaryPassThrough) && negb (bool_decide (es_params s = ∅))
    then Err (Rule "R9" (es_name s)) else Ok mc.

Fixpoint analyze_steps (all : list EnsembleStep) (inputs_decl : option (IndexMap InputDecl))
    (steps : list EnsembleStep) : result ConfigError (list (option InputMode * list string)) :=
  match steps with
  | [] => Ok []
  | s :: steps =>
      let? mc := analyze_step all inputs_decl s in
      let? mcs := analyze_steps all inputs_decl steps in
      Ok (mc :: mcs)
  end.

(** The modes and the optional inputs of every step. *)
Definition analyze_static_types (steps : list EnsembleStep) (inputs_decl : option (IndexMap InputDecl))
    : result ConfigError (list (option InputMode) * list (list string)) :=
  let? _ := match inputs_decl with Some decl => check_all check_input_decl decl | None => Ok tt end in
  let? mcs := analyze_steps steps inputs_decl steps in
  Ok (map fst mcs, map snd mcs).

(** ** Conditions *)

(** A condition's check: the optional input it names, if any. *)
Definition validate_when (inputs_decl : option (IndexMap InputDecl)) (s : EnsembleStep)
    : result ConfigError (list string) :=
  match es_when s with
  | None => Ok []
  | Some e =>
      if es_stream s then Err (Rule "D34" (es_name s))
      else
        match we_target e with
        | WDag | WClientIp => Ok []
        | WInput name _ =>
            match inputs_decl with
            | None => Err (Rule "R16" (es_name s))
            | Some decl =>
                let? d := ok_or (index_get name decl) (Rule "R16" (es_name s)) in
                if bool_decide (id_ty d = TBinary) then Err (Rule "R16" (es_name s))
                else Ok (if optional_input d then [name] else [])
            end
        end
  end.

Fixpoint validate_when_refs (steps : list EnsembleStep) (inputs_decl : option (IndexMap InputDecl))
    (conditional_refs : list (list string)) : result ConfigError (list (list string)) :=
  match steps, conditional_refs with
  | s :: steps, cond :: conditional_refs =>
      let? names := validate_when inputs_decl s in
      let? rest := validate_when_refs steps inputs_decl conditional_refs in
      Ok ((cond ++ names)%list :: rest)
  | _, _ => Ok conditional_refs
  end.

(** ** Steps that may be absent *)

Definition is_skip (s : EnsembleStep) : bool := match es_on_error s with OnSkip => true | OnFail => false end.

Definition absentable (s : EnsembleStep) (cond : list string) : bool :=
  is_skip s || negb (bool_decide (cond = [])) || is_some (es_when s).

Definition absentable_names (steps : list EnsembleStep) (conditional_refs : list (list string)) : list string :=
  omap (fun sc => if absentable (fst sc) (snd sc) then Some (es_name (fst sc)) else None)
    (zip steps conditional_refs).

Definition ref_names_one_of (names : list string) (r : string) : bool :=
  match ref_captures r with Some (source, _) => bool_decide (source ∈ names) | None => false end.

Definition validate_skip_rules (steps : list EnsembleStep) (output_step : nat)
    (conditional_refs : list (list string)) (outputs_present : bool) : result ConfigError unit :=
  let absent := absentable_names steps conditional_refs in
  if bool_decide (absent = []) then Ok tt
  else
    let? _ := check_all (fun sc => if es_stream (fst sc) && (is_skip (fst sc) || negb (bool_decide (snd sc = [])))
                                   then Err (Rule "D34" (es_name (fst sc))) else Ok tt)
                (zip steps conditional_refs) in
    let? _ := check_all (fun s => if bool_decide (es_name s ∈ absent) then Ok tt
                                  else if existsb (ref_names_one_of absent) (step_refs s)
                                  then Err (Rule "D5" (es_name s)) else Ok tt) steps in
    match steps !! output_step with
    | Some s => if negb outputs_present && bool_decide (es_name s ∈ absent)
                then Err (Rule "D5" (es_name s)) else Ok tt
    | None => Ok tt
    end.

(** ** Sinks *)

Definition validate_sink (steps : list EnsembleStep) (inputs_decl : option (IndexMap InputDecl))
    (ar : string * string) : result ConfigError unit :=
  let '(alias, r) := ar in
  if negb (is_ident alias) then Err (Rule "R13" alias)
  else
    match ref_captures r with
    | None => Err (Rule "R13" alias)
    | Some (source, rest) =>
        if String.eqb source "request" then Err (Rule "R13" alias)
        else if String.eqb source "inputs" then
          let name := ref_name rest in
          if bool_decide (name = "") then Err (Rule "R13" alias)
          else
            match inputs_decl with
            | None => Err (Rule "R5" alias)
            | Some decl =>
                let? d := ok_or (index_get name decl) (Rule "R13" alias) in
                if bool_decide (id_ty d = TBinary) && has_path rest then Err (Rule "R3" alias) else Ok tt
            end
        else
          let? src := ok_or (find_step steps source) (Rule "R13" alias) in
          match es_outputs_decl src with
          | None => Ok tt
          | Some decl =>
              let? a := ok_or (first_segment <$> rest) (Rule "R13" alias) in
              let? d := ok_or (index_get a decl) (Rule "R13" alias) in
              if bool_decide (od_ty d = TBinary) && has_path rest then Err (Rule "R8" alias) else Ok tt
          end
    end.

Definition validate_outputs_rules (steps : list EnsembleStep) (outputs : option (IndexMap string))
    (single_output_omitted : bool) (output_step : nat) (inputs_decl : option (IndexMap InputDecl))
    : result ConfigError unit :=
  match outputs with
  | None => Ok tt
  | Some outputs =>
      if negb single_output_omitted then Err (Rule "E2" "outputs")
      else
        let? _ := check_all (validate_sink steps inputs_decl) outputs in
        match steps !! output_step with
        | Some tail =>
            if es_stream tail then
              match outputs with
              | [(alias, r)] =>
                  match ref_captures r with
                  | Some (source, _) => if String.eqb source (es_name tail) then Ok tt else Err (Rule "R14" alias)
                  | None => Ok tt
                  end
              | _ => Err (Rule "D11" "outputs")
              end
            else Ok tt
        | None => Ok tt
        end
  end.

Definition validate_step_output_decls (steps : list EnsembleStep) : result ConfigError unit :=
  check_all (fun s =>
    match es_outputs_decl s with
    | None => Ok tt
    | Some decl =>
        check_all (fun ad => if negb (is_ident (fst ad)) then Err (Rule "R6" (es_name s))
                             else match od_path (snd ad) with
                                  | Some path => if is_json_path path then Ok tt else Err (Rule "R6" (es_name s))
                                  | None => Ok tt
                                  end) decl
    end) steps.

(** ** Pipeline chains *)

(** The uses of the output of step [src]: by which step, and whether a field of it. *)
Definition consumers_of (steps : list EnsembleStep) (src : nat) : list (nat * bool) :=
  concat (imap (fun i s =>
    omap (fun r => match ref_captures r with
                   | Some (source, rest) => if bool_decide (step_position steps source = Some src)
                                            then Some (i, is_some rest) else None
                   | None => None
                   end) (step_refs s)) steps).

Definition streaming (steps : list EnsembleStep) (i : nat) : bool :=
  match steps !! i with Some s => es_stream s | None => false end.

Definition name_at (steps : list EnsembleStep) (i : nat) : string :=
  match steps !! i with Some s => es_name s | None => "" end.

(** The walk along consumers; [None] only when [fuel] runs out. *)
Fixpoint chain_walk (fuel : nat) (steps : list EnsembleStep) (c : nat) (nodes : list nat) (visited : gset nat)
    : option (result ConfigError (list nat * gset nat)) :=
  match fuel with
  | O => None
  | S fuel =>
      if negb (streaming steps c) then Some (Err (Rule "D26" (name_at steps c)))
      else if bool_decide (c ∈ visited) then Some (Err (Rule "P-R4" (name_at steps c)))
      else
        let nodes := (nodes ++ [c])%list in
        let visited := visited ∪ {[c]} in
        match consumers_of steps c with
        | [] => Some (Ok (nodes, visited))
        | [(c2, field_ref)] =>
            if field_ref then Some (Err (Rule "P-R2" (name_at steps c)))
            else chain_walk fuel steps c2 nodes visited
        | _ => Some (Err (Rule "P-R1" (name_at steps c)))
        end
  end.

Fixpoint chains_loop (steps : list EnsembleStep) (output_step : nat) (ss : list nat) (visited : gset nat)
    (chains : list (list nat)) : option (result ConfigError (list (list nat))) :=
  match ss with
  | [] => Some (Ok chains)
  | s :: ss =>
      if negb (streaming steps s) || bool_decide (s ∈ visited) then chains_loop steps output_step ss visited chains
      else
        match consumers_of steps s with
        | [] => if Nat.eqb s output_step then chains_loop steps output_step ss visited chains
                else Some (Err (Rule "P-R5" (name_at steps s)))
        | [(c, field_ref)] =>
            if field_ref then Some (Err (Rule "P-R2" (name_at steps s)))
            else
              match chain_walk (S (length steps)) steps c [s] visited with
              | None => None
              | Some (Err e) => Some (Err e)
              | Some (Ok (nodes, visited)) =>
                  if bool_decide (last nodes = Some output_step)
                  then chains_loop steps output_step ss visited (chains ++ [nodes])%list
                  else Some (Err (Rule "P-R3" (name_at steps (default 0%nat (last nodes)))))
              end
        | _ => Some (Err (Rule "P-R1" (name_at steps s)))
        end
  end.

(** Each step of the walk visits a new step, so their number is fuel enough. *)
Definition build_chains (steps : list EnsembleStep) (output_step : nat)
    : option (result ConfigError (list (list nat))) :=
  chains_loop steps output_step (seq 0 (length steps)) ∅ [].

Definition validate_stream_rules (steps : list EnsembleStep) (output_step : nat)
    : option (result ConfigError unit) :=
  match List.filter es_stream steps with
  | [] => Some (Ok tt)
  | [tail] =>
      match topological_layers steps with
      | None => None
      | Some layers =>
          if negb (match last layers with Some l => bool_decide (es_name tail ∈ l) | None => false end)
          then Some (Err (Rule "rule 1" (es_name tail)))
          else if negb (String.eqb (name_at steps output_step) (es_name tail))
          then Some (Err (Rule "rule 4" (es_name tail)))
          else Some (Ok tt)
      end
  | _ => Some (Err (Rule "rule 3" ""))
  end.
End rules.

(** ** Parsing conditions *)

Section parse.
Context `{MapIter} `{HttpSyntax} (parse_json : string -> result string Value).

Definition parse_when_target (target raw : string) : result ConfigError WhenTarget :=
  if String.eqb target "request.dag" then Ok WDag
  else if String.eqb target "request.client_ip" then Ok WClientIp
  else if starts_with "request." target then Err (Rule "R16" raw)
  else
    match strip_prefix "inputs." target with
    | Some rest =>
        match split_char "."%char rest with
        | name :: path =>
            if bool_decide (name = "") then Err (Rule "R16" raw)
            else Ok (WInput name (if bool_decide (path = []) then None else Some (join_str "." path)))
        | [] => Err (Rule "R16" raw)
        end
    | None => Err (Rule "R16" raw)
    end.

(** The last character, as a string. *)
Fixpoint last_char (s : string) : string :=
  match s with
  | EmptyString => ""
  | String c EmptyString => String c EmptyString
  | String _ s => last_char s
  end.

(** The operator at the start of a string, and what follows it. *)
Definition when_operator (s : string) : option (WhenOp * string) :=
  match strip_prefix "==" s, strip_prefix "!=" s, strip_prefix "contains" s, strip_prefix "in" s with
  | Some r, _, _, _ => Some (WEq, r)
  | _, Some r, _, _ => Some (WNeq, r)
  | _, _, Some r, _ => Some (WContains, r)
  | _, _, _, Some r => Some (WIn, r)
  | _, _, _, _ => None
  end.

(** [WHEN_RE]: a dollar, a run of non-spaces, spaces, an operator, spaces, and at least
    one more character on the same line. *)
Definition when_captures (raw : string) : option (string * WhenOp * string) :=
  match raw with
  | String c rest =>
      if eq_char c "$"%char then
        let target := take_until is_space rest in
        let after := default "" (strip_prefix target rest) in
        if bool_decide (target = "") || bool_decide (after = "") then None
        else
          match when_operator (trim_start after) with
          | Some (op, lit) =>
              let lit := if bool_decide (trim_start lit = "") then last_char lit else trim_start lit in
              if bool_decide (lit = "") || has_char (Ascii.ascii_of_nat 10) lit then None
              else Some (target, op, lit)
          | None => None
          end
      else None
  | EmptyString => None
  end.

Fixpoint swap_quotes (s : string) : string :=
  match s with
  | EmptyString => EmptyString
  | String c s => String (if eq_char c "'"%char then Ascii.ascii_of_nat 34 else c) (swap_quotes s)
  end.

Definition parse_when_expr (raw : string) : result ConfigError WhenExpr :=
  match when_captures raw with
  | None => Err (Rule "E8-2" raw)
  | Some (target, op, lit) =>
      let? target := parse_when_target target raw in
      let? literal := match parse_json lit with
                      | Ok v => Ok v
                      | Err _ => map_err (fun _ => Rule "E8-2" raw) (parse_json (swap_quotes lit))
                      end in
      if match op with WIn => negb (is_array literal) | _ => false end then Err (Rule "E8-2" raw)
      else Ok {| we_target := target; we_op := op; we_literal := literal |}
  end.

(** ** Forwarded headers *)

Definition SERVER_MANAGED_STEP_HEADERS : list string :=
  ["content-type"; "traceparent"; "tracestate"; "baggage"].

Definition TRANSPORT_INVALID_FORWARD_HEADERS : list string :=
  ["content-length"; "transfer-encoding"; "host"; "connection"; "keep-alive"; "upgrade"; "te"; "trailer"].

Definition SERVER_CONTROL_HEADER_PREFIX : string := "x-lite-".

Fixpoint validate_forward_headers (step : string) (names : list string) (out : list string)
    : result ConfigError (list string) :=
  match names with
  | [] => Ok out
  | raw :: names =>
      let name := to_ascii_lowercase (trim raw) in
      if negb (is_some (header_name name)) then Err (Rule "R23" step)
      else if bool_decide (name ∈ SERVER_MANAGED_STEP_HEADERS) then Err (Rule "R23" step)
      else if bool_decide (name ∈ TRANSPORT_INVALID_FORWARD_HEADERS) then Err (Rule "R23" step)
      else if starts_with SERVER_CONTROL_HEADER_PREFIX name then Err (Rule "R23" step)
      else if bool_decide (name ∈ out) then Err (Rule "R23" step)
      else validate_forward_headers step names (out ++ [name])%list
  end.

(** ** Plans *)

(** A step as the configuration file gives it. *)
Record EnsembleStepRaw := {
  sr_name : string;
  sr_model : string;
  sr_version : option string;
  sr_inputs : option (gmap string string);
  sr_stream : bool;
  sr_forward_headers : list string;
  sr_passthrough : bool;
  sr_params : gmap string Value;
  sr_timeout_secs : option spec_float;
  sr_on_error : option OnErrorKind;
  sr_retries : option Z;
  sr_outputs : option (IndexMap StepOutputDecl);
  sr_when : option string;
}.

Record EnsembleDagSet := {
  ds_steps : list EnsembleStepRaw;
  ds_output : option string;
  ds_outputs : option (IndexMap string);
  ds_inputs : option (IndexMap InputDecl);
}.

(** The [ensemble] section of the file: one set, or named ones. *)
Record EnsembleBlock := {
  eb_set : EnsembleDagSet;
  eb_dags : option (IndexMap EnsembleDagSet);
  eb_dag_selector : option string;
}.

Record EnsemblePlan := {
  pl_steps : list EnsembleStep;
  pl_layers : list (list nat);
  pl_output_step : nat;
  pl_output_field : option string;
  pl_chains : list (list nat);
  pl_inputs_decl : option (IndexMap InputDecl);
  pl_input_modes : list (option InputMode);
  pl_conditional_refs : list (list string);
  pl_step_dep_keys : list (list string);
  pl_step_raw_eligible : list bool;
  pl_outputs : option (IndexMap string);
}.

(** A loaded file: a plan, or a container of plans with the body field that selects. *)
Inductive LoadedPlan :=
  | SinglePlan (p : EnsemblePlan)
  | DagSets (sets : IndexMap EnsemblePlan) (dag_selector : option (list string)).

Definition parse_step (s : EnsembleStepRaw) : result ConfigError EnsembleStep :=
  if match sr_timeout_secs s with
     | Some t => negb (is_finite t) || fle t float_zero
     | None => false
     end then Err (Rule "E5" (sr_name s))
  else if sr_passthrough s && match sr_inputs s with Some m => negb (bool_decide (m = ∅)) | None => false end
  then Err (Rule "R24" (sr_name s))
  else if sr_passthrough s && negb (bool_decide (sr_params s = ∅)) then Err (Rule "R24" (sr_name s))
  else if negb (sr_passthrough s) && negb (is_some (sr_inputs s)) then Err (Rule "R24" (sr_name s))
  else
    let? forward_headers := validate_forward_headers (sr_name s) (sr_forward_headers s) [] in
    let? when := match sr_when s with
                 | None => Ok None
                 | Some raw => let? e := parse_when_expr raw in Ok (Some e)
                 end in
    Ok {| es_name := sr_name s; es_model := sr_model s;
          es_version := match sr_version s with
                        | Some v => if String.eqb v "latest" then None else Some v
                        | None => None
                        end;
          es_inputs := default ∅ (sr_inputs s); es_stream := sr_stream s;
          es_forward_headers := forward_headers; es_passthrough := sr_passthrough s;
          es_params := sr_params s; es_timeout_secs := sr_timeout_secs s;
          es_on_error := default OnFail (sr_on_error s); es_retries := default 0%Z (sr_retries s);
          es_outputs_decl := sr_outputs s; es_when := when |}.

Fixpoint parse_steps (raws : list EnsembleStepRaw) : result ConfigError (list EnsembleStep) :=
  match raws with
  | [] => Ok []
  | r :: raws => let? s := parse_step r in let? steps := parse_steps raws in Ok (s :: steps)
  end.

(** [context_key_for_ref]: the key of the context a reference reads. *)
Definition context_key_for_ref (steps : list EnsembleStep) (r : string) : option string :=
  match ref_captures r with
  | None => None
  | Some (source, rest) =>
      Some (if String.eqb source "inputs" then "inputs." +:+ ref_name rest
            else match find_step steps source ≫= es_outputs_decl with
                 | Some _ => source +:+ "." +:+ ref_name rest
                 | None => source
                 end)
  end.

(** The keys of a step without repetitions, in order. *)
Fixpoint dep_keys (steps : list EnsembleStep) (refs : list string) (keys : list string)
    : result ConfigError (list string) :=
  match refs with
  | [] => Ok keys
  | r :: refs =>
      let? key := ok_or (context_key_for_ref steps r) (InvalidReference r) in
      dep_keys steps refs (if bool_decide (key ∈ keys) then keys else (keys ++ [key])%list)
  end.

Fixpoint all_dep_keys (all steps : list EnsembleStep) : result ConfigError (list (list string)) :=
  match steps with
  | [] => Ok []
  | s :: steps =>
      let? keys := dep_keys all (step_refs s) [] in
      let? rest := all_dep_keys all steps in
      Ok (keys :: rest)
  end.

(** A step's output is kept as bytes unless it is declared or a field of it is read. *)
Definition reads_field_of (i : nat) (steps : list EnsembleStep) (r : string) : bool :=
  match ref_captures r with
  | Some (source, Some rest) => negb (bool_decide (rest = "")) && bool_decide (step_position steps source = Some i)
  | _ => false
  end.

Definition raw_eligible (steps : list EnsembleStep) (output : option string) (outputs : option (IndexMap string))
    (i : nat) (s : EnsembleStep) : bool :=
  negb (is_some (es_outputs_decl s))
  && negb (existsb (reads_field_of i steps)
             (concat (map step_refs steps) ++ match output with Some o => [o] | None => [] end
              ++ match outputs with Some os => map snd os | None => [] end)%list).

(** The pipeline of one set; [None] only when a bounded loop runs out of fuel. *)
Definition parse_ensemble_set (set : EnsembleDagSet) : option (result ConfigError EnsemblePlan) :=
  let inputs_decl := ds_inputs set in
  let outputs := ds_outputs set in
  match parse_steps (ds_steps set) with
  | Err e => Some (Err e)
  | Ok steps =>
      if is_some inputs_decl && existsb es_passthrough steps then Some (Err (Rule "R24" "passthrough"))
      else
        match validate_dag steps with
        | None => None
        | Some (Err e) => Some (Err e)
        | Some (Ok _) =>
            let checked :=
              let? out := resolve_output (ds_output set) steps in
              let? _ := validate_step_output_decls steps in
              let? types := analyze_static_types steps inputs_decl in
              let? conditional_refs := validate_when_refs steps inputs_decl (snd types) in
              let? _ := validate_outputs_rules steps outputs (negb (is_some (ds_output set))) (fst out) inputs_decl in
              let? _ := validate_skip_rules steps (fst out) conditional_refs (is_some outputs) in
              if negb (is_some outputs) && match steps !! fst out with
                                           | Some s => is_some (es_outputs_decl s)
                                           | None => false
                                           end
              then Err (Rule "E7" "output") else Ok (out, fst types, conditional_refs) in
            match checked with
            | Err e => Some (Err e)
            | Ok (output_step, output_field, input_modes, conditional_refs) =>
                match build_chains steps output_step with
                | None => None
                | Some (Err e) => Some (Err e)
                | Some (Ok chains) =>
                    match (if bool_decide (chains = []) then validate_stream_rules steps output_step
                           else Some (Ok tt)), topological_layers steps with
                    | None, _ | _, None => None
                    | Some (Err e), _ => Some (Err e)
                    | Some (Ok _), Some layers =>
                        if is_some output_field && existsb es_stream steps then Some (Err (Rule "D11" "output"))
                        else
                          Some (let? step_dep_keys := all_dep_keys steps steps in
                                Ok {| pl_steps := steps;
                                      pl_layers := map (omap (step_position steps)) layers;
                                      pl_output_step := output_step; pl_output_field := output_field;
                                      pl_chains := chains; pl_inputs_decl := inputs_decl;
                                      pl_input_modes := input_modes; pl_conditional_refs := conditional_refs;
                                      pl_step_dep_keys := step_dep_keys;
                                      pl_step_raw_eligible := imap (raw_eligible steps (ds_output set) outputs) steps;
                                      pl_outputs := outputs |})
                    end
                end
            end
        end
  end.

(** [ensemble.dag_selector]: the path of the body's field. *)
Definition parse_dag_selector_ref (raw : string) : result ConfigError (list string) :=
  let? rest := ok_or (strip_prefix "$request." raw) (Rule "R21" raw) in
  let segs := split_char "."%char rest in
  if existsb (fun s => bool_decide (s = "")) segs then Err (Rule "R21" raw) else Ok segs.

Fixpoint parse_sets (sets : IndexMap EnsembleDagSet) : option (result ConfigError (IndexMap EnsemblePlan)) :=
  match sets with
  | [] => Some (Ok [])
  | (name, set) :: sets =>
      match parse_ensemble_set set with
      | None => None
      | Some (Err e) => Some (Err e)
      | Some (Ok p) =>
          match parse_sets sets with
          | Some (Ok ps) => Some (Ok ((name, p) :: ps))
          | r => r
          end
      end
  end.

Definition parse_ensemble_plan (b : EnsembleBlock) : option (result ConfigError LoadedPlan) :=
  match eb_dags b with
  | Some dags =>
      let top := eb_set b in
      if negb (bool_decide (length (ds_steps top) = 0%nat)) || is_some (ds_output top) || is_some (ds_outputs top)
         || is_some (ds_inputs top) then Some (Err (Rule "E8-1" "dags"))
      else if bool_decide (length dags = 0%nat) then Some (Err (Rule "E8-1" "dags"))
      else
        match match eb_dag_selector b with
              | None => Ok None
              | Some raw => let? path := parse_dag_selector_ref raw in Ok (Some path)
              end with
        | Err e => Some (Err e)
        | Ok dag_selector =>
            match parse_sets dags with
            | None => None
            | Some (Err e) => Some (Err e)
            | Some (Ok sets) =>
                if is_some dag_selector && existsb (fun np => is_some (pl_inputs_decl (snd np))) sets
                then Some (Err (Rule "R22" "dag_selector"))
                else Some (Ok (DagSets sets dag_selector))
            end
        end
  | None =>
      if is_some (eb_dag_selector b) then Some (Err (Rule "R20" "dag_selector"))
      else
        match parse_ensemble_set (eb_set b) with
        | None => None
        | Some (Err e) => Some (Err e)
        | Some (Ok p) => Some (Ok (SinglePlan p))
        end
  end.
End parse.
