(* ===== verification/EnsembleRulesProps.v ===== *)
(** * Properties of the static rules of ensembles

    About [EnsembleRules.v]: the parser of plans always ends with a plan or an error; the
    pipeline chains of an accepted plan are what the executor takes them for; the type of
    a step's inputs does not depend on the order of its references; and what an accepted
    plan guarantees to the executor, gathered in [accepted]. *)

From S2P Require Import Prelude Text Float Json Errors Ensemble EnsembleProps EnsembleRules.
Import Errors.Render.
From stdpp Require Import gmap fin_sets.
Open Scope string_scope.

(** ** Chains *)

Section chains.
Context `{MapIter}.
Implicit Types (steps : list EnsembleStep) (visited : gset nat).

(** Each node's output is read whole by the next one and by nothing else. *)
Fixpoint linked steps (nodes : list nat) : Prop :=
  match nodes with
  | [] => False
  | [a] => streaming steps a = true /\ consumers_of steps a = []
  | a :: ((b :: _) as rest) =>
      streaming steps a = true /\ consumers_of steps a = [(b, false)] /\ linked steps rest
  end.

Lemma streaming_lt steps c : streaming steps c = true -> (c < length steps)%nat.
Proof. unfold streaming. destruct (steps !! c) eqn:Hc; [|done]. intros _. by eapply lookup_lt_Some. Qed.

(** A successful walk appends a linked list of new nodes. *)
Lemma chain_walk_ok fuel steps c nodes visited nodes' visited' :
  chain_walk fuel steps c nodes visited = Some (Ok (nodes', visited')) ->
  exists rest, nodes' = (nodes ++ rest)%list /\ head rest = Some c /\ linked steps rest /\ NoDup rest /\
    visited' = visited ∪ list_to_set rest /\ forall n, n ∈ rest -> n ∉ visited.
Proof.
  revert c nodes visited. induction fuel as [|fuel IH]; intros c nodes visited; simpl; [done|].
  destruct (streaming steps c) eqn:Hs; simpl; [|done]. case_bool_decide as Hv; [done|].
  destruct (consumers_of steps c) as [|[c2 f] [|]] eqn:Hc; [| |done].
  - intros [= <- <-]. exists [c]. split_and!; [done|done|done|apply NoDup_singleton|set_solver|set_solver].
  - destruct f; [done|]. intros (rest & -> & Hh & Hl & Hnd & -> & Hout)%IH.
    exists (c :: rest). rewrite <- (assoc_L (++)%list). split_and!; [done|done| | |set_solver|].
    + destruct rest as [|b rest]; [done|]. injection Hh as ->. done.
    + apply NoDup_cons. split; [|done]. intros Hin%Hout. set_solver.
    + intros n [->|Hn]%elem_of_cons; [done|]. specialize (Hout n Hn). set_solver.
Qed.

Lemma chain_walk_total fuel steps c nodes visited :
  (forall n, n ∈ visited -> (n < length steps)%nat) -> (length steps - size visited < fuel)%nat ->
  exists r, chain_walk fuel steps c nodes visited = Some r.
Proof.
  revert c nodes visited. induction fuel as [|fuel IH]; intros c nodes visited Hr Hf; [lia|]. simpl.
  destruct (streaming steps c) eqn:Hs; simpl; [|by eexists]. case_bool_decide as Hv; [by eexists|].
  destruct (consumers_of steps c) as [|[c2 f] [|]]; [by eexists| |by eexists]. destruct f; [by eexists|].
  apply streaming_lt in Hs. apply IH; [set_solver|].
  assert (size (visited ∪ {[c]}) = S (size visited)) as -> by (rewrite size_union, size_singleton by set_solver; lia).
  assert (size (visited ∪ {[c]}) <= length steps)%nat as Hle.
  { rewrite <- (length_seq (length steps) 0), <- (size_list_to_set (C := gset nat) (seq 0 (length steps))) by apply NoDup_seq.
    apply subseteq_size. intros n Hn. apply elem_of_list_to_set, elem_of_seq. set_solver by lia. }
  rewrite size_union, size_singleton in Hle by set_solver. lia.
Qed.
Lemma linked_suffix steps l1 l2 : l2 <> [] -> linked steps (l1 ++ l2) -> linked steps l2.
Proof.
  intros Hne. induction l1 as [|a l1 IH]; [done|]. simpl. destruct (l1 ++ l2)%list eqn:Heq.
  - apply app_nil in Heq as [_ ->]. done.
  - intros (_ & _ & Hl). by apply IH.
Qed.

Lemma linked_streaming steps nodes n : linked steps nodes -> n ∈ nodes -> streaming steps n = true.
Proof.
  intros Hl (l1 & l2 & ->)%list_elem_of_split. apply linked_suffix in Hl; [|done]. destruct l2; [apply Hl|apply Hl].
Qed.

(** A chain does not return to its start. *)
Lemma linked_NoDup steps a rest : linked steps (a :: rest) -> NoDup rest -> NoDup (a :: rest).
Proof.
  intros Hl Hnd. apply NoDup_cons. split; [|done]. intros (l1 & l2 & ->)%list_elem_of_split.
  destruct (l1 ++ a :: l2)%list as [|b r] eqn:Hr; [by destruct l1|]. destruct Hl as (_ & Hc & Hl).
  rewrite <- Hr in Hl. apply linked_suffix in Hl; [|done].
  destruct l2 as [|b' l2]; [destruct Hl; congruence|]. destruct Hl as (_ & Hc' & _).
  assert (b' = b) as -> by congruence. rewrite <- Hr in Hnd.
  assert (b ∈ l1 ++ [a])%list as Hin by (destruct l1; simplify_eq/=; set_solver).
  rewrite (cons_middle a l1), (assoc_L (++)%list) in Hnd. apply NoDup_app in Hnd as (_ & Hd & _).
  apply (Hd b Hin). by left.
Qed.

Definition chain_state steps (out : nat) (done : nat -> Prop) visited (chains : list (list nat)) : Prop :=
  match chains with
  | [] => visited = ∅ /\ forall s, done s -> streaming steps s = true -> s = out /\ consumers_of steps s = []
  | [nodes] => linked steps nodes /\ NoDup nodes /\ last nodes = Some out /\
      (exists s0 rest, nodes = s0 :: rest /\ rest <> [] /\ done s0 /\ visited = list_to_set rest) /\
      forall s, done s -> streaming steps s = true -> s ∈ nodes
  | _ => False
  end.

Lemma last_in_rest (s0 : nat) rest out : rest <> [] -> last (s0 :: rest) = Some out -> out ∈ rest.
Proof. intros Hne Hl. destruct rest; [done|]. rewrite last_cons_cons in Hl. by apply last_Some_elem_of. Qed.

Lemma chain_state_weaken steps out (done done' : nat -> Prop) visited chains s :
  chain_state steps out done visited chains -> (forall n, done' n <-> done n \/ n = s) ->
  (streaming steps s = true -> match chains with
                               | [] => s = out /\ consumers_of steps s = []
                               | nodes :: _ => s ∈ nodes
                               end) ->
  chain_state steps out done' visited chains.
Proof.
  intros Hst Hd Hs. destruct chains as [|nodes [|]]; [|destruct Hst as (? & ? & ? & (s0 & rest & ? & ? & ? & ?) & Hall)|done].
  - destruct Hst as [-> Hall]. split; [done|]. intros n [Hn| ->]%Hd Hstr; [by apply Hall|by apply Hs].
  - split_and!; [done|done|done| |].
    + exists s0, rest. split_and!; [done|done|apply Hd; by left|done].
    + intros n [Hn| ->]%Hd Hstr; [by apply Hall|by apply Hs].
Qed.

Lemma chains_loop_ok steps out ss visited chains chains' (done : nat -> Prop) :
  NoDup ss -> (forall n, n ∈ ss -> ~ done n) ->
  chain_state steps out done visited chains ->
  chains_loop steps out ss visited chains = Some (Ok chains') ->
  exists visited', chain_state steps out (fun n => done n \/ n ∈ ss) visited' chains'.
Proof.
  revert visited chains done. induction ss as [|s ss IH]; intros visited chains done Hnd Hnew Hst; cbn [chains_loop].
  { intros [= <-]. exists visited. destruct chains as [|nodes [|]]; [|destruct Hst as (? & ? & ? & (s0 & rest & ? & ? & ? & ?) & ?)|done].
    - destruct Hst as [-> Hall]. split; [done|]. intros n [Hn|Hn]; [by apply Hall|set_solver].
    - split_and!; [done|done|done| |intros n [Hn|Hn]; [auto|set_solver]].
      exists s0, rest. naive_solver. }
  apply NoDup_cons in Hnd as [Hs Hnd].
  assert (Hgo : forall v c, chain_state steps out (fun n => done n \/ n = s) v c ->
    chains_loop steps out ss v c = Some (Ok chains') ->
    exists v', chain_state steps out (fun n => done n \/ n ∈ s :: ss) v' chains').
  { intros v c Hst' Hloop. destruct (IH v c (fun n => done n \/ n = s) Hnd) as [v' Hv']; [|done|done|].
    - intros n Hn [Hdn| ->]; [by apply (Hnew n); [right|]|done].
    - exists v'. destruct chains' as [|nodes [|]]; [|destruct Hv' as (? & ? & ? & (s0 & rest & ? & ? & ? & ?) & ?)|done].
      + destruct Hv' as [-> Hall]. split; [done|]. set_solver.
      + split_and!; [done|done|done| |set_solver]. exists s0, rest. split_and!; [done|done|set_solver|done]. }
  destruct (streaming steps s) eqn:Hstr; cbn [negb orb].
  2:{ apply Hgo. eapply chain_state_weaken; [done|done|]. congruence. }
  case_bool_decide as Hv.
  { apply Hgo. eapply chain_state_weaken; [done|done|]. intros _.
    destruct chains as [|nodes [|]]; [by destruct Hst as [-> _]| |done].
    destruct Hst as (_ & _ & _ & (s0 & rest & -> & _ & _ & ->) & _). set_solver. }
  destruct (consumers_of steps s) as [|[c f] [|]] eqn:Hc; [| |done].
  { destruct (Nat.eqb_spec s out) as [->|]; [|done]. apply Hgo. eapply chain_state_weaken; [done|done|]. intros _.
    destruct chains as [|nodes [|]]; [done| |done].
    destruct Hst as (_ & _ & Hl & (s0 & rest & -> & Hr & _ & ->) & _). by apply (last_in_rest s0) in Hl; [right|]. }
  destruct f; [done|].
  destruct (chain_walk _ _ _ _ _) as [[[nodes v']|e]|] eqn:Hw; [|done..].
  apply chain_walk_ok in Hw as (rest & -> & Hh & Hl & Hndr & -> & Hout).
  case_bool_decide as Hlast; [|done].
  assert (Hrne : rest <> []) by (by destruct rest).
  pose proof (last_in_rest s rest out Hrne Hlast) as Hin.
  destruct chains as [|nodes0 [|]]; [| |done].
  - apply Hgo. destruct Hst as [-> Hall].
    assert (Hls : linked steps (s :: rest)) by (destruct rest; [done|]; injection Hh as ->; done).
    split_and!; [done|by apply (linked_NoDup steps)|done| |].
    + exists s, rest. split_and!; [done|done|by right|]. by rewrite (left_id_L ∅ (∪)).
    + intros n [Hn| ->] Hsn; [|by left]. destruct (Hall n Hn Hsn) as [-> _]. by right.
  - destruct Hst as (_ & _ & Hl0 & (s0 & rest0 & -> & Hr0 & _ & ->) & _).
    exfalso. apply (Hout out Hin). apply elem_of_list_to_set. by apply (last_in_rest s0).
Qed.

Lemma chains_loop_total steps out ss visited chains :
  (forall n, n ∈ visited -> (n < length steps)%nat) ->
  exists r, chains_loop steps out ss visited chains = Some r.
Proof.
  revert visited chains. induction ss as [|s ss IH]; intros visited chains Hr; cbn [chains_loop]; [by eexists|].
  destruct (_ || _); [by apply IH|]. destruct (consumers_of steps s) as [|[c f] [|]]; [case_goal; [by apply IH|by eexists]| |by eexists].
  destruct f; [by eexists|].
  destruct (chain_walk_total (S (length steps)) steps c [s] visited Hr) as [[[nodes v']|e] Hw]; [lia| |];
    rewrite Hw; [|by eexists].
  case_bool_decide; [|by eexists]. apply IH. intros n Hn.
  apply chain_walk_ok in Hw as (rest & _ & _ & Hl & _ & -> & _).
  apply elem_of_union in Hn as [?|Hn%elem_of_list_to_set]; [by apply Hr|].
  by apply streaming_lt, (linked_streaming steps rest).
Qed.

Lemma build_chains_total steps out : exists r, build_chains steps out = Some r.
Proof. apply chains_loop_total. set_solver. Qed.

(** The streaming steps of an accepted plan are one pipeline that ends in the output, or
    one step, the output, that nothing reads: [build_chains] ends, and when it accepts
    there is at most one chain; with one, its nodes are distinct, all stream, each is read
    whole by the next and by nothing else, the last is the output, and no other step
    streams; without, only the output may stream, and nothing reads it. *)
Theorem chains_are_pipelines steps out :
  exists r, build_chains steps out = Some r /\
  forall chains, r = Ok chains ->
    (chains = [] /\ forall s, streaming steps s = true -> s = out /\ consumers_of steps s = []) \/
    (exists nodes, chains = [nodes] /\ linked steps nodes /\ NoDup nodes /\ last nodes = Some out /\
       (2 <= length nodes)%nat /\ forall s, streaming steps s = true <-> s ∈ nodes).
Proof.
  destruct (build_chains_total steps out) as [r Hr]. exists r. split; [done|]. intros chains ->.
  destruct (chains_loop_ok steps out (seq 0 (length steps)) ∅ [] chains (fun _ => False)) as [v Hst];
    [apply NoDup_seq|tauto|by split|exact Hr|].
  assert (Hall : forall s, streaming steps s = true -> False \/ s ∈ seq 0 (length steps)).
  { intros s Hs%streaming_lt. right. apply elem_of_seq. lia. }
  destruct chains as [|nodes [|]]; [left|right|done].
  - split; [done|]. destruct Hst as [_ Hst]. auto.
  - destruct Hst as (Hl & Hnd & Hlast & (s0 & rest & -> & Hne & _) & Hin). exists (s0 :: rest).
    split_and!; [done|done|done|done|destruct rest; simpl in *; [done|lia]|].
    intros s. split; [auto|]. by apply linked_streaming.
Qed.
End chains.

(** ** Types of references *)

Section types.
Context `{MapIter}.
Implicit Types (steps : list EnsembleStep) (decl : IndexMap InputDecl).

(** The static type of a reference where inputs are declared. *)
Definition ref_type steps decl (r : string) : option InputType :=
  match ref_captures r with
  | None => None
  | Some (source, rest) =>
      if String.eqb source "request" then None
      else if String.eqb source "inputs" then id_ty <$> index_get (ref_name rest) decl
      else match find_step steps source with
           | None => None
           | Some src =>
               match es_outputs_decl src with
               | None => Some TJson
               | Some ad => match rest with Some r => od_ty <$> index_get (first_segment r) ad | None => None end
               end
           end
  end.

Lemma analyze_ref_declared steps decl step r mode mode' c :
  analyze_ref steps (Some decl) step r mode = Ok (mode', c) ->
  exists ty, ref_type steps decl r = Some ty /\ join_type ty step mode = Ok mode' /\
    (forall m m', join_type ty step m = Ok m' -> analyze_ref steps (Some decl) step r m = Ok (m', c)).
Proof.
  unfold analyze_ref, ref_type. destruct (ref_captures r) as [[source rest]|]; [|done].
  destruct (String.eqb source "request"); [done|]. destruct (String.eqb source "inputs").
  - destruct (index_get (ref_name rest) decl) as [d|]; [|done]. simpl. case_goal; [done|].
    destruct (join_type (id_ty d) step mode) as [m|] eqn:Hj; [|done]. intros [= <- <-].
    exists (id_ty d). split_and!; [done|done|]. by intros m1 m2 ->.
  - destruct (find_step steps source) as [src|]; [|done]. simpl. destruct (es_outputs_decl src) as [ad|].
    + destruct rest as [rest|]; [|done]. simpl. destruct (index_get (first_segment rest) ad) as [d|]; [|done]. simpl.
      case_goal; [done|]. destruct (join_type (od_ty d) step mode) as [m|] eqn:Hj; [|done]. intros [= <- <-].
      exists (od_ty d). split_and!; [done|done|]. by intros m1 m2 ->.
    + destruct (join_json step mode) as [m|] eqn:Hj; [|done]. intros [= <- <-].
      exists TJson. split_and!; [done|done|]. intros m1 m2. simpl. by intros ->.
Qed.

(** Without declared inputs the mode is left to the run time. *)
Lemma analyze_ref_legacy steps step r m m' c :
  analyze_ref steps None step r m = Ok (m', c) ->
  m' = m /\ c = [] /\ forall m2, analyze_ref steps None step r m2 = Ok (m2, []).
Proof.
  unfold analyze_ref. destruct (ref_captures r) as [[source rest]|]; [|done].
  destruct (String.eqb source "request"); [naive_solver|]. destruct (String.eqb source "inputs"); [done|].
  destruct (find_step steps source) as [src|]; [|done]. simpl. destruct (es_outputs_decl src); [|naive_solver].
  destruct rest; [|done]. simpl. destruct (index_get _ _); [|done]. simpl. case_goal; [done|]. naive_solver.
Qed.

Lemma analyze_refs_legacy steps step refs m cond m' cond' :
  analyze_refs steps None step refs m cond = Ok (m', cond') -> m' = m /\ cond' = cond.
Proof.
  revert m cond. induction refs as [|r refs IH]; intros m cond; simpl; [by intros [= <- <-]|].
  destruct (analyze_ref steps None step r m) as [[m1 c1]|] eqn:Ha; [|done]. simpl.
  apply analyze_ref_legacy in Ha as (-> & -> & _). rewrite app_nil_r. apply IH.
Qed.

(** The analysis of each step of a plan. *)
Lemma analyze_steps_lookup all inputs_decl steps mcs i s :
  analyze_steps all inputs_decl steps = Ok mcs -> steps !! i = Some s ->
  exists mc, mcs !! i = Some mc /\ analyze_step all inputs_decl s = Ok mc.
Proof.
  revert mcs i. induction steps as [|s0 steps IH]; intros mcs i; simpl; [done|].
  destruct (analyze_step all inputs_decl s0) as [mc|] eqn:Ha; [|done]. simpl.
  destruct (analyze_steps all inputs_decl steps) as [mcs'|]; [|done]. simpl. intros [= <-].
  destruct i as [|i]; simpl; [|by apply IH]. intros [= <-]. eauto.
Qed.

Lemma analyze_static_lookup steps inputs_decl modes cond i s :
  analyze_static_types steps inputs_decl = Ok (modes, cond) -> steps !! i = Some s ->
  exists mode c, modes !! i = Some mode /\ cond !! i = Some c /\
    analyze_refs steps inputs_decl (es_name s) (step_refs s) None [] = Ok (mode, c) /\
    (mode = Some BinaryPassThrough -> es_params s = ∅).
Proof.
  unfold analyze_static_types. destruct (match inputs_decl with Some _ => _ | None => _ end) as [[]|]; [|done]. simpl.
  destruct (analyze_steps steps inputs_decl steps) as [mcs|] eqn:Ha; [|done]. simpl. intros [= <- <-] Hs.
  destruct (analyze_steps_lookup _ _ _ _ _ _ Ha Hs) as ([mode c] & Hmc & Hst). exists mode, c.
  rewrite !list_lookup_fmap, Hmc. split; [done|]. split; [done|]. unfold analyze_step in Hst.
  destruct (_ && is_some _); [done|].
  destruct (analyze_refs _ _ _ _ _ _) as [mc|]; [|done]. simpl in Hst.
  destruct (bool_decide (fst mc = _) && _) eqn:Hb; [done|]. injection Hst as ->. split; [done|].
  simpl in Hb. intros ->. rewrite bool_decide_true in Hb by done. simpl in Hb.
  apply negb_false_iff, bool_decide_eq_true in Hb. done.
Qed.

(** What the mode of a step says of its references. *)
Lemma analyze_refs_mode steps decl step refs mode cond mode' cond' :
  analyze_refs steps (Some decl) step refs mode cond = Ok (mode', cond') ->
  match mode with
  | Some BinaryPassThrough => refs = [] /\ mode' = mode
  | Some GroupJson => mode' = mode /\ Forall (fun r => ref_type steps decl r = Some TJson) refs
  | None =>
      match mode' with
      | None => refs = []
      | Some GroupJson => Forall (fun r => ref_type steps decl r = Some TJson) refs
      | Some BinaryPassThrough => exists r, refs = [r] /\ ref_type steps decl r = Some TBinary
      end
  end.
Proof.
  revert mode cond. induction refs as [|r refs IH]; intros mode cond; simpl.
  { intros [= <- <-]. destruct mode as [[]|]; auto. }
  destruct (analyze_ref steps (Some decl) step r mode) as [[m c]|] eqn:Ha; [|done]. simpl. intros Hrest%IH.
  apply analyze_ref_declared in Ha as (ty & Hty & Hj & _).
  destruct ty, mode as [[]|]; simpl in Hj; simplify_eq/=.
  - destruct Hrest as [-> Hall]. split; [done|]. by constructor.
  - destruct Hrest as [-> Hall]. by constructor.
  - destruct Hrest as [-> ->]. by exists r.
Qed.

(** The result of the analysis does not depend on the order in which the hash map gives
    the references. *)
Theorem input_mode_order_irrelevant steps inputs_decl step refs refs' mode cond mode' cond' :
  refs ≡ₚ refs' -> analyze_refs steps inputs_decl step refs mode cond = Ok (mode', cond') ->
  exists cond2, analyze_refs steps inputs_decl step refs' mode cond = Ok (mode', cond2) /\ cond' ≡ₚ cond2.
Proof.
  assert (Hcond : forall refs m c c2 m' c', analyze_refs steps inputs_decl step refs m c = Ok (m', c') -> c ≡ₚ c2 ->
    exists c2', analyze_refs steps inputs_decl step refs m c2 = Ok (m', c2') /\ c' ≡ₚ c2').
  { clear. intros refs. induction refs as [|r refs IH]; intros m c c2 m' c'; simpl; [intros [= <- <-]; eauto|].
    destruct (analyze_ref steps inputs_decl step r m) as [[m1 c1]|]; [|done]. simpl. intros Hr Hc.
    eapply IH; [done|]. by rewrite Hc. }
  intros Hp. revert mode cond mode' cond'. induction Hp as [|r l l' _ IH|r1 r2 l|l1 l2 l3 _ IH1 _ IH2]; intros mode cond mode' cond'; simpl.
  - eauto.
  - destruct (analyze_ref steps inputs_decl step r mode) as [[m c]|]; [|done]. apply IH.
  - destruct inputs_decl as [decl|].
    + destruct (analyze_ref steps (Some decl) step r2 mode) as [[m1 c1]|] eqn:H1; [|done]. simpl.
      destruct (analyze_ref steps (Some decl) step r1 m1) as [[m2 c2]|] eqn:H2; [|done]. simpl. intros Hr.
      apply analyze_ref_declared in H1 as (ty1 & _ & Hj1 & Hg1).
      apply analyze_ref_declared in H2 as (ty2 & _ & Hj2 & Hg2).
      assert (exists m, join_type ty2 step mode = Ok m /\ join_type ty1 step m = Ok m2) as (m & Hm1 & Hm2).
      { destruct ty1, ty2, mode as [[]|]; simpl in *; simplify_eq/=; eauto. }
      rewrite (Hg2 _ _ Hm1). simpl. rewrite (Hg1 _ _ Hm2). simpl. eapply Hcond; [done|].
      rewrite <- !(assoc_L (++)%list). by rewrite (Permutation_app_comm c1 c2).
    + destruct (analyze_ref steps None step r2 mode) as [[m1 c1]|] eqn:H1; [|done]. simpl.
      destruct (analyze_ref steps None step r1 m1) as [[m2 c2]|] eqn:H2; [|done]. simpl. intros Hr.
      apply analyze_ref_legacy in H1 as (-> & -> & Hg1). apply analyze_ref_legacy in H2 as (-> & -> & Hg2).
      rewrite Hg2. simpl. rewrite Hg1. simpl. eauto.
  - intros (c2 & Hr & Hc2)%IH1. destruct (IH2 _ _ _ _ Hr) as (c3 & Hr3 & Hc3). exists c3. split; [done|]. by rewrite Hc2.
Qed.
End types.

(** ** Accepted plans *)

Section accepted.
Context `{MapIter} `{HttpSyntax} (parse_json : string -> result string Value).

Lemma check_all_ok {A} (f : A -> result ConfigError unit) l :
  check_all f l = Ok tt <-> forall a, a ∈ l -> f a = Ok tt.
Proof.
  induction l as [|a l IH]; simpl; [set_solver|]. destruct (f a) as [[]|e] eqn:Hf; simpl.
  - rewrite IH. set_solver.
  - split; [done|]. intros Hall. by rewrite (Hall a) in Hf by (by left).
Qed.

(** What the parser has established for a plan. *)
Record accepted (p : EnsemblePlan) : Prop := {
  ac_dag : validate_dag (pl_steps p) = Some (Ok tt);
  ac_plan : plan_ok (pl_steps p);
  ac_types : exists cond, analyze_static_types (pl_steps p) (pl_inputs_decl p) = Ok (pl_input_modes p, cond) /\
    validate_when_refs (pl_steps p) (pl_inputs_decl p) cond = Ok (pl_conditional_refs p);
  ac_decls : validate_step_output_decls (pl_steps p) = Ok tt;
  ac_sinks : exists single, validate_outputs_rules (pl_steps p) (pl_outputs p) single (pl_output_step p) (pl_inputs_decl p) = Ok tt;
  ac_skip : validate_skip_rules (pl_steps p) (pl_output_step p) (pl_conditional_refs p) (is_some (pl_outputs p)) = Ok tt;
  ac_single : pl_outputs p = None -> forall s, pl_steps p !! pl_output_step p = Some s -> es_outputs_decl s = None;
  ac_layers : exists names, topological_layers (pl_steps p) = Some names /\
    pl_layers p = map (omap (step_position (pl_steps p))) names;
  ac_keys : all_dep_keys (pl_steps p) (pl_steps p) = Ok (pl_step_dep_keys p);
  ac_output : (pl_output_step p < length (pl_steps p))%nat;
  ac_passthrough : is_some (pl_inputs_decl p) = true -> existsb es_passthrough (pl_steps p) = false;
  ac_chains : build_chains (pl_steps p) (pl_output_step p) = Some (Ok (pl_chains p));
  ac_field : is_some (pl_output_field p) && existsb es_stream (pl_steps p) = false;
  ac_raw : length (pl_step_raw_eligible p) = length (pl_steps p);
}.

Lemma all_dep_keys_length all steps keys : all_dep_keys all steps = Ok keys -> length keys = length steps.
Proof.
  revert keys. induction steps as [|s steps IH]; intros keys; simpl; [by intros [= <-]|].
  destruct (dep_keys _ _ _); [|done]. simpl. destruct (all_dep_keys all steps) as [rest|]; [|done].
  intros [= <-]. simpl. f_equal. by apply IH.
Qed.

Lemma validate_when_refs_length steps decl cond out :
  validate_when_refs steps decl cond = Ok out -> length out = length cond.
Proof.
  revert cond out. induction steps as [|s steps IH]; intros [|c cond] out; simpl; try by intros [= <-].
  destruct (validate_when _ _); [|done]. simpl. destruct (validate_when_refs steps decl cond) as [rest|] eqn:Hr; [|done].
  intros [= <-]. simpl. f_equal. by apply IH.
Qed.

(** What the executor looks up by a step's position is there. *)
Lemma accepted_indexed p i s :
  accepted p -> pl_steps p !! i = Some s ->
  is_Some (pl_conditional_refs p !! i) /\ is_Some (pl_step_dep_keys p !! i) /\ is_Some (pl_step_raw_eligible p !! i).
Proof.
  intros Hac Hs. pose proof (lookup_lt_Some _ _ _ Hs) as Hlt. rewrite !lookup_lt_is_Some. split_and!.
  - destruct (ac_types _ Hac) as (cond & Ht & Hw). rewrite (validate_when_refs_length _ _ _ _ Hw).
    destruct (analyze_static_lookup _ _ _ _ _ _ Ht Hs) as (mode & c & _ & Hc & _). by eapply lookup_lt_Some.
  - by rewrite (all_dep_keys_length _ _ _ (ac_keys _ Hac)).
  - by rewrite (ac_raw _ Hac).
Qed.

Lemma resolve_output_lt output steps i f :
  steps <> [] -> resolve_output output steps = Ok (i, f) -> (i < length steps)%nat.
Proof.
  intros Hne. unfold resolve_output. destruct output as [o|].
  - destruct (ref_captures o) as [[source rest]|]; [|done]. case_goal; [done|].
    unfold step_position. destruct (list_find _ steps) as [[k s]|] eqn:Hf; [|done]. simpl.
    case_goal; [done|]. intros [= <- <-]. apply list_find_Some in Hf as (Hk & _). by eapply lookup_lt_Some.
  - intros [= <- <-]. destruct steps; [done|]. simpl. lia.
Qed.

Lemma validate_dag_ok steps : validate_dag steps = Some (Ok tt) -> plan_ok steps.
Proof. intros Hv. destruct (validate_dag_spec steps) as (r & Hr & Hiff). rewrite Hv in Hr. injection Hr as <-. by apply Hiff. Qed.

Lemma parse_accepted set p : parse_ensemble_set parse_json set = Some (Ok p) -> accepted p.
Proof.
  unfold parse_ensemble_set. destruct (parse_steps parse_json (ds_steps set)) as [steps|]; [|done].
  destruct (_ && existsb _ _) eqn:Hpass; [done|].
  destruct (validate_dag steps) as [[[]|]|] eqn:Hdag; [|done..].
  pose proof (validate_dag_ok steps Hdag) as Hplan.
  destruct (resolve_output (ds_output set) steps) as [[out field]|] eqn:Hout; [|done]. cbn [result_bind fst snd].
  destruct (validate_step_output_decls steps) as [[]|] eqn:Hdecls; [|done]. cbn [result_bind].
  destruct (analyze_static_types steps (ds_inputs set)) as [[modes cond]|] eqn:Htypes; [|done]. cbn [result_bind fst snd].
  destruct (validate_when_refs steps (ds_inputs set) cond) as [crefs|] eqn:Hwhen; [|done]. cbn [result_bind].
  destruct (validate_outputs_rules _ _ _ _ _) as [[]|] eqn:Houts; [|done]. cbn [result_bind].
  destruct (validate_skip_rules _ _ _ _) as [[]|] eqn:Hskip; [|done]. cbn [result_bind].
  destruct (negb _ && _) eqn:Hsingle; [done|].
  destruct (build_chains steps out) as [[chains|]|] eqn:Hchains; [|done..].
  destruct (if bool_decide (chains = []) then _ else _) as [[[]|]|]; [|by destruct (topological_layers steps)|done].
  destruct (topological_layers steps) as [names|] eqn:Hlayers; [|done].
  destruct (is_some field && _) eqn:Hfield; [done|].
  destruct (all_dep_keys steps steps) as [keys|] eqn:Hkeys; [|done]. cbn [result_bind]. intros [= <-].
  split; simpl; try done; eauto.
  - intros Hn s Hs. rewrite Hn, Hs in Hsingle. simpl in Hsingle. by destruct (es_outputs_decl s).
  - eapply resolve_output_lt; [apply Hplan|done].
  - intros Hd. by rewrite Hd in Hpass.
  - apply length_imap.
Qed.

Lemma parse_set_total set : exists r, parse_ensemble_set parse_json set = Some r.
Proof.
  unfold parse_ensemble_set. destruct (parse_steps parse_json (ds_steps set)) as [steps|]; [|by eexists].
  destruct (_ && existsb _ _); [by eexists|].
  destruct (validate_dag_spec steps) as (r & Hr & Hiff). rewrite Hr. destruct r as [[]|]; [|by eexists].
  destruct (layers_in_order steps Hr) as (names & Hlayers & _).
  match goal with |- exists r, match ?c with Ok _ => _ | Err _ => _ end = _ =>
    destruct c as [[[[out field] modes] crefs]|]; [|by eexists] end.
  destruct (build_chains_total steps out) as [[chains|] Hc]; rewrite Hc; [|by eexists].
  unfold validate_stream_rules. rewrite Hlayers.
  repeat case_match; simplify_eq/=; by eexists.
Qed.

Lemma parse_sets_total sets : exists r, parse_sets parse_json sets = Some r.
Proof.
  induction sets as [|[name set] sets [r IH]]; simpl; [by eexists|].
  destruct (parse_set_total set) as [[p|e] ->]; [|by eexists]. rewrite IH. destruct r; by eexists.
Qed.

Definition plan_of (lp : LoadedPlan) (p : EnsemblePlan) : Prop :=
  match lp with
  | SinglePlan q => p = q
  | DagSets sets _ => exists name, index_get name sets = Some p
  end.

Lemma parse_sets_accepted sets ps name p :
  parse_sets parse_json sets = Some (Ok ps) -> index_get name ps = Some p -> accepted p.
Proof.
  revert ps. induction sets as [|[k set] sets IH]; intros ps; simpl; [by intros [= <-]|].
  destruct (parse_ensemble_set parse_json set) as [[q|]|] eqn:Hq; [|done..].
  destruct (parse_sets parse_json sets) as [[rest|]|]; [|done..]. intros [= <-]. simpl.
  case_goal; [|by apply IH]. intros [= <-]. by eapply parse_accepted.
Qed.

Lemma parse_plan_accepted b lp p :
  parse_ensemble_plan parse_json b = Some (Ok lp) -> plan_of lp p -> accepted p.
Proof.
  unfold parse_ensemble_plan. destruct (eb_dags b) as [dags|].
  - destruct (_ || _); [done|]. case_bool_decide; [done|].
    destruct (match eb_dag_selector b with Some _ => _ | None => _ end); [|done].
    destruct (parse_sets parse_json dags) as [[sets|]|] eqn:Hs; [|done..]. destruct (_ && _); [done|].
    intros [= <-] [name Hg]. by eapply parse_sets_accepted.
  - case_goal; [done|]. destruct (parse_ensemble_set parse_json (eb_set b)) as [[q|]|] eqn:Hq; [|done..].
    intros [= <-] ->. by eapply parse_accepted.
Qed.

(** The parser of ensemble files ends with a plan or an error on every file: its loops
    over the graph, the layers and the chains never run out of fuel. *)
Theorem plans_always_decided b : exists r, parse_ensemble_plan parse_json b = Some r.
Proof.
  unfold parse_ensemble_plan. destruct (eb_dags b) as [dags|].
  - destruct (_ || _); [by eexists|]. case_bool_decide; [by eexists|].
    destruct (match eb_dag_selector b with Some _ => _ | None => _ end); [|by eexists].
    destruct (parse_sets_total dags) as [[sets|e] ->]; [|by eexists]. destruct (_ && _); by eexists.
  - case_goal; [by eexists|]. destruct (parse_set_total (eb_set b)) as [[p|e] ->]; by eexists.
Qed.
End accepted.

(** ** Chains and the order of the file *)

Definition stream_step (name : string) (inputs : gmap string string) : EnsembleStep :=
  {| es_name := name; es_model := "m"; es_version := None; es_inputs := inputs; es_stream := true;
     es_forward_headers := []; es_passthrough := false; es_params := ∅; es_timeout_secs := None;
     es_on_error := OnFail; es_retries := 0; es_outputs_decl := None; es_when := None |}.

Definition first_link := stream_step "s0" {[ "x" := "$request" ]}.
Definition middle_link := stream_step "s1" {[ "x" := "$s0" ]}.
Definition last_link := stream_step "s2" {[ "x" := "$s1" ]}.

(** The same pipeline is a chain when its first step comes first in the file, and is
    refused as a fan-in when a later one does. *)
Example chain_depends_on_file_order :
  build_chains [first_link; middle_link; last_link] 2 = Some (Ok [[0%nat; 1%nat; 2%nat]]) /\
  build_chains [middle_link; last_link; first_link] 1 = Some (Err (Rule "P-R4" "s2")).
Proof. split; vm_compute; reflexivity. Qed.
