(* ===== verification/EnsembleRun.v ===== *)
(** * Ensembles at run time

    Models the execution of an accepted plan: the request's root
    ([src/src/ensemble/envelope.rs]), references ([src/src/ensemble/refs.rs]), payloads,
    responses and steps ([src/src/ensemble/assemble.rs]), layers, nesting and versions
    ([src/src/ensemble/exec.rs]), conditions, selectors and the response
    ([src/src/ensemble/config.rs]).

    The context of a run is a map from keys to values; the table of resolved versions is
    threaded through the run.  The steps of a layer complete in an order given as an
    argument, as are the answers of queues and workers, the clock, and whether a timeout
    fires.  [unreachable!], [unwrap] and [expect] on nothing and an index out of range are
    the outcome [Panicked].  Streams are modelled up to their opening.
    Parsing and printing of JSON and base64 belong to other crates and are arguments. *)

From S2P Require Import Prelude Text Float Json Errors Deadline Ensemble EnsembleRules.
Import Errors.Render.
Open Scope string_scope.

(** ** Values *)

Inductive EnsembleValue :=
  | VJson (v : Value)
  | VRaw (b : Bytes)                        (** JSON kept as the worker's bytes *)
  | VBinary (data : Bytes) (content_type : string) (shape : option (list Z)) (datatype : option string)
  | VEnvelope (head : Value) (tail : Bytes).

Definition is_binary_value (v : EnsembleValue) : bool :=
  match v with VBinary _ _ _ _ => true | _ => false end.

Record StepResponseMeta := {
  srm_status_code : Z;
  srm_headers : gmap string string;
}.

(** [StepResponseMeta::from_worker]; the status is an [i32]. *)
Definition from_worker (status_code : Z) (headers : gmap string string) : option StepResponseMeta :=
  let code := if (0 <=? status_code)%Z && (status_code <=? 65535)%Z then status_code else 0%Z in
  if (code =? 0)%Z && bool_decide (headers = ∅) then None
  else Some {| srm_status_code := code; srm_headers := headers |}.

(** The outputs of a step by context key, and the worker's metadata. *)
Record StepResults := {
  st_values : list (string * EnsembleValue);
  st_meta : option StepResponseMeta;
}.

Abbreviation Ctx := (gmap string EnsembleValue) (only parsing).

(** The crates around: [serde_json]'s parser on bytes, its syntax check for raw values
    and its printer, and the base64 decoder. *)
Class Codec := {
  from_slice : Bytes -> result string Value;
  is_raw_json : Bytes -> bool;
  to_bytes : Value -> Bytes;
  show_value : Value -> string;
  base64_decode : string -> result string Bytes;
}.

Section values.
Context `{Codec}.

(** ** References *)

Inductive ResolvedRef :=
  | RefValue (v : EnsembleValue)
  | RefAbsent (key : string).

Definition dot : Ascii.ascii := "."%char.

Fixpoint walk_path (path : string) (segs : list string) (v : Value) : result AppError Value :=
  match segs with
  | [] => Ok v
  | seg :: segs =>
      if bool_decide (seg = "") then Err (Config ("empty segment in JSON path '" +:+ path +:+ "'"))
      else
        let? v := ok_or (get seg v) (Config ("path segment '" +:+ seg +:+ "' not found in '" +:+ path +:+ "'")) in
        walk_path path segs v
  end.

Definition project_json_path (v : Value) (path : string) : result AppError Value :=
  let path := default path (strip_prefix "$." path) in
  walk_path path (split_char dot path) v.

(** What follows the first segment of a reference, without its dot. *)
Definition path_after (rest : option string) (name : string) : option string :=
  (rest ≫= strip_prefix name) ≫= strip_prefix ".".

(** The key a reference reads and the path below it. *)
Definition ref_target (steps : list EnsembleStep) (r source : string) (rest : option string)
    : result AppError (string * option string) :=
  if String.eqb source "inputs" then
    let name := ref_name rest in Ok ("inputs." +:+ name, path_after rest name)
  else
    match find_step steps source ≫= es_outputs_decl with
    | Some _ => let alias := ref_name rest in Ok (source +:+ "." +:+ alias, path_after rest alias)
    | None =>
        let rest := default "" rest in
        if has_char dot rest then Err (Config ("multi-segment path '" +:+ r +:+ "' is not supported on legacy steps"))
        else Ok (source, if bool_decide (rest = "") then None else Some rest)
    end.

(** Whether a whole binary value may flow along this reference. *)
Definition declared_binary_edge (steps : list EnsembleStep) (source : string) (rest : option string) : bool :=
  if String.eqb source "request" || String.eqb source "inputs" then true
  else
    match find_step steps source ≫= es_outputs_decl, rest with
    | Some d, Some r => match index_get (first_segment r) d with
                        | Some od => bool_decide (od_ty od = TBinary)
                        | None => false
                        end
    | _, _ => false
    end.

Definition resolve_ref (steps : list EnsembleStep) (r : string) (ctx : Ctx) : result AppError ResolvedRef :=
  match ref_captures r with
  | None => Err (Config ("invalid reference: " +:+ r))
  | Some (source, rest) =>
      let? kp := ref_target steps r source rest in
      let project v f := map_err (fun _ => Config ("cannot resolve '" +:+ r +:+ "' from " +:+ show_value v))
                           (project_json_path v f) in
      match ctx !! fst kp, snd kp with
      | None, _ => Ok (RefAbsent (fst kp))
      | Some (VBinary _ _ _ _ as v), None =>
          if declared_binary_edge steps source rest then Ok (RefValue v)
          else Err (InvalidRequestBody ("cannot reference binary step output '" +:+ r +:+ "' as a whole"))
      | Some (VBinary _ _ _ _), Some _ =>
          Err (InvalidRequestBody ("cannot extract field '" +:+ r +:+ "' from binary data"))
      | Some (VJson v), None => Ok (RefValue (VJson v))
      | Some (VJson v), Some f => let? fv := project v f in Ok (RefValue (VJson fv))
      | Some (VRaw b), None => Ok (RefValue (VRaw b))
      | Some (VRaw b), Some f =>
          let? v := map_err (fun e => Internal ("step output for '" +:+ r +:+ "' is not valid JSON: " +:+ e))
                      (from_slice b) in
          let? fv := project v f in Ok (RefValue (VJson fv))
      | Some (VEnvelope _ _), _ => Err (Internal "envelope reached a DAG edge")
      end
  end.

(** ** The root of a request *)

Definition octet_stream : string := "application/octet-stream".

Definition decode_binary_marker (v : Value) : result AppError (Bytes * string) :=
  let? obj := ok_or (as_object v) (InvalidRequestBody "binary input data must be a marker object") in
  let? b64 := ok_or (index_get "$binary_b64" obj ≫= as_str)
                (InvalidRequestBody "binary marker object is missing the $binary_b64 field") in
  let? data := map_err (fun e => InvalidRequestBody ("invalid base64 in $binary_b64 marker: " +:+ e))
                 (base64_decode b64) in
  Ok (data, default octet_stream (index_get "content_type" obj ≫= as_str)).

Inductive RootInputs :=
  | RootSingle (v : EnsembleValue)
  | RootNamed (values : IndexMap EnsembleValue) (absent : list string).

Definition binary_data_size (el : Value) : option Z :=
  (get "parameters" el ≫= get "binary_data_size") ≫= value_as_u64.

(** [tail.get(offset..offset + size)]; the sum is checked. *)
Definition tail_slice (tail : Bytes) (offset size : Z) (name : string) : result AppError (Bytes * Z) :=
  let end_ := (offset + size)%Z in
  if (usize_max <? end_)%Z then Err (InvalidRequestBody "binary tail size overflow")
  else if (Z.of_nat (length tail) <? end_)%Z
  then Err (InvalidRequestBody ("envelope input '" +:+ name +:+ "': binary_data_size overruns the binary tail (R18)"))
  else Ok (take (Z.to_nat size) (drop (Z.to_nat offset) tail), end_).

(** The value of a declared element, and the offset behind it. *)
Definition element_value (d : InputDecl) (name : string) (el : Value) (tail : Bytes) (offset : Z)
    : result AppError (EnsembleValue * Z) :=
  match id_ty d, get "data" el with
  | TJson, Some data => Ok (VJson data, offset)
  | TJson, None => Err (InvalidRequestBody ("envelope input '" +:+ name +:+ "' (type json) is missing 'data'"))
  | TBinary, Some marker =>
      let? bc := decode_binary_marker marker in
      Ok (VBinary (fst bc) (snd bc) None None, offset)
  | TBinary, None =>
      let? size := ok_or (binary_data_size el)
        (InvalidRequestBody ("envelope input '" +:+ name +:+ "' (type binary) needs a size or data (R18)")) in
      let? se := tail_slice tail offset size name in
      Ok (VBinary (fst se) (default octet_stream (id_content_type d)) (id_shape d) (id_datatype d), snd se)
  end.

Fixpoint parse_elements (decl : IndexMap InputDecl) (tolerate_unknown : bool) (tail : Bytes) (els : list Value)
    (offset : Z) (values : IndexMap EnsembleValue) : result AppError (IndexMap EnsembleValue * Z) :=
  match els with
  | [] => Ok (values, offset)
  | el :: els =>
      let? name := ok_or (get "name" el ≫= as_str)
                     (InvalidRequestBody "envelope input element is missing 'name'") in
      match index_get name decl with
      | None =>
          if tolerate_unknown then
            let? offset := match binary_data_size el with
                           | Some size => let? se := tail_slice tail offset size name in Ok (snd se)
                           | None => Ok offset
                           end in
            parse_elements decl tolerate_unknown tail els offset values
          else Err (InvalidRequestBody ("envelope declares unknown input '" +:+ name +:+ "'"))
      | Some d =>
          let? vo := element_value d name el tail offset in
          if is_some (index_get name values)
          then Err (InvalidRequestBody ("envelope input '" +:+ name +:+ "' appears more than once (R18)"))
          else parse_elements decl tolerate_unknown tail els (snd vo) (values ++ [(name, fst vo)])%list
      end
  end.

(** Defaults and absent inputs, in the order of the declaration. *)
Fixpoint fill_defaults (decl : IndexMap InputDecl) (values : IndexMap EnsembleValue) (absent : list string)
    : result AppError (IndexMap EnsembleValue * list string) :=
  match decl with
  | [] => Ok (values, absent)
  | (name, d) :: decl =>
      if is_some (index_get name values) then fill_defaults decl values absent
      else if id_required d then Err (InvalidRequestBody ("envelope is missing required input '" +:+ name +:+ "' (R18)"))
      else
        match id_default d with
        | Some def => fill_defaults decl (values ++ [(name, VJson def)])%list absent
        | None => fill_defaults decl values (absent ++ [name])%list
        end
  end.

Definition parse_root_inputs (payload : EnsembleValue) (decl : option (IndexMap InputDecl)) (tolerate_unknown : bool)
    : result AppError RootInputs :=
  match decl with
  | None =>
      match payload with
      | VJson v => if is_some (get "$inputs" v)
                   then Err (InvalidRequestBody "'$inputs' is a reserved namespace (D14)")
                   else Ok (RootSingle payload)
      | VEnvelope _ _ => Err (InvalidRequestBody "container requests need an inputs declaration")
      | _ => Ok (RootSingle payload)
      end
  | Some decl =>
      let? ht := match payload with
                 | VJson v => Ok (v, [])
                 | VEnvelope head tail => Ok (head, tail)
                 | _ => Err (InvalidRequestBody "this ensemble declares named inputs (R18)")
                 end in
      let? inputs := ok_or (get "inputs" (fst ht) ≫= as_array)
        (InvalidRequestBody "declared-inputs ensemble requires a KServe envelope (R18/D31)") in
      let? vo := parse_elements decl tolerate_unknown (snd ht) inputs 0 [] in
      if negb (snd vo =? Z.of_nat (length (snd ht)))%Z
      then Err (InvalidRequestBody "binary tail has bytes beyond the declared sizes (R18)")
      else
        let? va := fill_defaults decl (fst vo) [] in
        Ok (RootNamed (fst va) (snd va))
  end.

(** ** The in-frame container *)

Definition LSB1 : Bytes := [76; 83; 66; 49]%Z.

Fixpoint to_le_bytes (n : nat) (z : Z) : Bytes :=
  match n with
  | O => []
  | S n => (z mod 256)%Z :: to_le_bytes n (z / 256)
  end.

Fixpoint from_le_bytes (b : Bytes) : Z :=
  match b with
  | [] => 0
  | x :: b => x + 256 * from_le_bytes b
  end%Z.

Definition encode_lsbe1 (head : Value) (tail : Bytes) : Bytes :=
  let head_bytes := to_bytes head in
  (LSB1 ++ to_le_bytes 8 (Z.of_nat (length head_bytes)) ++ head_bytes ++ tail)%list.

Definition malformed : AppError := InvalidRequestBody "malformed LSBE-1 envelope container (D32)".

Definition split_envelope (blob : Bytes) : result AppError (Value * option Bytes) :=
  if negb (bool_decide (take 4 blob = LSB1)) then Err malformed
  else if Nat.ltb (length blob) 12 then Err malformed
  else
    let head_end := (12 + from_le_bytes (take 8 (drop 4 blob)))%Z in
    if (usize_max <? head_end)%Z then Err malformed
    else if (Z.of_nat (length blob) <? head_end)%Z
    then Err (InvalidRequestBody "LSBE-1 envelope head length overruns the frame (D32)")
    else
      let? head := map_err (fun _ => InvalidRequestBody "LSBE-1 envelope head is not valid JSON (D32)")
                     (from_slice (take (Z.to_nat head_end - 12) (drop 12 blob))) in
      Ok (head, if (head_end =? Z.of_nat (length blob))%Z then None else Some (drop (Z.to_nat head_end) blob)).

Definition ensemble_payload_from_bytes (data : Bytes) (content_type : option string)
    : result AppError EnsembleValue :=
  if bool_decide (take 4 data = LSB1) then
    let? ht := split_envelope data in Ok (VEnvelope (fst ht) (default [] (snd ht)))
  else
    match from_slice data with
    | Ok v => Ok (VJson v)
    | Err _ => Ok (VBinary data (default octet_stream content_type) None None)
    end.

Definition bidi_envelope_frame (frame : Bytes) (is_json : bool) (ct : option string)
    : result AppError EnsembleValue :=
  if is_json then
    let? v := map_err (fun e => InvalidRequestBody ("envelope frame is not valid JSON: " +:+ e)) (from_slice frame) in
    Ok (VJson v)
  else ensemble_payload_from_bytes frame ct.
End values.

(** ** Payloads *)

(** What a fallible operation that can panic comes to. *)
Inductive Outcome (A : Type) :=
  | Done (r : result AppError A)
  | Panicked.
Arguments Done {A} _.
Arguments Panicked {A}.

Definition o_bind {A B} (o : Outcome A) (k : A -> Outcome B) : Outcome B :=
  match o with
  | Done (Ok a) => k a
  | Done (Err e) => Done (Err e)
  | Panicked => Panicked
  end.

Notation "'let*' x ':=' o 'in' k" := (o_bind o (fun x => k))
  (at level 10, x binder, o at level 100, k at level 200).

(** [l[i]], [Option::expect]. *)
Definition o_some {A} (o : option A) : Outcome A :=
  match o with Some a => Done (Ok a) | None => Panicked end.

Section steps.
Context `{MapIter} `{Codec}.

Inductive ValueSource :=
  | FromInput (v : EnsembleValue)
  | FromParam (v : Value).

(** The bytes of one value; none where the code is [unreachable!]. *)
Definition source_bytes (src : ValueSource) : option Bytes :=
  match src with
  | FromParam v | FromInput (VJson v) => Some (to_bytes v)
  | FromInput (VRaw b) => Some b
  | FromInput (VBinary _ _ _ _) | FromInput (VEnvelope _ _) => None
  end.

Definition key_le (a b : string * ValueSource) : Prop := str_leb (fst a) (fst b) = true.

#[export] Instance key_le_dec a b : Decision (key_le a b).
Proof. unfold key_le. apply _. Defined.

(** Inputs overridden by parameters, in the order of their keys. *)
Definition group_entries (resolved : gmap string EnsembleValue) (params : gmap string Value)
    : list (string * ValueSource) :=
  merge_sort key_le (map_to_list ((FromParam <$> params) ∪ (FromInput <$> resolved))).

(** Entries separated by commas. *)
Fixpoint group_body (entries : list (string * ValueSource)) : option Bytes :=
  match entries with
  | [] => Some []
  | (k, src) :: entries =>
      match source_bytes src, group_body entries with
      | Some b, Some rest =>
          Some (to_bytes (Str k) ++ [58%Z] ++ b
                ++ match entries with [] => [] | _ :: _ => 44%Z :: rest end)%list
      | _, _ => None
      end
  end.

Definition assemble_group_json (resolved : gmap string EnsembleValue) (params : gmap string Value)
    : Outcome (Bytes * option string) :=
  match group_body (group_entries resolved params) with
  | Some body => Done (Ok (([123%Z] ++ body ++ [125%Z])%list, None))
  | None => Panicked
  end.

Definition assemble_binary_passthrough (step : string) (resolved : gmap string EnsembleValue)
    (params : gmap string Value) : Outcome (Bytes * option string) :=
  if negb (bool_decide (params = ∅))
  then Done (Err (InvalidRequestBody ("step '" +:+ step +:+ "': params cannot be combined with a binary input (E3/R9)")))
  else
    match map_iter resolved with
    | (_, VBinary data ct _ _) :: _ => Done (Ok (data, Some ct))
    | _ => Panicked
    end.

Definition binary_count (resolved : gmap string EnsembleValue) : nat :=
  count_if (fun kv => is_binary_value (snd kv)) (map_iter resolved).

Definition assemble_step_payload (step : string) (resolved : gmap string EnsembleValue) (params : gmap string Value)
    (mode : option InputMode) : Outcome (Bytes * option string) :=
  match mode with
  | Some GroupJson => assemble_group_json resolved params
  | Some BinaryPassThrough => assemble_binary_passthrough step resolved params
  | None =>
      if Nat.eqb (binary_count resolved) 0 then assemble_group_json resolved params
      else if Nat.eqb (size resolved) 1 && Nat.eqb (binary_count resolved) 1
      then assemble_binary_passthrough step resolved params
      else Done (Err (InvalidRequestBody ("step '" +:+ step +:+ "' has mixed JSON/Binary inputs (Option B scope)")))
  end.

(** ** Responses *)

Record SingleResponse := {
  sp_status : option (string * string);      (** code and message *)
  sp_status_code : Z;
  sp_headers : gmap string string;
  sp_media_type : string;
  sp_data : Bytes;
}.

(** A worker's response: none for any payload other than a single one. *)
Abbreviation Response := (option SingleResponse) (only parsing).

Definition is_binary_media (r : SingleResponse) : bool :=
  negb (bool_decide (sp_media_type r = "")) && negb (starts_with "application/json" (sp_media_type r)).

Definition parse_step_output (step : string) (r : SingleResponse) : result AppError EnsembleValue :=
  if is_binary_media r then Ok (VBinary (sp_data r) (sp_media_type r) None None)
  else if bool_decide (sp_data r = []) then Ok (VJson (Object []))
  else
    let? v := map_err (fun e => Internal ("ensemble step " +:+ step +:+ " returned invalid JSON: " +:+ e))
                (from_slice (sp_data r)) in
    Ok (VJson v).

(** The message of a status, unless it is empty. *)
Definition status_message (r : SingleResponse) (otherwise : string) : string :=
  match sp_status r with
  | Some (_, m) => if bool_decide (m = "") then otherwise else m
  | None => otherwise
  end.

(** The model error of a numeric status. *)
Definition model_error (r : SingleResponse) (http_status : Z) : AppError :=
  let data := if bool_decide (sp_data r = []) then Object []
              else match from_slice (sp_data r) with Ok v => v | Err _ => Object [] end in
  let field k := (get "error" data ≫= get k) ≫= as_str in
  ModelError {| med_status_code := http_status;
                med_error_type := default "model_error" (field "type");
                med_detail := default "model error" (field "message");
                med_code := field "code"; med_param := field "param";
                med_headers := if bool_decide (sp_headers r = ∅) then None else Some (sp_headers r) |}.

Definition unary_response_to_value (step : string) (response : Response) (raw_eligible : bool)
    : result AppError (EnsembleValue * option StepResponseMeta) :=
  match response with
  | None => Err (WorkerCrashed "unexpected response type")
  | Some r =>
      let code := match sp_status r with Some (c, _) => c | None => "Ok" end in
      let meta := from_worker (sp_status_code r) (sp_headers r) in
      if String.eqb code "Ok" then
        if raw_eligible && negb (is_binary_media r) && negb (bool_decide (sp_data r = [])) && is_raw_json (sp_data r)
        then Ok (VRaw (sp_data r), meta)
        else let? v := parse_step_output step r in Ok (v, meta)
      else if String.eqb code "Error" then
        let msg := status_message r "unknown worker error" in
        match parse_u16 msg with
        | Some http_status => Err (model_error r http_status)
        | None => Err (WorkerCrashed msg)
        end
      else Err (WorkerCrashed (status_message r "ensemble step inference error"))
  end.

(** One declared output of a response; declared steps never keep raw bytes. *)
Definition materialize_alias (step : string) (raw : EnsembleValue) (alias : string) (d : StepOutputDecl)
    : Outcome EnsembleValue :=
  match raw, od_ty d with
  | VBinary data ct shape dt, TBinary =>
      match od_path d with
      | Some _ => Done (Err (Internal ("step '" +:+ step +:+ "' alias '" +:+ alias +:+ "': a path needs a JSON response")))
      | None => Done (Ok (VBinary data ct shape dt))
      end
  | VBinary _ _ _ _, TJson =>
      Done (Err (InvalidRequestBody ("step '" +:+ step +:+ "' alias '" +:+ alias +:+ "' is declared json (I3)")))
  | VJson v, TBinary => Done (
      let? path := ok_or (od_path d)
        (InvalidRequestBody ("step '" +:+ step +:+ "' alias '" +:+ alias +:+ "' is declared binary (I3)")) in
      let? marker := map_err (fun _ => InvalidRequestBody ("step '" +:+ step +:+ "' alias '" +:+ alias
                                        +:+ "': path '" +:+ path +:+ "' not found in the response"))
                       (project_json_path v path) in
      let? bc := decode_binary_marker marker in
      Ok (VBinary (fst bc) (snd bc) None None))
  | VJson v, TJson => Done (
      let path := default alias (od_path d) in
      let? projected := map_err (fun _ => InvalidRequestBody ("step '" +:+ step +:+ "' alias '" +:+ alias
                                           +:+ "': path '" +:+ path +:+ "' not found in the response"))
                          (project_json_path v path) in
      Ok (VJson projected))
  | VEnvelope _ _, _ => Done (Err (Internal "envelope reached step materialization"))
  | VRaw _, _ => Panicked
  end.

Fixpoint materialize_aliases (step : string) (raw : EnsembleValue) (decl : IndexMap StepOutputDecl)
    : Outcome (list (string * EnsembleValue)) :=
  match decl with
  | [] => Done (Ok [])
  | (alias, d) :: decl =>
      let* v := materialize_alias step raw alias d in
      let* rest := materialize_aliases step raw decl in
      Done (Ok ((step +:+ "." +:+ alias, v) :: rest))
  end.

Definition materialize_step_outputs (s : EnsembleStep) (raw : EnsembleValue) (meta : option StepResponseMeta)
    : Outcome StepResults :=
  match es_outputs_decl s with
  | None => Done (Ok {| st_values := [(es_name s, raw)]; st_meta := meta |})
  | Some decl =>
      let* raw := match raw with
                  | VRaw b => Done (let? v := map_err (fun e => Internal ("step '" +:+ es_name s
                                                  +:+ "' raw output is not valid JSON: " +:+ e)) (from_slice b) in
                              Ok (VJson v))
                  | other => Done (Ok other)
                  end in
      let* values := materialize_aliases (es_name s) raw decl in
      Done (Ok {| st_values := values; st_meta := meta |})
  end.

Definition is_retryable_error (e : AppError) : bool :=
  match e with
  | InferenceTimeout _ => true
  | ModelError d => (500 <=? med_status_code d)%Z
  | _ => false
  end.

(** ** Conditions and selectors *)

Record EnsembleExecOpts := {
  op_client_ip : string;
  op_deadline : option Z;
  op_deadline_client_specified : bool;
  op_dag_selector : option string;
  op_request_headers : gmap string string;
  op_request_body : option Bytes;
  op_request_content_type : option string;
}.

Definition with_selector (sel : option string) (o : EnsembleExecOpts) : EnsembleExecOpts :=
  {| op_client_ip := op_client_ip o; op_deadline := op_deadline o;
     op_deadline_client_specified := op_deadline_client_specified o; op_dag_selector := sel;
     op_request_headers := op_request_headers o; op_request_body := op_request_body o;
     op_request_content_type := op_request_content_type o |}.

Definition eval_when (e : WhenExpr) (opts : EnsembleExecOpts) (ctx : Ctx) : result AppError bool :=
  let? left := match we_target e with
               | WDag => Ok (Str <$> op_dag_selector opts)
               | WClientIp => Ok (Some (Str (op_client_ip opts)))
               | WInput name path =>
                   match ctx !! ("inputs." +:+ name) with
                   | None => Ok None
                   | Some (VJson v) =>
                       match path with
                       | None => Ok (Some v)
                       | Some p => let? v := map_err (fun _ => InvalidRequestBody "when path") (project_json_path v p) in
                                   Ok (Some v)
                       end
                   | Some _ => Err (InvalidRequestBody ("when cannot resolve binary input '" +:+ name +:+ "' (R16)"))
                   end
               end in
  let left := default Null left in
  Ok (match we_op e with
      | WEq => value_eqb left (we_literal e)
      | WNeq => negb (value_eqb left (we_literal e))
      | WContains =>
          match left, we_literal e with
          | Str s, Str sub => contains_str sub s
          | Array a, l => existsb (fun x => value_eqb x l) a
          | _, _ => false
          end
      | WIn => match we_literal e with Array a => existsb (fun x => value_eqb x left) a | _ => false end
      end).

Definition when_passes (s : EnsembleStep) (opts : EnsembleExecOpts) (ctx : Ctx) : result AppError bool :=
  match es_when s with None => Ok true | Some e => eval_when e opts ctx end.

Definition select_dag_set (plan : LoadedPlan) (selector : option string) : result AppError EnsemblePlan :=
  match plan with
  | SinglePlan p =>
      match selector with
      | Some s => Err (InvalidRequestBody ("x-lite-dag selector '" +:+ s
                        +:+ "' provided but this ensemble declares no dags (D22)"))
      | None => Ok p
      end
  | DagSets sets _ =>
      let name := default "default" selector in
      ok_or (index_get name sets)
        (InvalidRequestBody ("unknown dag '" +:+ name +:+ "' — declared sets: " +:+ join_str ", " (map fst sets)
                             +:+ " (D22)"))
  end.

Definition validate_dag_selector (value : string) : result AppError string :=
  if bool_decide (value = "") || Nat.ltb 64 (String.length value)
     || negb (all_chars (fun c => is_alphanumeric c || eq_char c "-"%char || eq_char c "_"%char) value)
  then Err (InvalidRequestBody ("invalid x-lite-dag value '" +:+ value +:+ "' (D22)"))
  else Ok value.

(** A walk that ends with nothing where a field is missing. *)
Fixpoint walk_fields (path : list string) (v : Value) : option Value :=
  match path with
  | [] => Some v
  | seg :: path => get seg v ≫= walk_fields path
  end.

Definition resolve_dag_selector_from_value (payload : EnsembleValue) (path : list string)
    : result AppError (option string) :=
  match payload with
  | VBinary _ _ _ _ | VEnvelope _ _ => Ok None
  | VJson _ | VRaw _ =>
      let source_ref := "$request." +:+ join_str "." path in
      let? root := match payload with
                   | VRaw b => map_err (fun e => InvalidRequestBody ("dag_selector '" +:+ source_ref
                                          +:+ "': request body is not valid JSON: " +:+ e +:+ " (D41)")) (from_slice b)
                   | VJson v => Ok v
                   | _ => Ok Null
                   end in
      if is_array root then
        Err (InvalidRequestBody ("dag_selector '" +:+ source_ref +:+ "': request root is a JSON array (D41)"))
      else
        match walk_fields path root with
        | None | Some Null => Ok None
        | Some (Str s) => let? v := validate_dag_selector s in Ok (Some v)
        | Some _ => Err (InvalidRequestBody ("dag_selector '" +:+ source_ref +:+ "' resolved to a non-string value (D41)"))
        end
  end.

(** ** The response *)

Definition select_output_field (step : string) (v : EnsembleValue) (field : option string) : Outcome EnsembleValue :=
  match field with
  | None => Done (Ok v)
  | Some f =>
      let extract j := let? fv := ok_or (get f j) (Config ("ensemble.output field '" +:+ f +:+ "' not found in step '"
                                                     +:+ step +:+ "' output")) in Ok (VJson fv) in
      match v with
      | VJson j => Done (extract j)
      | VRaw b => Done (let? j := map_err (fun e => Internal ("ensemble step '" +:+ step
                                             +:+ "' output is not valid JSON: " +:+ e)) (from_slice b) in extract j)
      | VBinary _ _ _ _ => Done (Err (InvalidRequestBody ("ensemble.output field '" +:+ f
                                        +:+ "' cannot be extracted from binary step output '" +:+ step +:+ "'")))
      | VEnvelope _ _ => Panicked
      end
  end.

Inductive EnsembleOutcome :=
  | OUnary (v : EnsembleValue) (meta : option StepResponseMeta)
  | OStream (nodes : list nat) (ctx : Ctx).         (** the stream of these steps is opened *)

(** The element of one sink, and what it adds to the tail. *)
Definition sink_element (alias : string) (v : option EnsembleValue) : result AppError (Value * Bytes) :=
  match v with
  | None => Ok (Object [("name", Str alias); ("data", Null)], [])
  | Some (VJson j) => Ok (Object [("name", Str alias); ("data", j)], [])
  | Some (VRaw b) =>
      let? j := map_err (fun e => Internal ("ensemble outputs alias '" +:+ alias +:+ "' value is not valid JSON: " +:+ e))
                  (from_slice b) in
      Ok (Object [("name", Str alias); ("data", j)], [])
  | Some (VBinary b _ shape datatype) =>
      Ok (Object ([("name", Str alias);
                   ("parameters", Object [("binary_data_size", Num (PosInt (Z.of_nat (length b))))])]
                  ++ match shape with
                     | Some dims => [("shape", Array (map (fun d => Num (if (0 <=? d)%Z then PosInt d else NegInt d)) dims))]
                     | None => []
                     end
                  ++ match datatype with Some dt => [("datatype", Str dt)] | None => [] end)%list, b)
  | Some (VEnvelope _ _) => Err (Internal "envelope reached the response builder")
  end.

Fixpoint build_sinks (steps : list EnsembleStep) (ctx : Ctx) (outputs : IndexMap string)
    : result AppError (list Value * Bytes) :=
  match outputs with
  | [] => Ok ([], [])
  | (alias, r) :: outputs =>
      let? rr := resolve_ref steps r ctx in
      let? et := sink_element alias (match rr with RefValue v => Some v | RefAbsent _ => None end) in
      let? rest := build_sinks steps ctx outputs in
      Ok (fst et :: fst rest, (snd et ++ snd rest)%list)
  end.

Definition build_response (plan : EnsemblePlan) (model : string) (ctx : Ctx) (metas : gmap string StepResponseMeta)
    : Outcome EnsembleOutcome :=
  match pl_outputs plan with
  | None =>
      let* s := o_some (pl_steps plan !! pl_output_step plan) in
      let output := es_name s in
      let* v := Done (ok_or (ctx !! output) (Internal "ensemble produced no output")) in
      let* v := select_output_field output v (pl_output_field plan) in
      Done (Ok (OUnary v (metas !! output)))
  | Some outputs =>
      Done (let? et := build_sinks (pl_steps plan) ctx outputs in
            let head := Object [("model_name", Str model); ("outputs", Array (fst et))] in
            Ok (OUnary (if bool_decide (snd et = []) then VJson head else VEnvelope head (snd et)) None))
  end.
End steps.

(** ** Versions *)

(** The versions a request has resolved; [sn_reads] counts its reads of the registry,
    whose active versions may change in between. *)
Record VersionSnapshot := {
  sn_resolved : gmap string string;
  sn_reads : nat;
}.

Definition no_versions : VersionSnapshot := {| sn_resolved := ∅; sn_reads := 0 |}.

(** Computations on the snapshot that can fail or panic. *)
Definition M (A : Type) : Type := VersionSnapshot -> Outcome A * VersionSnapshot.

Definition m_ret {A} (a : A) : M A := fun sn => (Done (Ok a), sn).
Definition m_lift {A} (r : result AppError A) : M A := fun sn => (Done r, sn).
Definition m_outcome {A} (o : Outcome A) : M A := fun sn => (o, sn).

Definition m_bind {A B} (m : M A) (k : A -> M B) : M B := fun sn =>
  match m sn with
  | (Done (Ok a), sn) => k a sn
  | (Done (Err e), sn) => (Done (Err e), sn)
  | (Panicked, sn) => (Panicked, sn)
  end.

Notation "'let!' x ':=' m 'in' k" := (m_bind m (fun x => k))
  (at level 10, x binder, m at level 100, k at level 200).

(** ** Nesting and deadlines *)

Definition contains_ancestor (chain : list (string * string)) (model version : string) : bool :=
  existsb (fun mv => String.eqb (fst mv) model && String.eqb (snd mv) version) chain.

Definition extend_ancestor_chain (chain : list (string * string)) (model version : string)
    : list (string * string) := (chain ++ [(model, version)])%list.

Definition MAX_ENSEMBLE_NESTING_DEPTH : nat := 8.

Definition depth_exceeded : AppError := InvalidRequestBody "ensemble nesting depth limit (8) exceeded".

(** [now] and the sum are [i64]; the sum saturates. *)
Definition step_effective_deadline (now : Z) (parent : option Z) (timeout_secs : option spec_float) : option Z :=
  match timeout_secs with
  | None => parent
  | Some t =>
      let step := Z.min i64_max (now + as_i64 (f64_mul t (f64_of_Z 1000000000))) in
      match parent with
      | Some p => Some (Z.min p step)
      | None => Some step
      end
  end.

Definition seed_forwarded_headers (allowlist : list string) (pool : gmap string string) : gmap string string :=
  foldl (fun out name => match pool !! name with Some v => <[name := v]> out | None => out end) ∅ allowlist.

(** ** What surrounds a run *)

(** A request to a worker: its model, version and step-scoped id, its payload, headers
    and deadline. *)
Record Call := {
  cl_model : string;
  cl_version : string;
  cl_request_id : string;
  cl_payload : Bytes;
  cl_headers : gmap string string;
  cl_deadline : option Z;
}.

Inductive Answer :=
  | QueueRefuses                  (** [QueueError::Full] *)
  | QueueGone
  | TimedOut
  | ChannelClosed
  | Answered (r : option SingleResponse).

(** One attempt: the answer, and what was left of the step's deadline when it came. *)
Record Attempt := {
  at_answer : Answer;
  at_remaining : option Duration;
}.

(** A sub-model when a step asks for it: the automatic load, whether it became ready, and
    its entry: an ensemble, or a number of workers. *)
Record SubModel := {
  sb_autoload : result AppError unit;
  sb_ready : bool;
  sb_entry : option (bool * nat);
}.

(** Requests and steps are named by their ids. *)
Class Environment := {
  active_version : nat -> string -> option string;
  get_plan : string -> string -> result AppError LoadedPlan;
  sub_model : string -> SubModel;
  now_at : string -> Z;
  answers : Call -> nat -> Attempt;
  trace_headers : string -> gmap string string;
  nested_times_out : string -> bool;
  run_times_out : string -> bool;
  completion_order : string -> nat -> list nat -> list nat;
  completion_perm : forall rid layer l, completion_order rid layer l ≡ₚ l;
  capacity : string -> nat -> bool;
}.

Section execution.
Context `{MapIter} `{Codec} `{Environment}.

(** [VersionSnapshot::resolve]. *)
Definition resolve_version (s : EnsembleStep) : M string := fun sn =>
  match es_version s, sn_resolved sn !! es_model s with
  | Some v, _ | None, Some v => (Done (Ok v), sn)
  | None, None =>
      match active_version (sn_reads sn) (es_model s) with
      | Some v => (Done (Ok v), {| sn_resolved := <[es_model s := v]> (sn_resolved sn); sn_reads := S (sn_reads sn) |})
      | None => (Done (Err (ModelNotFound ("sub-model '" +:+ es_model s +:+ "' has no active version"))),
                 {| sn_resolved := sn_resolved sn; sn_reads := S (sn_reads sn) |})
      end
  end.

(** ** Steps *)

(** The inputs of a step by name. *)
Fixpoint resolve_inputs (s : EnsembleStep) (steps : list EnsembleStep) (ctx : Ctx) (inputs : list (string * string))
    (resolved : gmap string EnsembleValue) : result AppError (gmap string EnsembleValue) :=
  match inputs with
  | [] => Ok resolved
  | (key, r) :: inputs =>
      let? rr := resolve_ref steps r ctx in
      match rr with
      | RefValue v => resolve_inputs s steps ctx inputs (<[key := v]> resolved)
      | RefAbsent name => Err (Internal ("step '" +:+ es_name s +:+ "' resolved absent input '" +:+ name +:+ "'"))
      end
  end.

(** The payload of a step and its content type. *)
Definition step_payload (plan : EnsemblePlan) (i : nat) (s : EnsembleStep) (ctx : Ctx) (opts : EnsembleExecOpts)
    : Outcome (Bytes * option string) :=
  if es_passthrough s then
    Done (let? body := ok_or (op_request_body opts)
            (Internal ("step '" +:+ es_name s +:+ "': passthrough requires a request body")) in
          Ok (body, op_request_content_type opts))
  else
    match resolve_inputs s (pl_steps plan) ctx (map_iter (es_inputs s)) ∅ with
    | Err e => Done (Err e)
    | Ok resolved => assemble_step_payload (es_name s) resolved (es_params s) (default None (pl_input_modes plan !! i))
    end.

(** What an attempt comes to; [raw] is [step_raw_eligible[step_idx]], read when an answer
    has come. *)
Definition attempt_result (s : EnsembleStep) (raw : option bool) (a : Answer)
    : Outcome (EnsembleValue * option StepResponseMeta) :=
  match a with
  | TimedOut => Done (Err (InferenceTimeout ("ensemble step " +:+ es_name s +:+ " timed out")))
  | ChannelClosed => Done (Err (InferenceTimeout ("ensemble step " +:+ es_name s +:+ " response channel closed")))
  | Answered r => let* raw := o_some raw in Done (unary_response_to_value (es_name s) r raw)
  | QueueRefuses | QueueGone => Done (Err (Internal "not submitted"))
  end.

Definition ms (n : Z) : Duration := (n * 1000000)%Z.

(** The attempts of a step; [more] is what remains of its retries. *)
Fixpoint attempts (more : nat) (s : EnsembleStep) (raw : option bool) (c : Call) (n : nat) (backoff : Duration)
    : Outcome (EnsembleValue * option StepResponseMeta) :=
  let a := answers c n in
  match at_answer a with
  | QueueRefuses => Done (Err (QueueFull ("Queue full for " +:+ cl_model c +:+ " " +:+ cl_version c)))
  | QueueGone => Done (Err (ModelNotReady ("Queue not available for " +:+ cl_model c +:+ " " +:+ cl_version c)))
  | ans =>
      match attempt_result s raw ans, more with
      | Panicked, _ => Panicked
      | Done (Ok r), _ => Done (Ok r)
      | Done (Err e), S more =>
          if is_retryable_error e && negb match at_remaining a with Some rem => (rem <? backoff)%Z | None => false end
          then attempts more s raw c (S n) (Z.min (2 * backoff) (ms 500))
          else Done (Err e)
      | Done (Err e), O => Done (Err e)
      end
  end.

(** A worker's step. *)
Definition call_worker (plan : EnsemblePlan) (i : nat) (s : EnsembleStep) (version rid : string) (workers : nat)
    (payload : Bytes) (content_type : option string) (deadline : option Z) (opts : EnsembleExecOpts)
    : Outcome StepResults :=
  if Nat.eqb workers 0 then Done (Err (WorkerCrashed (es_model s +:+ " has no workers")))
  else
    let forwarded := seed_forwarded_headers (es_forward_headers s) (op_request_headers opts) in
    let headers := trace_headers rid
                   ∪ match content_type with Some ct => <["content-type" := ct]> forwarded | None => forwarded end in
    let c := {| cl_model := es_model s; cl_version := version; cl_request_id := rid; cl_payload := payload;
                cl_headers := headers; cl_deadline := deadline |} in
    let* vm := attempts (Z.to_nat (es_retries s)) s (pl_step_raw_eligible plan !! i) c 0 (ms 50) in
    materialize_step_outputs s (fst vm) (snd vm).

(** The message of a selector's error names the field it came from. *)
Definition select_from_body (plan : LoadedPlan) (selector : option string) (path : list string)
    : result AppError EnsemblePlan :=
  map_err (fun e => match e, selector with
                    | InvalidRequestBody m, Some _ =>
                        InvalidRequestBody (m +:+ " — resolved from body field '$request." +:+ join_str "." path
                                            +:+ "' (D41)")
                    | _, _ => e
                    end) (select_dag_set plan selector).

(** The set of a nested ensemble that runs, its selector, and the payload read as JSON
    unless it has a content type. *)
Definition nested_plan (s : EnsembleStep) (version : string) (payload : Bytes) (content_type : option string)
    : result AppError (EnsemblePlan * option string * option Value) :=
  let? container := get_plan (es_model s) version in
  let? value := match content_type with
                | Some _ => Ok None
                | None => let? v := map_err (fun e => Internal ("ensemble step " +:+ es_name s
                                                         +:+ " payload reparse failed: " +:+ e)) (from_slice payload) in
                          Ok (Some v)
                end in
  let? selector := match container, value with
                   | DagSets _ (Some path), Some v => resolve_dag_selector_from_value (VJson v) path
                   | _, _ => Ok None
                   end in
  let? child := match container with
                | DagSets _ (Some path) => select_from_body container selector path
                | _ => select_dag_set container selector
                end in
  Ok (child, selector, value).

(** The root of the nested run. *)
Definition nested_root (s : EnsembleStep) (child : EnsemblePlan) (payload : Bytes) (content_type : option string)
    (value : option Value) : Outcome EnsembleValue :=
  match content_type with
  | Some ct => Done (Ok (VBinary payload ct None None))
  | None =>
      let* v := o_some value in
      match pl_inputs_decl child, v with
      | None, _ => Done (Ok (VJson v))
      | Some _, Object m =>
          Done (Ok (VJson (Object [("inputs", Array (map (fun nv => Object [("data", snd nv); ("name", Str (fst nv))]) m))])))
      | Some _, _ => Done (Err (InvalidRequestBody ("nested ensemble '" +:+ es_model s +:+ "' declares inputs (R17)")))
      end
  end.

(** The root and the options of a nested ensemble. *)
Definition nested_request (s : EnsembleStep) (version : string) (payload : Bytes) (content_type : option string)
    (opts : EnsembleExecOpts) : Outcome (EnsembleValue * EnsembleExecOpts) :=
  let* '(child, selector, value) := Done (nested_plan s version payload content_type) in
  let* o := o_some (pl_steps child !! pl_output_step child) in
  if es_stream o || negb (bool_decide (pl_chains child = []))
  then Done (Err (InvalidRequestBody ("nested ensemble '" +:+ es_model s +:+ "' contains a streaming step (D4)")))
  else
    let* root := nested_root s child payload content_type value in
    Done (Ok (root, {| op_client_ip := op_client_ip opts; op_deadline := op_deadline opts;
                       op_deadline_client_specified := false; op_dag_selector := selector;
                       op_request_headers := op_request_headers opts; op_request_body := Some payload;
                       op_request_content_type := content_type |})).

(** A nested run: model, version, root, request id, options and ancestors. *)
Abbreviation Nested :=
  (string -> string -> EnsembleValue -> string -> EnsembleExecOpts -> list (string * string) -> M EnsembleOutcome)
  (only parsing).

Definition execute_step (nested : Nested) (plan : EnsemblePlan) (i : nat) (s : EnsembleStep) (ctx : Ctx)
    (request_id : string) (opts : EnsembleExecOpts) (ancestors : list (string * string)) : M StepResults :=
  let rid := request_id +:+ ":" +:+ es_name s in
  let! version := resolve_version s in
  let deadline := step_effective_deadline (now_at rid) (op_deadline opts) (es_timeout_secs s) in
  if bool_decide (remaining (now_at rid) deadline = Some 0%Z)
  then m_lift (Err (InferenceTimeout ("ensemble step " +:+ es_name s +:+ ": step timeout exhausted before submit")))
  else
    let! pc := m_outcome (step_payload plan i s ctx opts) in
    let sub := sub_model rid in
    let! _ := m_lift (sb_autoload sub) in
    if negb (sb_ready sub)
    then m_lift (Err (ModelNotReady ("sub-model " +:+ es_model s +:+ " v" +:+ version +:+ " is not ready")))
    else
      match sb_entry sub with
      | None => m_lift (Err (ModelNotFound (es_model s +:+ " version " +:+ version)))
      | Some (false, workers) =>
          m_outcome (call_worker plan i s version rid workers (fst pc) (snd pc) deadline opts)
      | Some (true, _) =>
          if contains_ancestor ancestors (es_model s) version
          then m_lift (Err (InvalidRequestBody ("ensemble recursion detected: " +:+ es_model s +:+ " v" +:+ version)))
          else
            let! ro := m_outcome (nested_request s version (fst pc) (snd pc) opts) in
            if is_some (remaining (now_at rid) deadline) && nested_times_out rid
            then m_lift (Err (InferenceTimeout ("ensemble step " +:+ es_name s +:+ " timed out")))
            else
              let! outcome := nested (es_model s) version (fst ro) rid (snd ro) ancestors in
              match outcome with
              | OUnary v meta => m_outcome (materialize_step_outputs s v meta)
              | OStream _ _ => m_lift (Err (Internal "nested ensemble returned a stream (D4 violation)"))
              end
      end.

(** ** Layers *)

(** The keys of the context a step may read. *)
Definition select_ctx_keys (ctx : Ctx) (keys : list string) : Ctx :=
  list_to_map (omap (fun k => (fun v => (k, v)) <$> ctx !! k) keys).

(** Whether a step runs: its condition holds and no optional input of it is absent; then
    the keys it reads are looked up and its version is resolved. *)
Definition build_step (plan : EnsemblePlan) (i : nat) (s : EnsembleStep) (ctx : Ctx) (absent : list string)
    (opts : EnsembleExecOpts) : M bool :=
  let! passes := m_lift (when_passes s opts ctx) in
  if negb passes then m_ret false
  else
    let! names := m_outcome (o_some (pl_conditional_refs plan !! i)) in
    if existsb (fun n => bool_decide (n ∈ absent)) names then m_ret false
    else
      let! _ := m_outcome (o_some (pl_step_dep_keys plan !! i)) in
      let! _ := resolve_version s in m_ret true.

Fixpoint build_layer (plan : EnsemblePlan) (layer : list nat) (ctx : Ctx) (absent : list string)
    (opts : EnsembleExecOpts) : M (list nat) :=
  match layer with
  | [] => m_ret []
  | i :: layer =>
      match pl_steps plan !! i with
      | None => m_outcome Panicked
      | Some s =>
          let! runs := build_step plan i s ctx absent opts in
          let! rest := build_layer plan layer ctx absent opts in
          m_ret (if runs then i :: rest else rest)
      end
  end.

Abbreviation Results := (gmap string EnsembleValue * gmap string StepResponseMeta)%type (only parsing).

(** A completed step's outputs land in the context; a failure is levels out if the step
    may be skipped. *)
Definition handle_step_result (s : EnsembleStep) (r : result AppError StepResults) (cm : Results)
    : result AppError Results :=
  match r with
  | Ok res =>
      Ok (foldl (fun c kv => <[fst kv := snd kv]> c) (fst cm) (st_values res),
          match st_meta res with Some m => <[es_name s := m]> (snd cm) | None => snd cm end)
  | Err e => if is_skip s then Ok cm else Err e
  end.

(** The steps of a layer in the order they complete; all see the context [ctx] of the
    layer's start, and the first failure drops the rest. *)
Fixpoint drive_steps (nested : Nested) (plan : EnsemblePlan) (order : list nat) (ctx : Ctx) (request_id : string)
    (opts : EnsembleExecOpts) (ancestors : list (string * string)) (cm : Results) : M Results := fun sn =>
  match order with
  | [] => (Done (Ok cm), sn)
  | i :: order =>
      match pl_steps plan !! i with
      | None => (Panicked, sn)
      | Some s =>
          match execute_step nested plan i s (select_ctx_keys ctx (default [] (pl_step_dep_keys plan !! i)))
                  request_id opts ancestors sn with
          | (Panicked, sn) => (Panicked, sn)
          | (Done r, sn) =>
              match handle_step_result s r cm with
              | Ok cm => drive_steps nested plan order ctx request_id opts ancestors cm sn
              | Err e => (Done (Err e), sn)
              end
          end
      end
  end.

Fixpoint layers_run (nested : Nested) (plan : EnsemblePlan) (layers : list (list nat)) (k : nat)
    (absent : list string) (request_id : string) (opts : EnsembleExecOpts) (ancestors : list (string * string))
    (cm : Results) : M Results :=
  match layers with
  | [] => m_ret cm
  | layer :: layers =>
      let! runs := build_layer plan layer (fst cm) absent opts in
      let! cm := drive_steps nested plan (completion_order request_id k runs) (fst cm) request_id opts ancestors cm in
      layers_run nested plan layers (S k) absent request_id opts ancestors cm
  end.

(** The layers within the deadline of the request. *)
Definition run_layers (nested : Nested) (plan : EnsemblePlan) (layers : list (list nat)) (absent : list string)
    (model version request_id : string) (opts : EnsembleExecOpts) (ancestors : list (string * string))
    (cm : Results) : M Results :=
  if is_some (remaining (now_at request_id) (op_deadline opts)) && run_times_out request_id
  then m_lift (Err (InferenceTimeout ("ensemble " +:+ model +:+ " " +:+ version +:+ " exceeded total deadline")))
  else layers_run nested plan layers 0 absent request_id opts ancestors cm.

(** ** Requests *)

(** The set a request runs, and its options with the selector that chose it. *)
Definition choose_set (plan : LoadedPlan) (payload : EnsembleValue) (opts : EnsembleExecOpts)
    : result AppError (EnsemblePlan * EnsembleExecOpts) :=
  match plan with
  | SinglePlan _ => let? p := select_dag_set plan (op_dag_selector opts) in Ok (p, opts)
  | DagSets _ dag_selector =>
      match op_dag_selector opts, dag_selector with
      | None, Some path =>
          let? from_body := resolve_dag_selector_from_value payload path in
          let opts := with_selector (Some (default "default" from_body)) opts in
          let? p := match from_body with
                    | Some _ => select_from_body plan (op_dag_selector opts) path
                    | None => select_dag_set plan (op_dag_selector opts)
                    end in
          Ok (p, opts)
      | sel, _ =>
          let opts := with_selector (Some (default "default" sel)) opts in
          let? p := select_dag_set plan (op_dag_selector opts) in Ok (p, opts)
      end
  end.

Definition is_dags_form (plan : LoadedPlan) : bool :=
  match plan with DagSets _ _ => true | SinglePlan _ => false end.

(** The context a run starts with. *)
Definition root_context (r : RootInputs) : gmap string EnsembleValue * list string :=
  match r with
  | RootSingle v => ({[ "request" := v ]}, [])
  | RootNamed values absent => (foldl (fun c nv => <["inputs." +:+ fst nv := snd nv]> c) ∅ values, absent)
  end.

(** The layers before the stream of these steps. *)
Definition pre_layers (plan : EnsemblePlan) (chain : list nat) : list (list nat) :=
  List.filter (fun l => negb (bool_decide (l = [])))
    (map (List.filter (fun i => negb (bool_decide (i ∈ chain)))) (pl_layers plan)).

Definition tail_layers (plan : EnsemblePlan) : result AppError (list (list nat)) :=
  match list_find (fun l => pl_output_step plan ∈ l) (pl_layers plan) with
  | Some (k, _) => Ok (take k (pl_layers plan))
  | None => Err (Internal "output step missing from layers")
  end.

Definition capacity_exceeded : AppError :=
  StreamingCapacityExceeded "concurrent streaming ensemble DAG limit reached (429)".

(** One run at a nesting level; [levels] levels are allowed below and including it. *)
Definition run_plan (nested : Nested) (model version : string) (plan : EnsemblePlan) (dags : bool)
    (payload : EnsembleValue) (request_id : string) (opts : EnsembleExecOpts) (ancestors : list (string * string))
    : M EnsembleOutcome :=
  let! root := m_lift (parse_root_inputs payload (pl_inputs_decl plan) dags) in
  let '(ctx, absent) := root_context root in
  let go layers := run_layers nested plan layers absent model version request_id opts ancestors (ctx, ∅) in
  let! tail := m_outcome (o_some (pl_steps plan !! pl_output_step plan)) in
  if negb (es_stream tail) then
    let! cm := go (pl_layers plan) in
    m_outcome (build_response plan model (fst cm) (snd cm))
  else
    match pl_chains plan with
    | chain :: _ =>
        let! cm := go (pre_layers plan chain) in
        if capacity request_id (length chain) then m_ret (OStream chain (fst cm))
        else m_lift (Err capacity_exceeded)
    | [] =>
        let! layers := m_lift (tail_layers plan) in
        let! cm := go layers in
        if capacity request_id 1 then m_ret (OStream [pl_output_step plan] (fst cm))
        else m_lift (Err capacity_exceeded)
    end.

Fixpoint execute_ensemble_inner (levels : nat) (model version : string) (payload : EnsembleValue) (request_id : string)
    (opts : EnsembleExecOpts) (ancestors : list (string * string)) : M EnsembleOutcome :=
  match levels with
  | O => m_lift (Err depth_exceeded)
  | S levels =>
      let ancestors := extend_ancestor_chain ancestors model version in
      let! plan := m_lift (get_plan model version) in
      let! po := m_lift (choose_set plan payload opts) in
      run_plan (execute_ensemble_inner levels) model version (fst po) (is_dags_form plan) payload request_id (snd po)
        ancestors
  end.

Definition execute_ensemble (model version : string) (payload : EnsembleValue) (request_id : string)
    (opts : EnsembleExecOpts) : Outcome EnsembleOutcome :=
  fst (execute_ensemble_inner MAX_ENSEMBLE_NESTING_DEPTH model version payload request_id opts [] no_versions).
End execution.
