(* ===== verification/EnsembleRunProps.v ===== *)
(** * Properties of ensemble runs: types

    About [EnsembleRun.v]: an accepted plan is well typed at run time, so no run of it
    reaches the code's [unreachable!] arms, an [unwrap] of nothing or an index out of range,
    however the workers answer, in whatever order the steps complete and however deep
    ensembles are nested.  The hypotheses are the
    invariants of the maps, and step names without a dot: the rules do not ask for the
    latter, and [dotted_step_name_panics] shows what happens otherwise. *)

From S2P Require Import Prelude Text Float Json Errors Deadline Ensemble EnsembleProps EnsembleRules.
From S2P Require Import EnsembleRulesProps EnsembleRun.
Import Errors.Render.
Open Scope string_scope.

(** ** Keys of the context *)

Abbreviation dotless s := (has_char dot s = false) (only parsing).

Lemma app_cons_dot a b : a +:+ "." +:+ b = a +:+ String dot b.
Proof. done. Qed.

Lemma dot_key_inj a b c d : dotless a -> dotless c -> a +:+ "." +:+ b = c +:+ "." +:+ d -> a = c /\ b = d.
Proof.
  intros Ha Hc He. rewrite !app_cons_dot in He.
  pose proof (proj2 (split_once_spec dot _ a b) (conj eq_refl Ha)) as H1.
  pose proof (proj2 (split_once_spec dot _ c d) (conj eq_refl Hc)) as H2. rewrite He, H2 in H1. by injection H1.
Qed.

Lemma dot_key_dotted a b : has_char dot (a +:+ "." +:+ b) = true.
Proof. rewrite app_cons_dot, has_char_app. simpl. by rewrite orb_true_r. Qed.

Lemma find_step_Some steps name s : find_step steps name = Some s -> s ∈ steps /\ es_name s = name.
Proof. intros [Hin Hn]%find_some. apply String.eqb_eq in Hn. split; [by apply list_elem_of_In|done]. Qed.

Lemma find_step_in steps s : NoDup (map es_name steps) -> s ∈ steps -> find_step steps (es_name s) = Some s.
Proof.
  induction steps as [|s0 steps IH]; intros Hnd Hin; [set_solver|]. apply NoDup_cons in Hnd as [Hout Hnd]. simpl.
  apply elem_of_cons in Hin as [->|Hin]; [by rewrite String.eqb_refl|].
  destruct (String.eqb_spec (es_name s0) (es_name s)) as [He|]; [|by apply IH].
  destruct Hout. rewrite He. by apply list_elem_of_fmap_2.
Qed.

Lemma distinct_steps steps s s' :
  NoDup (map es_name steps) -> s ∈ steps -> s' ∈ steps -> es_name s = es_name s' -> s = s'.
Proof.
  intros Hnd Hs Hs' He. pose proof (find_step_in _ _ Hnd Hs) as H1. rewrite He, (find_step_in _ _ Hnd Hs') in H1.
  by injection H1.
Qed.

(** ** Types of values *)

Definition has_type (ty : InputType) (v : EnsembleValue) : Prop :=
  match ty with
  | TJson => exists j, v = VJson j
  | TBinary => is_binary_value v = true
  end.

Definition is_envelope (v : EnsembleValue) : bool := match v with VEnvelope _ _ => true | _ => false end.

(** Step names without dots, and keys of ordered maps without repetitions. *)
Record tidy (p : EnsemblePlan) : Prop := {
  td_names : forall s, s ∈ pl_steps p -> dotless (es_name s);
  td_inputs : forall decl, pl_inputs_decl p = Some decl -> NoDup decl.*1;
  td_outputs : forall s decl, s ∈ pl_steps p -> es_outputs_decl s = Some decl -> NoDup decl.*1;
}.

(** A context that respects the declarations of a plan. *)
Record ctx_ok (p : EnsemblePlan) (ctx : gmap string EnsembleValue) : Prop := {
  cx_inputs : forall decl name d v, pl_inputs_decl p = Some decl -> index_get name decl = Some d ->
    ctx !! ("inputs." +:+ name) = Some v -> has_type (id_ty d) v;
  cx_alias : forall s decl alias d v, s ∈ pl_steps p -> es_outputs_decl s = Some decl ->
    index_get alias decl = Some d -> ctx !! (es_name s +:+ "." +:+ alias) = Some v -> has_type (od_ty d) v;
}.

Section typing.
Context `{MapIter} `{Codec}.

Lemma select_ctx_keys_lookup (ctx : gmap string EnsembleValue) keys k v :
  select_ctx_keys ctx keys !! k = Some v -> ctx !! k = Some v.
Proof.
  unfold select_ctx_keys. intros Hk%elem_of_list_to_map_2. apply list_elem_of_omap in Hk as (k' & _ & Hk).
  destruct (ctx !! k') eqn:Hc; [|done]. by injection Hk as <- <-.
Qed.

Lemma ctx_ok_subset p ctx ctx' :
  ctx_ok p ctx -> (forall k v, ctx' !! k = Some v -> ctx !! k = Some v) -> ctx_ok p ctx'.
Proof. intros [Hi Ha] Hs. split; intros; [by eapply Hi; eauto|by eapply Ha; eauto]. Qed.

(** A resolved reference is never an envelope, and of its static type where there is one. *)
Lemma resolve_ref_plain steps r ctx v : resolve_ref steps r ctx = Ok (RefValue v) -> is_envelope v = false.
Proof.
  unfold resolve_ref. destruct (ref_captures r) as [[source rest]|]; [|done].
  destruct (ref_target steps r source rest) as [[key path]|]; [|done]. simpl.
  destruct (ctx !! key) as [[j|b|data ct sh dt|hd tl]|], path as [f|]; simpl; try done;
    try (by intros [= <-]).
  - destruct (map_err _ _) as [fv|]; [|done]. by intros [= <-].
  - destruct (map_err _ (from_slice b)) as [j|]; [|done]. simpl. destruct (map_err _ _) as [fv|]; [|done]. by intros [= <-].
  - case_goal; [|done]. by intros [= <-].
Qed.

(** A value read from a JSON source is JSON. *)
Lemma resolve_json_source steps r ctx v source rest key path j :
  ref_captures r = Some (source, rest) -> ref_target steps r source rest = Ok (key, path) ->
  ctx !! key = Some (VJson j) -> resolve_ref steps r ctx = Ok (RefValue v) -> is_binary_value v = false.
Proof.
  intros Hr Ht Hc. unfold resolve_ref. rewrite Hr, Ht. simpl. rewrite Hc. destruct path as [f|]; [|by intros [= <-]].
  destruct (map_err _ _) as [fv|]; [|done]. by intros [= <-].
Qed.

Lemma resolve_binary_source steps r ctx v source rest key path b :
  ref_captures r = Some (source, rest) -> ref_target steps r source rest = Ok (key, path) ->
  ctx !! key = Some b -> is_binary_value b = true -> resolve_ref steps r ctx = Ok (RefValue v) ->
  is_binary_value v = true.
Proof.
  intros Hr Ht Hc Hb. unfold resolve_ref. rewrite Hr, Ht. simpl. rewrite Hc. destruct b; [done|done| |done].
  destruct path as [f|]; [done|]. case_goal; [|done]. by intros [= <-].
Qed.

Lemma resolve_ref_typed p decl ctx r ty v :
  accepted p -> pl_inputs_decl p = Some decl -> ctx_ok p ctx ->
  ref_type (pl_steps p) decl r = Some ty -> resolve_ref (pl_steps p) r ctx = Ok (RefValue v) ->
  is_binary_value v = match ty with TJson => false | TBinary => true end.
Proof.
  intros Hac Hd [Hin Hal] Hty Hres. pose proof Hty as Hty'. unfold ref_type in Hty.
  destruct (ref_captures r) as [[source rest]|] eqn:Hc; [|done].
  destruct (String.eqb_spec source "request") as [->|Hq]; [done|].
  destruct (String.eqb_spec source "inputs") as [->|Hi].
  - destruct (index_get (ref_name rest) decl) as [d|] eqn:Hg; [|done]. injection Hty as <-.
    destruct (ctx !! ("inputs." +:+ ref_name rest)) as [w|] eqn:Hw.
    + specialize (Hin decl _ d w Hd Hg Hw). destruct (id_ty d) eqn:He; simpl in Hin.
      * destruct Hin as [j ->]. by eapply resolve_json_source.
      * by eapply resolve_binary_source.
    + assert (Ht : ref_target (pl_steps p) r "inputs" rest
        = Ok ("inputs." +:+ ref_name rest, path_after rest (ref_name rest))) by done.
      unfold resolve_ref in Hres. rewrite Hc, Ht in Hres. cbn [result_bind fst snd] in Hres. by rewrite Hw in Hres.
  - destruct (find_step (pl_steps p) source) as [src|] eqn:Hf; [|done].
    pose proof (find_step_Some _ _ _ Hf) as [Hsrc <-].
    destruct (es_outputs_decl src) as [ad|] eqn:Had.
    + destruct rest as [rest|]; [|done]. destruct (index_get (first_segment rest) ad) as [d|] eqn:Hg; [|done].
      injection Hty as <-. assert (Ht : ref_target (pl_steps p) r (es_name src) (Some rest)
        = Ok (es_name src +:+ "." +:+ first_segment rest, path_after (Some rest) (first_segment rest))).
      { unfold ref_target. destruct (String.eqb_spec (es_name src) "inputs"); [done|]. by rewrite Hf; simpl; rewrite Had. }
      destruct (ctx !! (es_name src +:+ "." +:+ first_segment rest)) as [w|] eqn:Hw.
      * specialize (Hal src ad _ d w Hsrc Had Hg Hw). destruct (od_ty d) eqn:He; simpl in Hal.
        -- destruct Hal as [j ->]. by eapply resolve_json_source.
        -- by eapply resolve_binary_source.
      * unfold resolve_ref in Hres. rewrite Hc, Ht in Hres. simpl in Hres. by rewrite Hw in Hres.
    + injection Hty as <-. destruct v as [j|b|data ct sh dt|hd tl]; [done|done| |done]. exfalso.
      unfold resolve_ref in Hres. rewrite Hc in Hres.
      destruct (ref_target (pl_steps p) r (es_name src) rest) as [[key path]|]; [|done]. simpl in Hres.
      assert (He : declared_binary_edge (pl_steps p) (es_name src) rest = false).
      { unfold declared_binary_edge. destruct (String.eqb_spec (es_name src) "request"); [done|].
        destruct (String.eqb_spec (es_name src) "inputs"); [done|]. rewrite Hf. simpl. by rewrite Had. }
      rewrite He in Hres. destruct (ctx !! key) as [[]|], path; simpl in Hres; try done.
      * destruct (map_err _ _); done.
      * destruct (map_err _ (from_slice b)); [|done]. simpl in Hres. destruct (map_err _ _); done.
Qed.

(** ** Payloads *)

Lemma resolve_inputs_from s steps ctx inputs acc res :
  resolve_inputs s steps ctx inputs acc = Ok res ->
  forall k v, res !! k = Some v ->
    acc !! k = Some v \/ exists r, (k, r) ∈ inputs /\ resolve_ref steps r ctx = Ok (RefValue v).
Proof.
  revert acc. induction inputs as [|[key r] inputs IH]; intros acc; simpl; [intros [= ->]; by left|].
  destruct (resolve_ref steps r ctx) as [[w|n]|] eqn:Hr; [|done..]. simpl. intros Hres k v Hk.
  destruct (IH _ Hres k v Hk) as [Hl|(r' & Hin & Hr')].
  - apply lookup_insert_Some in Hl as [[<- <-]|[_ Hl]]; [right; exists r; split; [by left|done]|by left].
  - right. exists r'. split; [by right|done].
Qed.

Lemma group_body_total entries :
  (forall k src, (k, src) ∈ entries -> is_some (source_bytes src) = true) -> exists b, group_body entries = Some b.
Proof.
  induction entries as [|[k src] entries IH]; intros Hall; simpl; [by eexists|].
  destruct (source_bytes src) eqn:Hs; [|by specialize (Hall k src ltac:(by left)); rewrite Hs in Hall].
  destruct IH as [rest ->]; [intros k' src' Hin; apply (Hall k'); by right|]. by eexists.
Qed.

(** A group of JSON values is assembled. *)
Lemma group_assembled resolved params :
  (forall k v, resolved !! k = Some v -> is_binary_value v = false /\ is_envelope v = false) ->
  exists b, assemble_group_json resolved params = Done (Ok (b, None)).
Proof.
  intros Hall. unfold assemble_group_json.
  destruct (group_body_total (group_entries resolved params)) as [b ->]; [|by eexists].
  intros k src Hin. unfold group_entries in Hin. rewrite merge_sort_Permutation in Hin.
  apply elem_of_map_to_list in Hin. apply lookup_union_Some_raw in Hin as [Hp|[_ Hr]].
  - rewrite lookup_fmap in Hp. destruct (params !! k); [|done]. by injection Hp as <-.
  - rewrite lookup_fmap in Hr. destruct (resolved !! k) as [v|] eqn:Hv; [|done]. injection Hr as <-.
    destruct (Hall k v Hv). by destruct v.
Qed.

Lemma binary_count_zero resolved :
  binary_count resolved = 0%nat -> forall k v, resolved !! k = Some v -> is_binary_value v = false.
Proof.
  unfold binary_count, count_if. intros Hz k v Hk. destruct (is_binary_value v) eqn:Hb; [|done].
  apply nil_length_inv in Hz.
  assert (In (k, v) (List.filter (fun kv => is_binary_value (snd kv)) (map_iter resolved))) as Hin.
  { apply filter_In. split; [|done]. by apply list_elem_of_In, elem_of_map_iter. }
  by rewrite Hz in Hin.
Qed.

Lemma sole_binary (resolved : gmap string EnsembleValue) :
  size resolved = 1%nat -> binary_count resolved = 1%nat ->
  exists k data ct sh dt, map_iter resolved = [(k, VBinary data ct sh dt)].
Proof.
  intros Hs Hb. pose proof (length_map_iter resolved) as Hl. unfold binary_count in Hb.
  destruct (map_iter resolved) as [|[k v] [|]]; simpl in *; [lia| |lia].
  unfold count_if in Hb. simpl in Hb. destruct v; simpl in Hb; [done|done| |done]. by eexists _, _, _, _, _.
Qed.

(** The dynamic dispatch never reaches an unreachable arm. *)
Lemma dynamic_assembled step resolved params :
  (forall k v, resolved !! k = Some v -> is_envelope v = false) ->
  assemble_step_payload step resolved params None <> Panicked.
Proof.
  intros Hplain. unfold assemble_step_payload. destruct (Nat.eqb_spec (binary_count resolved) 0) as [Hz|Hz].
  { destruct (group_assembled resolved params) as [b ->]; [|done]. intros k v Hk.
    split; [by eapply binary_count_zero|by eapply Hplain]. }
  destruct (Nat.eqb_spec (size resolved) 1) as [Hs|]; [|done].
  destruct (Nat.eqb_spec (binary_count resolved) 1) as [Hb|]; [|done]. simpl.
  destruct (sole_binary resolved Hs Hb) as (k & data & ct & sh & dt & Hm).
  unfold assemble_binary_passthrough. rewrite Hm. by case_goal.
Qed.

Lemma step_refs_inputs s k r : (k, r) ∈ map_iter (es_inputs s) -> r ∈ step_refs s.
Proof. intros Hin. unfold step_refs. apply list_elem_of_fmap. by exists (k, r). Qed.

Lemma payload_never_panics p i s ctx opts :
  accepted p -> ctx_ok p ctx -> pl_steps p !! i = Some s -> step_payload p i s ctx opts <> Panicked.
Proof.
  intros Hac Hctx Hs. unfold step_payload. destruct (es_passthrough s); [done|].
  destruct (resolve_inputs _ _ _ _ _) as [resolved|] eqn:Hres; [|done].
  pose proof (resolve_inputs_from _ _ _ _ _ _ Hres) as Hfrom.
  assert (Hval : forall k v, resolved !! k = Some v ->
    exists r, (k, r) ∈ map_iter (es_inputs s) /\ resolve_ref (pl_steps p) r ctx = Ok (RefValue v)).
  { intros k v Hk. destruct (Hfrom k v Hk) as [Hl|]; [by rewrite lookup_empty in Hl|done]. }
  destruct (ac_types _ Hac) as (cond & Htypes & _).
  destruct (analyze_static_lookup _ _ _ _ _ _ Htypes Hs) as (mode & c & Hm & _ & Hrefs & Hpar).
  rewrite Hm. simpl.
  destruct (pl_inputs_decl p) as [decl|] eqn:Hd.
  2:{ apply analyze_refs_legacy in Hrefs as [-> _]. apply dynamic_assembled. intros k v Hk.
      destruct (Hval k v Hk) as (r & _ & Hr). by eapply resolve_ref_plain. }
  apply analyze_refs_mode in Hrefs. destruct mode as [[]|].
  - destruct (group_assembled resolved (es_params s)) as [b Hb]; [|simpl; by rewrite Hb].
    intros k v Hk. destruct (Hval k v Hk) as (r & Hin & Hr). split; [|by eapply resolve_ref_plain].
    eapply (resolve_ref_typed p decl ctx r TJson v); [done..| |done].
    rewrite Forall_forall in Hrefs. apply Hrefs. by eapply step_refs_inputs.
  - destruct Hrefs as (r & Hr1 & Hty). simpl. unfold assemble_binary_passthrough. rewrite (Hpar eq_refl).
    rewrite bool_decide_true by done. simpl. unfold step_refs in Hr1.
    destruct (map_iter (es_inputs s)) as [|[k r'] [|]] eqn:Hmi; simplify_eq/=.
    destruct (resolve_ref (pl_steps p) r ctx) as [[v|n]|] eqn:Hr; [|done..]. simpl in Hres. injection Hres as <-.
    pose proof (resolve_ref_typed p decl ctx r TBinary v Hac Hd Hctx Hty Hr) as Hb.
    pose proof (map_iter_perm (<[k := v]> (∅ : gmap string EnsembleValue))) as Hperm.
    rewrite map_to_list_insert, map_to_list_empty in Hperm by done.
    apply Permutation_singleton_r in Hperm. rewrite Hperm. by destruct v.
  - subst. simpl. apply dynamic_assembled. intros k v Hk. destruct (Hval k v Hk) as (r & _ & Hr).
    by eapply resolve_ref_plain.
Qed.

(** ** The root *)

Lemma element_typed d name el tail off v off' :
  element_value d name el tail off = Ok (v, off') -> has_type (id_ty d) v.
Proof.
  unfold element_value. destruct (id_ty d), (get "data" el) as [data|]; simpl; [|done| |].
  - intros [= <- <-]. by eexists.
  - destruct (decode_binary_marker data) as [[b ct]|]; [|done]. by intros [= <- <-].
  - destruct (binary_data_size el); [|done]. simpl. destruct (tail_slice _ _ _ _) as [[b e]|]; [|done]. by intros [= <- <-].
Qed.

Definition declared_value (decl : IndexMap InputDecl) (nv : string * EnsembleValue) : Prop :=
  exists d, index_get (fst nv) decl = Some d /\ has_type (id_ty d) (snd nv).

Lemma parse_elements_typed decl tol tail els off values values' off' :
  Forall (declared_value decl) values ->
  parse_elements decl tol tail els off values = Ok (values', off') -> Forall (declared_value decl) values'.
Proof.
  revert off values. induction els as [|el els IH]; intros off values Hv; simpl; [by intros [= <- <-]|].
  destruct (ok_or _ _) as [name|]; [|done]. simpl. destruct (index_get name decl) as [d|] eqn:Hd.
  - destruct (element_value d name el tail off) as [[v o]|] eqn:He; [|done]. simpl. case_goal; [done|].
    apply IH. apply Forall_app. split; [done|]. constructor; [|constructor]. exists d. split; [done|].
    by eapply element_typed.
  - destruct tol; [|done].
    destruct (match binary_data_size el with Some _ => _ | None => _ end); [|done]. simpl. by apply IH.
Qed.

Lemma fill_defaults_typed all decl values absent values' absent' :
  (forall n d, (n, d) ∈ decl -> index_get n all = Some d /\ (is_some (id_default d) = true -> id_ty d = TJson)) ->
  Forall (declared_value all) values ->
  fill_defaults decl values absent = Ok (values', absent') -> Forall (declared_value all) values'.
Proof.
  revert values absent. induction decl as [|[n d] decl IH]; intros values absent Hall Hv; simpl; [by intros [= <- <-]|].
  assert (Hall' : forall n d, (n, d) ∈ decl -> index_get n all = Some d /\ (is_some (id_default d) = true -> id_ty d = TJson)).
  { intros n' d' Hin. apply Hall. by right. }
  case_goal; [by apply IH|]. destruct (id_required d); [done|].
  destruct (id_default d) as [def|] eqn:Hdef; [|by apply IH]. apply IH; [done|].
  apply Forall_app. split; [done|]. constructor; [|constructor]. destruct (Hall n d ltac:(by left)) as [Hg Ht].
  exists d. split; [done|]. rewrite Hdef in Ht. simpl. rewrite (Ht eq_refl). by eexists.
Qed.

Lemma decl_checked p decl n d :
  accepted p -> pl_inputs_decl p = Some decl -> (n, d) ∈ decl -> is_some (id_default d) = true -> id_ty d = TJson.
Proof.
  intros Hac Hd Hin Hdef. destruct (ac_types _ Hac) as (cond & Ht & _). unfold analyze_static_types in Ht.
  rewrite Hd in Ht. destruct (check_all check_input_decl decl) as [[]|] eqn:Hck; [|done].
  pose proof (proj1 (check_all_ok _ _) Hck (n, d) Hin) as Hc. unfold check_input_decl in Hc.
  destruct (negb (is_ident n)); [done|]. destruct (id_ty d); [done|]. by rewrite Hdef in Hc.
Qed.

Lemma foldl_inputs_lookup (values : list (string * EnsembleValue)) (c : gmap string EnsembleValue) k v :
  foldl (fun c nv => <["inputs." +:+ fst nv := snd nv]> c) c values !! k = Some v ->
  c !! k = Some v \/ exists n, (n, v) ∈ values /\ k = "inputs." +:+ n.
Proof.
  revert c. induction values as [|[n w] values IH]; intros c; [by left|]. cbn [foldl fst snd].
  intros [Hc|(n' & Hin & ->)]%IH; [|right; exists n'; split; [by right|done]].
  apply lookup_insert_Some in Hc as [[<- <-]|[_ Hc]]; [|by left]. right. exists n. split; [by left|done].
Qed.

Lemma inputs_key_inj n n' : "inputs." +:+ n = "inputs." +:+ n' -> n = n'.
Proof. intros He. by destruct (dot_key_inj "inputs" n "inputs" n' eq_refl eq_refl He). Qed.

Lemma alias_not_input p s alias n :
  accepted p -> tidy p -> s ∈ pl_steps p -> es_name s +:+ "." +:+ alias <> "inputs." +:+ n.
Proof.
  intros Hac Ht Hs He. destruct (dot_key_inj (es_name s) alias "inputs" n (td_names _ Ht s Hs) eq_refl He) as [Hn _].
  pose proof (po_names _ (ac_plan _ Hac) s Hs) as Hr. by rewrite Hn in Hr.
Qed.

Lemma root_context_ok p payload dags root :
  accepted p -> tidy p -> parse_root_inputs payload (pl_inputs_decl p) dags = Ok root ->
  ctx_ok p (fst (root_context root)).
Proof.
  intros Hac Ht Hp. unfold parse_root_inputs in Hp. destruct (pl_inputs_decl p) as [decl|] eqn:Hd.
  - destruct (match payload with VJson _ => _ | _ => _ end) as [[hd tl]|]; [|done]. simpl in Hp.
    destruct (ok_or _ _) as [els|]; [|done]. simpl in Hp.
    destruct (parse_elements decl dags tl els 0 []) as [[values off]|] eqn:Hel; [|done]. simpl in Hp.
    destruct (negb _); [done|]. destruct (fill_defaults decl values []) as [[values' absent]|] eqn:Hf; [|done].
    injection Hp as <-. simpl.
    assert (Hty : Forall (declared_value decl) values').
    { eapply fill_defaults_typed; [|by eapply parse_elements_typed; [constructor|]|done]. intros n d Hin.
      split; [apply index_get_NoDup; [by eapply td_inputs|done]|]. by eapply decl_checked. }
    rewrite Forall_forall in Hty. split.
    + intros decl' n d v Hd' Hg Hv. assert (decl' = decl) as -> by congruence.
      apply foldl_inputs_lookup in Hv as [Hv|(n' & Hin & He)]; [by rewrite lookup_empty in Hv|].
      apply inputs_key_inj in He as <-. destruct (Hty _ Hin) as (d' & Hg' & Hh). simpl in *. by replace d with d' by congruence.
    + intros s ad alias d v Hs Had Hg Hv.
      apply foldl_inputs_lookup in Hv as [Hv|(n' & Hin & He)]; [by rewrite lookup_empty in Hv|].
      by apply (alias_not_input p s) in He.
  - assert (exists v, root = RootSingle v) as [v ->].
    { destruct payload; simplify_eq/=; [|by eexists..]. case_match; [done|]. simplify_eq. by eexists. }
    simpl. split; [intros; congruence|]. intros s ad alias d w Hs Had Hg Hw.
    apply lookup_singleton_Some in Hw as [He _].
    pose proof (dot_key_dotted (es_name s) alias) as Hdot. by rewrite <- He in Hdot.
Qed.

(** ** Outputs of steps *)

Lemma ctx_ok_insert_plain p s v ctx :
  accepted p -> tidy p -> ctx_ok p ctx -> s ∈ pl_steps p -> ctx_ok p (<[es_name s := v]> ctx).
Proof.
  intros Hac Ht [Hi Ha] Hs. pose proof (td_names _ Ht s Hs) as Hdot. split.
  - intros decl n d w Hd Hg Hw. rewrite lookup_insert_ne in Hw; [by eapply Hi|].
    intros He. pose proof (dot_key_dotted "inputs" n) as Hk. change ("inputs" +:+ "." +:+ n) with ("inputs." +:+ n) in Hk.
    rewrite <- He in Hk. congruence.
  - intros s' ad alias d w Hs' Had Hg Hw. rewrite lookup_insert_ne in Hw; [by eapply (Ha s')|].
    intros He. pose proof (dot_key_dotted (es_name s') alias) as Hk. rewrite <- He in Hk. congruence.
Qed.

Lemma ctx_ok_insert_alias p s ad alias d v ctx :
  accepted p -> tidy p -> ctx_ok p ctx -> s ∈ pl_steps p -> es_outputs_decl s = Some ad ->
  (alias, d) ∈ ad -> has_type (od_ty d) v -> ctx_ok p (<[es_name s +:+ "." +:+ alias := v]> ctx).
Proof.
  intros Hac Ht [Hi Ha] Hs Had Hin Hv. split.
  - intros decl n d' w Hd Hg Hw. rewrite lookup_insert_ne in Hw; [by eapply Hi|]. by eapply alias_not_input.
  - intros s' ad' alias' d' w Hs' Had' Hg Hw. apply lookup_insert_Some in Hw as [[He <-]|[_ Hw]]; [|by eapply (Ha s')].
    apply dot_key_inj in He as [Hn <-]; [|by eapply td_names..].
    assert (s = s') as <- by (eapply distinct_steps; [apply Hac|done..]).
    assert (ad' = ad) as -> by congruence.
    pose proof (index_get_NoDup _ _ _ (td_outputs _ Ht s ad Hs Had) Hin) as Hg'. by replace d' with d by congruence.
Qed.

Lemma materialize_alias_typed step raw alias d v :
  materialize_alias step raw alias d = Done (Ok v) -> has_type (od_ty d) v.
Proof.
  unfold materialize_alias. destruct raw, (od_ty d); simpl; try done.
  - destruct (map_err _ _); [|done]. intros [= <-]. by eexists.
  - destruct (od_path d); [|done]. simpl. destruct (map_err _ _) as [m|]; [|done]. simpl.
    destruct (decode_binary_marker m); [|done]. by intros [= <-].
  - destruct (od_path d); [done|]. by intros [= <-].
Qed.

(** Only a value kept as raw bytes could panic here, and a declared step never has one. *)
Lemma materialize_aliases_safe step raw decl :
  (forall b, raw <> VRaw b) -> materialize_aliases step raw decl <> Panicked.
Proof.
  intros Hraw. induction decl as [|[alias d] decl IH]; [done|]. simpl.
  assert (Ha : materialize_alias step raw alias d <> Panicked).
  { unfold materialize_alias. destruct raw as [j|b|data ct sh dt|hd tl]; [by destruct (od_ty d)| | |done].
    - by destruct (Hraw b).
    - destruct (od_ty d); [done|]. by destruct (od_path d). }
  destruct (materialize_alias step raw alias d) as [[v|e]|]; [|done..]. simpl.
  by destruct (materialize_aliases step raw decl) as [[]|].
Qed.

Lemma materialize_safe s raw meta : materialize_step_outputs s raw meta <> Panicked.
Proof.
  unfold materialize_step_outputs. destruct (es_outputs_decl s) as [decl|]; [|done].
  assert (Hsafe : forall v, (forall b, v <> VRaw b) ->
    (let* values := materialize_aliases (es_name s) v decl in
     Done (Ok {| st_values := values; st_meta := meta |})) <> Panicked).
  { intros v Hv. pose proof (materialize_aliases_safe (es_name s) v decl Hv).
    by destruct (materialize_aliases (es_name s) v decl) as [[]|]. }
  destruct raw as [j|b|data ct sh dt|hd tl]; cbn [o_bind]; try by apply Hsafe.
  destruct (let? v := _ in _) as [v|] eqn:Hv; cbn [o_bind]; [|done]. apply Hsafe. intros b' ->.
  by destruct (map_err _ _).
Qed.

(** The successful results of the outcome monad. *)
Lemma o_bind_ok {A B} (o : Outcome A) (k : A -> Outcome B) b :
  o_bind o k = Done (Ok b) -> exists a, o = Done (Ok a) /\ k a = Done (Ok b).
Proof. destruct o as [[a|]|]; [|done..]. by exists a. Qed.

Lemma materialize_aliases_ok step raw decl values :
  materialize_aliases step raw decl = Done (Ok values) ->
  Forall2 (fun ad kv => fst kv = step +:+ "." +:+ fst ad /\ has_type (od_ty (snd ad)) (snd kv)) decl values.
Proof.
  revert values. induction decl as [|[alias d] decl IH]; intros values; simpl; [intros [= <-]; constructor|].
  intros (v & Hv & (rest & Hrest & [= <-])%o_bind_ok)%o_bind_ok. constructor; [|by apply IH].
  split; [done|]. by eapply materialize_alias_typed.
Qed.

Lemma insert_aliases_ok p s ad sub values ctx :
  accepted p -> tidy p -> s ∈ pl_steps p -> es_outputs_decl s = Some ad -> (forall a, a ∈ sub -> a ∈ ad) ->
  Forall2 (fun ad kv => fst kv = es_name s +:+ "." +:+ fst ad /\ has_type (od_ty (snd ad)) (snd kv)) sub values ->
  ctx_ok p ctx -> ctx_ok p (foldl (fun c kv => <[fst kv := snd kv]> c) ctx values).
Proof.
  intros Hac Ht Hs Had Hsub Hall. revert ctx. induction Hall as [|[alias d] [k v] sub values [Hk Hty] _ IH]; intros ctx Hctx; [done|].
  simpl in *. subst k. apply IH; [intros a Ha; apply Hsub; by right|].
  eapply ctx_ok_insert_alias; [done..| |done]. apply Hsub. by left.
Qed.

(** The outputs of a step keep the context well typed. *)
Lemma materialize_keeps_ctx p s raw meta res ctx :
  accepted p -> tidy p -> ctx_ok p ctx -> s ∈ pl_steps p -> materialize_step_outputs s raw meta = Done (Ok res) ->
  ctx_ok p (foldl (fun c kv => <[fst kv := snd kv]> c) ctx (st_values res)).
Proof.
  intros Hac Ht Hctx Hs. unfold materialize_step_outputs. destruct (es_outputs_decl s) as [ad|] eqn:Had.
  - intros (raw' & _ & (values & Hm & [= <-])%o_bind_ok)%o_bind_ok.
    apply materialize_aliases_ok in Hm. by eapply insert_aliases_ok.
  - intros [= <-]. simpl. by apply ctx_ok_insert_plain.
Qed.
End typing.

(** ** Runs *)

Section safety.
Context `{MapIter} `{HttpSyntax} `{Codec} `{Environment}.

Definition output_name (p : EnsemblePlan) : string := name_at (pl_steps p) (pl_output_step p).

(** The output step of a plan that projects a field runs on workers. *)
Definition worker_output (p : EnsemblePlan) : Prop :=
  is_some (pl_output_field p) = true ->
  forall rid n, sb_entry (sub_model (rid +:+ ":" +:+ output_name p)) <> Some (true, n).

Definition output_plain (p : EnsemblePlan) (ctx : gmap string EnsembleValue) : Prop :=
  is_some (pl_output_field p) = true -> forall v, ctx !! output_name p = Some v -> is_envelope v = false.

Record good_plan (p : EnsemblePlan) : Prop := {
  gp_accepted : accepted p;
  gp_tidy : tidy p;
  gp_output : worker_output p;
}.

Definition run_inv (p : EnsemblePlan) (ctx : gmap string EnsembleValue) : Prop := ctx_ok p ctx /\ output_plain p ctx.

Lemma unary_plain step r raw v m : unary_response_to_value step r raw = Ok (v, m) -> is_envelope v = false.
Proof.
  unfold unary_response_to_value. destruct r as [r|]; [|done]. case_goal; [|case_goal; [|done]].
  - case_goal; [by intros [= <- <-]|]. unfold parse_step_output. case_goal; [by intros [= <- <-]|].
    case_goal; [by intros [= <- <-]|]. destruct (map_err _ _); [|done]. by intros [= <- <-].
  - by destruct (parse_u16 _).
Qed.

Lemma attempt_plain s raw a v m : attempt_result s raw a = Done (Ok (v, m)) -> is_envelope v = false.
Proof.
  unfold attempt_result. destruct a as [| | | |r]; try done. destruct raw; simpl; [|done].
  intros [= Hu]. by eapply unary_plain.
Qed.

Lemma attempts_plain more s raw c n backoff v m :
  attempts more s raw c n backoff = Done (Ok (v, m)) -> is_envelope v = false.
Proof.
  revert n backoff. induction more as [|more IH]; intros n backoff; cbn [attempts]; destruct (at_answer (answers c n)) eqn:Ha;
    try done; rewrite <- Ha; clear Ha;
    (destruct (attempt_result s raw _) as [[[v' m']|e]|] eqn:Hr; [by intros [= <- <-]; eapply attempt_plain| |done]);
    try done; (case_goal; [apply IH|done]).
Qed.

Lemma attempts_safe more s raw c n backoff : attempts more s (Some raw) c n backoff <> Panicked.
Proof.
  revert n backoff. induction more as [|more IH]; intros n backoff; cbn [attempts]; destruct (at_answer (answers c n));
    cbn [attempt_result o_some o_bind]; try done;
    try (destruct (unary_response_to_value _ _ _); [done|]); try done; (case_goal; [apply IH|done]).
Qed.

(** A step's results are the outputs of a value, which is no envelope unless the step is
    a nested ensemble. *)
Lemma execute_step_ok nested p i s ctx rid opts anc sn res sn' :
  execute_step nested p i s ctx rid opts anc sn = (Done (Ok res), sn') ->
  exists raw meta, materialize_step_outputs s raw meta = Done (Ok res) /\
    ((forall n, sb_entry (sub_model (rid +:+ ":" +:+ es_name s)) <> Some (true, n)) -> is_envelope raw = false).
Proof.
  unfold execute_step, m_bind, m_lift, m_outcome.
  destruct (resolve_version s sn) as [[[version|]|] sn1]; [|done..].
  case_goal; [done|]. destruct (step_payload p i s ctx opts) as [[[payload ct]|]|]; [|done..].
  destruct (sb_autoload _); [|done]. case_goal; [done|].
  destruct (sb_entry _) as [[[] workers]|] eqn:He; [| |done].
  - case_goal; [done|]. destruct (nested_request _ _ _ _ _) as [[[root opts']|]|]; [|done..]. case_goal; [done|].
    destruct (nested _ _ _ _ _ _ sn1) as [[[[v m|nodes c]|]|] sn2]; [|done..]. simpl.
    intros [= Hm <-]. exists v, m. split; [done|]. intros Hn. by destruct (Hn workers).
  - intros [= Hm <-]. unfold call_worker in Hm. case_match; [done|].
    apply o_bind_ok in Hm as ([v m] & Ha & Hm). exists v, m. split; [done|]. intros _.
    by eapply attempts_plain.
Qed.

(** Nested runs do not panic, and the plans they run have their output step. *)
Definition nested_safe (nested : string -> string -> EnsembleValue -> string -> EnsembleExecOpts ->
    list (string * string) -> M EnsembleOutcome) : Prop :=
  (forall m v root rid opts anc sn, fst (nested m v root rid opts anc sn) <> Panicked) /\
  (forall m v lp p, get_plan m v = Ok lp -> plan_of lp p -> is_Some (pl_steps p !! pl_output_step p)).

Lemma select_dag_set_of lp sel p : select_dag_set lp sel = Ok p -> plan_of lp p.
Proof.
  destruct lp as [q|sets path]; simpl; [destruct sel; [done|]; by intros [= ->]|].
  destruct (index_get _ sets) eqn:Hg; simpl; [|done]. intros [= ->]. by eexists.
Qed.

Lemma select_from_body_of lp sel path p : select_from_body lp sel path = Ok p -> plan_of lp p.
Proof.
  unfold select_from_body. destruct (select_dag_set lp sel) eqn:He; [|done]. simpl. intros [= ->].
  by eapply select_dag_set_of.
Qed.

(** The set of a nested run, and whether its payload was read as JSON. *)
Lemma nested_plan_of s version payload ct child sel value :
  nested_plan s version payload ct = Ok (child, sel, value) ->
  (exists lp, get_plan (es_model s) version = Ok lp /\ plan_of lp child) /\ (ct = None -> is_some value = true).
Proof.
  unfold nested_plan. destruct (get_plan _ _) as [lp|]; [|done]. cbn [result_bind].
  destruct (match ct with Some _ => _ | None => _ end) as [value'|] eqn:Hv; [|done]. cbn [result_bind].
  destruct (match lp with SinglePlan _ => _ | DagSets _ _ => _ end) as [sel'|]; [|done]. cbn [result_bind].
  destruct (match lp with SinglePlan _ => _ | DagSets _ _ => _ end) as [child'|] eqn:Hc; [|done]. cbn [result_bind].
  intros [= <- <- <-]. split.
  - exists lp. split; [done|]. destruct lp as [q|sets [path|]];
      [by eapply select_dag_set_of|by eapply select_from_body_of|by eapply select_dag_set_of].
  - intros ->. destruct (map_err _ _); [|done]. by injection Hv as <-.
Qed.

Lemma nested_request_safe nested s version payload ct opts :
  nested_safe nested -> nested_request s version payload ct opts <> Panicked.
Proof.
  intros [_ Hout]. unfold nested_request.
  destruct (nested_plan s version payload ct) as [[[child sel] value]|] eqn:Hp; [|done].
  apply nested_plan_of in Hp as ((lp & Hlp & Hof) & Hval). cbn [o_bind].
  destruct (Hout _ _ _ _ Hlp Hof) as [o ->]. cbn [o_some o_bind]. case_goal; [done|].
  unfold nested_root. destruct ct as [ct|]; [done|]. specialize (Hval eq_refl). destruct value as [v|]; [|done].
  cbn [o_some o_bind]. destruct (pl_inputs_decl child); [|done]. by destruct v.
Qed.

Lemma call_worker_safe p i s version rid workers payload ct deadline opts :
  accepted p -> pl_steps p !! i = Some s -> call_worker p i s version rid workers payload ct deadline opts <> Panicked.
Proof.
  intros Hac Hs. unfold call_worker. case_goal; [done|].
  destruct (accepted_indexed p i s Hac Hs) as (_ & _ & [raw ->]).
  match goal with |- context [attempts ?m ?s ?r ?c ?n ?b] => pose proof (attempts_safe m s raw c n b) as Ha;
    destruct (attempts m s r c n b) as [[[v meta]|]|]; [|done..] end.
  apply materialize_safe.
Qed.

Lemma resolve_version_safe s sn : fst (resolve_version s sn) <> Panicked.
Proof. unfold resolve_version. repeat case_match; done. Qed.

Lemma execute_step_safe nested p i s ctx rid opts anc sn :
  nested_safe nested -> accepted p -> ctx_ok p ctx -> pl_steps p !! i = Some s ->
  fst (execute_step nested p i s ctx rid opts anc sn) <> Panicked.
Proof.
  intros Hn Hac Hctx Hs. unfold execute_step, m_bind, m_lift, m_outcome.
  pose proof (resolve_version_safe s sn) as Hv. destruct (resolve_version s sn) as [[[version|]|] sn1]; [|done..].
  case_goal; [done|]. pose proof (payload_never_panics p i s ctx opts Hac Hctx Hs) as Hp.
  destruct (step_payload p i s ctx opts) as [[[payload ct]|]|]; [|done..].
  destruct (sb_autoload _); [|done]. case_goal; [done|].
  destruct (sb_entry _) as [[[] workers]|]; [| |done]; [|by apply call_worker_safe].
  case_goal; [done|]. pose proof (nested_request_safe nested s version payload ct opts Hn) as Hreq.
  destruct (nested_request _ _ _ _ _) as [[[root opts']|]|]; [|done..]. case_goal; [done|].
  match goal with |- context [nested ?a ?b ?c ?d ?e ?f sn1] => pose proof (proj1 Hn a b c d e f sn1) as Hns;
    destruct (nested a b c d e f sn1) as [[[[v m|nodes c']|]|] sn2] end; try done. apply materialize_safe.
Qed.

Lemma output_dotless p : good_plan p -> dotless (output_name p) /\ is_root (output_name p) = false.
Proof.
  intros [Hac Ht _]. unfold output_name, name_at. destruct (lookup_lt_is_Some_2 _ _ (ac_output _ Hac)) as [s Hs]. rewrite Hs.
  assert (s ∈ pl_steps p) as Hin by (by eapply list_elem_of_lookup_2). split; [by eapply td_names|].
  by apply (po_names _ (ac_plan _ Hac)).
Qed.

Lemma output_plain_insert p ctx k v :
  output_plain p ctx -> (is_some (pl_output_field p) = true -> k = output_name p -> is_envelope v = false) ->
  output_plain p (<[k := v]> ctx).
Proof.
  intros Ho Hk Hf w Hw. apply lookup_insert_Some in Hw as [[Heq <-]|[_ Hw]]; [by apply Hk|by apply (Ho Hf)].
Qed.

Lemma output_plain_aliases p ctx step ad values :
  dotless (output_name p) -> output_plain p ctx ->
  Forall2 (fun ad kv => fst kv = step +:+ "." +:+ fst ad /\ has_type (od_ty (snd ad)) (snd kv)) ad values ->
  output_plain p (foldl (fun c kv => <[fst kv := snd kv]> c) ctx values).
Proof.
  intros Hdot Hout Hv. revert ctx Hout. induction Hv as [|[alias d] [k v] ad values [Hk _] _ IH]; intros ctx Hout; [done|].
  simpl in *. subst k. apply IH, output_plain_insert; [done|]. intros _ He.
  pose proof (dot_key_dotted step alias) as Hd. rewrite He in Hd. congruence.
Qed.

Lemma handle_keeps_inv nested p i s ctx ctx0 rid opts anc sn r sn' metas cm' :
  good_plan p -> pl_steps p !! i = Some s -> run_inv p ctx ->
  execute_step nested p i s ctx0 rid opts anc sn = (Done r, sn') ->
  handle_step_result s r (ctx, metas) = Ok cm' -> run_inv p (fst cm').
Proof.
  intros Hg Hs [Hctx Hout] He. assert (s ∈ pl_steps p) as Hin by (by eapply list_elem_of_lookup_2).
  unfold handle_step_result. destruct r as [res|e]; [|case_goal; [by intros [= <-]|done]].
  intros [= <-]. apply execute_step_ok in He as (raw & meta & Hm & Hplain). cbn [fst]. split.
  { by eapply materialize_keeps_ctx; [apply Hg|apply Hg|..]. }
  unfold materialize_step_outputs in Hm. destruct (es_outputs_decl s) as [ad|].
  - apply o_bind_ok in Hm as (raw' & _ & (values & Hv & [= <-])%o_bind_ok).
    apply materialize_aliases_ok in Hv. eapply output_plain_aliases; [by apply output_dotless|done..].
  - injection Hm as <-. simpl. apply output_plain_insert; [done|]. intros Hf Hn. apply Hplain. intros n.
    rewrite Hn. by apply (gp_output _ Hg).
Qed.

Definition valid_layers (p : EnsemblePlan) (layers : list (list nat)) : Prop :=
  forall l i, l ∈ layers -> i ∈ l -> exists s, pl_steps p !! i = Some s.

Lemma drive_steps_safe nested p order ctx rid opts anc cm sn :
  nested_safe nested -> good_plan p -> ctx_ok p ctx -> run_inv p (fst cm) ->
  (forall i, i ∈ order -> exists s, pl_steps p !! i = Some s) ->
  match drive_steps nested p order ctx rid opts anc cm sn with
  | (Panicked, _) => False
  | (Done (Ok cm'), _) => run_inv p (fst cm')
  | (Done (Err _), _) => True
  end.
Proof.
  intros Hn Hg Hctx. revert cm sn. induction order as [|i order IH]; intros cm sn Hinv Hval; simpl; [done|].
  destruct (Hval i ltac:(by left)) as [s Hs]. rewrite Hs.
  set (ctx0 := select_ctx_keys ctx _).
  assert (Hctx0 : ctx_ok p ctx0) by (eapply ctx_ok_subset; [done|]; intros k v; apply select_ctx_keys_lookup).
  pose proof (execute_step_safe nested p i s ctx0 rid opts anc sn Hn (gp_accepted _ Hg) Hctx0 Hs) as Hsafe.
  destruct (execute_step nested p i s ctx0 rid opts anc sn) as [[r|] sn1] eqn:He; [|done].
  destruct cm as [c metas]. destruct (handle_step_result s r (c, metas)) as [cm'|] eqn:Hh; [|done].
  apply IH; [by eapply handle_keeps_inv|]. intros j Hj. apply Hval. by right.
Qed.

Lemma build_layer_safe p layer ctx absent opts sn :
  accepted p -> (forall i, i ∈ layer -> exists s, pl_steps p !! i = Some s) ->
  match build_layer p layer ctx absent opts sn with
  | (Panicked, _) => False
  | (Done (Ok runs), _) => forall i, i ∈ runs -> i ∈ layer
  | (Done (Err _), _) => True
  end.
Proof.
  intros Hac. revert sn. induction layer as [|i layer IH]; intros sn Hval; simpl; [done|].
  destruct (Hval i ltac:(by left)) as [s Hs]. rewrite Hs. unfold m_bind at 1.
  assert (Hb : fst (build_step p i s ctx absent opts sn) <> Panicked).
  { destruct (accepted_indexed p i s Hac Hs) as ([names Hnames] & [keys Hkeys] & _).
    unfold build_step, m_bind, m_lift, m_outcome. destruct (when_passes s opts ctx); [|done]. case_goal; [done|].
    rewrite Hnames, Hkeys. cbn [o_some]. case_goal; [done|].
    pose proof (resolve_version_safe s sn). by destruct (resolve_version s sn) as [[[]|] ?]. }
  destruct (build_step p i s ctx absent opts sn) as [[[runs|]|] sn1]; [|done..]. unfold m_bind.
  specialize (IH sn1 (fun j Hj => Hval j ltac:(by right))).
  destruct (build_layer p layer ctx absent opts sn1) as [[[rest|]|] sn2]; [|done..]. simpl.
  intros j. destruct runs; [|set_solver]. set_solver.
Qed.

Lemma layers_run_safe nested p layers k absent rid opts anc cm sn :
  nested_safe nested -> good_plan p -> run_inv p (fst cm) -> valid_layers p layers ->
  match layers_run nested p layers k absent rid opts anc cm sn with
  | (Panicked, _) => False
  | (Done (Ok cm'), _) => run_inv p (fst cm')
  | (Done (Err _), _) => True
  end.
Proof.
  intros Hn Hg. revert k cm sn. induction layers as [|layer layers IH]; intros k cm sn Hinv Hval; simpl; [done|].
  unfold m_bind at 1. pose proof (build_layer_safe p layer (fst cm) absent opts sn (gp_accepted _ Hg) (fun i Hi => Hval layer i ltac:(by left) Hi)) as Hb.
  destruct (build_layer p layer (fst cm) absent opts sn) as [[[runs|]|] sn1]; [|done..]. unfold m_bind.
  pose proof (drive_steps_safe nested p (completion_order rid k runs) (fst cm) rid opts anc cm sn1 Hn Hg (proj1 Hinv) Hinv) as Hd.
  destruct (drive_steps _ _ _ _ _ _ _ _ _) as [[[cm'|]|] sn2]; [|done|].
  - apply IH; [|intros l i Hl; apply Hval; by right]. apply Hd. intros i Hi.
    rewrite completion_perm in Hi. apply (Hval layer); [by left|by apply Hb].
  - apply Hd. intros i Hi. rewrite completion_perm in Hi. apply (Hval layer); [by left|by apply Hb].
Qed.

(** ** Whole runs *)

Lemma bind_pair_ok {A B} (r : result AppError A) (b : B) po :
  (let? p := r in Ok (p, b)) = Ok po -> r = Ok (fst po).
Proof. destruct r; simpl; [|done]. by intros [= <-]. Qed.

Lemma choose_set_of lp payload opts po : choose_set lp payload opts = Ok po -> plan_of lp (fst po).
Proof.
  unfold choose_set. destruct lp as [q|sets path]; [intros Hc%bind_pair_ok; by eapply select_dag_set_of|].
  destruct (op_dag_selector opts) as [sel|]; [intros Hc%bind_pair_ok; by eapply select_dag_set_of|].
  destruct path as [path|]; [|intros Hc%bind_pair_ok; by eapply select_dag_set_of].
  destruct (resolve_dag_selector_from_value payload path) as [sel|]; [|done]. cbn [result_bind]. intros Hc%bind_pair_ok.
  destruct sel; [by eapply select_from_body_of|by eapply select_dag_set_of].
Qed.

Lemma plan_layers_valid p : accepted p -> valid_layers p (pl_layers p).
Proof.
  intros Hac l i Hl Hi. destruct (ac_layers _ Hac) as (names & _ & He). rewrite He in Hl.
  apply list_elem_of_fmap in Hl as (ns & -> & _). apply list_elem_of_omap in Hi as (n & _ & Hn).
  unfold step_position in Hn. destruct (list_find _ _) as [[k s]|] eqn:Hf; [|done]. injection Hn as <-.
  apply list_find_Some in Hf as [Hf _]. by eexists.
Qed.

Lemma pre_layers_valid p chain : valid_layers p (pl_layers p) -> valid_layers p (pre_layers p chain).
Proof.
  intros Hv l i Hl Hi. apply list_elem_of_In, filter_In in Hl as [Hl _]. apply in_map_iff in Hl as (l0 & <- & Hl0).
  apply list_elem_of_In, filter_In in Hi as [Hi _]. by eapply Hv; apply list_elem_of_In.
Qed.

Lemma tail_layers_valid p ls : valid_layers p (pl_layers p) -> tail_layers p = Ok ls -> valid_layers p ls.
Proof.
  intros Hv. unfold tail_layers. destruct (list_find _ _) as [[k l0]|]; [|done]. intros [= <-] l i Hl Hi.
  eapply Hv; [|done]. apply list_elem_of_lookup in Hl as [j Hj]. apply lookup_take_Some in Hj as [Hj _].
  by eapply list_elem_of_lookup_2.
Qed.

Lemma root_plain p root : good_plan p -> output_plain p (fst (root_context root)).
Proof.
  intros Hg Hf v Hv. destruct (output_dotless p Hg) as [Hd Hr]. exfalso. destruct root as [w|values absent]; simpl in Hv.
  - apply lookup_singleton_Some in Hv as [He _]. by rewrite <- He in Hr.
  - apply foldl_inputs_lookup in Hv as [Hv|(n & _ & He)]; [by rewrite lookup_empty in Hv|].
    pose proof (dot_key_dotted "inputs" n) as Hk. change ("inputs" +:+ "." +:+ n) with ("inputs." +:+ n) in Hk.
    rewrite He in Hd. congruence.
Qed.

Lemma output_exists p : accepted p -> exists s, pl_steps p !! pl_output_step p = Some s /\ output_name p = es_name s.
Proof.
  intros Hac. destruct (lookup_lt_is_Some_2 _ _ (ac_output _ Hac)) as [s Hs]. exists s. split; [done|].
  unfold output_name, name_at. by rewrite Hs.
Qed.

Lemma build_response_safe p model ctx metas :
  accepted p -> run_inv p ctx -> build_response p model ctx metas <> Panicked.
Proof.
  intros Hac [_ Ho]. unfold build_response. destruct (pl_outputs p); [done|].
  destruct (output_exists p Hac) as (s & -> & Hn). cbn [o_some o_bind]. rewrite <- Hn.
  destruct (ctx !! output_name p) as [v|] eqn:Hv; [|done]. cbn [ok_or o_bind]. unfold select_output_field.
  destruct (pl_output_field p) as [f|] eqn:Hf; [|done].
  assert (He : is_envelope v = false) by (unfold output_plain in Ho; rewrite Hf in Ho; by apply (Ho eq_refl)).
  destruct v as [j|b| |]; try done; cbn [o_bind]; by destruct (let? _ := _ in _).
Qed.

Lemma run_layers_safe nested p layers absent model version rid opts anc cm sn :
  nested_safe nested -> good_plan p -> run_inv p (fst cm) -> valid_layers p layers ->
  match run_layers nested p layers absent model version rid opts anc cm sn with
  | (Panicked, _) => False
  | (Done (Ok cm'), _) => run_inv p (fst cm')
  | (Done (Err _), _) => True
  end.
Proof. intros. unfold run_layers. case_goal; [done|]. by apply layers_run_safe. Qed.

Lemma run_plan_safe nested model version p dags payload rid opts anc sn :
  nested_safe nested -> good_plan p -> fst (run_plan nested model version p dags payload rid opts anc sn) <> Panicked.
Proof.
  intros Hn Hg. unfold run_plan. unfold m_bind at 1, m_lift at 1.
  destruct (parse_root_inputs payload (pl_inputs_decl p) dags) as [root|] eqn:Hr; [|done].
  pose proof (root_context_ok p payload dags root (gp_accepted _ Hg) (gp_tidy _ Hg) Hr) as Hctx.
  pose proof (root_plain p root Hg) as Hpl. destruct (root_context root) as [ctx absent]. cbn [fst] in *.
  pose proof (plan_layers_valid p (gp_accepted _ Hg)) as Hv.
  assert (Hrun : forall layers, valid_layers p layers ->
    match run_layers nested p layers absent model version rid opts anc (ctx, ∅) sn with
    | (Panicked, _) => False | (Done (Ok cm'), _) => run_inv p (fst cm') | (Done (Err _), _) => True end).
  { intros layers Hl. by apply run_layers_safe. }
  destruct (output_exists p (gp_accepted _ Hg)) as (s & Hs & _). unfold m_bind at 1, m_outcome at 1. rewrite Hs. cbn [o_some].
  case_goal; [|destruct (pl_chains p) as [|chain chains]]; unfold m_bind.
  - specialize (Hrun _ Hv). destruct (run_layers _ _ _ _ _ _ _ _ _ _ _) as [[[cm|]|] sn']; [|done..].
    apply build_response_safe; [apply Hg|done].
  - unfold m_lift. destruct (tail_layers p) as [ls|] eqn:Ht; [|done].
    specialize (Hrun _ (tail_layers_valid _ _ Hv Ht)).
    destruct (run_layers _ _ _ _ _ _ _ _ _ _ _) as [[[cm|]|] sn']; [|done..]. by case_goal.
  - specialize (Hrun _ (pre_layers_valid _ chain Hv)).
    destruct (run_layers _ _ _ _ _ _ _ _ _ _ _) as [[[cm|]|] sn']; [|done..]. by case_goal.
Qed.

(** What holds of every plan the cache hands out. *)
Record sound_plans (parse_json : string -> result string Value) : Prop := {
  sp_parsed : forall model version lp, get_plan model version = Ok lp ->
    exists b, parse_ensemble_plan parse_json b = Some (Ok lp);
  sp_tidy : forall model version lp p, get_plan model version = Ok lp -> plan_of lp p -> tidy p;
  sp_worker_output : forall model version lp p, get_plan model version = Ok lp -> plan_of lp p -> worker_output p;
}.

Lemma sound_plan_good parse_json model version lp p :
  sound_plans parse_json -> get_plan model version = Ok lp -> plan_of lp p -> good_plan p.
Proof.
  intros [Hp Ht Ho] Hg Hof. split; [|by eapply Ht|by eapply Ho].
  destruct (Hp _ _ _ Hg) as [b Hb]. by eapply parse_plan_accepted.
Qed.

Lemma inner_safe parse_json levels : sound_plans parse_json -> nested_safe (execute_ensemble_inner levels).
Proof.
  intros Hg. split.
  2:{ intros m v lp p Hp Hof. apply lookup_lt_is_Some, ac_output.
      exact (gp_accepted _ (sound_plan_good _ _ _ _ _ Hg Hp Hof)). }
  induction levels as [|levels IH]; intros m v root rid opts anc sn; [done|]. simpl. unfold m_bind, m_lift.
  destruct (get_plan m v) as [lp|] eqn:Hp; [|done]. destruct (choose_set lp root opts) as [po|] eqn:Hc; [|done].
  apply run_plan_safe.
  - split; [exact IH|]. intros m' v' lp' p Hp' Hof. apply lookup_lt_is_Some, ac_output.
    exact (gp_accepted _ (sound_plan_good _ _ _ _ _ Hg Hp' Hof)).
  - eapply sound_plan_good; [done..|]. by eapply choose_set_of.
Qed.

(** C31. The static types of ensemble files are sound: when every plan comes from
    the parser, has step names without dots, and projects no field from a nested
    ensemble, no request panics at any of the code's unreachable arms (a raw
    response at a declared step among them), unwraps and expects (the parsed payload
    of a nested ensemble) or index expressions (layers, output and tail steps,
    per-step keys and conditions), whatever the workers answer, in whatever order
    steps complete and however deep ensembles are nested. *)
Theorem no_run_panics parse_json model version payload rid opts :
  sound_plans parse_json -> execute_ensemble model version payload rid opts <> Panicked.
Proof. intros Hg. by eapply (proj1 (inner_safe _ _ Hg)). Qed.
End safety.

(** ** The in-frame container *)

Lemma to_le_bytes_length n z : length (to_le_bytes n z) = n.
Proof. revert z. induction n as [|n IH]; intros z; simpl; [done|]. by rewrite IH. Qed.

Lemma le_bytes_roundtrip n z : (0 <= z < 256 ^ Z.of_nat n)%Z -> from_le_bytes (to_le_bytes n z) = z.
Proof.
  revert z. induction n as [|n IH]; intros z Hz; simpl; [simpl in Hz; lia|].
  rewrite IH; [pose proof (Z.div_mod z 256); lia|].
  rewrite Nat2Z.inj_succ, Z.pow_succ_r in Hz by lia. split; [apply Z.div_pos; lia|apply Z.div_lt_upper_bound; lia].
Qed.

Section envelopes.
Context `{Codec}.

Lemma split_encoded head tail :
  from_slice (to_bytes head) = Ok head -> (Z.of_nat (length (to_bytes head)) <= usize_max - 12)%Z ->
  split_envelope (encode_lsbe1 head tail) = Ok (head, if bool_decide (tail = []) then None else Some tail).
Proof.
  intros Hparse Hlen. unfold split_envelope, encode_lsbe1. set (hb := to_bytes head) in *.
  set (lb := to_le_bytes 8 (Z.of_nat (length hb))). assert (Hlb : length lb = 8%nat) by apply to_le_bytes_length.
  rewrite bool_decide_true by done. cbn [negb].
  assert (Hl : length (LSB1 ++ lb ++ hb ++ tail)%list = (12 + length hb + length tail)%nat)
    by (rewrite !length_app, Hlb; simpl; lia).
  rewrite Hl. replace (Nat.ltb _ 12) with false by (symmetry; apply Nat.ltb_ge; lia).
  assert (He : take 8 (drop 4 (LSB1 ++ lb ++ hb ++ tail)%list) = lb) by (cbn [LSB1 app drop]; apply take_app_length'; lia).
  assert (Hle : from_le_bytes lb = Z.of_nat (length hb)).
  { apply le_bytes_roundtrip. unfold usize_max in Hlen. simpl. lia. }
  rewrite He, Hle.
  replace (usize_max <? _)%Z with false by (symmetry; apply Z.ltb_ge; lia).
  replace (Z.of_nat _ <? _)%Z with false by (symmetry; apply Z.ltb_ge; lia).
  replace (Z.to_nat (12 + Z.of_nat (length hb))) with (12 + length hb)%nat by lia.
  replace (12 + length hb - 12)%nat with (length hb) by lia.
  assert (Hd : drop 12 (LSB1 ++ lb ++ hb ++ tail)%list = (hb ++ tail)%list).
  { rewrite (assoc_L (++)%list LSB1). apply drop_app_length'. rewrite length_app, Hlb. simpl. lia. }
  rewrite Hd, take_app_length, Hparse. cbn [map_err result_bind]. f_equal. f_equal.
  rewrite <- drop_drop, Hd, drop_app_length. case_bool_decide as Ht.
  - subst tail. simpl. by rewrite (proj2 (Z.eqb_eq _ _)) by lia.
  - destruct tail as [|x tail]; [done|]. rewrite (proj2 (Z.eqb_neq _ _)); [done|]. simpl. lia.
Qed.

(** The in-frame container of an envelope is read back as written: head and tail
    survive encoding and decoding, for every tail, while the head prints and parses
    back and its length fits. *)
Theorem container_roundtrip head tail ct :
  from_slice (to_bytes head) = Ok head -> (Z.of_nat (length (to_bytes head)) <= usize_max - 12)%Z ->
  ensemble_payload_from_bytes (encode_lsbe1 head tail) ct = Ok (VEnvelope head tail).
Proof.
  intros Hp Hl. unfold ensemble_payload_from_bytes. rewrite bool_decide_true by done. rewrite split_encoded by done.
  cbn [result_bind fst snd]. case_bool_decide; [by subst|done].
Qed.
End envelopes.

(** ** The theorems at concrete runs *)

(** A document is an object whose score is its first byte. *)
#[export] Instance demo_codec : Codec :=
  {| from_slice b := match b with z :: _ => Ok (Object [("score", Num (PosInt z))]) | [] => Err "syntax" end;
     is_raw_json b := negb (bool_decide (b = []));
     to_bytes _ := [1%Z];
     show_value _ := "value";
     base64_decode _ := Ok [] |}.

Definition no_json (_ : string) : result string Value := Err "not JSON".

Definition raw_step (name model : string) (inputs : gmap string string) : EnsembleStepRaw :=
  {| sr_name := name; sr_model := model; sr_version := Some "1"; sr_inputs := Some inputs; sr_stream := false;
     sr_forward_headers := []; sr_passthrough := false; sr_params := ∅; sr_timeout_secs := None;
     sr_on_error := None; sr_retries := None; sr_outputs := None; sr_when := None |}.

Definition input_of (ty : InputType) (required : bool) : InputDecl :=
  {| id_ty := ty; id_required := required; id_default := None; id_content_type := None; id_shape := None;
     id_datatype := None |}.

Definition block_of (steps : list EnsembleStepRaw) (output : option string) (outputs : option (IndexMap string))
    (inputs : option (IndexMap InputDecl)) : EnsembleBlock :=
  {| eb_set := {| ds_steps := steps; ds_output := output; ds_outputs := outputs; ds_inputs := inputs |};
     eb_dags := None; eb_dag_selector := None |}.

Definition loaded (b : EnsembleBlock) : result AppError LoadedPlan :=
  match parse_ensemble_plan no_json b with Some (Ok lp) => Ok lp | _ => Err (Config "ensemble") end.

Definition answer (media_type : string) (data : Bytes) : Attempt :=
  {| at_answer := Answered (Some {| sp_status := None; sp_status_code := 200; sp_headers := ∅;
                                    sp_media_type := media_type; sp_data := data |});
     at_remaining := None |}.

(** The model [inner] is an ensemble, all others are workers that answer by request id. *)
Definition demo_env (outer inner : EnsembleBlock) (nested : string) (replies : string -> Attempt) : Environment :=
  {| active_version _ _ := Some "1";
     get_plan model _ := loaded (if String.eqb model "inner" then inner else outer);
     sub_model rid := {| sb_autoload := Ok tt; sb_ready := true; sb_entry := Some (String.eqb rid nested, 1%nat) |};
     now_at _ := 0%Z;
     answers c _ := replies (cl_request_id c);
     trace_headers _ := ∅; nested_times_out _ := false; run_times_out _ := false;
     completion_order _ _ l := l; completion_perm _ _ l := reflexivity l;
     capacity _ _ := true |}.

Definition demo_opts : EnsembleExecOpts :=
  {| op_client_ip := ""; op_deadline := None; op_deadline_client_specified := false; op_dag_selector := None;
     op_request_headers := ∅; op_request_body := None; op_request_content_type := None |}.

(** A request with these named inputs. *)
Definition named_inputs (m : IndexMap Value) : EnsembleValue :=
  VJson (Object [("inputs", Array (map (fun nv => Object [("data", snd nv); ("name", Str (fst nv))]) m))]).

Definition seven (_ : string) : Attempt := answer "application/json" [7%Z].

Definition demo_block : EnsembleBlock :=
  block_of [raw_step "a" "m" {[ "x" := "$inputs.x" ]}; raw_step "b" "m" {[ "y" := "$a" ]}] (Some "$b.score") None
    (Some [("x", input_of TJson true)]).

Lemma loaded_parsed b lp : loaded b = Ok lp -> parse_ensemble_plan no_json b = Some (Ok lp).
Proof. unfold loaded. destruct (parse_ensemble_plan no_json b) as [[]|]; congruence. Qed.

(** The checks of [sound_plans] for a file with one set whose steps declare no outputs. *)
Definition tidy_block (b : EnsembleBlock) : bool :=
  match loaded b with
  | Ok (SinglePlan p) =>
      forallb (fun s => negb (has_char dot (es_name s)) && negb (is_some (es_outputs_decl s))) (pl_steps p)
      && match pl_inputs_decl p with Some decl => bool_decide (NoDup decl.*1) | None => true end
  | _ => false
  end.

Lemma tidy_block_spec b lp p : tidy_block b = true -> loaded b = Ok lp -> plan_of lp p -> tidy p.
Proof.
  unfold tidy_block. intros Ht Hl. rewrite Hl in Ht. destruct lp as [q|]; [|done]. simpl. intros ->.
  apply andb_true_iff in Ht as [Hs Hi]. rewrite forallb_forall in Hs. split.
  - intros s Hin%list_elem_of_In%Hs. apply andb_true_iff in Hin as [Hd _]. by destruct (has_char dot (es_name s)).
  - intros decl He. rewrite He in Hi. by apply bool_decide_eq_true in Hi.
  - intros s decl Hin%list_elem_of_In%Hs He. by rewrite He, andb_false_r in Hin.
Qed.

Lemma demo_env_sound b replies : tidy_block b = true -> @sound_plans _ _ (demo_env b b "" replies) no_json.
Proof.
  intros Ht. assert (Hone : forall model : string, (if String.eqb model "inner" then b else b) = b)
    by (intros model; by destruct (String.eqb model "inner")).
  split; simpl; intros model version lp; rewrite Hone.
  - intros Hl. exists b. by apply loaded_parsed.
  - intros p. by apply tidy_block_spec.
  - intros p _ _ _ rid n. simpl. destruct (String.eqb_spec (rid +:+ ":" +:+ output_name p) ""); [by destruct rid|done].
Qed.

Lemma no_run_panics_witness :
  @execute_ensemble _ _ (demo_env demo_block demo_block "" seven) "outer" "1" (named_inputs [("x", Null)]) "r" demo_opts
  = Done (Ok (OUnary (VJson (Num (PosInt 7))) (Some {| srm_status_code := 200; srm_headers := ∅ |}))) /\
  @execute_ensemble _ _ (demo_env demo_block demo_block "" seven) "outer" "1" (VRaw []) "r" demo_opts <> Panicked.
Proof.
  split; [vm_compute; reflexivity|]. apply (@no_run_panics _ _ _ (demo_env demo_block demo_block "" seven) no_json).
  apply demo_env_sound. vm_compute. reflexivity.
Defined.

(** A step may be named like the key of a declared input.  Its output then replaces that
    input in the context, and a step that reads the input as the declared JSON panics. *)
Definition dotted_block : EnsembleBlock :=
  block_of [raw_step "inputs.x" "m" {[ "q" := "$inputs.x" ]}; raw_step "a" "m" {[ "q" := "$inputs.x" ]};
            raw_step "b" "m" {[ "x" := "$inputs.x"; "y" := "$a" ]}] (Some "$b") None
    (Some [("x", input_of TJson true)]).

Definition png_from (step rid : string) : Attempt :=
  if String.eqb rid step then answer "image/png" [1%Z; 2%Z] else seven rid.

Example dotted_step_name_panics :
  @execute_ensemble _ _ (demo_env dotted_block dotted_block "" (png_from "r:inputs.x")) "outer" "1"
    (named_inputs [("x", Null)]) "r" demo_opts = Panicked.
Proof. vm_compute. reflexivity. Qed.

(** A nested ensemble with binary sinks answers with an envelope; projecting a field of
    it as the outer output panics, and referring to it is an internal error. *)
Definition sinks_block : EnsembleBlock :=
  block_of [{| sr_name := "s"; sr_model := "m"; sr_version := Some "1"; sr_inputs := Some {[ "q" := "$request" ]};
               sr_stream := false; sr_forward_headers := []; sr_passthrough := false; sr_params := ∅;
               sr_timeout_secs := None; sr_on_error := None; sr_retries := None;
               sr_outputs := Some [("img", {| od_ty := TBinary; od_path := None |})]; sr_when := None |}]
    None (Some [("img", "$s.img")]) None.

Definition over_sinks (steps : list EnsembleStepRaw) (output : string) : Outcome EnsembleOutcome :=
  @execute_ensemble _ _ (demo_env (block_of (raw_step "n" "inner" {[ "q" := "$request" ]} :: steps) (Some output) None None)
    sinks_block "r:n" (png_from "r:n:s")) "outer" "1" (VJson Null) "r" demo_opts.

Example envelope_in_context :
  over_sinks [] "$n.score" = Panicked /\
  over_sinks [raw_step "t" "m" {[ "q" := "$n" ]}] "$t" = Done (Err (Internal "envelope reached a DAG edge")).
Proof. split; vm_compute; reflexivity. Qed.

Lemma container_roundtrip_witness :
  encode_lsbe1 (Object [("score", Num (PosInt 1))]) [9; 8]%Z = [76; 83; 66; 49; 1; 0; 0; 0; 0; 0; 0; 0; 1; 9; 8]%Z /\
  ensemble_payload_from_bytes (encode_lsbe1 (Object [("score", Num (PosInt 1))]) [9; 8]%Z) None
  = Ok (VEnvelope (Object [("score", Num (PosInt 1))]) [9; 8]%Z).
Proof.
  split; [vm_compute; reflexivity|]. apply container_roundtrip; [vm_compute; reflexivity|]. vm_compute. discriminate.
Defined.
