(* ===== verification/EnsembleFlow.v ===== *)
(** * Properties of ensemble runs: what flows along the edges

    About [EnsembleRun.v]: when a layer starts, every key that a step of it reads is in
    the context.  The layers, the conditions, the optional inputs and the filter of the
    context each contribute: a step that reads an optional input does not run when the
    input is absent, the steps it reads were in earlier layers and had to succeed, and
    the filtered context keeps every key that is read.

    The rules leave one gap: a step that may be absent may read another such step
    ([absent_step_reached]); [no_absent_edges] excludes it. *)

From S2P Require Import Prelude Text Float Json Errors Deadline Ensemble EnsembleProps EnsembleRules.
From S2P Require Import EnsembleRulesProps EnsembleRun EnsembleRunProps.
Import Errors.Render.
Open Scope string_scope.

Section flow.
Context `{MapIter} `{HttpSyntax} `{Codec} `{Environment}.
Implicit Types (p : EnsemblePlan) (s : EnsembleStep) (ctx : gmap string EnsembleValue).

(** ** Optional inputs *)

Lemma analyze_refs_each steps decl step refs mode cond mode' cond' :
  analyze_refs steps decl step refs mode cond = Ok (mode', cond') ->
  cond ⊆ cond' /\ forall r, r ∈ refs -> exists m mc, analyze_ref steps decl step r m = Ok mc /\ snd mc ⊆ cond'.
Proof.
  revert mode cond. induction refs as [|r refs IH]; intros mode cond; simpl; [by intros [= <- <-]; set_solver|].
  destruct (analyze_ref steps decl step r mode) as [mc|] eqn:Ha; [|done]. simpl. intros [Hc Hr]%IH. split; [set_solver|].
  intros r' [->|Hin]%elem_of_cons; [|by apply Hr]. exists mode, mc. set_solver.
Qed.

Lemma when_refs_lookup steps decl cond out i c :
  validate_when_refs steps decl cond = Ok out -> cond !! i = Some c -> exists c', out !! i = Some c' /\ c ⊆ c'.
Proof.
  revert cond out i. induction steps as [|s steps IH]; intros cond out i; simpl; [by intros [= <-]; eauto|].
  destruct cond as [|c0 cond]; [done|]. destruct (validate_when decl s) as [names|]; [|done]. simpl.
  destruct (validate_when_refs steps decl cond) as [rest|] eqn:Hr; [|done]. simpl. intros [= <-].
  destruct i as [|i]; simpl; [intros [= <-]; eexists; split; [done|set_solver]|by apply IH].
Qed.

Lemma ref_analyzed p i s r :
  accepted p -> pl_steps p !! i = Some s -> r ∈ step_refs s ->
  exists m mc cond, analyze_ref (pl_steps p) (pl_inputs_decl p) (es_name s) r m = Ok mc /\
    pl_conditional_refs p !! i = Some cond /\ snd mc ⊆ cond.
Proof.
  intros Hac Hs Hr. destruct (ac_types _ Hac) as (cond & Ha & Hw).
  destruct (analyze_static_lookup _ _ _ _ _ _ Ha Hs) as (mode & c & _ & Hc & Hrefs & _).
  apply analyze_refs_each in Hrefs as [_ Hall]. destruct (Hall r Hr) as (m & mc & Hmc & Hsub).
  destruct (when_refs_lookup _ _ _ _ _ _ Hw Hc) as (c' & Hc' & Hcc'). exists m, mc, c'. set_solver.
Qed.

Lemma fill_defaults_covers decl values absent values' absent' :
  fill_defaults decl values absent = Ok (values', absent') ->
  (forall n, n ∈ values.*1 -> n ∈ values'.*1) /\
  (forall n d, (n, d) ∈ decl -> n ∈ values'.*1 \/ optional_input d = true /\ n ∈ absent') /\
  (forall n, n ∈ absent -> n ∈ absent').
Proof.
  revert values absent. induction decl as [|[n d] decl IH]; intros values absent; simpl; [intros [= <- <-]; set_solver|].
  destruct (index_get n values) as [v|] eqn:Hg; simpl.
  - intros (Hv & Hd & Ha)%IH. split_and!; [done| |done]. intros n' d' [[= -> ->]|Hin]%elem_of_cons; [|by eapply Hd].
    left. apply Hv. apply index_get_Some in Hg. apply list_elem_of_fmap. by exists (n, v).
  - destruct (id_required d) eqn:Hreq; [done|]. destruct (id_default d) as [def|] eqn:Hdef.
    + intros (Hv & Hd & Ha)%IH. split_and!; [intros n' Hn'; apply Hv; rewrite fmap_app; set_solver| |done].
      intros n' d' [[= -> ->]|Hin]%elem_of_cons; [|by eapply Hd]. left. apply Hv. rewrite fmap_app. set_solver.
    + intros (Hv & Hd & Ha)%IH. split_and!; [done| |set_solver].
      intros n' d' [[= -> ->]|Hin]%elem_of_cons; [|by eapply Hd]. right. split; [|apply Ha; set_solver].
      unfold optional_input. by rewrite Hreq, Hdef.
Qed.

Lemma inputs_inserted (values : IndexMap EnsembleValue) ctx n :
  n ∈ values.*1 \/ is_Some (ctx !! ("inputs." +:+ n)) ->
  is_Some (foldl (fun c nv => <["inputs." +:+ fst nv := snd nv]> c) ctx values !! ("inputs." +:+ n)).
Proof.
  revert ctx. induction values as [|[k v] values IH]; intros ctx; simpl; [set_solver|]. intros Hn. apply IH.
  destruct (decide (n = k)) as [->|Hne]; [right; by rewrite lookup_insert_eq|].
  destruct Hn as [Hn|Hn]; [left; set_solver|right]. rewrite lookup_insert_ne; [done|]. by intros ?%inputs_key_inj.
Qed.

(** The root context has the declared inputs but for absent optional ones, or the request. *)
Lemma root_covers p payload dags root :
  parse_root_inputs payload (pl_inputs_decl p) dags = Ok root ->
  match pl_inputs_decl p with
  | None => is_Some (fst (root_context root) !! "request")
  | Some decl => forall n d, index_get n decl = Some d ->
      is_Some (fst (root_context root) !! ("inputs." +:+ n)) \/
      optional_input d = true /\ n ∈ snd (root_context root)
  end.
Proof.
  unfold parse_root_inputs. destruct (pl_inputs_decl p) as [decl|].
  - destruct (match payload with VJson _ => _ | _ => _ end) as [[hd tl]|]; [|done]. simpl.
    destruct (ok_or _ _) as [els|]; [|done]. simpl.
    destruct (parse_elements decl dags tl els 0 []) as [[values off]|]; [|done]. simpl.
    destruct (negb _); [done|]. destruct (fill_defaults decl values []) as [[values' absent]|] eqn:Hf; [|done].
    intros [= <-] n d Hg. simpl. apply fill_defaults_covers in Hf as (_ & Hd & _).
    destruct (Hd n d (index_get_Some _ _ _ Hg)) as [Hin|?]; [|by right]. left. apply inputs_inserted. by left.
  - destruct payload; simpl; try case_match; intros [= <-]; simpl; by rewrite lookup_singleton_eq.
Qed.

(** ** Steps *)

Definition grows ctx ctx' : Prop := forall k, is_Some (ctx !! k) -> is_Some (ctx' !! k).

#[local] Instance grows_preorder : PreOrder grows.
Proof. split; unfold grows; eauto. Qed.

(** The outputs of a step are in the context. *)
Definition provides s ctx : Prop :=
  match es_outputs_decl s with
  | None => is_Some (ctx !! es_name s)
  | Some decl => forall alias, alias ∈ decl.*1 -> is_Some (ctx !! (es_name s +:+ "." +:+ alias))
  end.

Lemma provides_grows s ctx ctx' : grows ctx ctx' -> provides s ctx -> provides s ctx'.
Proof. unfold provides. destruct (es_outputs_decl s); eauto. Qed.

Lemma inserted_grows (values : list (string * EnsembleValue)) ctx :
  grows ctx (foldl (fun c kv => <[fst kv := snd kv]> c) ctx values).
Proof.
  revert ctx. induction values as [|[k v] values IH]; intros ctx; simpl; [done|]. etrans; [|apply IH].
  intros k' Hk'. destruct (decide (k = k')) as [->|Hne]; [by rewrite lookup_insert_eq|by rewrite lookup_insert_ne].
Qed.

Lemma inserted_has (values : list (string * EnsembleValue)) ctx k :
  k ∈ values.*1 -> is_Some (foldl (fun c kv => <[fst kv := snd kv]> c) ctx values !! k).
Proof.
  revert ctx. induction values as [|[k0 v] values IH]; intros ctx; simpl; [set_solver|].
  intros [->|Hk]%elem_of_cons; [|by apply IH]. apply inserted_grows. by rewrite lookup_insert_eq.
Qed.

Lemma aliases_keys step raw decl values :
  materialize_aliases step raw decl = Done (Ok values) -> values.*1 = (fun a => step +:+ "." +:+ a) <$> decl.*1.
Proof.
  revert values. induction decl as [|[alias d] decl IH]; intros values; simpl; [by intros [= <-]|].
  intros (v & _ & (rest & Hr & [= <-])%o_bind_ok)%o_bind_ok. simpl. f_equal. by apply IH.
Qed.

Lemma materialize_provides s raw meta res ctx :
  materialize_step_outputs s raw meta = Done (Ok res) ->
  provides s (foldl (fun c kv => <[fst kv := snd kv]> c) ctx (st_values res)).
Proof.
  unfold materialize_step_outputs, provides. destruct (es_outputs_decl s) as [decl|].
  - intros (raw' & _ & (values & Hm & [= <-])%o_bind_ok)%o_bind_ok alias Ha. simpl.
    apply inserted_has. rewrite (aliases_keys _ _ _ _ Hm). apply list_elem_of_fmap. by exists alias.
  - intros [= <-]. simpl. by rewrite lookup_insert_eq.
Qed.

(** A completed layer keeps the context and adds the outputs of the steps that may not be
    skipped. *)
Lemma drive_steps_provide nested p order ctx rid opts anc cm sn cm' sn' :
  drive_steps nested p order ctx rid opts anc cm sn = (Done (Ok cm'), sn') ->
  grows (fst cm) (fst cm') /\
  forall i s, i ∈ order -> pl_steps p !! i = Some s -> is_skip s = false -> provides s (fst cm').
Proof.
  revert cm sn. induction order as [|i order IH]; intros cm sn; simpl; [intros [= <- <-]; split; [done|set_solver]|].
  destruct (pl_steps p !! i) as [s|] eqn:Hs; [|done].
  destruct (execute_step _ _ _ _ _ _ _ _ sn) as [[r|] sn1] eqn:He; [|done].
  destruct (handle_step_result s r cm) as [cm1|] eqn:Hh; [|done]. intros [Hg Hp]%IH.
  unfold handle_step_result in Hh. destruct r as [res|e].
  - injection Hh as <-. simpl in Hg. split; [etrans; [apply inserted_grows|done]|].
    intros j s' [->|Hj]%elem_of_cons Hs' Hk; [|by eapply Hp]. assert (s' = s) as -> by congruence.
    eapply provides_grows; [done|]. apply execute_step_ok in He as (raw & meta & Hm & _). by eapply materialize_provides.
  - destruct (is_skip s) eqn:Hsk; [|done]. injection Hh as <-. split; [done|].
    intros j s' [->|Hj]%elem_of_cons Hs' Hk; [|by eapply Hp]. congruence.
Qed.

(** ** Layers *)

(** Step [i] has no condition, no optional input and may not be skipped. *)
Definition unconditional p i s : Prop :=
  is_skip s = false /\ es_when s = None /\ default [] (pl_conditional_refs p !! i) = [].

Lemma build_step_unconditional p i s ctx absent opts sn b sn' :
  build_step p i s ctx absent opts sn = (Done (Ok b), sn') -> unconditional p i s -> b = true.
Proof.
  intros Hb (_ & Hw & Hc). unfold build_step, when_passes, m_bind, m_lift, m_outcome in Hb. rewrite Hw in Hb. simpl in Hb.
  destruct (pl_conditional_refs p !! i) as [names|]; [|done]. simpl in Hb, Hc. subst names. simpl in Hb.
  destruct (pl_step_dep_keys p !! i); [|done]. simpl in Hb.
  destruct (resolve_version s sn) as [[[]|] ?]; [|done..]. by injection Hb as <- _.
Qed.

Lemma build_step_present p i s ctx absent opts sn sn' :
  build_step p i s ctx absent opts sn = (Done (Ok true), sn') ->
  forall n, n ∈ default [] (pl_conditional_refs p !! i) -> n ∉ absent.
Proof.
  unfold build_step, m_bind, m_lift, m_outcome. destruct (when_passes s opts ctx) as [b|]; [|done].
  destruct (negb b); [done|]. destruct (pl_conditional_refs p !! i) as [names|]; [|done]. cbn [o_some default].
  destruct (existsb _ _) eqn:He; [done|]. intros _ n Hn Hab.
  assert (existsb (fun n => bool_decide (n ∈ absent)) names = true); [|congruence].
  apply existsb_exists. exists n. split; [by apply list_elem_of_In|by apply bool_decide_eq_true].
Qed.

Lemma build_layer_runs p layer ctx absent opts sn runs sn' :
  build_layer p layer ctx absent opts sn = (Done (Ok runs), sn') ->
  (forall i s, i ∈ layer -> pl_steps p !! i = Some s -> unconditional p i s -> i ∈ runs) /\
  (forall i, i ∈ runs -> i ∈ layer /\ forall n, n ∈ default [] (pl_conditional_refs p !! i) -> n ∉ absent).
Proof.
  revert sn runs. induction layer as [|i layer IH]; intros sn runs; simpl; [intros [= <- <-]; set_solver|].
  destruct (pl_steps p !! i) as [s|] eqn:Hs; [|done]. unfold m_bind.
  destruct (build_step p i s ctx absent opts sn) as [[[b|]|] sn1] eqn:Hb; [|done..].
  destruct (build_layer p layer ctx absent opts sn1) as [[[rest|]|] sn2] eqn:Hl; [|done..].
  unfold m_ret. intros [= <- <-]. destruct (IH _ _ Hl) as [Hu Hr]. split.
  - intros j s' [->|Hj]%elem_of_cons Hs' Hun.
    + rewrite (build_step_unconditional _ _ _ _ _ _ _ _ _ Hb); [by left|]. by replace s with s' by congruence.
    + specialize (Hu j s' Hj Hs' Hun). destruct b; [by right|done].
  - intros j Hj. destruct b; [apply elem_of_cons in Hj as [->|Hj]|].
    + split; [by left|]. by eapply build_step_present.
    + destruct (Hr j Hj). split; [by right|done].
    + destruct (Hr j Hj). split; [by right|done].
Qed.

Lemma layers_run_provide nested p layers k absent rid opts anc cm sn cm' sn' :
  layers_run nested p layers k absent rid opts anc cm sn = (Done (Ok cm'), sn') ->
  grows (fst cm) (fst cm') /\
  forall l i s, l ∈ layers -> i ∈ l -> pl_steps p !! i = Some s -> unconditional p i s -> provides s (fst cm').
Proof.
  revert k cm sn. induction layers as [|layer layers IH]; intros k cm sn; simpl; [intros [= <- <-]; split; [done|set_solver]|].
  unfold m_bind. destruct (build_layer p layer (fst cm) absent opts sn) as [[[runs|]|] sn1] eqn:Hb; [|done..].
  destruct (drive_steps _ _ _ _ _ _ _ _ _) as [[[cm1|]|] sn2] eqn:Hd; [|done..]. intros [Hg Hp]%IH.
  apply drive_steps_provide in Hd as [Hg1 Hp1]. apply build_layer_runs in Hb as [Hu _]. split; [by etrans|].
  intros l i s [->|Hl]%elem_of_cons Hi Hs Hun; [|by eapply Hp]. eapply provides_grows; [done|].
  eapply Hp1; [|done|by destruct Hun]. rewrite completion_perm. by eapply Hu.
Qed.

(** ** Keys *)

Lemma dep_keys_covers steps refs keys out :
  dep_keys steps refs keys = Ok out ->
  keys ⊆ out /\ forall r, r ∈ refs -> exists key, context_key_for_ref steps r = Some key /\ key ∈ out.
Proof.
  revert keys. induction refs as [|r refs IH]; intros keys; simpl; [intros [= <-]; set_solver|].
  destruct (context_key_for_ref steps r) as [key|] eqn:Hk; [|done]. simpl. intros [Hsub Hr]%IH.
  assert (keys ⊆ out /\ key ∈ out) as [Hks Hkey] by (case_bool_decide; set_solver). split; [done|].
  intros r' [->|Hin]%elem_of_cons; [by exists key|by apply Hr].
Qed.

Lemma all_dep_keys_lookup all steps keys i s :
  all_dep_keys all steps = Ok keys -> steps !! i = Some s ->
  exists ks, keys !! i = Some ks /\ dep_keys all (step_refs s) [] = Ok ks.
Proof.
  revert keys i. induction steps as [|s0 steps IH]; intros keys i; simpl; [done|].
  destruct (dep_keys all (step_refs s0) []) as [ks|] eqn:Hk; [|done]. simpl.
  destruct (all_dep_keys all steps) as [rest|]; [|done]. intros [= <-].
  destruct i as [|i]; simpl; [intros [= <-]; eauto|by apply IH].
Qed.

Lemma ref_target_key steps r source rest key path :
  ref_captures r = Some (source, rest) -> ref_target steps r source rest = Ok (key, path) ->
  context_key_for_ref steps r = Some key.
Proof.
  intros Hc. unfold ref_target, context_key_for_ref. rewrite Hc. destruct (String.eqb source "inputs"); [by intros [= <- _]|].
  destruct (find_step steps source ≫= es_outputs_decl); [|case_goal; [done|]]; by intros [= <- _].
Qed.

(** A reference is absent only if its key is. *)
Lemma resolve_absent steps r ctx n :
  resolve_ref steps r ctx = Ok (RefAbsent n) -> exists key, context_key_for_ref steps r = Some key /\ ctx !! key = None.
Proof.
  unfold resolve_ref. destruct (ref_captures r) as [[source rest]|] eqn:Hc; [|done].
  destruct (ref_target steps r source rest) as [[key path]|] eqn:Ht; [|done]. cbn [result_bind fst snd].
  intros Hr. exists key. split; [by eapply ref_target_key|].
  destruct (ctx !! key) as [[]|]; [| | | |done]; destruct path; simpl in Hr; try done; try by destruct (declared_binary_edge _ _ _).
  - by destruct (map_err _ _).
  - destruct (map_err _ (from_slice b)); [|done]. simpl in Hr. by destruct (map_err _ _).
Qed.

Lemma select_ctx_keys_has ctx keys k : k ∈ keys -> is_Some (ctx !! k) -> is_Some (select_ctx_keys ctx keys !! k).
Proof.
  intros Hk [v Hv]. unfold select_ctx_keys. induction keys as [|k0 keys IH]; [set_solver|]. simpl.
  apply elem_of_cons in Hk as [->|Hk]; [by rewrite Hv; simpl; rewrite lookup_insert_eq|].
  destruct (ctx !! k0) as [v0|]; simpl; [|by apply IH].
  destruct (decide (k0 = k)) as [->|Hne]; [by rewrite lookup_insert_eq|rewrite lookup_insert_ne; [by apply IH|done]].
Qed.

(** ** The keys a layer reads *)

(** The gap of the rules: a step that may be absent reads a step that may be absent. *)
Definition no_absent_edges p : bool :=
  let absent := absentable_names (pl_steps p) (pl_conditional_refs p) in
  forallb (fun s => negb (bool_decide (es_name s ∈ absent)) || negb (existsb (ref_names_one_of absent) (step_refs s)))
    (pl_steps p).

Lemma read_steps_present p s r source rest :
  accepted p -> no_absent_edges p = true -> s ∈ pl_steps p -> r ∈ step_refs s -> ref_captures r = Some (source, rest) ->
  source ∉ absentable_names (pl_steps p) (pl_conditional_refs p).
Proof.
  intros Hac Hna Hs Hr Hc Hin. set (absent := absentable_names _ _) in *.
  assert (Href : existsb (ref_names_one_of absent) (step_refs s) = true).
  { apply existsb_exists. exists r. split; [by apply list_elem_of_In|]. unfold ref_names_one_of. rewrite Hc.
    by apply bool_decide_eq_true. }
  unfold no_absent_edges in Hna. rewrite forallb_forall in Hna. specialize (Hna s (proj1 (list_elem_of_In _ _) Hs)).
  fold absent in Hna. rewrite Href in Hna. pose proof (ac_skip _ Hac) as Hk. unfold validate_skip_rules in Hk.
  fold absent in Hk. rewrite bool_decide_false in Hk by (intros He; rewrite He in Hin; set_solver).
  destruct (check_all _ (zip _ _)) as [[]|]; [|done]. simpl in Hk.
  destruct (check_all (fun s0 => if bool_decide (es_name s0 ∈ absent) then _ else _) _) as [[]|] eqn:Hc2; [|done].
  rewrite check_all_ok in Hc2. specialize (Hc2 s Hs). case_bool_decide; [done|]. by rewrite Href in Hc2.
Qed.

Lemma step_position_name steps name j : step_position steps name = Some j -> exists s, steps !! j = Some s /\ es_name s = name.
Proof.
  unfold step_position. destruct (list_find _ _) as [[k s]|] eqn:Hf; [|done]. intros [= <-].
  apply list_find_Some in Hf as (Hk & Hn & _). eauto.
Qed.

Lemma step_position_total steps s : s ∈ steps -> exists j, step_position steps (es_name s) = Some j.
Proof.
  intros Hs. unfold step_position. destruct (list_find _ _) as [[k s']|] eqn:Hf; [by eexists|].
  rewrite list_find_None in Hf. rewrite Forall_forall in Hf. by destruct (Hf s Hs).
Qed.

Lemma not_absentable_unconditional p j s :
  pl_steps p !! j = Some s -> es_name s ∉ absentable_names (pl_steps p) (pl_conditional_refs p) -> accepted p ->
  unconditional p j s.
Proof.
  intros Hs Hn Hac. destruct (ac_types _ Hac) as (cond & Ha & Hw).
  destruct (analyze_static_lookup _ _ _ _ _ _ Ha Hs) as (mode & c & _ & Hc & _).
  destruct (when_refs_lookup _ _ _ _ _ _ Hw Hc) as (c' & Hc' & _). unfold unconditional. rewrite Hc'. simpl.
  destruct (absentable s c') eqn:Hab.
  - destruct Hn. unfold absentable_names. apply list_elem_of_omap. exists (s, c'). simpl. rewrite Hab. split; [|done].
    apply list_elem_of_lookup. exists j. rewrite lookup_zip_with, Hs. simpl. by rewrite Hc'.
  - unfold absentable in Hab. apply orb_false_iff in Hab as [[Hsk Hb]%orb_false_iff Hwn].
    split_and!; [done|by destruct (es_when s)|]. by apply negb_false_iff, bool_decide_eq_true in Hb.
Qed.

(** The steps that a step of layer [k] reads are in earlier layers. *)
Lemma source_in_earlier_layer p k layer i s source r rest :
  accepted p -> pl_layers p !! k = Some layer -> i ∈ layer -> pl_steps p !! i = Some s ->
  r ∈ step_refs s -> ref_captures r = Some (source, rest) -> is_root source = false ->
  exists l j src, l ∈ take k (pl_layers p) /\ j ∈ l /\ pl_steps p !! j = Some src /\ es_name src = source.
Proof.
  intros Hac Hk Hi Hs Hr Hc Hroot. destruct (ac_layers _ Hac) as (names & Hl & Heq).
  destruct (layers_in_order _ (ac_dag _ Hac)) as (names' & Hl' & Hperm & Hord). assert (names' = names) as -> by congruence.
  rewrite Heq, list_lookup_fmap in Hk. destruct (names !! k) as [ns|] eqn:Hns; [|done]. injection Hk as <-.
  apply list_elem_of_omap in Hi as (n & Hn & Hpos). destruct (step_position_name _ _ _ Hpos) as (s' & Hs' & <-).
  assert (s' = s) as -> by congruence. assert (Hin : s ∈ pl_steps p) by (by eapply list_elem_of_lookup_2).
  assert (Hd : source ∈ step_deps s).
  { rewrite step_deps_sources. apply elem_of_list_to_set, list_elem_of_omap. exists r. split; [done|].
    unfold ref_source. by rewrite Hc, Hroot. }
  destruct (Hord k ns s source Hns Hin Hn Hd) as (m & l & Hlt & Hm & Hsrc).
  assert (exists src, src ∈ pl_steps p /\ es_name src = source) as (src & Hsin & Hsn).
  { assert (source ∈ map es_name (pl_steps p)) as Hx.
    { rewrite <- Hperm. apply list_elem_of_join. exists l. split; [done|]. by eapply list_elem_of_lookup_2. }
    apply list_elem_of_fmap in Hx as (src & -> & ?). eauto. }
  subst source. destruct (step_position_total _ _ Hsin) as [j Hj]. destruct (step_position_name _ _ _ Hj) as (src' & Hsj & Hnj).
  exists (omap (step_position (pl_steps p)) l), j, src'. split_and!; [| |done|done].
  - apply list_elem_of_lookup. exists m. rewrite lookup_take_lt by done. rewrite Heq, list_lookup_fmap. by rewrite Hm.
  - apply list_elem_of_omap. by exists (es_name src).
Qed.

(** A step whose output is read provides the key that is read. *)
Lemma provides_key p s r m mc source rest src key ctx :
  analyze_ref (pl_steps p) (pl_inputs_decl p) (es_name s) r m = Ok mc -> ref_captures r = Some (source, rest) ->
  is_root source = false -> find_step (pl_steps p) source = Some src -> context_key_for_ref (pl_steps p) r = Some key ->
  provides src ctx -> is_Some (ctx !! key).
Proof.
  intros Ha Hc Hroot Hf Hkey Hp. unfold is_root in Hroot. apply orb_false_iff in Hroot as [Hq Hi].
  apply bool_decide_eq_false in Hq, Hi. apply find_step_Some in Hf as Hsrc. destruct Hsrc as [_ <-].
  unfold analyze_ref in Ha. unfold context_key_for_ref in Hkey. rewrite Hc in Ha, Hkey. unfold provides in Hp.
  apply String.eqb_neq in Hq, Hi. rewrite Hq, Hi, Hf in Ha. rewrite Hi, Hf in Hkey. simpl in Ha, Hkey.
  destruct (es_outputs_decl src) as [ad|]; [|by injection Hkey as <-].
  destruct rest as [rest|]; [|done]. simpl in Ha, Hkey.
  destruct (index_get (first_segment rest) ad) as [d|] eqn:Hg; [|done]. injection Hkey as <-. apply Hp.
  apply index_get_Some in Hg. apply list_elem_of_fmap. by exists (first_segment rest, d).
Qed.

(** What a layer's step reads is in the context when the layer starts. *)
Lemma layer_keys_present nested p payload dags root k layer rid opts anc cm sn sn1 i s r key :
  accepted p -> no_absent_edges p = true ->
  parse_root_inputs payload (pl_inputs_decl p) dags = Ok root ->
  layers_run nested p (take k (pl_layers p)) 0 (snd (root_context root)) rid opts anc (fst (root_context root), ∅) sn
    = (Done (Ok cm), sn1) ->
  pl_layers p !! k = Some layer -> i ∈ layer -> pl_steps p !! i = Some s -> r ∈ step_refs s ->
  (forall n, n ∈ default [] (pl_conditional_refs p !! i) -> n ∉ snd (root_context root)) ->
  context_key_for_ref (pl_steps p) r = Some key -> is_Some (fst cm !! key).
Proof.
  intros Hac Hna Hroot Hrun Hk Hi Hs Hr Hpres Hkey. apply layers_run_provide in Hrun as [Hgrow Hprov].
  destruct (ref_analyzed _ _ _ _ Hac Hs Hr) as (m & mc & cond & Ha & Hcond & Hsub). rewrite Hcond in Hpres. simpl in Hpres.
  pose proof (root_covers _ _ _ _ Hroot) as Hcov. assert (Hin : s ∈ pl_steps p) by (by eapply list_elem_of_lookup_2).
  destruct (po_refs _ (ac_plan _ Hac) s r Hin Hr) as (source & rest & Hc & Hsrc).
  destruct (is_root source) eqn:Hir.
  - unfold analyze_ref in Ha. unfold context_key_for_ref in Hkey. rewrite Hc in Ha, Hkey.
    apply orb_true_iff in Hir. rewrite !bool_decide_eq_true in Hir. destruct Hir as [-> | ->]; simpl in Ha, Hkey.
    + destruct (pl_inputs_decl p); [done|]. destruct (find_step (pl_steps p) "request") as [src|] eqn:Hf.
      { apply find_step_Some in Hf as [Hsrc' Hn]. pose proof (po_names _ (ac_plan _ Hac) _ Hsrc'). by rewrite Hn in *. }
      simpl in Hkey. injection Hkey as <-. by apply Hgrow.
    + destruct (pl_inputs_decl p) as [decl|]; [|done]. injection Hkey as <-.
      destruct (index_get (ref_name rest) decl) as [d|] eqn:Hg; [|done]. simpl in Ha.
      destruct (Hcov _ _ Hg) as [Hsome|[Hopt Hab]]; [by apply Hgrow|]. exfalso.
      destruct (_ && has_path rest); [done|]. destruct (join_type _ _ _); [|done]. simpl in Ha. rewrite Hopt in Ha.
      injection Ha as <-. simpl in Hsub. by apply (Hpres (ref_name rest)); [set_solver|].
  - destruct (source_in_earlier_layer _ _ _ _ _ _ _ _ Hac Hk Hi Hs Hr Hc Hir) as (l & j & src & Hl & Hj & Hsj & <-).
    eapply provides_key; [done..| |done|].
    { apply find_step_in; [apply (po_distinct _ (ac_plan _ Hac))|]. by eapply list_elem_of_lookup_2. }
    eapply Hprov; [done..|]. apply not_absentable_unconditional; [done| |done]. by eapply read_steps_present.
Qed.

(** C37. Whatever a step of an accepted plan reads is there when the step runs:
    after the layers before it, in the context filtered to the keys of the step, no
    reference of a step that is let run resolves to an absent value, provided no
    step that may be absent reads another such step (the case the rules miss). *)
Theorem layers_supply_references nested p payload dags root k layer rid opts anc cm sn sn1 runs sn2 i s name r :
  accepted p -> no_absent_edges p = true ->
  parse_root_inputs payload (pl_inputs_decl p) dags = Ok root ->
  layers_run nested p (take k (pl_layers p)) 0 (snd (root_context root)) rid opts anc (fst (root_context root), ∅) sn
    = (Done (Ok cm), sn1) ->
  pl_layers p !! k = Some layer ->
  build_layer p layer (fst cm) (snd (root_context root)) opts sn1 = (Done (Ok runs), sn2) ->
  i ∈ runs -> pl_steps p !! i = Some s -> es_inputs s !! name = Some r ->
  forall n, resolve_ref (pl_steps p) r (select_ctx_keys (fst cm) (default [] (pl_step_dep_keys p !! i)))
    <> Ok (RefAbsent n).
Proof.
  intros Hac Hna Hroot Hrun Hk Hb Hi Hs Hin n Habs. apply build_layer_runs in Hb as [_ Hb].
  destruct (Hb i Hi) as [Hil Hpres]. apply elem_of_map_iter, step_refs_inputs in Hin as Hr.
  destruct (all_dep_keys_lookup _ _ _ _ _ (ac_keys _ Hac) Hs) as (ks & Hks & Hdep).
  apply dep_keys_covers in Hdep as [_ Hdep]. destruct (Hdep r Hr) as (key & Hkey & Hkin). rewrite Hks in Habs.
  apply resolve_absent in Habs as (key' & Hkey' & Hnone). assert (key' = key) as -> by congruence.
  assert (is_Some (fst cm !! key)) as Hsome by (by eapply layer_keys_present).
  destruct (select_ctx_keys_has (fst cm) ks key Hkin Hsome) as [v Hv]. simpl in Hnone. congruence.
Qed.
End flow.

(** ** The theorem at a concrete run, and the gap *)

Definition absent_block : EnsembleBlock :=
  block_of [raw_step "opt" "m" {[ "q" := "$inputs.y" ]}; raw_step "use" "m" {[ "p" := "$opt"; "q" := "$inputs.z" ]};
            raw_step "out" "m" {[ "q" := "$inputs.x" ]}] (Some "$out") None
    (Some [("x", input_of TJson true); ("y", input_of TJson false); ("z", input_of TJson false)]).

(** A plan whose step [use] reads the optional step [opt] is accepted; without the input
    of [opt] the request fails with an internal error, although [use] could be left out. *)
Example absent_step_reached :
  (exists p, loaded absent_block = Ok (SinglePlan p) /\ no_absent_edges p = false) /\
  @execute_ensemble _ _ (demo_env absent_block absent_block "" seven) "outer" "1"
    (named_inputs [("x", Null); ("z", Null)]) "r" demo_opts
  = Done (Err (Internal "step 'use' resolved absent input 'opt'")).
Proof. split; [eexists; split|]; vm_compute; reflexivity. Qed.

(** The plan of a file that is accepted as a single set. *)
Definition empty_plan : EnsemblePlan :=
  {| pl_steps := []; pl_layers := []; pl_output_step := 0; pl_output_field := None; pl_chains := []; pl_inputs_decl := None;
     pl_input_modes := []; pl_conditional_refs := []; pl_step_dep_keys := []; pl_step_raw_eligible := []; pl_outputs := None |}.

Definition single_plan (b : EnsembleBlock) : EnsemblePlan :=
  match loaded b with Ok (SinglePlan p) => p | _ => empty_plan end.

Definition demo_root : RootInputs := RootNamed [("x", VJson Null)] [].

Lemma layers_supply_witness :
  exists cm sn, @layers_run _ _ (demo_env demo_block demo_block "" seven) (fun _ _ _ _ _ _ sn => (Panicked, sn))
      (single_plan demo_block) (take 1 (pl_layers (single_plan demo_block))) 0 [] "r" demo_opts []
      (fst (root_context demo_root), ∅) no_versions = (Done (Ok cm), sn) /\
    resolve_ref (pl_steps (single_plan demo_block)) "$a"
      (select_ctx_keys (fst cm) (default [] (pl_step_dep_keys (single_plan demo_block) !! 1%nat))) <> Ok (RefAbsent "a").
Proof.
  eexists _, _. split; [vm_compute; reflexivity|].
  eapply (@layers_supply_references _ _ (demo_env demo_block demo_block "" seven) (fun _ _ _ _ _ _ sn => (Panicked, sn))
    (single_plan demo_block) (named_inputs [("x", Null)]) false demo_root 1 [1%nat] "r" demo_opts [] _ no_versions _ [1%nat] _ 1%nat
    _ "y" "$a").
  - eapply parse_plan_accepted; [apply (loaded_parsed demo_block)|]; vm_compute; reflexivity.
  - vm_compute. reflexivity.
  - vm_compute. reflexivity.
  - vm_compute. reflexivity.
  - vm_compute. reflexivity.
  - vm_compute. reflexivity.
  - by left.
  - vm_compute. reflexivity.
  - vm_compute. reflexivity.
Defined.
