(* ===== verification/EnsembleOrder.v ===== *)
(** * Properties of ensemble runs: the order of completion

    About [EnsembleRun.v]: the steps of a layer run concurrently and their outputs are
    stored as they complete.  While the active versions stay as they are, what a request
    answers does not depend on that order, in the request itself or in nested ones:
    steps write under keys of their own, and all steps of a layer read the context of the
    layer's start. *)

From S2P Require Import Prelude Text Float Json Errors Deadline Ensemble EnsembleProps EnsembleRules.
From S2P Require Import EnsembleRulesProps EnsembleRun EnsembleRunProps EnsembleFlow.
Import Errors.Render.
Open Scope string_scope.

(** The same surroundings with another order of completion. *)
Definition reordered (E : Environment) (order : string -> nat -> list nat -> list nat)
    (perm : forall rid layer l, order rid layer l ≡ₚ l) : Environment :=
  {| active_version := @active_version E; get_plan := @get_plan E; sub_model := @sub_model E; now_at := @now_at E;
     answers := @answers E; trace_headers := @trace_headers E; nested_times_out := @nested_times_out E;
     run_times_out := @run_times_out E; completion_order := order; completion_perm := perm;
     capacity := @capacity E |}.

(** The active versions do not change. *)
Definition steady (E : Environment) : Prop := forall n model, @active_version E n model = @active_version E 0 model.

Definition ok_of {A} (o : Outcome A) : option A := match o with Done (Ok a) => Some a | _ => None end.

(** ** Computations that agree *)

Section sim.
Context (E : Environment) (Hst : steady E).

(** What has been resolved is active. *)
Definition pinned (sn : VersionSnapshot) : Prop :=
  forall model v, sn_resolved sn !! model = Some v -> @active_version E 0 model = Some v.

Definition sim {A} (m1 m2 : M A) : Prop := forall sn1 sn2, pinned sn1 -> pinned sn2 ->
  ok_of (fst (m1 sn1)) = ok_of (fst (m2 sn2)) /\ pinned (snd (m1 sn1)) /\ pinned (snd (m2 sn2)).

Lemma sim_outcome {A} (o : Outcome A) : sim (m_outcome o) (m_outcome o).
Proof. done. Qed.

Lemma sim_lift {A} (r : result AppError A) : sim (m_lift r) (m_lift r).
Proof. done. Qed.

Lemma sim_bind {A B} (m1 m2 : M A) (k1 k2 : A -> M B) :
  sim m1 m2 -> (forall a, sim (k1 a) (k2 a)) -> sim (m_bind m1 k1) (m_bind m2 k2).
Proof.
  intros Hm Hk sn1 sn2 H1 H2. destruct (Hm sn1 sn2 H1 H2) as (Ho & H1' & H2'). unfold m_bind.
  destruct (m1 sn1) as [[[a|]|] s1], (m2 sn2) as [[[b|]|] s2]; simpl in *; try done.
  injection Ho as <-. by apply Hk.
Qed.

Lemma sim_bind_lift {A B} (r : result AppError A) (k1 k2 : A -> M B) :
  (forall a, r = Ok a -> sim (k1 a) (k2 a)) -> sim (m_bind (m_lift r) k1) (m_bind (m_lift r) k2).
Proof. unfold m_bind, m_lift. destruct r; [|done]. intros Hk. by apply Hk. Qed.

Lemma sim_resolve (s : EnsembleStep) : sim (resolve_version s) (resolve_version s).
Proof.
  assert (Hone : forall sn, pinned sn -> ok_of (fst (resolve_version s sn)) =
      match es_version s with Some v => Some v | None => @active_version E 0 (es_model s) end /\
      pinned (snd (resolve_version s sn))).
  { intros sn Hp. unfold resolve_version. destruct (es_version s) as [v|]; [done|].
    destruct (sn_resolved sn !! es_model s) as [v|] eqn:Hr; [by rewrite (Hp _ _ Hr)|]. rewrite Hst.
    destruct (active_version 0 (es_model s)) as [v|] eqn:Ha; [|done]. split; [done|].
    intros m w. simpl. rewrite lookup_insert_Some. intros [[<- <-]|[_ Hw]]; [done|by apply Hp]. }
  intros sn1 sn2 H1 H2. destruct (Hone sn1 H1) as [-> ?], (Hone sn2 H2) as [-> ?]. done.
Qed.
End sim.

(** ** Keys of different steps *)

(** A key under which a step writes. *)
Definition own_key (s : EnsembleStep) (k : string) : Prop := k = es_name s \/ exists alias, k = es_name s +:+ "." +:+ alias.

Lemma own_keys_disjoint s s' k :
  dotless (es_name s) -> dotless (es_name s') -> es_name s <> es_name s' -> own_key s k -> ~ own_key s' k.
Proof.
  intros Hd Hd' Hne [->|[a ->]] [He|[a' He]]; [done| | |].
  - pose proof (dot_key_dotted (es_name s') a') as Hk. rewrite <- He in Hk. congruence.
  - pose proof (dot_key_dotted (es_name s) a) as Hk. rewrite He in Hk. congruence.
  - by apply dot_key_inj in He as [? _].
Qed.

Section keys.
Context `{Codec}.

Lemma outputs_own s raw meta res k : materialize_step_outputs s raw meta = Done (Ok res) -> k ∈ (st_values res).*1 -> own_key s k.
Proof.
  unfold materialize_step_outputs. destruct (es_outputs_decl s) as [decl|].
  - intros (raw' & _ & (values & Hm & [= <-])%o_bind_ok)%o_bind_ok. simpl.
    rewrite (aliases_keys _ _ _ _ Hm). intros (a & -> & _)%list_elem_of_fmap. right. by exists a.
  - intros [= <-]. simpl. intros ->%list_elem_of_singleton. by left.
Qed.
End keys.

Abbreviation store := (foldl (fun (c : gmap string EnsembleValue) kv => <[fst kv := snd kv]> c)) (only parsing).

Lemma store_insert_comm (values : list (string * EnsembleValue)) ctx k v :
  k ∉ values.*1 -> store (<[k := v]> ctx) values = <[k := v]> (store ctx values).
Proof.
  revert ctx. induction values as [|[k' v'] values IH]; intros ctx Hk; simpl in *; [done|].
  apply not_elem_of_cons in Hk as [Hne Hk]. rewrite insert_insert_ne by done. by apply IH.
Qed.

Lemma store_comm (l l' : list (string * EnsembleValue)) ctx :
  (forall k, k ∈ l.*1 -> k ∉ l'.*1) -> store (store ctx l) l' = store (store ctx l') l.
Proof.
  revert ctx. induction l as [|[k v] l IH]; intros ctx Hd; simpl in *; [done|].
  rewrite IH by set_solver. rewrite store_insert_comm by set_solver. done.
Qed.

(** Names without dots, one step each. *)
Definition good_names (p : EnsemblePlan) : Prop :=
  (forall i s, pl_steps p !! i = Some s -> dotless (es_name s)) /\
  (forall i j s s', pl_steps p !! i = Some s -> pl_steps p !! j = Some s' -> es_name s = es_name s' -> i = j).

Lemma good_plan_names `{MapIter} `{Environment} p : good_plan p -> good_names p.
Proof.
  intros [Hac Ht _]. split; [intros i s Hs; eapply td_names; [done|]; by eapply list_elem_of_lookup_2|].
  intros i j s s' Hi Hj He. eapply NoDup_lookup; [apply (po_distinct _ (ac_plan _ Hac))| |].
  - rewrite list_lookup_fmap, Hi. done.
  - rewrite list_lookup_fmap, Hj. simpl. by rewrite He.
Qed.

(** ** Layers as effects *)

Section effects.
Context `{MapIter} `{HttpSyntax} `{Codec}.
Implicit Types (p : EnsemblePlan) (res : nat -> option StepResults).

Abbreviation Results := (gmap string EnsembleValue * gmap string StepResponseMeta)%type (only parsing).

(** What a step's result does to the context and the metadata. *)
Definition effect p res (i : nat) (cm : Results) : option Results :=
  s ← pl_steps p !! i;
  ok_of (Done (handle_step_result s (match res i with Some r => Ok r | None => Err (Internal "") end) cm)).

Fixpoint effects p res (order : list nat) (cm : Results) : option Results :=
  match order with
  | [] => Some cm
  | i :: order => effect p res i cm ≫= effects p res order
  end.

Definition own_results p res : Prop :=
  forall i s r k, pl_steps p !! i = Some s -> res i = Some r -> k ∈ (st_values r).*1 -> own_key s k.

Lemma effect_comm p res i j cm :
  good_names p -> own_results p res ->
  effect p res i cm ≫= effect p res j = effect p res j cm ≫= effect p res i.
Proof.
  intros [Hdot Hdist] Hown. destruct (decide (i = j)) as [->|Hij]; [done|]. unfold effect, handle_step_result.
  destruct (pl_steps p !! i) as [s|] eqn:Hi, (pl_steps p !! j) as [s'|] eqn:Hj; simpl; [|repeat case_match; done..].
  assert (Hne : es_name s <> es_name s') by (intros He; by destruct Hij; eapply Hdist).
  destruct (res i) as [r|] eqn:Hri, (res j) as [r'|] eqn:Hrj; simpl; [| |by destruct (is_skip s)|by destruct (is_skip s), (is_skip s')].
  - f_equal. f_equal.
    + apply store_comm. intros k Hk Hk'.
      apply (own_keys_disjoint s s' k); [by eapply Hdot|by eapply Hdot|done|by eapply Hown|by eapply Hown].
    + destruct (st_meta r), (st_meta r'); simpl; try done. by rewrite insert_insert_ne.
  - by destruct (is_skip s').
Qed.

Lemma effects_perm p res l l' cm :
  good_names p -> own_results p res -> l ≡ₚ l' -> effects p res l cm = effects p res l' cm.
Proof.
  intros Hg Ho Hp. revert cm. induction Hp as [|i l l' _ IH|i j l|l1 l2 l3 _ IH1 _ IH2]; intros cm; simpl; [done| | |].
  - destruct (effect p res i cm); simpl; [apply IH|done].
  - pose proof (effect_comm p res i j cm Hg Ho) as Hc.
    destruct (effect p res i cm) as [c1|], (effect p res j cm) as [c2|]; simpl in *.
    + by rewrite Hc.
    + by rewrite Hc.
    + by rewrite <- Hc.
    + done.
  - by rewrite IH1.
Qed.

(** A layer without panics has the effects of its steps, in the order they complete. *)
Lemma drive_effects (E : Environment) (P : VersionSnapshot -> Prop) nested p order ctx rid opts anc cm sn res :
  nested_safe nested -> good_plan p -> ctx_ok p ctx -> run_inv p (fst cm) ->
  (forall i, i ∈ order -> exists s, pl_steps p !! i = Some s) ->
  (forall i s sn, pl_steps p !! i = Some s -> P sn ->
     let '(o, sn') := execute_step nested p i s (select_ctx_keys ctx (default [] (pl_step_dep_keys p !! i))) rid opts anc sn in
     ok_of o = res i /\ P sn') ->
  P sn ->
  ok_of (fst (drive_steps nested p order ctx rid opts anc cm sn)) = effects p res order cm /\
  P (snd (drive_steps nested p order ctx rid opts anc cm sn)).
Proof.
  intros Hn Hg Hctx Hinv Hval Hres. revert cm sn Hinv Hval. induction order as [|i order IH]; intros cm sn Hinv Hval HP; simpl; [done|].
  destruct (Hval i ltac:(by left)) as [s Hs]. unfold effect. rewrite Hs. simpl.
  set (ctx0 := select_ctx_keys ctx _). specialize (Hres i s sn Hs HP). fold ctx0 in Hres.
  assert (Hctx0 : ctx_ok p ctx0) by (eapply ctx_ok_subset; [done|]; intros k v; apply select_ctx_keys_lookup).
  pose proof (execute_step_safe nested p i s ctx0 rid opts anc sn Hn (gp_accepted _ Hg) Hctx0 Hs) as Hsafe.
  destruct (execute_step nested p i s ctx0 rid opts anc sn) as [[r|] sn1] eqn:He; [|done]. destruct Hres as [Hok HP1].
  assert (Hh : ok_of (Done (handle_step_result s r cm)) =
    ok_of (Done (handle_step_result s (match res i with Some r => Ok r | None => Err (Internal "") end) cm))).
  { destruct r as [r|e]; simpl in Hok; rewrite <- Hok; [done|]. simpl. by destruct (is_skip s). }
  cbn [ok_of] in Hh. rewrite <- Hh. destruct cm as [c metas]. destruct (handle_step_result s r (c, metas)) as [cm'|] eqn:Hr; simpl; [|done].
  apply IH; [by eapply handle_keeps_inv|intros j Hj; apply Hval; by right|done].
Qed.
End effects.

(** ** One step *)

Abbreviation Nested :=
  (string -> string -> EnsembleValue -> string -> EnsembleExecOpts -> list (string * string) -> M EnsembleOutcome)
  (only parsing).

Section order.
Context `{MapIter} `{HttpSyntax} `{Codec} (E : Environment) (Hst : steady E).
Context (order : string -> nat -> list nat -> list nat) (perm : forall rid layer l, order rid layer l ≡ₚ l).

Local Abbreviation E' := (reordered E order perm).
Local Abbreviation psim := (sim E).

Definition nested_sim (n1 n2 : Nested) : Prop :=
  forall model version root rid opts anc, psim (n1 model version root rid opts anc) (n2 model version root rid opts anc).

Lemma sim_resolve' s : psim (@resolve_version E s) (@resolve_version E' s).
Proof. exact (sim_resolve E Hst s). Qed.

Lemma execute_step_sim n1 n2 p i s ctx rid opts anc :
  nested_sim n1 n2 ->
  psim (@execute_step _ _ E n1 p i s ctx rid opts anc) (@execute_step _ _ E' n2 p i s ctx rid opts anc).
Proof.
  intros Hn. unfold execute_step. cbn [now_at sub_model get_plan reordered].
  apply sim_bind; [apply sim_resolve'|]. intros version. case_goal; [done|].
  apply sim_bind; [done|]. intros pc. apply sim_bind; [done|]. intros _. case_goal; [done|].
  destruct (sb_entry _) as [[[] workers]|]; [|apply (sim_outcome E)|done]. case_goal; [done|].
  apply sim_bind; [done|]. intros ro. cbn [nested_times_out reordered]. case_goal; [done|].
  apply sim_bind; [apply Hn|]. intros [v meta|nodes c]; done.
Qed.

Lemma execute_step_sim' n p i s ctx rid opts anc :
  nested_sim n n -> psim (@execute_step _ _ E n p i s ctx rid opts anc) (@execute_step _ _ E n p i s ctx rid opts anc).
Proof.
  intros Hn sn1 sn2 Hpin1 Hpin2. destruct (execute_step_sim n n p i s ctx rid opts anc Hn sn1 sn2 Hpin1 Hpin2) as (He & Hp1 & Hp2).
  destruct (execute_step_sim n n p i s ctx rid opts anc Hn sn2 sn2 Hpin2 Hpin2) as (He2 & Hp3 & _).
  split; [congruence|done].
Qed.

Lemma build_layer_sim p layer ctx absent opts :
  psim (@build_layer E p layer ctx absent opts) (@build_layer E' p layer ctx absent opts).
Proof.
  induction layer as [|i layer IH]; simpl; [done|]. destruct (pl_steps p !! i) as [s|]; [|done].
  apply sim_bind; [|intros runs; apply sim_bind; [apply IH|done]].
  unfold build_step. apply sim_bind; [done|]. intros passes. case_goal; [done|].
  apply sim_bind; [done|]. intros names. case_goal; [done|]. apply sim_bind; [done|]. intros _.
  apply sim_bind; [apply sim_resolve'|done].
Qed.

(** ** Layers *)

Lemma pinned_fresh : pinned E no_versions.
Proof. intros m v. simpl. by rewrite lookup_empty. Qed.

Section plan.
Context (n1 n2 : Nested) (Hsim : nested_sim n1 n2) (Hself : nested_sim n1 n1).
Context (Hsafe1 : nested_safe n1) (Hsafe2 : @nested_safe E' n2).
Context (p : EnsemblePlan) (Hg : @good_plan _ E p).

Lemma good_reordered : @good_plan _ E' p.
Proof. destruct Hg as [Hac Ht Ho]. by constructor. Qed.

(** What a step answers, from wherever the run is. *)
Definition step_answer ctx rid opts anc (i : nat) : option StepResults :=
  s ← pl_steps p !! i;
  ok_of (fst (@execute_step _ _ E n1 p i s (select_ctx_keys ctx (default [] (pl_step_dep_keys p !! i))) rid opts anc no_versions)).

Lemma drive_sim o1 o2 ctx rid opts anc cm sn1 sn2 :
  o1 ≡ₚ o2 -> ctx_ok p ctx -> run_inv p (fst cm) -> (forall i, i ∈ o1 -> exists s, pl_steps p !! i = Some s) ->
  pinned E sn1 -> pinned E sn2 ->
  let r1 := @drive_steps _ _ E n1 p o1 ctx rid opts anc cm sn1 in
  let r2 := @drive_steps _ _ E' n2 p o2 ctx rid opts anc cm sn2 in
  ok_of (fst r1) = ok_of (fst r2) /\ pinned E (snd r1) /\ pinned E (snd r2).
Proof.
  intros Hperm Hctx Hinv Hval Hpin1 Hpin2. simpl. set (res := step_answer ctx rid opts anc).
  destruct (drive_effects E (pinned E) n1 p o1 ctx rid opts anc cm sn1 res) as [-> Hp1]; [done..| |done|].
  { intros i s sn Hs Hp. destruct (execute_step_sim' n1 p i s (select_ctx_keys ctx (default [] (pl_step_dep_keys p !! i))) rid opts anc
      Hself sn no_versions Hp pinned_fresh) as (He & Hq & _). unfold res, step_answer. rewrite Hs. simpl.
    by destruct (execute_step _ _ _ _ _ _ _ _ sn). }
  destruct (drive_effects E' (pinned E) n2 p o2 ctx rid opts anc cm sn2 res) as [-> Hp2]; [exact Hsafe2|exact good_reordered|exact Hctx|exact Hinv| | |exact Hpin2|].
  { intros i. rewrite <- Hperm. apply Hval. }
  { intros i s sn Hs Hp. destruct (execute_step_sim n1 n2 p i s (select_ctx_keys ctx (default [] (pl_step_dep_keys p !! i))) rid opts anc
      Hsim no_versions sn pinned_fresh Hp) as (He & _ & Hq). unfold res, step_answer. rewrite Hs. simpl.
    by destruct (@execute_step _ _ E' _ _ _ _ _ _ _ _ sn). }
  split; [|done]. apply effects_perm; [by eapply good_plan_names| |done].
  intros i s r k Hs Hr Hk. unfold res, step_answer in Hr. rewrite Hs in Hr. simpl in Hr.
  destruct (execute_step _ _ _ _ _ _ _ _ _) as [[[r'|]|] sn'] eqn:He; [|done..]. injection Hr as ->.
  apply execute_step_ok in He as (raw & meta & Hm & _). by eapply outputs_own.
Qed.

Lemma layers_sim layers k absent rid opts anc cm :
  run_inv p (fst cm) -> valid_layers p layers ->
  psim (@layers_run _ _ E n1 p layers k absent rid opts anc cm) (@layers_run _ _ E' n2 p layers k absent rid opts anc cm).
Proof.
  revert k cm. induction layers as [|layer layers IH]; intros k cm Hinv Hval; simpl; [done|].
  assert (Hlay : forall i, i ∈ layer -> exists s, pl_steps p !! i = Some s) by (intros i; apply Hval; by left).
  intros sn1 sn2 Hpin1 Hpin2. destruct (build_layer_sim p layer (fst cm) absent opts sn1 sn2 Hpin1 Hpin2) as (Hb & Hp1 & Hp2).
  unfold m_bind at 1 3 5 7. pose proof (build_layer_safe p layer (fst cm) absent opts sn1 (gp_accepted _ Hg) Hlay) as Hbs.
  destruct (@build_layer E p layer (fst cm) absent opts sn1) as [[[runs|]|] s1],
    (@build_layer E' p layer (fst cm) absent opts sn2) as [[[runs'|]|] s2]; simpl in Hb, Hp1, Hp2; try done.
  injection Hb as <-. unfold m_bind.
  assert (Hruns : forall o, o ≡ₚ runs -> forall i, i ∈ o -> exists s, pl_steps p !! i = Some s).
  { intros o Ho i. rewrite Ho. intros Hi. apply Hlay. by apply Hbs. }
  pose proof (drive_steps_safe n1 p (completion_order rid k runs) (fst cm) rid opts anc cm s1 Hsafe1 Hg (proj1 Hinv) Hinv
    (Hruns _ (completion_perm rid k runs))) as Hd.
  destruct (drive_sim (completion_order rid k runs) (order rid k runs) (fst cm) rid opts anc cm s1 s2) as (Hok & Hq1 & Hq2);
    [by rewrite completion_perm, perm|apply Hinv|done|apply Hruns, completion_perm|done..|].
  cbn [completion_order reordered].
  destruct (@drive_steps _ _ E n1 _ _ _ _ _ _ _ s1) as [[[cm1|]|] t1],
    (@drive_steps _ _ E' n2 _ _ _ _ _ _ _ s2) as [[[cm2|]|] t2]; simpl in *; try done.
  injection Hok as <-. apply IH; [done| |done..]. intros l i Hl. apply Hval. by right.
Qed.

Lemma run_layers_sim layers absent model version rid opts anc cm :
  run_inv p (fst cm) -> valid_layers p layers ->
  psim (@run_layers _ _ E n1 p layers absent model version rid opts anc cm)
    (@run_layers _ _ E' n2 p layers absent model version rid opts anc cm).
Proof.
  intros Hinv Hval. unfold run_layers. cbn [now_at run_times_out reordered]. case_goal; [done|]. by apply layers_sim.
Qed.

Lemma run_plan_sim model version dags payload rid opts anc :
  psim (@run_plan _ _ E n1 model version p dags payload rid opts anc)
    (@run_plan _ _ E' n2 model version p dags payload rid opts anc).
Proof.
  unfold run_plan. apply sim_bind_lift. intros root Hr.
  pose proof (root_context_ok p payload dags root (gp_accepted _ Hg) (gp_tidy _ Hg) Hr) as Hctx.
  pose proof (root_plain p root Hg) as Hpl. destruct (root_context root) as [ctx absent]. cbn [fst] in *.
  pose proof (plan_layers_valid p (gp_accepted _ Hg)) as Hv.
  apply sim_bind; [done|]. intros tail. cbn [capacity reordered]. case_goal; [|destruct (pl_chains p) as [|chain chains]].
  - apply sim_bind; [by apply run_layers_sim|done].
  - apply sim_bind_lift. intros ls Ht. apply sim_bind; [apply run_layers_sim; [done|by eapply tail_layers_valid]|]. intros cm. by case_goal.
  - apply sim_bind; [apply run_layers_sim; [done|by apply pre_layers_valid]|]. intros cm. by case_goal.
Qed.
End plan.

Lemma inner_sim parse_json levels :
  @sound_plans _ _ E parse_json ->
  nested_sim (@execute_ensemble_inner _ _ E levels) (@execute_ensemble_inner _ _ E' levels).
Proof.
  intros Hs. assert (Hs' : @sound_plans _ _ E' parse_json) by (destruct Hs as [Hp Ht Ho]; constructor; [exact Hp|exact Ht|exact Ho]).
  induction levels as [|levels IH]; intros m v root rid opts anc; [done|]. simpl.
  apply sim_bind_lift. intros lp Hp. apply sim_bind_lift. intros po Hc.
  apply run_plan_sim; [done| |by eapply inner_safe|by eapply inner_safe|].
  - intros m' v' root' rid' opts' anc' sn1 sn2 Hpin1 Hpin2. destruct (IH m' v' root' rid' opts' anc' sn1 sn2 Hpin1 Hpin2) as (He & ? & _).
    destruct (IH m' v' root' rid' opts' anc' sn2 sn2 Hpin2 Hpin2) as (He2 & ? & _). split; [congruence|done].
  - eapply sound_plan_good; [done..|]. by eapply choose_set_of.
Qed.
End order.

(** C34. The answer of an ensemble does not depend on the order in which concurrent
    steps complete, in the request itself or in nested ones: with unchanged active
    versions and plans as above, a request that succeeds with one order of
    completion succeeds with every other and gives the same answer. *)
Theorem completion_order_irrelevant `{MapIter} `{HttpSyntax} `{Codec} (E : Environment) order perm parse_json
    model version payload rid opts r :
  steady E -> sound_plans parse_json ->
  execute_ensemble model version payload rid opts = Done (Ok r) ->
  @execute_ensemble _ _ (reordered E order perm) model version payload rid opts = Done (Ok r).
Proof.
  intros Hst Hs. unfold execute_ensemble. generalize MAX_ENSEMBLE_NESTING_DEPTH as levels. intros levels Ho.
  destruct (inner_sim E Hst order perm parse_json levels Hs model version payload rid opts []
    no_versions no_versions (pinned_fresh E) (pinned_fresh E)) as (He & _). rewrite Ho in He. clear Ho.
  destruct (fst _) as [[r0|]|]; [|done..]. cbn [ok_of] in He. by injection He as ->.
Qed.

(** ** The theorem at a concrete run *)

Definition fan_block : EnsembleBlock :=
  block_of [raw_step "a" "m" {[ "x" := "$inputs.x" ]}; raw_step "b" "m" {[ "x" := "$inputs.x" ]};
            raw_step "c" "m" {[ "y" := "$a"; "z" := "$b" ]}] (Some "$c.score") None (Some [("x", input_of TJson true)]).

Definition backwards (_ : string) (_ : nat) (l : list nat) : list nat := rev l.

Lemma backwards_perm rid k l : backwards rid k l ≡ₚ l.
Proof. symmetry. apply Permutation_rev. Qed.

Lemma completion_order_witness :
  @execute_ensemble _ _ (reordered (demo_env fan_block fan_block "" seven) backwards backwards_perm) "outer" "1"
    (named_inputs [("x", Null)]) "r" demo_opts
  = Done (Ok (OUnary (VJson (Num (PosInt 7))) (Some {| srm_status_code := 200; srm_headers := ∅ |}))).
Proof.
  apply (@completion_order_irrelevant _ _ _ (demo_env fan_block fan_block "" seven) backwards backwards_perm no_json).
  - done.
  - apply demo_env_sound; vm_compute; reflexivity.
  - vm_compute. reflexivity.
Defined.
