(* ===== verification/PlanCache.v ===== *)
(** * The cache of ensemble plans

    Models [EnsemblePlanCache] of [src/src/ensemble/plan_cache.rs]: [get_or_load] with
    its single flight, the [LoadingGuard] that clears the cell of a cancelled load,
    [insert_ready] and the invalidations.  A call of [get_or_load] is a [Pc]; a step
    is what one call (or one outside operation) does under one lock of the map, so
    every interleaving of the code at its lock and await points is a sequence of
    steps.  The loader, the file times and the clock are arguments of the steps; of a
    plan only what the cache reads is kept apart from its contents.

    The theorems ([PlanCacheProps.v]) show that no caller is left waiting once the
    load it waits for is over, that a key is loaded by one caller at a time, that
    answers come from loads of the same key, and that a load overtaken by an
    invalidation is not published. *)

From S2P Require Import Prelude Text Errors.
Open Scope Z_scope.

Record PlanKey := { pk_model : string; pk_version : string }.

#[export] Instance PlanKey_eq_dec : EqDecision PlanKey.
Proof. solve_decision. Defined.

#[export] Instance PlanKey_countable : Countable PlanKey.
Proof.
  refine (inj_countable' (fun k => (pk_model k, pk_version k))
            (fun p => {| pk_model := fst p; pk_version := snd p |}) _).
  by intros [].
Defined.

Abbreviation SystemTime := Z (only parsing).

Record EnsemblePlan := {
  config_path : string;
  source_mtime : option SystemTime;
  contents : string;
}.

Inductive PlanCell :=
  | Loading (id : Z) (waiters : list nat)
  | Ready (plan : EnsemblePlan) (mtime : option SystemTime) (last_stat : Instant).

Abbreviation Answer := (result AppError EnsemblePlan).

(** A waiter's oneshot channel: empty, answered, or closed by the drop of its
    sender. *)
Inductive Chan :=
  | Pending
  | Sent (r : Answer)
  | Closed.

(** Where a call of [get_or_load] is. *)
Inductive Pc :=
  | Entry                                                   (** before the fast path *)
  | Looping                                                 (** before the map entry *)
  | Waiting (rx : Chan)                                     (** parked on [rx.await] *)
  | Holding (id : Z)                                        (** [load()] is running *)
  | Publishing (id : Z) (plan : EnsemblePlan)               (** before the write-back *)
  | Evicting (id : Z) (waiters : list nat) (e : AppError)   (** before the removal *)
  | Closing (id : Z) (r : Answer)                           (** [LoadingGuard] still to drop *)
  | Returned (r : Answer)
  | Cancelled.

Record Cache := {
  plans : gmap PlanKey PlanCell;
  epoch : Z;
  calls : list (PlanKey * Pc);
}.

Definition stat_interval : Duration := from_secs 1.

Definition new : Cache := {| plans := ∅; epoch := 0; calls := [] |}.

(** What a load can end with: [catch_unwind] turns a panic into an error. *)
Inductive Outcome :=
  | LoadOk (plan : EnsemblePlan)
  | LoadErr (e : AppError)
  | LoadPanic (msg : string).

Definition loaded (o : Outcome) : Answer :=
  match o with
  | LoadOk plan => Ok plan
  | LoadErr e => Err e
  | LoadPanic msg => Err (Internal ("ensemble plan loader panicked: " +:+ msg))
  end.

(** ** Channels *)

(** Every waiter of [ws] that is still waiting gets [rx]. *)
Definition resolve (rx : Chan) (ws : list nat) (l : list (PlanKey * Pc)) : list (PlanKey * Pc) :=
  imap (fun j c => match snd c with
                   | Waiting Pending => if decide (j ∈ ws) then (fst c, Waiting rx) else c
                   | _ => c
                   end) l.

Definition set_pc (i : nat) (pc : Pc) (l : list (PlanKey * Pc)) : list (PlanKey * Pc) :=
  alter (fun c => (fst c, pc)) i l.

Definition cell_waiters (c : option PlanCell) : list nat :=
  match c with Some (Loading _ ws) => ws | _ => [] end.

(** A cell that leaves the map drops the senders it holds. *)
Definition drop_cell (key : PlanKey) (l : list (PlanKey * Pc)) (m : gmap PlanKey PlanCell)
    : list (PlanKey * Pc) :=
  resolve Closed (cell_waiters (m !! key)) l.

Definition owns (id : Z) (c : option PlanCell) : bool :=
  match c with Some (Loading id' _) => id =? id' | _ => false end.

(** ** The parts of [get_or_load] *)

Definition fast_path (i : nat) (key : PlanKey) (now : Instant) (s : Cache) : Cache :=
  let pc := match plans s !! key with
            | Some (Ready plan _ last_stat) =>
                if elapsed now last_stat <? stat_interval then Returned (Ok plan) else Looping
            | _ => Looping
            end in
  {| plans := plans s; epoch := epoch s; calls := set_pc i pc (calls s) |}.

(** One round of the loop, under the lock of the map entry. *)
Definition take_entry (i : nat) (key : PlanKey) (now : Instant) (current_mtime : option SystemTime)
    (restamp : Instant) (s : Cache) : Cache :=
  match plans s !! key with
  | Some (Loading id waiters) =>
      {| plans := <[key := Loading id (waiters ++ [i])]> (plans s); epoch := epoch s;
         calls := set_pc i (Waiting Pending) (calls s) |}
  | Some (Ready plan mtime last_stat) =>
      if elapsed now last_stat <? stat_interval then
        {| plans := plans s; epoch := epoch s; calls := set_pc i (Returned (Ok plan)) (calls s) |}
      else if decide (current_mtime = mtime) then
        {| plans := <[key := Ready plan mtime restamp]> (plans s); epoch := epoch s;
           calls := set_pc i (Returned (Ok plan)) (calls s) |}
      else
        {| plans := delete key (plans s); epoch := epoch s; calls := calls s |}
  | None =>
      let my_id := epoch s in
      {| plans := <[key := Loading my_id []]> (plans s); epoch := fetch_add (epoch s) 1;
         calls := set_pc i (Holding my_id) (calls s) |}
  end.

(** The load is over: take the waiters of the cell if it is still ours, and answer
    them (on success) or keep them for after the removal (on failure).  The sends come
    after the lock is released; a channel is seen by its receiver alone. *)
Definition load_done (i : nat) (key : PlanKey) (id : Z) (o : Outcome) (s : Cache) : Cache :=
  let ours := owns id (plans s !! key) in
  let waiters := if ours then cell_waiters (plans s !! key) else [] in
  let plans' := if ours then <[key := Loading id []]> (plans s) else plans s in
  match loaded o with
  | Ok plan =>
      {| plans := plans'; epoch := epoch s;
         calls := set_pc i (Publishing id plan) (resolve (Sent (Ok plan)) waiters (calls s)) |}
  | Err e =>
      {| plans := plans'; epoch := epoch s;
         calls := set_pc i (if ours then Evicting id waiters e else Closing id (Err e)) (calls s) |}
  end.

(** The second lock of the success path: replace the cell if it is still ours. *)
Definition publish (i : nat) (key : PlanKey) (id : Z) (plan : EnsemblePlan) (now : Instant)
    (s : Cache) : Cache :=
  if owns id (plans s !! key) then
    {| plans := <[key := Ready plan (source_mtime plan) now]> (plans s); epoch := epoch s;
       calls := set_pc i (Closing id (Ok plan)) (drop_cell key (calls s) (plans s)) |}
  else
    {| plans := plans s; epoch := epoch s; calls := set_pc i (Closing id (Ok plan)) (calls s) |}.

(** The removal of the failure path, then the answers to the waiters taken before. *)
Definition evict (i : nat) (key : PlanKey) (id : Z) (waiters : list nat) (e : AppError) (s : Cache)
    : Cache :=
  let failed := Err (Internal ("ensemble plan load failed: " +:+ display e)) in
  {| plans := delete key (plans s); epoch := epoch s;
     calls := set_pc i (Closing id (Err e))
                (resolve (Sent failed) waiters (drop_cell key (calls s) (plans s))) |}.

(** [LoadingGuard::drop], then [pc]. *)
Definition guard_drop (i : nat) (key : PlanKey) (id : Z) (pc : Pc) (s : Cache) : Cache :=
  if owns id (plans s !! key) then
    {| plans := delete key (plans s); epoch := epoch s;
       calls := set_pc i pc (drop_cell key (calls s) (plans s)) |}
  else {| plans := plans s; epoch := epoch s; calls := set_pc i pc (calls s) |}.

Definition received (rx : Chan) : option Answer :=
  match rx with
  | Pending => None
  | Sent r => Some r
  | Closed => Some (Err (Internal "ensemble plan load task dropped"))
  end.

(** ** Operations from outside *)

Definition insert_ready (key : PlanKey) (plan : EnsemblePlan) (mtime : option SystemTime)
    (now : Instant) (s : Cache) : Cache :=
  {| plans := <[key := Ready plan mtime now]> (plans s); epoch := epoch s;
     calls := drop_cell key (calls s) (plans s) |}.

Definition invalidate_version (key : PlanKey) (s : Cache) : Cache :=
  {| plans := delete key (plans s); epoch := epoch s; calls := drop_cell key (calls s) (plans s) |}.

(** [invalidate_model] removes the keys of a model one by one. *)
Definition invalidate_model (model : string) (s : Cache) : Cache :=
  foldl (fun s key => if String.eqb (pk_model key) model then invalidate_version key s else s)
    s (map fst (map_to_list (plans s))).

(** ** Steps *)

Inductive Action :=
  | Call (key : PlanKey)
  | FastPath (i : nat) (now : Instant)
  | TakeEntry (i : nat) (now : Instant) (current_mtime : option SystemTime) (restamp : Instant)
  | LoadDone (i : nat) (o : Outcome)
  | Publish (i : nat) (now : Instant)
  | Evict (i : nat)
  | Close (i : nat)
  | Receive (i : nat)
  | Cancel (i : nat)                   (** the future is dropped at an await *)
  | InsertReady (key : PlanKey) (plan : EnsemblePlan) (mtime : option SystemTime) (now : Instant)
  | Invalidate (key : PlanKey).

Definition step (act : Action) (s : Cache) : option Cache :=
  match act with
  | Call key => Some {| plans := plans s; epoch := epoch s; calls := calls s ++ [(key, Entry)] |}
  | FastPath i now =>
      match calls s !! i with
      | Some (key, Entry) => Some (fast_path i key now s)
      | _ => None
      end
  | TakeEntry i now current_mtime restamp =>
      match calls s !! i with
      | Some (key, Looping) => Some (take_entry i key now current_mtime restamp s)
      | _ => None
      end
  | LoadDone i o =>
      match calls s !! i with
      | Some (key, Holding id) => Some (load_done i key id o s)
      | _ => None
      end
  | Publish i now =>
      match calls s !! i with
      | Some (key, Publishing id plan) => Some (publish i key id plan now s)
      | _ => None
      end
  | Evict i =>
      match calls s !! i with
      | Some (key, Evicting id waiters e) => Some (evict i key id waiters e s)
      | _ => None
      end
  | Close i =>
      match calls s !! i with
      | Some (key, Closing id r) => Some (guard_drop i key id (Returned r) s)
      | _ => None
      end
  | Receive i =>
      match calls s !! i with
      | Some (key, Waiting rx) =>
          match received rx with
          | Some r =>
              Some {| plans := plans s; epoch := epoch s; calls := set_pc i (Returned r) (calls s) |}
          | None => None
          end
      | _ => None
      end
  | Cancel i =>
      match calls s !! i with
      | Some (key, Holding id) => Some (guard_drop i key id Cancelled s)
      | Some (key, Waiting _) =>
          Some {| plans := plans s; epoch := epoch s; calls := set_pc i Cancelled (calls s) |}
      | _ => None
      end
  | InsertReady key plan mtime now => Some (insert_ready key plan mtime now s)
  | Invalidate key => Some (invalidate_version key s)
  end.

Fixpoint run (acts : list Action) (s : Cache) : option Cache :=
  match acts with
  | [] => Some s
  | act :: acts => match step act s with Some s => run acts s | None => None end
  end.
