(* ===== verification/PlanCacheProps.v ===== *)
(** * What the cache of ensemble plans guarantees

    Theorems about [PlanCache.v], over every interleaving of calls, loads,
    cancellations, invalidations and direct inserts.  An identifier is handed out by
    each load that begins ([epoch], a wrapping counter), so the theorems are about
    runs of fewer than 2^64 steps. *)

From S2P Require Import Prelude Text Errors PlanCache.
Open Scope Z_scope.

(** [reachable n s]: [n] steps lead from the empty cache to [s]. *)
Inductive reachable : nat -> Cache -> Prop :=
  | reach_new : reachable 0 new
  | reach_step n s act s' : reachable n s -> step act s = Some s' -> reachable (S n) s'.

Lemma run_reachable acts n s s' :
  reachable n s -> run acts s = Some s' -> reachable (length acts + n) s'.
Proof.
  revert n s. induction acts as [|act acts IH]; intros n s Hr; simpl; [by intros [= <-]|].
  destruct (step act s) as [s1|] eqn:Hs; [|done]. intros Hrun. rewrite <- Nat.add_succ_r.
  eapply IH; [by eapply reach_step|done].
Qed.

(** ** Calls and channels *)

Definition pc_id (pc : Pc) : option Z :=
  match pc with
  | Holding id | Publishing id _ | Evicting id _ _ | Closing id _ => Some id
  | _ => None
  end.

Definition at_pc (i : nat) (k : PlanKey) (pc : Pc) (s : Cache) : Prop := calls s !! i = Some (k, pc).

(** Call [w] waits for an answer. *)
Definition pending (w : nat) (l : list (PlanKey * Pc)) : Prop :=
  exists k, l !! w = Some (k, Waiting Pending).

Lemma resolve_lookup rx ws l j k pc :
  resolve rx ws l !! j = Some (k, pc) <->
  exists pc0, l !! j = Some (k, pc0) /\
    pc = match pc0 with
         | Waiting Pending => if decide (j ∈ ws) then Waiting rx else pc0
         | _ => pc0
         end.
Proof.
  unfold resolve. rewrite list_lookup_imap. destruct (l !! j) as [[k0 pc0]|]; simpl; [|naive_solver].
  destruct pc0 as [| |[]| | | | | |]; simpl; try naive_solver.
  destruct (decide (j ∈ ws)); naive_solver.
Qed.

Lemma set_pc_lookup i pc0 l j k pc :
  set_pc i pc0 l !! j = Some (k, pc) <->
  if decide (i = j) then exists pc', l !! j = Some (k, pc') /\ pc = pc0 else l !! j = Some (k, pc).
Proof.
  unfold set_pc. destruct (decide (i = j)) as [->|Hne].
  - rewrite list_lookup_alter_eq. destruct (l !! j) as [[k' pc']|]; simpl; naive_solver.
  - by rewrite list_lookup_alter_ne.
Qed.

(** Resolving channels and moving on a call that is not waiting only shrink the set
    of waiting calls. *)
Lemma pending_resolve rx ws l w :
  rx <> Pending -> pending w (resolve rx ws l) <-> pending w l /\ w ∉ ws.
Proof.
  intros Hrx. unfold pending. split.
  - intros (k & Hk). apply resolve_lookup in Hk as (pc0 & H0 & Hpc).
    destruct pc0 as [| |[]| | | | | |]; try done. destruct (decide (w ∈ ws)); naive_solver.
  - intros [(k & Hk) Hw]. exists k. apply resolve_lookup. eexists. split; [done|]. simpl.
    by rewrite decide_False.
Qed.

Lemma pending_set_pc i pc l w :
  pc <> Waiting Pending -> pending w (set_pc i pc l) <-> pending w l /\ w <> i.
Proof.
  intros Hpc. unfold pending. split.
  - intros (k & Hk). apply set_pc_lookup in Hk. destruct (decide (i = w)); naive_solver.
  - intros [(k & Hk) Hw]. exists k. apply set_pc_lookup. by rewrite decide_False.
Qed.

(** The loads that have not ended: where [i] stands with identifier [id]. *)
Definition active (i : nat) (k : PlanKey) (id : Z) (l : list (PlanKey * Pc)) : Prop :=
  exists pc, l !! i = Some (k, pc) /\ pc_id pc = Some id.

Lemma active_resolve rx ws l i k id : active i k id (resolve rx ws l) <-> active i k id l.
Proof.
  unfold active. split.
  - intros (pc & Hk & Hid). apply resolve_lookup in Hk as (pc0 & H0 & ->). exists pc0.
    split; [done|]. destruct pc0 as [| |[]| | | | | |]; try done.
    by destruct (decide (i ∈ ws)).
  - intros (pc & Hk & Hid). exists pc. split; [|done]. apply resolve_lookup. exists pc.
    split; [done|]. by destruct pc.
Qed.

Lemma active_set_pc i pc l j k id :
  active j k id (set_pc i pc l) <->
  if decide (i = j) then pc_id pc = Some id /\ exists pc', l !! j = Some (k, pc')
  else active j k id l.
Proof.
  unfold active. setoid_rewrite set_pc_lookup. destruct (decide (i = j)); naive_solver.
Qed.

(** ** Invariants *)

(** Identifiers are below [epoch], belong to one call each, and a loading cell is
    owned by an active call of its key. *)
Record inv (s : Cache) : Prop := {
  inv_epoch : 0 <= epoch s;
  inv_id : forall i k id, active i k id (calls s) -> 0 <= id < epoch s;
  inv_unique : forall i j k k' id,
    active i k id (calls s) -> active j k' id (calls s) -> i = j;
  inv_cell : forall k id ws, plans s !! k = Some (Loading id ws) ->
    exists i, active i k id (calls s);
}.

(** The load of [i] will answer [w], or drop its channel: [w] is parked in the cell
    of [i], or among the waiters [i] took out of it. *)
Definition responsible (i w : nat) (s : Cache) : Prop :=
  exists k id, active i k id (calls s) /\
    ((exists ws, plans s !! k = Some (Loading id ws) /\ w ∈ ws) \/
     (exists ws e, at_pc i k (Evicting id ws e) s /\ w ∈ ws)).

Lemma owns_spec id c : owns id c = true <-> exists ws, c = Some (Loading id ws).
Proof.
  destruct c as [[id' ws|]|]; simpl; [|naive_solver..].
  rewrite Z.eqb_eq. naive_solver.
Qed.

Lemma active_key i k k' id id' l : active i k id l -> active i k' id' l -> k = k' /\ id = id'.
Proof. intros (pc & H1 & H2) (pc' & H3 & H4). naive_solver. Qed.

Lemma resolve_waiting rx ws l j k rx0 :
  l !! j = Some (k, Waiting rx0) -> exists rx', resolve rx ws l !! j = Some (k, Waiting rx').
Proof.
  intros Hj. setoid_rewrite resolve_lookup.
  destruct rx0; [destruct (decide (j ∈ ws)) as [Hd|Hd]|..];
    eexists; eexists; (split; [done|]); simpl; rewrite ?decide_True, ?decide_False by done; done.
Qed.

(** Call [i] of key [k] moves from [pc] to [pc'], and the channels of [ws] are
    resolved. *)
Record moved (i : nat) (k : PlanKey) (pc pc' : Pc) (ws : list nat)
    (l l' : list (PlanKey * Pc)) : Prop := {
  moved_from : l !! i = Some (k, pc);
  moved_to : l' !! i = Some (k, pc');
  moved_active : forall j k' id, j <> i -> active j k' id l' <-> active j k' id l;
  moved_pending : forall w, w <> i -> pending w l' -> pending w l /\ w ∉ ws;
  moved_other : forall j k' p, j <> i -> l !! j = Some (k', p) ->
    p <> Waiting Pending -> l' !! j = Some (k', p);
  moved_waiting : forall j k', j <> i -> l !! j = Some (k', Waiting Pending) ->
    exists rx, l' !! j = Some (k', Waiting rx);
}.

Lemma moved_intro i k pc pc' rx1 rx2 ws1 ws2 l :
  l !! i = Some (k, pc) -> rx1 <> Pending -> rx2 <> Pending ->
  moved i k pc pc' (ws1 ++ ws2) l (set_pc i pc' (resolve rx1 ws1 (resolve rx2 ws2 l))).
Proof.
  intros Hi H1 H2.
  assert (Hres : forall j k' pc0, pc0 <> Waiting Pending -> l !! j = Some (k', pc0) ->
            resolve rx1 ws1 (resolve rx2 ws2 l) !! j = Some (k', pc0)).
  { intros j k' pc0 Hw Hj. apply resolve_lookup. exists pc0.
    assert (pc0 = match pc0 with Waiting Pending => if decide (j ∈ ws1) then Waiting rx1 else pc0
                  | _ => pc0 end) as Heq by (destruct pc0 as [| |[]| | | | | |]; done).
    split; [|done]. apply resolve_lookup. exists pc0. split; [done|].
    destruct pc0 as [| |[]| | | | | |]; done. }
  constructor.
  - done.
  - apply set_pc_lookup. rewrite decide_True by done.
    destruct (resolve rx1 ws1 (resolve rx2 ws2 l) !! i) as [[k' p]|] eqn:Hr.
    + pose proof Hr as Hr'. apply resolve_lookup in Hr' as (? & Hr' & _).
      apply resolve_lookup in Hr' as (? & Hr' & _). naive_solver.
    + unfold resolve in Hr. rewrite !list_lookup_imap, Hi in Hr. done.
  - intros j k' id Hj. rewrite active_set_pc, decide_False by done. by rewrite !active_resolve.
  - intros w Hw (k' & Hk). apply set_pc_lookup in Hk. rewrite decide_False in Hk by done.
    assert (pending w (resolve rx1 ws1 (resolve rx2 ws2 l))) as Hp by (by exists k').
    rewrite !pending_resolve in Hp by done. split; [tauto|]. set_solver.
  - intros j k' p Hj Hl Hp. apply set_pc_lookup. rewrite decide_False by done. by apply Hres.
  - intros j k' Hj Hl. destruct (resolve_waiting rx2 ws2 _ _ _ _ Hl) as (rx & Hrx).
    destruct (resolve_waiting rx1 ws1 _ _ _ _ Hrx) as (rx' & Hrx'). exists rx'.
    apply set_pc_lookup. by rewrite decide_False.
Qed.

Lemma resolve_nil rx l : resolve rx [] l = l.
Proof.
  unfold resolve. apply list_eq. intros j. rewrite list_lookup_imap.
  destruct (l !! j) as [[k pc]|]; simpl; [|done]. by destruct pc as [| |[]| | | | | |].
Qed.

Lemma moved_one i k pc pc' rx ws l :
  l !! i = Some (k, pc) -> rx <> Pending ->
  moved i k pc pc' ws l (set_pc i pc' (resolve rx ws l)).
Proof.
  intros Hi Hrx. rewrite <- (app_nil_r ws) at 1.
  rewrite <- (resolve_nil Closed l) at 2. by apply moved_intro.
Qed.

Lemma moved_zero i k pc pc' l :
  l !! i = Some (k, pc) -> moved i k pc pc' [] l (set_pc i pc' l).
Proof. intros Hi. rewrite <- (resolve_nil Closed l) at 2. by apply moved_one. Qed.

(** A move that hands out no identifier: it touches only the cell of its key, creates
    no loading cell and leaves none behind that it owned; the waiters that leave the
    cell, or the move's own list, are resolved or kept. *)
Record good_move (i : nat) (k : PlanKey) (pc pc' : Pc) (ws : list nat) (s s' : Cache) : Prop := {
  gm_moved : moved i k pc pc' ws (calls s) (calls s');
  gm_id : pc_id pc' = None \/ pc_id pc' = pc_id pc;
  gm_epoch : epoch s' = epoch s;
  gm_others : forall k2, k2 <> k -> plans s' !! k2 = plans s !! k2;
  gm_cell : forall id ws', plans s' !! k = Some (Loading id ws') ->
    (exists ws0, plans s !! k = Some (Loading id ws0)) /\
    (pc_id pc = Some id -> pc_id pc' = Some id);
  gm_waiters : forall id wl, plans s !! k = Some (Loading id wl) -> forall x, x ∈ wl ->
    x ∈ ws \/ (exists wl', plans s' !! k = Some (Loading id wl') /\ x ∈ wl') \/
    (pc_id pc = Some id /\ exists wl' e, pc' = Evicting id wl' e /\ x ∈ wl');
  gm_taken : forall id wl e, pc = Evicting id wl e -> forall x, x ∈ wl -> x ∈ ws;
}.

Lemma inv_moved s s' i k pc pc' ws : inv s -> good_move i k pc pc' ws s s' -> inv s'.
Proof.
  intros [He Hid Hu Hc] [[Hf Ht Ha _ _ _] Hpc Hep Hoth Hk _ _].
  assert (Hback : forall j k' id, active j k' id (calls s') -> active j k' id (calls s)).
  { intros j k' id Hj. destruct (decide (j = i)) as [->|Hne]; [|by apply Ha].
    destruct Hj as (p & Hp & Hpid). rewrite Ht in Hp. injection Hp as <- <-.
    exists pc. split; [done|]. destruct Hpc; congruence. }
  constructor.
  - lia.
  - intros j k' id Hj. rewrite Hep. by eapply Hid, Hback.
  - intros j1 j2 k1 k2 id H1 H2. eapply Hu; by apply Hback.
  - intros k2 id ws' Hcell. destruct (decide (k2 = k)) as [->|Hne].
    + destruct (Hk _ _ Hcell) as [[ws0 Hws0] Hkeep]. destruct (Hc _ _ _ Hws0) as (o & Ho).
      exists o. destruct (decide (o = i)) as [->|Hne]; [|by apply Ha].
      destruct Ho as (p & Hp & Hpid). rewrite Hf in Hp. injection Hp as <-.
      exists pc'. split; [done|]. by apply Hkeep.
    + rewrite Hoth in Hcell by done. destruct (Hc _ _ _ Hcell) as (o & Ho). exists o.
      destruct (decide (o = i)) as [->|Hne']; [|by apply Ha].
      destruct Ho as (p & Hp & _). rewrite Hf in Hp. by injection Hp as <-.
Qed.

(** It keeps every responsibility for a call that still waits. *)
Lemma responsible_moved s s' i k pc pc' ws j w :
  inv s -> good_move i k pc pc' ws s s' ->
  w <> i -> responsible j w s -> pending w (calls s') -> responsible j w s'.
Proof.
  intros [He Hid Hu Hc] [[Hf Ht Ha Hp Hev _] Hpc _ Hoth Hkeep Hcell Hevi] Hwi (kj & id & Hact & Hr) Hpend.
  destruct (Hp _ Hwi Hpend) as [_ Hnw].
  destruct Hr as [(wl & Hwl & Hin)|(wl & e & Hat & Hin)].
  - destruct (decide (kj = k)) as [->|Hne].
    + destruct (Hcell _ _ Hwl _ Hin) as [?|[(wl' & Hwl' & Hin')|(Hpid & wl' & e & -> & Hin')]];
        [done| |].
      * exists k, id. split; [|by left; exists wl'].
        destruct (decide (j = i)) as [->|Hne]; [|by apply Ha].
        destruct Hact as (p & Hpc1 & Hpid). rewrite Hf in Hpc1. injection Hpc1 as <-.
        exists pc'. split; [done|]. by eapply Hkeep.
      * assert (j = i) as -> by (eapply Hu; [done|by exists pc]).
        exists k, id. split; [by eexists|]. right. by exists wl', e.
    + exists kj, id. split; [|left; exists wl; by rewrite Hoth].
      destruct (decide (j = i)) as [->|Hne']; [|by apply Ha].
      destruct Hact as (p & Hpc1 & _). rewrite Hf in Hpc1. by injection Hpc1 as <-.
  - unfold at_pc in Hat. destruct (decide (j = i)) as [->|Hne].
    + rewrite Hf in Hat. injection Hat as <- ->. by destruct (Hnw (Hevi _ _ _ eq_refl _ Hin)).
    + exists kj, id. split; [by apply Ha|]. right. exists wl, e. split; [|done]. by apply Hev.
Qed.

(** The operations from outside: one cell is replaced or removed and its waiters are
    dropped. *)
Record dropped (k : PlanKey) (s s' : Cache) : Prop := {
  dr_calls : calls s' = drop_cell k (calls s) (plans s);
  dr_epoch : epoch s' = epoch s;
  dr_others : forall k2, k2 <> k -> plans s' !! k2 = plans s !! k2;
  dr_cell : forall id ws, plans s' !! k <> Some (Loading id ws);
}.

Lemma inv_dropped s s' k : inv s -> dropped k s s' -> inv s'.
Proof.
  intros [He Hid Hu Hc] [Hcalls Hep Hoth Hk]. unfold drop_cell in Hcalls.
  constructor; rewrite ?Hcalls, ?Hep; try setoid_rewrite active_resolve; try done.
  intros k2 id ws Hcell. destruct (decide (k2 = k)) as [->|Hne]; [by destruct (Hk id ws)|].
  rewrite Hoth in Hcell by done. by eapply Hc.
Qed.

Lemma responsible_dropped s s' k j w :
  dropped k s s' -> responsible j w s -> pending w (calls s') -> responsible j w s'.
Proof.
  intros [Hcalls _ Hoth _] (kj & id & Hact & Hr) Hpend. unfold drop_cell in Hcalls.
  rewrite Hcalls, pending_resolve in Hpend by done. destruct Hpend as [_ Hnw].
  exists kj, id. rewrite Hcalls, active_resolve. split; [done|].
  destruct Hr as [(wl & Hwl & Hin)|(wl & e & Hat & Hin)].
  - left. exists wl. rewrite Hoth; [done|]. intros ->. by rewrite Hwl in Hnw.
  - right. exists wl, e. split; [|done]. unfold at_pc. rewrite Hcalls. apply resolve_lookup.
    by exists (Evicting id wl e).
Qed.

(** A new call. *)
Lemma active_call k l j k' id : active j k' id (l ++ [(k, Entry)]) <-> active j k' id l.
Proof.
  unfold active. split; intros (pc & Hj & Hid); exists pc; (split; [|done]).
  - apply lookup_app_Some in Hj as [Hj|[_ Hj]]; [done|].
    apply list_lookup_singleton_Some in Hj as [_ [= <- <-]]. done.
  - by apply lookup_app_l_Some.
Qed.

Lemma pending_call k l w : pending w (l ++ [(k, Entry)]) <-> pending w l.
Proof.
  unfold pending. split; intros (k' & Hw); exists k'.
  - apply lookup_app_Some in Hw as [Hw|[_ Hw]]; [done|].
    by apply list_lookup_singleton_Some in Hw as [_ [=]].
  - by apply lookup_app_l_Some.
Qed.

(** ** Every step is one of these *)

(** The new holder of a vacant key. *)
Definition begun (i : nat) (k : PlanKey) (s s' : Cache) : Prop :=
  calls s !! i = Some (k, Looping) /\ plans s !! k = None /\
  s' = {| plans := <[k := Loading (epoch s) []]> (plans s); epoch := fetch_add (epoch s) 1;
          calls := set_pc i (Holding (epoch s)) (calls s) |}.

Definition called (k : PlanKey) (s s' : Cache) : Prop :=
  s' = {| plans := plans s; epoch := epoch s; calls := calls s ++ [(k, Entry)] |}.

Lemma inv_begun s s' i k :
  inv s -> epoch s < usize_max -> begun i k s s' -> inv s'.
Proof.
  intros [He Hid Hu Hc] Hlt (Hi & Hk & ->). rewrite fetch_add_small by lia.
  assert (Hold : forall j k' id, active j k' id (calls s) -> j <> i).
  { intros j k' id (pc & Hj & Hpc) ->. rewrite Hi in Hj. by injection Hj as <- <-. }
  constructor; simpl.
  - lia.
  - intros j k' id. rewrite active_set_pc. destruct (decide (i = j)).
    + intros [[= <-] _]. lia.
    + intros Hj. specialize (Hid _ _ _ Hj). lia.
  - intros j1 j2 k1 k2 id. rewrite !active_set_pc.
    destruct (decide (i = j1)), (decide (i = j2)); try congruence; [..|by apply Hu].
    + intros [[= <-] _] Hj. specialize (Hid _ _ _ Hj). lia.
    + intros Hj [[= <-] _]. specialize (Hid _ _ _ Hj). lia.
  - intros k2 id ws Hcell. destruct (decide (k2 = k)) as [->|Hne].
    + rewrite lookup_insert_eq in Hcell. injection Hcell as <- <-. exists i.
      rewrite active_set_pc, decide_True by done. eauto.
    + rewrite lookup_insert_ne in Hcell by done. destruct (Hc _ _ _ Hcell) as (o & Ho).
      exists o. rewrite active_set_pc, decide_False; [done|]. by intros ->; eapply Hold.
Qed.


Ltac solve_move :=
  first [done | by apply moved_zero | by apply moved_one | by apply moved_intro
        | by left | by right | naive_solver
        | intros; by rewrite lookup_insert_ne | intros; by rewrite lookup_delete_ne
        | intros ? ?; rewrite lookup_insert_eq; naive_solver
        | intros ? ?; rewrite lookup_delete_eq; naive_solver].

Lemma guard_drop_move i k id pc pc' s :
  calls s !! i = Some (k, pc) -> pc_id pc = Some id -> pc_id pc' = None ->
  (forall wl e, pc <> Evicting id wl e) ->
  exists ws, good_move i k pc pc' ws s (guard_drop i k id pc' s).
Proof.
  intros Hi Hid Hid' Hev. unfold guard_drop. destruct (owns id (plans s !! k)) eqn:Ho.
  - apply owns_spec in Ho as (wl & Hk). exists wl. constructor; simpl.
    + unfold drop_cell. rewrite Hk. by apply moved_one.
    + by left.
    + done.
    + solve_move.
    + solve_move.
    + rewrite Hk. naive_solver.
    + intros id' wl' e ->. naive_solver.
  - exists []. constructor; simpl; try done; [by apply moved_zero|by left|..].
    + intros id' ws' Hk. split; [by eexists|]. rewrite Hid. intros [= ->].
      rewrite Hk in Ho. simpl in Ho. by rewrite Z.eqb_refl in Ho.
    + naive_solver.
    + intros id' wl' e ->. naive_solver.
Qed.

Lemma load_done_move i k id o s :
  calls s !! i = Some (k, Holding id) ->
  exists pc' ws, pc_id pc' = Some id /\ good_move i k (Holding id) pc' ws s (load_done i k id o s).
Proof.
  intros Hi. unfold load_done. destruct (owns id (plans s !! k)) eqn:Ho.
  - apply owns_spec in Ho as (wl & Hk). rewrite Hk. simpl. destruct (loaded o) as [plan|e].
    + exists (Publishing id plan), wl. split; [done|]. constructor; simpl; solve_move.
    + exists (Evicting id wl e), []. split; [done|]. constructor; simpl; solve_move.
  - assert (forall id' ws', plans s !! k = Some (Loading id' ws') -> Some id <> Some id') as Hne.
    { intros id' ws' Hk [= ->]. rewrite Hk in Ho. simpl in Ho. by rewrite Z.eqb_refl in Ho. }
    destruct (loaded o) as [plan|e].
    + exists (Publishing id plan), []. rewrite resolve_nil. split; [done|]. constructor; simpl; solve_move.
    + exists (Closing id (Err e)), []. split; [done|]. constructor; simpl; solve_move.
Qed.

Lemma publish_move i k id plan now s :
  calls s !! i = Some (k, Publishing id plan) ->
  exists ws, good_move i k (Publishing id plan) (Closing id (Ok plan)) ws s
               (publish i k id plan now s).
Proof.
  intros Hi. unfold publish. destruct (owns id (plans s !! k)) eqn:Ho.
  - apply owns_spec in Ho as (wl & Hk). exists wl. unfold drop_cell. rewrite Hk.
    constructor; simpl; solve_move.
  - exists []. constructor; simpl; solve_move.
Qed.

Lemma evict_move i k id wl e s :
  calls s !! i = Some (k, Evicting id wl e) ->
  exists ws, good_move i k (Evicting id wl e) (Closing id (Err e)) ws s (evict i k id wl e s).
Proof.
  intros Hi. exists (wl ++ cell_waiters (plans s !! k)). constructor; simpl; try solve_move.
  - intros id' wl' -> x Hx. left. simpl. set_solver.
  - intros id' wl' e' [= <- <- <-] x Hx. set_solver.
Qed.

(** A round of the loop parks, returns, begins a load or clears a stale plan. *)
Lemma take_entry_cases i k now m r s :
  calls s !! i = Some (k, Looping) ->
  (exists pc', good_move i k Looping pc' [] s (take_entry i k now m r s) /\
     (pc' = Waiting Pending ->
      exists id ws, plans (take_entry i k now m r s) !! k = Some (Loading id (ws ++ [i])))) \/
  dropped k s (take_entry i k now m r s) \/ begun i k s (take_entry i k now m r s).
Proof.
  intros Hi. unfold take_entry. destruct (plans s !! k) as [[id wl|plan mt ls]|] eqn:Hk.
  - left. exists (Waiting Pending). split.
    + constructor; simpl; try solve_move.
      rewrite lookup_insert_eq, Hk. intros id' wl' [= <- <-] x Hx. right. left. eexists.
        split; [done|]. set_solver.
    + intros _. exists id, wl. simpl. by rewrite lookup_insert_eq.
  - repeat case_match.
    + left. eexists. split; [constructor; simpl; solve_move|done].
    + left. eexists. split; [constructor; simpl; solve_move|done].
    + right. left. constructor; simpl; try solve_move.
      unfold drop_cell. rewrite Hk. simpl. by rewrite resolve_nil.
  - right. right. done.
Qed.

(** A call past the map entry that does not wait for an answer. *)
Definition settled (pc : Pc) : bool :=
  match pc with Entry | Looping | Waiting Pending => false | _ => true end.

Lemma step_cases s act s' :
  step act s = Some s' ->
  (exists i k pc pc' ws, good_move i k pc pc' ws s s' /\
     (pc' = Waiting Pending ->
      pc = Looping /\ exists id wl, plans s' !! k = Some (Loading id (wl ++ [i]))) /\
     (pc = Entry \/ pc = Looping \/ settled pc' = true)) \/
  (exists k, dropped k s s') \/ (exists i k, begun i k s s') \/ (exists k, called k s s').
Proof.
  destruct act as [k|i now|i now m r|i o|i now|i|i|i|i|k plan m now|k]; simpl.
  - intros [= <-]. right. right. right. by exists k.
  - destruct (calls s !! i) as [[k []]|] eqn:Hi; try done. intros [= <-]. left.
    unfold fast_path. repeat case_match; eexists i, k, Entry, _, [];
      (split; [constructor; simpl; solve_move|split; [done|by left]]).
  - destruct (calls s !! i) as [[k []]|] eqn:Hi; try done. intros [= <-].
    destruct (take_entry_cases i k now m r s Hi) as [(pc' & Hm & Hw)|[?|?]];
      [|by right; left; exists k|by right; right; left; exists i, k].
    left. exists i, k, Looping, pc', []. split; [done|].
    split; [intros Hp; split; [done|by apply Hw]|by right; left].
  - destruct (calls s !! i) as [[k []]|] eqn:Hi; try done. intros [= <-]. left.
    destruct (load_done_move i k id o s Hi) as (pc' & ws & Hid & Hm).
    exists i, k, (Holding id), pc', ws. split; [done|]. split; [by intros ->|].
    right. right. by destruct pc'.
  - destruct (calls s !! i) as [[k []]|] eqn:Hi; try done. intros [= <-]. left.
    destruct (publish_move i k id plan now s Hi) as (ws & Hm). eexists i, k, _, _, ws. split; [done|]. split; [done|by right; right].
  - destruct (calls s !! i) as [[k []]|] eqn:Hi; try done. intros [= <-]. left.
    destruct (evict_move i k id waiters e s Hi) as (ws & Hm). eexists i, k, _, _, ws. split; [done|]. split; [done|by right; right].
  - destruct (calls s !! i) as [[k []]|] eqn:Hi; try done. intros [= <-]. left.
    destruct (guard_drop_move i k id _ (Returned r) s Hi) as (ws & Hm); [done..|].
    eexists i, k, _, _, ws. split; [done|]. split; [done|by right; right].
  - destruct (calls s !! i) as [[k [| |rx| | | | | |]]|] eqn:Hi; try done.
    destruct (received rx) as [r|]; [|done]. intros [= <-]. left.
    eexists i, k, (Waiting rx), _, []. split; [constructor; simpl; solve_move|].
    split; [done|by right; right].
  - destruct (calls s !! i) as [[k []]|] eqn:Hi; try done; intros [= <-]; left.
    + eexists i, k, (Waiting rx), _, []. split; [constructor; simpl; solve_move|].
    split; [done|by right; right].
    + destruct (guard_drop_move i k id _ Cancelled s Hi) as (ws & Hm); [done..|].
    eexists i, k, _, _, ws. split; [done|]. split; [done|by right; right].
  - intros [= <-]. right. left. exists k. constructor; simpl; solve_move.
  - intros [= <-]. right. left. exists k. constructor; simpl; solve_move.
Qed.

(** ** Consequences *)

Lemma step_inv s act s' :
  inv s -> epoch s < usize_max -> step act s = Some s' -> inv s' /\ epoch s' <= epoch s + 1.
Proof.
  intros Hinv Hlt Hs. pose proof (inv_epoch _ Hinv).
  destruct (step_cases _ _ _ Hs) as [(i & k & pc & pc' & ws & Hm & _)|[(k & Hd)|[(i & k & Hb)|(k & ->)]]].
  - split; [by eapply inv_moved|]. rewrite (gm_epoch _ _ _ _ _ _ _ Hm). lia.
  - split; [by eapply inv_dropped|]. rewrite (dr_epoch _ _ _ Hd). lia.
  - split; [by eapply inv_begun|]. destruct Hb as (_ & _ & ->). simpl.
    rewrite fetch_add_small; lia.
  - split; [|simpl; lia]. destruct Hinv as [? Hid Hu Hc].
    constructor; simpl; [done|setoid_rewrite active_call; done..].
Qed.

Lemma reachable_inv n s :
  reachable n s -> Z.of_nat n <= usize_max -> inv s /\ epoch s <= Z.of_nat n.
Proof.
  induction 1 as [|n s act s' Hr IH Hs]; intros Hn.
  - split; [|simpl; lia]. constructor; simpl; try done.
    + by intros i k id (pc & Hl & _).
    + by intros i j k k' id (pc & Hl & _).
  - destruct IH as [Hinv He]; [lia|]. destruct (step_inv _ _ _ Hinv ltac:(lia) Hs). split; [done|lia].
Qed.

(** A responsible load stays responsible for a call that still waits. *)
Lemma responsible_step s act s' j w :
  inv s -> step act s = Some s' -> pending w (calls s) ->
  responsible j w s -> pending w (calls s') -> responsible j w s'.
Proof.
  intros Hinv Hs Hp Hr Hp'.
  destruct (step_cases _ _ _ Hs) as [(i & k & pc & pc' & ws & Hm & Hw & _)|[(k & Hd)|[(i & k & Hb)|(k & ->)]]].
  - destruct (decide (w = i)) as [->|Hne]; [|by eapply responsible_moved].
    destruct (gm_moved _ _ _ _ _ _ _ Hm) as [Hf Ht _ _ _ _].
    destruct Hp as (k1 & Hk1), Hp' as (k2 & Hk2). rewrite Hf in Hk1. rewrite Ht in Hk2.
    injection Hk1 as <- ->. injection Hk2 as _ Hk2. by destruct (Hw Hk2).
  - by eapply responsible_dropped.
  - destruct Hb as (Hi & Hk & ->). destruct Hr as (kj & id & Hact & Hr).
    assert (j <> i) as Hne.
    { intros ->. destruct Hact as (pc & Hj & Hid). rewrite Hi in Hj. by injection Hj as <- <-. }
    exists kj, id. simpl. rewrite active_set_pc, decide_False by done. split; [done|].
    destruct Hr as [(wl & Hwl & Hin)|(wl & e & Hat & Hin)].
    + left. exists wl. rewrite lookup_insert_ne by congruence. done.
    + right. exists wl, e. split; [|done]. apply set_pc_lookup. by rewrite decide_False.
  - destruct Hr as (kj & id & Hact & Hr). exists kj, id. simpl. rewrite active_call.
    split; [done|]. destruct Hr as [Hr|(wl & e & Hat & Hin)]; [by left|]. right. exists wl, e.
    split; [|done]. by apply lookup_app_l_Some.
Qed.

(** A call that begins to wait parks in the cell of an active load. *)
Lemma parked_step s act s' w :
  inv s -> inv s' -> step act s = Some s' -> ~ pending w (calls s) -> pending w (calls s') ->
  exists j, responsible j w s'.
Proof.
  intros Hinv Hinv' Hs Hn Hp.
  destruct (step_cases _ _ _ Hs) as [(i & k & pc & pc' & ws & Hm & Hw & _)|[(k & Hd)|[(i & k & Hb)|(k & ->)]]].
  - destruct (decide (w = i)) as [->|Hne].
    + destruct (gm_moved _ _ _ _ _ _ _ Hm) as [_ Ht _ _ _ _]. destruct Hp as (k' & Hp).
      rewrite Ht in Hp. injection Hp as <- ->. destruct (Hw eq_refl) as (_ & id & wl & Hcell).
      destruct (inv_cell _ Hinv' _ _ _ Hcell) as (j & Hj). exists j, k, id. split; [done|].
      left. eexists. split; [done|]. set_solver.
    + by destruct (moved_pending _ _ _ _ _ _ _ (gm_moved _ _ _ _ _ _ _ Hm) _ Hne Hp).
  - rewrite (dr_calls _ _ _ Hd) in Hp. unfold drop_cell in Hp.
    by rewrite pending_resolve in Hp by done; destruct Hp.
  - destruct Hb as (_ & _ & ->). simpl in Hp. by rewrite pending_set_pc in Hp by done; destruct Hp.
  - simpl in Hp. by rewrite pending_call in Hp.
Qed.

#[local] Instance pending_dec w l : Decision (pending w l).
Proof.
  destruct (l !! w) as [[k [| |[]| | | | | |]]|] eqn:Hl;
    try (right; intros (k' & Hk'); rewrite Hl in Hk'; done).
  left. by exists k.
Defined.

Lemma waiting_has_loader n s w :
  reachable n s -> Z.of_nat n <= usize_max -> pending w (calls s) -> exists j, responsible j w s.
Proof.
  induction 1 as [|n s act s' Hr IH Hs]; intros Hn Hp; [by destruct Hp as (k & Hk)|].
  destruct (reachable_inv _ _ Hr ltac:(lia)) as [Hinv He].
  destruct (step_inv _ _ _ Hinv ltac:(lia) Hs) as [Hinv' _].
  destruct (decide (pending w (calls s))) as [Hp0|Hp0]; [|by apply (parked_step s act)].
  destruct (IH ltac:(lia) Hp0) as (j & Hj). exists j. by apply (responsible_step s act).
Qed.


(** ** Waiting ends with the load *)

(** What call [j] does to finish, whatever its load returns: at most three steps. *)
Definition finish (j : nat) (pc : Pc) (o : Outcome) (now : Instant) : list Action :=
  match pc with
  | Holding _ =>
      [LoadDone j o; match loaded o with Ok _ => Publish j now | Err _ => Evict j end]
  | Publishing _ _ => [Publish j now]
  | Evicting _ _ _ => [Evict j]
  | Closing _ _ => [Close j]
  | _ => []
  end.

Lemma set_pc_self i k pc pc' l : l !! i = Some (k, pc) -> set_pc i pc' l !! i = Some (k, pc').
Proof. intros Hi. apply set_pc_lookup. rewrite decide_True by done. by eexists. Qed.

Lemma resolve_active rx ws l i k pc :
  pc_id pc <> None -> l !! i = Some (k, pc) -> resolve rx ws l !! i = Some (k, pc).
Proof.
  intros Hpc Hi. apply resolve_lookup. exists pc. split; [done|].
  destruct pc as [| |[]| | | | | |]; naive_solver.
Qed.

(** One of those steps resolves everyone the load is responsible for. *)
Lemma finish_resolves j w s o now k id pc :
  inv s -> at_pc j k pc s -> pc_id pc = Some id -> responsible j w s -> w <> j ->
  exists acts s', acts `prefix_of` finish j pc o now /\ run acts s = Some s' /\
    ~ pending w (calls s').
Proof.
  intros Hinv Hat Hid (k' & id' & Hact & Hr) Hwj.
  assert (k' = k /\ id' = id) as [-> ->].
  { apply (active_key j _ _ _ _ (calls s)); [done|by exists pc]. }
  unfold at_pc in *. destruct pc as [| | |i0|i0 plan|i0 wl e|i0 r| |]; try done; simpl in Hid;
    injection Hid as ->.
  - destruct Hr as [(wl & Hwl & Hin)|(wl & e & He & Hin)]; [|congruence].
    assert (owns id (plans s !! k) = true) as Ho by (apply owns_spec; eauto).
    destruct (loaded o) as [plan|e] eqn:Hlo.
    + exists [LoadDone j o]. eexists. split; [by eexists|]. cbn [run step]. rewrite Hat.
      split; [done|]. unfold load_done. rewrite Ho, Hlo, Hwl. simpl.
      rewrite pending_set_pc, pending_resolve by done. tauto.
    + eexists [LoadDone j o; Evict j]. eexists. split; [by exists []; simpl; rewrite Hlo|].
      cbn [run]. unfold step at 1. rewrite Hat. unfold load_done. rewrite Ho, Hlo. simpl.
      rewrite (set_pc_self _ _ _ _ _ Hat). split; [done|]. simpl.
      rewrite pending_set_pc, pending_resolve by done. rewrite Hwl. simpl. tauto.
  - destruct Hr as [(wl & Hwl & Hin)|(wl & e & He & Hin)]; [|congruence].
    exists [Publish j now]. eexists. split; [by exists []|]. simpl. rewrite Hat.
    split; [done|]. unfold publish. rewrite (proj2 (owns_spec _ _)) by eauto. simpl.
    unfold drop_cell. rewrite Hwl. simpl. rewrite pending_set_pc, pending_resolve by done. tauto.
  - exists [Evict j]. eexists. split; [by exists []|]. simpl. rewrite Hat. split; [done|]. simpl.
    unfold drop_cell. rewrite pending_set_pc, !pending_resolve by done.
    destruct Hr as [(wl' & Hwl & Hin)|(wl' & e' & He & Hin)].
    + rewrite Hwl. simpl. tauto.
    + rewrite Hat in He. injection He as <- <-. tauto.
  - destruct Hr as [(wl & Hwl & Hin)|(wl & e & He & Hin)]; [|congruence].
    exists [Close j]. eexists. split; [by exists []|]. simpl. rewrite Hat.
    split; [done|]. unfold guard_drop. rewrite (proj2 (owns_spec _ _)) by eauto. simpl.
    unfold drop_cell. rewrite Hwl. simpl. rewrite pending_set_pc, pending_resolve by done. tauto.
Qed.

Lemma settled_step s act s' w k pc :
  calls s !! w = Some (k, pc) -> settled pc = true -> step act s = Some s' ->
  exists pc', calls s' !! w = Some (k, pc') /\ settled pc' = true.
Proof.
  intros Hw Hset Hs.
  assert (pc <> Waiting Pending) as Hnp by (by intros ->).
  destruct (step_cases _ _ _ Hs)
    as [(i & k0 & pc0 & pc' & ws & Hm & _ & Hc)|[(k0 & Hd)|[(i & k0 & Hi & _ & ->)|(k0 & ->)]]].
  - destruct (gm_moved _ _ _ _ _ _ _ Hm) as [Hf Ht _ _ Ho _].
    destruct (decide (w = i)) as [->|Hne]; [|by exists pc; split; [apply Ho|]].
    rewrite Hf in Hw. injection Hw as -> ->. exists pc'. split; [done|].
    destruct Hc as [->|[->|?]]; done.
  - exists pc. split; [|done]. rewrite (dr_calls _ _ _ Hd). apply resolve_lookup. exists pc.
    split; [done|]. destruct pc as [| |[]| | | | | |]; done.
  - exists pc. split; [|done]. apply set_pc_lookup. rewrite decide_False; [done|].
    intros ->. rewrite Hi in Hw. by injection Hw as <- <-.
  - exists pc. split; [|done]. by apply lookup_app_l_Some.
Qed.

Lemma settled_run acts s s' w k pc :
  calls s !! w = Some (k, pc) -> settled pc = true -> run acts s = Some s' ->
  ~ pending w (calls s').
Proof.
  revert s pc. induction acts as [|act acts IH]; simpl; intros s pc Hw Hset.
  - intros [= <-] (k' & Hp). rewrite Hw in Hp. by injection Hp as <- ->.
  - destruct (step act s) as [s1|] eqn:Hs; [|done].
    destruct (settled_step _ _ _ _ _ _ Hw Hset Hs) as (pc' & Hw' & Hset'). by eapply IH.
Qed.

(** A step leaves a waiting call waiting or settles it. *)
Lemma pending_or_settled s act s' w :
  pending w (calls s) -> step act s = Some s' ->
  pending w (calls s') \/ exists k pc, calls s' !! w = Some (k, pc) /\ settled pc = true.
Proof.
  intros (k & Hw) Hs.
  assert (Hrx : forall rx, calls s' !! w = Some (k, Waiting rx) ->
    pending w (calls s') \/ exists k pc, calls s' !! w = Some (k, pc) /\ settled pc = true).
  { intros rx Hrx. destruct rx; [by left; exists k|right; by eauto..]. }
  destruct (step_cases _ _ _ Hs)
    as [(i & k0 & pc0 & pc' & ws & Hm & _ & Hc)|[(k0 & Hd)|[(i & k0 & Hi & _ & ->)|(k0 & ->)]]].
  - destruct (gm_moved _ _ _ _ _ _ _ Hm) as [Hf Ht _ _ _ Hwt].
    destruct (decide (w = i)) as [->|Hne]; [|by destruct (Hwt w k Hne Hw) as (rx & ?); eauto].
    rewrite Hf in Hw. injection Hw as -> ->. right. exists k, pc'. split; [done|].
    by destruct Hc as [?|[?|?]].
  - destruct (resolve_waiting Closed (cell_waiters (plans s !! k0)) _ _ _ _ Hw) as (rx & Hr).
    apply (Hrx rx). by rewrite (dr_calls _ _ _ Hd).
  - apply (Hrx Pending). apply set_pc_lookup. rewrite decide_False; [done|]. intros ->. congruence.
  - apply (Hrx Pending). by apply lookup_app_l_Some.
Qed.

Lemma responsible_run acts n s s' j w :
  reachable n s -> Z.of_nat (length acts + n) <= usize_max -> run acts s = Some s' ->
  pending w (calls s) -> responsible j w s -> pending w (calls s') -> responsible j w s'.
Proof.
  revert n s. induction acts as [|act acts IH]; simpl; intros n s Hr Hn; [by intros [= <-]|].
  destruct (step act s) as [s1|] eqn:Hs; [|done]. intros Hrun Hp Hresp Hp'.
  destruct (reachable_inv _ _ Hr ltac:(lia)) as [Hinv _].
  destruct (pending_or_settled _ _ _ _ Hp Hs) as [Hp1|(k & pc & Hw & Hset)].
  - apply (IH (S n) s1); [by eapply reach_step|lia|done|done| |done].
    by apply (responsible_step s act).
  - by destruct (settled_run _ _ _ _ _ _ Hw Hset Hrun).
Qed.

(** C22. No caller waits for a plan forever: whoever waits has a caller whose load
    answers for it; once that caller is done, however the steps are interleaved, the
    waiter is no longer pending; and that caller can always finish on its own, with
    any outcome of its load, and release the waiter on the way. *)
Theorem waiters_follow_their_load n s w :
  reachable n s -> Z.of_nat n <= usize_max -> pending w (calls s) ->
  exists j k pc, at_pc j k pc s /\ is_some (pc_id pc) = true /\
    (forall acts s', Z.of_nat (length acts + n) <= usize_max -> run acts s = Some s' ->
       (forall k' id, ~ active j k' id (calls s')) -> ~ pending w (calls s')) /\
    (forall o now, exists acts s', acts `prefix_of` finish j pc o now /\
       run acts s = Some s' /\ ~ pending w (calls s')).
Proof.
  intros Hr Hn Hp. destruct (waiting_has_loader _ _ _ Hr Hn Hp) as (j & Hj).
  pose proof Hj as (k & id & (pc & Hat & Hid) & _). exists j, k, pc.
  split; [done|]. split; [by rewrite Hid|]. split.
  - intros acts s' Hn' Hrun Hdone Hp'.
    destruct (responsible_run _ _ _ _ _ _ Hr Hn' Hrun Hp Hj Hp') as (k' & id' & Hact & _).
    by eapply Hdone.
  - intros o now. eapply finish_resolves; [|done..|].
    + by destruct (reachable_inv _ _ Hr Hn).
    + intros ->. destruct Hp as (k' & Hp). unfold at_pc in Hat. rewrite Hat in Hp.
      by injection Hp as -> ->.
Qed.

(** ** A load overtaken by an invalidation *)

(** No cell carries identifier [id], and none will. *)
Definition retired (id : Z) (s : Cache) : Prop :=
  id < epoch s /\ forall k ws, plans s !! k <> Some (Loading id ws).

Lemma cache_retired_step s act s' id :
  inv s -> epoch s < usize_max -> retired id s -> step act s = Some s' -> retired id s'.
Proof.
  intros Hinv Hlt [Hid Hno] Hs.
  pose proof (inv_epoch _ Hinv) as He.
  destruct (step_cases _ _ _ Hs)
    as [(i & k0 & pc0 & pc' & ws & Hm & _)|[(k0 & Hd)|[(i & k0 & Hi & _ & ->)|(k0 & ->)]]].
  - split; [by rewrite (gm_epoch _ _ _ _ _ _ _ Hm)|]. intros k wl Hk.
    destruct (decide (k = k0)) as [->|Hne].
    + destruct (gm_cell _ _ _ _ _ _ _ Hm _ _ Hk) as [(wl0 & Hk0) _]. by eapply Hno.
    + rewrite (gm_others _ _ _ _ _ _ _ Hm) in Hk by done. by eapply Hno.
  - split; [by rewrite (dr_epoch _ _ _ Hd)|]. intros k wl Hk.
    destruct (decide (k = k0)) as [->|Hne]; [by eapply dr_cell|].
    rewrite (dr_others _ _ _ Hd) in Hk by done. by eapply Hno.
  - split; simpl; [rewrite fetch_add_small; lia|]. intros k wl Hk.
    destruct (decide (k = k0)) as [->|Hne].
    + rewrite lookup_insert_eq in Hk. injection Hk as <- _. lia.
    + rewrite lookup_insert_ne in Hk by done. by eapply Hno.
  - by split.
Qed.

Lemma cache_retired_run acts n s s' id :
  reachable n s -> Z.of_nat (length acts + n) <= usize_max -> run acts s = Some s' ->
  retired id s -> retired id s'.
Proof.
  revert n s. induction acts as [|act acts IH]; simpl; intros n s Hr Hn; [by intros [= <-]|].
  destruct (step act s) as [s1|] eqn:Hs; [|done]. intros Hrun Hret.
  destruct (reachable_inv _ _ Hr ltac:(lia)) as [Hinv He].
  apply (IH (S n) s1); [by eapply reach_step|lia|done|].
  by apply (cache_retired_step s act); [done|lia|..].
Qed.

(** A load that an invalidation of its key overtook is not published: whatever
    happens in between, its write-back leaves the cache as it is. *)
Theorem overtaken_load_not_published n s i k pc id acts s' now s'' :
  reachable n s -> Z.of_nat (length acts + S n) <= usize_max ->
  at_pc i k pc s -> pc_id pc = Some id ->
  run (Invalidate k :: acts) s = Some s' ->
  active i k id (calls s') -> step (Publish i now) s' = Some s'' ->
  plans s'' = plans s' /\ (forall ws, plans s'' !! k <> Some (Loading id ws)).
Proof.
  intros Hr Hn Hat Hid Hrun Hact Hpub.
  destruct (reachable_inv _ _ Hr ltac:(lia)) as [Hinv He].
  assert (reachable (S n) (invalidate_version k s)) as Hr1
    by (by eapply (reach_step n s (Invalidate k))).
  assert (retired id s') as [_ Hno].
  { apply (cache_retired_run acts (S n) (invalidate_version k s)); [done|lia|done|].
    assert (active i k id (calls s)) as Hacts by (by exists pc).
    split; simpl; [by destruct (inv_id _ Hinv _ _ _ Hacts)|]. intros k' ws Hk'.
    destruct (decide (k' = k)) as [->|Hne]; [by rewrite lookup_delete_eq in Hk'|].
    rewrite lookup_delete_ne in Hk' by done. destruct (inv_cell _ Hinv _ _ _ Hk') as (j & Hj).
    assert (j = i) as -> by (by eapply (inv_unique _ Hinv)).
    by destruct (active_key _ _ _ _ _ _ Hj Hacts). }
  simpl in Hpub. destruct Hact as (pc' & Hat' & Hid'). rewrite Hat' in Hpub.
  destruct pc' as [| | | |id0 plan| | | |]; try done. simpl in Hid'. injection Hid' as ->.
  injection Hpub as <-. unfold publish.
  destruct (owns id (plans s' !! k)) eqn:Ho; [|by split].
  apply owns_spec in Ho as (ws & Hk). by destruct (Hno k ws).
Qed.

(** ** Single flight *)

(** Steps other than the operations from outside. *)
Definition internal (act : Action) : bool :=
  match act with InsertReady _ _ _ _ | Invalidate _ => false | _ => true end.

Definition before_write_back (pc : Pc) : bool :=
  match pc with Holding _ | Publishing _ _ | Evicting _ _ _ => true | _ => false end.

(** A load that has not written back owns the cell of its key. *)
Definition flights (s : Cache) : Prop :=
  forall i k pc id, at_pc i k pc s -> before_write_back pc = true -> pc_id pc = Some id ->
    exists ws, plans s !! k = Some (Loading id ws).

(** Moves that keep the cell of every other load. *)
Lemma flights_moved s s' i k pc pc' ws :
  inv s -> flights s -> good_move i k pc pc' ws s s' ->
  (forall id, before_write_back pc' = true -> pc_id pc' = Some id ->
     exists wl, plans s' !! k = Some (Loading id wl)) ->
  (forall id wl, plans s !! k = Some (Loading id wl) -> pc_id pc <> Some id ->
     exists wl', plans s' !! k = Some (Loading id wl')) ->
  flights s'.
Proof.
  intros Hinv Hf Hgm. pose proof Hgm as [[Hfrom Ht Ha _ _ _] _ _ Hoth _ _ _].
  intros Hself Hkeep j k' p id Hat Hb Hid.
  destruct (decide (j = i)) as [->|Hne].
  - unfold at_pc in Hat. rewrite Ht in Hat. injection Hat as <- <-. by apply Hself.
  - assert (active j k' id (calls s)) as (p0 & Hp0 & Hid0) by (apply Ha; [done|by exists p]).
    assert (p0 = p) as ->.
    { destruct (gm_moved _ _ _ _ _ _ _ Hgm) as [_ _ _ _ Ho _].
      specialize (Ho j k' p0 Hne Hp0 ltac:(by intros ->)). unfold at_pc in Hat. congruence. }
    destruct (Hf j k' p id Hp0 Hb Hid) as (wl & Hwl).
    destruct (decide (k' = k)) as [->|Hk]; [|exists wl; by rewrite Hoth].
    apply (Hkeep id wl Hwl). intros Hpc. apply Hne, (inv_unique _ Hinv j i k k id); [by exists p|].
    by exists pc.
Qed.

Lemma guard_drop_others i k id pc s id' wl :
  plans s !! k = Some (Loading id' wl) -> id <> id' ->
  plans (guard_drop i k id pc s) !! k = Some (Loading id' wl).
Proof.
  intros Hk Hne. unfold guard_drop. rewrite Hk. simpl. by rewrite (proj2 (Z.eqb_neq _ _) Hne).
Qed.

Lemma flights_step s act s' :
  inv s -> flights s -> internal act = true -> step act s = Some s' -> flights s'.
Proof.
  intros Hinv Hf Hint Hs.
  destruct act as [k|i now|i now m r|i o|i now|i|i|i|i|k plan m now|k]; simpl in Hs; try done.
  - injection Hs as <-. intros j k' pc id Hat Hb Hid. apply (Hf j k' pc id); [|done..].
    apply lookup_app_Some in Hat as [?|[_ Hl]]; [done|].
    apply list_lookup_singleton_Some in Hl as [_ [= <- <-]]. done.
  - destruct (calls s !! i) as [[k []]|] eqn:Hi; try done. injection Hs as <-. unfold fast_path.
    repeat case_match; (eapply (flights_moved s _ i); [done|done|constructor; simpl; solve_move|done|];
      simpl; eauto).
  - destruct (calls s !! i) as [[k []]|] eqn:Hi; try done. injection Hs as <-. unfold take_entry.
    destruct (plans s !! k) as [[id wl|plan mt ls]|] eqn:Hk.
    + eapply (flights_moved s _ i k Looping (Waiting Pending) []); [done|done| |done|].
      * constructor; simpl; try solve_move. rewrite lookup_insert_eq, Hk.
        intros id' wl' [= <- <-] x Hx. right. left. eexists. split; [done|]. set_solver.
      * simpl. rewrite lookup_insert_eq, Hk. naive_solver.
    + repeat case_match.
      * eapply (flights_moved s _ i); [done|done|constructor; simpl; solve_move|done|];
          simpl; rewrite Hk; done.
      * eapply (flights_moved s _ i); [done|done|constructor; simpl; solve_move|done|];
          simpl; rewrite Hk; done.
      * intros j k' pc id Hat Hb Hid. destruct (Hf j k' pc id Hat Hb Hid) as (wl & Hwl).
        exists wl. simpl. rewrite lookup_delete_ne by congruence. done.
    + intros j k' pc id Hat Hb Hid. apply set_pc_lookup in Hat.
      destruct (decide (i = j)) as [->|Hne].
      * destruct Hat as (pc0 & Hj & ->). rewrite Hi in Hj. injection Hj as <- <-.
        injection Hid as <-. exists []. simpl. by rewrite lookup_insert_eq.
      * destruct (Hf j k' pc id Hat Hb Hid) as (wl & Hwl). exists wl. simpl.
        rewrite lookup_insert_ne by congruence. done.
  - destruct (calls s !! i) as [[k []]|] eqn:Hi; try done. injection Hs as <-.
    destruct (load_done_move i k id o s Hi) as (pc' & ws & Hid & Hm).
    destruct (Hf i k (Holding id) id Hi eq_refl eq_refl) as (wl & Hwl).
    assert (plans (load_done i k id o s) !! k = Some (Loading id [])) as Hk'.
    { unfold load_done. rewrite Hwl. simpl. rewrite Z.eqb_refl.
      destruct (loaded o); simpl; by rewrite lookup_insert_eq. }
    eapply (flights_moved s _ i); [done|done|done|..]; rewrite Hk', ?Hwl; naive_solver.
  - destruct (calls s !! i) as [[k []]|] eqn:Hi; try done. injection Hs as <-.
    destruct (publish_move i k id plan now s Hi) as (ws & Hm).
    destruct (Hf i k (Publishing id plan) id Hi eq_refl eq_refl) as (wl & Hwl).
    eapply (flights_moved s _ i); [done|done|done|done|]. rewrite Hwl. naive_solver.
  - destruct (calls s !! i) as [[k []]|] eqn:Hi; try done. injection Hs as <-.
    destruct (evict_move i k id waiters e s Hi) as (ws & Hm).
    destruct (Hf i k (Evicting id waiters e) id Hi eq_refl eq_refl) as (wl & Hwl).
    eapply (flights_moved s _ i); [done|done|done|done|]. rewrite Hwl. naive_solver.
  - destruct (calls s !! i) as [[k []]|] eqn:Hi; try done. injection Hs as <-.
    destruct (guard_drop_move i k id _ (Returned r) s Hi) as (ws & Hm); [done..|].
    eapply (flights_moved s _ i); [done|done|done|done|]. intros id' wl Hk Hne.
    exists wl. apply guard_drop_others; [done|]. simpl in Hne. congruence.
  - destruct (calls s !! i) as [[k [| |rx| | | | | |]]|] eqn:Hi; try done.
    destruct (received rx) as [r|]; [|done]. injection Hs as <-.
    eapply (flights_moved s _ i); [done|done|constructor; simpl; solve_move|done|]; simpl; eauto.
  - destruct (calls s !! i) as [[k []]|] eqn:Hi; try done; injection Hs as <-.
    + eapply (flights_moved s _ i); [done|done|constructor; simpl; solve_move|done|]; simpl; eauto.
    + destruct (guard_drop_move i k id _ Cancelled s Hi) as (ws & Hm); [done..|].
      eapply (flights_moved s _ i); [done|done|done|done|]. intros id' wl Hk Hne.
      exists wl. apply guard_drop_others; [done|]. simpl in Hne. congruence.
Qed.

(** A key is loaded by one caller at a time, as long as nobody invalidates it. *)
Theorem single_flight acts s i j k pc pc' :
  Z.of_nat (length acts) <= usize_max -> forallb internal acts = true ->
  run acts new = Some s ->
  at_pc i k pc s -> before_write_back pc = true ->
  at_pc j k pc' s -> before_write_back pc' = true -> i = j.
Proof.
  intros Hn Hint Hrun.
  assert (forall acts n s, reachable n s -> Z.of_nat (length acts + n) <= usize_max ->
    forallb internal acts = true -> flights s -> forall s', run acts s = Some s' ->
    flights s' /\ inv s') as Hgen.
  { clear. induction acts as [|act acts IH]; simpl; intros n s Hr Hn Hint Hf s'.
    - intros [= <-]. split; [done|]. by destruct (reachable_inv _ _ Hr Hn).
    - destruct (step act s) as [s1|] eqn:Hs; [|done]. apply andb_prop in Hint as [Ha Hint].
      destruct (reachable_inv _ _ Hr ltac:(lia)) as [Hinv _].
      apply (IH (S n)); [by eapply reach_step|lia|done|]. by apply (flights_step s act). }
  destruct (Hgen acts 0%nat new reach_new ltac:(lia) Hint ltac:(by intros ? ? ? ?) s Hrun) as [Hf Hinv].
  intros Hi Hbi Hj Hbj.
  assert (exists id, pc_id pc = Some id) as (id & Hid) by (destruct pc; by eauto).
  assert (exists id, pc_id pc' = Some id) as (id' & Hid') by (destruct pc'; by eauto).
  destruct (Hf _ _ _ _ Hi Hbi Hid) as (ws & Hws), (Hf _ _ _ _ Hj Hbj Hid') as (ws' & Hws').
  rewrite Hws in Hws'. injection Hws' as <- _.
  apply (inv_unique _ Hinv i j k k id); [by exists pc|by exists pc'].
Qed.

(** ** Answers come from loads of the same key *)

Definition answer_plan (r : Answer) : option EnsemblePlan :=
  match r with Ok plan => Some plan | Err _ => None end.

(** The plan a call carries. *)
Definition pc_plan (pc : Pc) : option EnsemblePlan :=
  match pc with
  | Publishing _ plan => Some plan
  | Waiting (Sent r) | Closing _ r | Returned r => answer_plan r
  | _ => None
  end.

Section answers.
(** What is known of a plan when it is loaded for a key, or inserted for it. *)
Variable from : PlanKey -> EnsemblePlan -> Prop.

Definition brings (act : Action) (s : Cache) : Prop :=
  match act with
  | LoadDone i (LoadOk plan) => forall k id, at_pc i k (Holding id) s -> from k plan
  | InsertReady k plan _ _ => from k plan
  | _ => True
  end.

Record sourced (s : Cache) : Prop := {
  src_cell : forall k plan m t, plans s !! k = Some (Ready plan m t) -> from k plan;
  src_call : forall i k pc plan, at_pc i k pc s -> pc_plan pc = Some plan -> from k plan;
  src_waiter : forall k id ws w, plans s !! k = Some (Loading id ws) -> w ∈ ws ->
    exists pc, at_pc w k pc s;
}.

Lemma key_set_pc i pc l w k :
  (exists p, l !! w = Some (k, p)) -> exists p, set_pc i pc l !! w = Some (k, p).
Proof.
  intros (p & Hp). setoid_rewrite set_pc_lookup. destruct (decide (i = w)); eauto.
Qed.

Lemma key_resolve rx ws l w k :
  (exists p, l !! w = Some (k, p)) -> exists p, resolve rx ws l !! w = Some (k, p).
Proof. intros (p & Hp). eexists. apply resolve_lookup. by exists p. Qed.

(** The calls of [s'] after a move: the key is kept, and the plan is an old one, the
    one sent, or that of the new place. *)
Lemma src_set_pc i pc l (P : PlanKey -> EnsemblePlan -> Prop) :
  (forall j k p plan, l !! j = Some (k, p) -> pc_plan p = Some plan -> P k plan) ->
  (forall k p plan, l !! i = Some (k, p) -> pc_plan pc = Some plan -> P k plan) ->
  forall j k p plan, set_pc i pc l !! j = Some (k, p) -> pc_plan p = Some plan -> P k plan.
Proof.
  intros Hl Hi j k p plan Hj Hp. apply set_pc_lookup in Hj.
  destruct (decide (i = j)) as [->|]; [|by eapply Hl]. destruct Hj as (p0 & Hj & ->). by eapply Hi.
Qed.

Lemma src_resolve rx ws l (P : PlanKey -> EnsemblePlan -> Prop) :
  (forall j k p plan, l !! j = Some (k, p) -> pc_plan p = Some plan -> P k plan) ->
  (forall j k plan, j ∈ ws -> (exists p, l !! j = Some (k, p)) ->
     pc_plan (Waiting rx) = Some plan -> P k plan) ->
  forall j k p plan, resolve rx ws l !! j = Some (k, p) -> pc_plan p = Some plan -> P k plan.
Proof.
  intros Hl Hw j k p plan Hj Hp. apply resolve_lookup in Hj as (p0 & Hj & ->).
  destruct p0 as [| |[]| | | | | |]; try by eapply Hl.
  destruct (decide (j ∈ ws)); [|by eapply Hl]. eauto.
Qed.

Lemma sourced_drop k s s' :
  sourced s -> dropped k s s' ->
  (forall plan m t, plans s' !! k = Some (Ready plan m t) -> from k plan) ->
  sourced s'.
Proof.
  intros [Hc Hl Hw] [Hcalls _ Hoth Hk] Hr. constructor.
  - intros k2 plan m t Hk2. destruct (decide (k2 = k)) as [->|Hne]; [by eapply Hr|].
    rewrite Hoth in Hk2 by done. by eapply Hc.
  - unfold at_pc. rewrite Hcalls. by apply src_resolve.
  - intros k2 id ws w Hk2 Hin. destruct (decide (k2 = k)) as [->|Hne]; [by destruct (Hk id ws)|].
    rewrite Hoth in Hk2 by done. unfold at_pc. rewrite Hcalls. apply key_resolve. by eapply Hw.
Qed.

(** Moving one call, without touching the plans. *)
Lemma sourced_set_pc i pc s s' :
  sourced s -> plans s' = plans s -> calls s' = set_pc i pc (calls s) ->
  (forall k p plan, at_pc i k p s -> pc_plan pc = Some plan -> from k plan) -> sourced s'.
Proof.
  intros [Hc Hl Hw] Hp Hcalls Hi. constructor; unfold at_pc in *; rewrite ?Hp, ?Hcalls.
  - done.
  - by apply src_set_pc.
  - intros k id ws w Hk Hin. apply key_set_pc. by eapply Hw.
Qed.

(** Removing or replacing a cell, then moving a call. *)
Lemma sourced_drop_set_pc i k pc s s' :
  sourced s -> calls s' = set_pc i pc (drop_cell k (calls s) (plans s)) ->
  (forall k2, k2 <> k -> plans s' !! k2 = plans s !! k2) ->
  (forall id ws, plans s' !! k <> Some (Loading id ws)) ->
  (forall plan m t, plans s' !! k = Some (Ready plan m t) -> from k plan) ->
  (forall k p plan, at_pc i k p s -> pc_plan pc = Some plan -> from k plan) -> sourced s'.
Proof.
  intros Hs Hcalls Hoth Hk Hr Hi.
  apply (sourced_set_pc i pc
    {| plans := plans s'; epoch := epoch s; calls := drop_cell k (calls s) (plans s) |});
    [|done|done|].
  - by apply (sourced_drop k s).
  - intros k0 p plan Hat. apply resolve_lookup in Hat as (p0 & Hp0 & _). by eapply Hi.
Qed.

Lemma sourced_guard_drop i k id pc s :
  sourced s -> (forall k p plan, at_pc i k p s -> pc_plan pc = Some plan -> from k plan) ->
  sourced (guard_drop i k id pc s).
Proof.
  intros Hs Hi. unfold guard_drop. destruct (owns id (plans s !! k)); [|by eapply sourced_set_pc].
  apply (sourced_drop_set_pc i k pc s); simpl; try solve_move; by intros; rewrite lookup_delete_eq.
Qed.

Lemma sourced_load_done i k id o s :
  sourced s -> calls s !! i = Some (k, Holding id) -> brings (LoadDone i o) s ->
  sourced (load_done i k id o s).
Proof.
  intros Hsrc Hi Hb. pose proof Hsrc as [Hc Hl Hw]. unfold load_done.
  set (ours := owns id (plans s !! k)).
  assert (Hfrom : forall plan, loaded o = Ok plan -> from k plan).
  { intros plan Ho. destruct o; simplify_eq/=. by eapply Hb. }
  assert (Hcell : forall k' id' ws w,
      (if ours then <[k := Loading id []]> (plans s) else plans s) !! k' = Some (Loading id' ws) ->
      w ∈ ws -> exists p, calls s !! w = Some (k', p)).
  { intros k' id' ws w Hk Hin. destruct ours; [|by eapply Hw].
    destruct (decide (k' = k)) as [->|Hne].
    - rewrite lookup_insert_eq in Hk. injection Hk as <- <-. set_solver.
    - rewrite lookup_insert_ne in Hk by done. by eapply Hw. }
  assert (Hready : forall k' plan m t,
      (if ours then <[k := Loading id []]> (plans s) else plans s) !! k' = Some (Ready plan m t) ->
      from k' plan).
  { intros k' plan m t Hk. destruct ours; [|by eapply Hc].
    destruct (decide (k' = k)) as [->|Hne]; [by rewrite lookup_insert_eq in Hk|].
    rewrite lookup_insert_ne in Hk by done. by eapply Hc. }
  destruct (loaded o) as [plan|e] eqn:Ho; constructor; simpl; try done; unfold at_pc; simpl.
  - apply src_set_pc; [apply src_resolve; [done|]|].
    + intros j k' plan' Hj (p & Hp) [= <-]. destruct ours eqn:Hours; [|set_solver].
      unfold ours in Hours. apply owns_spec in Hours as (ws & Hk). rewrite Hk in Hj. simpl in Hj.
      destruct (Hw _ _ _ _ Hk Hj) as (p' & Hp'). unfold at_pc in Hp'. rewrite Hp in Hp'.
      injection Hp' as -> ->. by apply Hfrom.
    + intros k' p plan' Hk [= <-]. apply resolve_lookup in Hk as (p0 & Hp0 & _).
      rewrite Hi in Hp0. injection Hp0 as <- _. by apply Hfrom.
  - intros k' id' ws w Hk Hin. by apply key_set_pc, key_resolve, (Hcell k' id' ws).
  - apply src_set_pc; [done|]. intros k' p plan' Hk Hp. by destruct ours.
  - intros k' id' ws w Hk Hin. by apply key_set_pc, (Hcell k' id' ws).
Qed.

Lemma sourced_take_entry i k now m r s :
  sourced s -> calls s !! i = Some (k, Looping) -> sourced (take_entry i k now m r s).
Proof.
  intros Hsrc Hi. pose proof Hsrc as [Hc Hl Hw]. unfold take_entry.
  assert (Hret : forall plan m t, plans s !! k = Some (Ready plan m t) ->
    forall k' p plan', at_pc i k' p s -> pc_plan (Returned (Ok plan)) = Some plan' -> from k' plan').
  { intros plan m' t Hk k' p plan' Hat [= <-]. unfold at_pc in Hat. rewrite Hi in Hat.
    injection Hat as <- _. by eapply Hc. }
  destruct (plans s !! k) as [[id wl|plan mt ls]|] eqn:Hk.
  - constructor; simpl.
    + intros k' plan m' t Hk'. destruct (decide (k' = k)) as [->|Hne];
        [by rewrite lookup_insert_eq in Hk'|]. rewrite lookup_insert_ne in Hk' by done. by eapply Hc.
    + by apply src_set_pc.
    + intros k' id' ws w Hk' Hin. apply key_set_pc. destruct (decide (k' = k)) as [->|Hne].
      * rewrite lookup_insert_eq in Hk'. injection Hk' as <- <-.
        apply elem_of_app in Hin as [Hin| ->%list_elem_of_singleton]; [by eapply Hw|by eexists].
      * rewrite lookup_insert_ne in Hk' by done. by eapply Hw.
  - repeat case_match.
    + eapply sourced_set_pc; [done..|by eapply Hret].
    + constructor; simpl.
      * intros k' plan' m' t Hk'. destruct (decide (k' = k)) as [->|Hne].
        -- rewrite lookup_insert_eq in Hk'. injection Hk' as <- _ _. by eapply Hc.
        -- rewrite lookup_insert_ne in Hk' by done. by eapply Hc.
      * apply src_set_pc; [done|by eapply Hret].
      * intros k' id' ws w Hk' Hin. apply key_set_pc. destruct (decide (k' = k)) as [->|Hne];
          [by rewrite lookup_insert_eq in Hk'|]. rewrite lookup_insert_ne in Hk' by done. by eapply Hw.
    + apply (sourced_drop k s); [done| |by intros; simpl in *; rewrite lookup_delete_eq in *].
      constructor; simpl; try solve_move. unfold drop_cell. rewrite Hk. simpl. by rewrite resolve_nil.
  - constructor; simpl.
    + intros k' plan m' t Hk'. destruct (decide (k' = k)) as [->|Hne];
        [by rewrite lookup_insert_eq in Hk'|]. rewrite lookup_insert_ne in Hk' by done. by eapply Hc.
    + by apply src_set_pc.
    + intros k' id' ws w Hk' Hin. apply key_set_pc. destruct (decide (k' = k)) as [->|Hne].
      * rewrite lookup_insert_eq in Hk'. injection Hk' as <- <-. set_solver.
      * rewrite lookup_insert_ne in Hk' by done. by eapply Hw.
Qed.

Lemma sourced_step s act s' : sourced s -> brings act s -> step act s = Some s' -> sourced s'.
Proof.
  intros Hsrc Hb Hs. pose proof Hsrc as [Hc Hl Hw].
  destruct act as [k|i now|i now m r|i o|i now|i|i|i|i|k plan m now|k]; simpl in Hs;
    try (destruct (calls s !! i) as [[k pc]|] eqn:Hi; [|done]; destruct pc; try done).
  - injection Hs as <-. constructor; simpl; [done|..].
    + intros j k' pc plan Hat. apply lookup_app_Some in Hat as [?|[_ Hat]]; [by eapply Hl|].
      by apply list_lookup_singleton_Some in Hat as [_ [= <- <-]].
    + intros k' id ws w Hk Hin. destruct (Hw _ _ _ _ Hk Hin) as (pc & Hpc). exists pc.
      by apply lookup_app_l_Some.
  - injection Hs as <-. eapply sourced_set_pc; [done..|]. unfold at_pc. intros k0 p plan Hat Hp.
    rewrite Hi in Hat. injection Hat as <- <-. repeat case_match; simplify_eq/=; by eapply Hc.
  - injection Hs as <-. by apply sourced_take_entry.
  - injection Hs as <-. by apply sourced_load_done.
  - injection Hs as <-. assert (from k plan) as Hp by (by eapply Hl).
    assert (forall k0 p plan', at_pc i k0 p s ->
      pc_plan (Closing id (Ok plan)) = Some plan' -> from k0 plan') as Hown.
    { intros k0 p plan' Hat [= <-]. unfold at_pc in Hat. rewrite Hi in Hat. by injection Hat as <- _. }
    unfold publish. destruct (owns id (plans s !! k)); [|by eapply sourced_set_pc].
    apply (sourced_drop_set_pc i k (Closing id (Ok plan)) s); simpl; solve_move.
  - injection Hs as <-.
    apply (sourced_set_pc i (Closing id (Err e))
      {| plans := delete k (plans s); epoch := epoch s;
         calls := resolve (Sent (Err (Internal ("ensemble plan load failed: " +:+ display e))))
                    waiters (drop_cell k (calls s) (plans s)) |}); [|done..].
    constructor; simpl.
    + intros k' plan m t Hk'. destruct (decide (k' = k)) as [->|Hne];
        [by rewrite lookup_delete_eq in Hk'|]. rewrite lookup_delete_ne in Hk' by done. by eapply Hc.
    + apply src_resolve; [by apply src_resolve|done].
    + intros k' id' ws w Hk' Hin. destruct (decide (k' = k)) as [->|Hne];
        [by rewrite lookup_delete_eq in Hk'|]. rewrite lookup_delete_ne in Hk' by done.
      apply key_resolve, key_resolve. by eapply Hw.
  - injection Hs as <-. apply sourced_guard_drop; [done|]. intros k0 p plan Hat Hp.
    unfold at_pc in Hat. rewrite Hi in Hat. injection Hat as <- <-. by eapply (Hl i k).
  - destruct (received rx) as [r|] eqn:Hr; [|done]. injection Hs as <-.
    eapply sourced_set_pc; [done..|]. intros k0 p plan Hat Hp. unfold at_pc in Hat.
    rewrite Hi in Hat. injection Hat as <- <-. destruct rx; simplify_eq/=. by eapply (Hl i k).
  - injection Hs as <-. by eapply sourced_set_pc.
  - injection Hs as <-. by apply sourced_guard_drop.
  - injection Hs as <-. apply (sourced_drop k s); [done|constructor; simpl; solve_move|].
    intros plan' m' t. simpl. rewrite lookup_insert_eq. by intros [= <- _ _].
  - injection Hs as <-. apply (sourced_drop k s); [done|constructor; simpl; solve_move|].
    intros plan' m' t. simpl. by rewrite lookup_delete_eq.
Qed.

(** Every plan a caller is given was produced for the key it asked for, by a load or
    by [insert_ready] of that key, in every interleaving. *)
Theorem answers_come_from_loads (acts : list Action) (s : Cache) i k plan :
  (forall pre act post s0, acts = pre ++ act :: post -> run pre new = Some s0 -> brings act s0) ->
  run acts new = Some s -> at_pc i k (Returned (Ok plan)) s -> from k plan.
Proof.
  intros Hb Hrun Hat.
  assert (forall suf pre s0, acts = pre ++ suf -> run pre new = Some s0 -> sourced s0 ->
    forall s, run suf s0 = Some s -> sourced s) as Hgen.
  { induction suf as [|act suf IH]; simpl; intros pre s0 Hacts Hpre Hs0 s1; [by intros [= <-]|].
    destruct (step act s0) as [s2|] eqn:Hs; [|done]. intros Hrun1.
    apply (IH (pre ++ [act]) s2); [by rewrite <- app_assoc| | |done].
    - clear -Hpre Hs. revert Hpre. generalize new. induction pre as [|a pre IHp]; simpl; intros s1.
      + intros [= ->]. by rewrite Hs.
      + destruct (step a s1); [apply IHp|done].
    - apply (sourced_step s0 act); [done| |done]. by eapply Hb. }
  assert (sourced s) as Hsrc.
  { apply (Hgen acts [] new); [done|done| |done]. by constructor. }
  by eapply src_call.
Qed.
End answers.

(** ** Races the code admits *)

Definition key1 : PlanKey := {| pk_model := "pipeline"; pk_version := "1" |}.
Definition plan1 : EnsemblePlan :=
  {| config_path := "pipeline/1/config.yaml"; source_mtime := Some 7; contents := "a" |}.
Definition plan2 : EnsemblePlan :=
  {| config_path := "pipeline/1/config.yaml"; source_mtime := Some 9; contents := "b" |}.

(** Call 0 loads, call 1 parks behind it. *)
Definition two_calls : list Action :=
  [Call key1; Call key1; FastPath 0 0; TakeEntry 0 0 None 0; FastPath 1 0; TakeEntry 1 0 None 0].

(** A call that parks between the answers to the waiters and the write-back of a
    successful load is dropped by the write-back: it fails although the plan it asked
    for is loaded and cached, with no invalidation around. *)
Theorem late_waiter_fails_on_success :
  exists acts s, forallb internal acts = true /\ run acts new = Some s /\
    at_pc 0 key1 (Returned (Ok plan1)) s /\
    at_pc 1 key1 (Returned (Err (Internal "ensemble plan load task dropped"))) s /\
    plans s !! key1 = Some (Ready plan1 (Some 7) 5).
Proof.
  exists [Call key1; Call key1; FastPath 0 0; TakeEntry 0 0 None 0; LoadDone 0 (LoadOk plan1);
          FastPath 1 0; TakeEntry 1 0 None 0; Publish 0 5; Close 0; Receive 1].
  eexists. split; [done|]. split; [vm_compute; reflexivity|]. by vm_compute.
Qed.

(** The removal of a failed load does not check that the cell is still its own: a plan
    inserted after an invalidation is evicted by a load that began before it. *)
Theorem failed_load_evicts_newer_plan :
  exists pre s s', run pre new = Some s /\ plans s !! key1 = Some (Ready plan2 (Some 9) 5) /\
    at_pc 0 key1 (Evicting 0 [] (Config "bad yaml")) s /\
    step (Evict 0) s = Some s' /\ plans s' !! key1 = None.
Proof.
  exists [Call key1; FastPath 0 0; TakeEntry 0 0 None 0; LoadDone 0 (LoadErr (Config "bad yaml"));
          Invalidate key1; InsertReady key1 plan2 (Some 9) 5].
  do 2 eexists. split; [vm_compute; reflexivity|]. split; [done|]. split; [done|].
  split; [vm_compute; reflexivity|]. done.
Qed.

(** A plan whose source could not be read when it was cached is not reloaded while the
    source stays unreadable: two absent times compare equal. *)
Theorem unreadable_source_kept i k now r s plan t :
  calls s !! i = Some (k, Looping) -> plans s !! k = Some (Ready plan None t) ->
  stat_interval <= elapsed now t ->
  take_entry i k now None r s
  = {| plans := <[k := Ready plan None r]> (plans s); epoch := epoch s;
       calls := set_pc i (Returned (Ok plan)) (calls s) |}.
Proof.
  intros Hi Hk Ht. unfold take_entry. rewrite Hk.
  rewrite (proj2 (Z.ltb_ge _ _) Ht). by rewrite decide_True.
Qed.

(** ** The theorems at concrete inputs *)

Lemma waiters_follow_their_load_witness :
  match run two_calls new with
  | Some s => pending 1 (calls s) /\
      exists j k pc, at_pc j k pc s /\ is_some (pc_id pc) = true
  | None => False
  end.
Proof.
  destruct (run two_calls new) as [s|] eqn:Hs; [|vm_compute in Hs; discriminate].
  pose proof (run_reachable _ _ _ _ reach_new Hs) as Hr.
  assert (Hp : pending 1 (calls s)).
  { vm_compute in Hs. injection Hs as <-. exists key1. reflexivity. }
  split; [exact Hp|].
  destruct (waiters_follow_their_load _ s 1 Hr) as (j & k & pc & H1 & H2 & _);
    [vm_compute; discriminate|exact Hp|]. exists j, k, pc. split; assumption.
Defined.

Lemma overtaken_load_witness :
  match run two_calls new with
  | Some s =>
      match run [Invalidate key1; LoadDone 0 (LoadOk plan1)] s with
      | Some s' =>
          match step (Publish 0 5) s' with
          | Some s'' => plans s'' = plans s'
          | None => False
          end
      | None => False
      end
  | None => False
  end.
Proof.
  destruct (run two_calls new) as [s|] eqn:Hs; [|vm_compute in Hs; discriminate].
  pose proof (run_reachable _ _ _ _ reach_new Hs) as Hr.
  destruct (run [Invalidate key1; LoadDone 0 (LoadOk plan1)] s) as [s'|] eqn:Hs'.
  - destruct (step (Publish 0 5) s') as [s''|] eqn:Hs''.
    + refine (proj1 (overtaken_load_not_published _ s 0 key1 (Holding 0) 0
        [LoadDone 0 (LoadOk plan1)] s' 5 s'' Hr _ _ _ Hs' _ Hs'')).
      * vm_compute; discriminate.
      * vm_compute in Hs. injection Hs as <-. reflexivity.
      * reflexivity.
      * vm_compute in Hs. injection Hs as <-. vm_compute in Hs'. injection Hs' as <-.
        eexists. split; reflexivity.
    + vm_compute in Hs. injection Hs as <-. vm_compute in Hs'. injection Hs' as <-.
      vm_compute in Hs''. discriminate.
  - vm_compute in Hs. injection Hs as <-. vm_compute in Hs'. discriminate.
Defined.

Lemma single_flight_witness :
  match run two_calls new with
  | Some s => at_pc 0 key1 (Holding 0) s /\ 0%nat = 0%nat
  | None => False
  end.
Proof.
  destruct (run two_calls new) as [s|] eqn:Hs; [|vm_compute in Hs; discriminate].
  assert (at_pc 0 key1 (Holding 0) s) as Hat by (vm_compute in Hs; injection Hs as <-; reflexivity).
  split; [exact Hat|].
  apply (single_flight two_calls s 0 0 key1 (Holding 0) (Holding 0)); try assumption; try reflexivity.
  vm_compute; discriminate.
Defined.

Lemma answers_come_from_loads_witness :
  match run (two_calls ++ [LoadDone 0 (LoadOk plan1); Receive 1]) new with
  | Some s => at_pc 1 key1 (Returned (Ok plan1)) s /\ (key1 = key1 /\ plan1 = plan1)
  | None => False
  end.
Proof.
  destruct (run (two_calls ++ [LoadDone 0 (LoadOk plan1); Receive 1]) new) as [s|] eqn:Hs;
    [|vm_compute in Hs; discriminate].
  assert (at_pc 1 key1 (Returned (Ok plan1)) s) as Hat
    by (vm_compute in Hs; injection Hs as <-; reflexivity).
  split; [exact Hat|].
  apply (answers_come_from_loads (fun k plan => k = key1 /\ plan = plan1)
           (two_calls ++ [LoadDone 0 (LoadOk plan1); Receive 1]) s 1 key1 plan1); try assumption.
  intros pre act post s0 Hacts Hpre.
  repeat (destruct pre as [|? pre]; simpl in Hacts; [injection Hacts as <- <-; try exact I|
    injection Hacts as <- Hacts]); try (destruct pre; discriminate).
  vm_compute in Hpre. injection Hpre as <-. intros k id Hk. vm_compute in Hk.
  injection Hk as <- <-. split; reflexivity.
Defined.
