(* ===== verification/Lpm.v ===== *)
(** * The LPM frame codec and the incoming half of a bidirectional stream

    Models [encode_frame] and [try_decode_frame] of [src/src/streaming/lpm.rs] and
    the task of [src/src/http/handlers/bidi.rs] that decodes the frames of a
    request body and forwards them to the worker.  A byte is an integer below 256,
    the [BytesMut] buffer a list of bytes that decoding consumes from the front.

    The protobuf message and its codec are generated code: a type with an encoder,
    a decoder and the view of its payload, as parameters.

    The theorems: what the worker is sent depends on the bytes of the body and not
    on how the transport cuts them up, and a body of well-formed frames is
    forwarded message by message with exactly one close. *)

From S2P Require Import Prelude.
Open Scope Z_scope.

Abbreviation bytes := (list Z) (only parsing).

(** ** Frames *)

Definition MAX_LPM_FRAME : Z := 16 * 1024 * 1024.
Definition HEADER_SIZE : Z := 5.

Inductive LpmError := BadFlag | TooLarge | Truncated | EmptyPayload | Decode.

(** [put_u32] and [u32::from_be_bytes]. *)
Definition put_u32 (n : Z) : bytes :=
  [n / 2 ^ 24 mod 256; n / 2 ^ 16 mod 256; n / 2 ^ 8 mod 256; n mod 256].

Definition from_be_bytes (a b c d : Z) : Z := a * 2 ^ 24 + b * 2 ^ 16 + c * 2 ^ 8 + d.

(** The payload of a [BidiChunk] ([oneof payload]), as far as it is forwarded. *)
Inductive BidiPayload := POpen | PData (data : bytes) | PClose | PError.

(** The requests [build_stream_chunk] and [build_stream_close]. *)
Inductive worker_msg := StreamChunk (data : bytes) | StreamClose.

Section codec.
Context {BidiChunk : Type} (encode_to_vec : BidiChunk -> bytes)
  (decode : bytes -> option BidiChunk) (payload : BidiChunk -> option BidiPayload).

(** The length is cast to [u32]. *)
Definition encode_frame (chunk : BidiChunk) : bytes :=
  let p := encode_to_vec chunk in
  0 :: put_u32 (Z.of_nat (length p) mod 2 ^ 32) ++ p.

(** One frame off the buffer; [Ok None] asks for more bytes. *)
Definition try_decode_frame (buf : bytes) : result LpmError (option BidiChunk) * bytes :=
  match buf with
  | flag :: b1 :: b2 :: b3 :: b4 :: rest =>
      if negb (flag =? 0) then (Err BadFlag, [])
      else
        let len := from_be_bytes b1 b2 b3 b4 in
        if MAX_LPM_FRAME <? len then (Err TooLarge, [])
        else if len =? 0 then (Err EmptyPayload, rest)
        else
          let total := HEADER_SIZE + len in
          if Z.of_nat (length buf) <? total then (Ok None, buf)
          else
            let n := Z.to_nat len in
            match decode (take n rest) with
            | Some c => (Ok (Some c), drop n rest)
            | None => (Err Decode, drop n rest)
            end
  | _ => (Ok None, buf)
  end.

(** ** The incoming task *)

(** Where the frames at hand end. *)
Inductive frames_end :=
  | NeedMore (buf : bytes)
  | ClosedByClient
  | Malformed (e : LpmError).

(** The iterations of the loop that find a frame in the buffer; [None] only when
    [fuel] runs out. *)
Fixpoint drain_frames (fuel : nat) (buf : bytes) : option (list worker_msg * frames_end) :=
  match try_decode_frame buf with
  | (Ok None, buf) => Some ([], NeedMore buf)
  | (Err e, _) => Some ([], Malformed e)
  | (Ok (Some chunk), buf) =>
      match payload chunk with
      | Some PClose => Some ([StreamClose], ClosedByClient)
      | p =>
          match fuel with
          | O => None
          | S fuel =>
              match drain_frames fuel buf with
              | None => None
              | Some (out, e) =>
                  Some (match p with Some (PData d) => StreamChunk d :: out | _ => out end, e)
              end
          end
      end
  end.

(** The task: the body's items are its data, or [None] for a transport error; the
    list's end is the body's.  A frame takes at least six bytes, so the length of
    the buffer is fuel enough. *)
Fixpoint incoming_task (buf : bytes) (body : list (option bytes)) : option (list worker_msg) :=
  match drain_frames (length buf) buf with
  | None => None
  | Some (out, ClosedByClient) => Some out
  | Some (out, Malformed _) => Some (out ++ [StreamClose])
  | Some (out, NeedMore buf) =>
      match body with
      | Some data :: body =>
          match incoming_task (buf ++ data) body with
          | None => None
          | Some rest => Some (out ++ rest)
          end
      | _ => Some (out ++ [StreamClose])
      end
  end.

(** ** Decoding is monotone in the buffer *)

Lemma try_decode_more buf more :
  match try_decode_frame buf with
  | (Ok None, buf') => buf' = buf
  | (Err e, _) => fst (try_decode_frame (buf ++ more)) = Err e
  | (Ok (Some c), buf') =>
      try_decode_frame (buf ++ more) = (Ok (Some c), buf' ++ more) /\
      (length buf' < length buf)%nat
  end.
Proof.
  destruct buf as [|f [|b1 [|b2 [|b3 [|b4 rest]]]]]; try done. cbn [try_decode_frame app].
  destruct (negb (f =? 0)); [done|].
  destruct (MAX_LPM_FRAME <? _) eqn:Hmax; [done|].
  destruct (from_be_bytes b1 b2 b3 b4 =? 0) eqn:Hz; [done|].
  set (len := from_be_bytes b1 b2 b3 b4) in *. unfold HEADER_SIZE.
  destruct (Z.ltb_spec (Z.of_nat (length (f :: b1 :: b2 :: b3 :: b4 :: rest))) (5 + len))
    as [Hl|Hl]; [done|]. simpl length in Hl.
  assert (Hle : (Z.to_nat len <= length rest)%nat) by lia.
  rewrite (proj2 (Z.ltb_ge _ _)) by (simpl length; rewrite length_app; lia).
  rewrite take_app_le, drop_app_le by done.
  destruct (decode (take (Z.to_nat len) rest)); [|done]. split; [done|].
  rewrite length_drop. simpl. lia.
Qed.

(** A buffer's length is fuel enough. *)
Lemma drain_frames_total fuel buf :
  (length buf <= fuel)%nat ->
  exists r, drain_frames fuel buf = Some r /\
    forall fuel', (length buf <= fuel')%nat -> drain_frames fuel' buf = Some r.
Proof.
  revert buf. induction fuel as [|fuel IH]; intros buf Hf.
  { destruct buf; [|simpl in Hf; lia]. exists ([], NeedMore []). split; [done|].
    by intros [|?]. }
  cbn [drain_frames]. pose proof (try_decode_more buf []) as Hd.
  destruct (try_decode_frame buf) as [[[c|]|e] buf'] eqn:Ht.
  - destruct Hd as [_ Hlt]. destruct (IH buf') as ([out e] & -> & Hall); [lia|].
    destruct (payload c) as [[|d| |]|] eqn:Hp; eexists; (split; [done|]);
      intros [|f'] Hf'; simpl; rewrite Ht, Hp; try done; try lia; by rewrite Hall by lia.
  - eexists. split; [done|]. intros [|f'] _; simpl; by rewrite Ht.
  - eexists. split; [done|]. intros [|f'] _; simpl; by rewrite Ht.
Qed.

Lemma drain_frames_fuel fuel buf :
  (length buf <= fuel)%nat -> drain_frames fuel buf = drain_frames (length buf) buf.
Proof.
  intros Hf. destruct (drain_frames_total (length buf) buf) as (r & -> & Hall); [lia|].
  by apply Hall.
Qed.

(** More bytes continue where the frames at hand ended. *)
Lemma drain_frames_more buf more out e :
  drain_frames (length buf) buf = Some (out, e) ->
  drain_frames (length (buf ++ more)) (buf ++ more) =
  match e with
  | NeedMore buf' =>
      match drain_frames (length (buf' ++ more)) (buf' ++ more) with
      | Some (out', e') => Some (out ++ out', e')
      | None => None
      end
  | _ => Some (out, e)
  end.
Proof.
  remember (length buf) as n eqn:Hn. assert (Hle : (length buf <= n)%nat) by lia. clear Hn.
  revert buf out e Hle. induction n as [|n IH]; intros buf out e Hle.
  { destruct buf; [|simpl in Hle; lia]. simpl. intros [= <- <-]. simpl.
    by destruct (drain_frames (length more) more) as [[]|]. }
  cbn [drain_frames]. pose proof (try_decode_more buf more) as Hd.
  destruct (try_decode_frame buf) as [[[c|]|er] buf'] eqn:Ht.
  - destruct Hd as [Hd Hlt].
    assert (Hstep : forall p, payload c = p -> p <> Some PClose ->
      drain_frames (length (buf ++ more)) (buf ++ more) =
      match drain_frames (length (buf' ++ more)) (buf' ++ more) with
      | Some (o, e) => Some (match p with Some (PData d) => StreamChunk d :: o | _ => o end, e)
      | None => None
      end).
    { intros p Hp Hnc. destruct (length (buf ++ more)) as [|m] eqn:Hm.
      { rewrite length_app in Hm. lia. }
      cbn [drain_frames]. rewrite Hd, Hp.
      rewrite (drain_frames_fuel m (buf' ++ more)) by (rewrite length_app in *; lia).
      by destruct p as [[]|]. }
    destruct (drain_frames_total n buf') as ([o' e'] & Hdr & _); [lia|].
    destruct (payload c) as [[|d| |]|] eqn:Hp; rewrite ?Hdr.
    3:{ intros [= <- <-]. destruct (length (buf ++ more)); cbn [drain_frames]; by rewrite Hd, Hp. }
    all: intros [= <- <-]; rewrite (Hstep _ eq_refl) by done;
      rewrite (IH buf' o' e') by (done || lia); destruct e' as [b| |er]; try done;
      by destruct (drain_frames (length (b ++ more)) (b ++ more)) as [[]|].
  - intros [= <- <-]. subst buf'. by destruct (drain_frames _ (buf ++ more)) as [[]|].
  - intros [= <- <-].
    destruct (length (buf ++ more)); cbn [drain_frames];
      destruct (try_decode_frame (buf ++ more)) as [r b]; simpl in Hd; by rewrite Hd.
Qed.

(** Segmentation does not matter. *)
Lemma incoming_task_joined buf segs :
  incoming_task buf (map Some segs) = incoming_task (buf ++ mjoin segs) [].
Proof.
  revert buf. induction segs as [|s segs IH]; intros buf; simpl.
  { by rewrite app_nil_r. }
  destruct (drain_frames_total (length buf) buf) as ([out e] & Hd & _); [lia|]. rewrite Hd.
  rewrite (drain_frames_more buf (s ++ mjoin segs) out e Hd).
  destruct e as [b| |er]; [|done|done].
  rewrite IH, <- app_assoc. destruct (drain_frames _ (b ++ s ++ mjoin segs)) as [[o e]|] eqn:Hb.
  - cbn [incoming_task app]. simpl. rewrite Hb. destruct e; simpl; by rewrite ?app_assoc.
  - simpl. by rewrite Hb.
Qed.
(** The frames at hand never end without the worker's close pending. *)
Lemma drain_frames_closes fuel buf out e :
  drain_frames fuel buf = Some (out, e) ->
  match e with
  | ClosedByClient => exists msgs, out = msgs ++ [StreamClose] /\ StreamClose ∉ msgs
  | _ => StreamClose ∉ out
  end.
Proof.
  assert (Hnil : StreamClose ∉ []) by apply not_elem_of_nil.
  revert buf out e. induction fuel as [|fuel IH]; intros buf out e; cbn [drain_frames];
    destruct (try_decode_frame buf) as [[[c|]|er] buf']; try (by intros [= <- <-]);
    destruct (payload c) as [[|d| |]|]; try (by intros [= <- <-]; exists []); try done.
  all: destruct (drain_frames fuel buf') as [[o e']|] eqn:Hd; [|done]; intros [= <- <-];
    specialize (IH _ _ _ Hd); try exact IH.
  destruct e' as [b| |er]; try (by rewrite not_elem_of_cons).
  destruct IH as (msgs & -> & Hn). exists (StreamChunk d :: msgs). by rewrite not_elem_of_cons.
Qed.

(** Whatever the client sends (malformed frames, transport errors and early end of
    body included) the incoming task finishes and its last message to the worker,
    and no other, is a close; and what it sends depends on the bytes of the body,
    not on how they are segmented. *)
Theorem worker_input_closed_once (buf : bytes) (body : list (option bytes)) :
  (exists msgs, incoming_task buf body = Some (msgs ++ [StreamClose]) /\ StreamClose ∉ msgs) /\
  (forall segs segs', mjoin segs = mjoin segs' ->
     incoming_task buf (map Some segs) = incoming_task buf (map Some segs')).
Proof.
  split.
  2:{ intros segs segs' Heq. by rewrite !incoming_task_joined, Heq. }
  revert buf. induction body as [|[data|] body IH]; intros buf; simpl.
  all: destruct (drain_frames_total (length buf) buf) as ([out e] & Hd & _); [lia|]; rewrite Hd;
    pose proof (drain_frames_closes _ _ _ _ Hd) as Hc; destruct e as [b| |er]; try (by exists out);
    try (destruct Hc as (msgs & -> & Hn); by exists msgs).
  destruct (IH (b ++ data)) as (msgs & -> & Hn). exists (out ++ msgs).
  rewrite app_assoc, not_elem_of_app. done.
Qed.

(** ** Round trip *)

(** What the worker should see of the client's chunks: the data up to the first
    close, and one close. *)
Fixpoint forwarded (cs : list BidiChunk) : list worker_msg :=
  match cs with
  | [] => [StreamClose]
  | c :: cs =>
      match payload c with
      | Some PClose => [StreamClose]
      | Some (PData d) => StreamChunk d :: forwarded cs
      | _ => forwarded cs
      end
  end.

(** A chunk whose encoding the decoder admits. *)
Definition frame_fits (c : BidiChunk) : Prop :=
  0 < Z.of_nat (length (encode_to_vec c)) <= MAX_LPM_FRAME.

Lemma be_bytes_roundtrip n :
  0 <= n < 2 ^ 32 ->
  from_be_bytes (n / 2 ^ 24 mod 256) (n / 2 ^ 16 mod 256) (n / 2 ^ 8 mod 256) (n mod 256) = n.
Proof.
  intros Hn. unfold from_be_bytes. change (2 ^ 24) with (256 * 256 * 256).
  change (2 ^ 16) with (256 * 256). change (2 ^ 8) with 256. change (2 ^ 32) with 4294967296 in Hn.
  rewrite <- !Z.div_div by lia. Z.to_euclidean_division_equations. lia.
Qed.

Hypothesis decode_encode : forall c, decode (encode_to_vec c) = Some c.

Lemma try_decode_encoded c rest :
  frame_fits c -> try_decode_frame (encode_frame c ++ rest) = (Ok (Some c), rest).
Proof.
  unfold frame_fits, MAX_LPM_FRAME. intros Hc. unfold encode_frame, put_u32.
  set (p := encode_to_vec c) in *. cbn [app try_decode_frame]. simpl negb.
  rewrite (Z.mod_small (Z.of_nat (length p))) by lia. rewrite be_bytes_roundtrip by lia.
  unfold MAX_LPM_FRAME, HEADER_SIZE.
  rewrite (proj2 (Z.ltb_ge _ _)), (proj2 (Z.eqb_neq _ _)) by lia.
  rewrite (proj2 (Z.ltb_ge _ _)) by (simpl length; rewrite length_app; lia).
  rewrite Nat2Z.id, take_app_length, drop_app_length. unfold p. by rewrite decode_encode.
Qed.

Lemma drain_frames_encoded cs :
  Forall frame_fits cs ->
  exists out e, drain_frames (length (mjoin (map encode_frame cs))) (mjoin (map encode_frame cs))
      = Some (out, e) /\
    match e with
    | NeedMore buf => buf = [] /\ forwarded cs = out ++ [StreamClose]
    | ClosedByClient => forwarded cs = out
    | Malformed _ => False
    end.
Proof.
  induction 1 as [|c cs Hc Hcs IH].
  { exists [], (NeedMore []). by split_and!. }
  destruct IH as (out & e & Hd & He).
  set (rest := mjoin (map encode_frame cs)) in *.
  change (mjoin (map encode_frame (c :: cs))) with (encode_frame c ++ rest).
  assert (Hlen : exists m, length (encode_frame c ++ rest) = S m /\ (length rest <= m)%nat).
  { unfold encode_frame, put_u32. simpl. eexists. split; [done|]. rewrite length_app. lia. }
  destruct Hlen as (m & -> & Hm). cbn [drain_frames]. rewrite (try_decode_encoded c rest Hc).
  rewrite (drain_frames_fuel m rest Hm), Hd. cbn [forwarded].
  destruct (payload c) as [[|d| |]|]; try (by exists out, e); try (by exists [StreamClose], ClosedByClient).
  exists (StreamChunk d :: out), e. split; [done|]. destruct e; [|by rewrite He|done].
  by destruct He as [-> ->].
Qed.

(** C30. A body that is the concatenation of encoded frames, cut into segments in
    any way, is decoded and forwarded to the worker message by message: the data
    chunks in order up to the first close, then one close; given that the message
    codec round-trips and every encoding has between 1 byte and the frame limit. *)
Theorem frames_forwarded_in_order (cs : list BidiChunk) (segs : list bytes) :
  Forall frame_fits cs -> mjoin segs = mjoin (map encode_frame cs) ->
  incoming_task [] (map Some segs) = Some (forwarded cs).
Proof.
  intros Hcs Heq. rewrite incoming_task_joined, Heq. simpl.
  destruct (drain_frames_encoded cs Hcs) as (out & e & -> & He).
  destruct e as [buf| |er]; [by destruct He as [_ ->]|by rewrite He|done].
Qed.
End codec.

(** ** The theorem at a concrete codec *)

Definition demo_encode (p : BidiPayload) : bytes :=
  match p with POpen => [1] | PData d => 3 :: d | PClose => [4] | PError => [5] end.

Definition demo_decode (b : bytes) : option BidiPayload :=
  match b with
  | [1] => Some POpen
  | 3 :: d => Some (PData d)
  | [4] => Some PClose
  | [5] => Some PError
  | _ => None
  end.

(** Two chunks and a close, cut in the middle of a header. *)
Lemma frames_forwarded_witness :
  incoming_task demo_decode Some []
    (map Some [[0; 0; 0]; [0; 2; 3; 7; 0; 0; 0; 0; 3; 3; 8]; [9]; [0; 0; 0; 0; 1; 4]])
  = Some [StreamChunk [7]; StreamChunk [8; 9]; StreamClose].
Proof.
  apply (frames_forwarded_in_order demo_encode demo_decode Some (fun c => match c with
    | POpen | PClose | PError => eq_refl | PData d => eq_refl end)
    [PData [7]; PData [8; 9]; PClose]).
  - repeat constructor; by vm_compute.
  - reflexivity.
Defined.
