(* ===== verification/Range.v ===== *)
(** * HTTP range requests

    Models [parse_range], [make_etag] and [if_range_allows] of
    [src/src/http/range.rs]: the byte window a download answers with.

    The theorem: whatever the header, a window lies within the representation, and
    the three standard forms (closed, open-ended, suffix) written in decimal are
    resolved as RFC 9110 says. *)

From S2P Require Import Prelude Text.
Open Scope Z_scope.

Inductive ByteRange :=
  | Full
  | Single (first last : Z)
  | Unsatisfiable.

Definition u64_max : Z := 2 ^ 64 - 1.

Abbreviation parse_u64 := (parse_uint u64_max).

Definition is_empty (s : string) : bool := bool_decide (s = EmptyString).

Definition parse_range (header : option string) (size : Z) : ByteRange :=
  match header with
  | None => Full
  | Some value =>
      match strip_prefix "bytes=" (trim value) with
      | None => Full
      | Some spec =>
          if has_char ","%char spec then Full
          else
            match split_once "-"%char spec with
            | None => Full
            | Some (first, last) =>
                let first := trim first in
                let last := trim last in
                if size =? 0 then
                  if is_empty first && is_empty last then Full else Unsatisfiable
                else if is_empty first then
                  match parse_u64 last with
                  | None => Full
                  | Some suffix =>
                      if suffix =? 0 then Unsatisfiable
                      else let n := Z.min suffix size in Single (size - n) (size - 1)
                  end
                else
                  match parse_u64 first, parse_u64 last with
                  | Some start, Some stop =>
                      if (stop <? start) || (size <=? start) then Unsatisfiable
                      else Single start (Z.min stop (size - 1))
                  | o, _ =>
                      match o, is_empty last with
                      | Some start, true =>
                          if start <? size then Single start (size - 1) else Unsatisfiable
                      | _, _ => Full
                      end
                  end
            end
      end
  end.

Definition dquote : Ascii.ascii := Ascii.ascii_of_nat 34.

Definition make_etag (content_hash : string) : string :=
  String dquote (content_hash +:+ String dquote EmptyString)%string.

Definition if_range_allows (if_range : option string) (etag : string) : bool :=
  match if_range with
  | None => true
  | Some value => bool_decide (trim value = etag)
  end.

(** ** Decimal numbers *)

Lemma pretty_char_digit x :
  (x < 10)%N -> is_digit (pretty_N_char x) = true /\ char_code (pretty_N_char x) - 48 = Z.of_N x.
Proof.
  intros Hx. destruct x as [|[[[[]|[]|]|[[]|[]|]|]|[[[]|[]|]|[[]|[]|]|]|]]; try lia; done.
Qed.

(** Parsing a printed number, most significant digit first. *)
Lemma parse_digits_go max x s :
  Z.of_N x <= max -> parse_digits max 0 (pretty_N_go x s) = parse_digits max (Z.of_N x) s.
Proof.
  revert s. induction (N.lt_wf_0 x) as [x _ IH]; intros s Hx.
  destruct (decide (0 < x)%N) as [Hpos|Hz].
  2:{ replace x with 0%N by lia. by rewrite pretty_N_go_0. }
  rewrite pretty_N_go_step by done. 
  assert (Hlt : (x / 10 < x)%N) by (apply N.div_lt; lia).
  rewrite IH by (done || lia).
  simpl. destruct (pretty_char_digit (x mod 10)) as [-> ->]; [by apply N.mod_lt|].
  replace (Z.of_N (x / 10) * 10 + Z.of_N (x mod 10)) with (Z.of_N x)
    by (rewrite N2Z.inj_div, N2Z.inj_mod; Z.to_euclidean_division_equations; lia).
  by rewrite (proj2 (Z.leb_le _ _)).
Qed.

(** All characters of a printed number are digits. *)
Lemma pretty_go_digits x s : all_chars is_digit s = true -> all_chars is_digit (pretty_N_go x s) = true.
Proof.
  revert s. induction (N.lt_wf_0 x) as [x _ IH]; intros s Hs.
  destruct (decide (0 < x)%N) as [Hpos|Hz].
  2:{ replace x with 0%N by lia. by rewrite pretty_N_go_0. }
  rewrite pretty_N_go_step by done. apply IH; [apply N.div_lt; lia|]. simpl.
  destruct (pretty_char_digit (x mod 10)) as [-> _]; [by apply N.mod_lt|]. done.
Qed.

Lemma pretty_go_nonempty x s : s <> EmptyString \/ (0 < x)%N -> pretty_N_go x s <> EmptyString.
Proof.
  revert s. induction (N.lt_wf_0 x) as [x _ IH]; intros s Hs.
  destruct (decide (0 < x)%N) as [Hpos|Hz].
  - rewrite pretty_N_go_step by done. apply IH; [apply N.div_lt; lia|]. by left.
  - replace x with 0%N by lia. rewrite pretty_N_go_0. by destruct Hs.
Qed.

(** A printed number: digits only, not empty, and it parses back. *)
Lemma pretty_number (n : N) max :
  Z.of_N n <= max ->
  all_chars is_digit (pretty n) = true /\ is_empty (pretty n) = false /\
  parse_uint max (pretty n) = Some (Z.of_N n).
Proof.
  intros Hn. unfold pretty, pretty_N, is_empty. destruct (decide (n = 0%N)) as [->|Hne].
  { split_and!; [done|done|]. simpl. by rewrite (proj2 (Z.leb_le _ _)). }
  pose proof (pretty_go_digits n "" eq_refl) as Hd.
  pose proof (pretty_go_nonempty n "" ltac:(right; lia)) as Hne'.
  pose proof (parse_digits_go max n "" Hn) as Hp.
  destruct (pretty_N_go n "") as [|c s]; [done|]. split_and!; [done|done|].
  unfold parse_uint. simpl in Hd. apply andb_prop in Hd as [Hc _].
  destruct (eq_char c "+"%char) eqn:Hplus; [|exact Hp].
  apply eq_char_true in Hplus as ->. done.
Qed.

(** ** Text without separators *)

Definition not_space (c : Ascii.ascii) : bool := negb (is_space c).

Lemma trim_tight s : all_chars not_space s = true -> trim s = s.
Proof.
  intros Hs. assert (Hst : trim_start s = s).
  { destruct s as [|c s]; [done|]. simpl in *. apply andb_prop in Hs as [Hc _].
    unfold not_space in Hc. by destruct (is_space c). }
  unfold trim. rewrite Hst. clear Hst. induction s as [|c s IH]; [done|]. simpl in *.
  apply andb_prop in Hs as [Hc Hs]. rewrite (IH Hs). unfold not_space in Hc.
  destruct s; [by destruct (is_space c)|done].
Qed.

Lemma digits_tight s : all_chars is_digit s = true -> all_chars not_space s = true.
Proof.
  induction s as [|c s IH]; simpl; [done|]. intros [Hc Hs]%andb_prop. rewrite IH by done.
  rewrite andb_true_r. unfold not_space, is_space, is_digit in *. apply andb_prop in Hc as [H1 H2].
  apply Z.leb_le in H1, H2. apply negb_true_iff, orb_false_iff. split; [lia|].
  apply andb_false_iff. right. lia.
Qed.

(** A header made of digits around the dash reaches the two numbers. *)
Lemma parse_range_text first last size :
  all_chars is_digit first = true -> all_chars is_digit last = true -> 0 < size ->
  parse_range (Some ("bytes=" +:+ first +:+ String "-"%char last)%string) size =
  (if is_empty first then
     match parse_u64 last with
     | None => Full
     | Some suffix => if suffix =? 0 then Unsatisfiable
                      else Single (size - Z.min suffix size) (size - 1)
     end
   else
     match parse_u64 first, parse_u64 last with
     | Some start, Some stop =>
         if (stop <? start) || (size <=? start) then Unsatisfiable
         else Single start (Z.min stop (size - 1))
     | o, _ =>
         match o, is_empty last with
         | Some start, true => if start <? size then Single start (size - 1) else Unsatisfiable
         | _, _ => Full
         end
     end).
Proof.
  intros Hf Hl Hs. unfold parse_range. rewrite trim_tight.
  2:{ rewrite !all_chars_app. simpl. by rewrite (digits_tight first Hf), (digits_tight last Hl). }
  change (strip_prefix _ _) with (Some (first +:+ String "-"%char last)%string). cbn iota beta.
  rewrite has_char_app. simpl has_char.
  rewrite (all_chars_no_char is_digit ","%char first), (all_chars_no_char is_digit ","%char last) by done. simpl orb.
  rewrite (proj2 (split_once_spec "-"%char _ first last))
    by (split; [done|by apply (all_chars_no_char is_digit)]).
  rewrite !trim_tight by (by apply digits_tight).
  by rewrite (proj2 (Z.eqb_neq size 0)) by lia.
Qed.

(** For a non-empty representation, a byte window parsed from any Range header lies
    within it, and the closed, open-ended and suffix forms written in decimal give
    the window RFC 9110 prescribes, clamped to the size, or are unsatisfiable. *)
Theorem range_window_resolved (size : Z) :
  0 < size <= u64_max ->
  (forall header first last, parse_range header size = Single first last ->
     0 <= first <= last /\ last < size) /\
  (forall start stop : N, Z.of_N start <= u64_max -> Z.of_N stop <= u64_max ->
     parse_range (Some ("bytes=" +:+ pretty start +:+ String "-"%char (pretty stop))%string) size
     = if (Z.of_N start <=? Z.of_N stop) && (Z.of_N start <? size)
       then Single (Z.of_N start) (Z.min (Z.of_N stop) (size - 1)) else Unsatisfiable) /\
  (forall start : N, Z.of_N start <= u64_max ->
     parse_range (Some ("bytes=" +:+ pretty start +:+ "-")%string) size
     = if Z.of_N start <? size then Single (Z.of_N start) (size - 1) else Unsatisfiable) /\
  (forall n : N, Z.of_N n <= u64_max ->
     parse_range (Some ("bytes=-" +:+ pretty n)%string) size
     = if (n =? 0)%N then Unsatisfiable
       else Single (Z.max 0 (size - Z.of_N n)) (size - 1)).
Proof.
  intros Hs. split_and!.
  - intros header first last. unfold parse_range.
    destruct header as [value|]; [|done]. destruct (strip_prefix _ _) as [spec|]; [|done].
    destruct (has_char _ _); [done|]. destruct (split_once _ _) as [[f l]|]; [|done].
    rewrite (proj2 (Z.eqb_neq size 0)) by lia.
    pose proof (parse_uint_range u64_max (trim f)) as Hf.
    pose proof (parse_uint_range u64_max (trim l)) as Hl.
    destruct (is_empty (trim f)).
    { destruct (parse_u64 (trim l)) as [n|]; [|done]. specialize (Hl n ltac:(lia) eq_refl).
      destruct (Z.eqb_spec n 0); [done|]. intros [= <- <-]. lia. }
    destruct (parse_u64 (trim f)) as [a|]; [|done].
    specialize (Hf a ltac:(lia) eq_refl).
    destruct (parse_u64 (trim l)) as [b|].
    + destruct (Z.ltb_spec b a), (Z.leb_spec size a); try done. intros [= <- <-]. lia.
    + destruct (is_empty (trim l)); [|done]. destruct (Z.ltb_spec a size); [|done].
      intros [= <- <-]. lia.
  - intros start stop Ha Hb. destruct (pretty_number start u64_max Ha) as (Hd & He & Hp).
    destruct (pretty_number stop u64_max Hb) as (Hd' & He' & Hp').
    rewrite parse_range_text by (done || lia). rewrite He, Hp, Hp'.
    destruct (Z.ltb_spec (Z.of_N stop) (Z.of_N start)), (Z.leb_spec size (Z.of_N start)),
      (Z.leb_spec (Z.of_N start) (Z.of_N stop)), (Z.ltb_spec (Z.of_N start) size); done || lia.
  - intros start Ha. destruct (pretty_number start u64_max Ha) as (Hd & He & Hp).
    rewrite (parse_range_text (pretty start) "") by (done || lia). by rewrite He, Hp.
  - intros n Hn. destruct (pretty_number n u64_max Hn) as (Hd & He & Hp).
    etrans; [apply (parse_range_text "" (pretty n)); done || lia|].
    change (is_empty "") with true. cbn iota. rewrite Hp.
    destruct (N.eqb_spec n 0) as [->|Hne]; [done|].
    rewrite (proj2 (Z.eqb_neq _ _)) by lia. f_equal. lia.
Qed.

Lemma range_window_witness :
  parse_range (Some "bytes=500-999") 700 = Single 500 699 /\
  parse_range (Some "bytes=-200") 700 = Single 500 699.
Proof.
  destruct (range_window_resolved 700) as (_ & Hc & _ & Hsuf); [by vm_compute|]. split.
  - apply (Hc 500%N 999%N); by vm_compute.
  - apply (Hsuf 200%N); by vm_compute.
Defined.
