(* ===== verification/Warmup.v ===== *)
(** * Device plans and warm-up runs

    Models [ModelConfig::resolve_device_plan] and [WarmupPolicy] of
    [src/src/config.rs], and the warm-up of [src/src/worker/lifecycle.rs]: the plan of
    units over the workers ([build_warmup_plan], [group_units_by_pin]), one attempt on
    the inference queue, on a custom route and on a stream, retries and budgets.

    What a worker answers to an attempt is an argument; a worker that never answers is
    [Silent], and a wait without a timeout on it does not end: the attempt is then
    [None].  The units of a group run concurrently: the order in which they complete is an
    argument.  Error texts are kept up to the values they name. *)

From S2P Require Import Prelude Text Float Json Pick Dispatch Range.
From stdpp Require Import sorting pretty.
Open Scope Z_scope.
Open Scope string_scope.

(** ** Device plans *)

Definition device_error : Type := string.

Definition round_robin (wpd : Z) (devices : list Z) : list Z := mjoin (replicate (Z.to_nat wpd) devices).

(** The entries of a list: indices without repetition. *)
Fixpoint device_list (items : list Value) (devices : list Z) : result device_error (list Z) :=
  match items with
  | [] => Ok devices
  | item :: items =>
      match value_as_u64 item with
      | None => Err "list entries must be a device index"
      | Some d => if bool_decide (d ∈ devices) then Err "duplicate device index"
                  else device_list items (devices ++ [d])%list
      end
  end.

(** The entries of a map: device and number of workers. *)
Fixpoint device_slots (entries : IndexMap Value) : result device_error (list (Z * Z)) :=
  match entries with
  | [] => Ok []
  | (key, count) :: entries =>
      let? d := ok_or (parse_uint usize_max key) "map keys must be a device index" in
      match value_as_u64 count with
      | Some c => if (1 <=? c)%Z then let? slots := device_slots entries in Ok ((d, c) :: slots)
                  else Err "map values must be a positive integer"
      | None => Err "map values must be a positive integer"
      end
  end.

Definition slot_le (a b : Z * Z) : Prop := (fst a <= fst b)%Z.

#[export] Instance slot_le_dec a b : Decision (slot_le a b).
Proof. unfold slot_le. apply _. Defined.

Definition spread (slots : list (Z * Z)) : list Z :=
  mjoin (map (fun dc => replicate (Z.to_nat (snd dc)) (fst dc)) slots).

Definition expand_slots (slots : list (Z * Z)) : list Z := spread (merge_sort slot_le slots).

(** The first occurrence of every element. *)
Fixpoint unique {A} `{EqDecision A} (l seen : list A) : list A :=
  match l with
  | [] => []
  | d :: l => if bool_decide (d ∈ seen) then unique l seen else d :: unique l (d :: seen)
  end.

Definition zero_to (n : Z) : list Z := map Z.of_nat (seq 0 (Z.to_nat n)).

(** [resolve_device_plan]; the counters are [usize]. *)
Definition resolve_device_plan (devices : option Value) (workers_per_device : option Z) (continuous_batching : bool)
    : result device_error (list Z) :=
  let wpd := default 1%Z workers_per_device in
  if (wpd =? 0)%Z then Err "workers_per_device must be >= 1"
  else
    let? plan :=
      match devices with
      | None => Ok (round_robin wpd [0%Z])
      | Some (Num n) =>
          match value_as_u64 (Num n) with
          | Some n => if (1 <=? n)%Z then Ok (round_robin wpd (zero_to n)) else Err "devices must be a positive integer"
          | None => Err "devices must be a positive integer"
          end
      | Some (Str s) => if String.eqb s "auto" then Ok (round_robin wpd [0%Z]) else Err "only the string auto"
      | Some (Array items) =>
          if bool_decide (length items = 0%nat) then Err "devices must not be an empty list"
          else let? l := device_list items [] in Ok (round_robin wpd l)
      | Some (Object entries) =>
          if bool_decide (length entries = 0%nat) then Err "devices must not be an empty map"
          else if negb (wpd =? 1)%Z then Err "the map form cannot be combined with workers_per_device"
          else let? slots := device_slots entries in Ok (expand_slots slots)
      | Some Null | Some (Bool _) => Err "unsupported value"
      end in
    Ok (if continuous_batching then unique plan [] else plan).

(** ** Policies *)

Inductive WarmupScope := ScopeVersion | ScopeWorker.
Inductive WarmupSampleMode := ModeUnary | ModeStream.
Inductive WarmupStreamCompletion := FirstChunk | Drain.

Record WarmupSample := {
  ws_input_ref : string;
  ws_iterations : Z;
  ws_route : string;
  ws_headers : gmap string string;
  ws_mode : WarmupSampleMode;
  ws_completion : option WarmupStreamCompletion;
}.

Record WarmupPolicy := {
  wp_enabled : bool;
  wp_scope : WarmupScope;
  wp_respawn : bool;
  wp_samples : list WarmupSample;
  wp_timeout_secs : spec_float;
  wp_total_timeout_secs : spec_float;
  wp_concurrency : Z;
  wp_retries : Z;
  wp_removed : bool;                    (** one of the removed fields is set *)
}.

(** A token of RFC 9110. *)
Definition tchar (c : Ascii.ascii) : bool :=
  is_alphanumeric c
  || bool_decide (c ∈ ["!"%char; "#"%char; "$"%char; "%"%char; "&"%char; "'"%char; "*"%char; "+"%char; "-"%char; "."%char;
                       "^"%char; "_"%char; "`"%char; "|"%char; "~"%char]).

Definition valid_sample (s : WarmupSample) : bool :=
  negb (bool_decide (trim (ws_input_ref s) = "")) && starts_with "/" (ws_route s)
  && negb (match ws_mode s with ModeStream => negb (String.eqb (ws_route s) "/predict") | ModeUnary => false end)
  && negb (match ws_mode s with ModeUnary => is_some (ws_completion s) | ModeStream => false end)
  && forallb (fun kv => negb (bool_decide (fst kv = "")) && all_chars tchar (fst kv)) (map_to_list (ws_headers s)).

(** [WarmupPolicy::validate]: whether it accepts. *)
Definition valid_policy (p : WarmupPolicy) : bool :=
  negb (wp_removed p) && negb (wp_enabled p && bool_decide (length (wp_samples p) = 0%nat))
  && forallb valid_sample (wp_samples p).

(** [effective_timeout], in seconds; nothing for an unbounded wait. *)
Definition effective_timeout (p : WarmupPolicy) (request_timeout : spec_float) : option spec_float :=
  let secs := if flt float_zero (wp_timeout_secs p) then wp_timeout_secs p else request_timeout in
  if flt float_zero secs then Some secs else None.

(** ** Plans *)

Record WarmupUnit := {
  wu_sample : nat;
  wu_pin : option nat;
}.

#[export] Instance WarmupUnit_eq_dec : EqDecision WarmupUnit.
Proof. solve_decision. Defined.

(** The samples by index, each as often as it iterates, at least once. *)
Definition sample_units (p : WarmupPolicy) : list nat :=
  mjoin (imap (fun si s => replicate (Z.to_nat (Z.max 1 (ws_iterations s))) si) (wp_samples p)).

Definition build_warmup_plan (p : WarmupPolicy) (workers : nat) : list WarmupUnit :=
  match wp_scope p, workers with
  | ScopeWorker, S _ =>
      mjoin (map (fun w => map (fun si => {| wu_sample := si; wu_pin := Some w |}) (sample_units p)) (seq 0 workers))
  | ScopeWorker, O => map (fun si => {| wu_sample := si; wu_pin := None |}) (sample_units p)
  | ScopeVersion, _ =>
      imap (fun g si => {| wu_sample := si; wu_pin := if Nat.ltb 0 workers then Some (g mod workers)%nat else None |})
        (sample_units p)
  end.

Definition build_warmup_plan_for_worker (p : WarmupPolicy) (w : nat) : list WarmupUnit :=
  map (fun si => {| wu_sample := si; wu_pin := Some w |}) (sample_units p).

(** Append to the group of the unit's pin, or open one. *)
Fixpoint add_unit (u : WarmupUnit) (groups : list (option nat * list WarmupUnit)) : list (option nat * list WarmupUnit) :=
  match groups with
  | [] => [(wu_pin u, [u])]
  | (pin, units) :: groups =>
      if bool_decide (pin = wu_pin u) then (pin, (units ++ [u])%list) :: groups
      else (pin, units) :: add_unit u groups
  end.

Definition group_units_by_pin (plan : list WarmupUnit) : list (list WarmupUnit) :=
  map snd (foldl (fun groups u => add_unit u groups) [] plan).

(** ** Attempts *)

Inductive WarmupStatus := WsSuccess | WsFailure | WsTimeout.

Record WarmupFailure := {
  wf_kind : WarmupStatus;
  wf_reason : string;
}.

Definition failure (reason : string) : WarmupFailure := {| wf_kind := WsFailure; wf_reason := reason |}.
Definition timed_out (reason : string) : WarmupFailure := {| wf_kind := WsTimeout; wf_reason := reason |}.

Definition validate_warmup_response (r : Response) : result WarmupFailure unit :=
  match rs_payload r with
  | Some (RSingle s) =>
      if String.eqb (match sr_status s with Some st => st_code st | None => "Ok" end) "Error"
      then Err (failure ("warmup inference returned error: "
                         +:+ match sr_status s with Some st => st_message st | None => "" end))
      else Ok tt
  | _ => Err (failure "warmup inference returned error: unexpected response payload")
  end.

(** What comes back on a one-shot channel. *)
Inductive Reply (A : Type) :=
  | Replied (a : A)
  | ChannelClosed
  | Silent.
Arguments Replied {A} _.
Arguments ChannelClosed {A}.
Arguments Silent {A}.

(** The wait for it, [bounded] if there is a timeout. *)
Definition await {A} (bounded : bool) (closed : string) (r : Reply A) : option (result WarmupFailure A) :=
  match r with
  | Replied a => Some (Ok a)
  | ChannelClosed => Some (Err (failure closed))
  | Silent => if bounded then Some (Err (timed_out "warmup: timed out")) else None
  end.

Definition then_validate (r : option (result WarmupFailure Response)) : option (result WarmupFailure unit) :=
  match r with
  | Some (Ok resp) => Some (validate_warmup_response resp)
  | Some (Err e) => Some (Err e)
  | None => None
  end.

(** The item of a unit: the pin is set after the sample's headers. *)
Definition unit_headers (u : WarmupUnit) (s : WarmupSample) : gmap string string :=
  match wu_pin u with
  | Some w => <["x-lite-worker-id" := pretty (N.of_nat w)]> (ws_headers s)
  | None => ws_headers s
  end.

Definition unit_item (chan : nat) (uid : string) (now : Instant) (payload : string) (u : WarmupUnit) (s : WarmupSample)
    : QueueItem :=
  {| qi_chan := chan; qi_uid := uid; qi_data := payload;
     qi_meta := Some {| meta_sequence_id := None; meta_headers := unit_headers u s |};
     qi_enqueued_at := now; qi_is_warmup := true |}.

(** [warmup_worker_client]: the index of the client. *)
Definition warmup_worker_client (clients : option nat) (pin : option nat) : result WarmupFailure nat :=
  match clients with
  | None => Err (failure "warmup: no worker clients")
  | Some n => let i := default 0%nat pin in
              if Nat.ltb i n then Ok i else Err (failure "warmup: no client for worker")
  end.

(** A route's answer: a frame of a stream, or a response. *)
Inductive RouteReply :=
  | StreamFrame
  | RouteResponse (r : Reply Response).

Definition run_route_warmup_once (clients : option nat) (u : WarmupUnit) (bounded : bool)
    (send : result string RouteReply) : option (result WarmupFailure unit) :=
  match warmup_worker_client clients (wu_pin u) with
  | Err e => Some (Err e)
  | Ok _ =>
      match send with
      | Err e => Some (Err (failure ("warmup route send: " +:+ e)))
      | Ok StreamFrame => Some (Err (failure "warmup: route returned a stream"))
      | Ok (RouteResponse r) => then_validate (await bounded "warmup: route response channel closed" r)
      end
  end.

(** Frames of a stream. *)
Inductive Frame :=
  | Chunk
  | Done
  | FrameError (message : string)
  | OtherFrame.

(** The rest of a stream after some frames: its channel closes, or nothing more comes. *)
Inductive StreamEnd := StreamClosed | StreamStalls.

(** An attempt on a stream: its result, and whether the worker was told to cancel. *)
Definition stalled (bounded : bool) : option (result WarmupFailure unit * bool) :=
  if bounded then Some (Err (timed_out "warmup: timed out"), true) else None.

Definition first_chunk (frames : list Frame) (fin : StreamEnd) (bounded : bool) : option (result WarmupFailure unit * bool) :=
  match frames, fin with
  | Chunk :: _, _ => Some (Ok tt, true)
  | Done :: _, _ => Some (Ok tt, false)
  | FrameError m :: _, _ => Some (Err (failure ("warmup stream returned error: " +:+ m)), false)
  | OtherFrame :: _, _ => Some (Err (failure "warmup: unexpected first stream frame"), true)
  | [], StreamClosed => Some (Err (failure "warmup: stream closed before any frame"), false)
  | [], StreamStalls => stalled bounded
  end.

Fixpoint drain (frames : list Frame) (fin : StreamEnd) (bounded : bool) : option (result WarmupFailure unit * bool) :=
  match frames, fin with
  | Chunk :: frames, _ => drain frames fin bounded
  | Done :: _, _ => Some (Ok tt, false)
  | FrameError m :: _, _ => Some (Err (failure ("warmup stream returned error: " +:+ m)), false)
  | OtherFrame :: _, _ => Some (Err (failure "warmup: unexpected stream frame"), true)
  | [], StreamClosed => Some (Err (failure "warmup: stream closed before Done"), false)
  | [], StreamStalls => stalled bounded
  end.

Definition run_stream_warmup_once (clients : option nat) (u : WarmupUnit) (s : WarmupSample) (bounded : bool)
    (open : result string (list Frame * StreamEnd)) : option (result WarmupFailure unit * bool) :=
  match warmup_worker_client clients (wu_pin u) with
  | Err e => Some (Err e, false)
  | Ok _ =>
      match open with
      | Err e => Some (Err (failure ("warmup stream open: " +:+ e)), false)
      | Ok (frames, fin) =>
          match default FirstChunk (ws_completion s) with
          | FirstChunk => first_chunk frames fin bounded
          | Drain => drain frames fin bounded
          end
      end
  end.

(** What the worker and the queue do with one attempt. *)
Record AttemptInput := {
  ai_submit : result string unit;              (** [try_submit] *)
  ai_reply : Reply Response;
  ai_route : result string RouteReply;
  ai_stream : result string (list Frame * StreamEnd);
  ai_clients : option nat;                     (** the clients of the version *)
}.

Definition run_warmup_unit_once (u : WarmupUnit) (s : WarmupSample) (bounded : bool) (ai : AttemptInput)
    : option (result WarmupFailure unit) :=
  if negb (String.eqb (ws_route s) "/predict") then run_route_warmup_once (ai_clients ai) u bounded (ai_route ai)
  else
    match ws_mode s with
    | ModeStream => fst <$> run_stream_warmup_once (ai_clients ai) u s bounded (ai_stream ai)
    | ModeUnary =>
        match ai_submit ai with
        | Err e => Some (Err (failure ("warmup: queue submit failed: " +:+ e)))
        | Ok _ => then_validate (await bounded "warmup: response channel closed" (ai_reply ai))
        end
    end.

(** ** Runs *)

(** [run_warmup_unit]: attempt [n], and [more] after it. *)
Fixpoint unit_attempts (more n : nat) (u : WarmupUnit) (s : WarmupSample) (bounded : bool) (inputs : nat -> AttemptInput)
    : option (result WarmupFailure unit) :=
  match run_warmup_unit_once u s bounded (inputs n), more with
  | Some (Ok _), _ => Some (Ok tt)
  | Some (Err e), O => Some (Err e)
  | Some (Err _), S more => unit_attempts more (S n) u s bounded inputs
  | None, _ => None
  end.

Definition run_warmup_unit (p : WarmupPolicy) (u : WarmupUnit) (s : WarmupSample) (bounded : bool)
    (inputs : nat -> AttemptInput) : option (result WarmupFailure unit) :=
  unit_attempts (Z.to_nat (wp_retries p)) 0 u s bounded inputs.

(** Units, numbered in the plan, in the order they complete; the first failure ends the
    run. *)
Fixpoint collect_units (p : WarmupPolicy) (bounded : bool) (inputs : nat -> nat -> AttemptInput)
    (units : list (nat * WarmupUnit)) : option (result WarmupFailure unit) :=
  match units with
  | [] => Some (Ok tt)
  | (k, u) :: units =>
      match wp_samples p !! wu_sample u with
      | None => None                                 (** out of range: a panic *)
      | Some s =>
          match run_warmup_unit p u s bounded (inputs k) with
          | Some (Ok _) => collect_units p bounded inputs units
          | r => r
          end
      end
  end.

Fixpoint run_groups (p : WarmupPolicy) (bounded : bool) (inputs : nat -> nat -> AttemptInput)
    (order : list (nat * WarmupUnit) -> list (nat * WarmupUnit)) (k : nat) (groups : list (list WarmupUnit))
    : option (result WarmupFailure unit) :=
  match groups with
  | [] => Some (Ok tt)
  | group :: groups =>
      match collect_units p bounded inputs (order (imap (fun i u => ((k + i)%nat, u)) group)) with
      | Some (Ok _) => run_groups p bounded inputs order (k + length group) groups
      | r => r
      end
  end.

Definition run_warmup_inner (p : WarmupPolicy) (request_timeout : spec_float) (workers : option nat)
    (dummies : result string unit) (pin : option nat) (inputs : nat -> nat -> AttemptInput)
    (order : list (nat * WarmupUnit) -> list (nat * WarmupUnit)) : option (result WarmupFailure unit) :=
  match workers, dummies with
  | None, _ => Some (Err (failure "version vanished during warmup"))
  | Some _, Err e => Some (Err (failure ("read dummy input " +:+ e)))
  | Some workers, Ok _ =>
      let plan := match pin with
                  | Some w => build_warmup_plan_for_worker p w
                  | None => build_warmup_plan p workers
                  end in
      run_groups p (is_some (effective_timeout p request_timeout)) inputs order 0 (group_units_by_pin plan)
  end.

(** [run_warmup_budgeted]: with the policy's total timeout or the fallback budget, one of
    which is always there; [expires] says whether it fires first. *)
Definition run_warmup_budgeted (p : WarmupPolicy) (expires : bool) (inner : option (result WarmupFailure unit))
    : result string unit :=
  let budget := if flt float_zero (wp_total_timeout_secs p) then "warmup: total timeout"
                else "warmup exceeded fallback budget" in
  match inner with
  | Some r => if expires then Err budget else map_err wf_reason r
  | None => Err budget
  end.
