(* ===== verification/WarmupProps.v ===== *)
(** * Properties of device plans and warm-up runs

    About [Warmup.v]: a device plan puts on every device the workers its configuration
    asks for, whatever the order of a map's entries; a warm-up covers every worker with
    every sample, its groups keep the plan and never mix pins, so that every batch of a
    group is dispatched to the worker of its pin; and it succeeds exactly when every unit
    has an attempt that does. *)

From S2P Require Import Prelude Text Float Json Pick Dispatch Range Warmup.
From stdpp Require Import sorting pretty.
Open Scope string_scope.
Open Scope Z_scope.

(** ** Counting *)

Section count.
Context {A : Type} `{EqDecision A}.
Implicit Types (l : list A) (x : A).

Definition occurrences x l : nat := length (filter (fun y => y = x) l).

Lemma occurrences_app x l l' : occurrences x (l ++ l')%list = (occurrences x l + occurrences x l')%nat.
Proof. unfold occurrences. by rewrite filter_app, length_app. Qed.

Lemma occurrences_cons x y l : occurrences x (y :: l) = ((if bool_decide (y = x) then 1 else 0) + occurrences x l)%nat.
Proof. unfold occurrences. rewrite filter_cons. by destruct (decide (y = x)); case_bool_decide. Qed.

Lemma occurrences_perm x l l' : l ≡ₚ l' -> occurrences x l = occurrences x l'.
Proof. intros Hp. unfold occurrences. by rewrite Hp. Qed.

Lemma occurrences_replicate x y n : occurrences x (replicate n y) = if bool_decide (y = x) then n else 0%nat.
Proof. induction n as [|n IH]; simpl; [by case_bool_decide|]. rewrite occurrences_cons, IH. by case_bool_decide. Qed.

Lemma occurrences_join x (ls : list (list A)) : occurrences x (mjoin ls) = sum_list (map (occurrences x) ls).
Proof. induction ls as [|l ls IH]; simpl; [done|]. by rewrite occurrences_app, IH. Qed.

Lemma occurrences_NoDup x l : NoDup l -> occurrences x l = if bool_decide (x ∈ l) then 1%nat else 0%nat.
Proof.
  induction l as [|y l IH]; intros Hnd; [by case_bool_decide as Hin; [by apply elem_of_nil in Hin|]|].
  apply NoDup_cons in Hnd as [Hy Hnd]. rewrite occurrences_cons, IH by done.
  destruct (decide (y = x)) as [->|Hne]; [rewrite bool_decide_true by done|rewrite (bool_decide_false (y = x)) by done].
  - rewrite bool_decide_false by done. rewrite bool_decide_true by (by left). done.
  - case_bool_decide; case_bool_decide; set_solver.
Qed.

Lemma occurrences_0 x l : occurrences x l = 0%nat <-> x ∉ l.
Proof.
  induction l as [|y l IH]; [set_solver|]. rewrite occurrences_cons, not_elem_of_cons.
  case_bool_decide; [split; [lia|intros [? _]; congruence]|]. rewrite Nat.add_0_l, IH. set_solver.
Qed.

Lemma unique_elem x l seen : x ∈ unique l seen <-> x ∈ l /\ x ∉ seen.
Proof.
  revert seen. induction l as [|y l IH]; intros seen; simpl; [set_solver|].
  case_bool_decide; [rewrite IH; set_solver|]. rewrite elem_of_cons, IH. destruct (decide (x = y)); set_solver.
Qed.

Lemma unique_NoDup l seen : NoDup (unique l seen).
Proof.
  revert seen. induction l as [|y l IH]; intros seen; simpl; [constructor|]. case_bool_decide; [done|].
  constructor; [|done]. rewrite unique_elem. set_solver.
Qed.

Lemma unique_count x l : occurrences x (unique l []) = Nat.min 1 (occurrences x l).
Proof.
  rewrite occurrences_NoDup by apply unique_NoDup. pose proof (unique_elem x l []) as He. pose proof (occurrences_0 x l) as H0.
  case_bool_decide as Hin.
  - apply He in Hin as [Hin _]. destruct (occurrences x l); [|lia]. by destruct (proj1 H0 eq_refl).
  - rewrite (proj2 H0); [done|]. intros Hx. apply Hin, He. split; [done|]. by apply not_elem_of_nil.
Qed.
End count.

(** ** Device plans *)

(** The workers that a configuration asks for on a device. *)
Definition workers_on (devices : option Value) (wpd d : Z) : Z :=
  match devices with
  | None | Some (Str _) => if d =? 0 then wpd else 0
  | Some (Num n) => match value_as_u64 (Num n) with
                    | Some n => if (0 <=? d) && (d <? n) then wpd else 0
                    | None => 0
                    end
  | Some (Array items) => if existsb (fun v => bool_decide (value_as_u64 v = Some d)) items then wpd else 0
  | Some (Object entries) =>
      foldr (fun kc n => n + if bool_decide (parse_uint usize_max (fst kc) = Some d)
                             then default 0 (value_as_u64 (snd kc)) else 0) 0 entries
  | Some Null | Some (Bool _) => 0
  end.

Lemma round_robin_count wpd devices d :
  1 <= wpd -> NoDup devices ->
  Z.of_nat (occurrences d (round_robin wpd devices)) = if bool_decide (d ∈ devices) then wpd else 0.
Proof.
  intros Hw Hnd. unfold round_robin. rewrite occurrences_join.
  assert (Hs : forall n, sum_list (map (occurrences d) (replicate n devices)) = (n * occurrences d devices)%nat).
  { intros n. induction n as [|n IH]; simpl; [done|]. by rewrite IH. }
  rewrite Hs, occurrences_NoDup by done. case_bool_decide; lia.
Qed.

Lemma zero_to_spec n d : 0 <= n -> d ∈ zero_to n <-> 0 <= d < n.
Proof.
  intros Hn. unfold zero_to. rewrite list_elem_of_fmap. split.
  - intros (k & -> & Hk%elem_of_seq). lia.
  - intros Hd. exists (Z.to_nat d). split; [lia|]. apply elem_of_seq. lia.
Qed.

Lemma zero_to_NoDup n : NoDup (zero_to n).
Proof. unfold zero_to. apply NoDup_fmap_2; [apply _|apply NoDup_seq]. Qed.

Lemma device_list_spec items devices l :
  NoDup devices -> device_list items devices = Ok l ->
  NoDup l /\ (forall d, d ∈ l <-> d ∈ devices \/ existsb (fun v => bool_decide (value_as_u64 v = Some d)) items = true) /\
  (length l = length devices + length items)%nat.
Proof.
  revert devices. induction items as [|v items IH]; intros devices Hnd; simpl.
  { intros [= <-]. split_and!; [done| |lia]. intros d. split; [by left|]. by intros [?|?]. }
  destruct (value_as_u64 v) as [e|] eqn:Hv; [|done]. case_bool_decide as Hin; [done|].
  intros (Hl & Hd & Hlen)%IH; [|apply NoDup_app; split_and!; [done|set_solver|apply NoDup_singleton]].
  split_and!; [done| |rewrite length_app in Hlen; simpl in *; lia].
  intros d. rewrite Hd, elem_of_app, list_elem_of_singleton, orb_true_iff, bool_decide_eq_true.
  split; [intros [[?| ->]|?]; auto|]. intros [?|[He|?]]; [auto| |auto]. injection He as ->. auto.
Qed.

Lemma spread_cons dc slots : spread (dc :: slots) = (replicate (Z.to_nat (snd dc)) (fst dc) ++ spread slots)%list.
Proof. done. Qed.

Lemma device_slots_count entries slots d :
  device_slots entries = Ok slots ->
  Z.of_nat (occurrences d (spread slots)) = workers_on (Some (Object entries)) 1 d /\
  (entries <> [] -> slots <> [] /\ Forall (fun dc => 1 <= snd dc) slots).
Proof.
  revert slots. induction entries as [|[key count] entries IH]; intros slots; cbn [device_slots]; [by intros [= <-]|].
  destruct (parse_uint usize_max key) as [e|] eqn:Hk; [|done]. cbn [ok_or result_bind].
  destruct (value_as_u64 count) as [c|] eqn:Hc; [|done]. destruct (Z.leb_spec 1 c) as [Hle|]; [|done].
  destruct (device_slots entries) as [rest|] eqn:Hr; [|done]. cbn [result_bind]. intros [= <-].
  destruct (IH rest eq_refl) as [Hcount Hpos]. split.
  - rewrite spread_cons, occurrences_app, Nat2Z.inj_add, Hcount, occurrences_replicate. cbn [workers_on foldr fst snd].
    rewrite Hk, Hc. cbn [default from_option id].
    destruct (decide (e = d)) as [->|Hne]; [rewrite !bool_decide_true by done|rewrite !bool_decide_false by congruence]; lia.
  - intros _. split; [done|]. constructor; [done|]. destruct entries as [|kc entries]; [|by apply Hpos].
    simpl in Hr. by injection Hr as <-.
Qed.

Lemma spread_perm slots slots' d : slots ≡ₚ slots' -> occurrences d (spread slots) = occurrences d (spread slots').
Proof. intros Hp. apply occurrences_perm. unfold spread. by rewrite Hp. Qed.

#[local] Instance slot_le_total : Total slot_le.
Proof. intros a b. unfold slot_le. lia. Qed.

#[local] Instance slot_le_trans : Transitive slot_le.
Proof. intros a b c. unfold slot_le. lia. Qed.

Lemma spread_sorted slots : Sorted slot_le slots -> Sorted Z.le (spread slots).
Proof.
  intros Hs%Sorted_StronglySorted; [|apply _]. apply StronglySorted_Sorted.
  induction Hs as [|[d c] slots Hs IH Hall]; [constructor|]. rewrite spread_cons. simpl.
  induction (Z.to_nat c) as [|n IHn]; [done|]. simpl. constructor; [done|]. apply Forall_app. split.
  - apply Forall_replicate. lia.
  - apply Forall_forall. intros x Hx. apply list_elem_of_join in Hx as (l & Hx & Hl).
    apply list_elem_of_fmap in Hl as ([d' c'] & -> & Hin). apply elem_of_replicate in Hx as [-> _].
    exact (proj1 (Forall_forall _ _) Hall _ Hin).
Qed.

Lemma expand_count slots d : occurrences d (expand_slots slots) = occurrences d (spread slots).
Proof. apply spread_perm, merge_sort_Permutation. Qed.

Lemma expand_sorted slots : Sorted Z.le (expand_slots slots).
Proof. apply spread_sorted. apply (Sorted_merge_sort slot_le). Qed.

Lemma nonempty_count (l : list Z) d : (0 < occurrences d l)%nat -> l <> [].
Proof. intros Hc ->. unfold occurrences in Hc. simpl in Hc. lia. Qed.

(** The plan before continuous batching is applied. *)
Lemma plan_counts devices wpd plan :
  (forall n, wpd = Some n -> 0 <= n) -> resolve_device_plan devices wpd false = Ok plan ->
  plan <> [] /\ forall d, Z.of_nat (occurrences d plan) = workers_on devices (default 1 wpd) d.
Proof.
  intros Hw. unfold resolve_device_plan. destruct (Z.eqb_spec (default 1 wpd) 0) as [|Hne]; [done|].
  assert (Hpos : 1 <= default 1 wpd) by (destruct wpd as [n|]; simpl in *; [specialize (Hw n eq_refl)|]; lia).
  set (w := default 1 wpd) in *.
  assert (Hone : forall d, Z.of_nat (occurrences d (round_robin w [0])) = if d =? 0 then w else 0).
  { intros d. rewrite round_robin_count; [|done|apply NoDup_singleton].
    destruct (Z.eqb_spec d 0); case_bool_decide as Hin; rewrite list_elem_of_singleton in Hin; congruence. }
  assert (Hne1 : round_robin w [0] <> []) by (apply (nonempty_count _ 0); specialize (Hone 0); simpl in Hone; lia).
  destruct devices as [[| |n|s|items|entries]|]; cbn [result_bind]; try done.
  - destruct (value_as_u64 (Num n)) as [m|] eqn:Hn; [|done]. destruct (Z.leb_spec 1 m); [|done]. cbn [result_bind].
    intros [= <-]. assert (Hc : forall d, Z.of_nat (occurrences d (round_robin w (zero_to m))) = workers_on (Some (Num n)) w d).
    { intros d. rewrite round_robin_count by (done || apply zero_to_NoDup). cbn [workers_on]. rewrite Hn.
      pose proof (zero_to_spec m d ltac:(lia)). destruct (Z.leb_spec 0 d), (Z.ltb_spec d m); simpl; case_bool_decide; naive_solver lia. }
    split; [|done]. apply (nonempty_count _ 0). specialize (Hc 0). cbn [workers_on] in Hc. rewrite Hn in Hc.
    simpl in Hc. destruct (Z.ltb_spec 0 m); lia.
  - destruct (String.eqb s "auto"); [|done]. cbn [result_bind]. by intros [= <-].
  - case_bool_decide as Hlen; [done|]. destruct (device_list items []) as [l|] eqn:Hl; [|done]. cbn [result_bind].
    intros [= <-]. destruct (device_list_spec items [] l ltac:(constructor) Hl) as (Hnd & Hd & Hll).
    assert (Hc : forall d, Z.of_nat (occurrences d (round_robin w l)) = if bool_decide (d ∈ l) then w else 0)
      by (intros d; by rewrite round_robin_count). split.
    + destruct l as [|d0 l]; [simpl in Hll; lia|]. apply (nonempty_count _ d0). specialize (Hc d0).
      rewrite bool_decide_true in Hc by (by left). lia.
    + intros d. rewrite Hc. cbn [workers_on]. specialize (Hd d).
      destruct (existsb _ items); case_bool_decide as Hin; [done| | |done]; exfalso; [apply Hin, Hd; by right|].
      apply Hd in Hin as [Hin|]; [by apply elem_of_nil in Hin|done].
  - case_bool_decide as Hlen; [done|]. destruct (Z.eqb_spec w 1) as [Hw1|]; [|done]. cbn [negb].
    destruct (device_slots entries) as [slots|] eqn:Hs; [|done]. cbn [result_bind]. intros [= <-]. split.
    + destruct (device_slots_count entries slots 0 Hs) as [_ [Hne' Hall]]; [by intros ->|].
      assert (exists dc, dc ∈ slots) as [[d c] Hin] by (destruct slots as [|dc ?]; [done|exists dc; by left]).
      apply (nonempty_count _ d). rewrite expand_count. apply Forall_forall with (x := (d, c)) in Hall; [|done].
      apply elem_of_Permutation in Hin as [rest Hp]. rewrite (spread_perm _ _ d Hp), spread_cons, occurrences_app, occurrences_replicate.
      rewrite bool_decide_true by done. simpl in *. lia.
    + intros d. rewrite expand_count, Hw1. by apply device_slots_count.
  - by intros [= <-].
Qed.

(** The device plan gives every device the workers its configuration asks for: for a
    number, a list or the default, workers_per_device on each device named and none
    elsewhere; for a map, the count of each entry; and one per device under
    continuous batching. *)
Theorem device_plan_places_workers devices wpd cb plan :
  (forall n, wpd = Some n -> 0 <= n) -> resolve_device_plan devices wpd cb = Ok plan ->
  plan <> [] /\
  forall d, Z.of_nat (occurrences d plan) =
    if cb then Z.min 1 (workers_on devices (default 1 wpd) d) else workers_on devices (default 1 wpd) d.
Proof.
  intros Hw Hr. destruct cb; [|by apply plan_counts].
  assert (exists plan0, resolve_device_plan devices wpd false = Ok plan0 /\ plan = unique plan0 []) as (plan0 & H0 & ->).
  { unfold resolve_device_plan in *. destruct (_ =? 0); [done|].
    match goal with H : (let? p := ?r in _) = _ |- _ => destruct r as [q|]; [|done] end.
    cbn [result_bind] in *. injection Hr as <-. eauto. }
  destruct (plan_counts _ _ _ Hw H0) as [Hne Hc]. split.
  - destruct plan0 as [|d plan0]; [done|]. apply (nonempty_count _ d). rewrite unique_count, occurrences_cons.
    rewrite bool_decide_true by done. lia.
  - intros d. rewrite unique_count, <- Hc. lia.
Qed.

(** The order of a map's entries does not matter. *)
Lemma device_slots_perm entries entries' slots :
  entries ≡ₚ entries' -> device_slots entries = Ok slots -> exists slots', device_slots entries' = Ok slots' /\ slots ≡ₚ slots'.
Proof.
  intros Hp. revert slots. induction Hp as [|[k v] l l' _ IH|[k v] [k' v'] l|l1 l2 l3 _ IH1 _ IH2]; intros slots; simpl.
  - eauto.
  - destruct (parse_uint usize_max k) as [d|]; [|done]. simpl. destruct (value_as_u64 v) as [c|]; [|done].
    case_goal; [|done]. destruct (device_slots l) as [rest|]; [|done]. intros [= <-].
    destruct (IH rest eq_refl) as (rest' & -> & Hr). eexists. split; [done|]. by constructor.
  - destruct (parse_uint usize_max k') as [d'|]; [|done]. simpl. destruct (value_as_u64 v') as [c'|]; [|done].
    case_goal; [|done]. destruct (parse_uint usize_max k) as [d|]; [|done]. simpl. destruct (value_as_u64 v) as [c|]; [|done].
    case_goal; [|done]. destruct (device_slots l) as [rest|]; [|done]. intros [= <-]. eexists. split; [done|]. apply Permutation_swap.
  - intros (s2 & Hs2 & Hp2)%IH1. destruct (IH2 _ Hs2) as (s3 & Hs3 & Hp3). exists s3. split; [done|]. by rewrite Hp2.
Qed.

(** The device plan of a map does not depend on the order of its entries. *)
Theorem device_map_order_irrelevant entries entries' wpd cb plan :
  entries ≡ₚ entries' -> resolve_device_plan (Some (Object entries)) wpd cb = Ok plan ->
  resolve_device_plan (Some (Object entries')) wpd cb = Ok plan.
Proof.
  intros Hp. unfold resolve_device_plan. destruct (_ =? 0); [done|]. rewrite (Permutation_length Hp).
  case_bool_decide; [done|]. destruct (negb _); [done|].
  destruct (device_slots entries) as [slots|] eqn:Hs; [|done]. destruct (device_slots_perm _ _ _ Hp Hs) as (slots' & -> & Hps).
  cbn [result_bind]. intros [= <-]. do 2 f_equal.
  replace (expand_slots slots') with (expand_slots slots); [done|].
  apply (Sorted_unique Z.le); [apply expand_sorted..|]. unfold expand_slots, spread. by rewrite !merge_sort_Permutation, Hps.
Qed.

(** ** Coverage of the plan *)

Definition times (s : WarmupSample) : nat := Z.to_nat (Z.max 1 (ws_iterations s)).

Lemma sample_units_count p si :
  occurrences si (sample_units p) = match wp_samples p !! si with Some s => times s | None => 0%nat end.
Proof.
  unfold sample_units.
  assert (Hgen : forall k l, occurrences (k + si)%nat (mjoin (imap (fun i s => replicate (times s) (k + i)%nat) l))
    = match l !! si with Some s => times s | None => 0%nat end).
  { intros k l. revert k si. induction l as [|s l IH]; intros k si; [done|]. cbn [imap mjoin list_join].
    rewrite occurrences_app, occurrences_replicate, Nat.add_0_r.
    assert (Hrest : forall j, occurrences (k + j)%nat (mjoin (imap ((fun i s => replicate (times s) (k + i)%nat) ∘ S) l))
      = match j with O => 0%nat | S j => match l !! j with Some s => times s | None => 0%nat end end).
    { intros [|j].
      - apply occurrences_0. intros Hin. apply list_elem_of_join in Hin as (l0 & Hin & Hl).
        apply list_elem_of_lookup in Hl as [i Hi]. rewrite list_lookup_imap in Hi. destruct (l !! i); [|done]. injection Hi as <-.
        apply elem_of_replicate in Hin as [He _]. lia.
      - rewrite <- (IH (S k) j). replace (k + S j)%nat with (S k + j)%nat by lia. do 2 f_equal.
        apply imap_ext. intros i s' _. simpl. by rewrite Nat.add_succ_r. }
    rewrite Hrest. destruct si as [|si]; [rewrite bool_decide_true by lia|rewrite bool_decide_false by lia]; simpl; lia. }
  apply (Hgen 0%nat (wp_samples p)).
Qed.

Lemma occurrences_map {A B} `{EqDecision A, EqDecision B} (f : A -> B) x l :
  Inj (=) (=) f -> occurrences (f x) (map f l) = occurrences x l.
Proof.
  intros Hinj. induction l as [|y l IH]; simpl; [done|]. rewrite !occurrences_cons, IH.
  destruct (decide (y = x)) as [->|Hne]; [by rewrite !bool_decide_true|].
  rewrite !bool_decide_false; [done|done|]. by intros ?%(inj f).
Qed.

Lemma pinned_count w w' si l :
  occurrences {| wu_sample := si; wu_pin := Some w |} (map (fun si => {| wu_sample := si; wu_pin := Some w' |}) l)
  = if Nat.eqb w w' then occurrences si l else 0%nat.
Proof.
  destruct (Nat.eqb_spec w w') as [->|Hne].
  - apply (occurrences_map (fun si => {| wu_sample := si; wu_pin := Some w' |})). by intros ? ? [= ->].
  - apply occurrences_0. intros Hin. apply list_elem_of_fmap in Hin as (si' & He & _). congruence.
Qed.

(** How often [0, ..., len-1] is [w] modulo [n]. *)
Lemma round_robin_share (n w len : nat) :
  (w < n)%nat -> count_if (fun g => Nat.eqb (g mod n) w) (seq 0 len) = (len / n + if Nat.ltb w (len mod n) then 1 else 0)%nat.
Proof.
  intros Hw. induction len as [|len IH].
  { rewrite Nat.Div0.div_0_l, Nat.Div0.mod_0_l. done. }
  rewrite seq_S. unfold count_if in *. rewrite List.filter_app, length_app, IH. simpl.
  pose proof (Nat.div_mod_eq len n) as Hd. pose proof (Nat.mod_upper_bound len n ltac:(lia)) as Hm.
  set (q := (len / n)%nat) in *. set (r := (len mod n)%nat) in *.
  destruct (decide (S r < n)%nat) as [Hlt|Hge].
  - assert ((S len / n = q)%nat /\ (S len mod n = S r)%nat) as [-> ->].
    { split; [symmetry; apply (Nat.div_unique _ _ q (S r)); lia|symmetry; apply (Nat.mod_unique _ _ q (S r)); lia]. }
    destruct (Nat.eqb_spec r w), (Nat.ltb_spec w r), (Nat.ltb_spec w (S r)); simpl; lia.
  - assert ((S len / n = S q)%nat /\ (S len mod n = 0)%nat) as [-> ->].
    { split; [symmetry; apply (Nat.div_unique _ _ (S q) 0); lia|symmetry; apply (Nat.mod_unique _ _ (S q) 0); lia]. }
    destruct (Nat.eqb_spec r w), (Nat.ltb_spec w r), (Nat.ltb_spec w 0); simpl; lia.
Qed.

(** A warm-up covers the workers: in worker scope every worker gets every sample as
    often as it iterates, at least once; in version scope the total stays and no
    worker gets two units more than another. *)
Theorem warmup_covers_workers p workers w :
  (w < workers)%nat ->
  match wp_scope p with
  | ScopeWorker => forall si, occurrences {| wu_sample := si; wu_pin := Some w |} (build_warmup_plan p workers)
                     = match wp_samples p !! si with Some s => times s | None => 0%nat end
  | ScopeVersion => map wu_sample (build_warmup_plan p workers) = sample_units p /\
      let total := length (sample_units p) in
      count_if (fun u => bool_decide (wu_pin u = Some w)) (build_warmup_plan p workers)
      = (total / workers + if Nat.ltb w (total mod workers) then 1 else 0)%nat
  end.
Proof.
  intros Hw. unfold build_warmup_plan. destruct (wp_scope p).
  - destruct workers as [|n]; [lia|]. cbn [Nat.ltb Nat.leb]. set (m := S n) in *. split.
    + generalize (sample_units p). intros l. apply list_eq. intros i. rewrite list_lookup_fmap, list_lookup_imap. by destruct (l !! i).
    + cbn zeta. rewrite <- (round_robin_share m w) by done. generalize (sample_units p). intros l. clear Hw.
      assert (Hgen : forall k, count_if (fun u => bool_decide (wu_pin u = Some w))
          (imap (fun g si => {| wu_sample := si; wu_pin := Some ((k + g) mod m)%nat |}) l)
        = count_if (fun g => Nat.eqb (g mod m) w) (seq k (length l))).
      { induction l as [|si l IH]; intros k; [done|]. cbn [imap length seq]. rewrite !count_if_cons. cbn [wu_pin]. rewrite Nat.add_0_r.
        f_equal; [by destruct (Nat.eqb_spec (k mod m) w); case_bool_decide; congruence|]. rewrite <- IH. f_equal.
        apply imap_ext. intros i x _. simpl. by rewrite Nat.add_succ_r. }
      apply (Hgen 0%nat).
  - intros si. destruct workers as [|n]; [lia|]. rewrite <- sample_units_count. rewrite occurrences_join, map_map.
    assert (Hsum : forall m k, sum_list (map (fun w' => occurrences {| wu_sample := si; wu_pin := Some w |}
        (map (fun si => {| wu_sample := si; wu_pin := Some w' |}) (sample_units p))) (seq k m))
      = if Nat.leb k w && Nat.ltb w (k + m) then occurrences si (sample_units p) else 0%nat).
    { induction m as [|m IH]; intros k; simpl.
      - destruct (Nat.leb_spec k w), (Nat.ltb_spec w (k + 0)); simpl; lia.
      - rewrite IH, pinned_count. replace (S k + m)%nat with (k + S m)%nat by lia.
        destruct (Nat.eqb_spec w k), (Nat.leb_spec k w), (Nat.leb_spec (S k) w), (Nat.ltb_spec w (k + S m)); simpl; lia. }
    rewrite Hsum. destruct (Nat.ltb_spec w (0 + S n)); [done|lia].
Qed.

(** ** Groups *)

Definition pinned_to (pin : option nat) (plan : list WarmupUnit) : list WarmupUnit := filter (fun u => wu_pin u = pin) plan.

Lemma unique_snoc {A} `{EqDecision A} (x : A) l seen :
  unique (l ++ [x])%list seen = (unique l seen ++ if bool_decide (x ∈ l ++ seen)%list then [] else [x])%list.
Proof.
  revert seen. induction l as [|y l IH]; intros seen; simpl; [by case_bool_decide|].
  case_bool_decide as Hy; rewrite IH; simpl; [|f_equal; f_equal]; repeat case_bool_decide; set_solver.
Qed.

Lemma add_unit_groups u pins plan :
  NoDup pins ->
  add_unit u (map (fun pin => (pin, pinned_to pin plan)) pins) =
  (map (fun pin => (pin, pinned_to pin (plan ++ [u])%list)) pins ++ if bool_decide (wu_pin u ∈ pins) then [] else [(wu_pin u, [u])])%list.
Proof.
  unfold pinned_to. induction pins as [|pin pins IH]; intros Hnd; simpl; [done|]. apply NoDup_cons in Hnd as [Hout Hnd].
  rewrite filter_app. destruct (decide (pin = wu_pin u)) as [->|Hne].
  - rewrite bool_decide_true by done. rewrite (bool_decide_true (_ ∈ _ :: _)) by (by left). rewrite app_nil_r. f_equal.
    + f_equal. f_equal. by rewrite filter_cons_True.
    + apply map_ext_in. intros pin Hin%list_elem_of_In. f_equal. rewrite filter_app, filter_cons_False, filter_nil, app_nil_r; [done|].
      congruence.
  - rewrite bool_decide_false by done. rewrite IH by done. rewrite filter_cons_False, filter_nil, app_nil_r by congruence.
    f_equal. f_equal. repeat case_bool_decide; set_solver.
Qed.

Lemma groups_spec plan :
  group_units_by_pin plan = map (fun pin => pinned_to pin plan) (unique (map wu_pin plan) []).
Proof.
  unfold group_units_by_pin. transitivity (map snd (map (fun pin => (pin, pinned_to pin plan)) (unique (map wu_pin plan) []))).
  2:{ by rewrite map_map. }
  f_equal. induction plan as [|u plan IH] using rev_ind; [done|]. rewrite foldl_app. simpl.
  rewrite IH, add_unit_groups by apply unique_NoDup. rewrite map_app. simpl. rewrite unique_snoc, map_app. f_equal.
  pose proof (unique_elem (wu_pin u) (map wu_pin plan) []) as He. rewrite app_nil_r.
  repeat case_bool_decide; [done|exfalso; naive_solver|exfalso; apply H; apply He; split; [done|by apply not_elem_of_nil]|].
  simpl. unfold pinned_to. rewrite filter_app, filter_cons_True, filter_nil by done.
  destruct (filter _ plan) as [|v rest] eqn:Hf; [done|]. exfalso.
  assert (v ∈ filter (fun v => wu_pin v = wu_pin u) plan) as [Hp Hv]%list_elem_of_filter by (rewrite Hf; by left).
  destruct H0. rewrite <- Hp. by apply list_elem_of_fmap_2.
Qed.

Lemma unique_groups_perm {B} (f : B -> option nat) (plan : list B) (pins : list (option nat)) :
  NoDup pins -> (forall u, u ∈ plan -> f u ∈ pins) -> mjoin (map (fun pin => filter (fun u => f u = pin) plan) pins) ≡ₚ plan.
Proof.
  revert plan. induction pins as [|pin pins IH]; intros plan Hnd Hin.
  { destruct plan as [|u plan]; [done|]. specialize (Hin u ltac:(by left)). by apply elem_of_nil in Hin. }
  apply NoDup_cons in Hnd as [Hout Hnd]. cbn [map mjoin list_join].
  etransitivity; [|apply (filter_app_complement (fun u => f u = pin))]. apply Permutation_app_head.
  rewrite <- (IH (filter (fun u => f u <> pin) plan)); [|done|].
  - apply reflexive_eq. f_equal. apply map_ext_in. intros pin' Hp%list_elem_of_In. symmetry. apply list_filter_filter_l.
    intros u -> ->. done.
  - intros u [Hu Hup]%list_elem_of_filter. specialize (Hin u Hup). set_solver.
Qed.

Lemma warmup_groups_perm plan : mjoin (group_units_by_pin plan) ≡ₚ plan.
Proof.
  rewrite groups_spec. apply (unique_groups_perm wu_pin); [apply unique_NoDup|].
  intros u Hu. apply unique_elem. split; [by apply list_elem_of_fmap_2|by apply not_elem_of_nil].
Qed.

(** The groups of a warm-up hold exactly the units of the plan, one group per pin,
    each in plan order. *)
Theorem warmup_groups_keep_pins plan :
  mjoin (group_units_by_pin plan) ≡ₚ plan /\
  group_units_by_pin plan = map (fun pin => pinned_to pin plan) (unique (map wu_pin plan) []).
Proof. split; [apply warmup_groups_perm|apply groups_spec]. Qed.

(** ** Batches of a group *)

Lemma plan_pins p workers u w : u ∈ build_warmup_plan p workers -> wu_pin u = Some w -> (w < workers)%nat.
Proof.
  unfold build_warmup_plan. destruct (wp_scope p).
  - intros Hin Hp. apply list_elem_of_lookup in Hin as [i Hi]. rewrite list_lookup_imap in Hi.
    destruct (sample_units p !! i); [|done]. injection Hi as <-. simpl in Hp.
    destruct (Nat.ltb_spec 0 workers); [|done]. injection Hp as <-. apply Nat.mod_upper_bound. lia.
  - destruct workers as [|n]; intros Hin Hp.
    + apply list_elem_of_fmap in Hin as (si & -> & _). done.
    + apply list_elem_of_join in Hin as (l & Hin & Hl). apply list_elem_of_fmap in Hl as (w' & -> & Hw%elem_of_seq).
      apply list_elem_of_fmap in Hin as (si & -> & _). injection Hp as <-. lia.
Qed.

(** The item of a unit of the plan. *)
Definition item_of (u : WarmupUnit) (it : QueueItem) : Prop :=
  exists chan uid now payload s, it = unit_item chan uid now payload u s.

Lemma item_pin u it w : item_of u it -> wu_pin u = Some w -> Z.of_nat w <= 2 ^ 32 - 1 -> direct_pin it = Some w.
Proof.
  intros (chan & uid & now & payload & s & ->) Hp Hw. unfold direct_pin, unit_item, unit_headers. rewrite Hp. cbn [qi_meta mbind option_bind meta_headers].
  rewrite lookup_insert_eq. cbn [mbind option_bind]. destruct (pretty_number (N.of_nat w) (2 ^ 32 - 1)) as (_ & _ & ->); [lia|].
  simpl. f_equal. lia.
Qed.

(** Every batch the collector forms from items of one group is pinned to the worker
    of that group, for any headers of the samples. *)
Theorem warmup_batches_reach_their_worker p workers g w batch :
  Z.of_nat workers <= 2 ^ 32 -> g ∈ group_units_by_pin (build_warmup_plan p workers) ->
  (exists u, u ∈ g /\ wu_pin u = Some w) ->
  batch <> [] -> (forall it, it ∈ batch -> exists u, u ∈ g /\ item_of u it) ->
  batch_direct_pin batch = Some w.
Proof.
  intros Hw Hg (u0 & Hu0 & Hp0) Hne Hall. rewrite groups_spec in Hg. apply list_elem_of_fmap in Hg as (pin & -> & _).
  apply list_elem_of_filter in Hu0 as [Hpin Hin0]. assert (pin = Some w) as -> by congruence.
  pose proof (plan_pins _ _ _ _ Hin0 Hp0) as Hlt.
  assert (Hpins : forall it, it ∈ batch -> direct_pin it = Some w).
  { intros it Hit. destruct (Hall it Hit) as (u & [Hpu _]%list_elem_of_filter & Hi). eapply item_pin; [done..|lia]. }
  assert (omap direct_pin batch = replicate (length batch) w) as Hom.
  { clear Hne Hall. induction batch as [|it batch IH]; [done|]. simpl. rewrite (Hpins it ltac:(by left)). f_equal.
    apply IH. intros it' Hit'. apply Hpins. by right. }
  unfold batch_direct_pin. rewrite Hom. destruct batch as [|it batch]; [done|]. simpl.
  replace (forallb (Nat.eqb w) (replicate (length batch) w)) with true; [done|]. symmetry. apply forallb_forall.
  intros x Hx%list_elem_of_In. apply elem_of_replicate in Hx as [-> _]. apply Nat.eqb_refl.
Qed.

(** ** Runs *)

(** An attempt within the retries that succeeds, after attempts that failed. *)
Definition answered (p : WarmupPolicy) (u : WarmupUnit) (s : WarmupSample) (bounded : bool) (inputs : nat -> AttemptInput) : Prop :=
  exists n, (n <= Z.to_nat (wp_retries p))%nat /\ run_warmup_unit_once u s bounded (inputs n) = Some (Ok tt) /\
    forall m, (m < n)%nat -> exists e, run_warmup_unit_once u s bounded (inputs m) = Some (Err e).

Lemma attempts_succeed more n u s bounded inputs :
  unit_attempts more n u s bounded inputs = Some (Ok tt) <->
  exists m, (n <= m <= n + more)%nat /\ run_warmup_unit_once u s bounded (inputs m) = Some (Ok tt) /\
    forall i, (n <= i < m)%nat -> exists e, run_warmup_unit_once u s bounded (inputs i) = Some (Err e).
Proof.
  revert n. induction more as [|more IH]; intros n; simpl.
  - destruct (run_warmup_unit_once u s bounded (inputs n)) as [[[]|e]|] eqn:He.
    + split; [|done]. intros _. exists n. split; [lia|]. split; [done|]. lia.
    + split; [done|]. intros (m & Hm & Hs & _). replace m with n in Hs by lia. congruence.
    + split; [done|]. intros (m & Hm & Hs & _). replace m with n in Hs by lia. congruence.
  - destruct (run_warmup_unit_once u s bounded (inputs n)) as [[[]|e]|] eqn:He.
    + split; [|done]. intros _. exists n. split; [lia|]. split; [done|]. lia.
    + rewrite IH. split.
      * intros (m & Hm & Hs & Hb). exists m. split; [lia|]. split; [done|]. intros i Hi.
        destruct (decide (i = n)) as [->|]; [by eexists|apply Hb; lia].
      * intros (m & Hm & Hs & Hb). exists m. destruct (decide (m = n)) as [->|]; [congruence|].
        split; [lia|]. split; [done|]. intros i Hi. apply Hb. lia.
    + split; [done|]. intros (m & Hm & Hs & Hb). destruct (decide (m = n)) as [->|]; [congruence|].
      destruct (Hb n ltac:(lia)). congruence.
Qed.

Lemma unit_succeeds p u s bounded inputs :
  run_warmup_unit p u s bounded inputs = Some (Ok tt) <-> answered p u s bounded inputs.
Proof.
  unfold run_warmup_unit, answered. rewrite attempts_succeed. split; intros (m & Hm & Hs & Hb); exists m.
  - split; [lia|]. split; [done|]. intros i Hi. apply Hb. lia.
  - split; [lia|]. split; [done|]. intros i Hi. apply Hb. lia.
Qed.

(** Every unit of a list is answered. *)
Definition unit_answered (p : WarmupPolicy) (bounded : bool) (inputs : nat -> nat -> AttemptInput) (ku : nat * WarmupUnit) : Prop :=
  exists s, wp_samples p !! wu_sample (snd ku) = Some s /\ answered p (snd ku) s bounded (inputs (fst ku)).

Lemma collect_succeeds p bounded inputs units :
  collect_units p bounded inputs units = Some (Ok tt) <-> Forall (unit_answered p bounded inputs) units.
Proof.
  induction units as [|[k u] units IH]; simpl; [by split|]. rewrite Forall_cons, <- IH. unfold unit_answered at 1. simpl.
  destruct (wp_samples p !! wu_sample u) as [s|]; [|naive_solver].
  pose proof (unit_succeeds p u s bounded (inputs k)) as Hu.
  destruct (run_warmup_unit p u s bounded (inputs k)) as [[[]|e]|].
  - split; [|naive_solver]. intros Hc. split; [|done]. exists s. split; [done|]. by apply Hu.
  - split; [done|]. intros [(s' & [= <-] & Ha) _]. by apply Hu in Ha.
  - split; [done|]. intros [(s' & [= <-] & Ha) _]. by apply Hu in Ha.
Qed.

(** The units of groups, numbered from [k]. *)
Definition numbered (k : nat) (units : list WarmupUnit) : list (nat * WarmupUnit) := imap (fun i u => ((k + i)%nat, u)) units.

Lemma numbered_app k a b : numbered k (a ++ b) = (numbered k a ++ numbered (k + length a) b)%list.
Proof. unfold numbered. rewrite imap_app. f_equal. apply imap_ext. intros i u _. f_equal. lia. Qed.

Section order.
  Context (p : WarmupPolicy) (bounded : bool) (inputs : nat -> nat -> AttemptInput).
  Context (order : list (nat * WarmupUnit) -> list (nat * WarmupUnit)).
  Hypothesis order_perm : forall l, order l ≡ₚ l.

Lemma groups_succeed k groups :
  run_groups p bounded inputs order k groups = Some (Ok tt) <->
  Forall (unit_answered p bounded inputs) (numbered k (mjoin groups)).
Proof.
  revert k. induction groups as [|g groups IH]; intros k; simpl; [by split|].
  rewrite numbered_app, Forall_app, <- IH. fold (numbered k g).
  pose proof (collect_succeeds p bounded inputs (order (numbered k g))) as Hc.
  assert (Forall (unit_answered p bounded inputs) (order (numbered k g)) <-> Forall (unit_answered p bounded inputs) (numbered k g))
    as Hp by (by rewrite order_perm).
  destruct (collect_units p bounded inputs (order (numbered k g))) as [[[]|e]|]; naive_solver.
Qed.

(** With a bounded wait every run ends. *)
Lemma drain_ends frames fin : exists r, drain frames fin true = Some r.
Proof. induction frames as [|[] frames IH]; destruct fin; simpl; eauto. Qed.

Lemma first_chunk_ends frames fin : exists r, first_chunk frames fin true = Some r.
Proof. destruct frames as [|[] frames], fin; simpl; eauto. Qed.

Lemma stream_ends clients u s open : exists r, run_stream_warmup_once clients u s true open = Some r.
Proof.
  unfold run_stream_warmup_once. destruct (warmup_worker_client _ _), open as [[frames fin]|]; [|eauto..].
  destruct (default _ _); [apply first_chunk_ends|apply drain_ends].
Qed.

Lemma attempt_ends u s ai : exists r, run_warmup_unit_once u s true ai = Some r.
Proof.
  unfold run_warmup_unit_once, run_route_warmup_once, await, then_validate.
  repeat case_match; simplify_eq; eauto. destruct (stream_ends (ai_clients ai) u s (ai_stream ai)) as [r ->]. by eexists.
Qed.

Lemma attempts_end more n u s inputs' : exists r, unit_attempts more n u s true inputs' = Some r.
Proof.
  revert n. induction more as [|more IH]; intros n; simpl; destruct (attempt_ends u s (inputs' n)) as [[[]|e] ->]; eauto.
Qed.

Lemma collect_ends units :
  (forall ku, ku ∈ units -> is_Some (wp_samples p !! wu_sample (snd ku))) -> exists r, collect_units p true inputs units = Some r.
Proof.
  induction units as [|[k u] units IH]; intros Hs; simpl; [eauto|]. destruct (Hs (k, u) ltac:(by left)) as [s Hsu]. simpl in Hsu. rewrite Hsu.
  destruct (attempts_end (Z.to_nat (wp_retries p)) 0 u s (inputs k)) as [[[]|e] He]; unfold run_warmup_unit; rewrite He; [|eauto].
  apply IH. intros ku Hku. apply Hs. by right.
Qed.

Lemma groups_end k groups :
  (forall u, u ∈ mjoin groups -> is_Some (wp_samples p !! wu_sample u)) -> exists r, run_groups p true inputs order k groups = Some r.
Proof.
  revert k. induction groups as [|g groups IH]; intros k Hs; simpl; [eauto|]. fold (numbered k g).
  destruct (collect_ends (order (numbered k g))) as [[[]|e] ->]; [|apply IH; intros u Hu; apply Hs; simpl; set_solver|eauto].
  intros [i u] Hin. apply Hs. rewrite order_perm in Hin.
  apply list_elem_of_lookup in Hin as [j Hj]. unfold numbered in Hj. rewrite list_lookup_imap in Hj.
  destruct (g !! j) as [v|] eqn:Hv; [|done]. injection Hj as _ <-. simpl. apply elem_of_app. left. by eapply list_elem_of_lookup_2.
Qed.
End order.

(** The units of a plan name samples of the policy. *)
Lemma sample_units_range p si : si ∈ sample_units p -> is_Some (wp_samples p !! si).
Proof.
  unfold sample_units. intros (l & Hin & Hl)%list_elem_of_join. apply list_elem_of_lookup in Hl as [i Hi].
  rewrite list_lookup_imap in Hi. destruct (wp_samples p !! i) as [s|] eqn:Hs; [|done]. injection Hi as <-.
  apply elem_of_replicate in Hin as [-> _]. by rewrite Hs.
Qed.

Lemma plan_samples p workers u : u ∈ build_warmup_plan p workers -> is_Some (wp_samples p !! wu_sample u).
Proof.
  unfold build_warmup_plan. destruct (wp_scope p); [|destruct workers as [|n]].
  - intros [i Hi]%list_elem_of_lookup. rewrite list_lookup_imap in Hi. destruct (sample_units p !! i) as [si|] eqn:Hs; [|done].
    injection Hi as <-. apply sample_units_range. by eapply list_elem_of_lookup_2.
  - intros (si & -> & Hs)%list_elem_of_fmap. by apply sample_units_range.
  - intros (l & Hin & Hl)%list_elem_of_join. apply list_elem_of_fmap in Hl as (w & -> & _).
    apply list_elem_of_fmap in Hin as (si & -> & Hs). by apply sample_units_range.
Qed.

Lemma worker_plan_samples p w u : u ∈ build_warmup_plan_for_worker p w -> is_Some (wp_samples p !! wu_sample u).
Proof. intros (si & -> & Hs)%list_elem_of_fmap. by apply sample_units_range. Qed.

(** The plan a run uses. *)
Definition run_plan (p : WarmupPolicy) (workers : nat) (pin : option nat) : list WarmupUnit :=
  match pin with Some w => build_warmup_plan_for_worker p w | None => build_warmup_plan p workers end.

Lemma run_plan_samples p workers pin u : u ∈ run_plan p workers pin -> is_Some (wp_samples p !! wu_sample u).
Proof. destruct pin; [apply worker_plan_samples|apply plan_samples]. Qed.

(** C23. A warm-up run whose attempts are bounded by a timeout always ends, whatever
    the workers do and in whatever order units complete, and it succeeds exactly
    when every unit of the plan has an attempt within its retries that succeeds
    after attempts that failed. *)
Theorem warmup_run_decided p request_timeout workers pin inputs order secs :
  effective_timeout p request_timeout = Some secs -> (forall l, order l ≡ₚ l) ->
  exists r, run_warmup_inner p request_timeout (Some workers) (Ok tt) pin inputs order = Some r /\
    (r = Ok tt <->
     forall k u, mjoin (group_units_by_pin (run_plan p workers pin)) !! k = Some u -> unit_answered p true inputs (k, u)).
Proof.
  intros Hs Hperm. unfold run_warmup_inner. rewrite Hs. cbn [is_some]. fold (run_plan p workers pin).
  destruct (groups_end p inputs order Hperm 0 (group_units_by_pin (run_plan p workers pin))) as [r Hr].
  { intros u Hu. apply (run_plan_samples _ workers pin). by rewrite <- (warmup_groups_perm (run_plan p workers pin)). }
  exists r. split; [done|]. pose proof (groups_succeed p true inputs order Hperm 0 (group_units_by_pin (run_plan p workers pin))) as Hg.
  rewrite Hr, Forall_lookup in Hg. transitivity (Some r = Some (Ok tt : result WarmupFailure unit)); [split; congruence|].
  rewrite Hg. unfold numbered. split.
  - intros Ha k u Hk. apply (Ha k). by rewrite list_lookup_imap, Hk.
  - intros Ha k ku Hk. rewrite list_lookup_imap in Hk. destruct (mjoin _ !! k) as [u|] eqn:Hu; [|done]. injection Hk as <-. by apply Ha.
Qed.

(** ** Streams *)

(** The frame that decides an attempt: the first under [first_chunk], the first that is no
    chunk under [drain]; none if the stream ends before it. *)
Fixpoint past_chunks (frames : list Frame) : list Frame :=
  match frames with Chunk :: frames => past_chunks frames | _ => frames end.

Definition decisive (s : WarmupSample) (frames : list Frame) : option Frame :=
  match default FirstChunk (ws_completion s) with
  | FirstChunk => head frames
  | Drain => head (past_chunks frames)
  end.

(** Whether the worker's side of the stream is over at the decisive frame. *)
Definition stream_over (f : option Frame) (fin : StreamEnd) : bool :=
  match f, fin with
  | Some Done, _ | Some (FrameError _), _ | None, StreamClosed => true
  | _, _ => false
  end.

Lemma drain_past frames fin bounded : drain frames fin bounded = drain (past_chunks frames) fin bounded.
Proof. by induction frames as [|[] frames IH]. Qed.

Lemma past_chunks_head frames : head (past_chunks frames) <> Some Chunk.
Proof. by induction frames as [|[] frames IH]. Qed.

(** A warm-up stream is cancelled exactly when it has not ended on the worker's
    side: after a first chunk, an unexpected frame or a timeout, and not after its
    last frame, an error or a closed channel; it succeeds exactly on a first chunk
    or the end. *)
Theorem warmup_stream_cancelled_exactly clients u s frames fin :
  match run_stream_warmup_once clients u s true (Ok (frames, fin)) with
  | Some (r, cancelled) =>
      match warmup_worker_client clients (wu_pin u) with
      | Ok _ => cancelled = negb (stream_over (decisive s frames) fin) /\
                (r = Ok tt <-> decisive s frames = Some Chunk \/ decisive s frames = Some Done)
      | Err e => r = Err e /\ cancelled = false
      end
  | None => False
  end.
Proof.
  unfold run_stream_warmup_once, decisive. destruct (warmup_worker_client clients (wu_pin u)) as [i|]; [|done].
  destruct (default FirstChunk (ws_completion s)).
  - destruct frames as [|[] frames], fin; simpl; intuition congruence.
  - rewrite drain_past. pose proof (past_chunks_head frames) as Hh.
    destruct (past_chunks frames) as [|[] rest], fin; simpl in *; intuition congruence.
Qed.

(** Two workers, a sample sent twice and a stream, one retry; the first attempt of every
    unit meets silence. *)
Definition example_policy : WarmupPolicy :=
  {| wp_enabled := true; wp_scope := ScopeWorker; wp_respawn := false;
     wp_samples := [ {| ws_input_ref := "a.json"; ws_iterations := 2; ws_route := "/predict"; ws_headers := ∅;
                        ws_mode := ModeUnary; ws_completion := None |};
                     {| ws_input_ref := "b.json"; ws_iterations := 1; ws_route := "/predict"; ws_headers := ∅;
                        ws_mode := ModeStream; ws_completion := Some Drain |} ];
     wp_timeout_secs := f32_of_Z 5; wp_total_timeout_secs := float_zero; wp_concurrency := 2; wp_retries := 1;
     wp_removed := false |}.

Definition example_response : Response :=
  {| rs_uid := "u"; rs_metrics := None;
     rs_payload := Some (RSingle {| sr_data := ""; sr_status := None; sr_headers := ∅; sr_status_code := 200;
                                    sr_media_type := "" |}) |}.

Definition example_attempts (k n : nat) : AttemptInput :=
  {| ai_submit := Ok tt; ai_reply := if Nat.eqb n 0 then Silent else Replied example_response;
     ai_route := Err ""; ai_stream := Ok (if Nat.eqb n 0 then ([Chunk], StreamStalls) else ([Chunk; Chunk; Done], StreamClosed));
     ai_clients := Some 2%nat |}.

Lemma warmup_run_decided_witness :
  run_warmup_inner example_policy float_zero (Some 2%nat) (Ok tt) None example_attempts (@rev _) = Some (Ok tt) /\
  exists r, run_warmup_inner example_policy float_zero (Some 2%nat) (Ok tt) None example_attempts (@rev _) = Some r /\
    (r = Ok tt <->
     forall k u, mjoin (group_units_by_pin (run_plan example_policy 2 None)) !! k = Some u ->
       unit_answered example_policy true example_attempts (k, u)).
Proof.
  split; [by vm_compute|].
  apply (warmup_run_decided example_policy float_zero 2 None example_attempts (@rev _) (f32_of_Z 5)).
  - by vm_compute.
  - intros l. symmetry. apply Permutation_rev.
Defined.

(** A status other than an error passes as a success, although the comment says that
    a status that is not Ok fails. *)
Theorem other_status_passes_warmup data headers code media message :
  validate_warmup_response
    {| rs_uid := "u"; rs_metrics := None;
       rs_payload := Some (RSingle {| sr_data := data; sr_status := Some {| st_code := "Timeout"; st_message := message |};
                                      sr_headers := headers; sr_status_code := code; sr_media_type := media |}) |} = Ok tt.
Proof. done. Qed.
