(* ===== verification/Watcher.v ===== *)
(** * The file watcher

    Models [src/src/server/watcher.rs]: the debounce of file-system events
    ([start_file_watcher]) and what is done with a batch of them
    ([process_watch_events]), with the ledger of configuration writes of
    [src/src/worker/mod.rs] and [notify_file_changed] of
    [src/src/worker/lifecycle.rs].

    The events of the [notify] crate, the clock and the file system are inputs.  The file
    system is read at three moments of a batch: when its events are classified, when the
    configuration files are read and when the vanished directories are looked for.  The hash sets of keys
    are iterated in an order that is an argument.  Reloads and unloads are those of
    [Lifecycle.v].  File names are taken to be UTF-8. *)

From S2P Require Import Prelude Text Float Errors Json Queue Registry Lifecycle Reconcile Validation Dispatch.
From stdpp Require Import sorting.
Open Scope string_scope.
Open Scope Z_scope.

(** ** Events *)

Inductive WatchEventKind := KCreate | KModify | KRemove | KOther.

#[export] Instance WatchEventKind_eq_dec : EqDecision WatchEventKind.
Proof. solve_decision. Defined.

(** The kinds of the [notify] crate, as far as they are told apart. *)
Inductive NotifyKind := NAny | NAccess | NCreate | NModifyName | NModifyOther | NRemove | NOther.

Definition kind_from (k : NotifyKind) : WatchEventKind :=
  match k with
  | NCreate => KCreate
  | NModifyName => KCreate
  | NModifyOther => KModify
  | NRemove => KRemove
  | _ => KOther
  end.

(** The last component, if it is a name; its extension. *)
Definition file_name (p : path) : option string :=
  match last p with Some (Normal n) => Some n | _ => None end.

Definition extension (p : path) : option string :=
  match file_name p with
  | Some n => match rsplit_once "."%char n with
              | Some (stem, ext) => if bool_decide (stem = "") then None else Some ext
              | None => None
              end
  | None => None
  end.

(** A test of the last component, [false] without one. *)
Definition named (f : string -> bool) (p : path) : bool :=
  match file_name p with Some n => f n | None => false end.

Definition bytecode (n : string) : bool := String.eqb n "__pycache__" || ends_with ".pyc" n || ends_with ".pyo" n.

(** ** Debouncing *)

Abbreviation Event := (path * WatchEventKind)%type.

(** The derived order of events: by components, then by kind. *)
Definition component_rank (c : component) : Z * string :=
  match c with RootDir => (0, "") | ParentDir => (1, "") | Normal n => (2, n) end.

Definition component_leb (a b : component) : bool :=
  let '(i, m) := component_rank a in
  let '(j, n) := component_rank b in
  (i <? j) || (i =? j) && str_leb m n.

Fixpoint path_leb (p q : path) : bool :=
  match p, q with
  | [], _ => true
  | _ :: _, [] => false
  | a :: p, b :: q => if bool_decide (a = b) then path_leb p q else component_leb a b
  end.

Definition kind_rank (k : WatchEventKind) : Z :=
  match k with KCreate => 0 | KModify => 1 | KRemove => 2 | KOther => 3 end.

Definition event_leb (a b : Event) : bool :=
  if bool_decide (fst a = fst b) then kind_rank (snd a) <=? kind_rank (snd b) else path_leb (fst a) (fst b).

Definition event_le (a b : Event) : Prop := event_leb a b = true.

#[export] Instance event_le_dec a b : Decision (event_le a b).
Proof. unfold event_le. apply _. Defined.

(** [Vec::dedup]: the first of every run of equal elements. *)
Fixpoint dedup_runs {A} `{EqDecision A} (l : list A) : list A :=
  match l with
  | [] => []
  | x :: l' => match l' with
               | [] => [x]
               | y :: _ => if bool_decide (x = y) then dedup_runs l' else x :: dedup_runs l'
               end
  end.

Definition sort_dedup (l : list Event) : list Event := dedup_runs (merge_sort event_le l).

Record Debounce := {
  db_deadline : option Instant;
  db_window_start : option Instant;
  db_pending : list Event;
}.

Definition debounce_new : Debounce := {| db_deadline := None; db_window_start := None; db_pending := [] |}.

(** What the select loop wakes up for: an event of the watcher, with whether events are
    forwarded at this moment (always, or because a loaded model asks for hot reloads, or
    because the registry is not empty), an error of it, or the tick. *)
Inductive WatchInput :=
  | Notified (now : Instant) (forward : bool) (kind : NotifyKind) (paths : list path)
  | WatchError
  | Tick (now : Instant).

(** A path that is collected: no socket, hidden file or byte code. *)
Definition collected (p : path) : bool :=
  negb (match extension p with Some e => String.eqb e "sock" | None => false end)
  && negb (named (starts_with ".") p) && negb (named bytecode p).

Definition max_wait (debounce : Duration) : Duration := debounce * 3.

Definition due (debounce : Duration) (now deadline : Instant) (window_start : option Instant) : bool :=
  (deadline <=? now)
  || match window_start with Some ws => max_wait debounce <=? elapsed now ws | None => false end.

(** One round of the loop, and the batch it sends. *)
Definition watch_round (debounce : Duration) (i : WatchInput) (d : Debounce) : Debounce * option (list Event) :=
  match i with
  | WatchError => (d, None)
  | Notified now forward kind paths =>
      if negb forward then (d, None)
      else
        ({| db_deadline := Some (now + debounce);
            db_window_start := Some (default now (db_window_start d));
            db_pending := (db_pending d ++ map (fun p => (p, kind_from kind)) (filter (fun p => collected p = true) paths))%list |},
         None)
  | Tick now =>
      match db_deadline d with
      | Some deadline =>
          if due debounce now deadline (db_window_start d) && negb (bool_decide (db_pending d = []))
          then (debounce_new, Some (sort_dedup (db_pending d)))
          else (d, None)
      | None => (d, None)
      end
  end.

(** The loop over its inputs, with the batches sent. *)
Fixpoint watch_loop (debounce : Duration) (inputs : list WatchInput) (d : Debounce) : Debounce * list (list Event) :=
  match inputs with
  | [] => (d, [])
  | i :: inputs =>
      let '(d, batch) := watch_round debounce i d in
      let '(d, batches) := watch_loop debounce inputs d in
      (d, match batch with Some b => b :: batches | None => batches end)
  end.

(** [registry.is_empty()] and the flags. *)
Definition forwards (always_forward has_hot_reload registry_empty : bool) : bool :=
  always_forward || has_hot_reload || negb registry_empty.

(** ** Configuration writes *)

(** The ledger of [WorkerManager]: the etag last written to a path, and when. *)
Abbreviation Ledger := (gmap path (string * Instant)).

#[export] Instance component_countable : Countable component.
Proof.
  refine (inj_countable' (fun c => match c with RootDir => inl false | ParentDir => inl true | Normal n => inr n end)
            (fun s => match s with inl false => RootDir | inl true => ParentDir | inr n => Normal n end) _).
  by intros [].
Defined.

Definition CONFIG_WRITE_LEDGER_TTL : Duration := 120 * 1000000000.

Definition note_config_write (now : Instant) (p : path) (etag : string) (l : Ledger) : Ledger :=
  <[p := (etag, now)]> (filter (fun e => elapsed now (snd (snd e)) < CONFIG_WRITE_LEDGER_TTL) l).

(** Whether the path holds what was last written to it; the entry is then consumed. *)
Definition take_config_write (p : path) (etag : string) (l : Ledger) : bool * Ledger :=
  match l !! p with
  | Some (recorded, _) => if String.eqb recorded etag then (true, delete p l) else (false, l)
  | None => (false, l)
  end.

(** ** Notifying workers *)

Section notify.
Context (parse_json : string -> option Value).

Definition handled (r : result string Response) : bool :=
  match r with
  | Ok resp =>
      match rs_payload resp with
      | Some (RSingle s) =>
          match parse_json (sr_data s) with
          | Some v => match Json.get "handled" v with Some (Bool b) => b | _ => false end
          | None => false
          end
      | _ => false
      end
  | Err _ => false
  end.

(** The clients in turn, until one has not handled it: whether all have, and who was asked. *)
Fixpoint notify_each (reply : nat -> result string Response) (clients : list nat) : bool * list nat :=
  match clients with
  | [] => (true, [])
  | c :: clients =>
      if handled (reply c) then let '(r, asked) := notify_each reply clients in (r, c :: asked) else (false, [c])
  end.

Definition notify_file_changed (reply : nat -> result string Response) (model version : string) (m : WorkerManager)
    : bool * list nat :=
  match zmq_clients m !! model_version_key model version with
  | None | Some [] => (false, [])
  | Some clients => notify_each reply clients
  end.
End notify.

(** ** Batches of events *)

Abbreviation Key := (string * string)%type.

Record Classified := {
  models_to_reload : gset Key;
  trigger_files : gmap Key (list path);
  lifecycle_candidates : gset Key;
  new_version_candidates : gset Key;
}.

Definition classified_new : Classified :=
  {| models_to_reload := ∅; trigger_files := ∅; lifecycle_candidates := ∅; new_version_candidates := ∅ |}.

(** The rest of a path below a base. *)
Fixpoint strip_base (base p : path) : option path :=
  match base, p with
  | [], _ => Some p
  | b :: base, c :: p => if bool_decide (b = c) then strip_base base p else None
  | _ :: _, [] => None
  end.

(** The file system at some moment. *)
Record Disk := {
  exists_ : path -> bool;
  is_dir : path -> bool;
  read : path -> option string;
}.

Definition endpoint_file (n : string) : bool := ends_with "_endpoint.py" n.

Section batch.
Context (repo : path).

Definition version_dir (key : Key) : path := Validation.join (Validation.join repo (fst key)) (snd key).

Definition ignored (p : path) : bool :=
  named (fun n => endpoint_file n || bytecode n) p || bool_decide (Normal "__pycache__" ∈ p).

(** The version a path belongs to, and whether it is the version's directory itself. *)
Definition event_key (p : path) : option (Key * bool) :=
  if ignored p then None
  else
    match strip_base repo p with
    | Some (Normal model :: Normal version :: rest) =>
        match validate_identifier model, validate_identifier version with
        | Ok _, Ok _ => Some ((model, version), bool_decide (rest = []))
        | _, _ => None
        end
    | _ => None
    end.

Definition is_live (disk : Disk) (m : WorkerManager) (key : Key) : bool :=
  is_some (registry_get (fst key) (Some (snd key)) (registry m)) && exists_ disk (version_dir key).

Definition classify (disk : Disk) (m : WorkerManager) (c : Classified) (e : Event) : Classified :=
  let '(p, kind) := e in
  match event_key p with
  | None => c
  | Some (key, top) =>
      let live := is_live disk m key in
      if is_dir disk p then
        if live then c
        else {| models_to_reload := models_to_reload c; trigger_files := trigger_files c;
                lifecycle_candidates := {[ key ]} ∪ lifecycle_candidates c;
                new_version_candidates := if bool_decide (kind = KCreate) && top then {[ key ]} ∪ new_version_candidates c
                                          else new_version_candidates c |}
      else if live then
        {| models_to_reload := {[ key ]} ∪ models_to_reload c;
           trigger_files := <[key := (default [] (trigger_files c !! key) ++ [p])%list]> (trigger_files c);
           lifecycle_candidates := lifecycle_candidates c; new_version_candidates := new_version_candidates c |}
      else {| models_to_reload := models_to_reload c; trigger_files := trigger_files c;
              lifecycle_candidates := {[ key ]} ∪ lifecycle_candidates c;
              new_version_candidates := new_version_candidates c |}
  end.

Definition classify_all (disk : Disk) (m : WorkerManager) (events : list Event) : Classified :=
  foldl (classify disk m) classified_new events.

Definition config_path (key : Key) : path := Validation.join (version_dir key) "config.yaml".

(** A configuration file that only echoes a recorded write is taken out of the files of its
    version, and the version with its last file. *)
Definition drop_echo (content_etag : string -> string) (disk : Disk) (key : Key) (cl : Classified * Ledger)
    : Classified * Ledger :=
  let '(c, ledger) := cl in
  let files := default [] (trigger_files c !! key) in
  if negb (bool_decide (config_path key ∈ files)) then (c, ledger)
  else
    match read disk (config_path key) with
    | None => (c, ledger)
    | Some bytes =>
        let '(echo, ledger) := take_config_write (config_path key) (content_etag bytes) ledger in
        if negb echo then (c, ledger)
        else
          let files := filter (fun f => f <> config_path key) files in
          ({| models_to_reload := if bool_decide (files = []) then models_to_reload c ∖ {[ key ]} else models_to_reload c;
              trigger_files := if bool_decide (files = []) then delete key (trigger_files c)
                               else <[key := files]> (trigger_files c);
              lifecycle_candidates := lifecycle_candidates c; new_version_candidates := new_version_candidates c |}, ledger)
    end.
End batch.

(** ** Acting on a batch *)

Record HotReload := {
  hot_reload : bool;
  hot_reload_patterns : list string;
}.

Record WatchState := {
  ws_manager : WorkerManager;
  ws_last_reload : gmap Key Instant;
  ws_ledger : Ledger;
  ws_has_hot_reload : bool;
  ws_triggers : nat;                         (** in the channel to the reconciler *)
}.

Inductive WatchAction :=
  | InProcess (key : Key)                    (** every worker has refreshed itself *)
  | Restarted (key : Key) (r : result AppError bool)
  | Announced (key : Key)
  | Churn (key : Key)
  | Unloaded (key : Key)
  | Triggered.

(** What the outside contributes to a batch. *)
Record BatchInput := {
  bi_classify : Disk;
  bi_configs : Disk;
  bi_vanished : Disk;
  bi_order : gset Key -> list Key;           (** the iteration of a hash set *)
  bi_now : Key -> Instant;                   (** at the cooldown check *)
  bi_noted : Key -> Instant;                 (** when a reload is recorded *)
  bi_config : Key -> HotReload;              (** of the loaded version *)
  bi_reply : Key -> nat -> result string Response;
  bi_reload : Key -> ReloadInput;
}.

Section process.
Context `{MapIter}.
Context {V : Type} (semver_parse : string -> option V) (semver_le : V -> V -> bool).
Context (parse_json : string -> option Value) (content_etag : string -> string).
Context (repo : path) (cooldown : Duration) (auto : bool) (bi : BatchInput).

Definition registered (m : WorkerManager) (key : Key) : bool :=
  is_some (registry_get (fst key) (Some (snd key)) (registry m)).

Definition cooling (key : Key) (s : WatchState) : bool :=
  match ws_last_reload s !! key with Some t => elapsed (bi_now bi key) t <? cooldown | None => false end.

Definition pattern_hit (key : Key) (files : list path) : bool :=
  match hot_reload_patterns (bi_config bi key) with
  | [] => true
  | patterns => existsb (fun f => matches_patterns (default "" (file_name f)) patterns) files
  end.

Definition config_changed (files : list path) : bool := existsb (named (String.eqb "config.yaml")) files.

(** One version of the reload set. *)
Definition reload_key (files : gmap Key (list path)) (key : Key) (s : WatchState) : WatchState * list WatchAction :=
  let changed := default [] (files !! key) in
  if cooling key s then (s, [])
  else if negb (registered (ws_manager s) key) then (s, [])
  else if negb (hot_reload (bi_config bi key)) then (s, [])
  else if negb (pattern_hit key changed) then (s, [])
  else
    let last := <[key := bi_noted bi key]> (ws_last_reload s) in
    let '(model, version) := key in
    if negb (config_changed changed) && fst (notify_file_changed parse_json (bi_reply bi key) model version (ws_manager s))
    then ({| ws_manager := ws_manager s; ws_last_reload := last; ws_ledger := ws_ledger s;
             ws_has_hot_reload := ws_has_hot_reload s; ws_triggers := ws_triggers s |}, [InProcess key])
    else
      let '(r, m) := reload_model_inner semver_parse semver_le (bi_reload bi key) model (Some version) true (ws_manager s) in
      ({| ws_manager := m; ws_last_reload := last; ws_ledger := ws_ledger s;
          ws_has_hot_reload := ws_has_hot_reload s; ws_triggers := ws_triggers s |}, [Restarted key r]).

Fixpoint reload_keys (files : gmap Key (list path)) (keys : list Key) (s : WatchState) : WatchState * list WatchAction :=
  match keys with
  | [] => (s, [])
  | key :: keys =>
      let '(s, a) := reload_key files key s in
      let '(s, rest) := reload_keys files keys s in (s, (a ++ rest)%list)
  end.

Definition set_manager (m : WorkerManager) (s : WatchState) : WatchState :=
  {| ws_manager := m; ws_last_reload := ws_last_reload s; ws_ledger := ws_ledger s;
     ws_has_hot_reload := ws_has_hot_reload s; ws_triggers := ws_triggers s |}.

(** One lifecycle candidate under manual control. *)
Definition manual_key (fresh : gset Key) (key : Key) (s : WatchState) : WatchState * list WatchAction :=
  if exists_ (bi_vanished bi) (version_dir repo key)
  then (s, [if bool_decide (key ∈ fresh) then Announced key else Churn key])
  else (set_manager (snd (unload_model semver_parse semver_le (fst key) (Some (snd key)) (ws_manager s))) s, [Unloaded key]).

Fixpoint manual_keys (fresh : gset Key) (keys : list Key) (s : WatchState) : WatchState * list WatchAction :=
  match keys with
  | [] => (s, [])
  | key :: keys =>
      let '(s, a) := manual_key fresh key s in
      let '(s, rest) := manual_keys fresh keys s in (s, (a ++ rest)%list)
  end.

Definition any_hot_reload (m : WorkerManager) : bool :=
  existsb (fun me => existsb (fun vm => hot_reload (bi_config bi (fst me, fst vm))) (map_iter (me_versions (snd me))))
    (map_iter (models (registry m))).

Definition is_unload (a : WatchAction) : bool := match a with Unloaded _ => true | _ => false end.

Definition lifecycle_stage (c : Classified) (s : WatchState) : WatchState * list WatchAction :=
  if bool_decide (lifecycle_candidates c = ∅) then (s, [])
  else if auto then
    ({| ws_manager := ws_manager s; ws_last_reload := ws_last_reload s; ws_ledger := ws_ledger s;
        ws_has_hot_reload := ws_has_hot_reload s; ws_triggers := Nat.min 8 (S (ws_triggers s)) |}, [Triggered])
  else
    let '(s, actions) := manual_keys (new_version_candidates c) (bi_order bi (lifecycle_candidates c)) s in
    if existsb is_unload actions then
      ({| ws_manager := ws_manager s; ws_last_reload := ws_last_reload s; ws_ledger := ws_ledger s;
          ws_has_hot_reload := any_hot_reload (ws_manager s); ws_triggers := ws_triggers s |}, actions)
    else (s, actions).

(** The cooldowns of versions that are no longer loaded are forgotten. *)
Definition prune (s : WatchState) : WatchState :=
  {| ws_manager := ws_manager s;
     ws_last_reload := filter (fun e => registered (ws_manager s) (fst e) = true) (ws_last_reload s);
     ws_ledger := ws_ledger s; ws_has_hot_reload := ws_has_hot_reload s; ws_triggers := ws_triggers s |}.

Definition drop_echoes (c : Classified) (s : WatchState) : Classified * WatchState :=
  let '(c, ledger) := foldl (fun cl key => drop_echo repo content_etag (bi_configs bi) key cl) (c, ws_ledger s)
                        (bi_order bi (models_to_reload c)) in
  (c, {| ws_manager := ws_manager s; ws_last_reload := ws_last_reload s; ws_ledger := ledger;
         ws_has_hot_reload := ws_has_hot_reload s; ws_triggers := ws_triggers s |}).

Definition process_watch_events (events : list Event) (s : WatchState) : WatchState * list WatchAction :=
  let c := classify_all repo (bi_classify bi) (ws_manager s) events in
  let '(c, s) := drop_echoes c (prune s) in
  let '(s, reloads) := reload_keys (trigger_files c) (bi_order bi (models_to_reload c)) s in
  let '(s, rest) := lifecycle_stage c s in
  (s, (reloads ++ rest)%list).
End process.
