(* ===== verification/WatcherProps.v ===== *)
(** * Properties of the file watcher

    About [Watcher.v]: the debounce loses no event, sends sorted batches without
    repetition and sends everything within three debounce intervals; a batch restarts
    only live versions, for a reason, and unloads only versions whose directory is gone. *)

From S2P Require Import Prelude Text Float Errors Json Queue Registry RegistryProps Lifecycle LifecycleProps Reconcile Validation Dispatch Watcher.
From stdpp Require Import sorting.
Open Scope string_scope.
Open Scope Z_scope.

(** ** The order of events *)

Lemma ascii_compare_trans a b c :
  Ascii.compare a b <> Gt -> Ascii.compare b c <> Gt -> Ascii.compare a c <> Gt /\ (Ascii.compare a c = Eq -> a = b /\ b = c).
Proof.
  unfold Ascii.compare. rewrite !N.compare_le_iff. intros H1 H2. split; [lia|]. intros Heq%N.compare_eq.
  split; rewrite <- (Ascii.ascii_N_embedding b); [rewrite <- (Ascii.ascii_N_embedding a)|rewrite <- (Ascii.ascii_N_embedding c)]; f_equal; lia.
Qed.

Lemma str_leb_trans a b c : str_leb a b = true -> str_leb b c = true -> str_leb a c = true.
Proof.
  unfold str_leb, String.leb. intros H1 H2.
  assert (String.compare a b <> Gt) as H1' by (intros E; by rewrite E in H1).
  assert (String.compare b c <> Gt) as H2' by (intros E; by rewrite E in H2). clear H1 H2.
  assert (String.compare a c <> Gt) as H; [|by destruct (String.compare a c)].
  revert b c H1' H2'. induction a as [|x a IH]; intros [|y b] [|z c]; simpl; try done. intros H1 H2.
  destruct (ascii_compare_trans x y z) as [Ht He];
    [intros E; by rewrite E in H1|intros E; by rewrite E in H2|].
  destruct (Ascii.compare x z) eqn:Exz; [|done|done]. destruct (He eq_refl) as [-> ->].
  unfold Ascii.compare in *. rewrite N.compare_refl in *. by apply (IH b).
Qed.

Lemma str_leb_antisym a b : str_leb a b = true -> str_leb b a = true -> a = b.
Proof. apply String.leb_antisym. Qed.

Lemma str_leb_total a b : str_leb a b = true \/ str_leb b a = true.
Proof. apply String.leb_total. Qed.

Lemma component_leb_total a b : component_leb a b = true \/ component_leb b a = true.
Proof. destruct a, b; simpl; auto. destruct (str_leb_total name name0); auto. Qed.

Lemma component_leb_antisym a b : component_leb a b = true -> component_leb b a = true -> a = b.
Proof. destruct a, b; simpl; try done. intros. f_equal. by apply str_leb_antisym. Qed.

Lemma component_leb_trans a b c : component_leb a b = true -> component_leb b c = true -> component_leb a c = true.
Proof. destruct a, b, c; simpl; try done. apply str_leb_trans. Qed.

(** Lexicographic orders inherit the laws. *)
Lemma path_leb_refl p : path_leb p p = true.
Proof. induction p as [|a p IH]; simpl; [done|]. by rewrite bool_decide_true. Qed.

Lemma path_leb_total p q : path_leb p q = true \/ path_leb q p = true.
Proof.
  revert q. induction p as [|a p IH]; intros [|b q]; simpl; auto.
  destruct (decide (a = b)) as [->|Hne]; [by rewrite !bool_decide_true|].
  rewrite !bool_decide_false by congruence. apply component_leb_total.
Qed.

Lemma path_leb_antisym p q : path_leb p q = true -> path_leb q p = true -> p = q.
Proof.
  revert q. induction p as [|a p IH]; intros [|b q]; simpl; try done.
  destruct (decide (a = b)) as [->|Hne]; [rewrite !bool_decide_true by done; intros; f_equal; auto|].
  rewrite !bool_decide_false by congruence. intros. destruct Hne. by apply component_leb_antisym.
Qed.

Lemma path_leb_trans p q r : path_leb p q = true -> path_leb q r = true -> path_leb p r = true.
Proof.
  revert q r. induction p as [|a p IH]; intros [|b q] [|c r]; simpl; try done.
  destruct (decide (a = b)) as [->|Hab]; destruct (decide (b = c)) as [->|Hbc];
    rewrite ?(bool_decide_true (_ = _)), ?(bool_decide_false (_ = _)) by done; eauto.
  intros H1 H2. destruct (decide (a = c)) as [->|Hac]; [|rewrite bool_decide_false by done; by eapply component_leb_trans].
  destruct Hab. by apply component_leb_antisym.
Qed.

Lemma kind_rank_inj a b : kind_rank a = kind_rank b -> a = b.
Proof. by destruct a, b. Qed.

#[export] Instance event_le_total : Total event_le.
Proof.
  intros [p k] [q l]. unfold event_le, event_leb. simpl. destruct (decide (p = q)) as [->|Hne].
  - rewrite !bool_decide_true by done. lia.
  - rewrite !bool_decide_false by congruence. apply path_leb_total.
Qed.

#[export] Instance event_le_trans : Transitive event_le.
Proof.
  intros [p k] [q l] [r m]. unfold event_le, event_leb. simpl.
  destruct (decide (p = q)) as [->|Hpq]; destruct (decide (q = r)) as [->|Hqr];
    rewrite ?(bool_decide_true (_ = _)), ?(bool_decide_false (_ = _)) by done; eauto; [lia|].
  intros H1 H2. destruct (decide (p = r)) as [->|Hpr]; [|rewrite bool_decide_false by done; by eapply path_leb_trans].
  destruct Hpq. by apply path_leb_antisym.
Qed.

#[export] Instance event_le_antisym : AntiSymm eq event_le.
Proof.
  intros [p k] [q l]. unfold event_le, event_leb. simpl. destruct (decide (p = q)) as [->|Hne].
  - rewrite !bool_decide_true by done. intros. f_equal. apply kind_rank_inj. lia.
  - rewrite !bool_decide_false by congruence. intros. destruct Hne. by apply path_leb_antisym.
Qed.

(** ** Sorting and deduplicating *)

Lemma elem_of_dedup {A} `{EqDecision A} (x : A) l : x ∈ dedup_runs l <-> x ∈ l.
Proof.
  induction l as [|a l IH]; [done|]. cbn [dedup_runs]. destruct l as [|b l]; [done|].
  case_bool_decide as Heq; [rewrite IH; subst; set_solver|rewrite !elem_of_cons, IH, elem_of_cons; done].
Qed.

Lemma dedup_sorted l : StronglySorted event_le l -> StronglySorted event_le (dedup_runs l) /\ NoDup (dedup_runs l).
Proof.
  induction l as [|a l IH]; [split; constructor|]. intros Hs. pose proof Hs as [Hs' Hle]%StronglySorted_inv.
  destruct (IH Hs') as [Hd Hn]. cbn [dedup_runs]. destruct l as [|b l].
  { split; [by repeat constructor|apply NoDup_singleton]. }
  case_bool_decide as Heq; [done|]. split.
  - constructor; [done|]. apply Forall_forall. intros x Hx. rewrite elem_of_dedup in Hx.
    by apply (proj1 (Forall_forall _ _) Hle).
  - apply NoDup_cons. split; [|done]. intros Hin. rewrite elem_of_dedup in Hin. apply StronglySorted_inv in Hs' as [_ Hb].
    apply elem_of_cons in Hin as [|Hin]; [done|]. destruct Heq. apply (anti_symm event_le).
    + apply (proj1 (Forall_forall _ _) Hle). by left.
    + by apply (proj1 (Forall_forall _ _) Hb).
Qed.

Lemma sort_dedup_spec l :
  StronglySorted event_le (sort_dedup l) /\ NoDup (sort_dedup l) /\ forall e, e ∈ sort_dedup l <-> e ∈ l.
Proof.
  unfold sort_dedup. destruct (dedup_sorted (merge_sort event_le l)) as [Hs Hn]; [apply StronglySorted_merge_sort; apply _|].
  split; [done|]. split; [done|]. intros e. by rewrite elem_of_dedup, merge_sort_Permutation.
Qed.

(** ** Debouncing *)

(** The events an input contributes, those of a list of inputs. *)
Definition accepted (i : WatchInput) : list Event :=
  match i with
  | Notified _ true kind paths => map (fun p => (p, kind_from kind)) (filter (fun p => collected p = true) paths)
  | _ => []
  end.

Lemma round_events debounce i d e :
  let '(d', batch) := watch_round debounce i d in
  e ∈ (db_pending d ++ accepted i)%list <-> e ∈ default [] batch \/ e ∈ db_pending d'.
Proof.
  destruct i as [now [] kind paths| |now]; simpl; [rewrite elem_of_app; set_solver|set_solver..|].
  destruct (db_deadline d) as [dl|]; [|set_solver]. destruct (due debounce now dl (db_window_start d) && _); simpl; [|set_solver].
  rewrite app_nil_r. destruct (sort_dedup_spec (db_pending d)) as (_ & _ & He). rewrite He. set_solver.
Qed.

Definition tidy (b : list Event) : Prop := b <> [] /\ StronglySorted event_le b /\ NoDup b.

Lemma round_tidy debounce i d d' b : watch_round debounce i d = (d', Some b) -> tidy b.
Proof.
  destruct i as [now [] kind paths| |now]; simpl; [done..|]. destruct (db_deadline d) as [dl|]; [|done].
  destruct (due debounce now dl (db_window_start d)); [|done]. simpl. case_bool_decide as Hne; [done|]. intros [= <- <-].
  destruct (sort_dedup_spec (db_pending d)) as (Hs & Hn & He). split; [|done]. intros H0. destruct Hne.
  destruct (db_pending d) as [|e l]; [done|]. assert (e ∈ sort_dedup (e :: l)) as Hin by (apply He; by left).
  rewrite H0 in Hin. by apply elem_of_nil in Hin.
Qed.

Lemma loop_events debounce inputs d e :
  let '(d', batches) := watch_loop debounce inputs d in
  e ∈ (db_pending d ++ mjoin (map accepted inputs))%list <-> e ∈ mjoin batches \/ e ∈ db_pending d'.
Proof.
  revert d. induction inputs as [|i inputs IH]; intros d; simpl; [rewrite app_nil_r; set_solver|].
  pose proof (round_events debounce i d e) as Hr. destruct (watch_round debounce i d) as [d1 batch].
  specialize (IH d1). destruct (watch_loop debounce inputs d1) as [d2 batches].
  rewrite !elem_of_app in *. destruct batch as [b|]; simpl in *; rewrite ?elem_of_app in *; set_solver.
Qed.

Lemma loop_tidy debounce inputs d : Forall tidy (snd (watch_loop debounce inputs d)).
Proof.
  revert d. induction inputs as [|i inputs IH]; intros d; simpl; [constructor|].
  destruct (watch_round debounce i d) as [d1 batch] eqn:Hr. specialize (IH d1).
  destruct (watch_loop debounce inputs d1) as [d2 batches]. destruct batch as [b|]; [|done].
  constructor; [by eapply round_tidy|done].
Qed.

Lemma loop_app debounce a b d :
  watch_loop debounce (a ++ b) d =
  let '(d1, ba) := watch_loop debounce a d in
  let '(d2, bb) := watch_loop debounce b d1 in (d2, (ba ++ bb)%list).
Proof.
  revert d. induction a as [|i a IH]; intros d; simpl; [by destruct (watch_loop debounce b d)|].
  destruct (watch_round debounce i d) as [d1 batch]. rewrite IH. destruct (watch_loop debounce a d1) as [d2 ba].
  destruct (watch_loop debounce b d2) as [d3 bb]. by destruct batch.
Qed.

(** An event that waits, waits in a window that opened by [t]. *)
Definition waits (e : Event) (t : Instant) (d : Debounce) : Prop :=
  e ∈ db_pending d /\ is_Some (db_deadline d) /\ exists ws, db_window_start d = Some ws /\ ws <= t.

Lemma round_waits debounce i d e t :
  waits e t d -> let '(d', batch) := watch_round debounce i d in e ∈ default [] batch \/ waits e t d'.
Proof.
  intros (Hin & [dl Hdl] & ws & Hws & Hle). destruct i as [now [] kind paths| |now]; simpl.
  - right. split; [set_solver|]. split; [by eexists|]. rewrite Hws. by exists ws.
  - right. split; [done|]. split; [by eexists|by exists ws].
  - right. split; [done|]. split; [by eexists|by exists ws].
  - rewrite Hdl. destruct (due debounce now dl (db_window_start d) && _); [left|right].
    + by apply sort_dedup_spec.
    + split; [done|]. split; [by eexists|by exists ws].
Qed.

Lemma loop_waits debounce inputs d e t :
  waits e t d -> let '(d', batches) := watch_loop debounce inputs d in e ∈ mjoin batches \/ waits e t d'.
Proof.
  revert d. induction inputs as [|i inputs IH]; intros d Hw; simpl; [by right|].
  pose proof (round_waits debounce i d e t Hw) as Hr. destruct (watch_round debounce i d) as [d1 batch].
  destruct Hr as [Hb|Hw1].
  - destruct (watch_loop debounce inputs d1) as [d2 batches]. left. destruct batch; simpl in *; set_solver.
  - specialize (IH d1 Hw1). destruct (watch_loop debounce inputs d1) as [d2 batches].
    destruct batch; simpl in *; set_solver.
Qed.

Lemma tick_flushes debounce now d e t :
  waits e t d -> t + max_wait debounce <= now -> 0 <= debounce -> exists b, watch_round debounce (Tick now) d = (debounce_new, Some b) /\ e ∈ b.
Proof.
  intros (Hin & [dl Hdl] & ws & Hws & Hle) Hnow Hd. simpl. rewrite Hdl, Hws. unfold due, elapsed.
  replace (max_wait debounce <=? Z.max 0 (now - ws)) with true by lia. rewrite orb_true_r. simpl.
  rewrite bool_decide_false; [|intros H0; rewrite H0 in Hin; by apply elem_of_nil in Hin].
  eexists. split; [done|]. by apply sort_dedup_spec.
Qed.

(** The window never opens later than the last input that opened it. *)
Definition notified_by (t : Instant) (i : WatchInput) : Prop :=
  match i with Notified now _ _ _ => now <= t | _ => True end.

Definition window_by (t : Instant) (d : Debounce) : Prop := forall ws, db_window_start d = Some ws -> ws <= t.

Lemma loop_window debounce inputs d t :
  Forall (notified_by t) inputs -> window_by t d -> window_by t (fst (watch_loop debounce inputs d)).
Proof.
  intros Hall. revert d. induction Hall as [|i inputs Hi Hall IH]; intros d Hw; simpl; [done|].
  destruct (watch_round debounce i d) as [d1 batch] eqn:Hr. specialize (IH d1).
  destruct (watch_loop debounce inputs d1) as [d2 batches]. apply IH. clear IH.
  destruct i as [now [] kind paths| |now]; simpl in *; [| | |repeat case_match]; simplify_eq; try done.
  intros ws [= <-]. destruct (db_window_start d) as [w|] eqn:Ews; simpl; [by apply Hw|done].
Qed.

(** C24. The debounce of file events delivers in time: every collected path of a
    forwarded event is in a batch sent no later than the first tick three debounce
    intervals after it, however events keep coming; every batch is sorted, without
    repetitions and not empty, and nothing is sent that was not collected. *)
Theorem watcher_delivers_in_time debounce pre t kind paths mid now p :
  0 <= debounce -> Forall (notified_by t) pre ->
  p ∈ paths -> collected p = true -> t + max_wait debounce <= now ->
  let inputs := (pre ++ Notified t true kind paths :: mid ++ [Tick now])%list in
  let batches := snd (watch_loop debounce inputs debounce_new) in
  (p, kind_from kind) ∈ mjoin batches /\ Forall tidy batches /\
  (forall e, e ∈ mjoin batches -> e ∈ mjoin (map accepted inputs)).
Proof.
  intros Hd Hpre Hp Hc Hnow inputs batches. split; [|split; [apply loop_tidy|]].
  - unfold batches, inputs. rewrite loop_app. pose proof (loop_window debounce pre debounce_new t Hpre ltac:(done)) as Hw.
    destruct (watch_loop debounce pre debounce_new) as [d1 b1]. cbn [watch_loop].
    cbn [watch_round negb]. match goal with |- context [watch_loop debounce (mid ++ _) ?d] => set (d2 := d) end.
    assert (waits (p, kind_from kind) t d2) as Hwait.
    { split; [|split; [by eexists|]].
      - simpl. apply elem_of_app. right. apply list_elem_of_fmap. exists p. by rewrite list_elem_of_filter.
      - eexists. split; [done|]. simpl in Hw. destruct (db_window_start d1) eqn:E; simpl; [by apply Hw|lia]. }
    rewrite loop_app. pose proof (loop_waits debounce mid d2 _ t Hwait) as Hm.
    destruct (watch_loop debounce mid d2) as [d3 b3]. destruct Hm as [Hm|Hm].
    + destruct (watch_loop debounce [Tick now] d3) as [d4 b4]. simpl. rewrite !join_app. set_solver.
    + destruct (tick_flushes debounce now d3 _ t Hm Hnow Hd) as (b & Hr & Hb). cbn [watch_loop]. rewrite Hr. simpl.
      rewrite !join_app. simpl. set_solver.
  - intros e He. pose proof (loop_events debounce inputs debounce_new e) as Hl. unfold batches in He.
    destruct (watch_loop debounce inputs debounce_new) as [d' bs]. simpl in *. apply Hl. by left.
Qed.

(** The skipped paths of an event open the window as well: a real event that follows three
    intervals later is sent at the next tick, without its quiet period. *)
Definition socket : path := [RootDir; Normal "repo"; Normal "w.sock"].
Definition source : path := [RootDir; Normal "repo"; Normal "m"; Normal "1"; Normal "model.py"].

(** An event with only skipped paths opens the window and nothing closes it: a later
    event is sent at the next tick, without the quiet period. *)
Theorem stale_window_skips_quiet_period :
  watch_loop 1500 [Notified 0 true NCreate [socket]; Tick 1600; Notified 6000 true NModifyOther [source]; Tick 6001] debounce_new
  = (debounce_new, [[(source, KModify)]]).
Proof. vm_compute. reflexivity. Qed.

(** ** Classification *)

Section classification.
Context (repo : path) (disk : Disk) (m : WorkerManager).

(** The files of a version among events, in their order. *)
Definition files_of (key : Key) (events : list Event) : list path :=
  filter (fun p => is_dir disk p = false /\ fst <$> event_key repo p = Some key) (map fst events).

Definition mentions (key : Key) (events : list Event) : Prop :=
  exists e top, e ∈ events /\ event_key repo (fst e) = Some (key, top).

Record classification (events : list Event) (c : Classified) : Prop := {
  cl_reload : forall key, key ∈ models_to_reload c <-> is_live repo disk m key = true /\ files_of key events <> [];
  cl_files : forall key, default [] (trigger_files c !! key) = if is_live repo disk m key then files_of key events else [];
  cl_lifecycle : forall key, key ∈ lifecycle_candidates c <-> is_live repo disk m key = false /\ mentions key events;
  cl_fresh : forall key, key ∈ new_version_candidates c <->
    is_live repo disk m key = false /\
    exists p, (p, KCreate) ∈ events /\ event_key repo p = Some (key, true) /\ is_dir disk p = true;
}.

Lemma files_of_snoc key events e :
  files_of key (events ++ [e]) =
  (files_of key events ++ if bool_decide (is_dir disk (fst e) = false /\ fst <$> event_key repo (fst e) = Some key) then [fst e] else [])%list.
Proof.
  unfold files_of. rewrite map_app, filter_app. f_equal. cbn [map]. rewrite filter_cons, filter_nil.
  destruct (decide _); [by rewrite bool_decide_true|by rewrite bool_decide_false].
Qed.

Lemma mentions_snoc key events e :
  mentions key (events ++ [e]) <-> mentions key events \/ fst <$> event_key repo (fst e) = Some key.
Proof.
  unfold mentions. split.
  - intros (e' & top & [Hin| ->%list_elem_of_singleton]%elem_of_app & He); [left; by exists e', top|right]. by rewrite He.
  - intros [(e' & top & Hin & He)|He]; [exists e', top; set_solver|].
    destruct (event_key repo (fst e)) as [[key' top]|] eqn:Hk; [|done]. injection He as <-. exists e, top. set_solver.
Qed.

(** What one event adds. *)
Lemma classify_reload key c e :
  key ∈ models_to_reload (classify repo disk m c e) <->
  key ∈ models_to_reload c \/
  is_live repo disk m key = true /\ is_dir disk (fst e) = false /\ fst <$> event_key repo (fst e) = Some key.
Proof.
  destruct e as [p kind]. unfold classify. simpl. destruct (event_key repo p) as [[k top]|]; simpl; [|naive_solver].
  destruct (is_dir disk p); [destruct (is_live repo disk m k); naive_solver|].
  destruct (is_live repo disk m k) eqn:Hl; simpl;
    [|split; [by left|]; intros [H|(H1 & _ & [= ->])]; [done|congruence]].
  rewrite elem_of_union, elem_of_singleton. split; [intros [->|H]; auto|intros [H|(_ & _ & [= ->])]; auto].
Qed.

Lemma classify_files key c e :
  default [] (trigger_files (classify repo disk m c e) !! key) =
  (default [] (trigger_files c !! key)
   ++ if bool_decide (is_live repo disk m key = true /\ is_dir disk (fst e) = false /\ fst <$> event_key repo (fst e) = Some key)
      then [fst e] else [])%list.
Proof.
  destruct e as [p kind]. unfold classify. simpl. destruct (event_key repo p) as [[k top]|]; simpl.
  2:{ rewrite bool_decide_false by (by intros (_ & _ & ?)). by rewrite app_nil_r. }
  destruct (is_dir disk p).
  { rewrite (bool_decide_false (_ /\ _)) by (by intros (_ & ? & _)). rewrite app_nil_r. by destruct (is_live repo disk m k). }
  destruct (is_live repo disk m k) eqn:Hl; simpl.
  - destruct (decide (k = key)) as [->|Hne]; [by rewrite lookup_insert_eq, bool_decide_true|].
    rewrite lookup_insert_ne by done. rewrite bool_decide_false by (intros (_ & _ & [= ?]); done). by rewrite app_nil_r.
  - rewrite bool_decide_false by (intros (H1 & _ & [= ->]); congruence). by rewrite app_nil_r.
Qed.

Lemma classify_lifecycle key c e :
  key ∈ lifecycle_candidates (classify repo disk m c e) <->
  key ∈ lifecycle_candidates c \/ is_live repo disk m key = false /\ fst <$> event_key repo (fst e) = Some key.
Proof.
  destruct e as [p kind]. unfold classify. simpl. destruct (event_key repo p) as [[k top]|]; simpl; [|naive_solver].
  destruct (is_dir disk p), (is_live repo disk m k) eqn:Hl; simpl;
    rewrite ?elem_of_union, ?elem_of_singleton; split; (try by left); intros [H|H]; auto.
  all: try (subst; by right). all: destruct H as [H1 [= ->]]; try congruence; auto.
Qed.

Lemma classify_fresh key c e :
  key ∈ new_version_candidates (classify repo disk m c e) <->
  key ∈ new_version_candidates c \/
  is_live repo disk m key = false /\ snd e = KCreate /\ event_key repo (fst e) = Some (key, true) /\ is_dir disk (fst e) = true.
Proof.
  destruct e as [p kind]. unfold classify. simpl. destruct (event_key repo p) as [[k top]|]; simpl; [|naive_solver].
  destruct (is_dir disk p), (is_live repo disk m k) eqn:Hl; simpl; try naive_solver.
  - split; [by left|]. intros [H|(H1 & _ & [= -> ->] & _)]; [done|congruence].
  - case_bool_decide; destruct top; simpl; rewrite ?elem_of_union, ?elem_of_singleton; naive_solver.
Qed.

Lemma classify_all_spec events : classification events (classify_all repo disk m events).
Proof.
  unfold classify_all. induction events as [|e events [Hr Hf Hl Hn]] using rev_ind.
  { split; intros key; simpl; [set_solver| |unfold mentions; set_solver|set_solver]. rewrite lookup_empty. by destruct (is_live _ _ _ _). }
  rewrite foldl_app. simpl. split; intros key.
  - rewrite classify_reload, Hr, files_of_snoc. case_bool_decide as Hb; [|rewrite app_nil_r; tauto].
    split; [intros [[H1 H2]|(H1 & _)]; (split; [done|]); intros ?%app_eq_nil; naive_solver|].
    intros [H1 _]. tauto.
  - rewrite classify_files, Hf, files_of_snoc. destruct (is_live repo disk m key).
    + f_equal. repeat case_bool_decide; naive_solver.
    + by rewrite bool_decide_false by (by intros (? & _)).
  - rewrite classify_lifecycle, Hl, mentions_snoc. tauto.
  - rewrite classify_fresh, Hn. setoid_rewrite elem_of_app. setoid_rewrite list_elem_of_singleton. destruct e as [p kind]. simpl.
    split; [intros [(H1 & q & Hq)|(H1 & -> & Hq)]|intros (H1 & q & [Hin|[= <- <-]] & Hq)]; naive_solver.
Qed.
End classification.

(** ** Echoes of configuration writes *)

Definition valid_key (key : Key) : Prop :=
  validate_identifier (fst key) = Ok tt /\ validate_identifier (snd key) = Ok tt.

Lemma join_valid base n : validate_identifier n = Ok tt -> Validation.join base n = (base ++ [Normal n])%list.
Proof.
  intros (Hne & _ & Hs & Hd)%validated_model. destruct (piece_one n Hs Hne Hd) as [H1 H2].
  unfold Validation.join. by rewrite H1, H2.
Qed.

Lemma join_config base : Validation.join base "config.yaml" = (base ++ [Normal "config.yaml"])%list.
Proof. done. Qed.

Lemma config_path_valid repo key :
  valid_key key -> config_path repo key = (repo ++ [Normal (fst key); Normal (snd key); Normal "config.yaml"])%list.
Proof.
  intros [H1 H2]. unfold config_path, version_dir. rewrite (join_valid repo), (join_valid (repo ++ _)) by done.
  rewrite join_config. by rewrite <- !(assoc_L (++)).
Qed.

Lemma config_path_inj repo a b : valid_key a -> valid_key b -> config_path repo a = config_path repo b -> a = b.
Proof.
  intros Ha Hb. rewrite !config_path_valid by done. intros [= H1 H2]%(inj (repo ++.)). by destruct a, b; simplify_eq/=.
Qed.

Lemma event_key_valid repo p key top : event_key repo p = Some (key, top) -> valid_key key.
Proof.
  unfold event_key. repeat case_match; intros; simplify_eq. unfold valid_key. simpl.
  repeat match goal with u : unit |- _ => destruct u end. done.
Qed.

Section echoes.
Context (repo : path) (content_etag : string -> string) (disk : Disk).

(** Whether the configuration file of a version only echoes a recorded write. *)
Definition echoes (l : Ledger) (key : Key) (files : list path) : Prop :=
  config_path repo key ∈ files /\
  exists bytes at_, read disk (config_path repo key) = Some bytes /\ l !! config_path repo key = Some (content_etag bytes, at_).

#[local] Instance echoes_dec l key files : Decision (echoes l key files).
Proof.
  unfold echoes. destruct (decide (config_path repo key ∈ files)); [|right; by intros []].
  destruct (read disk (config_path repo key)) as [bytes|] eqn:Hr; [|right; naive_solver].
  destruct (l !! config_path repo key) as [[r at_]|] eqn:Hl; [|right; naive_solver].
  destruct (decide (r = content_etag bytes)) as [->|Hne]; [left; naive_solver|right; naive_solver].
Defined.

(** The files that count for a version. *)
Definition fresh_files (l : Ledger) (key : Key) (files : list path) : list path :=
  if decide (echoes l key files) then filter (fun f => f <> config_path repo key) files else files.

Lemma fresh_files_echo l key files :
  echoes l key files -> fresh_files l key files = filter (fun f => f <> config_path repo key) files.
Proof. intros He. unfold fresh_files. by destruct (decide (echoes l key files)). Qed.

Lemma fresh_files_other l key files : ~ echoes l key files -> fresh_files l key files = files.
Proof. intros He. unfold fresh_files. by destruct (decide (echoes l key files)). Qed.

Lemma fresh_files_ledger l1 l key files1 files :
  l1 !! config_path repo key = l !! config_path repo key -> files1 = files -> fresh_files l1 key files1 = fresh_files l key files.
Proof.
  intros Hl ->. assert (echoes l1 key files <-> echoes l key files) as He by (unfold echoes; by rewrite Hl).
  destruct (decide (echoes l key files)) as [Hy|Hn].
  - by rewrite !fresh_files_echo by tauto.
  - by rewrite !fresh_files_other by tauto.
Qed.

Abbreviation files_in c key := (default [] (trigger_files c !! key)).

Lemma drop_echo_own l c key c' l' :
  drop_echo repo content_etag disk key (c, l) = (c', l') ->
  files_in c' key = fresh_files l key (files_in c key) /\
  (key ∈ models_to_reload c' <-> key ∈ models_to_reload c /\ (echoes l key (files_in c key) -> fresh_files l key (files_in c key) <> [])).
Proof.
  unfold drop_echo, fresh_files. destruct (decide (echoes l key (files_in c key))) as [He|He].
  - destruct He as (Hin & bytes & at_ & Hr & Hl). rewrite bool_decide_true, Hr by done. unfold take_config_write. rewrite Hl.
    rewrite String.eqb_refl. simpl. intros [= <- <-]. simpl. split.
    + case_bool_decide as Hf; [rewrite lookup_delete_eq; by rewrite Hf|by rewrite lookup_insert_eq].
    + case_bool_decide as Hf; [|naive_solver]. split; [set_solver|]. intros [_ H]. destruct H; [|done]. by exact (conj Hin (ex_intro _ bytes (ex_intro _ at_ (conj Hr Hl)))).
  - intros Hd. assert (c' = c) as ->; [|naive_solver]. revert Hd.
    case_bool_decide as Hin; simpl; [|congruence]. destruct (read disk (config_path repo key)) as [bytes|] eqn:Hr; [|congruence].
    unfold take_config_write. destruct (l !! config_path repo key) as [[r at_]|] eqn:Hl; [|simpl; congruence].
    destruct (String.eqb_spec r (content_etag bytes)) as [->|Hne]; [|simpl; congruence].
    destruct He. split; [done|]. eauto.
Qed.

Lemma drop_echo_others l c key c' l' :
  drop_echo repo content_etag disk key (c, l) = (c', l') ->
  lifecycle_candidates c' = lifecycle_candidates c /\ new_version_candidates c' = new_version_candidates c /\
  (forall k, k <> key -> trigger_files c' !! k = trigger_files c !! k /\ (k ∈ models_to_reload c' <-> k ∈ models_to_reload c)) /\
  (forall p, p <> config_path repo key -> l' !! p = l !! p).
Proof.
  unfold drop_echo, take_config_write. intros Hd.
  destruct (bool_decide _); simpl in Hd; [|by simplify_eq].
  destruct (read _ _); [|by simplify_eq]. destruct (l !! _) as [[r at_]|]; [|by simplify_eq/=].
  destruct (String.eqb _ _); simpl in Hd; [|by simplify_eq]. injection Hd as <- <-. simpl. split; [done|]. split; [done|]. split.
  - intros k Hk. case_bool_decide; [rewrite lookup_delete_ne by done|rewrite lookup_insert_ne by done]; (split; [done|set_solver]).
  - intros p Hp. by rewrite lookup_delete_ne.
Qed.

Lemma drop_echoes_spec keys c l c' l' :
  NoDup keys -> Forall valid_key keys ->
  foldl (fun cl key => drop_echo repo content_etag disk key cl) (c, l) keys = (c', l') ->
  lifecycle_candidates c' = lifecycle_candidates c /\ new_version_candidates c' = new_version_candidates c /\
  (forall key, key ∈ keys -> files_in c' key = fresh_files l key (files_in c key) /\
     (key ∈ models_to_reload c' <-> key ∈ models_to_reload c /\ (echoes l key (files_in c key) -> fresh_files l key (files_in c key) <> []))) /\
  (forall key, key ∉ keys -> trigger_files c' !! key = trigger_files c !! key /\ (key ∈ models_to_reload c' <-> key ∈ models_to_reload c)).
Proof.
  revert c l. induction keys as [|k keys IH]; intros c l Hnd Hval Hf; cbn [foldl] in Hf; [simplify_eq; set_solver|].
  apply NoDup_cons in Hnd as [Hk Hnd]. apply Forall_cons in Hval as [Hvk Hval].
  destruct (drop_echo repo content_etag disk k (c, l)) as [c1 l1] eqn:Hd.
  destruct (drop_echo_own _ _ _ _ _ Hd) as [Hof Hor]. destruct (drop_echo_others _ _ _ _ _ Hd) as (Hl & Hn & Ho & Hled).
  destruct (IH c1 l1 Hnd Hval Hf) as (Hl' & Hn' & Hin & Hout).
  split; [congruence|]. split; [congruence|]. split.
  - intros key [-> |Hkey]%elem_of_cons.
    + destruct (Hout k Hk) as [H1 H2]. by rewrite H1, H2.
    + destruct (Hin key Hkey) as [H1 H2]. assert (key <> k) as Hne by congruence. destruct (Ho key Hne) as [H3 H4].
      assert (l1 !! config_path repo key = l !! config_path repo key) as H5.
      { apply Hled. intros Heq. apply Hne. eapply config_path_inj; [|done|done]. by eapply (proj1 (Forall_forall _ _) Hval). }
      assert (fresh_files l1 key (files_in c1 key) = fresh_files l key (files_in c key)) as H6.
      { apply (fresh_files_ledger l1); [done|by rewrite H3]. }
      rewrite H1, H2, H6, H4. split; [done|]. unfold echoes. by rewrite H5, H3.
  - intros key [Hne Hkey]%not_elem_of_cons. destruct (Hout key Hkey) as [H1 H2]. destruct (Ho key Hne) as [H3 H4]. by rewrite H1, H2, H3, H4.
Qed.
End echoes.

Lemma reload_valid repo disk m events key :
  key ∈ models_to_reload (classify_all repo disk m events) -> valid_key key.
Proof.
  intros [_ Hf]%(cl_reload _ _ _ _ _ (classify_all_spec repo disk m events)).
  destruct (files_of repo disk key events) as [|p ps] eqn:Hp; [done|].
  assert (p ∈ files_of repo disk key events) as Hin by (rewrite Hp; by left).
  apply list_elem_of_filter in Hin as [[_ Hk] _]. destruct (event_key repo p) as [[k top]|] eqn:He; [|done].
  injection Hk as <-. by eapply event_key_valid.
Qed.

(** ** Acting on a batch *)

Section acting.
Context `{MapIter}.
Context {V : Type} (semver_parse : string -> option V) (semver_le : V -> V -> bool).
Context (parse_json : string -> option Value) (content_etag : string -> string).
Context (repo : path) (cooldown : Duration) (auto : bool) (bi : BatchInput).
Hypothesis order_perm : forall s, bi_order bi s ≡ₚ elements s.

Abbreviation reload1 := (reload_key semver_parse semver_le parse_json cooldown bi).
Abbreviation reloads := (reload_keys semver_parse semver_le parse_json cooldown bi).
Abbreviation manual1 := (manual_key semver_parse semver_le repo bi).
Abbreviation manuals := (manual_keys semver_parse semver_le repo bi).
Abbreviation process := (process_watch_events semver_parse semver_le parse_json content_etag repo cooldown auto bi).

(** A restart or a refresh of a version. *)
Definition acts_on (key : Key) (a : WatchAction) : Prop :=
  match a with InProcess k | Restarted k _ => k = key | _ => False end.

(** What a version needs to be acted on, registration aside. *)
Definition reload_due (key : Key) (files : list path) (last : option Instant) : Prop :=
  (forall t, last = Some t -> cooldown <= elapsed (bi_now bi key) t) /\
  hot_reload (bi_config bi key) = true /\ pattern_hit bi key files = true.

Lemma cooling_false key s :
  cooling cooldown bi key s = false <-> forall t, ws_last_reload s !! key = Some t -> cooldown <= elapsed (bi_now bi key) t.
Proof.
  unfold cooling. destruct (ws_last_reload s !! key) as [t|]; [|naive_solver]. split.
  - intros Hlt t' [= <-]. lia.
  - intros Hall. specialize (Hall t eq_refl). lia.
Qed.

Lemma reload_key_spec files key s s' acts :
  reload1 files key s = (s', acts) ->
  (forall a, a ∈ acts -> acts_on key a /\ registered (ws_manager s) key = true /\
     reload_due key (default [] (files !! key)) (ws_last_reload s !! key) /\
     (a = InProcess key -> config_changed (default [] (files !! key)) = false)) /\
  (registered (ws_manager s) key = true -> reload_due key (default [] (files !! key)) (ws_last_reload s !! key) ->
     exists a, a ∈ acts /\ acts_on key a) /\
  (forall k, k <> key -> ws_last_reload s' !! k = ws_last_reload s !! k).
Proof.
  unfold reload_key, reload_due. setoid_rewrite <- cooling_false.
  destruct (cooling cooldown bi key s); [intros [= <- <-]; split; [by intros a ?%elem_of_nil|split; [by intros ? (? & ? & ?)|done]]|].
  destruct (registered (ws_manager s) key); [|intros [= <- <-]; split; [by intros a ?%elem_of_nil|split; [by intros ? (? & ? & ?)|done]]]. simpl.
  destruct (hot_reload (bi_config bi key)); [|intros [= <- <-]; split; [by intros a ?%elem_of_nil|split; [by intros ? (? & ? & ?)|done]]]. simpl.
  destruct (pattern_hit bi key _); [|intros [= <- <-]; split; [by intros a ?%elem_of_nil|split; [by intros ? (? & ? & ?)|done]]]. simpl.
  destruct key as [model version].
  destruct (config_changed _) eqn:Hc; simpl; [|destruct (fst (notify_file_changed _ _ _ _ _))].
  2:{ intros [= <- <-]. split; [intros a ->%list_elem_of_singleton; by repeat split|]. split; [intros _ _; eexists; split; [by left|done]|].
      intros k Hk. simpl. by rewrite lookup_insert_ne. }
  all: destruct (reload_model_inner _ _ _ _ _ _ _) as [r m]; intros [= <- <-].
  all: split; [intros a ->%list_elem_of_singleton; by repeat split|]; split; [intros _ _; eexists; split; [by left|done]|].
  all: intros k Hk; simpl; by rewrite lookup_insert_ne.
Qed.

Lemma reload_keys_only files keys s s' acts :
  NoDup keys -> reloads files keys s = (s', acts) ->
  (forall a, a ∈ acts -> exists key, key ∈ keys /\ acts_on key a /\
     reload_due key (default [] (files !! key)) (ws_last_reload s !! key) /\
     (a = InProcess key -> config_changed (default [] (files !! key)) = false)).
Proof.
  revert s acts. induction keys as [|k keys IH]; intros s acts Hnd Hr a Ha; simpl in Hr; [simplify_eq; by apply elem_of_nil in Ha|].
  apply NoDup_cons in Hnd as [Hk Hnd]. destruct (reload1 files k s) as [s1 a1] eqn:H1.
  destruct (reloads files keys s1) as [s2 a2] eqn:H2. injection Hr as <- <-.
  destruct (reload_key_spec _ _ _ _ _ H1) as (Hwhy & _ & Hlast). apply elem_of_app in Ha as [Ha|Ha].
  - destruct (Hwhy a Ha) as (Hon & _ & Hdue & Hcfg). exists k. split; [by left|done].
  - destruct (IH s1 a2 Hnd H2 a Ha) as (key & Hkey & Hon & Hdue & Hcfg). exists key.
    rewrite <- Hlast by set_solver. split; [by right|done].
Qed.

(** Reloads of other versions leave the registration of a version alone. *)
Definition keeps (key : Key) : Prop := forall k m, k <> key -> registered m key = true ->
  registered (snd (reload_model_inner semver_parse semver_le (bi_reload bi k) (fst k) (Some (snd k)) true m)) key = true.

Lemma reload_key_keeps files k key s : k <> key -> keeps key -> registered (ws_manager s) key = true ->
  registered (ws_manager (fst (reload1 files k s))) key = true.
Proof.
  intros Hk Hkeep Hreg. unfold reload_key. destruct (cooling cooldown bi k s), (registered (ws_manager s) k), (hot_reload (bi_config bi k)),
    (pattern_hit bi k (default [] (files !! k))); try done.
  destruct k as [model version]. simpl. destruct (negb _ && _); [done|].
  specialize (Hkeep (model, version) (ws_manager s) Hk Hreg). simpl in Hkeep.
  by destruct (reload_model_inner _ _ _ _ _ _ _).
Qed.

Lemma reload_keys_all files keys s s' acts key :
  NoDup keys -> reloads files keys s = (s', acts) -> keeps key -> key ∈ keys ->
  registered (ws_manager s) key = true -> reload_due key (default [] (files !! key)) (ws_last_reload s !! key) ->
  exists a, a ∈ acts /\ acts_on key a.
Proof.
  intros Hnd Hr Hkeep. revert s acts Hr. induction keys as [|k keys IH]; intros s acts Hr Hin Hreg Hdue; [by apply elem_of_nil in Hin|].
  simpl in Hr. apply NoDup_cons in Hnd as [Hk Hnd]. destruct (reload1 files k s) as [s1 a1] eqn:H1.
  destruct (reloads files keys s1) as [s2 a2] eqn:H2. injection Hr as <- <-.
  destruct (reload_key_spec _ _ _ _ _ H1) as (_ & Hact & Hlast). apply elem_of_cons in Hin as [->|Hin].
  - destruct (Hact Hreg Hdue) as (a & Ha & Hon). exists a. set_solver.
  - assert (k <> key) as Hne by set_solver. destruct (IH Hnd s1 a2 H2 Hin) as (a & Ha & Hon).
    + pose proof (reload_key_keeps files k key s Hne Hkeep Hreg) as Hm. by rewrite H1 in Hm.
    + by rewrite Hlast by congruence.
    + exists a. set_solver.
Qed.

(** Manual control decides every candidate on its own. *)
Definition manual_action (fresh : gset Key) (key : Key) : WatchAction :=
  if exists_ (bi_vanished bi) (version_dir repo key) then if bool_decide (key ∈ fresh) then Announced key else Churn key
  else Unloaded key.

Lemma manual_keys_acts fresh keys s : snd (manuals fresh keys s) = map (manual_action fresh) keys.
Proof.
  revert s. induction keys as [|k keys IH]; intros s; simpl; [done|]. unfold manual_key, manual_action at 1.
  destruct (exists_ _ _).
  - specialize (IH s). destruct (manuals fresh keys s) as [s2 a2]. simpl in *. by rewrite IH.
  - match goal with |- context [manual_keys _ _ _ _ _ _ ?s1] => specialize (IH s1); destruct (manuals fresh keys s1) end.
    simpl in *. by rewrite IH.
Qed.

Lemma lifecycle_stage_acts c s a :
  a ∈ snd (lifecycle_stage semver_parse semver_le repo auto bi c s) <->
  if auto then a = Triggered /\ lifecycle_candidates c <> ∅
  else exists key, key ∈ lifecycle_candidates c /\ a = manual_action (new_version_candidates c) key.
Proof.
  unfold lifecycle_stage. case_bool_decide as Hc.
  { simpl. rewrite Hc. destruct auto; set_solver. }
  destruct auto; simpl; [rewrite list_elem_of_singleton; naive_solver|].
  pose proof (manual_keys_acts (new_version_candidates c) (bi_order bi (lifecycle_candidates c)) s) as Hm.
  destruct (manuals _ _ s) as [s1 acts]. simpl in Hm.
  transitivity (a ∈ acts); [by destruct (existsb is_unload acts)|]. rewrite Hm, list_elem_of_fmap.
  setoid_rewrite order_perm. setoid_rewrite elem_of_elements. naive_solver.
Qed.

(** The versions of the repository a batch finds live, and the files of a version that count. *)
Definition found_live (s : WatchState) (key : Key) : bool :=
  registered (ws_manager s) key && exists_ (bi_classify bi) (version_dir repo key).

Definition batch_files (events : list Event) (s : WatchState) (key : Key) : list path :=
  fresh_files repo content_etag (bi_configs bi) (ws_ledger s) key (files_of repo (bi_classify bi) key events).

Lemma order_elem key ks : key ∈ bi_order bi ks <-> key ∈ ks.
Proof. by rewrite order_perm, elem_of_elements. Qed.

Lemma order_NoDup ks : NoDup (bi_order bi ks).
Proof. rewrite order_perm. apply NoDup_elements. Qed.

(** What is left of the classification once the echoes are dropped. *)
Lemma undropped events s c s' :
  drop_echoes content_etag repo bi (classify_all repo (bi_classify bi) (ws_manager s) events) (prune s) = (c, s') ->
  ws_manager s' = ws_manager s /\ ws_last_reload s' = ws_last_reload (prune s) /\
  (forall key, key ∈ models_to_reload c <-> found_live s key = true /\ batch_files events s key <> []) /\
  (forall key, key ∈ models_to_reload c -> default [] (trigger_files c !! key) = batch_files events s key) /\
  (forall key, key ∈ lifecycle_candidates c <-> found_live s key = false /\ mentions repo key events) /\
  (forall key, key ∈ new_version_candidates c <-> found_live s key = false /\
     exists p, (p, KCreate) ∈ events /\ event_key repo p = Some (key, true) /\ is_dir (bi_classify bi) p = true).
Proof.
  destruct (classify_all_spec repo (bi_classify bi) (ws_manager s) events) as [Hr Hf Hl Hn].
  set (c0 := classify_all _ _ _ _) in *. unfold drop_echoes.
  destruct (foldl _ _ _) as [c1 l1] eqn:Hfold. intros [= <- <-].
  destruct (drop_echoes_spec repo content_etag (bi_configs bi) _ _ _ _ _ (order_NoDup _)
              ltac:(apply Forall_forall; intros key; rewrite order_elem; apply reload_valid) Hfold)
    as (Hl' & Hn' & Hin & Hout).
  split; [done|]. split; [done|]. setoid_rewrite order_elem in Hin. setoid_rewrite order_elem in Hout.
  assert (Hreload : forall key, key ∈ models_to_reload c1 <-> found_live s key = true /\ batch_files events s key <> []).
  { intros key. destruct (decide (key ∈ models_to_reload c0)) as [Hk|Hk].
    - destruct (Hin key Hk) as [_ ->]. rewrite Hf. apply Hr in Hk as Hk'. destruct Hk' as [Hlive Hne].
      unfold found_live, batch_files. rewrite Hlive. split; [intros [_ He]|intros [_ He]; done]. split; [done|].
      unfold fresh_files in *. destruct (decide _); auto.
    - destruct (Hout key Hk) as [_ ->]. split; [done|]. intros [Hlive Hne]. destruct Hk. apply Hr. split; [done|].
      intros H0. destruct Hne. unfold batch_files. rewrite H0. unfold fresh_files. by destruct (decide _). }
  split; [done|]. split.
  - intros key Hk. assert (key ∈ models_to_reload c0) as Hk0.
    { destruct (decide (key ∈ models_to_reload c0)) as [|Hno]; [done|]. by apply (Hout key Hno). }
    destruct (Hin key Hk0) as [-> _]. rewrite Hf. by apply Hr in Hk0 as [-> _].
  - rewrite Hl', Hn'. done.
Qed.

Lemma pruned_last s key : registered (ws_manager s) key = true -> ws_last_reload (prune s) !! key = ws_last_reload s !! key.
Proof.
  intros Hr. simpl. rewrite map_lookup_filter. destruct (ws_last_reload s !! key) as [t|]; [|done]. simpl.
  by rewrite option_guard_True.
Qed.

Lemma live_registered s key : found_live s key = true -> registered (ws_manager s) key = true.
Proof. by intros [? _]%andb_prop. Qed.

Lemma manual_action_inv fresh key a :
  a = manual_action fresh key ->
  match a with
  | Unloaded k => k = key /\ exists_ (bi_vanished bi) (version_dir repo key) = false
  | Announced k => k = key /\ exists_ (bi_vanished bi) (version_dir repo key) = true /\ key ∈ fresh
  | Churn k => k = key /\ exists_ (bi_vanished bi) (version_dir repo key) = true /\ key ∉ fresh
  | _ => False
  end.
Proof. intros ->. unfold manual_action. destruct (exists_ _ _); [case_bool_decide|]; done. Qed.

Lemma process_acts events s :
  exists c s1 s2 acts,
    drop_echoes content_etag repo bi (classify_all repo (bi_classify bi) (ws_manager s) events) (prune s) = (c, s1) /\
    reloads (trigger_files c) (bi_order bi (models_to_reload c)) s1 = (s2, acts) /\
    forall a, a ∈ snd (process events s) <->
      a ∈ acts \/ a ∈ snd (lifecycle_stage semver_parse semver_le repo auto bi c s2).
Proof.
  unfold process_watch_events. destruct (drop_echoes _ _ _ _ _) as [c s1]. exists c, s1.
  destruct (reloads _ _ s1) as [s2 acts] eqn:Hr. exists s2, acts. split; [done|]. split; [done|]. intros a.
  destruct (lifecycle_stage _ _ _ _ _ _ s2) as [s3 rest]. simpl. apply elem_of_app.
Qed.

(** C33. What a batch of file events does, exactly: a version is refreshed or
    restarted only if it was loaded with its directory present, has changed files
    left once echoes of configuration writes are taken out, matches its patterns,
    asks for hot reloads and is past its cooldown, and refreshed in place only if no
    configuration changed; when all this holds (and reloads of other versions leave
    it registered) it is acted on; under manual control a version is unloaded
    exactly if events mention it, it was not live and its directory is gone; under
    automatic control reconciliation is triggered exactly if events mention a
    version that is not live. *)
Theorem batch_acts_exactly events s key :
  let acts := snd (process events s) in
  (forall a, a ∈ acts -> acts_on key a ->
     found_live s key = true /\ batch_files events s key <> [] /\
     reload_due key (batch_files events s key) (ws_last_reload s !! key) /\
     (a = InProcess key -> config_changed (batch_files events s key) = false)) /\
  (found_live s key = true -> batch_files events s key <> [] ->
   reload_due key (batch_files events s key) (ws_last_reload s !! key) -> keeps key -> exists a, a ∈ acts /\ acts_on key a) /\
  (Unloaded key ∈ acts <->
     auto = false /\ found_live s key = false /\ mentions repo key events /\
     exists_ (bi_vanished bi) (version_dir repo key) = false) /\
  (Triggered ∈ acts <-> auto = true /\ exists k, found_live s k = false /\ mentions repo k events).
Proof.
  intros acts. destruct (process_acts events s) as (c & s1 & s2 & ra & Hdrop & Hrel & Hacts).
  destruct (undropped events s c s1 Hdrop) as (Hm & Hlast & Hr & Hf & Hl & _).
  pose proof (reload_keys_only _ _ _ _ _ (order_NoDup _) Hrel) as Honly. unfold acts. setoid_rewrite Hacts.
  setoid_rewrite lifecycle_stage_acts. split; [|split; [|split]].
  - intros a [Ha|Ha] Hon.
    + destruct (Honly a Ha) as (k & Hk & Hon' & Hdue & Hcfg). rewrite order_elem in Hk.
      assert (k = key) as -> by (destruct a; simpl in *; (done || congruence)).
      rewrite Hf in Hdue, Hcfg by done. apply Hr in Hk as [Hlive Hne].
      rewrite Hlast, pruned_last in Hdue by (by apply live_registered). done.
    + exfalso. destruct auto; [by destruct Ha as [-> _]|]. destruct Ha as (k & _ & Ha%manual_action_inv). by destruct a.
  - intros Hlive Hne Hdue Hkeep. assert (key ∈ models_to_reload c) as Hk by by apply Hr.
    destruct (reload_keys_all _ _ _ _ _ key (order_NoDup _) Hrel Hkeep) as (a & Ha & Hon);
      [by apply order_elem|rewrite Hm; by apply live_registered| |exists a; auto].
    rewrite Hf, Hlast, pruned_last by (done || by apply live_registered). done.
  - split.
    + intros [Ha|Ha]; [destruct (Honly _ Ha) as (k & _ & [] & _)|]. destruct auto; [by destruct Ha|].
      destruct Ha as (k & Hk & [-> Hgone]%manual_action_inv). apply Hl in Hk. naive_solver.
    + intros (-> & Hlive & Hment & Hgone). right. exists key. split; [by apply Hl|]. unfold manual_action. by rewrite Hgone.
  - split.
    + intros [Ha|Ha]; [destruct (Honly _ Ha) as (k & _ & [] & _)|]. destruct auto.
      * destruct Ha as [_ [k Hk]%set_choose_L]. split; [done|]. exists k. by apply Hl.
      * by destruct Ha as (k & _ & []%manual_action_inv).
    + intros [-> (k & Hk)]. right. split; [done|]. apply Hl in Hk. set_solver.
Qed.
End acting.

(** ** Echoes, end to end *)

(** After the control plane writes a configuration, a batch in which it is the only
    file of the version has no file that counts while the file holds what was
    written; with any other content it counts. *)
Theorem config_echo_ignored content_etag repo bi events s key now bytes :
  read (bi_configs bi) (config_path repo key) = Some bytes ->
  (forall f, f ∈ files_of repo (bi_classify bi) key events -> f = config_path repo key) ->
  let written etag :=
    {| ws_manager := ws_manager s; ws_last_reload := ws_last_reload s;
       ws_ledger := note_config_write now (config_path repo key) etag (ws_ledger s);
       ws_has_hot_reload := ws_has_hot_reload s; ws_triggers := ws_triggers s |} in
  batch_files content_etag repo bi events (written (content_etag bytes)) key = [] /\
  (forall etag, etag <> content_etag bytes ->
     batch_files content_etag repo bi events (written etag) key = files_of repo (bi_classify bi) key events).
Proof.
  intros Hread Hall written. unfold batch_files, written, note_config_write. cbn [ws_ledger]. split.
  - destruct (files_of repo (bi_classify bi) key events) as [|f fs] eqn:Hfs.
    { by rewrite fresh_files_other by (intros [[]%elem_of_nil _]). }
    rewrite fresh_files_echo.
    + clear Hfs. induction (f :: fs) as [|g gs IH]; [done|]. rewrite filter_cons_False; [apply IH; intros h Hh; apply Hall; by right|].
      intros Hne. by destruct Hne; apply Hall; left.
    + split; [rewrite (Hall f ltac:(by left)); by left|]. exists bytes, now. by rewrite lookup_insert_eq.
  - intros etag Hne. apply fresh_files_other. intros (_ & b & at_ & Hb & Hl). rewrite lookup_insert_eq in Hl. congruence.
Qed.

(** No event concerns a version with a dot in its name: the watcher checks versions
    as identifiers. *)
Theorem dotted_versions_not_watched repo model version rest :
  has_char "."%char version = true -> event_key repo (repo ++ Normal model :: Normal version :: rest)%list = None.
Proof.
  intros Hdot. unfold event_key. destruct (ignored _); [done|].
  assert (strip_base repo (repo ++ Normal model :: Normal version :: rest) = Some (Normal model :: Normal version :: rest)) as ->.
  { induction repo as [|c repo IH]; [done|]. simpl. by rewrite bool_decide_true. }
  destruct (validate_identifier model); [|done]. destruct (validate_identifier version) as [[]|] eqn:Hv; [|done].
  apply identifier_chars in Hv as [_ Hv]. by rewrite (all_chars_no_char identifier_char) in Hdot.
Qed.

(** No event on the directory of a model concerns its versions, so moving it away
    unloads nothing. *)
Theorem model_dir_not_watched repo model : event_key repo (repo ++ [Normal model])%list = None.
Proof.
  unfold event_key. destruct (ignored _); [done|].
  assert (strip_base repo (repo ++ [Normal model]) = Some [Normal model]) as ->; [|done].
  induction repo as [|c repo IH]; [done|]. simpl. by rewrite bool_decide_true.
Qed.

(** ** Examples *)

Definition example_repo : path := [RootDir; Normal "repo"].

(** Two loaded versions, a source file of the first edited, the second deleted; reloads find
    no configuration. *)
Definition example_state : WatchState :=
  {| ws_manager := canary; ws_last_reload := ∅; ws_ledger := ∅; ws_has_hot_reload := true; ws_triggers := 0 |}.

Definition example_disk : Disk :=
  {| exists_ := fun p => negb (bool_decide (p = version_dir example_repo ("m", "2"))); is_dir := fun _ => false; read := fun _ => None |}.

Definition example_batch : BatchInput :=
  {| bi_classify := example_disk; bi_configs := example_disk; bi_vanished := example_disk; bi_order := elements;
     bi_now := fun _ => 0; bi_noted := fun _ => 0;
     bi_config := fun _ => {| hot_reload := true; hot_reload_patterns := ["*.py"] |};
     bi_reply := fun _ _ => Err "no reply";
     bi_reload := fun _ => {| rl_dir := Ok false; rl_config := Ok tt; rl_new := two_workers; rl_old := two_workers |} |}.

Definition example_events : list Event :=
  [ (source, KModify); ((example_repo ++ [Normal "m"; Normal "2"; Normal "model.py"])%list, KRemove) ].

Lemma example_keeps key : keeps major_only Nat.leb example_batch key.
Proof.
  intros k m _ Hr. unfold reload_model_inner, bind, Lifecycle.get, ret, throw. simpl.
  by destruct (registry_get (fst k) (Some (snd k)) (registry m)).
Qed.

Lemma batch_acts_witness :
  let acts := snd (process_watch_events major_only Nat.leb (fun _ => None) (fun s => s) example_repo 1000 false example_batch
                     example_events example_state) in
  (exists a, a ∈ acts /\ acts_on ("m", "1") a) /\ Unloaded ("m", "2") ∈ acts.
Proof.
  pose proof (batch_acts_exactly major_only Nat.leb (fun _ => None) (fun s => s) example_repo 1000 false example_batch
                ltac:(done) example_events example_state) as H.
  split.
  - destruct (H ("m", "1")) as (_ & Hact & _). apply Hact; [by vm_compute|by vm_compute| |apply example_keeps].
    split; [done|]. by vm_compute.
  - destruct (H ("m", "2")) as (_ & _ & Hun & _). apply Hun. split; [done|]. split; [by vm_compute|].
    split; [|by vm_compute]. exists ((example_repo ++ [Normal "m"; Normal "2"; Normal "model.py"])%list, KRemove), false.
    split; [by right; left|by vm_compute].
Defined.

Lemma watcher_delivers_witness :
  (source, KModify) ∈ mjoin (snd (watch_loop 1500 ([Notified 0 true NCreate [socket]] ++ Notified 10 true NModifyOther [source] :: [Tick 200] ++ [Tick 4600]) debounce_new)).
Proof.
  destruct (watcher_delivers_in_time 1500 [Notified 0 true NCreate [socket]] 10 NModifyOther [source] [Tick 200] 4600 source) as (H & _);
    [lia|apply Forall_singleton; simpl; lia|by left|by vm_compute|vm_compute; discriminate|exact H].
Defined.
