(* ===== verification/Transport.v ===== *)
(** * The worker transport

    Models [src/src/transport/zmq.rs]: the actor that owns the socket to one worker, its
    commands, the pending replies and stream routes, the delivery of frames with
    back-pressure, releases, sweeps and the shutdown, and the protocol that wakes the
    actor.

    The socket is an argument of the steps that send: whether it takes a message.  What
    the worker sends are messages that arrive.  A one-shot channel and a stream channel
    are named by the caller; [os_uid] and [sc_id] record what they were made for.  The
    actor runs on one thread, so that the execution of a command and the handling of a
    message are single steps; consumers, callers and delivery tasks take steps between
    them. *)

From S2P Require Import Prelude Text Errors Dispatch.
Open Scope string_scope.
Open Scope Z_scope.

(** ** Messages *)

Inductive FramePayload :=
  | FStart
  | FChunk (data : string)
  | FDone
  | FError (message : string)
  | FNone.

Record StreamResponse := {
  stream_id : string;
  fr_payload : FramePayload;
}.

Definition is_terminal (f : StreamResponse) : bool :=
  match fr_payload f with FDone | FError _ => true | _ => false end.

Definition error_frame (sid message : string) : StreamResponse := {| stream_id := sid; fr_payload := FError message |}.

Inductive StreamAction :=
  | Cancel (reason : option string) (grace_ms : option Z)
  | OtherAction.

Inductive Payload :=
  | PStream (sid : string) (action : option StreamAction)
  | PCbRemove (uid : string)
  | POther.

Record Request := {
  rq_uid : string;
  rq_payload : Payload;
}.

(** [build_stream_cancel_with]. *)
Definition build_stream_cancel_with (sid : string) (reason : option string) (grace_ms : Z) : Request :=
  {| rq_uid := "stream-cancel-" +:+ sid;
     rq_payload := PStream sid (Some (Cancel reason (if 0 <? grace_ms then Some grace_ms else None))) |}.

Definition cb_remove (uid : string) : Request := {| rq_uid := uid; rq_payload := PCbRemove uid |}.

Definition error_response (uid message : string) : Response :=
  {| rs_uid := uid;
     rs_payload := Some (RSingle {| sr_data := ""; sr_status := Some {| st_code := "Error"; st_message := message |};
                                    sr_headers := ∅; sr_status_code := 0; sr_media_type := "" |});
     rs_metrics := None |}.

(** A message of the worker: a frame of a stream, any other response, or bytes that are none. *)
Inductive Message :=
  | MStream (f : StreamResponse)
  | MUnary (r : Response)
  | MGarbage.

Inductive Command :=
  | Unary (rq : Request) (c : nat)
  | Stream (rq : Request) (d : nat) (sid : string)
  | Raw (rq : Request)
  | RouteOrStream (rq : Request) (c d : nat)
  | FailAll (reason : string)
  | GracefulCancelAll (reason : string) (grace_ms : Z)
  | Shutdown.

(** ** State *)

Inductive OneshotState :=
  | Waiting
  | Answered (r : Response)
  | SenderDropped.

Record Oneshot := {
  os_uid : string;
  os_state : OneshotState;
  os_rx : bool;                             (** the caller still holds the receiver *)
}.

Record StreamChan := {
  sc_id : string;
  sc_taken : list StreamResponse;           (** received by the consumer *)
  sc_buf : list StreamResponse;             (** in the channel *)
  sc_rx : bool;
}.

Record Actor := {
  ac_running : bool;
  ac_open : bool;                           (** the client has not been dropped *)
  ac_fatal : option string;
  ac_cmds : list Command;
  ac_pending : gmap string nat;
  ac_routes : gmap string nat;
  ac_tasks : list (nat * StreamResponse);   (** deliveries that wait for room *)
  ac_oneshots : gmap nat Oneshot;
  ac_streams : gmap nat StreamChan;
  ac_wire : list Request;                   (** handed to the socket *)
}.

Definition actor_new : Actor :=
  {| ac_running := true; ac_open := true; ac_fatal := None; ac_cmds := []; ac_pending := ∅; ac_routes := ∅;
     ac_tasks := []; ac_oneshots := ∅; ac_streams := ∅; ac_wire := [] |}.

Definition set_cmds (l : list Command) (a : Actor) : Actor :=
  {| ac_running := ac_running a; ac_open := ac_open a; ac_fatal := ac_fatal a; ac_cmds := l; ac_pending := ac_pending a;
     ac_routes := ac_routes a; ac_tasks := ac_tasks a; ac_oneshots := ac_oneshots a; ac_streams := ac_streams a;
     ac_wire := ac_wire a |}.

Definition set_pending (p : gmap string nat) (a : Actor) : Actor :=
  {| ac_running := ac_running a; ac_open := ac_open a; ac_fatal := ac_fatal a; ac_cmds := ac_cmds a; ac_pending := p;
     ac_routes := ac_routes a; ac_tasks := ac_tasks a; ac_oneshots := ac_oneshots a; ac_streams := ac_streams a;
     ac_wire := ac_wire a |}.

Definition set_routes (r : gmap string nat) (a : Actor) : Actor :=
  {| ac_running := ac_running a; ac_open := ac_open a; ac_fatal := ac_fatal a; ac_cmds := ac_cmds a;
     ac_pending := ac_pending a; ac_routes := r; ac_tasks := ac_tasks a; ac_oneshots := ac_oneshots a;
     ac_streams := ac_streams a; ac_wire := ac_wire a |}.

Definition set_tasks (t : list (nat * StreamResponse)) (a : Actor) : Actor :=
  {| ac_running := ac_running a; ac_open := ac_open a; ac_fatal := ac_fatal a; ac_cmds := ac_cmds a;
     ac_pending := ac_pending a; ac_routes := ac_routes a; ac_tasks := t; ac_oneshots := ac_oneshots a;
     ac_streams := ac_streams a; ac_wire := ac_wire a |}.

Definition set_oneshots (o : gmap nat Oneshot) (a : Actor) : Actor :=
  {| ac_running := ac_running a; ac_open := ac_open a; ac_fatal := ac_fatal a; ac_cmds := ac_cmds a;
     ac_pending := ac_pending a; ac_routes := ac_routes a; ac_tasks := ac_tasks a; ac_oneshots := o;
     ac_streams := ac_streams a; ac_wire := ac_wire a |}.

Definition set_streams (s : gmap nat StreamChan) (a : Actor) : Actor :=
  {| ac_running := ac_running a; ac_open := ac_open a; ac_fatal := ac_fatal a; ac_cmds := ac_cmds a;
     ac_pending := ac_pending a; ac_routes := ac_routes a; ac_tasks := ac_tasks a; ac_oneshots := ac_oneshots a;
     ac_streams := s; ac_wire := ac_wire a |}.

Definition send_wire (rq : Request) (a : Actor) : Actor :=
  {| ac_running := ac_running a; ac_open := ac_open a; ac_fatal := ac_fatal a; ac_cmds := ac_cmds a;
     ac_pending := ac_pending a; ac_routes := ac_routes a; ac_tasks := ac_tasks a; ac_oneshots := ac_oneshots a;
     ac_streams := ac_streams a; ac_wire := (ac_wire a ++ [rq])%list |}.

(** ** Channels *)

(** [tx.send(r)] on a one-shot channel: lost if the receiver is gone. *)
Definition answer1 (r : Response) (o : Oneshot) : Oneshot :=
  {| os_uid := os_uid o; os_rx := os_rx o;
     os_state := match os_state o with Waiting => if os_rx o then Answered r else SenderDropped | s => s end |}.

Definition drop1 (o : Oneshot) : Oneshot :=
  {| os_uid := os_uid o; os_rx := os_rx o; os_state := match os_state o with Waiting => SenderDropped | s => s end |}.

Definition answer (c : nat) (r : Response) (a : Actor) : Actor := set_oneshots (alter (answer1 r) c (ac_oneshots a)) a.
Definition drop_sender (c : nat) (a : Actor) : Actor := set_oneshots (alter drop1 c (ac_oneshots a)) a.

(** The sender that a key of [pending] held is dropped. *)
Definition forget_pending (uid : string) (a : Actor) : Actor :=
  match ac_pending a !! uid with
  | Some c => drop_sender c (set_pending (delete uid (ac_pending a)) a)
  | None => a
  end.

Definition insert_pending (uid : string) (c : nat) (a : Actor) : Actor :=
  let a := forget_pending uid a in set_pending (<[uid := c]> (ac_pending a)) a.

Definition push_frame (f : StreamResponse) (ch : StreamChan) : StreamChan :=
  {| sc_id := sc_id ch; sc_taken := sc_taken ch; sc_buf := (sc_buf ch ++ [f])%list; sc_rx := sc_rx ch |}.

Inductive TrySend := Sent | Full | Closed.

Section transport.
Context (size : nat).                       (** [stream_channel_size] *)

Definition room (ch : StreamChan) : bool := Nat.ltb (length (sc_buf ch)) (Nat.max 1 size).

(** [try_send]; a channel that does not exist has no receiver. *)
Definition try_send (d : nat) (f : StreamResponse) (a : Actor) : TrySend * Actor :=
  match ac_streams a !! d with
  | None => (Closed, a)
  | Some ch =>
      if negb (sc_rx ch) then (Closed, a)
      else if room ch then (Sent, set_streams (<[d := push_frame f ch]> (ac_streams a)) a)
      else (Full, a)
  end.

(** ** Commands *)

Definition release_stream_routes (reason : string) (a : Actor) : Actor :=
  set_routes ∅ (set_tasks (ac_tasks a ++ map (fun sd => (snd sd, error_frame (fst sd) reason)) (map_to_list (ac_routes a)))%list a).

Definition answer_pending (reason : string) (a : Actor) : Actor :=
  set_pending ∅ (foldl (fun a uc => answer (snd uc) (error_response (fst uc) reason) a) a (map_to_list (ac_pending a))).

Definition is_cancel (rq : Request) : option string :=
  match rq_payload rq with PStream sid (Some (Cancel _ _)) => Some sid | _ => None end.

Definition send_if (ok : Request -> bool) (rq : Request) (a : Actor) : Actor := if ok rq then send_wire rq a else a.

(** One command; [ok] says which messages the socket takes.  [Shutdown] is not executed but
    ends the drain. *)
Definition exec_command (ok : Request -> bool) (cmd : Command) (a : Actor) : Actor :=
  match cmd with
  | Unary rq c =>
      if ok rq then insert_pending (rq_uid rq) c (send_wire rq a)
      else answer c (error_response (rq_uid rq) "ZMQ send") a
  | Stream rq d sid =>
      if ok rq then set_routes (<[sid := d]> (ac_routes a)) (send_wire rq a)
      else snd (try_send d (error_frame sid "ZMQ send") a)
  | Raw rq =>
      let a := match is_cancel rq with
               | Some sid => forget_pending sid (set_routes (delete sid (ac_routes a)) a)
               | None => a
               end in
      send_if ok rq a
  | RouteOrStream rq c d =>
      if ok rq then
        let a := insert_pending (rq_uid rq) c (send_wire rq a) in
        set_routes (<[rq_uid rq := d]> (ac_routes a)) a
      else answer c (error_response (rq_uid rq) "ZMQ send") a
  | FailAll reason => release_stream_routes reason (answer_pending reason a)
  | GracefulCancelAll reason grace_ms =>
      foldl (fun a sid => send_if ok (build_stream_cancel_with sid (Some reason) grace_ms) a) a (map fst (map_to_list (ac_routes a)))
  | Shutdown => a
  end.

(** The channels a command carries. *)
Definition cmd_oneshot (cmd : Command) : option (nat * string) :=
  match cmd with
  | Unary rq c | RouteOrStream rq c _ => Some (c, rq_uid rq)
  | _ => None
  end.

Definition cmd_stream (cmd : Command) : option (nat * string) :=
  match cmd with
  | Stream _ d sid => Some (d, sid)
  | RouteOrStream rq _ d => Some (d, rq_uid rq)
  | _ => None
  end.

(** The actor returns: the commands it has not taken are dropped with what they carry. *)
Definition actor_exit (fatal : option string) (a : Actor) : Actor :=
  let a := foldl (fun a cmd => match cmd_oneshot cmd with Some (c, _) => drop_sender c a | None => a end) a (ac_cmds a) in
  {| ac_running := false; ac_open := ac_open a; ac_fatal := fatal; ac_cmds := []; ac_pending := ac_pending a;
     ac_routes := ac_routes a; ac_tasks := ac_tasks a; ac_oneshots := ac_oneshots a; ac_streams := ac_streams a;
     ac_wire := ac_wire a |}.

Definition teardown (a : Actor) : Actor :=
  actor_exit (ac_fatal a) (release_stream_routes "Worker shutting down" (answer_pending "Worker shutting down" a)).

(** One turn of [drain_commands]: the next command, or the end of the actor. *)
Definition drain_one (ok : Request -> bool) (a : Actor) : option Actor :=
  match ac_cmds a with
  | Shutdown :: cmds => Some (teardown (set_cmds cmds a))
  | cmd :: cmds => Some (exec_command ok cmd (set_cmds cmds a))
  | [] => if ac_open a then None else Some (teardown a)
  end.

(** ** Messages of the worker *)

Definition truncated (sid : string) : StreamResponse := error_frame sid "stream truncated: consumer too slow (channel overflow)".

Definition on_stream (f : StreamResponse) (a : Actor) : Actor :=
  let sid := stream_id f in
  let a :=
    match ac_routes a !! sid with
    | None => a
    | Some d =>
        match try_send d f a with
        | (Sent, a) => if is_terminal f then set_routes (delete sid (ac_routes a)) a else a
        | (Full, a) => set_routes (delete sid (ac_routes a)) (set_tasks (ac_tasks a ++ [(d, truncated sid)])%list a)
        | (Closed, a) => set_routes (delete sid (ac_routes a)) a
        end
    end in
  if is_terminal f then forget_pending sid a else a.

Definition on_message (msg : Message) (a : Actor) : Actor :=
  match msg with
  | MStream f => on_stream f a
  | MUnary r =>
      match ac_pending a !! rs_uid r with
      | Some c => answer c r (set_routes (delete (rs_uid r) (ac_routes a)) (set_pending (delete (rs_uid r) (ac_pending a)) a))
      | None => a
      end
  | MGarbage => a
  end.

(** ** The sweep *)

Definition caller_gone (a : Actor) (c : nat) : bool :=
  match ac_oneshots a !! c with Some o => negb (os_rx o) | None => true end.

Definition consumer_gone (a : Actor) (d : nat) : bool :=
  match ac_streams a !! d with Some ch => negb (sc_rx ch) | None => true end.

Definition dead_pending (a : Actor) : list (string * nat) :=
  map_to_list (filter (fun uc => caller_gone a (snd uc) = true) (ac_pending a)).

Definition sweep (is_cb : bool) (ok : Request -> bool) (a : Actor) : Actor :=
  let evicted := dead_pending a in
  let b := foldl (fun a uc => drop_sender (snd uc) a) a evicted in
  let b := set_pending (filter (fun uc => caller_gone a (snd uc) = false) (ac_pending a)) b in
  let b := if is_cb then foldl (fun a uc => send_if ok (cb_remove (fst uc)) a) b evicted else b in
  set_routes (filter (fun sd => consumer_gone a (snd sd) = false) (ac_routes a)) b.

(** ** Callers, consumers and delivery tasks *)

Definition command_capacity : nat := 128.

Definition fresh_oneshot (uid : string) : Oneshot := {| os_uid := uid; os_state := Waiting; os_rx := true |}.
Definition fresh_stream (sid : string) : StreamChan := {| sc_id := sid; sc_taken := []; sc_buf := []; sc_rx := true |}.

Definition closed_error : AppError := Transport "ZMQ command channel closed".

(** The channels a caller makes for a command, queued with it.  [None]: the caller waits for
    room. *)
Definition enqueue (cmd : Command) (a : Actor) : option (result AppError Actor) :=
  match ac_fatal a with
  | Some e => Some (Err (Transport e))
  | None =>
      if negb (ac_running a) then Some (Err closed_error)
      else if Nat.leb command_capacity (length (ac_cmds a)) then None
      else
        let a := set_cmds (ac_cmds a ++ [cmd])%list a in
        let a := match cmd_oneshot cmd with
                 | Some (c, uid) => set_oneshots (<[c := fresh_oneshot uid]> (ac_oneshots a)) a
                 | None => a
                 end in
        Some (Ok (match cmd_stream cmd with
                  | Some (d, sid) => set_streams (<[d := fresh_stream sid]> (ac_streams a)) a
                  | None => a
                  end))
  end.

(** [fail_all] and [graceful_cancel_all]: [try_send], given up when the channel is full or closed. *)
Definition try_enqueue (cmd : Command) (a : Actor) : Actor :=
  if negb (ac_running a) || Nat.leb command_capacity (length (ac_cmds a)) then a else set_cmds (ac_cmds a ++ [cmd])%list a.

(** The delivery task of a channel waits for room, or gives up. *)
Definition remove_task (d : nat) (a : Actor) : Actor := set_tasks (filter (fun t => fst t <> d) (ac_tasks a)) a.

Fixpoint find_task (d : nat) (tasks : list (nat * StreamResponse)) : option StreamResponse :=
  match tasks with
  | [] => None
  | (d', f) :: tasks => if Nat.eqb d d' then Some f else find_task d tasks
  end.

Definition deliver (d : nat) (a : Actor) : option Actor :=
  match find_task d (ac_tasks a) with
  | None => None
  | Some f =>
      match try_send d f a with
      | (Full, _) => None
      | (_, a) => Some (remove_task d a)
      end
  end.

(** [chunk_rx.recv()]: the next frame. *)
Definition take_frame (ch : StreamChan) : option StreamChan :=
  match sc_buf ch with
  | [] => None
  | f :: buf => Some {| sc_id := sc_id ch; sc_taken := (sc_taken ch ++ [f])%list; sc_buf := buf; sc_rx := sc_rx ch |}
  end.

Definition hang_up (ch : StreamChan) : StreamChan :=
  {| sc_id := sc_id ch; sc_taken := sc_taken ch; sc_buf := sc_buf ch; sc_rx := false |}.

Definition abandon (o : Oneshot) : Oneshot := {| os_uid := os_uid o; os_state := os_state o; os_rx := false |}.

(** What a caller of [send_with_timeout] gets once it stops waiting. *)
Definition unary_result (timed_out : bool) (o : Oneshot) : option (result AppError Response) :=
  match os_state o with
  | Answered r => Some (Ok r)
  | SenderDropped => Some (Err (Transport "ZMQ response channel closed"))
  | Waiting => if timed_out then Some (Err (Errors.InferenceTimeout "ZMQ response timeout")) else None
  end.

(** ** Steps *)

Inductive Action :=
  | Submit (cmd : Command)
  | DrainOne (ok : Request -> bool)
  | Receive (msg : Message)
  | Sweep (is_cb : bool) (ok : Request -> bool)
  | Deliver (d : nat)
  | Expire (d : nat)
  | Consume (d : nat)
  | HangUp (d : nat)
  | GiveUp (c : nat)
  | DropClient
  | FatalReturn (msg : string).

(** The channels of a command are new. *)
Definition new_channels (cmd : Command) (a : Actor) : bool :=
  match cmd_oneshot cmd with Some (c, _) => negb (is_some (ac_oneshots a !! c)) | None => true end
  && match cmd_stream cmd with Some (d, _) => negb (is_some (ac_streams a !! d)) | None => true end.

Definition is_try (cmd : Command) : bool := match cmd with FailAll _ | GracefulCancelAll _ _ => true | _ => false end.

(** [None] when the step cannot be taken. *)
Definition astep (act : Action) (a : Actor) : option Actor :=
  match act with
  | Submit cmd =>
      if negb (ac_open a) then None
      else if is_try cmd then Some (try_enqueue cmd a)
      else if negb (new_channels cmd a) then None
      else match enqueue cmd a with
           | Some (Ok a) => Some a
           | Some (Err _) => Some a
           | None => None
           end
  | DrainOne ok => if ac_running a then drain_one ok a else None
  | Receive msg => if ac_running a then Some (on_message msg a) else None
  | Sweep is_cb ok => if ac_running a then Some (sweep is_cb ok a) else None
  | Deliver d => deliver d a
  | Expire d => Some (remove_task d a)
  | Consume d => match ac_streams a !! d with
                 | Some ch => (fun ch => set_streams (<[d := ch]> (ac_streams a)) a) <$> take_frame ch
                 | None => None
                 end
  | HangUp d => Some (set_streams (alter hang_up d (ac_streams a)) a)
  | GiveUp c => Some (set_oneshots (alter abandon c (ac_oneshots a)) a)
  | DropClient =>
      Some {| ac_running := ac_running a; ac_open := false; ac_fatal := ac_fatal a; ac_cmds := ac_cmds a;
              ac_pending := ac_pending a; ac_routes := ac_routes a; ac_tasks := ac_tasks a;
              ac_oneshots := ac_oneshots a; ac_streams := ac_streams a; ac_wire := ac_wire a |}
  | FatalReturn msg =>
      (** before the loop: nothing was sent *)
      if ac_running a && bool_decide (ac_wire a = []) && bool_decide (ac_pending a = ∅) && bool_decide (ac_routes a = ∅)
      then Some (actor_exit (Some msg) a) else None
  end.

Fixpoint arun (acts : list Action) (a : Actor) : option Actor :=
  match acts with
  | [] => Some a
  | act :: acts => match astep act a with Some a => arun acts a | None => None end
  end.
End transport.

(** ** Waking the actor *)

(** What the wake-up uses: queued commands, the flag [actor_asleep], the bytes in the wake
    pair, the client, and where the actor and the senders are. *)
Inductive ActorPc := ADrain | AStore | ACheck | APoll.

Record Wake := {
  wk_queue : nat;
  wk_open : bool;
  wk_asleep : bool;
  wk_bytes : nat;
  wk_actor : ActorPc;
  wk_looking : nat;                         (** senders between their command and the flag *)
  wk_waking : nat;                          (** senders that saw the flag set *)
}.

Definition wake_new : Wake :=
  {| wk_queue := 0; wk_open := true; wk_asleep := false; wk_bytes := 0; wk_actor := ADrain; wk_looking := 0; wk_waking := 0 |}.

Inductive WakeAction :=
  | WPush                                   (** a command is queued *)
  | WClose                                  (** the command channel is closed, by the drop of the client *)
  | WLook                                   (** [wake_actor] reads the flag *)
  | WByte (sent : bool)                     (** and sends a byte *)
  | WTake                                   (** the actor takes a command *)
  | WDrained                                (** it finds none *)
  | WStore                                  (** [asleep := true] *)
  | WCheck                                  (** the second look at the queue *)
  | WWoken                                  (** the poll returns for a byte *)
  | WOther.                                 (** the poll returns for the worker, or at its timeout *)

Definition set_actor (pc : ActorPc) (asleep : bool) (bytes : nat) (w : Wake) : Wake :=
  {| wk_queue := wk_queue w; wk_open := wk_open w; wk_asleep := asleep; wk_bytes := bytes; wk_actor := pc;
     wk_looking := wk_looking w; wk_waking := wk_waking w |}.

Definition wstep (act : WakeAction) (w : Wake) : option Wake :=
  match act, wk_actor w with
  | WPush, _ =>
      Some {| wk_queue := S (wk_queue w); wk_open := wk_open w; wk_asleep := wk_asleep w; wk_bytes := wk_bytes w;
              wk_actor := wk_actor w; wk_looking := S (wk_looking w); wk_waking := wk_waking w |}
  | WClose, _ =>
      Some {| wk_queue := wk_queue w; wk_open := false; wk_asleep := wk_asleep w; wk_bytes := wk_bytes w;
              wk_actor := wk_actor w; wk_looking := S (wk_looking w); wk_waking := wk_waking w |}
  | WLook, _ =>
      match wk_looking w with
      | O => None
      | S n => Some {| wk_queue := wk_queue w; wk_open := wk_open w; wk_asleep := wk_asleep w; wk_bytes := wk_bytes w;
                       wk_actor := wk_actor w; wk_looking := n; wk_waking := if wk_asleep w then S (wk_waking w) else wk_waking w |}
      end
  | WByte sent, _ =>
      match wk_waking w with
      | O => None
      | S n => (** a byte is refused only by a pair that is full *)
          if sent || Nat.ltb 0 (wk_bytes w) then
            Some {| wk_queue := wk_queue w; wk_open := wk_open w; wk_asleep := wk_asleep w;
                    wk_bytes := if sent then S (wk_bytes w) else wk_bytes w; wk_actor := wk_actor w;
                    wk_looking := wk_looking w; wk_waking := n |}
          else None
      end
  | WTake, ADrain =>
      match wk_queue w with
      | O => None
      | S n => Some {| wk_queue := n; wk_open := wk_open w; wk_asleep := wk_asleep w; wk_bytes := wk_bytes w;
                       wk_actor := ADrain; wk_looking := wk_looking w; wk_waking := wk_waking w |}
      end
  | WDrained, ADrain => if Nat.eqb (wk_queue w) 0 && wk_open w then Some (set_actor AStore (wk_asleep w) (wk_bytes w) w) else None
  | WStore, AStore => Some (set_actor ACheck true (wk_bytes w) w)
  | WCheck, ACheck =>
      Some (if Nat.eqb (wk_queue w) 0 then set_actor APoll (wk_asleep w) (wk_bytes w) w else set_actor ADrain false (wk_bytes w) w)
  | WWoken, APoll => if Nat.ltb 0 (wk_bytes w) then Some (set_actor ADrain false 0 w) else None
  | WOther, APoll => Some (set_actor ADrain false (wk_bytes w) w)
  | _, _ => None
  end.

Fixpoint wrun (acts : list WakeAction) (w : Wake) : option Wake :=
  match acts with
  | [] => Some w
  | act :: acts => match wstep act w with Some w => wrun acts w | None => None end
  end.
