(* ===== verification/TransportProps.v ===== *)
(** * Properties of the worker transport

    About [Transport.v]: every caller that waits is held by the actor exactly once, so that
    none is forgotten and each is answered with a reply to its own request; frames reach
    their consumer in order and a stream that ends says why; and the actor does not sleep
    on a queued command. *)

From S2P Require Import Prelude Text Errors Dispatch Transport.
Open Scope string_scope.
Open Scope Z_scope.

(** ** Who holds a channel *)

Definition swap {A B} (x : A * B) : B * A := (snd x, fst x).

(** The senders of one-shot channels, with the uid they are held for. *)
Definition holders (a : Actor) : list (nat * string) :=
  (omap cmd_oneshot (ac_cmds a) ++ map swap (map_to_list (ac_pending a)))%list.

(** The senders of stream channels: in commands, in routes and in delivery tasks. *)
Definition stream_holders (a : Actor) : list (nat * string) :=
  (omap cmd_stream (ac_cmds a) ++ map swap (map_to_list (ac_routes a))
   ++ map (fun t => (fst t, stream_id (snd t))) (ac_tasks a))%list.

(** ** One-shot channels *)

(** The channels that wait are those that are held, each once, and a reply is one to the
    request the channel was made for. *)
Record settled_or_held (H : list (nat * string)) (os : gmap nat Oneshot) : Prop := {
  oh_once : NoDup H.*1;
  oh_held : forall c uid, (c, uid) ∈ H <-> exists o, os !! c = Some o /\ os_uid o = uid /\ os_state o = Waiting;
  oh_own : forall c o r, os !! c = Some o -> os_state o = Answered r -> rs_uid r = os_uid o;
}.

#[export] Instance settled_or_held_proper : Proper ((≡ₚ) ==> eq ==> iff) settled_or_held.
Proof.
  assert (forall H H' os, H ≡ₚ H' -> settled_or_held H os -> settled_or_held H' os) as Himp.
  { intros H H' os Hp [H1 H2 H3]. split; [by rewrite <- Hp|intros c uid; by rewrite <- Hp|done]. }
  intros H H' Hp os os' ->. split; apply Himp; [done|by symmetry].
Qed.

Lemma settled_perm H H' os : settled_or_held H os -> H' ≡ₚ H -> settled_or_held H' os.
Proof. by intros ? ->. Qed.

(** What ends the wait of a channel made for [uid]. *)
Definition settles (uid : string) (f : Oneshot -> Oneshot) : Prop :=
  forall o, os_uid o = uid -> os_state o = Waiting ->
    os_uid (f o) = uid /\ os_state (f o) <> Waiting /\ forall r, os_state (f o) = Answered r -> rs_uid r = uid.

Lemma answer1_settles r : settles (rs_uid r) (answer1 r).
Proof. intros o Hu Hw. unfold answer1. simpl. rewrite Hw. destruct (os_rx o); naive_solver. Qed.

Lemma drop1_settles uid : settles uid drop1.
Proof. intros o Hu Hw. unfold drop1. simpl. rewrite Hw. naive_solver. Qed.

Lemma settle_one c uid H os f :
  settled_or_held ((c, uid) :: H) os -> settles uid f -> settled_or_held H (alter f c os).
Proof.
  intros [H1 H2 H3] Hf. simpl in H1. apply NoDup_cons in H1 as [Hout H1].
  destruct (proj1 (H2 c uid) ltac:(by left)) as (o & Ho & Hu & Hw). destruct (Hf o Hu Hw) as (Hfu & Hfw & Hfa). split; [done| |].
  - intros c' uid'. destruct (decide (c' = c)) as [->|Hne].
    + rewrite lookup_alter_eq, Ho. simpl. split; [|naive_solver]. intros Hin. destruct Hout. apply list_elem_of_fmap. by exists (c, uid').
    + rewrite lookup_alter_ne by done. rewrite <- H2, elem_of_cons. naive_solver.
  - intros c' o' r. destruct (decide (c' = c)) as [->|Hne]; [|rewrite lookup_alter_ne by done; apply H3].
    rewrite lookup_alter_eq, Ho. simpl. intros [= <-] Ha. rewrite Hfu. by apply Hfa.
Qed.

Lemma settle_each {A} (l : list A) (key : A -> nat * string) (f : A -> Oneshot -> Oneshot) H os :
  settled_or_held (map key l ++ H)%list os -> (forall x, settles (snd (key x)) (f x)) ->
  settled_or_held H (foldl (fun os x => alter (f x) (fst (key x)) os) os l).
Proof.
  intros Hs Hf. revert os Hs. induction l as [|x l IH]; intros os Hs; simpl; [done|].
  apply IH. apply (settle_one (fst (key x)) (snd (key x))); [|done]. by rewrite <- surjective_pairing.
Qed.

Lemma hold_new c uid H os : settled_or_held H os -> os !! c = None -> settled_or_held ((c, uid) :: H) (<[c := fresh_oneshot uid]> os).
Proof.
  intros [H1 H2 H3] Hn. split.
  - simpl. apply NoDup_cons. split; [|done]. intros ([c' uid'] & -> & Hin)%list_elem_of_fmap. simpl in Hn.
    apply H2 in Hin as (o & Ho & _). congruence.
  - intros c' uid'. rewrite elem_of_cons, H2. destruct (decide (c' = c)) as [->|Hne].
    + rewrite lookup_insert_eq, Hn. split; [intros [[= ->]|(o & ? & _)]; [|done]; by eexists|]. intros (o & [= <-] & <- & _). by left.
    + rewrite lookup_insert_ne by done. naive_solver.
  - intros c' o r. destruct (decide (c' = c)) as [->|Hne]; [rewrite lookup_insert_eq; by intros [= <-]|].
    rewrite lookup_insert_ne by done. apply H3.
Qed.

Lemma abandon_holds c H os : settled_or_held H os -> settled_or_held H (alter abandon c os).
Proof.
  intros [H1 H2 H3]. split; [done| |].
  - intros c' uid. rewrite H2. destruct (decide (c' = c)) as [->|Hne]; [|by rewrite lookup_alter_ne].
    rewrite lookup_alter_eq. destruct (os !! c) as [o|]; simpl; [|naive_solver]. split; [intros (o' & [= ->] & ? & ?)|intros (o' & [= <-] & ? & ?)]; eauto.
  - intros c' o r. destruct (decide (c' = c)) as [->|Hne]; [|rewrite lookup_alter_ne by done; apply H3].
    rewrite lookup_alter_eq. destruct (os !! c) as [o0|] eqn:Ho; [|done]. simpl. intros [= <-]. simpl. by eapply H3.
Qed.

(** ** Stream channels *)

Definition frames (ch : StreamChan) : list StreamResponse := (sc_taken ch ++ sc_buf ch)%list.

Definition running_frames (l : list StreamResponse) : Prop := Forall (fun f => is_terminal f = false) l.

(** A terminal frame is the last one. *)
Definition well_ended (l : list StreamResponse) : Prop :=
  running_frames l \/ exists l' t, l = (l' ++ [t])%list /\ running_frames l' /\ is_terminal t = true.

(** A stream is held at most once; its frames are its own; while it is held none is terminal. *)
Record streams_ok (H : list (nat * string)) (ss : gmap nat StreamChan) : Prop := {
  sh_once : NoDup H.*1;
  sh_held : forall d sid, (d, sid) ∈ H -> exists ch, ss !! d = Some ch /\ sc_id ch = sid /\ running_frames (frames ch);
  sh_own : forall d ch f, ss !! d = Some ch -> f ∈ frames ch -> stream_id f = sc_id ch;
  sh_ended : forall d ch, ss !! d = Some ch -> well_ended (frames ch);
}.

#[export] Instance streams_ok_proper : Proper ((≡ₚ) ==> eq ==> iff) streams_ok.
Proof.
  assert (forall H H' ss, H ≡ₚ H' -> streams_ok H ss -> streams_ok H' ss) as Himp.
  { intros H H' ss Hp [H1 H2 H3 H4]. split; [by rewrite <- Hp|intros d sid; rewrite <- Hp; apply H2|done..]. }
  intros H H' Hp ss ss' ->. split; apply Himp; [done|by symmetry].
Qed.

Lemma streams_perm H H' ss : streams_ok H ss -> H' ≡ₚ H -> streams_ok H' ss.
Proof. by intros ? ->. Qed.

Lemma stream_release H K ss : streams_ok (H ++ K)%list ss -> streams_ok K ss.
Proof.
  intros [H1 H2 H3 H4]. rewrite fmap_app in H1. apply NoDup_app in H1 as (_ & _ & H1).
  split; [done| |done..]. intros d sid Hin. apply H2. apply elem_of_app. by right.
Qed.

Lemma stream_new d sid H ss : streams_ok H ss -> ss !! d = None -> streams_ok ((d, sid) :: H) (<[d := fresh_stream sid]> ss).
Proof.
  intros [H1 H2 H3 H4] Hn. split.
  - simpl. apply NoDup_cons. split; [|done]. intros ([d' sid'] & -> & Hin)%list_elem_of_fmap. simpl in Hn.
    apply H2 in Hin as (ch & Ho & _). congruence.
  - intros d' sid' [[= -> ->]|Hin]%elem_of_cons; [rewrite lookup_insert_eq; eexists; split; [done|split; [done|constructor]]|].
    destruct (H2 d' sid' Hin) as (ch & Hc & Hr). rewrite lookup_insert_ne by congruence. eauto.
  - intros d' ch f. destruct (decide (d' = d)) as [->|Hne]; [rewrite lookup_insert_eq; intros [= <-] []%elem_of_nil|].
    rewrite lookup_insert_ne by done. apply H3.
  - intros d' ch. destruct (decide (d' = d)) as [->|Hne]; [rewrite lookup_insert_eq; intros [= <-]; left; constructor|].
    rewrite lookup_insert_ne by done. apply H4.
Qed.

Lemma frames_push f ch : frames (push_frame f ch) = (frames ch ++ [f])%list.
Proof. unfold frames. simpl. by rewrite (assoc_L (++)). Qed.

(** A frame of the stream is pushed by whoever holds it, who keeps it only if the frame is
    not terminal. *)
Lemma stream_push d sid f ch H ss :
  streams_ok ((d, sid) :: H) ss -> ss !! d = Some ch -> stream_id f = sid ->
  streams_ok (if is_terminal f then H else (d, sid) :: H) (<[d := push_frame f ch]> ss).
Proof.
  intros [H1 H2 H3 H4] Hch Hf. destruct (H2 d sid ltac:(by left)) as (ch' & Hch' & Hid & Hrun). simplify_eq.
  pose proof H1 as Hnd. simpl in H1. apply NoDup_cons in H1 as [Hout H1]. split.
  - by destruct (is_terminal f).
  - intros d' sid' Hin. destruct (decide (d' = d)) as [->|Hne].
    + rewrite lookup_insert_eq. destruct (is_terminal f) eqn:Hterm.
      { destruct Hout. apply list_elem_of_fmap. by exists (d, sid'). }
      assert (sid' = sc_id ch) as ->.
      { apply elem_of_cons in Hin as [[= ->]|Hin]; [done|]. destruct Hout. apply list_elem_of_fmap. by exists (d, sid'). }
      eexists. split; [done|]. split; [done|]. rewrite frames_push. apply Forall_app. split; [done|]. by apply Forall_singleton.
    + rewrite lookup_insert_ne by done. apply H2. destruct (is_terminal f); [by right|done].
  - intros d' ch' g. destruct (decide (d' = d)) as [->|Hne]; [|rewrite lookup_insert_ne by done; apply H3].
    rewrite lookup_insert_eq. intros [= <-]. rewrite frames_push, elem_of_app, list_elem_of_singleton. simpl.
    intros [Hg| ->]; [by eapply H3|done].
  - intros d' ch'. destruct (decide (d' = d)) as [->|Hne]; [|rewrite lookup_insert_ne by done; apply H4].
    rewrite lookup_insert_eq. intros [= <-]. rewrite frames_push. destruct (is_terminal f) eqn:Ht; [right; eauto|left].
    apply Forall_app. split; [done|]. by apply Forall_singleton.
Qed.

(** Consumers do not change what was sent. *)
Lemma stream_same d ch ch' H ss :
  streams_ok H ss -> ss !! d = Some ch -> sc_id ch' = sc_id ch -> frames ch' = frames ch -> streams_ok H (<[d := ch']> ss).
Proof.
  intros [H1 H2 H3 H4] Hch Hid Hfr. split; [done| | |].
  - intros d' sid Hin. destruct (H2 d' sid Hin) as (c & Hc & Hi & Hr). destruct (decide (d' = d)) as [->|Hne].
    + rewrite lookup_insert_eq. simplify_eq. eexists. split; [done|]. by rewrite Hid, Hfr.
    + rewrite lookup_insert_ne by done. eauto.
  - intros d' c f. destruct (decide (d' = d)) as [->|Hne]; [|rewrite lookup_insert_ne by done; apply H3].
    rewrite lookup_insert_eq. intros [= <-]. rewrite Hid, Hfr. by eapply H3.
  - intros d' c. destruct (decide (d' = d)) as [->|Hne]; [|rewrite lookup_insert_ne by done; apply H4].
    rewrite lookup_insert_eq. intros [= <-]. rewrite Hfr. by eapply H4.
Qed.

(** ** The invariant *)

(** [E] and [F] are the channels the actor has in hand besides those it has stored. *)
Record holds (E F : list (nat * string)) (a : Actor) : Prop := {
  hd_one : settled_or_held (E ++ holders a)%list (ac_oneshots a);
  hd_str : streams_ok (F ++ stream_holders a)%list (ac_streams a);
  hd_task : Forall (fun t => is_terminal (snd t) = true) (ac_tasks a);
}.

Lemma holders_forget uid c a :
  ac_pending a !! uid = Some c -> holders a ≡ₚ (c, uid) :: holders (set_pending (delete uid (ac_pending a)) a).
Proof.
  intros Hp. unfold holders. simpl. rewrite <- (map_to_list_delete _ _ _ Hp). simpl. symmetry. apply Permutation_middle.
Qed.

Lemma holders_insert uid c a :
  ac_pending a !! uid = None -> holders (set_pending (<[uid := c]> (ac_pending a)) a) ≡ₚ (c, uid) :: holders a.
Proof. intros Hp. unfold holders. simpl. rewrite map_to_list_insert by done. simpl. symmetry. apply Permutation_middle. Qed.

Lemma routes_forget sid d a :
  ac_routes a !! sid = Some d -> stream_holders a ≡ₚ (d, sid) :: stream_holders (set_routes (delete sid (ac_routes a)) a).
Proof.
  intros Hr. unfold stream_holders. simpl. rewrite <- (map_to_list_delete _ _ _ Hr). simpl. symmetry. apply Permutation_middle.
Qed.

Lemma routes_insert sid d a :
  ac_routes a !! sid = None -> stream_holders (set_routes (<[sid := d]> (ac_routes a)) a) ≡ₚ (d, sid) :: stream_holders a.
Proof. intros Hp. unfold stream_holders. simpl. rewrite map_to_list_insert by done. simpl. symmetry. apply Permutation_middle. Qed.

Lemma holds_drop_stream E F x a : holds E (x :: F) a -> holds E F a.
Proof. intros [H1 H2 H3]. split; [done| |done]. by apply (stream_release [x]) in H2. Qed.

Lemma holds_answer E F c r a : holds ((c, rs_uid r) :: E) F a -> holds E F (answer c r a).
Proof. intros [H1 H2 H3]. split; [|done..]. by eapply settle_one; [|apply answer1_settles]. Qed.

Lemma holds_drop_sender E F c uid a : holds ((c, uid) :: E) F a -> holds E F (drop_sender c a).
Proof. intros [H1 H2 H3]. split; [|done..]. by eapply settle_one; [|apply drop1_settles]. Qed.

Lemma holds_delete_pending E F uid c a :
  holds E F a -> ac_pending a !! uid = Some c -> holds ((c, uid) :: E) F (set_pending (delete uid (ac_pending a)) a).
Proof.
  intros [H1 H2 H3] Hp. split; [|done..]. cbn [ac_oneshots set_pending]. rewrite (holders_forget uid c a Hp) in H1.
  simpl. by rewrite <- Permutation_middle in H1.
Qed.

Lemma holds_forget_pending E F uid a : holds E F a -> holds E F (forget_pending uid a).
Proof.
  intros Ha. unfold forget_pending. destruct (ac_pending a !! uid) as [c|] eqn:Hp; [|done].
  eapply holds_drop_sender. by eapply holds_delete_pending.
Qed.

Lemma forget_pending_None uid a : ac_pending (forget_pending uid a) !! uid = None.
Proof. unfold forget_pending. destruct (ac_pending a !! uid) eqn:Hp; [simpl; by rewrite lookup_delete_eq|done]. Qed.

Lemma holds_insert_pending E F uid c a : holds ((c, uid) :: E) F a -> holds E F (insert_pending uid c a).
Proof.
  intros Ha%(holds_forget_pending _ _ uid). pose proof (forget_pending_None uid a) as Hn. unfold insert_pending.
  set (b := forget_pending uid a) in *. destruct Ha as [H1 H2 H3]. split; [|done..]. simpl.
  rewrite holders_insert by done. by rewrite <- Permutation_middle.
Qed.

Lemma holds_delete_route E F sid a : holds E F a -> holds E F (set_routes (delete sid (ac_routes a)) a).
Proof.
  intros [H1 H2 H3]. destruct (ac_routes a !! sid) as [d|] eqn:Hr.
  - split; [done| |done]. rewrite (routes_forget sid d a Hr), <- Permutation_middle in H2. by apply (stream_release [(d, sid)]) in H2.
  - by rewrite delete_id by done; destruct a.
Qed.

Lemma holds_insert_route E F sid d a : holds E ((d, sid) :: F) a -> holds E F (set_routes (<[sid := d]> (ac_routes a)) a).
Proof.
  intros Ha. rewrite <- insert_delete_eq.
  pose proof (holds_delete_route _ _ sid _ Ha) as [H1 H2 H3]. set (b := set_routes (delete sid (ac_routes a)) a) in *.
  assert (ac_routes b !! sid = None) as Hn by (simpl; by rewrite lookup_delete_eq).
  change (set_routes (<[sid:=d]> (delete sid (ac_routes a))) a) with (set_routes (<[sid:=d]> (ac_routes b)) b).
  split; [done| |done]. rewrite (routes_insert sid d b Hn). by rewrite <- Permutation_middle.
Qed.

(** The route of a stream takes it in hand. *)
Lemma holds_take_route E F sid d a :
  holds E F a -> ac_routes a !! sid = Some d -> holds E ((d, sid) :: F) (set_routes (delete sid (ac_routes a)) a).
Proof.
  intros [H1 H2 H3] Hr. split; [done| |done]. rewrite (routes_forget sid d a Hr), <- Permutation_middle in H2. done.
Qed.

Lemma holds_task E F sid d f a :
  holds E ((d, sid) :: F) a -> stream_id f = sid -> is_terminal f = true -> holds E F (set_tasks (ac_tasks a ++ [(d, f)])%list a).
Proof.
  intros [H1 H2 H3] Hid Ht. split; [done| |simpl; apply Forall_app; split; [done|by apply Forall_singleton]]. unfold stream_holders in *. simpl.
  rewrite map_app. simpl. rewrite Hid. rewrite !(assoc_L (++)) in *. rewrite <- (Permutation_cons_append _ (d, sid)). done.
Qed.

Section steps.
Context (size : nat).

(** A frame pushed by who holds the stream: kept in hand unless it is terminal. *)
Lemma holds_try_send E F sid d f a r b :
  holds E ((d, sid) :: F) a -> stream_id f = sid -> try_send size d f a = (r, b) ->
  match r with Sent => holds E (if is_terminal f then F else (d, sid) :: F) b | _ => b = a end.
Proof.
  intros [H1 H2 H3] Hid. unfold try_send. destruct (ac_streams a !! d) as [ch|] eqn:Hc; [|by intros [= <- <-]].
  destruct (sc_rx ch); simpl; [|by intros [= <- <-]]. destruct (room size ch); [|by intros [= <- <-]]. intros [= <- <-].
  split; [done| |done]. simpl. pose proof (stream_push d sid f ch _ _ H2 Hc Hid) as Hp. destruct (is_terminal f); done.
Qed.


(** Folds over channels touch only the channels. *)
Lemma fold_oneshots {A} (g : A -> Actor -> Actor) (key : A -> nat) (f : A -> Oneshot -> Oneshot) l a :
  (forall x b, g x b = set_oneshots (alter (f x) (key x) (ac_oneshots b)) b) ->
  foldl (fun a x => g x a) a l = set_oneshots (foldl (fun os x => alter (f x) (key x) os) (ac_oneshots a) l) a.
Proof.
  intros Hg. revert a. induction l as [|x l IH]; intros a; simpl; [by destruct a|]. by rewrite IH, Hg.
Qed.

Lemma holds_answer_pending E F reason a : holds E F a -> holds E F (answer_pending reason a) /\ ac_pending (answer_pending reason a) = ∅.
Proof.
  intros [H1 H2 H3]. unfold answer_pending.
  rewrite (fold_oneshots (fun uc a => answer (snd uc) (error_response (fst uc) reason) a) snd
             (fun uc => answer1 (error_response (fst uc) reason))) by done.
  split; [|done]. split; [|done..]. simpl. unfold holders in *. simpl. rewrite app_nil_r.
  apply (settle_each (map_to_list (ac_pending a)) swap); [|intros [uid c]; exact (answer1_settles (error_response uid reason))].
  apply (settled_perm _ _ _ H1). rewrite (assoc_L (++) E). apply Permutation_app_comm.
Qed.

Lemma holds_release E F reason a : holds E F a -> holds E F (release_stream_routes reason a) /\ ac_routes (release_stream_routes reason a) = ∅.
Proof.
  intros [H1 H2 H3]. split; [|done]. split; [done| |].
  - apply (streams_perm _ _ _ H2), Permutation_app_head. unfold stream_holders, release_stream_routes. simpl.
    rewrite map_to_list_empty, map_app, map_map. simpl. apply Permutation_app_head, Permutation_app_comm.
  - simpl. apply Forall_app. split; [done|]. apply Forall_fmap, Forall_true. done.
Qed.

Lemma holds_pop E F cmd cmds a :
  ac_cmds a = cmd :: cmds -> holds E F a ->
  holds (option_list (cmd_oneshot cmd) ++ E)%list (option_list (cmd_stream cmd) ++ F)%list (set_cmds cmds a).
Proof.
  intros Hc [H1 H2 H3]. split; [apply (settled_perm _ _ _ H1)|apply (streams_perm _ _ _ H2)|done]; unfold holders, stream_holders; simpl; rewrite Hc; simpl.
  - destruct (cmd_oneshot cmd); simpl; [|done]. by rewrite <- Permutation_middle.
  - destruct (cmd_stream cmd); simpl; [|done]. by rewrite <- Permutation_middle.
Qed.

Lemma holds_wire E F rq a : holds E F a -> holds E F (send_wire rq a).
Proof. by intros [H1 H2 H3]. Qed.

Lemma holds_send_if E F ok rq a : holds E F a -> holds E F (send_if ok rq a).
Proof. unfold send_if. destruct (ok rq); [apply holds_wire|done]. Qed.

Lemma send_if_fold {A} ok (g : A -> Request) l a :
  exists w, foldl (fun a x => send_if ok (g x) a) a l =
    {| ac_running := ac_running a; ac_open := ac_open a; ac_fatal := ac_fatal a; ac_cmds := ac_cmds a; ac_pending := ac_pending a;
       ac_routes := ac_routes a; ac_tasks := ac_tasks a; ac_oneshots := ac_oneshots a; ac_streams := ac_streams a; ac_wire := w |}.
Proof.
  revert a. induction l as [|x l IH]; intros a; simpl; [exists (ac_wire a); by destruct a|].
  destruct (IH (send_if ok (g x) a)) as [w ->]. exists w. unfold send_if. by destruct (ok (g x)).
Qed.

Lemma holds_exec ok cmd a :
  holds (option_list (cmd_oneshot cmd)) (option_list (cmd_stream cmd)) a -> holds [] [] (exec_command size ok cmd a).
Proof.
  intros Ha. destruct cmd as [rq c|rq d sid|rq|rq c d|reason|reason ms|]; cbn [cmd_oneshot cmd_stream option_list exec_command] in *.
  - destruct (ok rq); [by apply holds_insert_pending, holds_wire|]. by apply holds_answer.
  - destruct (ok rq); [by apply (holds_insert_route [] [] sid d (send_wire rq a)), holds_wire|].
    destruct (try_send size d (error_frame sid "ZMQ send") a) as [r b] eqn:Ht. simpl.
    pose proof (holds_try_send [] [] sid d (error_frame sid "ZMQ send") a r b Ha eq_refl Ht) as Hs. destruct r; simpl in Hs; [done|subst b; by eapply holds_drop_stream..].
  - apply holds_send_if. destruct (is_cancel rq) as [sid|]; [|done]. apply holds_forget_pending. by apply holds_delete_route.
  - destruct (ok rq); [|by eapply holds_drop_stream, holds_answer].
    apply (holds_insert_route [] [] _ _ (insert_pending (rq_uid rq) c (send_wire rq a))). by apply holds_insert_pending, holds_wire.
  - apply holds_release. by apply holds_answer_pending.
  - destruct (send_if_fold ok (fun sid => build_stream_cancel_with sid (Some reason) ms) (map fst (map_to_list (ac_routes a))) a) as [w ->].
    by destruct Ha.
  - done.
Qed.

Lemma exit_oneshots cmds a :
  foldl (fun a cmd => match cmd_oneshot cmd with Some (c, _) => drop_sender c a | None => a end) a cmds =
  set_oneshots (foldl (fun os cu => alter drop1 (fst cu) os) (ac_oneshots a) (omap cmd_oneshot cmds)) a.
Proof.
  revert a. induction cmds as [|cmd cmds IH]; intros a; simpl; [by destruct a|].
  rewrite IH. by destruct (cmd_oneshot cmd) as [[c uid]|].
Qed.

Lemma holds_exit fatal a : holds [] [] a -> ac_pending a = ∅ -> holds [] [] (actor_exit fatal a).
Proof.
  intros [H1 H2 H3] Hp. unfold actor_exit. rewrite exit_oneshots. split; simpl; [| |done].
  - unfold holders in *. simpl in *. rewrite Hp in *. simpl in *. rewrite app_nil_r in *.
    apply (settle_each (omap cmd_oneshot (ac_cmds a)) id); [by rewrite list_fmap_id, app_nil_r|intros x; apply drop1_settles].
  - unfold stream_holders in *. simpl in *. by apply (stream_release (omap cmd_stream (ac_cmds a))).
Qed.

Lemma holds_teardown a : holds [] [] a -> holds [] [] (teardown a).
Proof.
  intros Ha. destruct (holds_answer_pending _ _ "Worker shutting down" _ Ha) as [Hb Hp].
  apply holds_exit; [|done]. by apply holds_release.
Qed.

Lemma try_send_shape d f a r b :
  try_send size d f a = (r, b) ->
  match r with
  | Sent => exists ch, ac_streams a !! d = Some ch /\ sc_rx ch = true /\ b = set_streams (<[d := push_frame f ch]> (ac_streams a)) a
  | Full => b = a
  | Closed => b = a /\ forall ch, ac_streams a !! d = Some ch -> sc_rx ch = false
  end.
Proof.
  unfold try_send. destruct (ac_streams a !! d) as [ch|]; [|by intros [= <- <-]].
  destruct (sc_rx ch) eqn:Hrx; simpl; [|intros [= <- <-]; naive_solver]. destruct (room size ch); intros [= <- <-]; eauto.
Qed.

Lemma holds_on_message msg a : holds [] [] a -> holds [] [] (on_message size msg a).
Proof.
  intros Ha. destruct msg as [f|r|]; simpl; [| |done].
  - assert (forall b, holds [] [] b -> holds [] [] (if is_terminal f then forget_pending (stream_id f) b else b)) as Hend.
    { intros b Hb. destruct (is_terminal f); [by apply holds_forget_pending|done]. }
    unfold on_stream. apply Hend. destruct (ac_routes a !! stream_id f) as [d|] eqn:Hr; [|done].
    pose proof (holds_take_route [] [] _ d a Ha Hr) as Htake.
    destruct (try_send size d f a) as [r b] eqn:Ht.
    assert (try_send size d f (set_routes (delete (stream_id f) (ac_routes a)) a) = (r, set_routes (delete (stream_id f) (ac_routes b)) b)) as Ht'.
    { revert Ht. unfold try_send. simpl. repeat case_match; by intros [= <- <-]. }
    pose proof (holds_try_send [] [] (stream_id f) d f _ _ _ Htake eq_refl Ht') as Hs.
    pose proof (try_send_shape _ _ _ _ _ Ht) as Hshape. destruct r.
    + destruct Hshape as (ch & _ & _ & ->). destruct (is_terminal f) eqn:Hterm; [done|].
      pose proof (holds_insert_route [] [] _ _ _ Hs) as Hi. simpl in Hi. rewrite insert_delete_eq, insert_id in Hi by done.
      by destruct a.
    + subst b. by apply (holds_task [] [] (stream_id f) d (truncated (stream_id f)) _ Htake).
    + destruct Hshape as [-> _]. by apply holds_delete_route.
  - destruct (ac_pending a !! rs_uid r) as [c|] eqn:Hp; [|done]. apply holds_answer.
    apply (holds_delete_route _ _ (rs_uid r) (set_pending (delete (rs_uid r) (ac_pending a)) a)). by apply holds_delete_pending.
Qed.

(** The entries of a map, split by a test. *)
Lemma split_entries (P : nat -> bool) (m : gmap string nat) :
  map_to_list (filter (fun uc => P (snd uc) = true) m) ++ map_to_list (filter (fun uc => P (snd uc) = false) m) ≡ₚ map_to_list m.
Proof.
  apply NoDup_Permutation.
  - apply NoDup_app. split; [apply NoDup_map_to_list|]. split; [|apply NoDup_map_to_list].
    intros [k c] H1%elem_of_map_to_list H2%elem_of_map_to_list.
    apply map_lookup_filter_Some in H1 as [_ H1], H2 as [_ H2]. simpl in *. congruence.
  - apply NoDup_map_to_list.
  - intros [k c]. rewrite elem_of_app, !elem_of_map_to_list, !map_lookup_filter_Some. simpl. destruct (P c); naive_solver.
Qed.

Lemma holds_sweep is_cb ok a : holds [] [] a -> holds [] [] (sweep is_cb ok a).
Proof.
  intros [H1 H2 H3]. unfold sweep, dead_pending.
  rewrite (fold_oneshots (fun uc a => drop_sender (snd uc) a) snd (fun _ => drop1)) by done.
  set (evicted := map_to_list (filter _ (ac_pending a))).
  set (os := foldl (fun os _ => alter drop1 _ os) (ac_oneshots a) evicted).
  assert (forall b, ac_cmds b = ac_cmds a -> ac_oneshots b = os -> ac_streams b = ac_streams a -> ac_tasks b = ac_tasks a ->
            ac_pending b = filter (fun uc => caller_gone a (snd uc) = false) (ac_pending a) ->
            holds [] [] (set_routes (filter (fun sd => consumer_gone a (snd sd) = false) (ac_routes a)) b)) as Hmain.
  { intros b Hc Ho Hs Ht Hp. split; simpl.
    - rewrite Ho. unfold os, holders. simpl. rewrite Hc, Hp. apply (settle_each evicted swap); [|intros; apply drop1_settles].
      apply (settled_perm _ _ _ H1). unfold holders. simpl. rewrite Permutation_app_swap_app. apply Permutation_app_head.
      unfold evicted. by rewrite <- map_app, (split_entries (caller_gone a)).
    - rewrite Hs. unfold stream_holders. simpl. rewrite Hc, Ht.
      apply (stream_release (map swap (map_to_list (filter (fun sd => consumer_gone a (snd sd) = true) (ac_routes a))))).
      apply (streams_perm _ _ _ H2). unfold stream_holders. simpl.
      rewrite Permutation_app_swap_app. apply Permutation_app_head.
      rewrite (assoc_L (++)), <- map_app. by rewrite (split_entries (consumer_gone a)).
    - by rewrite Ht. }
  destruct is_cb; [|by apply Hmain].
  destruct (send_if_fold ok (fun uc => cb_remove (fst uc)) evicted
              (set_pending (filter (fun uc => caller_gone a (snd uc) = false) (ac_pending a)) (set_oneshots os a))) as [w ->].
  by apply Hmain.
Qed.

Lemma holds_enqueue cmd a b :
  holds [] [] a -> new_channels cmd a = true -> enqueue cmd a = Some (Ok b) -> holds [] [] b.
Proof.
  intros [H1 H2 H3] Hnew. unfold enqueue. destruct (ac_fatal a); [done|]. destruct (ac_running a); cbn [negb]; [|done].
  destruct (Nat.leb command_capacity (length (ac_cmds a))); [done|]. intros [= <-]. apply andb_prop in Hnew as [Hn1 Hn2].
  split.
  - cut (settled_or_held (omap cmd_oneshot (ac_cmds a ++ [cmd]) ++ map swap (map_to_list (ac_pending a)))%list
           (match cmd_oneshot cmd with Some (c, uid) => <[c := fresh_oneshot uid]> (ac_oneshots a) | None => ac_oneshots a end)).
    { destruct (cmd_oneshot cmd) as [[c uid]|], (cmd_stream cmd) as [[d sid]|]; done. }
    rewrite omap_app. simpl. destruct (cmd_oneshot cmd) as [[c uid]|]; [|by rewrite app_nil_r].
    destruct (ac_oneshots a !! c) eqn:Hc; [done|]. apply (settled_perm ((c, uid) :: holders a)); [by apply hold_new|].
    unfold holders. rewrite <- (assoc_L (++)). simpl. by rewrite <- Permutation_middle.
  - cut (streams_ok (omap cmd_stream (ac_cmds a ++ [cmd]) ++ map swap (map_to_list (ac_routes a))
                     ++ map (fun t => (fst t, stream_id (snd t))) (ac_tasks a))%list
           (match cmd_stream cmd with Some (d, sid) => <[d := fresh_stream sid]> (ac_streams a) | None => ac_streams a end)).
    { destruct (cmd_oneshot cmd) as [[c uid]|], (cmd_stream cmd) as [[d sid]|]; done. }
    rewrite omap_app. simpl. destruct (cmd_stream cmd) as [[d sid]|]; [|by rewrite app_nil_r].
    destruct (ac_streams a !! d) eqn:Hc; [done|]. apply (streams_perm ((d, sid) :: stream_holders a)); [by apply stream_new|].
    unfold stream_holders. rewrite <- (assoc_L (++)). simpl. by rewrite <- Permutation_middle.
  - by destruct (cmd_oneshot cmd) as [[c uid]|], (cmd_stream cmd) as [[d sid]|].
Qed.

Lemma filter_all {A} (P : A -> Prop) `{forall x, Decision (P x)} (l : list A) : (forall x, x ∈ l -> P x) -> filter P l = l.
Proof.
  induction l as [|x l IH]; intros Hall; [done|]. rewrite filter_cons_True by (apply Hall; by left). f_equal.
  apply IH. intros y Hy. apply Hall. by right.
Qed.

Lemma find_task_split d tasks f :
  find_task d tasks = Some f -> NoDup tasks.*1 -> tasks ≡ₚ (d, f) :: filter (fun t => fst t <> d) tasks.
Proof.
  induction tasks as [|[d' f'] tasks IH]; simpl; [done|]. intros Hf [Hout Hnd]%NoDup_cons.
  destruct (Nat.eqb_spec d d') as [->|Hne].
  - injection Hf as ->. rewrite filter_cons_False by (simpl; tauto). f_equiv. symmetry. apply reflexive_eq, filter_all.
    intros [e g] Hin Heq. apply Hout. apply list_elem_of_fmap. exists (e, g). by rewrite <- Heq.
  - rewrite filter_cons_True by (simpl; congruence). rewrite (IH Hf Hnd) at 1. apply Permutation_swap.
Qed.

Lemma task_nodup F a : holds [] F a -> NoDup (ac_tasks a).*1.
Proof.
  intros [_ [H2 _ _ _] _]. unfold stream_holders in H2. rewrite !fmap_app in H2. apply NoDup_app in H2 as (_ & _ & H2).
  apply NoDup_app in H2 as (_ & _ & H2). apply NoDup_app in H2 as (_ & _ & H2). by rewrite <- list_fmap_compose in H2.
Qed.

Lemma holds_take_task d f a :
  holds [] [] a -> find_task d (ac_tasks a) = Some f -> holds [] [(d, stream_id f)] (remove_task d a).
Proof.
  intros Ha Hf. pose proof (find_task_split d _ f Hf (task_nodup _ _ Ha)) as Hp. destruct Ha as [H1 H2 H3]. split; [done| |].
  - apply (streams_perm _ _ _ H2). unfold stream_holders. simpl. rewrite Hp at 2. simpl.
    rewrite !(assoc_L (++)), <- Permutation_middle. done.
  - simpl. apply Forall_forall. intros t [_ Ht]%list_elem_of_filter. by apply (proj1 (Forall_forall _ _) H3).
Qed.

Lemma find_task_terminal d f a : holds [] [] a -> find_task d (ac_tasks a) = Some f -> is_terminal f = true.
Proof.
  intros [_ _ H3] Hf. induction (ac_tasks a) as [|[d' f'] tasks IH]; simpl in *; [done|]. apply Forall_cons in H3 as [Ht H3].
  destruct (Nat.eqb d d'); [by simplify_eq|by apply IH].
Qed.

Lemma holds_deliver d a b : holds [] [] a -> deliver size d a = Some b -> holds [] [] b.
Proof.
  intros Ha. unfold deliver. destruct (find_task d (ac_tasks a)) as [f|] eqn:Hf; [|done].
  pose proof (holds_take_task d f a Ha Hf) as Ht. pose proof (find_task_terminal d f a Ha Hf) as Hterm.
  destruct (try_send size d f a) as [r b'] eqn:Hs. pose proof (try_send_shape _ _ _ _ _ Hs) as Hshape. destruct r; [|done|]; intros [= <-].
  - destruct Hshape as (ch & Hch & Hrx & ->).
    assert (try_send size d f (remove_task d a) = (Sent, set_streams (<[d := push_frame f ch]> (ac_streams a)) (remove_task d a))) as Hs'.
    { revert Hs. unfold try_send. simpl. rewrite Hch, Hrx. simpl. by destruct (room size ch). }
    pose proof (holds_try_send [] [] _ d f _ _ _ Ht eq_refl Hs') as Hh. rewrite Hterm in Hh. done.
  - destruct Hshape as [-> _]. by eapply holds_drop_stream.
Qed.

Lemma holds_expire d a : holds [] [] a -> holds [] [] (remove_task d a).
Proof.
  intros [H1 H2 H3]. split; [done| |].
  - unfold stream_holders in *. simpl in *. 
    apply (stream_release (map (fun t => (fst t, stream_id (snd t))) (filter (fun t => ~ fst t <> d) (ac_tasks a)))).
    apply (streams_perm _ _ _ H2). rewrite Permutation_app_comm, <- !(assoc_L (++)). do 2 apply Permutation_app_head.
    rewrite <- map_app. apply Permutation_map, (filter_app_complement (fun t => fst t <> d)).
  - simpl. apply Forall_forall. intros t [_ Ht]%list_elem_of_filter. by apply (proj1 (Forall_forall _ _) H3).
Qed.

Record Inv (a : Actor) : Prop := {
  inv_holds : holds [] [] a;
  inv_exit : ac_running a = false -> ac_cmds a = [] /\ ac_pending a = ∅ /\ ac_routes a = ∅;
}.

Lemma inv_running a : holds [] [] a -> ac_running a = true -> Inv a.
Proof. intros Ha Hr. split; [done|]. congruence. Qed.

Lemma forget_running uid a : ac_running (forget_pending uid a) = ac_running a.
Proof. unfold forget_pending. by destruct (ac_pending a !! uid). Qed.

Lemma try_send_running d f a : ac_running (snd (try_send size d f a)) = ac_running a.
Proof. destruct (try_send size d f a) as [r b] eqn:Ht. apply try_send_shape in Ht. destruct r; naive_solver. Qed.

Lemma answer_pending_running reason a : ac_running (answer_pending reason a) = ac_running a.
Proof.
  unfold answer_pending. by rewrite (fold_oneshots (fun uc a => answer (snd uc) (error_response (fst uc) reason) a) snd
             (fun uc => answer1 (error_response (fst uc) reason))).
Qed.

Lemma exec_running ok cmd a : ac_running (exec_command size ok cmd a) = ac_running a.
Proof.
  destruct cmd as [rq c|rq d sid|rq|rq c d|reason|reason ms|]; cbn [exec_command]; [| | | | | |done].
  - destruct (ok rq); [|done]. unfold insert_pending. apply (forget_running (rq_uid rq) (send_wire rq a)).
  - destruct (ok rq); [done|]. apply try_send_running.
  - unfold send_if. destruct (is_cancel rq) as [sid|]; destruct (ok rq); try done; apply (forget_running sid (set_routes _ a)).
  - destruct (ok rq); [|done]. unfold insert_pending. apply (forget_running (rq_uid rq) (send_wire rq a)).
  - apply answer_pending_running.
  - by destruct (send_if_fold ok (fun sid => build_stream_cancel_with sid (Some reason) ms) (map fst (map_to_list (ac_routes a))) a) as [w ->].
Qed.

Lemma on_message_running msg a : ac_running (on_message size msg a) = ac_running a.
Proof.
  destruct msg as [f|r|]; cbn [on_message]; [| |done].
  - unfold on_stream. pose proof (try_send_running) as Ht. destruct (ac_routes a !! stream_id f) as [d|].
    + specialize (Ht d f a). destruct (try_send size d f a) as [[] b]; simpl in Ht; destruct (is_terminal f); rewrite ?forget_running; done.
    + destruct (is_terminal f); [apply forget_running|done].
  - by destruct (ac_pending a !! rs_uid r).
Qed.

Lemma sweep_running is_cb ok a : ac_running (sweep is_cb ok a) = ac_running a.
Proof.
  unfold sweep. rewrite (fold_oneshots (fun uc a => drop_sender (snd uc) a) snd (fun _ => drop1)) by done.
  destruct is_cb; [|done]. by edestruct (send_if_fold ok (fun uc : string * nat => cb_remove (fst uc))) as [w ->].
Qed.

Lemma teardown_inv a : holds [] [] a -> Inv (teardown a).
Proof.
  intros Ha. split; [by apply holds_teardown|]. intros _. destruct (holds_answer_pending _ _ "Worker shutting down" _ Ha) as [_ Hp].
  unfold teardown, actor_exit. rewrite exit_oneshots. simpl. done.
Qed.

Lemma transport_step_inv act a b : Inv a -> astep size act a = Some b -> Inv b.
Proof.
  intros Hinv. pose proof Hinv as [Ha He]. destruct act as [cmd|ok|msg|is_cb ok|d|d|d|d|c| |msg]; cbn [astep].
  - destruct (ac_open a); [|done]. simpl. destruct (is_try cmd) eqn:Hty.
    + intros [= <-]. unfold try_enqueue. destruct (ac_running a) eqn:Hr; cbn [negb orb]; [|done].
      destruct (Nat.leb command_capacity (length (ac_cmds a))); [done|]. apply inv_running; [|done]. destruct Ha as [H1 H2 H3].
      split; [| |done]; unfold holders, stream_holders in *; simpl in *; rewrite omap_app; destruct cmd; try done; simpl; by rewrite app_nil_r.
    + destruct (new_channels cmd a) eqn:Hn; [|done]. simpl. destruct (enqueue cmd a) as [[b'|e]|] eqn:Hq; [| |done]; intros [= <-]; [|done].
      split; [by eapply holds_enqueue|]. revert Hq. unfold enqueue. destruct (ac_fatal a); [done|]. destruct (ac_running a) eqn:Hr; [|done].
      cbn [negb]. destruct (Nat.leb command_capacity (length (ac_cmds a))); [done|]. intros [= <-] Hb. exfalso.
      destruct (cmd_oneshot cmd) as [[c uid]|], (cmd_stream cmd) as [[d sid]|]; simpl in Hb; congruence.
  - destruct (ac_running a) eqn:Hr; [|done]. unfold drain_one. destruct (ac_cmds a) as [|cmd cmds] eqn:Hc.
    { destruct (ac_open a); [done|]. intros [= <-]. by apply teardown_inv. }
    pose proof (holds_pop [] [] cmd cmds a Hc Ha) as Hp. rewrite !app_nil_r in Hp.
    assert (Inv (exec_command size ok cmd (set_cmds cmds a))) as Hx.
    { apply inv_running; [by apply holds_exec|by rewrite exec_running]. }
    destruct cmd; intros [= <-]; try done. by apply teardown_inv.
  - destruct (ac_running a) eqn:Hr; [|done]. intros [= <-]. apply inv_running; [by apply holds_on_message|by rewrite on_message_running].
  - destruct (ac_running a) eqn:Hr; [|done]. intros [= <-]. apply inv_running; [by apply holds_sweep|by rewrite sweep_running].
  - intros Hd. split; [by eapply holds_deliver|]. revert Hd. unfold deliver. destruct (find_task d (ac_tasks a)); [|done].
    destruct (try_send size d s a) as [r b'] eqn:Ht. apply try_send_shape in Ht.
    destruct r; [|done|]; intros [= <-]; [destruct Ht as (? & _ & _ & ->)|destruct Ht as [-> _]]; simpl; done.
  - intros [= <-]. split; [by apply holds_expire|done].
  - destruct (ac_streams a !! d) as [ch|] eqn:Hch; [|done]. unfold take_frame. destruct (sc_buf ch) as [|f buf] eqn:Hb; simpl; [done|].
    intros [= <-]. split; [|done]. destruct Ha as [H1 H2 H3]. split; [done| |done]. simpl.
    apply (stream_same d ch); [done..|]. unfold frames. simpl. by rewrite Hb, <- (assoc_L (++)).
  - intros [= <-]. split; [|done]. destruct Ha as [H1 H2 H3]. split; [done| |done]. simpl.
    destruct (ac_streams a !! d) as [ch|] eqn:Hch; [|by rewrite alter_id' by done].
    replace (alter hang_up d (ac_streams a)) with (<[d := hang_up ch]> (ac_streams a)); [by apply (stream_same d ch)|].
    apply map_eq. intros k. destruct (decide (k = d)) as [->|Hne]; [by rewrite lookup_insert_eq, lookup_alter_eq, Hch|by rewrite lookup_insert_ne, lookup_alter_ne].
  - intros [= <-]. split; [|done]. destruct Ha as [H1 H2 H3]. split; [|done..]. by apply abandon_holds.
  - intros [= <-]. split; [by destruct Ha|done].
  - destruct (ac_running a) eqn:Hr; [|done]. simpl. destruct (bool_decide _); [|done]. simpl.
    case_bool_decide as Hp; [|done]. case_bool_decide as Hro; [|done]. intros [= <-]. split; [by apply holds_exit|].
    intros _. unfold actor_exit. rewrite exit_oneshots. simpl. done.
Qed.

Lemma actor_new_inv : Inv actor_new.
Proof.
  split; [|done]. assert (holders actor_new = [] /\ stream_holders actor_new = []) as [H1 H2].
  { unfold holders, stream_holders. simpl. by rewrite !map_to_list_empty. }
  split; simpl; rewrite ?H1, ?H2; [| |constructor].
  - split; [constructor|intros c uid; rewrite lookup_empty; set_solver|by intros c o r; rewrite lookup_empty].
  - split; [constructor|intros d sid []%elem_of_nil|by intros d ch f; rewrite lookup_empty|by intros d ch; rewrite lookup_empty].
Qed.

Lemma run_inv acts a b : Inv a -> arun size acts a = Some b -> Inv b.
Proof.
  revert a. induction acts as [|act acts IH]; intros a Ha; simpl; [by intros [= <-]|].
  destruct (astep size act a) as [a'|] eqn:Hs; [|done]. apply IH. by eapply transport_step_inv.
Qed.

(** ** Replies *)

(** C26. No caller of the worker transport is forgotten or answered by mistake: in
    every interleaving of callers, actor, worker messages, sweeps, delivery tasks
    and shutdown, a caller that waits is in a queued command or pending under its
    own uid, with the actor running; a reply it got carries the uid of its own
    request; every frame in a stream's channel carries that stream's id; and a
    terminal frame is the last one. *)
Theorem callers_not_forgotten acts a :
  arun size acts actor_new = Some a ->
  (forall c o, ac_oneshots a !! c = Some o ->
     match os_state o with
     | Waiting => ac_running a = true /\
         ((exists cmd, cmd ∈ ac_cmds a /\ cmd_oneshot cmd = Some (c, os_uid o)) \/ ac_pending a !! os_uid o = Some c)
     | Answered r => rs_uid r = os_uid o
     | SenderDropped => True
     end) /\
  (forall d ch f, ac_streams a !! d = Some ch -> f ∈ frames ch -> stream_id f = sc_id ch) /\
  (forall d ch, ac_streams a !! d = Some ch -> well_ended (frames ch)).
Proof.
  intros Hr. destruct (run_inv _ _ _ actor_new_inv Hr) as [[[H1 H2 H3] [S1 S2 S3 S4] Ht] He]. split; [|done].
  intros c o Ho. destruct (os_state o) as [|r|] eqn:Hs; [|by eapply H3|done].
  assert ((c, os_uid o) ∈ holders a) as Hin by (apply (H2 c (os_uid o)); eauto).
  assert ((exists cmd, cmd ∈ ac_cmds a /\ cmd_oneshot cmd = Some (c, os_uid o)) \/ ac_pending a !! os_uid o = Some c) as Hwhere.
  { apply elem_of_app in Hin as [Hin|Hin]; [left; by apply list_elem_of_omap in Hin|right].
    apply list_elem_of_fmap in Hin as ([uid c'] & [= -> ->] & Hin). by apply elem_of_map_to_list in Hin. }
  split; [|done]. destruct (ac_running a) eqn:Hrun; [done|]. destruct (He eq_refl) as (Hc & Hp & _). rewrite Hc, Hp in Hwhere.
  destruct Hwhere as [(cmd & []%elem_of_nil & _)|Hl]. by rewrite lookup_empty in Hl.
Qed.

(** Everything in flight is answered at once when the worker is gone. *)
Lemma fold_answered (l : list (string * nat)) reason (os : gmap nat Oneshot) uid c o :
  NoDup l.*2 -> (uid, c) ∈ l -> os !! c = Some o -> 
  foldl (fun os uc => alter (answer1 (error_response (fst uc) reason)) (snd uc) os) os l !! c = Some (answer1 (error_response uid reason) o).
Proof.
  revert os o. induction l as [|[uid' c'] l IH]; intros os o; simpl; [by intros _ []%elem_of_nil|].
  intros [Hout Hnd]%NoDup_cons Hin Ho. apply elem_of_cons in Hin as [[= -> ->]|Hin].
  - clear IH. assert (Hkeep : forall os : gmap nat Oneshot, os !! c' = Some (answer1 (error_response uid' reason) o) ->
      foldl (fun os uc => alter (answer1 (error_response (fst uc) reason)) (snd uc) os) os l !! c' = Some (answer1 (error_response uid' reason) o)).
    { clear Hnd. induction l as [|[u x] l IH]; intros os' Hos; simpl; [done|]. apply not_elem_of_cons in Hout as [Hne Hout].
      apply IH; [done|]. by rewrite lookup_alter_ne. }
    apply Hkeep. by rewrite lookup_alter_eq, Ho.
  - apply IH; [done..|]. rewrite lookup_alter_ne; [done|]. intros ->. apply Hout. apply list_elem_of_fmap. by exists (uid, c).
Qed.

(** When the worker is gone, everything in flight is released at once: nothing is
    pending or routed any more, every caller that still waits has an error for its
    own uid, and every stream has a terminal frame on its way. *)
Theorem fail_all_releases acts a ok reason cmds b :
  arun size acts actor_new = Some a -> ac_cmds a = FailAll reason :: cmds -> astep size (DrainOne ok) a = Some b ->
  ac_pending b = ∅ /\ ac_routes b = ∅ /\
  (forall uid c o, ac_pending a !! uid = Some c -> ac_oneshots a !! c = Some o -> os_rx o = true ->
     exists o', ac_oneshots b !! c = Some o' /\ os_state o' = Answered (error_response uid reason)) /\
  (forall sid d, ac_routes a !! sid = Some d -> (d, error_frame sid reason) ∈ ac_tasks b).
Proof.
  intros Hr Hc. destruct (run_inv _ _ _ actor_new_inv Hr) as [[[H1 H2 H3] _ _] He]. cbn [astep].
  destruct (ac_running a); [|done]. unfold drain_one. rewrite Hc. intros [= <-].
  cbn [exec_command]. unfold release_stream_routes, answer_pending.
  rewrite (fold_oneshots (fun uc a => answer (snd uc) (error_response (fst uc) reason) a) snd
             (fun uc => answer1 (error_response (fst uc) reason))) by done. simpl. split; [done|]. split; [done|]. split.
  - intros uid c o Hp Ho Hrx. eexists. split.
    + apply fold_answered; [|by apply elem_of_map_to_list|done]. unfold holders in H1. simpl in H1. rewrite fmap_app in H1.
      apply NoDup_app in H1 as (_ & _ & H1). by rewrite <- list_fmap_compose in H1.
    + assert ((c, uid) ∈ holders a) as Hin.
      { apply elem_of_app. right. apply list_elem_of_fmap. exists (uid, c). split; [done|]. by apply elem_of_map_to_list. }
      apply (H2 c uid) in Hin as (o' & Ho' & _ & Hw). simplify_eq. unfold answer1. simpl. by rewrite Hw, Hrx.
  - intros sid d Hd. apply elem_of_app. right. apply list_elem_of_fmap. exists (sid, d). split; [done|]. by apply elem_of_map_to_list.
Qed.
End steps.

(** ** Example *)

(** Two requests: the first is answered, the second still waits for the worker. *)
Definition example_request (uid : string) : Request := {| rq_uid := uid; rq_payload := POther |}.

Definition example_run : list Action :=
  [Submit (Unary (example_request "a") 0); Submit (Unary (example_request "b") 1); DrainOne (fun _ => true); DrainOne (fun _ => true);
   Receive (MUnary (error_response "a" "busy")); Receive (MUnary (error_response "c" "unknown"))].

Lemma callers_not_forgotten_witness :
  exists a o, arun 64 example_run actor_new = Some a /\ ac_oneshots a !! 1%nat = Some o /\ os_state o = Waiting /\
    ac_pending a !! "b" = Some 1%nat.
Proof.
  destruct (arun 64 example_run actor_new) as [a|] eqn:Ha; [|by vm_compute in Ha].
  pose proof Ha as Ha'. vm_compute in Ha'. injection Ha' as Ha'.
  destruct (ac_oneshots a !! 1%nat) as [o|] eqn:Ho; [|rewrite <- Ha' in Ho; by vm_compute in Ho].
  pose proof Ho as Ho'. rewrite <- Ha' in Ho'. vm_compute in Ho'. injection Ho' as Ho'.
  exists a, o. split; [done|]. split; [done|]. split; [by rewrite <- Ho'|].
  destruct (callers_not_forgotten 64 example_run a Ha) as (H & _). specialize (H 1%nat o Ho). rewrite <- Ho' in H. simpl in H.
  destruct H as [_ [(cmd & Hin & _)|H]]; [|done]. rewrite <- Ha' in Hin. by apply elem_of_nil in Hin.
Defined.
