(* ===== verification/TransportStreams.v ===== *)
(** * Streams through the worker transport

    About [Transport.v]: what the consumer of an open stream gets, in any interleaving of
    the actor, the callers, the consumers and the delivery tasks. *)

From S2P Require Import Prelude Text Errors Dispatch Transport TransportProps.
Open Scope string_scope.
Open Scope Z_scope.

(** ** Senders of a channel *)

Lemma route_held sid d a : ac_routes a !! sid = Some d -> (d, sid) ∈ stream_holders a.
Proof.
  intros Hr. apply elem_of_app. right. apply elem_of_app. left. apply list_elem_of_fmap. exists (sid, d).
  split; [done|]. by apply elem_of_map_to_list.
Qed.

Lemma find_task_elem d tasks f : find_task d tasks = Some f -> (d, f) ∈ tasks.
Proof.
  induction tasks as [|[d' f'] tasks IH]; simpl; [done|]. destruct (Nat.eqb_spec d d') as [->|]; [intros [= ->]; by left|right; by apply IH].
Qed.

Lemma find_task_None d tasks : find_task d tasks = None <-> d ∉ tasks.*1.
Proof.
  induction tasks as [|[d' f'] tasks IH]; simpl; [set_solver|]. destruct (Nat.eqb_spec d d') as [->|]; [set_solver|]. rewrite IH. set_solver.
Qed.

Lemma find_task_app d l l' f : find_task d l = Some f -> find_task d (l ++ l') = Some f.
Proof. induction l as [|[d' f'] l IH]; simpl; [done|]. by destruct (Nat.eqb d d'). Qed.

Lemma find_task_app_None d l l' : find_task d l = None -> find_task d (l ++ l') = find_task d l'.
Proof. induction l as [|[d' f'] l IH]; simpl; [done|]. by destruct (Nat.eqb d d'). Qed.

Lemma find_task_filter d d' l : d <> d' -> find_task d (filter (fun t => fst t <> d') l) = find_task d l.
Proof.
  intros Hne. induction l as [|[e f] l IH]; [done|]. rewrite filter_cons. simpl. case_decide as He; simpl; [by rewrite IH|].
  rewrite IH. destruct (Nat.eqb_spec d e); [|done]. destruct He. congruence.
Qed.

Lemma task_held d f a : find_task d (ac_tasks a) = Some f -> (d, stream_id f) ∈ stream_holders a.
Proof.
  intros Hf%find_task_elem. apply elem_of_app. right. apply elem_of_app. right. apply list_elem_of_fmap. by exists (d, f).
Qed.

Lemma cmd_held cmd d sid a : cmd ∈ ac_cmds a -> cmd_stream cmd = Some (d, sid) -> (d, sid) ∈ stream_holders a.
Proof. intros Hc Hs. apply elem_of_app. left. apply list_elem_of_omap. by exists cmd. Qed.

(** No two senders. *)
Lemma route_no_task a sid d : Inv a -> ac_routes a !! sid = Some d -> find_task d (ac_tasks a) = None.
Proof.
  intros [[_ [Hnd _ _ _] _] _] Hr. apply find_task_None. intros Hin. simpl in Hnd. unfold stream_holders in Hnd. rewrite !fmap_app in Hnd.
  apply NoDup_app in Hnd as (_ & _ & Hnd). apply NoDup_app in Hnd as (_ & Hdis & _). apply (Hdis d).
  - apply list_elem_of_fmap. exists (d, sid). split; [done|]. apply list_elem_of_fmap. exists (sid, d). split; [done|]. by apply elem_of_map_to_list.
  - apply list_elem_of_fmap in Hin as ([d' f] & -> & Hin). apply list_elem_of_fmap. exists (d', stream_id f).
    split; [done|]. apply list_elem_of_fmap. by exists (d', f).
Qed.

Lemma cmd_alone a cmd d s : Inv a -> cmd ∈ ac_cmds a -> cmd_stream cmd = Some (d, s) ->
  (forall sid, ac_routes a !! sid <> Some d) /\ find_task d (ac_tasks a) = None.
Proof.
  intros [[_ [Hnd _ _ _] _] _] Hc Hs. simpl in Hnd. unfold stream_holders in Hnd. rewrite fmap_app in Hnd.
  apply NoDup_app in Hnd as (_ & Hdis & _). specialize (Hdis d). rewrite fmap_app, elem_of_app in Hdis.
  assert (d ∈ (omap cmd_stream (ac_cmds a)).*1) as Hin.
  { apply list_elem_of_fmap. exists (d, s). split; [done|]. apply list_elem_of_omap. by exists cmd. }
  split.
  - intros sid Hr. apply (Hdis Hin). left. apply list_elem_of_fmap. exists (d, sid). split; [done|]. apply list_elem_of_fmap.
    exists (sid, d). split; [done|]. by apply elem_of_map_to_list.
  - apply find_task_None. intros Ht. apply (Hdis Hin). right. apply list_elem_of_fmap in Ht as ([d' f] & -> & Ht).
    apply list_elem_of_fmap. exists (d', stream_id f). split; [done|]. apply list_elem_of_fmap. by exists (d', f).
Qed.

(** ** The course of one stream *)

(** A message that is not a unary reply under an id. *)
Definition no_reply (sid : string) (act : Action) : Prop :=
  match act with
  | Receive (MUnary r) => rs_uid r <> sid
  | _ => True
  end.

(** [alone]: no caller waits for a unary reply under the stream's id.  Otherwise the stream
    is one a custom route may still answer with a unary reply, which then does not come. *)
Section stream.
Context (alone : bool).
Context (size : nat) (sid : string) (d : nat) (base : list StreamResponse).

(** Commands and steps that do not end the stream from the client's side: no cancel of it, no
    second use of its id, and no delivery given up on. *)
Definition spares (cmd : Command) : Prop :=
  match cmd with
  | Unary rq _ | RouteOrStream rq _ _ => rq_uid rq <> sid
  | Stream _ _ s => s <> sid
  | Raw rq => is_cancel rq <> Some sid
  | _ => True
  end.

Definition action_spares (act : Action) : Prop :=
  match act with
  | Submit cmd => spares cmd
  | Expire d' => d' <> d
  | _ => True
  end.

(** The frames of the stream that the worker sends. *)
Definition sent_by (act : Action) : list StreamResponse :=
  match act with
  | Receive (MStream f) => if String.eqb (stream_id f) sid then [f] else []
  | _ => []
  end.

Definition ended (l : list StreamResponse) : Prop := exists l' t, l = (l' ++ [t])%list /\ is_terminal t = true.

Inductive course (got : list StreamResponse) (a : Actor) (ch : StreamChan) : Prop :=
  | gone : sc_rx ch = false -> course got a ch
  | routed : ac_routes a !! sid = Some d -> frames ch = (base ++ got)%list -> course got a ch
  | ending p f : find_task d (ac_tasks a) = Some f -> frames ch = (base ++ p)%list -> p `prefix_of` got -> course got a ch
  | over p t : frames ch = (base ++ p ++ t)%list -> p `prefix_of` got ->
      (t = [] \/ exists e, t = [e] /\ is_terminal e = true) -> ended (frames ch) -> course got a ch.

Record on_course (got : list StreamResponse) (a : Actor) : Prop := {
  oc_inv : Inv a;
  oc_cmds : Forall spares (ac_cmds a);
  oc_pending : alone = true -> ac_pending a !! sid = None;
  oc_chan : exists ch, ac_streams a !! d = Some ch /\ sc_id ch = sid /\ course got a ch;
}.

Lemma ended_not_held a s ch : Inv a -> ac_streams a !! d = Some ch -> ended (frames ch) -> (d, s) ∉ stream_holders a.
Proof.
  intros [[_ [_ Hh _ _] _] _] Hch (l & t & Hl & Ht) Hin. destruct (Hh d s Hin) as (ch' & Hch' & _ & Hrun). simplify_eq.
  rewrite Hl in Hrun. apply Forall_app in Hrun as [_ Hrun]. apply Forall_cons in Hrun as [Hrun _]. congruence.
Qed.

(** Steps that leave the channel and its senders alone keep the course. *)
Lemma course_frame got more a b ch :
  course got a ch -> (ac_routes a !! sid = Some d -> ac_routes b !! sid = Some d /\ more = []) ->
  (forall f, find_task d (ac_tasks a) = Some f -> find_task d (ac_tasks b) = Some f) -> course (got ++ more) b ch.
Proof.
  intros [Hrx|Hr Hf|p f Ht Hf Hp|p t Hf Hp Htl He] Hroute Htask.
  - by apply gone.
  - destruct (Hroute Hr) as [Hr' ->]. rewrite app_nil_r. by apply routed.
  - eapply ending; [by apply Htask|done|]. by apply prefix_app_r.
  - eapply over; [done| |done..]. by apply prefix_app_r.
Qed.

(** A command that carries a stream carries another one while this one has a sender or is
    over. *)
Lemma other_channel got a ch cmd d' s :
  Inv a -> ac_streams a !! d = Some ch -> course got a ch -> cmd ∈ ac_cmds a -> cmd_stream cmd = Some (d', s) ->
  d' <> d \/ sc_rx ch = false.
Proof.
  intros Hinv Hch Hco Hc Hs. destruct (decide (d' = d)) as [->|]; [right|by left].
  destruct (cmd_alone a cmd d s Hinv Hc Hs) as [Hr Ht]. destruct Hco as [Hrx|Hr' _|p f Ht' _ _|p t Hf Hp Htl He]; [done| | |].
  - by destruct (Hr sid).
  - congruence.
  - by destruct (ended_not_held a s ch Hinv Hch He); eapply cmd_held.
Qed.

(** The end of every route at once: this stream gets its terminal frame from a task. *)
Lemma course_release got reason a b ch :
  Inv a -> course got a ch -> ac_tasks b = ac_tasks (release_stream_routes reason a) -> course got b ch.
Proof.
  intros Hinv Hco Hb. destruct Hco as [Hrx|Hr Hf|p f Ht Hf Hp|p t Hf Hp Htl He].
  - by apply gone.
  - assert (exists f, find_task d (ac_tasks b) = Some f) as [f Ht].
    { rewrite Hb. simpl. rewrite find_task_app_None by (by eapply route_no_task).
      destruct (find_task d (map _ _)) as [f|] eqn:Hn; [by eexists|]. apply find_task_None in Hn. destruct Hn.
      rewrite <- list_fmap_compose. apply list_elem_of_fmap. exists (sid, d). split; [done|]. by apply elem_of_map_to_list. }
    eapply ending; [done..|reflexivity].
  - eapply ending; [|done..]. rewrite Hb. simpl. by apply find_task_app.
  - by eapply over.
Qed.

Lemma forget_fields uid a :
  exists os p, forget_pending uid a = set_oneshots os (set_pending p a) /\ forall k, ac_pending a !! k = None -> p !! k = None.
Proof.
  unfold forget_pending. destruct (ac_pending a !! uid) as [c|] eqn:Hp.
  - exists (alter drop1 c (ac_oneshots a)), (delete uid (ac_pending a)). split; [done|].
    intros k Hk. rewrite lookup_delete_None. by right.
  - exists (ac_oneshots a), (ac_pending a). split; [by destruct a|done].
Qed.

(** A state that differs only in what the course does not look at. *)
Lemma on_course_frame got more a b :
  on_course got a -> Inv b -> Forall spares (ac_cmds b) -> (alone = true -> ac_pending b !! sid = None) -> ac_streams b !! d = ac_streams a !! d ->
  (ac_routes a !! sid = Some d -> ac_routes b !! sid = Some d /\ more = []) ->
  (forall f, find_task d (ac_tasks a) = Some f -> find_task d (ac_tasks b) = Some f) -> on_course (got ++ more) b.
Proof.
  intros [_ _ _ (ch & Hch & Hid & Hco)] Hinv Hcmds Hp Hs Hr Ht. split; [done..|]. exists ch. rewrite Hs.
  split; [done|]. split; [done|]. by eapply course_frame.
Qed.

Lemma exec_course ok cmd cmds got a :
  on_course got a -> ac_cmds a = cmd :: cmds -> Inv (exec_command size ok cmd (set_cmds cmds a)) ->
  on_course got (exec_command size ok cmd (set_cmds cmds a)).
Proof.
  intros Hoc Hc Hinv. pose proof Hoc as [Ha Hsp Hp (ch & Hch & Hid & Hco)]. rewrite Hc in Hsp. apply Forall_cons in Hsp as [Hcmd Hsp].
  rewrite <- (app_nil_r got). revert Hinv.
  destruct cmd as [rq c|rq d' s|rq|rq c d'|reason|reason ms|]; cbn [exec_command spares] in *.
  - destruct (ok rq); intros Hinv; [|by apply (on_course_frame got [] a)].
    unfold insert_pending in *. destruct (forget_fields (rq_uid rq) (send_wire rq (set_cmds cmds a))) as (os & p & Hf & Hk).
    rewrite Hf in *. apply (on_course_frame got [] a); try done. simpl. intros Hal.
    rewrite lookup_insert_ne by done. apply Hk. by apply Hp.
  - destruct (ok rq); intros Hinv.
    + apply (on_course_frame got [] a); try done. simpl. intros Hr. by rewrite lookup_insert_ne.
    + destruct (try_send size d' (error_frame s "ZMQ send") (set_cmds cmds a)) as [r b] eqn:Ht. simpl in *.
      apply try_send_shape in Ht. destruct r; [|subst b; by apply (on_course_frame got [] a)|destruct Ht as [-> _]; by apply (on_course_frame got [] a)].
      destruct Ht as (ch' & Hch' & Hrx & ->). simpl in *.
      destruct (other_channel got a ch (Stream rq d' s) d' s Ha Hch Hco ltac:(rewrite Hc; by left) eq_refl) as [Hne|Hgone].
      * apply (on_course_frame got [] a); try done. simpl. by rewrite lookup_insert_ne.
      * destruct (decide (d' = d)) as [->|Hne]; [simplify_eq; congruence|].
        apply (on_course_frame got [] a); try done. simpl. by rewrite lookup_insert_ne.
  - intros Hinv. unfold send_if in *. destruct (is_cancel rq) as [s|].
    + destruct (forget_fields s (set_routes (delete s (ac_routes (set_cmds cmds a))) (set_cmds cmds a))) as (os & p & Hf & Hk).
      rewrite Hf in *.
      assert (forall r, ac_routes a !! sid = Some r -> delete s (ac_routes a) !! sid = Some r) as Hr by (intros r Hr; rewrite lookup_delete_ne by congruence; done).
      destruct (ok rq); apply (on_course_frame got [] a); try done; simpl; auto;
        intros Hal; apply Hk; by apply Hp.
    + destruct (ok rq); by apply (on_course_frame got [] a).
  - destruct (ok rq); intros Hinv; [|by apply (on_course_frame got [] a)].
    unfold insert_pending in *. destruct (forget_fields (rq_uid rq) (send_wire rq (set_cmds cmds a))) as (os & p & Hf & Hk).
    rewrite Hf in *. apply (on_course_frame got [] a); try done; simpl.
    + intros Hal. rewrite lookup_insert_ne by done. apply Hk. by apply Hp.
    + intros Hr. by rewrite lookup_insert_ne.
  - intros Hinv. rewrite app_nil_r. unfold answer_pending in *.
    rewrite (fold_oneshots (fun uc a => answer (snd uc) (error_response (fst uc) reason) a) snd
             (fun uc => answer1 (error_response (fst uc) reason))) in * by done.
    split; [done|done|done|]. exists ch. split; [done|]. split; [done|]. by apply (course_release got reason a).
  - intros Hinv. destruct (send_if_fold ok (fun s => build_stream_cancel_with s (Some reason) ms)
      (map fst (map_to_list (ac_routes (set_cmds cmds a)))) (set_cmds cmds a)) as [w Hw]. rewrite Hw in *.
    by apply (on_course_frame got [] a).
  - intros Hinv. by apply (on_course_frame got [] a).
Qed.

(** A frame that is not routed to this channel. *)
Lemma foreign_frame_course f got more a :
  on_course got a -> ac_routes a !! stream_id f <> Some d -> (ac_routes a !! sid = Some d -> more = []) ->
  Inv (on_stream size f a) -> on_course (got ++ more) (on_stream size f a).
Proof.
  intros Hoc Hne Hmore. pose proof Hoc as [Ha Hsp Hp _]. unfold on_stream.
  assert (Hkeep : forall r : gmap string nat, ac_routes a !! sid = Some d -> (forall k, k <> stream_id f -> r !! k = ac_routes a !! k) ->
    r !! sid = Some d) by (intros r Hr Hk; rewrite Hk; congruence).
  assert (forall b, ac_cmds b = ac_cmds a -> ac_pending b = ac_pending a -> ac_streams b !! d = ac_streams a !! d ->
            (forall k, k <> stream_id f -> ac_routes b !! k = ac_routes a !! k) ->
            (forall g, find_task d (ac_tasks a) = Some g -> find_task d (ac_tasks b) = Some g) ->
            Inv (if is_terminal f then forget_pending (stream_id f) b else b) ->
            on_course (got ++ more) (if is_terminal f then forget_pending (stream_id f) b else b)) as Hmain.
  { intros b H1 H2 H3 H4 H5 Hinv. destruct (is_terminal f).
    - destruct (forget_fields (stream_id f) b) as (os & p & Hf & Hk). rewrite Hf in *. apply (on_course_frame got more a); try done; simpl.
      + by rewrite H1.
      + intros Hal. apply Hk. rewrite H2. by apply Hp.
      + auto.
    - apply (on_course_frame got more a); try done; [by rewrite H1|by rewrite H2|auto]. }
  destruct (ac_routes a !! stream_id f) as [d'|] eqn:Hr; [|by apply Hmain].
  assert (d' <> d) as Hd by congruence.
  destruct (try_send size d' f a) as [r b] eqn:Ht. apply try_send_shape in Ht.
  destruct r; [destruct Ht as (ch' & _ & _ & ->)|subst b|destruct Ht as [-> _]].
  - intros Hinv. destruct (is_terminal f) eqn:Hterm.
    + apply (Hmain (set_routes (delete (stream_id f) (ac_routes a)) (set_streams (<[d':=push_frame f ch']> (ac_streams a)) a))); try done; simpl.
      * by rewrite lookup_insert_ne.
      * intros k Hk. by rewrite lookup_delete_ne.
    + apply (Hmain (set_streams (<[d':=push_frame f ch']> (ac_streams a)) a)); try done. simpl. by rewrite lookup_insert_ne.
  - apply Hmain; try done; simpl; [intros k Hk; by rewrite lookup_delete_ne|intros g Hg; by apply find_task_app].
  - apply Hmain; try done; simpl. intros k Hk. by rewrite lookup_delete_ne.
Qed.

(** The unary slot under the stream's id is not part of its course. *)
Lemma forget_course (t : bool) got a :
  Forall spares (ac_cmds a) -> (alone = true -> ac_pending a !! sid = None) ->
  (exists ch, ac_streams a !! d = Some ch /\ sc_id ch = sid /\ course got a ch) ->
  Inv (if t then forget_pending sid a else a) -> on_course got (if t then forget_pending sid a else a).
Proof.
  intros Hsp Hp (ch & Hch & Hid & Hco) Hinv. destruct t; [|by split; eauto].
  destruct (forget_fields sid a) as (os & p & Hf & Hk). rewrite Hf in *. split; [done|done| |].
  - intros Hal. apply Hk. by apply Hp.
  - exists ch. split; [done|]. split; [done|]. rewrite <- (app_nil_r got). by apply (course_frame got [] a).
Qed.

(** A frame that is. *)
Lemma own_frame_course f got a :
  on_course got a -> stream_id f = sid -> ac_routes a !! sid = Some d -> Inv (on_stream size f a) -> on_course (got ++ [f]) (on_stream size f a).
Proof.
  intros [Ha Hsp Hp (ch & Hch & Hid & Hco)] Hsid Hr. unfold on_stream. rewrite Hsid, Hr.
  pose proof (route_no_task a sid d Ha Hr) as Hnt.
  assert (sc_rx ch = false \/ frames ch = (base ++ got)%list) as Hfr.
  { destruct Hco as [?|_ ?|p g Hg _ _|p t _ _ _ He]; [by left|by right|congruence|].
    by destruct (ended_not_held a sid ch Ha Hch He); apply route_held. }
  destruct (try_send size d f a) as [r b] eqn:Ht. apply try_send_shape in Ht. destruct r.
  - destruct Ht as (ch' & Hch' & Hrx & ->). assert (ch' = ch) as -> by congruence. destruct Hfr as [?|Hfr]; [congruence|].
    assert (frames (push_frame f ch) = (base ++ got ++ [f])%list) as Hpush by (by rewrite frames_push, Hfr, <- (assoc_L (++))).
    apply forget_course; [by destruct (is_terminal f)..|]. exists (push_frame f ch).
    split; [destruct (is_terminal f); simpl; by rewrite lookup_insert_eq|]. split; [done|]. destruct (is_terminal f) eqn:Hterm.
    + apply (over _ _ _ (got ++ [f]) []); [by rewrite app_nil_r|done|by left|].
      exists (base ++ got)%list, f. split; [by rewrite Hpush, (assoc_L (++))|done].
    + by apply routed.
  - subst b. apply forget_course; [done..|]. exists ch. split; [done|]. split; [done|].
    destruct Hfr as [?|Hfr]; [by apply gone|]. apply (ending _ _ _ got (truncated sid)); [|done|by apply prefix_app_r].
    simpl. rewrite find_task_app_None by done. simpl. by rewrite Nat.eqb_refl.
  - destruct Ht as [-> Hgone]. apply forget_course; [done..|]. exists ch. split; [done|]. split; [done|].
    apply gone. by apply Hgone.
Qed.

Lemma submit_course cmd got a b : on_course got a -> astep size (Submit cmd) a = Some b -> spares cmd -> on_course got b.
Proof.
  intros Hoc Hs Hcmd. pose proof Hoc as [Ha Hsp Hp (ch & Hch & Hid & Hco)]. pose proof (transport_step_inv size _ _ _ Ha Hs) as Hinv.
  rewrite <- (app_nil_r got). revert Hs. cbn [astep]. destruct (ac_open a); [|done]. simpl. destruct (is_try cmd).
  - unfold try_enqueue. intros [= <-]. destruct (negb (ac_running a) || _); [by rewrite app_nil_r|].
    apply (on_course_frame got [] a); try done. simpl. apply Forall_app. split; [done|by apply Forall_cons].
  - destruct (new_channels cmd a) eqn:Hn; [|done]. cbn [negb]. destruct (enqueue cmd a) as [[b'|e]|] eqn:Hq; [| |done]; intros [= <-]; [|by rewrite app_nil_r].
    revert Hq. unfold enqueue. destruct (ac_fatal a); [done|]. destruct (ac_running a); [|done]. cbn [negb].
    destruct (Nat.leb command_capacity (length (ac_cmds a))); [done|]. intros [= <-]. apply andb_prop in Hn as [_ Hn].
    assert (Forall spares (ac_cmds a ++ [cmd])%list) as Hall by (apply Forall_app; split; [done|by apply Forall_cons]).
    destruct (cmd_oneshot cmd) as [[c uid]|], (cmd_stream cmd) as [[d' s]|];
      apply (on_course_frame got [] a); try done; simpl; apply lookup_insert_ne; intros ->; by rewrite Hch in Hn.
Qed.

Lemma teardown_course got a : on_course got a -> on_course got (teardown a).
Proof.
  intros [Ha Hsp Hp (ch & Hch & Hid & Hco)]. pose proof (teardown_inv a (inv_holds _ Ha)) as Hinv. split; [done|..].
  - unfold teardown, actor_exit. rewrite exit_oneshots. simpl. constructor.
  - unfold teardown, actor_exit. rewrite exit_oneshots. done.
  - exists ch. unfold teardown, actor_exit, answer_pending. rewrite exit_oneshots.
    rewrite (fold_oneshots (fun uc a => answer (snd uc) (error_response (fst uc) "Worker shutting down") a) snd
             (fun uc => answer1 (error_response (fst uc) "Worker shutting down"))) by done.
    split; [done|]. split; [done|]. by apply (course_release got "Worker shutting down" a).
Qed.

Lemma deliver_course d' got a b : on_course got a -> deliver size d' a = Some b -> Inv b -> on_course got b.
Proof.
  intros Hoc Hd Hinv. pose proof Hoc as [Ha Hsp Hp (ch & Hch & Hid & Hco)]. revert Hd. unfold deliver.
  destruct (find_task d' (ac_tasks a)) as [f|] eqn:Hf; [|done].
  destruct (try_send size d' f a) as [r c] eqn:Ht. apply try_send_shape in Ht. destruct (decide (d' = d)) as [->|Hne].
  - assert (sc_rx ch = false \/ exists p, frames ch = (base ++ p)%list /\ p `prefix_of` got) as Hfr.
    { destruct Hco as [?|Hr _|p g Hg Hfr Hpre|p t _ _ _ He]; [by left| |right; eauto|].
      - pose proof (route_no_task a sid d Ha Hr). congruence.
      - by destruct (ended_not_held a (stream_id f) ch Ha Hch He); apply task_held. }
    destruct r; [|done|]; intros [= <-].
    + destruct Ht as (ch' & Hch' & Hrx & ->). assert (ch' = ch) as -> by congruence. destruct Hfr as [?|(p & Hfr & Hpre)]; [congruence|].
      split; [done..|]. simpl. exists (push_frame f ch). rewrite lookup_insert_eq. split; [done|]. split; [done|].
      assert (frames (push_frame f ch) = (base ++ p ++ [f])%list) as Hpush by (by rewrite frames_push, Hfr, <- (assoc_L (++))).
      pose proof (find_task_terminal d f a (inv_holds _ Ha) Hf) as Hterm.
      apply (over _ _ _ p [f]); [done|done|right; by exists f|]. exists (base ++ p)%list, f. split; [by rewrite Hpush, (assoc_L (++))|done].
    + destruct Ht as [-> Hgone]. split; [done..|]. exists ch. split; [done|]. split; [done|]. apply gone. by apply Hgone.
  - rewrite <- (app_nil_r got). destruct r; [|done|]; intros [= <-]; [destruct Ht as (ch' & _ & _ & ->)|destruct Ht as [-> _]].
    + apply (on_course_frame got [] a); try done; simpl; [by rewrite lookup_insert_ne|intros g Hg; by rewrite find_task_filter].
    + apply (on_course_frame got [] a); try done; simpl. intros g Hg. by rewrite find_task_filter.
Qed.

(** The consumer's steps. *)
Lemma consumer_course f got a b ch ch' :
  on_course got a -> Inv b -> ac_streams a !! d = Some ch -> ac_streams b !! d = Some ch' -> sc_id ch' = sc_id ch -> frames ch' = frames ch ->
  sc_rx ch' = f && sc_rx ch -> ac_cmds b = ac_cmds a -> ac_pending b = ac_pending a -> ac_routes b = ac_routes a -> ac_tasks b = ac_tasks a ->
  on_course got b.
Proof.
  intros [Ha Hsp Hp (ch0 & Hch & Hid & Hco)] Hinv Hch0 Hch' Hid' Hfr Hrx Hc Hpe Hro Hta. simplify_eq.
  split; [done|by rewrite Hc|by rewrite Hpe|]. exists ch'. split; [done|]. split; [congruence|].
  destruct Hco as [Hg|Hr Hf|p g Hg Hf Hpre|p t Hf Hpre Ht He].
  - apply gone. rewrite Hrx, Hg. by destruct f.
  - apply routed; congruence.
  - apply (ending _ _ _ p g); congruence.
  - apply (over _ _ _ p t); congruence.
Qed.

Lemma step_course act got a b :
  on_course got a -> astep size act a = Some b -> action_spares act -> (alone = false -> no_reply sid act) ->
  on_course (got ++ sent_by act) b.
Proof.
  intros Hoc Hs Hact Hquiet. pose proof Hoc as [Ha Hsp Hp (ch & Hch & Hid & Hco)]. pose proof (transport_step_inv size _ _ _ Ha Hs) as Hinv. revert Hs.
  destruct act as [cmd|ok|msg|is_cb ok|d'|d'|d'|d'|c| |msg]; cbn [astep sent_by action_spares] in *; rewrite ?app_nil_r.
  - intros Hs. by eapply submit_course.
  - destruct (ac_running a) eqn:Hrun; [|done]. unfold drain_one. destruct (ac_cmds a) as [|cmd cmds] eqn:Hc.
    { destruct (ac_open a); [done|]. intros [= <-]. by apply teardown_course. }
    pose proof (exec_course ok cmd cmds got a Hoc Hc) as Hx.
    destruct cmd; intros [= <-]; try (by apply Hx). apply teardown_course.
    apply Forall_cons in Hsp as [_ Hsp]. rewrite <- (app_nil_r got). apply (on_course_frame got [] a); try done.
    apply inv_running; [|done]. by apply (holds_pop [] [] Shutdown cmds a Hc), inv_holds.
  - destruct (ac_running a); [|done]. intros [= <-]. destruct msg as [f|r|]; cbn [on_message] in *; [|rewrite app_nil_r..]; [| |done].
    + destruct (String.eqb_spec (stream_id f) sid) as [Hsid|Hne].
      * destruct (decide (ac_routes a !! sid = Some d)) as [Hr|Hr]; [by apply own_frame_course|].
        apply foreign_frame_course; [done|by rewrite Hsid|done|done].
      * apply foreign_frame_course; [done| |done|done]. intros Hr. destruct Ha as [[_ [_ Hh _ _] _] _].
        destruct (Hh d (stream_id f) (route_held _ _ _ Hr)) as (ch' & Hch' & Hid' & _). congruence.
    + destruct (ac_pending a !! rs_uid r) as [c|] eqn:Hpe; [|done]. rewrite <- (app_nil_r got).
      assert (rs_uid r <> sid) as Hne.
      { destruct alone eqn:Hal; [|by apply Hquiet]. intros Hr. rewrite Hr, Hp in Hpe by done. done. }
      apply (on_course_frame got [] a); try done; simpl.
      * intros Hal. apply lookup_delete_None. right. by apply Hp.
      * intros Hr. by rewrite lookup_delete_ne.
  - destruct (ac_running a); [|done]. intros [= <-]. revert Hinv. unfold sweep.
    rewrite (fold_oneshots (fun uc a => drop_sender (snd uc) a) snd (fun _ => drop1)) by done. intros Hinv.
    destruct (decide (sc_rx ch = true)) as [Hrx|Hrx].
    + assert (ac_routes a !! sid = Some d -> filter (fun sd => consumer_gone a (snd sd) = false) (ac_routes a) !! sid = Some d) as Hr.
      { intros Hr. apply map_lookup_filter_Some. split; [done|]. unfold consumer_gone. simpl. by rewrite Hch, Hrx. }
      assert (alone = true -> filter (fun uc => caller_gone a (snd uc) = false) (ac_pending a) !! sid = None) as Hpe.
      { intros Hal. apply map_lookup_filter_None. left. by apply Hp. }
      rewrite <- (app_nil_r got). destruct is_cb; [edestruct (send_if_fold ok (fun uc : string * nat => cb_remove (fst uc))) as [w Hw]; rewrite Hw in *|];
        (apply (on_course_frame got [] a); try done; simpl; auto).
    + assert (alone = true -> filter (fun uc => caller_gone a (snd uc) = false) (ac_pending a) !! sid = None) as Hpe
        by (intros Hal; apply map_lookup_filter_None; left; by apply Hp).
      destruct is_cb; [edestruct (send_if_fold ok (fun uc : string * nat => cb_remove (fst uc))) as [w Hw]; rewrite Hw in *|];
        (split; [done..|]; exists ch; split; [done|]; split; [done|]; apply gone; by destruct (sc_rx ch)).
  - intros Hd. by eapply deliver_course.
  - intros [= <-]. rewrite <- (app_nil_r got). apply (on_course_frame got [] a); try done. simpl. intros g Hg. by rewrite find_task_filter by congruence.
  - destruct (ac_streams a !! d') as [ch'|] eqn:Hch'; [|done]. unfold take_frame. destruct (sc_buf ch') as [|f buf] eqn:Hb; simpl; [done|].
    intros [= <-]. destruct (decide (d' = d)) as [->|Hne]; [|rewrite <- (app_nil_r got); apply (on_course_frame got [] a); try done; simpl; by rewrite lookup_insert_ne].
    assert (ch' = ch) as -> by congruence. eapply (consumer_course true got a _ ch); [done|done|done|simpl; by rewrite lookup_insert_eq|try done..].
    unfold frames. simpl. by rewrite Hb, <- (assoc_L (++)).
  - intros [= <-]. destruct (decide (d' = d)) as [->|Hne]; [|rewrite <- (app_nil_r got); apply (on_course_frame got [] a); try done; simpl; by rewrite lookup_alter_ne].
    eapply (consumer_course false got a _ ch (hang_up ch)); try done. simpl. by rewrite lookup_alter_eq, Hch.
  - intros [= <-]. rewrite <- (app_nil_r got). by apply (on_course_frame got [] a).
  - intros [= <-]. rewrite <- (app_nil_r got). by apply (on_course_frame got [] a).
  - destruct (ac_running a && _ && _ && _); [|done]. intros [= <-]. revert Hinv. unfold actor_exit. rewrite exit_oneshots. intros Hinv.
    rewrite <- (app_nil_r got). by apply (on_course_frame got [] a).
Qed.
End stream.

(** C27. A stream that is open at the transport ends only with a terminal frame:
    whatever else happens, as long as nobody cancels it, reuses its id or gives up
    on a delivery, and the worker sends no unary reply under its id while the id is
    still pending (as it is for a custom route opened by RouteOrStream), its
    consumer gets what the worker sent in order, all of it while the stream is
    routed and a prefix followed by at most one terminal frame once it is not; and
    when no sender is left, so that the consumer sees the channel end, the last
    frame is terminal. *)
Theorem streams_end_explicitly size acts0 a0 sid d ch0 acts a ch :
  arun size acts0 actor_new = Some a0 -> ac_routes a0 !! sid = Some d -> ac_streams a0 !! d = Some ch0 ->
  Forall (spares sid) (ac_cmds a0) -> arun size acts a0 = Some a -> Forall (action_spares sid d) acts ->
  (ac_pending a0 !! sid = None \/ Forall (no_reply sid) acts) ->
  ac_streams a !! d = Some ch -> sc_rx ch = true ->
  let sent := mjoin (map (sent_by sid) acts) in
  (exists p t, frames ch = (frames ch0 ++ p ++ t)%list /\ p `prefix_of` sent /\
     (t = [] \/ exists e, t = [e] /\ is_terminal e = true)) /\
  (ac_routes a !! sid = Some d -> frames ch = (frames ch0 ++ sent)%list) /\
  ((forall s, (d, s) ∉ stream_holders a) -> ended (frames ch)).
Proof.
  intros Hr0 Hroute Hch0 Hcmds Hrun Hacts Hpend Hch Hrx sent.
  set (alone := bool_decide (ac_pending a0 !! sid = None)).
  assert (Forall (fun act => alone = false -> no_reply sid act) acts) as Hquiet.
  { destruct Hpend as [Hpend|Hq].
    - apply Forall_forall. intros act _ Hf. by apply bool_decide_eq_false_1 in Hf.
    - eapply Forall_impl; [exact Hq|]. by intros act ? _. }
  assert (on_course alone sid d (frames ch0) [] a0) as Hoc.
  { pose proof (run_inv size _ _ _ actor_new_inv Hr0) as Hinv. split; [done|done|by intros Hal%bool_decide_eq_true_1|]. exists ch0. split; [done|].
    destruct Hinv as [[_ [_ Hh _ _] _] _]. destruct (Hh d sid (route_held _ _ _ Hroute)) as (c & Hc & Hid & _).
    split; [congruence|]. apply routed; [done|by rewrite app_nil_r]. }
  assert (on_course alone sid d (frames ch0) sent a) as [Hinv _ _ (c & Hc & _ & Hco)].
  { unfold sent. clear Hroute Hch Hr0 Hcmds Hpend Hch0. clearbody alone. change (mjoin (map (sent_by sid) acts)) with ([] ++ mjoin (map (sent_by sid) acts))%list.
    revert Hrun Hoc. generalize ([] : list StreamResponse) as got. revert a0. induction Hacts as [|act acts Hact Hacts IH]; intros a0 got; simpl.
    - intros [= <-]. by rewrite app_nil_r.
    - apply Forall_cons in Hquiet as [Hq Hquiet]. destruct (astep size act a0) as [a1|] eqn:Hs; [|done].
      intros Hrun Hoc. rewrite (assoc_L (++)). apply (IH Hquiet a1); [done|]. by eapply step_course. }
  assert (c = ch) as -> by congruence. destruct Hco as [?|Hr Hf|p f Ht Hf Hp|p t Hf Hp Htl He]; [congruence|..].
  - split; [exists sent, []; rewrite app_nil_r; auto|]. split; [done|]. intros Hno. by destruct (Hno sid); apply route_held.
  - split; [exists p, []; rewrite app_nil_r; auto|]. split.
    + intros Hr. pose proof (route_no_task a sid d Hinv Hr). congruence.
    + intros Hno. by destruct (Hno (stream_id f)); apply task_held.
  - split; [eauto|]. split; [|done]. intros Hr. by destruct (ended_not_held d a sid ch Hinv Hch He); apply route_held.
Qed.

(** ** Examples *)

Definition open_rq : Request := {| rq_uid := "u"; rq_payload := PStream "s" None |}.
Definition chunk (data : string) : StreamResponse := {| stream_id := "s"; fr_payload := FChunk data |}.
Definition done_frame : StreamResponse := {| stream_id := "s"; fr_payload := FDone |}.

(** A consumer that falls behind a channel of two frames: the third does not fit, the stream
    is cut and says so. *)
Definition slow_consumer : list Action :=
  [Receive (MStream (chunk "1")); Receive (MStream (chunk "2")); Receive (MStream (chunk "3")); Receive (MStream done_frame);
   Consume 0; Deliver 0; Consume 0; Consume 0].

Lemma streams_end_witness :
  exists a0 a ch, arun 2 [Submit (Stream open_rq 0 "s"); DrainOne (fun _ => true)] actor_new = Some a0 /\
    arun 2 slow_consumer a0 = Some a /\ ac_streams a !! 0%nat = Some ch /\
    frames ch = [chunk "1"; chunk "2"; truncated "s"] /\ ended (frames ch).
Proof.
  destruct (arun 2 [Submit (Stream open_rq 0 "s"); DrainOne (fun _ => true)] actor_new) as [a0|] eqn:H0; [|by vm_compute in H0].
  pose proof H0 as Ha0. vm_compute in H0. injection H0 as H0.
  destruct (arun 2 slow_consumer a0) as [a|] eqn:H1; [|rewrite <- H0 in H1; by vm_compute in H1].
  pose proof H1 as Ha. rewrite <- H0 in H1. vm_compute in H1. injection H1 as H1.
  destruct (ac_streams a !! 0%nat) as [ch|] eqn:Hch; [|rewrite <- H1 in Hch; by vm_compute in Hch].
  pose proof Hch as Hch'. rewrite <- H1 in Hch'. vm_compute in Hch'. injection Hch' as Hch'.
  exists a0, a, ch. split; [done|]. split; [done|]. split; [done|]. split; [by rewrite <- Hch'|].
  apply (streams_end_explicitly 2 _ a0 "s" 0 (fresh_stream "s") slow_consumer a ch Ha0); try done.
  - by rewrite <- H0.
  - by rewrite <- H0.
  - rewrite <- H0. constructor.
  - repeat constructor.
  - left. by rewrite <- H0.
  - by rewrite <- Hch'.
  - rewrite <- H1. intros s Hin. vm_compute in Hin. by apply elem_of_nil in Hin.
Defined.

(** A route that may answer either way: with a unary reply, the caller has its answer and the
    stream's channel ends without a frame. *)
Definition route_rq : Request := {| rq_uid := "s"; rq_payload := PStream "s" None |}.
Definition unary_reply : Response := error_response "s" "done".

Theorem unary_reply_ends_stream :
  match arun 64 [Submit (RouteOrStream route_rq 0 0); DrainOne (fun _ => true); Receive (MUnary unary_reply)] actor_new with
  | Some a => stream_holders a = [] /\ ac_streams a !! 0%nat = Some (fresh_stream "s") /\
      (os_state <$> ac_oneshots a !! 0%nat) = Some (Answered unary_reply)
  | None => False
  end.
Proof. vm_compute. done. Qed.

(** A stream that is opened while the transport shuts down is dropped with its
    command: its consumer, who was told that it is open, sees the end of the channel
    without a frame. *)
Theorem shutdown_drops_queued_stream :
  match arun 64 [Submit Shutdown; Submit (Stream open_rq 0 "s"); DrainOne (fun _ => true)] actor_new with
  | Some a => stream_holders a = [] /\ ac_streams a !! 0%nat = Some (fresh_stream "s")
  | None => False
  end.
Proof. vm_compute. done. Qed.

(** ** Waking the actor *)

Definition wake_inv (w : Wake) : Prop :=
  (wk_actor w = ACheck \/ wk_actor w = APoll -> wk_asleep w = true) /\
  (wk_actor w = APoll -> (0 < wk_queue w)%nat -> (0 < wk_bytes w + wk_looking w + wk_waking w)%nat).

Lemma wake_step_inv act w w' : wake_inv w -> wstep act w = Some w' -> wake_inv w'.
Proof.
  intros [H1 H2] Hs. destruct w as [q o as_ b pc l k]. unfold wake_inv in *. simpl in *.
  destruct act, pc; simpl in Hs; try done;
    repeat match type of Hs with context [match ?n with O => _ | S _ => _ end] => destruct n
                               | context [if ?c then _ else _] => destruct c eqn:? end;
    simplify_eq/=; (split; [naive_solver|]); try done; intros; try (specialize (H2 eq_refl)); try lia.
  - by discriminate (H1 (or_intror eq_refl)).
  - apply Nat.ltb_lt in Heqb0. lia.
  - apply Nat.eqb_eq in Heqb0. lia.
Qed.

(** The actor does not sleep on a queued command: while it blocks and commands are
    queued, the flag is set and a byte is in the wake pair or a sender is about to
    send one. *)
Theorem actor_never_sleeps_on_commands acts w :
  wrun acts wake_new = Some w -> wk_actor w = APoll -> (0 < wk_queue w)%nat ->
  wk_asleep w = true /\ (0 < wk_bytes w + wk_looking w + wk_waking w)%nat.
Proof.
  intros Hr Ha Hq. assert (wake_inv w) as [H1 H2]; [|auto].
  assert (wake_inv wake_new) as H0 by (split; simpl; [naive_solver|lia]). revert H0 Hr. generalize wake_new as w0.
  induction acts as [|act acts IH]; intros w0 H0; simpl; [by intros [= <-]|].
  destruct (wstep act w0) as [w1|] eqn:Hs; [|done]. apply IH. by eapply wake_step_inv.
Qed.

Lemma actor_never_sleeps_witness :
  exists w, wrun [WDrained; WStore; WCheck; WPush; WLook] wake_new = Some w /\ wk_actor w = APoll /\ wk_queue w = 1%nat /\
    (0 < wk_bytes w + wk_looking w + wk_waking w)%nat.
Proof.
  destruct (wrun [WDrained; WStore; WCheck; WPush; WLook] wake_new) as [w|] eqn:Hw; [|by vm_compute in Hw].
  exists w. split; [done|]. pose proof Hw as Hw'. vm_compute in Hw'. injection Hw' as Hw'.
  split; [by rewrite <- Hw'|]. split; [by rewrite <- Hw'|].
  apply (actor_never_sleeps_on_commands _ w Hw); rewrite <- Hw'; [done|simpl; lia].
Defined.

(** The wake-up of a dropped client can be lost: the channel is closed and the flag
    read between the drain that found it open and the store of the flag, and the
    second look does not notice a closed channel. *)
Theorem drop_wakeup_lost :
  match wrun [WDrained; WClose; WLook; WStore; WCheck] wake_new with
  | Some w => wk_actor w = APoll /\ wk_open w = false /\ wk_bytes w = 0%nat /\ wk_looking w = 0%nat /\ wk_waking w = 0%nat
  | None => False
  end.
Proof. vm_compute. done. Qed.
