(* ===== verification/Config.v ===== *)
(** * Configuration

    The server's and the models' configuration of [src/src/config.rs]: the records with
    their defaults, the overrides of the command line, the checks made when a file is
    read, and where the values are turned into durations.

    A record has the fields of its struct, in the order of the struct, with a prefix of
    its own.  Deserialisation belongs to [serde_yaml]; serialisation to JSON is written
    out (the [_value] functions), since the server shows its configuration: an object
    lists its fields in the order of their names, as [serde_json]'s map does. *)

From stdpp Require Import sorting.
From S2P Require Import Prelude Text Float Errors Json Deadline Registry Validation Cors Access RateLimit ClientIp Outlier Dispatch Warmup.
Open Scope string_scope.
Open Scope Z_scope.

(** The [f32] nearest to the decimal literal [n / d]. *)
Abbreviation f32_dec := (dec_lit 24 128).

(** ** Records and defaults *)

Inductive TelemetryProtocol := TelemetryGrpc | TelemetryHttp.
Inductive QueueTimeoutAction := Delay | Reject.
Definition QueueTimeoutAction_default : QueueTimeoutAction := Delay.

Record CallbacksConfig := {
  cb_timeout_secs : spec_float;
}.

Definition CallbacksConfig_default : CallbacksConfig := {|
  cb_timeout_secs := (f32_of_Z 30)
|}.

Record AlertsConfig := {
  al_queue_depth_warning : Z;
  al_queue_depth_critical : Z;
  al_p99_ms_warning : spec_float;
  al_p99_ms_critical : spec_float;
}.

Definition AlertsConfig_default : AlertsConfig := {|
  al_queue_depth_warning := 100;
  al_queue_depth_critical := 500;
  al_p99_ms_warning := (f64_of_Z 500);
  al_p99_ms_critical := (f64_of_Z 2000)
|}.

Record ServerTunables := {
  tn_reconcile_coalesce_secs : spec_float;
  tn_hot_reload_cooldown_secs : spec_float;
  tn_watcher_debounce_secs : spec_float;
  tn_file_changed_timeout_secs : spec_float;
  tn_worker_stderr_tail_bytes : Z;
  tn_worker_stderr_drain_secs : spec_float;
  tn_unpack_timeout_secs : spec_float;
}.

Definition ServerTunables_default : ServerTunables := {|
  tn_reconcile_coalesce_secs := (f32_of_Z 2);
  tn_hot_reload_cooldown_secs := (f32_of_Z 3);
  tn_watcher_debounce_secs := (f32_dec 25 10);
  tn_file_changed_timeout_secs := (f32_of_Z 60);
  tn_worker_stderr_tail_bytes := (64 * 1024);
  tn_worker_stderr_drain_secs := (f32_of_Z 5);
  tn_unpack_timeout_secs := (f32_of_Z 120)
|}.

Record ServerConfig := {
  sv_http_port : Z;
  sv_grpc_port : Z;
  sv_metrics_port : Z;
  sv_host : string;
  sv_timeout : spec_float;
  sv_threads : option Z;
  sv_cache_registry : bool;
  sv_graceful_timeout : spec_float;
  sv_shutdown_stream_grace_ms : Z;
  sv_keepalive_timeout : spec_float;
  sv_stream_keepalive_interval_secs : spec_float;
  sv_stream_channel_size : Z;
  sv_request_body_timeout_secs : spec_float;
  sv_http2_keepalive_interval_secs : option spec_float;
  sv_http2_keepalive_timeout_secs : option spec_float;
  sv_socket_mode : Z;
  sv_compression : bool;
  sv_request_decompression : bool;
  sv_tls_cert_path : option string;
  sv_tls_key_path : option string;
  sv_mtls_ca_path : option string;
  sv_tls_min_version : option string;
  sv_trusted_origins : list string;
  sv_sequence_ttl_secs : spec_float;
  sv_max_sequences : Z;
  sv_balance_abs_threshold : Z;
  sv_balance_rel_threshold : spec_float;
  sv_decoupled_idle_timeout_secs : spec_float;
  sv_max_concurrent_streaming_dags : Z;
  sv_max_inflight : Z;
  sv_max_connections : Z;
  sv_max_request_body_bytes : option Z;
  sv_max_upload_bytes : option Z;
  sv_trusted_proxies : list string;
  sv_cors : option Cors.CorsPolicy;
}.

Definition ServerConfig_default : ServerConfig := {|
  sv_http_port := 8000;
  sv_grpc_port := 8001;
  sv_metrics_port := 8002;
  sv_host := "0.0.0.0";
  sv_timeout := (f32_of_Z 30);
  sv_threads := None;
  sv_cache_registry := false;
  sv_graceful_timeout := (f32_of_Z 30);
  sv_shutdown_stream_grace_ms := 2000;
  sv_keepalive_timeout := (f32_of_Z 5);
  sv_stream_keepalive_interval_secs := (f32_of_Z 30);
  sv_stream_channel_size := 64;
  sv_request_body_timeout_secs := float_zero;
  sv_http2_keepalive_interval_secs := None;
  sv_http2_keepalive_timeout_secs := None;
  sv_socket_mode := 438;
  sv_compression := false;
  sv_request_decompression := false;
  sv_tls_cert_path := None;
  sv_tls_key_path := None;
  sv_mtls_ca_path := None;
  sv_tls_min_version := None;
  sv_trusted_origins := [];
  sv_sequence_ttl_secs := (f32_of_Z 3600);
  sv_max_sequences := 65536;
  sv_balance_abs_threshold := 2;
  sv_balance_rel_threshold := (f32_dec 15 10);
  sv_decoupled_idle_timeout_secs := (f32_of_Z 300);
  sv_max_concurrent_streaming_dags := 128;
  sv_max_inflight := 0;
  sv_max_connections := 0;
  sv_max_request_body_bytes := (Some (64 * 1024 * 1024));
  sv_max_upload_bytes := None;
  sv_trusted_proxies := [];
  sv_cors := None
|}.

Record GrpcConfig := {
  gr_enabled : bool;
  gr_host : option string;
  gr_admin_bind : option string;
  gr_socket_mode : Z;
  gr_http2_keepalive_interval_secs : option Z;
  gr_http2_keepalive_timeout_secs : option Z;
  gr_http2_adaptive_window : bool;
  gr_http2_max_frame_size : option Z;
  gr_response_compression : bool;
  gr_tls_cert_path : option string;
  gr_tls_key_path : option string;
  gr_mtls_ca_path : option string;
  gr_tls_min_version : option string;
  gr_reflection : bool;
}.

Definition GrpcConfig_default : GrpcConfig := {|
  gr_enabled := true;
  gr_host := None;
  gr_admin_bind := None;
  gr_socket_mode := 438;
  gr_http2_keepalive_interval_secs := None;
  gr_http2_keepalive_timeout_secs := None;
  gr_http2_adaptive_window := false;
  gr_http2_max_frame_size := None;
  gr_response_compression := false;
  gr_tls_cert_path := None;
  gr_tls_key_path := None;
  gr_mtls_ca_path := None;
  gr_tls_min_version := None;
  gr_reflection := false
|}.

Record MetricsConfig := {
  me_enabled : bool;
  me_host : option string;
  me_metric_namespace : string;
  me_timeline_max_points : Z;
  me_timeline_sample_interval_secs : Z;
  me_p99_window_max_samples : Z;
  me_p99_window_max_age_secs : spec_float;
}.

Definition MetricsConfig_default : MetricsConfig := {|
  me_enabled := true;
  me_host := None;
  me_metric_namespace := "liteserver";
  me_timeline_max_points := 30;
  me_timeline_sample_interval_secs := 10;
  me_p99_window_max_samples := 1000;
  me_p99_window_max_age_secs := float_zero
|}.

Record TelemetryConfig := {
  te_enabled : bool;
  te_otlp_endpoint : string;
  te_protocol : TelemetryProtocol;
  te_sample_ratio : spec_float;
  te_health_admin_sample_ratio : spec_float;
  te_service_name : string;
  te_resource_attributes : gmap string string;
  te_otlp_headers : gmap string string;
  te_export_interval_millis : Z;
  te_max_queue_size : Z;
  te_metrics_enabled : bool;
  te_exemplars_enabled : bool;
  te_baggage_allowlist : list string;
  te_baggage_max_entries : Z;
  te_baggage_max_entry_bytes : Z;
}.

Definition TelemetryConfig_default : TelemetryConfig := {|
  te_enabled := false;
  te_otlp_endpoint := "http://localhost:4317";
  te_protocol := TelemetryGrpc;
  te_sample_ratio := (f64_of_Z 1);
  te_health_admin_sample_ratio := float_zero;
  te_service_name := "lite-server";
  te_resource_attributes := ∅;
  te_otlp_headers := ∅;
  te_export_interval_millis := 5000;
  te_max_queue_size := 2048;
  te_metrics_enabled := false;
  te_exemplars_enabled := false;
  te_baggage_allowlist := [];
  te_baggage_max_entries := 16;
  te_baggage_max_entry_bytes := 128
|}.

Record RateLimitConfig := {
  rb_max_buckets : Z;
}.

Definition RateLimitConfig_default : RateLimitConfig := {|
  rb_max_buckets := 65536
|}.

Record LoggingConfig := {
  lg_level : string;
  lg_info_output : option string;
  lg_error_output : option string;
  lg_rotation : string;
  lg_max_size : Z;
  lg_backup_count : Z;
  lg_hostname_in_log_name : bool;
}.

Definition LoggingConfig_default : LoggingConfig := {|
  lg_level := "info";
  lg_info_output := None;
  lg_error_output := None;
  lg_rotation := "none";
  lg_max_size := 100;
  lg_backup_count := 7;
  lg_hostname_in_log_name := false
|}.

Record ModelRepositoryConfig := {
  mr_path : string;
}.

Definition ModelRepositoryConfig_default : ModelRepositoryConfig := {|
  mr_path := "./model_repo"
|}.

Record FeaturesConfig := {
  fe_timeline : bool;
  fe_custom_metrics : bool;
  fe_alerts : bool;
  fe_version_compare : bool;
  fe_streaming : bool;
  fe_grpc_streaming : bool;
  fe_sse : bool;
  fe_websocket_streaming : bool;
  fe_http_bidi : bool;
  fe_decoupled : bool;
  fe_streaming_metrics : bool;
  fe_accelerator_metrics : bool;
  fe_canary_override : bool;
}.

Definition FeaturesConfig_default : FeaturesConfig := {|
  fe_timeline := false;
  fe_custom_metrics := false;
  fe_alerts := true;
  fe_version_compare := false;
  fe_streaming := true;
  fe_grpc_streaming := true;
  fe_sse := true;
  fe_websocket_streaming := true;
  fe_http_bidi := true;
  fe_decoupled := true;
  fe_streaming_metrics := true;
  fe_accelerator_metrics := true;
  fe_canary_override := false
|}.

Record ModelStrategyConfig := {
  sg_name : string;
  sg_load_policy : string;
  sg_versions_to_load : list string;
  sg_default_version : option string;
  sg_max_loaded_versions : option Z;
  sg_weights : option (gmap string Z);
}.

Definition ModelStrategyConfig_default : ModelStrategyConfig := {|
  sg_name := "";
  sg_load_policy := "explicit";
  sg_versions_to_load := [];
  sg_default_version := None;
  sg_max_loaded_versions := None;
  sg_weights := None
|}.

Record OrchestrationConfig := {
  oz_control_mode : string;
  oz_poll_interval : Z;
  oz_load_models : list string;
  oz_models : list ModelStrategyConfig;
}.

Definition OrchestrationConfig_default : OrchestrationConfig := {|
  oz_control_mode := "explicit";
  oz_poll_interval := 30;
  oz_load_models := [];
  oz_models := []
|}.

Record OpenaiCompactConfig := {
  oc_auth : option Access.EndpointControl;
}.

Record ModelTunables := {
  mt_max_queue_size : option Z;
  mt_max_requests : option Z;
  mt_max_requests_jitter : option Z;
  mt_recycle_max_percent : option Z;
  mt_count_streams_toward_max_requests : option bool;
  mt_recycle_stream_drain_timeout_secs : option spec_float;
  mt_max_concurrent_streams : option Z;
  mt_recycle_stream_grace_ms : option Z;
  mt_request_timeout : option spec_float;
  mt_health_check_interval : option spec_float;
  mt_ejection_error_threshold : option Z;
  mt_ejection_timeout : option spec_float;
  mt_ejection_max_percent : option Z;
  mt_ejection_max_timeout : option spec_float;
  mt_max_retries : option Z;
  mt_startup_timeout : option spec_float;
  mt_health_check_timeout : option spec_float;
  mt_health_check_kill_threshold : option Z;
  mt_worker_kill_timeout : option spec_float;
  mt_hook_http_timeout : option spec_float;
}.

Definition ModelTunables_default : ModelTunables := {|
  mt_max_queue_size := None;
  mt_max_requests := None;
  mt_max_requests_jitter := None;
  mt_recycle_max_percent := None;
  mt_count_streams_toward_max_requests := None;
  mt_recycle_stream_drain_timeout_secs := None;
  mt_max_concurrent_streams := None;
  mt_recycle_stream_grace_ms := None;
  mt_request_timeout := None;
  mt_health_check_interval := None;
  mt_ejection_error_threshold := None;
  mt_ejection_timeout := None;
  mt_ejection_max_percent := None;
  mt_ejection_max_timeout := None;
  mt_max_retries := None;
  mt_startup_timeout := None;
  mt_health_check_timeout := None;
  mt_health_check_kill_threshold := None;
  mt_worker_kill_timeout := None;
  mt_hook_http_timeout := None
|}.

Record Config := {
  cf_server : ServerConfig;
  cf_grpc : GrpcConfig;
  cf_metrics : MetricsConfig;
  cf_rate_limit : RateLimitConfig;
  cf_logging : LoggingConfig;
  cf_model_repository : ModelRepositoryConfig;
  cf_features : FeaturesConfig;
  cf_orchestration : OrchestrationConfig;
  cf_model_defaults : ModelTunables;
  cf_tunables : ServerTunables;
  cf_access_control : Access.AccessControlConfig;
  cf_openai_compact : OpenaiCompactConfig;
  cf_telemetry : TelemetryConfig;
  cf_callbacks : CallbacksConfig;
  cf_alerts : AlertsConfig;
}.

Definition AccessControlConfig_default : Access.AccessControlConfig :=
  {| acc_admin := {| pc_http := None; pc_grpc := None |};
     acc_inference := {| pc_http := None; pc_grpc := None |};
     acc_health := None |}.

Definition Config_default : Config := {|
  cf_server := ServerConfig_default;
  cf_grpc := GrpcConfig_default;
  cf_metrics := MetricsConfig_default;
  cf_rate_limit := RateLimitConfig_default;
  cf_logging := LoggingConfig_default;
  cf_model_repository := ModelRepositoryConfig_default;
  cf_features := FeaturesConfig_default;
  cf_orchestration := OrchestrationConfig_default;
  cf_model_defaults := ModelTunables_default;
  cf_tunables := ServerTunables_default;
  cf_access_control := AccessControlConfig_default;
  cf_openai_compact := {| oc_auth := None |};
  cf_telemetry := TelemetryConfig_default;
  cf_callbacks := CallbacksConfig_default;
  cf_alerts := AlertsConfig_default
|}.

Record HttpHookConfig := {
  hh_url : string;
  hh_method : string;
  hh_body_template : option string;
}.

Record WorkerHooksConfig := {
  wh_on_ready : option string;
  wh_on_exit : option string;
  wh_on_error : option string;
  wh_on_ready_http : option HttpHookConfig;
  wh_on_exit_http : option HttpHookConfig;
  wh_on_error_http : option HttpHookConfig;
  wh_hook_http_timeout : spec_float;
}.

Definition WorkerHooksConfig_default : WorkerHooksConfig := {|
  wh_on_ready := None;
  wh_on_exit := None;
  wh_on_error := None;
  wh_on_ready_http := None;
  wh_on_exit_http := None;
  wh_on_error_http := None;
  wh_hook_http_timeout := (f32_of_Z 5)
|}.

Record ModelPolicies := {
  po_rate_limit : option RateLimit.RateLimitPolicy;
  po_cors : option Cors.CorsPolicy;
  po_auth : option Access.AuthPolicy;
  po_request_log : option unit;
  po_warmup : option Warmup.WarmupPolicy;
}.

Definition ModelPolicies_default : ModelPolicies :=
  {| po_rate_limit := None; po_cors := None; po_auth := None; po_request_log := None; po_warmup := None |}.

Record ModelConfig := {
  mo_name : string;
  mo_max_batch_size : Z;
  mo_batch_timeout : spec_float;
  mo_stream : bool;
  mo_continuous_batching : bool;
  mo_accelerator : option string;
  mo_devices : option Value;
  mo_workers_per_device : option Z;
  mo_startup_concurrency : option Z;
  mo_max_queue_size : Z;
  mo_hot_reload : bool;
  mo_hot_reload_patterns : list string;
  mo_adaptive_batching : bool;
  mo_min_batch_timeout : spec_float;
  mo_adaptive_queue_threshold : Z;
  mo_request_timeout : spec_float;
  mo_max_requests : Z;
  mo_max_requests_jitter : Z;
  mo_recycle_max_percent : Z;
  mo_count_streams_toward_max_requests : bool;
  mo_recycle_stream_drain_timeout_secs : spec_float;
  mo_max_concurrent_streams : Z;
  mo_recycle_stream_grace_ms : Z;
  mo_health_check_interval : spec_float;
  mo_hooks : WorkerHooksConfig;
  mo_policies : ModelPolicies;
  mo_ejection_error_threshold : Z;
  mo_ejection_timeout : spec_float;
  mo_ejection_max_percent : Z;
  mo_ejection_max_timeout : spec_float;
  mo_max_retries : Z;
  mo_startup_timeout : spec_float;
  mo_health_check_timeout : spec_float;
  mo_health_check_kill_threshold : Z;
  mo_worker_kill_timeout : spec_float;
  mo_queue_timeout_secs : spec_float;
  mo_queue_timeout_action : QueueTimeoutAction;
}.

Definition ModelConfig_default : ModelConfig := {|
  mo_name := "";
  mo_max_batch_size := 1;
  mo_batch_timeout := float_zero;
  mo_stream := false;
  mo_continuous_batching := false;
  mo_accelerator := None;
  mo_devices := None;
  mo_workers_per_device := None;
  mo_startup_concurrency := None;
  mo_max_queue_size := 1000;
  mo_hot_reload := false;
  mo_hot_reload_patterns := ["*.py"];
  mo_adaptive_batching := false;
  mo_min_batch_timeout := (f32_dec 1 1000);
  mo_adaptive_queue_threshold := 10;
  mo_request_timeout := float_zero;
  mo_max_requests := 0;
  mo_max_requests_jitter := 0;
  mo_recycle_max_percent := 10;
  mo_count_streams_toward_max_requests := true;
  mo_recycle_stream_drain_timeout_secs := (f32_of_Z 60);
  mo_max_concurrent_streams := 0;
  mo_recycle_stream_grace_ms := 2000;
  mo_health_check_interval := (f32_of_Z 15);
  mo_hooks := WorkerHooksConfig_default;
  mo_policies := ModelPolicies_default;
  mo_ejection_error_threshold := 3;
  mo_ejection_timeout := (f32_of_Z 30);
  mo_ejection_max_percent := 50;
  mo_ejection_max_timeout := (f32_of_Z 300);
  mo_max_retries := 3;
  mo_startup_timeout := (f32_of_Z 60);
  mo_health_check_timeout := (f32_of_Z 5);
  mo_health_check_kill_threshold := 0;
  mo_worker_kill_timeout := (f32_of_Z 10);
  mo_queue_timeout_secs := float_zero;
  mo_queue_timeout_action := QueueTimeoutAction_default
|}.

(** The keys [ModelConfig] serialises to. *)
Definition known_model_config_keys : list string :=
  ["name";
   "max_batch_size";
   "batch_timeout";
   "stream";
   "continuous_batching";
   "accelerator";
   "devices";
   "workers_per_device";
   "startup_concurrency";
   "max_queue_size";
   "hot_reload";
   "hot_reload_patterns";
   "adaptive_batching";
   "min_batch_timeout";
   "adaptive_queue_threshold";
   "request_timeout";
   "max_requests";
   "max_requests_jitter";
   "recycle_max_percent";
   "count_streams_toward_max_requests";
   "recycle_stream_drain_timeout_secs";
   "max_concurrent_streams";
   "recycle_stream_grace_ms";
   "health_check_interval";
   "hooks";
   "policies";
   "ejection_error_threshold";
   "ejection_timeout";
   "ejection_max_percent";
   "ejection_max_timeout";
   "max_retries";
   "startup_timeout";
   "health_check_timeout";
   "health_check_kill_threshold";
   "worker_kill_timeout";
   "queue_timeout_secs";
   "queue_timeout_action"].

(** ** Overrides *)

(** [ModelTunables::apply_to]: a field that is set replaces the model's. *)
Definition apply_to (t : ModelTunables) (m : ModelConfig) : ModelConfig := {|
  mo_name := mo_name m;
  mo_max_batch_size := mo_max_batch_size m;
  mo_batch_timeout := mo_batch_timeout m;
  mo_stream := mo_stream m;
  mo_continuous_batching := mo_continuous_batching m;
  mo_accelerator := mo_accelerator m;
  mo_devices := mo_devices m;
  mo_workers_per_device := mo_workers_per_device m;
  mo_startup_concurrency := mo_startup_concurrency m;
  mo_max_queue_size := default (mo_max_queue_size m) (mt_max_queue_size t);
  mo_hot_reload := mo_hot_reload m;
  mo_hot_reload_patterns := mo_hot_reload_patterns m;
  mo_adaptive_batching := mo_adaptive_batching m;
  mo_min_batch_timeout := mo_min_batch_timeout m;
  mo_adaptive_queue_threshold := mo_adaptive_queue_threshold m;
  mo_request_timeout := default (mo_request_timeout m) (mt_request_timeout t);
  mo_max_requests := default (mo_max_requests m) (mt_max_requests t);
  mo_max_requests_jitter := default (mo_max_requests_jitter m) (mt_max_requests_jitter t);
  mo_recycle_max_percent := default (mo_recycle_max_percent m) (mt_recycle_max_percent t);
  mo_count_streams_toward_max_requests := default (mo_count_streams_toward_max_requests m) (mt_count_streams_toward_max_requests t);
  mo_recycle_stream_drain_timeout_secs := default (mo_recycle_stream_drain_timeout_secs m) (mt_recycle_stream_drain_timeout_secs t);
  mo_max_concurrent_streams := default (mo_max_concurrent_streams m) (mt_max_concurrent_streams t);
  mo_recycle_stream_grace_ms := default (mo_recycle_stream_grace_ms m) (mt_recycle_stream_grace_ms t);
  mo_health_check_interval := default (mo_health_check_interval m) (mt_health_check_interval t);
  mo_hooks := {| wh_on_ready := wh_on_ready (mo_hooks m);
                 wh_on_exit := wh_on_exit (mo_hooks m);
                 wh_on_error := wh_on_error (mo_hooks m);
                 wh_on_ready_http := wh_on_ready_http (mo_hooks m);
                 wh_on_exit_http := wh_on_exit_http (mo_hooks m);
                 wh_on_error_http := wh_on_error_http (mo_hooks m);
                 wh_hook_http_timeout := default (wh_hook_http_timeout (mo_hooks m)) (mt_hook_http_timeout t) |};
  mo_policies := mo_policies m;
  mo_ejection_error_threshold := default (mo_ejection_error_threshold m) (mt_ejection_error_threshold t);
  mo_ejection_timeout := default (mo_ejection_timeout m) (mt_ejection_timeout t);
  mo_ejection_max_percent := default (mo_ejection_max_percent m) (mt_ejection_max_percent t);
  mo_ejection_max_timeout := default (mo_ejection_max_timeout m) (mt_ejection_max_timeout t);
  mo_max_retries := default (mo_max_retries m) (mt_max_retries t);
  mo_startup_timeout := default (mo_startup_timeout m) (mt_startup_timeout t);
  mo_health_check_timeout := default (mo_health_check_timeout m) (mt_health_check_timeout t);
  mo_health_check_kill_threshold := default (mo_health_check_kill_threshold m) (mt_health_check_kill_threshold t);
  mo_worker_kill_timeout := default (mo_worker_kill_timeout m) (mt_worker_kill_timeout t);
  mo_queue_timeout_secs := mo_queue_timeout_secs m;
  mo_queue_timeout_action := mo_queue_timeout_action m
|}.

(** A field set in [other] wins. *)
Definition overlay {A} (self other : option A) : option A := if is_some other then other else self.

Definition merge_from (self other : ModelTunables) : ModelTunables := {|
  mt_max_queue_size := overlay (mt_max_queue_size self) (mt_max_queue_size other);
  mt_max_requests := overlay (mt_max_requests self) (mt_max_requests other);
  mt_max_requests_jitter := overlay (mt_max_requests_jitter self) (mt_max_requests_jitter other);
  mt_recycle_max_percent := overlay (mt_recycle_max_percent self) (mt_recycle_max_percent other);
  mt_count_streams_toward_max_requests := overlay (mt_count_streams_toward_max_requests self) (mt_count_streams_toward_max_requests other);
  mt_recycle_stream_drain_timeout_secs := overlay (mt_recycle_stream_drain_timeout_secs self) (mt_recycle_stream_drain_timeout_secs other);
  mt_max_concurrent_streams := overlay (mt_max_concurrent_streams self) (mt_max_concurrent_streams other);
  mt_recycle_stream_grace_ms := overlay (mt_recycle_stream_grace_ms self) (mt_recycle_stream_grace_ms other);
  mt_request_timeout := overlay (mt_request_timeout self) (mt_request_timeout other);
  mt_health_check_interval := overlay (mt_health_check_interval self) (mt_health_check_interval other);
  mt_ejection_error_threshold := overlay (mt_ejection_error_threshold self) (mt_ejection_error_threshold other);
  mt_ejection_timeout := overlay (mt_ejection_timeout self) (mt_ejection_timeout other);
  mt_ejection_max_percent := overlay (mt_ejection_max_percent self) (mt_ejection_max_percent other);
  mt_ejection_max_timeout := overlay (mt_ejection_max_timeout self) (mt_ejection_max_timeout other);
  mt_max_retries := overlay (mt_max_retries self) (mt_max_retries other);
  mt_startup_timeout := overlay (mt_startup_timeout self) (mt_startup_timeout other);
  mt_health_check_timeout := overlay (mt_health_check_timeout self) (mt_health_check_timeout other);
  mt_health_check_kill_threshold := overlay (mt_health_check_kill_threshold self) (mt_health_check_kill_threshold other);
  mt_worker_kill_timeout := overlay (mt_worker_kill_timeout self) (mt_worker_kill_timeout other);
  mt_hook_http_timeout := overlay (mt_hook_http_timeout self) (mt_hook_http_timeout other)
|}.

Record CliOverrides := {
  cl_port : option Z;
  cl_host : option string;
  cl_model_repo : option string;
  cl_threads : option Z;
  cl_timeout : option spec_float;
  cl_log_level : option string;
  cl_log_info_output : option string;
  cl_log_error_output : option string;
  cl_log_rotation : option string;
  cl_grpc_port : option Z;
  cl_metrics_port : option Z;
  cl_no_grpc : bool;
  cl_no_metrics : bool;
  cl_no_streaming_metrics : bool;
  cl_graceful_timeout : option spec_float;
  cl_keepalive_timeout : option spec_float;
  cl_shutdown_stream_grace_ms : option Z;
  cl_tunables : ModelTunables;
}.

Definition override_server (cli : CliOverrides) (c : ServerConfig) : ServerConfig := {|
  sv_http_port := default (sv_http_port c) (cl_port cli);
  sv_grpc_port := default (sv_grpc_port c) (cl_grpc_port cli);
  sv_metrics_port := default (sv_metrics_port c) (cl_metrics_port cli);
  sv_host := default (sv_host c) (cl_host cli);
  sv_timeout := default (sv_timeout c) (cl_timeout cli);
  sv_threads := overlay (sv_threads c) (cl_threads cli);
  sv_cache_registry := sv_cache_registry c;
  sv_graceful_timeout := default (sv_graceful_timeout c) (cl_graceful_timeout cli);
  sv_shutdown_stream_grace_ms := default (sv_shutdown_stream_grace_ms c) (cl_shutdown_stream_grace_ms cli);
  sv_keepalive_timeout := default (sv_keepalive_timeout c) (cl_keepalive_timeout cli);
  sv_stream_keepalive_interval_secs := sv_stream_keepalive_interval_secs c;
  sv_stream_channel_size := sv_stream_channel_size c;
  sv_request_body_timeout_secs := sv_request_body_timeout_secs c;
  sv_http2_keepalive_interval_secs := sv_http2_keepalive_interval_secs c;
  sv_http2_keepalive_timeout_secs := sv_http2_keepalive_timeout_secs c;
  sv_socket_mode := sv_socket_mode c;
  sv_compression := sv_compression c;
  sv_request_decompression := sv_request_decompression c;
  sv_tls_cert_path := sv_tls_cert_path c;
  sv_tls_key_path := sv_tls_key_path c;
  sv_mtls_ca_path := sv_mtls_ca_path c;
  sv_tls_min_version := sv_tls_min_version c;
  sv_trusted_origins := sv_trusted_origins c;
  sv_sequence_ttl_secs := sv_sequence_ttl_secs c;
  sv_max_sequences := sv_max_sequences c;
  sv_balance_abs_threshold := sv_balance_abs_threshold c;
  sv_balance_rel_threshold := sv_balance_rel_threshold c;
  sv_decoupled_idle_timeout_secs := sv_decoupled_idle_timeout_secs c;
  sv_max_concurrent_streaming_dags := sv_max_concurrent_streaming_dags c;
  sv_max_inflight := sv_max_inflight c;
  sv_max_connections := sv_max_connections c;
  sv_max_request_body_bytes := sv_max_request_body_bytes c;
  sv_max_upload_bytes := sv_max_upload_bytes c;
  sv_trusted_proxies := sv_trusted_proxies c;
  sv_cors := sv_cors c
|}.

Definition override_grpc (cli : CliOverrides) (c : GrpcConfig) : GrpcConfig := {|
  gr_enabled := if cl_no_grpc cli then false else gr_enabled c;
  gr_host := gr_host c;
  gr_admin_bind := gr_admin_bind c;
  gr_socket_mode := gr_socket_mode c;
  gr_http2_keepalive_interval_secs := gr_http2_keepalive_interval_secs c;
  gr_http2_keepalive_timeout_secs := gr_http2_keepalive_timeout_secs c;
  gr_http2_adaptive_window := gr_http2_adaptive_window c;
  gr_http2_max_frame_size := gr_http2_max_frame_size c;
  gr_response_compression := gr_response_compression c;
  gr_tls_cert_path := gr_tls_cert_path c;
  gr_tls_key_path := gr_tls_key_path c;
  gr_mtls_ca_path := gr_mtls_ca_path c;
  gr_tls_min_version := gr_tls_min_version c;
  gr_reflection := gr_reflection c
|}.

Definition override_metrics (cli : CliOverrides) (c : MetricsConfig) : MetricsConfig := {|
  me_enabled := if cl_no_metrics cli then false else me_enabled c;
  me_host := me_host c;
  me_metric_namespace := me_metric_namespace c;
  me_timeline_max_points := me_timeline_max_points c;
  me_timeline_sample_interval_secs := me_timeline_sample_interval_secs c;
  me_p99_window_max_samples := me_p99_window_max_samples c;
  me_p99_window_max_age_secs := me_p99_window_max_age_secs c
|}.

Definition override_logging (cli : CliOverrides) (c : LoggingConfig) : LoggingConfig := {|
  lg_level := default (lg_level c) (cl_log_level cli);
  lg_info_output := overlay (lg_info_output c) (cl_log_info_output cli);
  lg_error_output := overlay (lg_error_output c) (cl_log_error_output cli);
  lg_rotation := default (lg_rotation c) (cl_log_rotation cli);
  lg_max_size := lg_max_size c;
  lg_backup_count := lg_backup_count c;
  lg_hostname_in_log_name := lg_hostname_in_log_name c
|}.

Definition override_model_repository (cli : CliOverrides) (c : ModelRepositoryConfig) : ModelRepositoryConfig := {|
  mr_path := default (mr_path c) (cl_model_repo cli)
|}.

Definition override_features (cli : CliOverrides) (c : FeaturesConfig) : FeaturesConfig := {|
  fe_timeline := fe_timeline c;
  fe_custom_metrics := fe_custom_metrics c;
  fe_alerts := fe_alerts c;
  fe_version_compare := fe_version_compare c;
  fe_streaming := fe_streaming c;
  fe_grpc_streaming := fe_grpc_streaming c;
  fe_sse := fe_sse c;
  fe_websocket_streaming := fe_websocket_streaming c;
  fe_http_bidi := fe_http_bidi c;
  fe_decoupled := fe_decoupled c;
  fe_streaming_metrics := if cl_no_streaming_metrics cli then false else fe_streaming_metrics c;
  fe_accelerator_metrics := fe_accelerator_metrics c;
  fe_canary_override := fe_canary_override c
|}.

Definition apply_overrides (cli : CliOverrides) (c : Config) : Config := {|
  cf_server := override_server cli (cf_server c);
  cf_grpc := override_grpc cli (cf_grpc c);
  cf_metrics := override_metrics cli (cf_metrics c);
  cf_rate_limit := cf_rate_limit c;
  cf_logging := override_logging cli (cf_logging c);
  cf_model_repository := override_model_repository cli (cf_model_repository c);
  cf_features := override_features cli (cf_features c);
  cf_orchestration := cf_orchestration c;
  cf_model_defaults := merge_from (cf_model_defaults c) (cl_tunables cli);
  cf_tunables := cf_tunables c;
  cf_access_control := cf_access_control c;
  cf_openai_compact := cf_openai_compact c;
  cf_telemetry := cf_telemetry c;
  cf_callbacks := cf_callbacks c;
  cf_alerts := cf_alerts c
|}.

(** The names of the pairs whose flag is set. *)
Definition chosen (l : list (string * bool)) : list string := map fst (List.filter snd l).

(** [overridden_paths]: the set, as a list. *)
Definition overridden_paths (cli : CliOverrides) : list string :=
  let t := cl_tunables cli in
  (chosen
    [("server.http_port", is_some (cl_port cli));
     ("server.host", is_some (cl_host cli));
     ("model_repository.path", is_some (cl_model_repo cli));
     ("server.threads", is_some (cl_threads cli));
     ("server.timeout", is_some (cl_timeout cli));
     ("logging.level", is_some (cl_log_level cli));
     ("logging.info_output", is_some (cl_log_info_output cli));
     ("logging.error_output", is_some (cl_log_error_output cli));
     ("logging.rotation", is_some (cl_log_rotation cli));
     ("server.grpc_port", is_some (cl_grpc_port cli));
     ("server.metrics_port", is_some (cl_metrics_port cli));
     ("grpc.enabled", cl_no_grpc cli);
     ("metrics.enabled", cl_no_metrics cli);
     ("features.streaming_metrics", cl_no_streaming_metrics cli);
     ("server.graceful_timeout", is_some (cl_graceful_timeout cli));
     ("server.keepalive_timeout", is_some (cl_keepalive_timeout cli));
     ("server.shutdown_stream_grace_ms", is_some (cl_shutdown_stream_grace_ms cli))]
  ++ map (String.append "model_defaults.") (chosen
    [("max_queue_size", is_some (mt_max_queue_size t));
     ("max_requests", is_some (mt_max_requests t));
     ("max_requests_jitter", is_some (mt_max_requests_jitter t));
     ("recycle_max_percent", is_some (mt_recycle_max_percent t));
     ("count_streams_toward_max_requests", is_some (mt_count_streams_toward_max_requests t));
     ("recycle_stream_drain_timeout_secs", is_some (mt_recycle_stream_drain_timeout_secs t));
     ("max_concurrent_streams", is_some (mt_max_concurrent_streams t));
     ("recycle_stream_grace_ms", is_some (mt_recycle_stream_grace_ms t));
     ("request_timeout", is_some (mt_request_timeout t));
     ("health_check_interval", is_some (mt_health_check_interval t));
     ("ejection_error_threshold", is_some (mt_ejection_error_threshold t));
     ("ejection_timeout", is_some (mt_ejection_timeout t));
     ("ejection_max_percent", is_some (mt_ejection_max_percent t));
     ("ejection_max_timeout", is_some (mt_ejection_max_timeout t));
     ("max_retries", is_some (mt_max_retries t));
     ("startup_timeout", is_some (mt_startup_timeout t));
     ("health_check_timeout", is_some (mt_health_check_timeout t));
     ("health_check_kill_threshold", is_some (mt_health_check_kill_threshold t));
     ("worker_kill_timeout", is_some (mt_worker_kill_timeout t));
     ("hook_http_timeout", is_some (mt_hook_http_timeout t))]))%list.

(** ** Values shown *)

Definition uint_value (n : Z) : Value := Num (PosInt n).
Definition int_value (n : Z) : Value := Num (if n <? 0 then NegInt n else PosInt n).

(** A float that is no number of JSON is [null]. *)
Definition f64_value (f : spec_float) : Value := if is_finite f then Num (FloatNum f) else Null.
Definition f32_value (f : spec_float) : Value := f64_value (f64_of_f32 f).

Definition opt_value {A} (f : A -> Value) (o : option A) : Value :=
  match o with Some a => f a | None => Null end.

Definition list_value {A} (f : A -> Value) (l : list A) : Value := Array (map f l).

Definition key_le {A} (a b : string * A) : Prop := String.le a.1 b.1.

#[export] Instance key_le_dec {A} (a b : string * A) : Decision (key_le a b).
Proof. unfold key_le. apply _. Defined.

Definition map_value {A} (f : A -> Value) (m : gmap string A) : Value :=
  Object (map (fun kv => (kv.1, f kv.2)) (merge_sort key_le (map_to_list m))).

Definition TelemetryProtocol_value (p : TelemetryProtocol) : Value :=
  Str match p with TelemetryGrpc => "grpc" | TelemetryHttp => "http" end.

Definition EndpointControl_value (c : Access.EndpointControl) : Value :=
  match c with
  | CPublic => Object [("mode", Str "public")]
  | CKey key value value_env value_file =>
      Object [("key", Str key); ("mode", Str "key"); ("value", opt_value Str value);
              ("value_env", opt_value Str value_env); ("value_file", opt_value Str value_file)]
  end.

Definition ProtocolControl_value (c : Access.ProtocolControl) : Value :=
  Object [("grpc", opt_value EndpointControl_value (pc_grpc c)); ("http", opt_value EndpointControl_value (pc_http c))].

Definition AccessControlConfig_value (c : Access.AccessControlConfig) : Value :=
  Object [("admin", ProtocolControl_value (acc_admin c)); ("health", opt_value EndpointControl_value (acc_health c));
          ("inference", ProtocolControl_value (acc_inference c))].

Definition CorsPolicy_value (c : Cors.CorsPolicy) : Value :=
  Object [("allow_credentials", Bool (allow_credentials c)); ("allow_headers", list_value Str (allow_headers c));
          ("allow_methods", list_value Str (allow_methods c)); ("allow_origins", list_value Str (allow_origins c));
          ("expose_headers", list_value Str (expose_headers c)); ("max_age_secs", uint_value (max_age_secs c))].

Definition CallbacksConfig_value (c : CallbacksConfig) : Value := Object [
  ("timeout_secs", f32_value (cb_timeout_secs c))
].

Definition AlertsConfig_value (c : AlertsConfig) : Value := Object [
  ("p99_ms_critical", f64_value (al_p99_ms_critical c));
  ("p99_ms_warning", f64_value (al_p99_ms_warning c));
  ("queue_depth_critical", int_value (al_queue_depth_critical c));
  ("queue_depth_warning", int_value (al_queue_depth_warning c))
].

Definition OpenaiCompactConfig_value (c : OpenaiCompactConfig) : Value := Object [
  ("auth", opt_value EndpointControl_value (oc_auth c))
].

Definition ServerTunables_value (c : ServerTunables) : Value := Object [
  ("file_changed_timeout_secs", f32_value (tn_file_changed_timeout_secs c));
  ("hot_reload_cooldown_secs", f32_value (tn_hot_reload_cooldown_secs c));
  ("reconcile_coalesce_secs", f32_value (tn_reconcile_coalesce_secs c));
  ("unpack_timeout_secs", f32_value (tn_unpack_timeout_secs c));
  ("watcher_debounce_secs", f32_value (tn_watcher_debounce_secs c));
  ("worker_stderr_drain_secs", f32_value (tn_worker_stderr_drain_secs c));
  ("worker_stderr_tail_bytes", uint_value (tn_worker_stderr_tail_bytes c))
].

Definition ServerConfig_value (c : ServerConfig) : Value := Object [
  ("balance_abs_threshold", uint_value (sv_balance_abs_threshold c));
  ("balance_rel_threshold", f32_value (sv_balance_rel_threshold c));
  ("cache_registry", Bool (sv_cache_registry c));
  ("compression", Bool (sv_compression c));
  ("cors", opt_value CorsPolicy_value (sv_cors c));
  ("decoupled_idle_timeout_secs", f32_value (sv_decoupled_idle_timeout_secs c));
  ("graceful_timeout", f32_value (sv_graceful_timeout c));
  ("grpc_port", uint_value (sv_grpc_port c));
  ("host", Str (sv_host c));
  ("http2_keepalive_interval_secs", opt_value f32_value (sv_http2_keepalive_interval_secs c));
  ("http2_keepalive_timeout_secs", opt_value f32_value (sv_http2_keepalive_timeout_secs c));
  ("http_port", uint_value (sv_http_port c));
  ("keepalive_timeout", f32_value (sv_keepalive_timeout c));
  ("max_concurrent_streaming_dags", uint_value (sv_max_concurrent_streaming_dags c));
  ("max_connections", uint_value (sv_max_connections c));
  ("max_inflight", uint_value (sv_max_inflight c));
  ("max_request_body_bytes", opt_value uint_value (sv_max_request_body_bytes c));
  ("max_sequences", uint_value (sv_max_sequences c));
  ("max_upload_bytes", opt_value uint_value (sv_max_upload_bytes c));
  ("metrics_port", uint_value (sv_metrics_port c));
  ("mtls_ca_path", opt_value Str (sv_mtls_ca_path c));
  ("request_body_timeout_secs", f32_value (sv_request_body_timeout_secs c));
  ("request_decompression", Bool (sv_request_decompression c));
  ("sequence_ttl_secs", f32_value (sv_sequence_ttl_secs c));
  ("shutdown_stream_grace_ms", uint_value (sv_shutdown_stream_grace_ms c));
  ("socket_mode", uint_value (sv_socket_mode c));
  ("stream_channel_size", uint_value (sv_stream_channel_size c));
  ("stream_keepalive_interval_secs", f32_value (sv_stream_keepalive_interval_secs c));
  ("threads", opt_value uint_value (sv_threads c));
  ("timeout", f32_value (sv_timeout c));
  ("tls_cert_path", opt_value Str (sv_tls_cert_path c));
  ("tls_key_path", opt_value Str (sv_tls_key_path c));
  ("tls_min_version", opt_value Str (sv_tls_min_version c));
  ("trusted_origins", list_value Str (sv_trusted_origins c));
  ("trusted_proxies", list_value Str (sv_trusted_proxies c))
].

Definition GrpcConfig_value (c : GrpcConfig) : Value := Object [
  ("admin_bind", opt_value Str (gr_admin_bind c));
  ("enabled", Bool (gr_enabled c));
  ("host", opt_value Str (gr_host c));
  ("http2_adaptive_window", Bool (gr_http2_adaptive_window c));
  ("http2_keepalive_interval_secs", opt_value uint_value (gr_http2_keepalive_interval_secs c));
  ("http2_keepalive_timeout_secs", opt_value uint_value (gr_http2_keepalive_timeout_secs c));
  ("http2_max_frame_size", opt_value uint_value (gr_http2_max_frame_size c));
  ("mtls_ca_path", opt_value Str (gr_mtls_ca_path c));
  ("reflection", Bool (gr_reflection c));
  ("response_compression", Bool (gr_response_compression c));
  ("socket_mode", uint_value (gr_socket_mode c));
  ("tls_cert_path", opt_value Str (gr_tls_cert_path c));
  ("tls_key_path", opt_value Str (gr_tls_key_path c));
  ("tls_min_version", opt_value Str (gr_tls_min_version c))
].

Definition MetricsConfig_value (c : MetricsConfig) : Value := Object [
  ("enabled", Bool (me_enabled c));
  ("host", opt_value Str (me_host c));
  ("metric_namespace", Str (me_metric_namespace c));
  ("p99_window_max_age_secs", f64_value (me_p99_window_max_age_secs c));
  ("p99_window_max_samples", uint_value (me_p99_window_max_samples c));
  ("timeline_max_points", uint_value (me_timeline_max_points c));
  ("timeline_sample_interval_secs", uint_value (me_timeline_sample_interval_secs c))
].

Definition TelemetryConfig_value (c : TelemetryConfig) : Value := Object [
  ("baggage_allowlist", list_value Str (te_baggage_allowlist c));
  ("baggage_max_entries", uint_value (te_baggage_max_entries c));
  ("baggage_max_entry_bytes", uint_value (te_baggage_max_entry_bytes c));
  ("enabled", Bool (te_enabled c));
  ("exemplars_enabled", Bool (te_exemplars_enabled c));
  ("export_interval_millis", uint_value (te_export_interval_millis c));
  ("health_admin_sample_ratio", f64_value (te_health_admin_sample_ratio c));
  ("max_queue_size", uint_value (te_max_queue_size c));
  ("metrics_enabled", Bool (te_metrics_enabled c));
  ("otlp_endpoint", Str (te_otlp_endpoint c));
  ("otlp_headers", map_value Str (te_otlp_headers c));
  ("protocol", TelemetryProtocol_value (te_protocol c));
  ("resource_attributes", map_value Str (te_resource_attributes c));
  ("sample_ratio", f64_value (te_sample_ratio c));
  ("service_name", Str (te_service_name c))
].

Definition RateLimitConfig_value (c : RateLimitConfig) : Value := Object [
  ("max_buckets", uint_value (rb_max_buckets c))
].

Definition LoggingConfig_value (c : LoggingConfig) : Value := Object [
  ("backup_count", uint_value (lg_backup_count c));
  ("error_output", opt_value Str (lg_error_output c));
  ("hostname_in_log_name", Bool (lg_hostname_in_log_name c));
  ("info_output", opt_value Str (lg_info_output c));
  ("level", Str (lg_level c));
  ("max_size", uint_value (lg_max_size c));
  ("rotation", Str (lg_rotation c))
].

Definition ModelRepositoryConfig_value (c : ModelRepositoryConfig) : Value := Object [
  ("path", Str (mr_path c))
].

Definition FeaturesConfig_value (c : FeaturesConfig) : Value := Object [
  ("accelerator_metrics", Bool (fe_accelerator_metrics c));
  ("alerts", Bool (fe_alerts c));
  ("canary_override", Bool (fe_canary_override c));
  ("custom_metrics", Bool (fe_custom_metrics c));
  ("decoupled", Bool (fe_decoupled c));
  ("grpc_streaming", Bool (fe_grpc_streaming c));
  ("http_bidi", Bool (fe_http_bidi c));
  ("sse", Bool (fe_sse c));
  ("streaming", Bool (fe_streaming c));
  ("streaming_metrics", Bool (fe_streaming_metrics c));
  ("timeline", Bool (fe_timeline c));
  ("version_compare", Bool (fe_version_compare c));
  ("websocket_streaming", Bool (fe_websocket_streaming c))
].

Definition ModelStrategyConfig_value (c : ModelStrategyConfig) : Value := Object [
  ("default_version", opt_value Str (sg_default_version c));
  ("load_policy", Str (sg_load_policy c));
  ("max_loaded_versions", opt_value uint_value (sg_max_loaded_versions c));
  ("name", Str (sg_name c));
  ("versions_to_load", list_value Str (sg_versions_to_load c));
  ("weights", opt_value (map_value uint_value) (sg_weights c))
].

Definition OrchestrationConfig_value (c : OrchestrationConfig) : Value := Object [
  ("control_mode", Str (oz_control_mode c));
  ("load_models", list_value Str (oz_load_models c));
  ("models", list_value ModelStrategyConfig_value (oz_models c));
  ("poll_interval", uint_value (oz_poll_interval c))
].

Definition ModelTunables_value (c : ModelTunables) : Value := Object [
  ("count_streams_toward_max_requests", opt_value Bool (mt_count_streams_toward_max_requests c));
  ("ejection_error_threshold", opt_value uint_value (mt_ejection_error_threshold c));
  ("ejection_max_percent", opt_value uint_value (mt_ejection_max_percent c));
  ("ejection_max_timeout", opt_value f32_value (mt_ejection_max_timeout c));
  ("ejection_timeout", opt_value f32_value (mt_ejection_timeout c));
  ("health_check_interval", opt_value f32_value (mt_health_check_interval c));
  ("health_check_kill_threshold", opt_value uint_value (mt_health_check_kill_threshold c));
  ("health_check_timeout", opt_value f32_value (mt_health_check_timeout c));
  ("hook_http_timeout", opt_value f32_value (mt_hook_http_timeout c));
  ("max_concurrent_streams", opt_value uint_value (mt_max_concurrent_streams c));
  ("max_queue_size", opt_value uint_value (mt_max_queue_size c));
  ("max_requests", opt_value uint_value (mt_max_requests c));
  ("max_requests_jitter", opt_value uint_value (mt_max_requests_jitter c));
  ("max_retries", opt_value uint_value (mt_max_retries c));
  ("recycle_max_percent", opt_value uint_value (mt_recycle_max_percent c));
  ("recycle_stream_drain_timeout_secs", opt_value f32_value (mt_recycle_stream_drain_timeout_secs c));
  ("recycle_stream_grace_ms", opt_value uint_value (mt_recycle_stream_grace_ms c));
  ("request_timeout", opt_value f32_value (mt_request_timeout c));
  ("startup_timeout", opt_value f32_value (mt_startup_timeout c));
  ("worker_kill_timeout", opt_value f32_value (mt_worker_kill_timeout c))
].

Definition Config_value (c : Config) : Value := Object [
  ("access_control", AccessControlConfig_value (cf_access_control c));
  ("alerts", AlertsConfig_value (cf_alerts c));
  ("callbacks", CallbacksConfig_value (cf_callbacks c));
  ("features", FeaturesConfig_value (cf_features c));
  ("grpc", GrpcConfig_value (cf_grpc c));
  ("logging", LoggingConfig_value (cf_logging c));
  ("metrics", MetricsConfig_value (cf_metrics c));
  ("model_defaults", ModelTunables_value (cf_model_defaults c));
  ("model_repository", ModelRepositoryConfig_value (cf_model_repository c));
  ("openai_compact", OpenaiCompactConfig_value (cf_openai_compact c));
  ("orchestration", OrchestrationConfig_value (cf_orchestration c));
  ("rate_limit", RateLimitConfig_value (cf_rate_limit c));
  ("server", ServerConfig_value (cf_server c));
  ("telemetry", TelemetryConfig_value (cf_telemetry c));
  ("tunables", ServerTunables_value (cf_tunables c))
].

(** ** Checks *)

(** [unix_socket_path] and [resolve_grpc_host]. *)
Definition unix_socket_path (host : string) : option string := strip_prefix "unix:" host.

Definition resolve_grpc_host (grpc_host : option string) (server_host : string) : string :=
  match grpc_host with
  | Some h => h
  | None => match unix_socket_path server_host with Some _ => "127.0.0.1" | None => server_host end
  end.

Record TlsSettings := {
  tl_cert_path : string;
  tl_key_path : string;
  tl_mtls_ca_path : option string;
  tl_min_version : string;
}.

Definition tls_settings_from (cert key ca min_version : option string) : option TlsSettings :=
  match cert, key with
  | Some c, Some k =>
      Some {| tl_cert_path := c; tl_key_path := k; tl_mtls_ca_path := ca; tl_min_version := default "1.2" min_version |}
  | _, _ => None
  end.

Definition server_tls_settings (c : ServerConfig) : option TlsSettings :=
  tls_settings_from (sv_tls_cert_path c) (sv_tls_key_path c) (sv_mtls_ca_path c) (sv_tls_min_version c).

Definition grpc_tls_settings (c : GrpcConfig) : option TlsSettings :=
  tls_settings_from (gr_tls_cert_path c) (gr_tls_key_path c) (gr_mtls_ca_path c) (gr_tls_min_version c).

(** Fail with the message unless the condition holds. *)
Definition ensure (b : bool) (msg : string) : result string unit := if b then Ok tt else Err msg.

Definition validate_tls_side (side : string) (cert key ca min_version : option string) (is_uds : bool) : result string unit :=
  let? _ := match cert, key with
            | Some _, None => Err (side +:+ ".tls_cert_path is set but " +:+ side +:+ ".tls_key_path is not")
            | None, Some _ => Err (side +:+ ".tls_key_path is set but " +:+ side +:+ ".tls_cert_path is not")
            | _, _ => Ok tt
            end in
  let tls_enabled := is_some cert && is_some key in
  let? _ := ensure (negb (is_some ca && negb tls_enabled))
              (side +:+ ".mtls_ca_path requires " +:+ side +:+ ".tls_cert_path and " +:+ side +:+ ".tls_key_path") in
  let? _ := ensure (negb (tls_enabled && is_uds)) (side +:+ " TLS is mutually exclusive with a UDS bind") in
  match min_version with
  | Some v => ensure (String.eqb v "1.2" || String.eqb v "1.3") (side +:+ ".tls_min_version must be 1.2 or 1.3, got " +:+ v)
  | None => Ok tt
  end.

Definition validate_tls (c : Config) : result string unit :=
  let s := cf_server c in
  let g := cf_grpc c in
  let? _ := validate_tls_side "server" (sv_tls_cert_path s) (sv_tls_key_path s) (sv_mtls_ca_path s) (sv_tls_min_version s)
              (is_some (unix_socket_path (sv_host s))) in
  validate_tls_side "grpc" (gr_tls_cert_path g) (gr_tls_key_path g) (gr_mtls_ca_path g) (gr_tls_min_version g)
    (is_some (unix_socket_path (resolve_grpc_host (gr_host g) (sv_host s)))).

Definition is_valid_metric_namespace (ns : string) : bool :=
  match ns with
  | EmptyString => false
  | String c rest =>
      (is_ascii_alpha c || eq_char c "_"%char || eq_char c ":"%char)
      && all_chars (fun c => is_alphanumeric c || eq_char c "_"%char || eq_char c ":"%char) rest
  end.

(** The grace of the streams must fit in the drain window. *)
Definition grace_fits (s : ServerConfig) : bool :=
  negb ((0 <? sv_shutdown_stream_grace_ms s)
        && fge (f32_add (f32_of_Z (sv_shutdown_stream_grace_ms s)) (f32_of_Z 500))
               (f32_mul (sv_graceful_timeout s) (f32_of_Z 1000))).

Definition in_unit_interval (r : spec_float) : bool := fle float_zero r && fle r (f64_of_Z 1).

(** All fields of a list pass [check_duration_secs]. *)
Fixpoint check_durations (fields : list (string * spec_float)) : result string unit :=
  match fields with
  | [] => Ok tt
  | (name, v) :: fields => let? _ := check_duration_secs name v in check_durations fields
  end.

Section validate.
(** [ipnet]: the parser of a CIDR and the network of one address. *)
Context {IpNet : Type} (parse_cidr : string -> option IpNet) (single : IpAddr -> IpNet).

(** [Config::validate]. *)
Definition validate (c : Config) : result string unit :=
  let s := cf_server c in
  let t := cf_tunables c in
  let? _ := check_durations [("server.timeout", sv_timeout s); ("server.graceful_timeout", sv_graceful_timeout s)] in
  let? _ := ensure (grace_fits s) "config field `server.shutdown_stream_grace_ms` must leave room inside `server.graceful_timeout`" in
  let? _ := check_durations
              [("server.keepalive_timeout", sv_keepalive_timeout s);
               ("server.stream_keepalive_interval_secs", sv_stream_keepalive_interval_secs s);
               ("server.request_body_timeout_secs", sv_request_body_timeout_secs s);
               ("server.sequence_ttl_secs", sv_sequence_ttl_secs s)] in
  let? _ := ensure (negb (bool_decide (sv_max_request_body_bytes s = Some 0)))
              "config field `server.max_request_body_bytes` must be >= 1" in
  let? _ := ensure (negb (flt (sv_balance_rel_threshold s) float_zero || negb (is_finite (sv_balance_rel_threshold s))))
              "config field `server.balance_rel_threshold` must be a finite non-negative multiplier" in
  let? _ := check_durations
              [("tunables.reconcile_coalesce_secs", tn_reconcile_coalesce_secs t);
               ("tunables.hot_reload_cooldown_secs", tn_hot_reload_cooldown_secs t);
               ("tunables.watcher_debounce_secs", tn_watcher_debounce_secs t);
               ("tunables.file_changed_timeout_secs", tn_file_changed_timeout_secs t);
               ("tunables.worker_stderr_drain_secs", tn_worker_stderr_drain_secs t);
               ("tunables.unpack_timeout_secs", tn_unpack_timeout_secs t)] in
  let? _ := match gr_http2_max_frame_size (cf_grpc c) with
            | Some size => ensure ((16384 <=? size) && (size <=? 16777215))
                             "config field `grpc.http2_max_frame_size` must be in [16384, 16777215]"
            | None => Ok tt
            end in
  let? _ := validate_tls c in
  let? _ := ensure (is_valid_metric_namespace (me_metric_namespace (cf_metrics c)))
              "config field `metrics.metric_namespace` is not a valid Prometheus name segment" in
  let? _ := trusted_networks parse_cidr single (sv_trusted_proxies s) in
  let? _ := ensure (in_unit_interval (te_sample_ratio (cf_telemetry c))) "config field `telemetry.sample_ratio` must be in [0, 1]" in
  let? _ := ensure (in_unit_interval (te_health_admin_sample_ratio (cf_telemetry c)))
              "config field `telemetry.health_admin_sample_ratio` must be in [0, 1]" in
  let? _ := ensure (bool_decide (oz_control_mode (cf_orchestration c) ∈ ["explicit"; "auto"; "all"]))
              "config field `orchestration.control_mode` must be explicit, auto or all" in
  ensure (negb (te_enabled (cf_telemetry c) && match te_protocol (cf_telemetry c) with TelemetryHttp => true | TelemetryGrpc => false end))
    "config field `telemetry.protocol`: `http` is not implemented this period".

(** [load_config], of the deserialised file. *)
Definition load_config (file : result string Config) : result string Config :=
  let? c := file in
  let? _ := validate c in
  Ok c.
End validate.

(** [WarmupPolicy::validate] of an optional policy. *)
Definition validate_warmup (p : option WarmupPolicy) : result string unit :=
  match p with
  | Some p => ensure (valid_policy p) "policies.warmup"
  | None => Ok tt
  end.

(** [ModelConfig::validate]. *)
Definition validate_model (m : ModelConfig) : result string unit :=
  let? _ := check_durations
              [("batch_timeout", mo_batch_timeout m);
               ("min_batch_timeout", mo_min_batch_timeout m);
               ("request_timeout", mo_request_timeout m);
               ("recycle_stream_drain_timeout_secs", mo_recycle_stream_drain_timeout_secs m);
               ("health_check_interval", mo_health_check_interval m);
               ("ejection_timeout", mo_ejection_timeout m);
               ("startup_timeout", mo_startup_timeout m);
               ("health_check_timeout", mo_health_check_timeout m);
               ("worker_kill_timeout", mo_worker_kill_timeout m);
               ("hook_http_timeout", wh_hook_http_timeout (mo_hooks m))] in
  let? _ := ensure ((1 <=? mo_recycle_max_percent m) && (mo_recycle_max_percent m <=? 100))
              "config field `recycle_max_percent` must be within 1-100" in
  let? _ := resolve_device_plan (mo_devices m) (mo_workers_per_device m) (mo_continuous_batching m) in
  validate_warmup (po_warmup (mo_policies m)).

(** ** Reading a model's file *)

(** The policies replaced. *)
Definition set_policies (p : ModelPolicies) (m : ModelConfig) : ModelConfig := {|
  mo_name := mo_name m;
  mo_max_batch_size := mo_max_batch_size m;
  mo_batch_timeout := mo_batch_timeout m;
  mo_stream := mo_stream m;
  mo_continuous_batching := mo_continuous_batching m;
  mo_accelerator := mo_accelerator m;
  mo_devices := mo_devices m;
  mo_workers_per_device := mo_workers_per_device m;
  mo_startup_concurrency := mo_startup_concurrency m;
  mo_max_queue_size := mo_max_queue_size m;
  mo_hot_reload := mo_hot_reload m;
  mo_hot_reload_patterns := mo_hot_reload_patterns m;
  mo_adaptive_batching := mo_adaptive_batching m;
  mo_min_batch_timeout := mo_min_batch_timeout m;
  mo_adaptive_queue_threshold := mo_adaptive_queue_threshold m;
  mo_request_timeout := mo_request_timeout m;
  mo_max_requests := mo_max_requests m;
  mo_max_requests_jitter := mo_max_requests_jitter m;
  mo_recycle_max_percent := mo_recycle_max_percent m;
  mo_count_streams_toward_max_requests := mo_count_streams_toward_max_requests m;
  mo_recycle_stream_drain_timeout_secs := mo_recycle_stream_drain_timeout_secs m;
  mo_max_concurrent_streams := mo_max_concurrent_streams m;
  mo_recycle_stream_grace_ms := mo_recycle_stream_grace_ms m;
  mo_health_check_interval := mo_health_check_interval m;
  mo_hooks := mo_hooks m;
  mo_policies := p;
  mo_ejection_error_threshold := mo_ejection_error_threshold m;
  mo_ejection_timeout := mo_ejection_timeout m;
  mo_ejection_max_percent := mo_ejection_max_percent m;
  mo_ejection_max_timeout := mo_ejection_max_timeout m;
  mo_max_retries := mo_max_retries m;
  mo_startup_timeout := mo_startup_timeout m;
  mo_health_check_timeout := mo_health_check_timeout m;
  mo_health_check_kill_threshold := mo_health_check_kill_threshold m;
  mo_worker_kill_timeout := mo_worker_kill_timeout m;
  mo_queue_timeout_secs := mo_queue_timeout_secs m;
  mo_queue_timeout_action := mo_queue_timeout_action m
|}.

Section load.
Context (env : string -> option string).                  (** [std::env::var] *)
Context (from_yaml : string -> result string ModelConfig).    (** [serde_yaml], with the defaults *)

Definition strip_suffix_char (c : Ascii.ascii) (s : string) : option string :=
  match rsplit_once c s with
  | Some (l, EmptyString) => Some l
  | _ => None
  end.

(** The variable of an entry of the form [${VAR}]. *)
Definition env_reference (key : string) : option string :=
  match strip_prefix "${" key with Some s => strip_suffix_char "}"%char s | None => None end.

Definition expand_key (key : string) : result string string :=
  match env_reference key with
  | None => Ok key
  | Some var =>
      let? value := ok_or (env var) ("policies.auth.keys references ${" +:+ var +:+ "} but the variable is not set") in
      if bool_decide (value = "") then Err ("policies.auth.keys references ${" +:+ var +:+ "} but the variable is empty")
      else Ok value
  end.

Fixpoint expand_keys (keys : list string) : result string (list string) :=
  match keys with
  | [] => Ok []
  | key :: keys => let? value := expand_key key in let? values := expand_keys keys in Ok (value :: values)
  end.

Definition set_auth (a : option AuthPolicy) (p : ModelPolicies) : ModelPolicies :=
  {| po_rate_limit := po_rate_limit p; po_cors := po_cors p; po_auth := a; po_request_log := po_request_log p;
     po_warmup := po_warmup p |}.

Definition expand_policy_env_vars (m : ModelConfig) : result string ModelConfig :=
  match po_auth (mo_policies m) with
  | None => Ok m
  | Some auth =>
      let? keys := expand_keys (auth_keys auth) in
      Ok (set_policies (set_auth (Some {| auth_header := auth_header auth; auth_keys := keys |}) (mo_policies m)) m)
  end.

(** [load_model_config]: the defaults without a file. *)
Definition load_model_config (file : option (result string string)) : result string ModelConfig :=
  match file with
  | None => Ok ModelConfig_default
  | Some content =>
      let? content := content in
      let? m := from_yaml content in
      let? m := expand_policy_env_vars m in
      let? _ := validate_warmup (po_warmup (mo_policies m)) in
      Ok m
  end.

Definition validate_model_config_yaml (content : string) : result string ModelConfig :=
  let? m := from_yaml content in
  let? m := expand_policy_env_vars m in
  let? _ := validate_warmup (po_warmup (mo_policies m)) in
  let? _ := validate_model m in
  Ok m.
End load.

(** ** Durations *)

(** The panic of [Duration::from_secs_f*] below zero. *)
Definition negative : string := "cannot convert float seconds to Duration: value is negative".

(** [Duration::from_secs_f32] and [Duration::from_secs_f64]; [limit] is 2^64 in the format. *)
Definition from_secs (limit secs : spec_float) : result string Duration :=
  if flt secs float_zero then Err negative
  else if flt secs limit then Ok (nanos_of_secs secs)
  else Err too_big.

Definition from_secs_f32 (secs : spec_float) : result string Duration := from_secs (f32_of_Z (2 ^ 64)) secs.

(** Of an [f32] widened first. *)
Definition from_secs_f64 (secs : spec_float) : result string Duration := from_secs (f64_of_Z (2 ^ 64)) (f64_of_f32 secs).

(** The thresholds a load gives to the outlier state. *)
Definition ejection_config (m : ModelConfig) : result string EjectionConfig :=
  let? timeout := from_secs_f32 (mo_ejection_timeout m) in
  let? max_timeout := from_secs_f32 (mo_ejection_max_timeout m) in
  Ok {| error_threshold := mo_ejection_error_threshold m; timeout := timeout; max_percent := mo_ejection_max_percent m;
        max_timeout := max_timeout; recycle_max_percent := mo_recycle_max_percent m |}.

(** The durations of a queue that is registered. *)
Record QueueDurations := {
  qd_batch_timeout : Duration;
  qd_min_timeout : Duration;
  qd_request_timeout : Duration;
  qd_queue_timeout : Duration;
  qd_health_interval : Duration;
  qd_health_probe_timeout : Duration;
  qd_recycle_drain_timeout : Duration;
  qd_recycle_stream_drain_timeout : Duration;
}.

Definition queue_durations (m : ModelConfig) : result string QueueDurations :=
  let? batch := from_secs_f64 (mo_batch_timeout m) in
  let? min := from_secs_f64 (mo_min_batch_timeout m) in
  let? request := from_secs_f64 (mo_request_timeout m) in
  let? queue := from_secs_f64 (fmax (mo_queue_timeout_secs m) float_zero) in
  let? interval := from_secs_f64 (mo_health_check_interval m) in
  let? probe := from_secs_f64 (mo_health_check_timeout m) in
  let? drain := if fgt (mo_request_timeout m) float_zero then from_secs_f32 (mo_request_timeout m)
                else from_secs_f32 (mo_worker_kill_timeout m) in
  let? stream_drain := from_secs_f32 (mo_recycle_stream_drain_timeout_secs m) in
  Ok {| qd_batch_timeout := batch; qd_min_timeout := min; qd_request_timeout := request; qd_queue_timeout := queue;
        qd_health_interval := interval; qd_health_probe_timeout := probe; qd_recycle_drain_timeout := drain;
        qd_recycle_stream_drain_timeout := stream_drain |}.

(** The keep-alive durations of a connection: of HTTP/1, then the interval and the
    timeout of HTTP/2. *)
Definition conn_durations (s : ServerConfig)
    : result string (option Duration * option (Duration * option Duration)) :=
  let? h1 := if fgt (sv_keepalive_timeout s) float_zero then let? d := from_secs_f32 (sv_keepalive_timeout s) in Ok (Some d)
             else Ok None in
  let? h2 := match sv_http2_keepalive_interval_secs s with
             | None => Ok None
             | Some interval =>
                 let? i := from_secs_f32 interval in
                 match sv_http2_keepalive_timeout_secs s with
                 | None => Ok (Some (i, None))
                 | Some t => let? t := from_secs_f32 t in Ok (Some (i, Some t))
                 end
             end in
  Ok (h1, h2).
