(* ===== verification/ConfigApi.v ===== *)
(** * Reading and patching configuration over HTTP

    Models [src/src/http/handlers/config.rs]: the redaction of secrets in what is shown
    ([redact_tree]), the refusal of a patch that sends the placeholder back
    ([redaction_placeholder_path]), the merge patch of RFC 7386 ([merge_patch]), and the
    PATCH of a version's [config.yaml] from its preparation to the rollback of a reload
    that failed.

    A version's directory is a map from names to files with their bytes (a [string]) and
    their mode.  [serde_yaml] and the SHA-256 are arguments; the outcome of every system
    call is an input ([WriteFaults] and the fields of [PatchInput]), and so is what other
    tasks do to the state between the stages of a request.  Reloads are those of
    [Lifecycle.v], the ledger of writes is that of [Watcher.v]. *)

From S2P Require Import Prelude Text Float Errors Json Deadline Queue Registry Validation Cors Access RateLimit ClientIp Outlier Lifecycle Reconcile Dispatch Warmup Watcher Config.
Open Scope string_scope.
Open Scope Z_scope.

(** ** Redaction *)

Definition REDACTED : string := "***".

Definition REDACTED_SUBTREES : list string := ["policies.auth.keys"].

Definition SERVER_REDACTED_SUBTREES : list string :=
  ["access_control.admin.http.value";
   "access_control.admin.grpc.value";
   "access_control.inference.http.value";
   "access_control.inference.grpc.value";
   "access_control.health.value";
   "openai_compact.auth.value";
   "telemetry.otlp_headers"].

Definition is_secret_leaf (key : string) : bool :=
  let k := to_ascii_lowercase key in
  ends_with "_key" k || ends_with "_secret" k.

Definition redact_subtree (value : Value) : Value :=
  match value with
  | Array items => Array (map (fun _ => Str REDACTED) items)
  | _ => Str REDACTED
  end.

Definition is_empty_value (value : Value) : bool :=
  match value with
  | Null => true
  | Object m => bool_decide (length m = 0%nat)
  | Array a => bool_decide (length a = 0%nat)
  | _ => false
  end.

Definition child_path (path key : string) : string :=
  if bool_decide (path = "") then key else path +:+ "." +:+ key.

Definition item_path (path : string) (i : nat) : string := path +:+ "[" +:+ pretty i +:+ "]".

(** The elements of an array with their index. *)
Section map_from.
Context {A B : Type} (f : nat -> A -> B).
Fixpoint map_from (i : nat) (l : list A) : list B :=
  match l with
  | [] => []
  | a :: l => f i a :: map_from (S i) l
  end.
End map_from.

(** A header map: the value of a key that spells [headers], if it is an object. *)
Definition header_map (key : string) (child : Value) : option (IndexMap Value) :=
  if eq_ignore_ascii_case key "headers" then as_object child else None.

(** A scalar under a key that names a secret. *)
Definition secret_scalar (key : string) (child : Value) : bool :=
  is_secret_leaf key && negb (is_object child) && negb (is_array child).

Definition mask_headers (headers : IndexMap Value) : IndexMap Value :=
  map (fun h => (fst h, Str REDACTED)) headers.

Section redact.
Context (subtrees : list string).

(** One member of an object: what it becomes, and the path if it was redacted. *)
Definition redact_member (rec : string -> Value -> Value * list string) (path : string) (member : string * Value)
    : (string * Value) * list string :=
  let key := fst member in
  let child := snd member in
  let p := child_path path key in
  if bool_decide (p ∈ subtrees) && negb (is_empty_value child) then ((key, redact_subtree child), [p])
  else if secret_scalar key child then ((key, Str REDACTED), [p])
  else match header_map key child with
       | Some headers =>
           if bool_decide (length headers = 0%nat) then ((key, child), [])
           else ((key, Object (mask_headers headers)), [p])
       | None => let r := rec p child in ((key, fst r), snd r)
       end.

(** [redact_tree]: the tree, and the paths in the order they are pushed. *)
Fixpoint redact_tree (path : string) (value : Value) : Value * list string :=
  match value with
  | Object m =>
      let r := map (redact_member redact_tree path) m in
      (Object (map fst r), mjoin (map snd r))
  | Array items =>
      let r := map_from (fun i item => redact_tree (item_path path i) item) 0 items in
      (Array (map fst r), mjoin (map snd r))
  | _ => (value, [])
  end.
End redact.

(** ** The placeholder in a patch *)

Fixpoint holds_placeholder (value : Value) : bool :=
  match value with
  | Str s => String.eqb s REDACTED
  | Array items => existsb holds_placeholder items
  | _ => false
  end.

(** The first result of a loop that returns early. *)
Section first_hit.
Context {A B : Type} (f : A -> option B).
Fixpoint first_hit (l : list A) : option B :=
  match l with
  | [] => None
  | a :: l => match f a with Some b => Some b | None => first_hit l end
  end.
End first_hit.

Definition placeholder_member (rec : string -> Value -> option string) (path : string) (member : string * Value)
    : option string :=
  let key := fst member in
  let child := snd member in
  let p := child_path path key in
  if bool_decide (p ∈ REDACTED_SUBTREES) then (if holds_placeholder child then Some p else None)
  else if secret_scalar key child then (if holds_placeholder child then Some p else None)
  else match header_map key child with
       | Some headers =>
           first_hit (fun h => if holds_placeholder (snd h) then Some (p +:+ "." +:+ fst h) else None) headers
       | None => rec p child
       end.

Fixpoint redaction_placeholder_path (path : string) (patch : Value) : option string :=
  match patch with
  | Object m => first_hit (placeholder_member redaction_placeholder_path path) m
  | Array items =>
      first_hit (fun r => r) (map_from (fun i item => redaction_placeholder_path (item_path path i) item) 0 items)
  | _ => None
  end.

(** ** Merging *)

Definition is_null (v : Value) : bool := match v with Null => true | _ => false end.

(** [merge_patch]: RFC 7386. *)
Fixpoint merge_patch (target patch : Value) : Value :=
  match patch with
  | Object p =>
      let t := match target with Object t => t | _ => [] end in
      Object (fold_left (fun t kv =>
                if is_null (snd kv) then btree_remove (fst kv) t
                else btree_insert (fst kv) (merge_patch (default Null (index_get (fst kv) t)) (snd kv)) t) p t)
  | _ => patch
  end.

(** ** The server's configuration *)

Fixpoint attribute_sources (cli : list string) (path : string) (effective def : Value) (out : gmap string string)
    : gmap string string :=
  match effective with
  | Object m =>
      fold_left (fun out kv =>
        attribute_sources cli (child_path path (fst kv)) (snd kv) (default Null (Json.get (fst kv) def)) out) m out
  | _ =>
      let source := if bool_decide (path ∈ cli) then "cli"
                    else if value_eqb effective def then "default" else "file" in
      <[path := source]> out
  end.

Definition server_config_json (c : Config) (cli : CliOverrides) : Value :=
  let '(config, redacted) := redact_tree SERVER_REDACTED_SUBTREES "" (Config_value c) in
  let sources := attribute_sources (overridden_paths cli) "" config (Config_value Config_default) ∅ in
  Object [("config", config); ("redacted", list_value Str redacted); ("sources", map_value Str sources)].

(** ** Requests and their outcome *)

Inductive ConfigPatchMode := ApplyReload | WriteOnly | DryRun.

#[export] Instance ConfigPatchMode_eq_dec : EqDecision ConfigPatchMode.
Proof. solve_decision. Defined.

Definition mode_as_str (m : ConfigPatchMode) : string :=
  match m with ApplyReload => "apply_reload" | WriteOnly => "write_only" | DryRun => "dry_run" end.

Record ConfigPatchRequest := {
  pr_patch : Value;
  pr_if_match : option string;
  pr_force : bool;
  pr_mode : ConfigPatchMode;
}.

Inductive ConfigPatchError :=
  | App (e : AppError)
  | EtagConflict (current_etag : option string)
  | Invalid (message : string) (warnings : list string)
  | ReloadFailed (message : string) (rolled_back restored : bool).

Record PreparedPatch := {
  pp_original : option string;          (** the bytes before the write *)
  pp_expected_etag : option string;
  pp_merged_yaml : string;
  pp_new_etag : string;
  pp_warnings : list string;
  pp_model : string;
  pp_version : string;
  pp_mode : ConfigPatchMode;
}.

(** The report of a PATCH. *)
Definition report (model version : string) (mode : ConfigPatchMode) (valid written reloaded : bool)
    (etag : option string) (warnings : list string) : Value :=
  Object [("etag", opt_value Str etag); ("mode", Str (mode_as_str mode)); ("model", Str model);
          ("reloaded", Bool reloaded); ("valid", Bool valid); ("version", Str version);
          ("warnings", list_value Str warnings); ("written", Bool written)].

Definition response (p : PreparedPatch) (reloaded : bool) (extra_warnings : list string) : Value :=
  report (pp_model p) (pp_version p) (pp_mode p) true true reloaded (Some (pp_new_etag p))
    (pp_warnings p ++ extra_warnings)%list.

Inductive PrepareOutcome :=
  | DryRunReport (report : Value)
  | ReadyToWrite (p : PreparedPatch).

(** ** Files *)

Record File := {
  f_bytes : string;
  f_mode : Z;
}.

(** The files of the version's directory. *)
Abbreviation Dir := (gmap string File).

(** The calls of an atomic write that fail.  A write that fails has written something. *)
Record WriteFaults := {
  wf_create : option string;
  wf_write : option (string * string);
  wf_flush : option string;
  wf_sync : option string;
  wf_metadata : bool;
  wf_chmod : bool;
  wf_rename : option string;
  wf_remove : bool;
}.

Definition no_write_faults : WriteFaults :=
  {| wf_create := None; wf_write := None; wf_flush := None; wf_sync := None; wf_metadata := false; wf_chmod := false;
     wf_rename := None; wf_remove := false |}.

Definition set_bytes (name bytes : string) (d : Dir) : Dir :=
  alter (fun f => {| f_bytes := bytes; f_mode := f_mode f |}) name d.

Definition set_mode (name : string) (mode : Z) (d : Dir) : Dir :=
  alter (fun f => {| f_bytes := f_bytes f; f_mode := mode |}) name d.

(** Open for writing: truncated if it is there, else with the mode of the process. *)
Definition create_file (default_mode : Z) (name : string) (d : Dir) : Dir :=
  <[name := {| f_bytes := ""; f_mode := default default_mode (f_mode <$> d !! name) |}]> d.

(** Give [name] the mode of [source], if both calls succeed. *)
Definition copy_mode (metadata_fails chmod_fails : bool) (source name : string) (d : Dir) : Dir :=
  match d !! source with
  | Some f => if metadata_fails || chmod_fails then d else set_mode name (f_mode f) d
  | None => d
  end.

Definition rename_file (from to : string) (d : Dir) : Dir :=
  match d !! from with
  | Some f => <[to := f]> (delete from d)
  | None => d
  end.

(** The name of the temporary file: the process and a counter. *)
Definition tmp_name (file_name : string) (pid seq : Z) : string :=
  "." +:+ file_name +:+ "." +:+ pretty pid +:+ "." +:+ pretty seq +:+ ".tmp".

Section atomic_write.
Context (default_mode : Z) (w : WriteFaults) (tmp name bytes : string).

(** The calls up to the rename. *)
Definition write_and_rename (d : Dir) : result string unit * Dir :=
  match wf_create w with
  | Some e => (Err e, d)
  | None =>
      let d := create_file default_mode tmp d in
      match wf_write w with
      | Some (part, e) => (Err e, set_bytes tmp part d)
      | None =>
          let d := set_bytes tmp bytes d in
          match wf_flush w, wf_sync w with
          | Some e, _ => (Err e, d)
          | None, Some e => (Err e, d)
          | None, None =>
              let d := copy_mode (wf_metadata w) (wf_chmod w) name tmp d in
              match wf_rename w with
              | Some e => (Err e, d)
              | None => (Ok tt, rename_file tmp name d)
              end
          end
      end
  end.

Definition atomic_write (d : Dir) : result string unit * Dir :=
  let '(r, d) := write_and_rename d in
  (r, if is_ok r || wf_remove w then d else delete tmp d).
End atomic_write.

(** ** State and inputs *)

(** What requests on one version share: its directory, the counter of temporary names,
    the ledger of the watcher and the worker manager. *)
Record ConfigStore := {
  cs_dir : Dir;
  cs_counter : Z;
  cs_ledger : Ledger;
  cs_manager : WorkerManager;
}.

Definition set_dir (d : Dir) (s : ConfigStore) : ConfigStore :=
  {| cs_dir := d; cs_counter := cs_counter s; cs_ledger := cs_ledger s; cs_manager := cs_manager s |}.

Definition set_ledger (l : Ledger) (s : ConfigStore) : ConfigStore :=
  {| cs_dir := cs_dir s; cs_counter := cs_counter s; cs_ledger := l; cs_manager := cs_manager s |}.

Definition set_manager (m : WorkerManager) (s : ConfigStore) : ConfigStore :=
  {| cs_dir := cs_dir s; cs_counter := cs_counter s; cs_ledger := cs_ledger s; cs_manager := m |}.

Definition bump_counter (s : ConfigStore) : ConfigStore :=
  {| cs_dir := cs_dir s; cs_counter := wrap64 (cs_counter s + 1); cs_ledger := cs_ledger s; cs_manager := cs_manager s |}.

Definition config_yaml : string := "config.yaml".
Definition config_bak : string := "config.yaml.bak".

(** [tokio::fs::read]: an error other than [NotFound], the bytes, or nothing. *)
Definition read_config (fault : option string) (d : Dir) : result AppError (option string) :=
  match fault with
  | Some e => Err (Io e)
  | None => Ok (f_bytes <$> d !! config_yaml)
  end.

Record PatchInput := {
  pi_dir_exists : bool;
  pi_read : option string;                        (** the first read fails *)
  pi_before_write : ConfigStore -> ConfigStore;   (** other tasks, until the lock is held *)
  pi_reread : option string;                      (** the read under the lock fails *)
  pi_backup : option (option string * string);    (** the backup fails, at once or having written something *)
  pi_backup_mode : bool;                          (** its mode cannot be set *)
  pi_write : WriteFaults;
  pi_written_at : Instant;
  pi_reload : ReloadInput;
  pi_before_rollback : ConfigStore -> ConfigStore;    (** other tasks, during the reload *)
  pi_rollback : WriteFaults;
  pi_remove : option string;                      (** the removal of a new file fails *)
  pi_rolled_back_at : Instant;
  pi_recover : ReloadInput;
}.

Section api.
Context `{MapIter}.
Context {V : Type} (semver_parse : string -> option V) (semver_le : V -> V -> bool).
(** [serde_yaml]: parsing, the conversion to JSON, printing. *)
Context {Y : Type} (yaml_parse : string -> result string Y) (yaml_value : Y -> result string Value)
  (yaml_print : Value -> result string string).
Context (env : string -> option string) (from_yaml : string -> result string ModelConfig).
Context (sha256 : string -> list Z).
Context (default_mode pid : Z) (repo : Validation.path) (model version : string).

(** *** Etags *)

Definition hex_digit (n : Z) : string :=
  default "" (["0"; "1"; "2"; "3"; "4"; "5"; "6"; "7"; "8"; "9"; "a"; "b"; "c"; "d"; "e"; "f"]%list !! Z.to_nat n).

Definition hex_byte (b : Z) : string := hex_digit (b / 16) +:+ hex_digit (b mod 16).

Definition content_etag (bytes : string) : string := join_str "" (map hex_byte (take 8 (sha256 bytes))).

(** *** Reading *)

(** An empty file is an empty object. *)
Definition present (v : Value) : Value := match v with Null => Object [] | _ => v end.

Definition version_known (dir_exists : bool) (m : WorkerManager) : bool :=
  dir_exists || is_some (registry_get model (Some version) (registry m)).

Definition version_missing : AppError := ModelNotFound (model +:+ "/" +:+ version).

(** The tree of the file, its etag and whether there is one. *)
Definition shown_tree (file : option string) : result AppError (Value * option string * bool) :=
  match file with
  | None => Ok (Object [], None, false)
  | Some bytes =>
      let? yaml := map_err (fun e => Errors.Config ("invalid config.yaml for " +:+ model +:+ "/" +:+ version +:+ ": " +:+ e))
                     (yaml_parse bytes) in
      let? value := map_err Serialization (yaml_value yaml) in
      Ok (present value, Some (content_etag bytes), true)
  end.

(** Whole seconds since the epoch. *)
Definition loaded_secs (m : WorkerManager) : option Z :=
  match registry_get model (Some version) (registry m) with
  | Some mv => match mv_loaded_at mv with
               | Some t => if 0 <=? t then Some (t / 1000000000) else None
               | None => None
               end
  | None => None
  end.

Definition model_version_config_json (dir_exists : bool) (read : option string) (s : ConfigStore) : result AppError Value :=
  if negb (version_known dir_exists (cs_manager s)) then Err version_missing
  else
    let? file := read_config read (cs_dir s) in
    let? shown := shown_tree file in
    let '(config, etag, has_file) := shown in
    let '(config, redacted) := redact_tree REDACTED_SUBTREES "" config in
    Ok (Object [("config", config); ("etag", opt_value Str etag); ("has_file", Bool has_file);
                ("loaded_at", opt_value uint_value (loaded_secs (cs_manager s))); ("model", Str model);
                ("redacted", list_value Str redacted); ("version", Str version)]).

(** *** Preparing *)

(** The tree a patch is merged into. *)
Definition patch_base (original : option string) : result ConfigPatchError Value :=
  match original with
  | None => Ok (Object [])
  | Some bytes =>
      let? yaml := map_err (fun e => Invalid ("existing config.yaml is unparseable, refusing to patch: " +:+ e) [])
                     (yaml_parse bytes) in
      let? value := map_err (fun e => App (Serialization e)) (yaml_value yaml) in
      Ok (present value)
  end.

Definition unknown_keys (tree : Value) : list string :=
  match tree with
  | Object m =>
      map (fun key => "unknown key `" +:+ key +:+ "` is not a ModelConfig field and is ignored on load")
        (filter (fun key => key ∉ known_model_config_keys) (map fst m))
  | _ => []
  end.

Definition precondition (req : ConfigPatchRequest) (current_etag : option string) : result ConfigPatchError unit :=
  match pr_force req, pr_if_match req with
  | false, Some if_match =>
      if bool_decide (Some if_match = current_etag) then Ok tt else Err (EtagConflict current_etag)
  | _, _ => Ok tt
  end.

Definition patch_allowed (req : ConfigPatchRequest) : result ConfigPatchError unit :=
  if negb (is_object (pr_patch req)) then Err (Invalid "patch must be a JSON object (RFC 7386 merge-patch)" [])
  else match redaction_placeholder_path "" (pr_patch req) with
       | Some field =>
           Err (Invalid ("patch sets `" +:+ field +:+ "` to `" +:+ REDACTED
                         +:+ "`, which is the placeholder GET returns in place of a secret rather than a secret itself — a merge-patch leaves omitted fields untouched, so omit this one (or send the real value)") [])
       | None => Ok tt
       end.

(** What becomes of a merged tree. *)
Definition prepare_merged (req : ConfigPatchRequest) (original : option string) (tree : Value)
    : result ConfigPatchError PrepareOutcome :=
  let current_etag := content_etag <$> original in
  let? merged_yaml := map_err (fun e => App (Internal ("yaml serialize: " +:+ e))) (yaml_print tree) in
  let warnings := unknown_keys tree in
  let dry_run valid w := Ok (DryRunReport (report model version (pr_mode req) valid false false current_etag w)) in
  match validate_model_config_yaml env from_yaml merged_yaml with
  | Err e =>
      if bool_decide (pr_mode req = DryRun) then dry_run false (("merged config is invalid: " +:+ e) :: warnings)
      else Err (Invalid ("merged config is invalid: " +:+ e) warnings)
  | Ok _ =>
      if bool_decide (pr_mode req = DryRun) then dry_run true warnings
      else Ok (ReadyToWrite
        {| pp_original := original;
           pp_expected_etag := if negb (pr_force req) && is_some (pr_if_match req) then current_etag else None;
           pp_merged_yaml := merged_yaml; pp_new_etag := content_etag merged_yaml; pp_warnings := warnings;
           pp_model := model; pp_version := version; pp_mode := pr_mode req |})
  end.

Definition prepare_config_patch (dir_exists : bool) (read : option string) (req : ConfigPatchRequest) (s : ConfigStore)
    : result ConfigPatchError PrepareOutcome :=
  if negb (version_known dir_exists (cs_manager s)) then Err (App version_missing)
  else
    let? _ := patch_allowed req in
    let? original := map_err App (read_config read (cs_dir s)) in
    let? _ := precondition req (content_etag <$> original) in
    let? tree := patch_base original in
    prepare_merged req original (merge_patch tree (pr_patch req)).

(** *** Writing *)

(** The etag is checked again, under the lock. *)
Definition recheck (p : PreparedPatch) (reread : option string) (d : Dir) : result ConfigPatchError unit :=
  match pp_expected_etag p with
  | None => Ok tt
  | Some expected =>
      let? file := map_err App (read_config reread d) in
      let current := content_etag <$> file in
      if bool_decide (current = Some expected) then Ok tt else Err (EtagConflict current)
  end.

(** The bytes the patch was merged into are kept beside the file. *)
Definition write_backup (fault : option (option string * string)) (mode_fails : bool) (original : option string) (d : Dir)
    : result string unit * Dir :=
  match original with
  | None => (Ok tt, d)
  | Some bytes =>
      match fault with
      | Some (None, e) => (Err e, d)
      | Some (Some part, e) => (Err e, set_bytes config_bak part (create_file default_mode config_bak d))
      | None => (Ok tt, copy_mode false mode_fails config_yaml config_bak
                          (set_bytes config_bak bytes (create_file default_mode config_bak d)))
      end
  end.

(** An atomic write of [config.yaml], with a fresh temporary name. *)
Definition write_config (w : WriteFaults) (bytes : string) (s : ConfigStore) : result string unit * ConfigStore :=
  let '(r, d) := atomic_write default_mode w (tmp_name config_yaml pid (cs_counter s)) config_yaml bytes (cs_dir s) in
  (r, set_dir d (bump_counter s)).

(** The backup, then the swap. *)
Definition install (p : PreparedPatch) (backup : option (option string * string)) (backup_mode : bool) (w : WriteFaults)
    (s : ConfigStore) : result ConfigPatchError unit * ConfigStore :=
  let '(r, d) := write_backup backup backup_mode (pp_original p) (cs_dir s) in
  let s := set_dir d s in
  match r with
  | Err e => (Err (App (Io e)), s)
  | Ok _ => let '(r, s) := write_config w (pp_merged_yaml p) s in (map_err (fun e => App (Io e)) r, s)
  end.

Definition write_prepared (p : PreparedPatch) (pi : PatchInput) (s : ConfigStore)
    : result ConfigPatchError unit * ConfigStore :=
  match recheck p (pi_reread pi) (cs_dir s) with
  | Err e => (Err e, s)
  | Ok _ => install p (pi_backup pi) (pi_backup_mode pi) (pi_write pi) s
  end.

(** *** Reloading *)

Definition remove_config (fault : option string) (s : ConfigStore) : result string unit * ConfigStore :=
  match fault, cs_dir s !! config_yaml with
  | Some e, _ => (Err e, s)
  | None, None => (Err "No such file or directory (os error 2)", s)
  | None, Some _ => (Ok tt, set_dir (delete config_yaml (cs_dir s)) s)
  end.

Definition rollback (p : PreparedPatch) (pi : PatchInput) (s : ConfigStore) : result AppError unit * ConfigStore :=
  let '(r, s) := match pp_original p with
                 | Some bytes => write_config (pi_rollback pi) bytes s
                 | None => remove_config (pi_remove pi) s
                 end in
  (map_err (fun e => Internal ("rollback failed for " +:+ pp_model p +:+ "/" +:+ pp_version p +:+ ": " +:+ e
                               +:+ " — restore config.yaml.bak manually")) r, s).

Definition note_write (now : Instant) (etag : string) (s : ConfigStore) : ConfigStore :=
  set_ledger (note_config_write now (config_path repo (model, version)) etag (cs_ledger s)) s.

Definition reload (rl : ReloadInput) (recover : bool) (s : ConfigStore) : result AppError bool * ConfigStore :=
  let '(r, m) := reload_model_inner semver_parse semver_le rl model (Some version) recover (cs_manager s) in
  (r, set_manager m s).

Definition finish_apply_reload (p : PreparedPatch) (pi : PatchInput) (reloaded : result AppError bool) (s : ConfigStore)
    : result ConfigPatchError Value * ConfigStore :=
  match reloaded with
  | Ok true => (Ok (response p true []), s)
  | Ok false =>
      (Ok (response p false ["version not loaded; written to disk only, a later load picks it up"]), s)
  | Err e =>
      match rollback p pi s with
      | (Err rb, s) =>
          (Err (ReloadFailed (display e +:+ "; rollback also failed: " +:+ display rb
                              +:+ " — config.yaml left in the patched state") false false), s)
      | (Ok _, s) =>
          let s := match pp_original p with
                   | Some bytes => note_write (pi_rolled_back_at pi) (content_etag bytes) s
                   | None => s
                   end in
          let '(r, s) := reload (pi_recover pi) true s in
          let restored := is_ok r in
          (Err (ReloadFailed (if restored then display e +:+ "; service restored with the previous config"
                              else display e +:+ "; service restore failed — the version is not serving")
                  true restored), s)
      end
  end.

(** [model_version_config_patch]. *)
Definition model_version_config_patch (pi : PatchInput) (req : ConfigPatchRequest) (s : ConfigStore)
    : result ConfigPatchError Value * ConfigStore :=
  match prepare_config_patch (pi_dir_exists pi) (pi_read pi) req s with
  | Err e => (Err e, s)
  | Ok (DryRunReport r) => (Ok r, s)
  | Ok (ReadyToWrite p) =>
      match write_prepared p pi (pi_before_write pi s) with
      | (Err e, s) => (Err e, s)
      | (Ok _, s) =>
          let s := note_write (pi_written_at pi) (pp_new_etag p) s in
          match pr_mode req with
          | WriteOnly => (Ok (response p false ["written to disk; the in-memory config changes on the next reload"]), s)
          | _ =>
              let '(r, s) := reload (pi_reload pi) false s in
              finish_apply_reload p pi r (pi_before_rollback pi s)
          end
      end
  end.

(** *** Answers *)

Definition error_body (typ message code : string) : Value :=
  Object [("code", Str code); ("message", Str message); ("param", Null); ("type", Str typ)].

(** The status and the body, or an error rendered elsewhere. *)
Definition patch_answer (r : result ConfigPatchError Value) : result AppError (Z * Value) :=
  match r with
  | Ok out => Ok (200, out)
  | Err (App e) => Err e
  | Err (EtagConflict current_etag) =>
      Ok (409, Object [("current_etag", opt_value Str current_etag);
                       ("error", error_body "conflict_error"
                          "config.yaml changed since the provided etag; re-read and retry, or set force" "conflict")])
  | Err (Invalid message warnings) =>
      Ok (400, Object [("error", error_body "invalid_request_error" message "invalid_parameter_value");
                       ("warnings", list_value Str warnings)])
  | Err (ReloadFailed message rolled_back restored) =>
      Ok (400, Object [("error", error_body "invalid_request_error"
                          (if rolled_back
                           then "reload failed: " +:+ message +:+ "; config.yaml rolled back to the previous content"
                           else "reload failed: " +:+ message) "reload_failed");
                       ("restored", Bool restored); ("rolled_back", Bool rolled_back)])
  end.

Definition model_version_config_patch_handler (pi : PatchInput) (req : ConfigPatchRequest) (s : ConfigStore)
    : result AppError (Z * Value) * ConfigStore :=
  match (let? _ := validate_identifier model in validate_version version) with
  | Err e => (Err e, s)
  | Ok _ => let '(r, s) := model_version_config_patch pi req s in (patch_answer r, s)
  end.

Definition model_version_config_handler (dir_exists : bool) (read : option string) (s : ConfigStore)
    : result AppError Value :=
  let? _ := validate_identifier model in
  let? _ := validate_version version in
  model_version_config_json dir_exists read s.
End api.
