(* ===== verification/ConfigApiProps.v ===== *)
(** * What configuration reads show, and what patches merge

    Redaction hides secrets: two trees that differ only in secrets are shown alike.  A
    redacted tree is recognised when it comes back as a patch, and merging trees without
    the placeholder of a secret gives one without.  The merge is the one of RFC 7386: member by
    member, idempotent.  The paths reported as set on the command line are exactly those
    it decides. *)

From S2P Require Import Prelude Text Float Errors Json Deadline Queue Registry Validation Cors Access RateLimit ClientIp Outlier Lifecycle Reconcile Dispatch Warmup Watcher Config ConfigApi.
Open Scope string_scope.
Open Scope Z_scope.

(** ** Lists *)

Lemma map_from_lookup {A B} (f : nat -> A -> B) i l j : map_from f i l !! j = f (i + j)%nat <$> l !! j.
Proof.
  revert i j. induction l as [|a l IH]; intros i j; [done|]. destruct j as [|j]; simpl; [by rewrite Nat.add_0_r|].
  rewrite IH. by rewrite Nat.add_succ_r.
Qed.

Lemma map_from_ext {A A' B} (f : nat -> A -> B) (g : nat -> A' -> B) i l l' :
  length l = length l' ->
  (forall j x y, l !! j = Some x -> l' !! j = Some y -> f (i + j)%nat x = g (i + j)%nat y) ->
  map_from f i l = map_from g i l'.
Proof.
  intros Hlen Hfg. apply list_eq. intros j. rewrite !map_from_lookup.
  destruct (l !! j) as [x|] eqn:Hx, (l' !! j) as [y|] eqn:Hy; simpl; try done.
  - f_equal. by apply Hfg.
  - apply lookup_lt_Some in Hx. apply lookup_ge_None in Hy. lia.
  - apply lookup_lt_Some in Hy. apply lookup_ge_None in Hx. lia.
Qed.

Lemma map_const_eq {A A' B} (c : B) (l : list A) (l' : list A') :
  length l = length l' -> map (fun _ => c) l = map (fun _ => c) l'.
Proof.
  revert l'. induction l as [|a l IH]; intros [|a' l']; simpl; try done. intros [= Hlen]. f_equal. by apply IH.
Qed.

Lemma first_hit_None {A B} (f : A -> option B) l : first_hit f l = None <-> Forall (fun a => f a = None) l.
Proof.
  induction l as [|a l IH]; simpl; [by split|]. rewrite Forall_cons. destruct (f a); [by split; [|intros []]|].
  rewrite IH. naive_solver.
Qed.

Lemma mjoin_nil {A} (l : list (list A)) : mjoin l = [] <-> Forall (fun x => x = []) l.
Proof.
  induction l as [|a l IH]; simpl; [by split|]. rewrite Forall_cons, <- IH. split.
  - intros H. by apply app_eq_nil in H.
  - by intros [-> ->].
Qed.

(** ** Secrets *)

Section public.
Context (subtrees : list string).

(** A secret subtree keeps only whether it is an array, and of what length. *)
Definition same_shape (c d : Value) : Prop :=
  match c, d with
  | Array a, Array b => length a = length b
  | Array _, _ | _, Array _ => False
  | _, _ => True
  end.

(** Two values of a member that may differ in secret. *)
Definition secret_pair (p key : string) (c d : Value) : Prop :=
  (p ∈ subtrees /\ is_empty_value c = false /\ is_empty_value d = false /\ same_shape c d)
  \/ (secret_scalar key c = true /\ secret_scalar key d = true)
  \/ (exists h g, header_map key c = Some h /\ header_map key d = Some g /\ map fst h = map fst g).

(** Trees that differ only in secrets. *)
Inductive same_public : string -> Value -> Value -> Prop :=
  | same_scalar path v : is_object v = false -> is_array v = false -> same_public path v v
  | same_array path a b :
      length a = length b ->
      (forall i x y, a !! i = Some x -> b !! i = Some y -> same_public (item_path path i) x y) ->
      same_public path (Array a) (Array b)
  | same_object path a b :
      Forall2 (fun x y => fst x = fst y /\
        let p := child_path path (fst x) in
        secret_pair p (fst x) (snd x) (snd y) \/ same_public p (snd x) (snd y)) a b ->
      same_public path (Object a) (Object b).

Lemma same_public_shape path c d :
  same_public path c d ->
  is_object c = is_object d /\ is_array c = is_array d /\ is_empty_value c = is_empty_value d /\
  redact_subtree c = redact_subtree d /\ (map fst <$> as_object c) = (map fst <$> as_object d).
Proof.
  intros [path' v _ _|path' a b Hlen _|path' a b Hab]; [done| |].
  - simpl. rewrite Hlen. split_and!; try done. f_equal. by apply map_const_eq.
  - assert (length a = length b) as Hlen by (by eapply Forall2_length). simpl. rewrite Hlen. split_and!; try done.
    f_equal. induction Hab as [|x y a b [Hk _] _ IH]; [done|]. simpl. rewrite Hk. f_equal. by apply IH; injection Hlen.
Qed.

Lemma header_map_Some key c h : header_map key c = Some h -> c = Object h.
Proof. unfold header_map. case_goal; [|done]. destruct c; try done. by intros [= ->]. Qed.

Lemma mask_headers_keys h g : map fst h = map fst g -> mask_headers h = mask_headers g.
Proof. unfold mask_headers. intros Hk. rewrite <- !(map_map fst (fun k => (k, Str REDACTED))). by rewrite Hk. Qed.

Lemma header_case_eq {A} key (v : Value) (p : list A) (h g : IndexMap Value) :
  map fst h = map fst g ->
  (if bool_decide (length h = 0%nat) then ((key, Object h), []) else ((key, v), p))
  = (if bool_decide (length g = 0%nat) then ((key : string, Object g), []) else ((key, v), p)).
Proof. by destruct h, g. Qed.

Lemma redact_scalar_member rec path key c :
  secret_scalar key c = true ->
  redact_member subtrees rec path (key, c) = ((key, Str REDACTED), [child_path path key]).
Proof.
  intros Hs. unfold redact_member. simpl. rewrite Hs. case_goal; [|done].
  unfold secret_scalar in Hs. by destruct c; rewrite ?andb_false_r in Hs.
Qed.

Lemma redact_header_member rec path key h :
  header_map key (Object h) = Some h ->
  redact_member subtrees rec path (key, Object h) =
    if bool_decide (length h = 0%nat) then ((key, Object h), [])
    else ((key, if bool_decide (child_path path key ∈ subtrees) then Str REDACTED else Object (mask_headers h)),
          [child_path path key]).
Proof.
  intros Hh. unfold redact_member. simpl. rewrite Hh. unfold secret_scalar. simpl. rewrite andb_false_r. simpl.
  by case_bool_decide; case_bool_decide.
Qed.

(** Members that differ in secret only are redacted alike. *)
Lemma redact_member_eq rec path key c d :
  let p := child_path path key in
  secret_pair p key c d \/ (same_public p c d /\ rec p c = rec p d) ->
  redact_member subtrees rec path (key, c) = redact_member subtrees rec path (key, d).
Proof.
  intros p [[(Hp & Hc & Hd & Hs)|[[Hc Hd]|(h & g & Hh & Hg & Hk)]]|[Hs Hr]].
  - unfold redact_member. simpl. fold p. rewrite bool_decide_eq_true_2 by done. rewrite Hc, Hd. simpl. do 2 f_equal.
    destruct c, d; try done. simpl in *. f_equal. by apply map_const_eq.
  - by rewrite !redact_scalar_member.
  - pose proof (header_map_Some _ _ _ Hh) as ->. pose proof (header_map_Some _ _ _ Hg) as ->.
    rewrite !redact_header_member by done.
    rewrite (mask_headers_keys h g Hk). by apply header_case_eq.
  - pose proof (same_public_shape _ _ _ Hs) as (Ho & Ha & He & Hst & Hf).
    unfold redact_member. simpl. fold p. rewrite He, Hst. case_goal; [done|].
    unfold secret_scalar. rewrite Ho, Ha. case_goal; [done|]. rewrite Hr. unfold header_map.
    destruct (eq_ignore_ascii_case key "headers"); [|done].
    destruct (as_object c) as [h|] eqn:Hh, (as_object d) as [g|] eqn:Hg; simpl in Hf; try done.
    injection Hf as Hk. destruct c; try done. injection Hh as ->. destruct d; try done. injection Hg as ->.
    rewrite (mask_headers_keys h g Hk). by apply header_case_eq.
Qed.

(** Trees that differ only in secrets are shown alike, with the same list of
    redacted paths. *)
Theorem redaction_hides_secrets path v w :
  same_public path v w -> redact_tree subtrees path v = redact_tree subtrees path w.
Proof.
  revert path w. induction v as [| | | |a IH|o IH] using value_nested_ind; intros path w H;
    inversion H as [|? ? a2 Hlen Hab|? ? o2 Hb]; subst; try done.
  - simpl. erewrite map_from_ext; [done|done|]. intros j x y Hx Hy. simpl.
    apply (Forall_lookup_1 _ _ _ _ IH Hx). by eapply Hab.
  - simpl. assert (map (redact_member subtrees (redact_tree subtrees) path) o
                   = map (redact_member subtrees (redact_tree subtrees) path) o2) as Heq; [|by rewrite Heq].
    clear H. revert IH. induction Hb as [|[k c] [k' d] o o2 [Hk Hm] _ IHo]; [done|].
    simpl in *. subst k'. intros [IHc IHr]%Forall_cons. rewrite (IHo IHr). f_equal. apply redact_member_eq. simpl.
    destruct Hm as [Hm|Hm]; [by left|right]. split; [done|]. by apply IHc.
Qed.
End public.

(** ** The placeholder sent back *)

Lemma redact_tree_shape subtrees path c :
  is_object (fst (redact_tree subtrees path c)) = is_object c /\ is_array (fst (redact_tree subtrees path c)) = is_array c.
Proof. by destruct c. Qed.

Lemma redact_tree_empty subtrees path c : is_empty_value c = true -> redact_tree subtrees path c = (c, []).
Proof. destruct c as [| | | |[|v a]|[|kv o]]; simpl; try done. Qed.

Lemma holds_redacted c : is_empty_value c = false -> holds_placeholder (redact_subtree c) = true.
Proof. by destruct c as [| | | |[|v a]|o]. Qed.

Lemma holds_empty c : is_empty_value c = true -> holds_placeholder c = false.
Proof. by destruct c as [| | | |[|v a]|o]. Qed.

(** A member that was redacted is recognised, and no other. *)
Lemma echoed_member path key c :
  (forall p, redaction_placeholder_path p (fst (redact_tree REDACTED_SUBTREES p c)) = None
             <-> snd (redact_tree REDACTED_SUBTREES p c) = []) ->
  let r := redact_member REDACTED_SUBTREES (redact_tree REDACTED_SUBTREES) path (key, c) in
  placeholder_member redaction_placeholder_path path (fst r) = None <-> snd r = [].
Proof.
  intros IH. unfold redact_member. cbn [fst snd]. set (p := child_path path key).
  destruct (bool_decide (p ∈ REDACTED_SUBTREES)) eqn:Hp; [destruct (is_empty_value c) eqn:He|]; cbn [andb negb].
  2: { unfold placeholder_member. cbn [fst snd]. fold p. by rewrite Hp, holds_redacted. }
  all: destruct (secret_scalar key c) eqn:Hs.
  1, 3: unfold placeholder_member; cbn [fst snd]; fold p; rewrite Hp; try done;
    unfold secret_scalar in *; rewrite !andb_true_iff in Hs; by rewrite (proj1 (proj1 Hs)).
  - (* an empty subtree *)
    destruct (header_map key c) as [h|] eqn:Hh.
    + apply header_map_Some in Hh as ->. destruct h; [|done].
      rewrite bool_decide_eq_true_2 by done. split; [done|]. intros _. unfold placeholder_member. cbn [fst snd]. fold p. by rewrite Hp.
    + rewrite redact_tree_empty by done. unfold placeholder_member. cbn [fst snd]. fold p.
      by rewrite Hp, holds_empty.
  - destruct (header_map key c) as [h|] eqn:Hh.
    + pose proof (header_map_Some _ _ _ Hh) as ->. destruct h as [|[n v] h]; cbn [length].
      * rewrite bool_decide_eq_true_2 by done. split; [done|]. intros _. unfold placeholder_member. cbn [fst snd]. fold p. by rewrite Hp, Hs, Hh.
      * rewrite bool_decide_eq_false_2 by done. split; [|done]. unfold placeholder_member. cbn [fst snd]. fold p.
        rewrite Hp. unfold secret_scalar, header_map in *. rewrite andb_false_r. cbn [andb as_object] in *. by destruct (eq_ignore_ascii_case key "headers").
    + unfold placeholder_member. cbn [fst snd]. fold p. rewrite Hp.
      destruct (redact_tree_shape REDACTED_SUBTREES p c) as [Ho Ha].
      replace (secret_scalar key (fst (redact_tree REDACTED_SUBTREES p c))) with (secret_scalar key c)
        by (unfold secret_scalar; by rewrite Ho, Ha).
      rewrite Hs. replace (header_map key (fst (redact_tree REDACTED_SUBTREES p c))) with (@None (IndexMap Value)); [apply IH|].
      unfold header_map in *. destruct (eq_ignore_ascii_case key "headers"); [|done].
      destruct c; try done; by destruct (as_object (fst (redact_tree REDACTED_SUBTREES p (Array a)))).
Qed.

(** A tree as it was shown is refused as a patch exactly if something in it was
    redacted. *)
Theorem echo_refused_iff_redacted path v :
  redaction_placeholder_path path (fst (redact_tree REDACTED_SUBTREES path v)) = None
  <-> snd (redact_tree REDACTED_SUBTREES path v) = [].
Proof.
  revert path. induction v as [| | | |a IH|o IH] using value_nested_ind; intros path; [done..| |].
  - cbn [redact_tree redaction_placeholder_path fst snd]. rewrite first_hit_None, mjoin_nil. generalize 0%nat as i.
    induction IH as [|v a Hv _ IHa]; intros i; [done|]. simpl. rewrite !Forall_cons, <- (IHa (S i)). by rewrite Hv.
  - cbn [redact_tree redaction_placeholder_path fst snd]. rewrite first_hit_None, mjoin_nil, !Forall_map.
    split; intros H; apply Forall_forall; intros [key c] Hin; apply (echoed_member path key c);
      first [exact (proj1 (Forall_forall _ _) IH _ Hin)|exact (proj1 (Forall_forall _ _) H _ Hin)].
Qed.

(** ** Merging *)

Definition merge_step (t : IndexMap Value) (kv : string * Value) : IndexMap Value :=
  if is_null (snd kv) then btree_remove (fst kv) t
  else btree_insert (fst kv) (merge_patch (default Null (index_get (fst kv) t)) (snd kv)) t.

Definition members (v : Value) : IndexMap Value := default [] (as_object v).

Lemma merge_patch_object target p : merge_patch target (Object p) = Object (fold_left merge_step p (members target)).
Proof. by destruct target. Qed.

Lemma merge_patch_leaf target p : is_object p = false -> merge_patch target p = p.
Proof. by destruct p. Qed.

Lemma btree_insert_Forall {A} (P : string * A -> Prop) k a m : P (k, a) -> Forall P m -> Forall P (btree_insert k a m).
Proof.
  intros Ha Hm. induction Hm as [|[l b] m Hb Hm IH]; simpl; [by repeat constructor|].
  destruct (String.compare k l); repeat constructor; done.
Qed.

Lemma btree_remove_Forall {A} (P : string * A -> Prop) k m : Forall P m -> Forall P (btree_remove k m).
Proof. intros Hm. apply List.Forall_forall. intros x [Hx _]%filter_In. by apply (proj1 (List.Forall_forall _ _) Hm). Qed.

(** A property of members that merging a member preserves holds of the merged object. *)
Lemma merge_members (P : string * Value -> Prop) p t :
  Forall P t ->
  Forall (fun kv => is_null (snd kv) = false ->
            forall v, (v = Null \/ P (fst kv, v)) -> P (fst kv, merge_patch v (snd kv))) p ->
  Forall P (fold_left merge_step p t).
Proof.
  intros Ht Hp. revert t Ht. induction Hp as [|[k v] p Hv _ IH]; intros t Ht; [done|]. simpl. apply IH.
  unfold merge_step. simpl in *. destruct (is_null v); [by apply btree_remove_Forall|].
  apply btree_insert_Forall; [|done]. apply Hv; [done|]. destruct (index_get k t) as [x|] eqn:Hx; [right|by left].
  apply index_get_Some in Hx. by apply (proj1 (Forall_forall _ _) Ht).
Qed.

(** No placeholder where the server would have redacted. *)
Definition clean (path : string) (v : Value) : Prop := redaction_placeholder_path path v = None.

Lemma clean_object path m :
  clean path (Object m) <-> Forall (fun kv => placeholder_member redaction_placeholder_path path kv = None) m.
Proof. unfold clean. cbn [redaction_placeholder_path]. apply first_hit_None. Qed.

(** Merging a member whose new value is an object. *)
Lemma merge_clean_member path key v q :
  (forall p t, clean p (Object q) -> clean p t -> clean p (merge_patch t (Object q))) ->
  placeholder_member redaction_placeholder_path path (key, Object q) = None ->
  v = Null \/ placeholder_member redaction_placeholder_path path (key, v) = None ->
  placeholder_member redaction_placeholder_path path (key, merge_patch v (Object q)) = None.
Proof.
  intros IH Hq Hv. rewrite merge_patch_object.
  assert (forall h, first_hit (fun h => if holds_placeholder (snd h)
                        then Some (child_path path key +:+ "." +:+ fst h) else None) h = None
                    <-> Forall (fun n => holds_placeholder (snd n) = false) h) as Hheaders.
  { intros h. rewrite first_hit_None. apply Forall_iff. intros [n x]. simpl. by destruct (holds_placeholder x). }
  unfold placeholder_member, secret_scalar, header_map in *. cbn [fst snd is_object as_object] in *.
  rewrite andb_false_r in *. cbn [andb is_some negb] in *. destruct (bool_decide _) eqn:Hp; [done|].
  destruct (eq_ignore_ascii_case key "headers") eqn:Hk.
  - rewrite Hheaders in *. apply merge_members.
    + destruct v as [| | | | |g]; try constructor. destruct Hv as [|Hv]; [done|]. cbn in Hv.
      rewrite andb_false_r in Hv. by apply Hheaders.
    + eapply Forall_impl; [exact Hq|]. intros [n x]. simpl. intros Hx _ u _.
      destruct (is_object x) eqn:Ho; [destruct x; try done; by rewrite merge_patch_object|by rewrite merge_patch_leaf].
  - rewrite <- merge_patch_object. destruct v as [| | | | |g]; try (by apply (IH _ (Object []))).
    apply IH; [done|]. destruct Hv as [|Hv]; [done|]. cbn in Hv. by rewrite andb_false_r in Hv.
Qed.

(** Merging a clean patch into a clean tree gives a clean tree. *)
Lemma merge_clean path target patch :
  clean path patch -> clean path target -> clean path (merge_patch target patch).
Proof.
  revert path target. induction patch as [| | | |a _|p IH] using value_nested_ind; intros path target Hp Ht; [done..|].
  rewrite merge_patch_object. apply clean_object, merge_members.
  - destruct target; try constructor. by apply clean_object.
  - apply clean_object in Hp. apply Forall_forall. intros [k v] Hin _ u Hu. simpl in *.
    pose proof (proj1 (Forall_forall _ _) Hp _ Hin) as Hkv. pose proof (proj1 (Forall_forall _ _) IH _ Hin) as IHv.
    destruct (is_object v) eqn:Ho; [|by rewrite merge_patch_leaf].
    destruct v; try done. by apply merge_clean_member.
Qed.

(** *** The merge of RFC 7386 *)

(** Values as [serde_json] keeps them: every object in the order of its keys. *)
Inductive ordered : Value -> Prop :=
  | ordered_leaf v : is_object v = false -> is_array v = false -> ordered v
  | ordered_array a : Forall ordered a -> ordered (Array a)
  | ordered_object o : btree o -> Forall (fun kv => ordered (snd kv)) o -> ordered (Object o).

Lemma ordered_members v : ordered v -> btree (members v) /\ Forall (fun kv => ordered (snd kv)) (members v).
Proof. intros [u Ho Ha|a Ha|o Ho Hm]; [|by repeat constructor|done]. destruct u; try done; by repeat constructor. Qed.

Lemma merge_sorted p t : btree t -> btree (fold_left merge_step p t).
Proof.
  revert t. induction p as [|[k v] p IH]; intros t Ht; [done|]. simpl. apply IH. unfold merge_step. simpl.
  destruct (is_null v); [by apply btree_remove_sorted|by apply btree_insert_sorted].
Qed.

Lemma merge_ordered target patch : ordered target -> ordered patch -> ordered (merge_patch target patch).
Proof.
  revert target. induction patch as [| | | |a _|p IH] using value_nested_ind; intros target Ht Hp; [done..|].
  rewrite merge_patch_object. apply ordered_members in Ht as [Ht Htm]. inversion Hp as [? Hn| |o Ho Hpm]; subst; [done|].
  constructor; [by apply merge_sorted|]. apply merge_members; [done|].
  apply Forall_forall. intros kv Hin _ v Hv. apply (proj1 (Forall_forall _ _) IH _ Hin).
  - destruct Hv as [->|Hv]; [by constructor|done].
  - by apply (proj1 (Forall_forall _ _) Hpm).
Qed.

(** What a merge leaves under a key. *)
Definition merged_member (before after : option Value) : option Value :=
  match after with
  | None => before
  | Some Null => None
  | Some v => Some (merge_patch (default Null before) v)
  end.

Lemma merge_step_get k t kv :
  index_get k (merge_step t kv) = if String.eqb k (fst kv) then merged_member (index_get k t) (Some (snd kv)) else index_get k t.
Proof.
  destruct kv as [l v]. unfold merge_step. simpl. destruct (is_null v) eqn:Hv.
  - rewrite index_get_remove. destruct v; try done. 
  - rewrite index_get_insert. destruct (String.eqb_spec k l) as [->|]; [|done]. by destruct v.
Qed.

Lemma merge_get k p t :
  btree p -> index_get k (fold_left merge_step p t) = merged_member (index_get k t) (index_get k p).
Proof.
  revert t. induction p as [|[l v] p IH]; intros t Hp; [done|]. apply btree_cons in Hp as [Hl Hp]. simpl.
  rewrite IH by done. rewrite merge_step_get. simpl. destruct (String.eqb_spec k l) as [->|]; [|done].
  replace (index_get l p) with (@None Value); [done|]. symmetry. apply index_get_None. intros Hin.
  apply (str_lt_irrefl l). by apply (proj1 (Forall_forall _ _) Hl).
Qed.

(** A patch that is no object replaces the target. An object is merged member by
    member: a key it does not name keeps its value, [null] deletes, any other value
    is merged into what is there; the result is an object in order. *)
Theorem merge_patch_rfc7386 target patch :
  ordered target -> ordered patch ->
  (is_object patch = false -> merge_patch target patch = patch) /\
  (is_object patch = true ->
   is_object (merge_patch target patch) = true /\ ordered (merge_patch target patch) /\
   forall k, Json.get k (merge_patch target patch) = merged_member (Json.get k target) (Json.get k patch)).
Proof.
  intros Ht Hp. split; [apply merge_patch_leaf|]. intros Ho. split_and!; [by destruct patch|by apply merge_ordered|].
  intros k. destruct patch; try done. inversion Hp as [? Hn| |o' Hs _]; subst; [done|].
  rewrite merge_patch_object. simpl. rewrite merge_get by done. by destruct target.
Qed.

(** Merging again changes nothing. *)
Theorem merge_patch_idempotent target patch :
  ordered target -> ordered patch -> merge_patch (merge_patch target patch) patch = merge_patch target patch.
Proof.
  revert target. induction patch as [| | | |a _|p IH] using value_nested_ind; intros target Ht Hp; [done..|].
  inversion Hp as [? Hn| |o Hs Hm]; subst; [done|]. rewrite !merge_patch_object. f_equal.
  change (members (Object ?x)) with x. pose proof (ordered_members _ Ht) as [Hbt Hmt].
  apply btree_ext; [by do 2 apply merge_sorted|by apply merge_sorted|]. intros k. rewrite !merge_get by done.
  destruct (index_get k p) as [v|] eqn:Hk; [|done]. apply index_get_Some in Hk.
  destruct (is_null v) eqn:Hv; [by destruct v|].
  assert (forall b, merged_member b (Some v) = Some (merge_patch (default Null b) v)) as Hmm by (by destruct v).
  rewrite !Hmm. simpl. f_equal. apply (proj1 (Forall_forall _ _) IH _ Hk).
  - destruct (index_get k (members target)) as [u|] eqn:Hu; [|by constructor].
    apply index_get_Some in Hu. by apply (proj1 (Forall_forall _ _) Hmt _ Hu).
  - by apply (proj1 (Forall_forall _ _) Hm _ Hk).
Qed.

Lemma merge_witness :
  Json.get "b" (merge_patch (Object [("a", Null); ("b", Str "x")]) (Object [("b", Null)])) = None.
Proof.
  destruct (merge_patch_rfc7386 (Object [("a", Null); ("b", Str "x")]) (Object [("b", Null)])) as [_ H].
  1, 2: apply ordered_object; repeat constructor; by apply ordered_leaf.
  exact (proj2 (proj2 (H eq_refl)) "b").
Defined.
