(* ===== verification/ServerViewProps.v ===== *)
(** * The view of the server's configuration

    What [GET /v2/server/config] says of the configuration: nothing of its secrets, and of
    every value where it comes from.  A path is labelled as the command line's exactly if
    a flag sets it, and then no file has a say in it; the value at any other path is the
    file's. *)

From S2P Require Import Prelude Text Float Errors Json Deadline Queue Registry Validation Cors Access RateLimit ClientIp Outlier Lifecycle Reconcile Dispatch Warmup Watcher Config ConfigApi ConfigApiProps.
Open Scope string_scope.
Open Scope Z_scope.

(** ** Leaves *)

(** The leaves of a tree, with their paths: what [attribute_sources] labels. *)
Fixpoint leaves (path : string) (v : Value) : list (string * Value) :=
  match v with
  | Object m => mjoin (map (fun kv => leaves (child_path path (fst kv)) (snd kv)) m)
  | _ => [(path, v)]
  end.

Lemma in_object_leaves path m e :
  e ∈ leaves path (Object m) <-> exists kv, kv ∈ m /\ e ∈ leaves (child_path path (fst kv)) (snd kv).
Proof.
  simpl. rewrite list_elem_of_join. split.
  - intros (l & He & Hl). apply list_elem_of_fmap in Hl as (kv & -> & Hkv). by exists kv.
  - intros (kv & Hkv & He). exists (leaves (child_path path (fst kv)) (snd kv)). split; [done|].
    apply list_elem_of_fmap. by exists kv.
Qed.

(** Two trees have the same leaves at the paths of interest. *)
Definition agree (Q : string -> Prop) (path : string) (v w : Value) : Prop :=
  forall p, Q p -> forall x, (p, x) ∈ leaves path v <-> (p, x) ∈ leaves path w.

Lemma agree_refl Q path v : agree Q path v v.
Proof. by intros p _ x. Qed.

Lemma agree_object Q path l l' :
  Forall2 (fun a b => fst a = fst b /\ agree Q (child_path path (fst a)) (snd a) (snd b)) l l' ->
  agree Q path (Object l) (Object l').
Proof.
  intros H p Hp x. simpl. induction H as [|[k v] [k' w] l l' [Hk Hs] _ IH]; [done|]. simpl in *. subst k'.
  rewrite !elem_of_app, IH. by rewrite (Hs p Hp x).
Qed.

(** At or below a path. *)
Definition below (q p : string) : bool := String.eqb p q || starts_with (q +:+ ".") p.

Lemma is_some_true {A} (o : option A) : is_some o = true <-> exists a, o = Some a.
Proof. destruct o; simpl; split; [eauto|done|done|by intros (? & ?)]. Qed.

Lemma below_child q k p : q <> "" -> below (child_path q k) p = true -> below q p = true.
Proof.
  intros Hq. unfold below, child_path, starts_with. rewrite bool_decide_eq_false_2 by done.
  rewrite !orb_true_iff, !is_some_true. intros [->%String.eqb_eq|[r Hr]]; right.
  - exists k. apply strip_prefix_spec. by rewrite app_assoc_str.
  - apply strip_prefix_spec in Hr as ->. exists (k +:+ "." +:+ r). apply strip_prefix_spec. by rewrite !app_assoc_str.
Qed.

Lemma child_path_nonempty q k : q <> "" -> child_path q k <> "".
Proof. intros Hq. unfold child_path. rewrite bool_decide_eq_false_2 by done. by destruct q. Qed.

Lemma leaves_below q v p x : q <> "" -> (p, x) ∈ leaves q v -> below q p = true.
Proof.
  revert q. induction v as [| | | |a _|o IH] using value_nested_ind; intros q Hq Hin.
  1-5: apply list_elem_of_singleton in Hin as [= -> ->]; unfold below; by rewrite String.eqb_refl.
  apply in_object_leaves in Hin as ([k v] & Hkv & Hin). simpl in Hin.
  apply (below_child q k); [done|]. apply (proj1 (Forall_forall _ _) IH _ Hkv); [|done]. by apply child_path_nonempty.
Qed.

(** A subtree none of whose paths is of interest. *)
Lemma agree_elsewhere (Q : string -> Prop) q v w :
  q <> "" -> (forall p, Q p -> below q p = false) -> agree Q q v w.
Proof. intros Hq HQ p Hp x. pose proof (HQ p Hp). split; intros Hin%leaves_below; congruence. Qed.

(** ** The flags *)

(** The flags by the path they set. *)
Definition flag_table (cli : CliOverrides) : list (string * bool) :=
  let t := cl_tunables cli in
  [("server.http_port", is_some (cl_port cli)); ("server.host", is_some (cl_host cli));
   ("model_repository.path", is_some (cl_model_repo cli)); ("server.threads", is_some (cl_threads cli));
   ("server.timeout", is_some (cl_timeout cli)); ("logging.level", is_some (cl_log_level cli));
   ("logging.info_output", is_some (cl_log_info_output cli)); ("logging.error_output", is_some (cl_log_error_output cli));
   ("logging.rotation", is_some (cl_log_rotation cli)); ("server.grpc_port", is_some (cl_grpc_port cli));
   ("server.metrics_port", is_some (cl_metrics_port cli)); ("grpc.enabled", cl_no_grpc cli);
   ("metrics.enabled", cl_no_metrics cli); ("features.streaming_metrics", cl_no_streaming_metrics cli);
   ("server.graceful_timeout", is_some (cl_graceful_timeout cli));
   ("server.keepalive_timeout", is_some (cl_keepalive_timeout cli));
   ("server.shutdown_stream_grace_ms", is_some (cl_shutdown_stream_grace_ms cli));
   ("model_defaults.max_queue_size", is_some (mt_max_queue_size t));
   ("model_defaults.max_requests", is_some (mt_max_requests t));
   ("model_defaults.max_requests_jitter", is_some (mt_max_requests_jitter t));
   ("model_defaults.recycle_max_percent", is_some (mt_recycle_max_percent t));
   ("model_defaults.count_streams_toward_max_requests", is_some (mt_count_streams_toward_max_requests t));
   ("model_defaults.recycle_stream_drain_timeout_secs", is_some (mt_recycle_stream_drain_timeout_secs t));
   ("model_defaults.max_concurrent_streams", is_some (mt_max_concurrent_streams t));
   ("model_defaults.recycle_stream_grace_ms", is_some (mt_recycle_stream_grace_ms t));
   ("model_defaults.request_timeout", is_some (mt_request_timeout t));
   ("model_defaults.health_check_interval", is_some (mt_health_check_interval t));
   ("model_defaults.ejection_error_threshold", is_some (mt_ejection_error_threshold t));
   ("model_defaults.ejection_timeout", is_some (mt_ejection_timeout t));
   ("model_defaults.ejection_max_percent", is_some (mt_ejection_max_percent t));
   ("model_defaults.ejection_max_timeout", is_some (mt_ejection_max_timeout t));
   ("model_defaults.max_retries", is_some (mt_max_retries t));
   ("model_defaults.startup_timeout", is_some (mt_startup_timeout t));
   ("model_defaults.health_check_timeout", is_some (mt_health_check_timeout t));
   ("model_defaults.health_check_kill_threshold", is_some (mt_health_check_kill_threshold t));
   ("model_defaults.worker_kill_timeout", is_some (mt_worker_kill_timeout t));
   ("model_defaults.hook_http_timeout", is_some (mt_hook_http_timeout t))].

Lemma chosen_app l l' : chosen (l ++ l') = (chosen l ++ chosen l')%list.
Proof. unfold chosen. by rewrite List.filter_app, map_app. Qed.

Lemma chosen_prefix pre l : map (String.append pre) (chosen l) = chosen (map (fun kb => (pre +:+ fst kb, snd kb)) l).
Proof. induction l as [|[k b] l IH]; [done|]. unfold chosen in *. simpl. destruct b; simpl; by rewrite <- IH. Qed.

Lemma overridden_paths_table cli : overridden_paths cli = chosen (flag_table cli).
Proof. unfold overridden_paths. rewrite chosen_prefix, <- chosen_app. reflexivity. Qed.

Lemma in_chosen l p : NoDup (map fst l) -> p ∈ chosen l <-> index_get p l = Some true.
Proof.
  intros Hnd. unfold chosen. rewrite list_elem_of_fmap. split.
  - intros ([k b] & -> & Hin). apply list_elem_of_In, filter_In in Hin as [Hin Hb]. simpl in *. subst b.
    apply index_get_NoDup; [done|]. by apply list_elem_of_In.
  - intros Hget%index_get_Some. exists (p, true). split; [done|]. apply list_elem_of_In, filter_In. split; [|done].
    by apply list_elem_of_In.
Qed.

Lemma flag_table_NoDup cli : NoDup (map fst (flag_table cli)).
Proof. change (NoDup (map fst (flag_table {| cl_port := None; cl_host := None; cl_model_repo := None; cl_threads := None;
  cl_timeout := None; cl_log_level := None; cl_log_info_output := None; cl_log_error_output := None;
  cl_log_rotation := None; cl_grpc_port := None; cl_metrics_port := None; cl_no_grpc := false; cl_no_metrics := false;
  cl_no_streaming_metrics := false; cl_graceful_timeout := None; cl_keepalive_timeout := None;
  cl_shutdown_stream_grace_ms := None; cl_tunables := ModelTunables_default |}))).
  apply (bool_decide_unpack _). vm_compute. exact I. Qed.

Lemma overridden_iff cli p : p ∈ overridden_paths cli <-> index_get p (flag_table cli) = Some true.
Proof. rewrite overridden_paths_table. apply in_chosen, flag_table_NoDup. Qed.

Lemma overridden_name cli p : p ∈ overridden_paths cli -> p ∈ map fst (flag_table cli).
Proof. intros H%overridden_iff%index_get_Some. by apply (list_elem_of_fmap_2 fst) in H. Qed.

(** ** Who decides a value *)

(** The names of the flags do not depend on the flags. *)
Definition no_flags : CliOverrides :=
  {| cl_port := None; cl_host := None; cl_model_repo := None; cl_threads := None; cl_timeout := None;
     cl_log_level := None; cl_log_info_output := None; cl_log_error_output := None; cl_log_rotation := None;
     cl_grpc_port := None; cl_metrics_port := None; cl_no_grpc := false; cl_no_metrics := false;
     cl_no_streaming_metrics := false; cl_graceful_timeout := None; cl_keepalive_timeout := None;
     cl_shutdown_stream_grace_ms := None; cl_tunables := ModelTunables_default |}.

Definition flag_names : list string := map fst (flag_table no_flags).

Lemma agree_leaf (Q : string -> Prop) q v w :
  ~ Q q -> is_object v = false -> is_object w = false -> agree Q q v w.
Proof.
  intros Hq Hv Hw p Hp x. by destruct v, w; try done; split; intros [= -> ->]%list_elem_of_singleton.
Qed.

(** At and below a path whose flag, if it has one, is not set. *)
Lemma agree_unflagged cli q v w :
  q <> "" -> index_get q (flag_table cli) <> Some true ->
  forallb (fun n => String.eqb n q || negb (below q n)) flag_names = true ->
  agree (fun p => p ∈ overridden_paths cli) q v w.
Proof.
  intros Hq Hoff Hnames. apply agree_elsewhere; [done|]. intros p Hp.
  pose proof (overridden_name _ _ Hp) as Hin. apply overridden_iff in Hp.
  assert (p ∈ flag_names) as Hn by exact Hin. apply list_elem_of_In in Hn.
  pose proof (proj1 (forallb_forall _ _) Hnames _ Hn) as Hb. apply orb_true_iff in Hb as [->%String.eqb_eq|Hb]; [done|].
  by apply negb_true_iff.
Qed.

Ltac norm_path := match goal with |- agree _ ?q _ _ => let q' := eval vm_compute in q in change q with q' end.

Ltac split_fields :=
  apply agree_object;
  repeat first [apply List.Forall2_nil | apply List.Forall2_cons; [split; [reflexivity|]|]]; cbn [fst snd]; norm_path.

(** Case on the flag a field depends on. *)
Ltac flag_cases :=
  match goal with
  | |- context [default _ (?f ?cli)] => destruct (f cli) eqn:?
  | |- context [overlay _ (?f (cl_tunables ?cli))] => destruct (f (cl_tunables cli)) eqn:?
  | |- context [overlay _ (?f ?cli)] => destruct (f cli) eqn:?
  | |- context [if ?f ?cli then false else _] => destruct (f cli) eqn:?
  end.

Ltac eval_flag := unfold flag_table; cbv zeta; try match goal with H : _ = _ |- _ => rewrite H end; reflexivity.

Lemma is_object_opt {A} (f : A -> Value) o : (forall a, is_object (f a) = false) -> is_object (opt_value f o) = false.
Proof. by destruct o; simpl. Qed.

Lemma is_object_f32 f : is_object (f32_value f) = false.
Proof. unfold f32_value, f64_value. by case_goal. Qed.

Ltac no_object := first [reflexivity | apply is_object_f32 | apply is_object_opt; intros; first [reflexivity | apply is_object_f32]].

(** A field of the file: the flag is not set, or the path is not of interest. *)
Ltac kept_field :=
  simpl; first [apply agree_refl
        | flag_cases; cbn [default overlay is_some];
          [apply agree_leaf; [intros Hn; apply Hn, overridden_iff; eval_flag|no_object|no_object]
          |apply agree_refl]].

Lemma unset_paths_from_file cli c :
  agree (fun p => p ∉ overridden_paths cli) "" (Config_value (apply_overrides cli c)) (Config_value c).
Proof.
  unfold Config_value. split_fields; try apply agree_refl; unfold apply_overrides;
    cbn [cf_server cf_grpc cf_metrics cf_logging cf_model_repository cf_features cf_model_defaults].
  - split_fields; kept_field.
  - split_fields; kept_field.
  - split_fields; kept_field.
  - split_fields; kept_field.
  - split_fields; kept_field.
  - split_fields; kept_field.
  - split_fields; kept_field.
Qed.

(** A field the flag decides, or whose path is not of interest. *)
Ltac flagged_field :=
  simpl; first [apply agree_refl
        | flag_cases; cbn [default overlay is_some];
          [apply agree_refl|apply agree_unflagged; [discriminate|unfold flag_table; cbv zeta; try match goal with H : _ = _ |- _ => rewrite H end; vm_compute; discriminate|vm_compute; reflexivity]]
        | apply agree_unflagged; [discriminate|vm_compute; discriminate|vm_compute; reflexivity]].

Lemma set_paths_from_flags cli c c' :
  agree (fun p => p ∈ overridden_paths cli) ""
    (Config_value (apply_overrides cli c)) (Config_value (apply_overrides cli c')).
Proof.
  unfold Config_value. split_fields;
    try (apply agree_unflagged; [discriminate|vm_compute; discriminate|vm_compute; reflexivity]);
    unfold apply_overrides;
    cbn [cf_server cf_grpc cf_metrics cf_logging cf_model_repository cf_features cf_model_defaults].
  - split_fields; flagged_field.
  - split_fields; flagged_field.
  - split_fields; flagged_field.
  - split_fields; flagged_field.
  - split_fields; flagged_field.
  - split_fields; flagged_field.
  - split_fields; flagged_field.
Qed.

(** The paths reported as overridden are exactly those the command line decides: the
    value at any other path is the one of the file, and the value at such a path is
    the same whatever the file says. *)
Theorem overridden_paths_decided_by_flags cli c c' p x :
  (p ∉ overridden_paths cli ->
   (p, x) ∈ leaves "" (Config_value (apply_overrides cli c)) <-> (p, x) ∈ leaves "" (Config_value c)) /\
  (p ∈ overridden_paths cli ->
   (p, x) ∈ leaves "" (Config_value (apply_overrides cli c)) <->
   (p, x) ∈ leaves "" (Config_value (apply_overrides cli c'))).
Proof.
  split; intros Hp; [by apply unset_paths_from_file|by apply (set_paths_from_flags cli c c')].
Qed.

(** ** Labels *)

(** Every leaf is labelled, a path of the command line as such, and nothing else is. *)
Definition label (cli : list string) (p : string) (v def : Value) : string :=
  if bool_decide (p ∈ cli) then "cli" else if value_eqb v def then "default" else "file".

Lemma attribute_sources_leaf cli path v def out :
  is_object v = false -> attribute_sources cli path v def out = <[path := label cli path v def]> out.
Proof. by destruct v. Qed.

Lemma attribute_sources_keeps cli path v def out p s :
  (p ∉ map fst (leaves path v)) -> attribute_sources cli path v def out !! p = Some s <-> out !! p = Some s.
Proof.
  revert path def out. induction v as [| | | |a _|o IH] using value_nested_ind; intros path def out Hp.
  1-5: rewrite attribute_sources_leaf, lookup_insert_ne by done || (by simpl in *; set_solver); done.
  revert out Hp. simpl. induction IH as [|[k v] o Hv _ IHo]; intros out Hp; [done|]. simpl in *.
  rewrite map_app, elem_of_app in Hp. rewrite IHo by tauto. apply Hv. tauto.
Qed.

Lemma attribute_sources_cli cli path v def out p :
  (forall s, out !! p = Some s -> (s = "cli" <-> p ∈ cli)) ->
  forall s, attribute_sources cli path v def out !! p = Some s -> (s = "cli" <-> p ∈ cli).
Proof.
  revert path def out. induction v as [| | | |a _|o IH] using value_nested_ind; intros path def out Hout lbl.
  1-5: rewrite attribute_sources_leaf by done; destruct (decide (path = p)) as [->|Hne];
    [rewrite lookup_insert_eq; intros [= <-]; unfold label; case_bool_decide; [done|]; by case_goal
    |rewrite lookup_insert_ne by done; apply Hout].
  revert out Hout. simpl. induction IH as [|[k v] o Hv _ IHo]; intros out Hout; [by apply Hout|]. simpl.
  apply IHo. intros s'. by apply Hv.
Qed.

Lemma attribute_sources_total cli path v def out p :
  is_Some (out !! p) \/ p ∈ map fst (leaves path v) -> is_Some (attribute_sources cli path v def out !! p).
Proof.
  revert path def out. induction v as [| | | |a _|o IH] using value_nested_ind; intros path def out Hp.
  1-5: rewrite attribute_sources_leaf by done; destruct (decide (path = p)) as [->|Hne];
    [by rewrite lookup_insert_eq|rewrite lookup_insert_ne by done; destruct Hp as [|Hp]; [done|]; simpl in Hp; set_solver].
  revert out Hp. simpl. induction IH as [|[k v] o Hv _ IHo]; intros out Hp; [by destruct Hp as [|?%elem_of_nil]|].
  simpl in *. apply IHo. rewrite map_app, elem_of_app in Hp. destruct Hp as [Hp|[Hp|Hp]]; [left; apply Hv; by left| |by right].
  left. apply Hv. by right.
Qed.

(** The sources shown: an entry for every leaf that is shown and for nothing else,
    and it says [cli] exactly for the paths of the command line. *)
Theorem sources_label_every_leaf cli config def :
  let sources := attribute_sources (overridden_paths cli) "" config def ∅ in
  (forall p, is_Some (sources !! p) <-> p ∈ map fst (leaves "" config)) /\
  (forall p s, sources !! p = Some s -> (s = "cli" <-> p ∈ overridden_paths cli)).
Proof.
  intros sources. split.
  - intros p. split; [|intros Hp; apply attribute_sources_total; by right]. intros [s Hs].
    destruct (decide (p ∈ map fst (leaves "" config))) as [|Hp]; [done|].
    apply (proj1 (attribute_sources_keeps _ _ _ _ _ _ s Hp)) in Hs. by rewrite lookup_empty in Hs.
  - intros p s. apply attribute_sources_cli. intros s'. by rewrite lookup_empty.
Qed.

(** An empty map is shown without a label. *)
Example empty_maps_unlabelled cli :
  attribute_sources (overridden_paths cli) "" (fst (redact_tree SERVER_REDACTED_SUBTREES "" (Config_value Config_default)))
    (Config_value Config_default) ∅ !! "telemetry.otlp_headers" = None.
Proof.
  apply eq_None_not_Some. intros H. apply sources_label_every_leaf in H. revert H.
  apply (bool_decide_eq_false _). vm_compute. reflexivity.
Qed.

(** ** Secrets of the server *)

(** Controls that differ in the secret only. *)
Definition same_control (a b : option EndpointControl) : Prop :=
  match a, b with
  | Some (CKey key value value_env value_file), Some (CKey key' value' value_env' value_file') =>
      key = key' /\ is_some value = is_some value' /\ value_env = value_env' /\ value_file = value_file'
  | _, _ => a = b
  end.

(** The configuration with other controls and other headers for the exporter. *)
Definition set_secrets (access : AccessControlConfig) (openai : option EndpointControl) (otlp : gmap string string)
    (c : Config) : Config :=
  {| cf_server := cf_server c; cf_grpc := cf_grpc c; cf_metrics := cf_metrics c; cf_rate_limit := cf_rate_limit c;
     cf_logging := cf_logging c; cf_model_repository := cf_model_repository c; cf_features := cf_features c;
     cf_orchestration := cf_orchestration c; cf_model_defaults := cf_model_defaults c; cf_tunables := cf_tunables c;
     cf_access_control := access; cf_openai_compact := {| oc_auth := openai |};
     cf_telemetry :=
       {| te_enabled := te_enabled (cf_telemetry c); te_otlp_endpoint := te_otlp_endpoint (cf_telemetry c);
          te_protocol := te_protocol (cf_telemetry c); te_sample_ratio := te_sample_ratio (cf_telemetry c);
          te_health_admin_sample_ratio := te_health_admin_sample_ratio (cf_telemetry c);
          te_service_name := te_service_name (cf_telemetry c);
          te_resource_attributes := te_resource_attributes (cf_telemetry c); te_otlp_headers := otlp;
          te_export_interval_millis := te_export_interval_millis (cf_telemetry c);
          te_max_queue_size := te_max_queue_size (cf_telemetry c); te_metrics_enabled := te_metrics_enabled (cf_telemetry c);
          te_exemplars_enabled := te_exemplars_enabled (cf_telemetry c);
          te_baggage_allowlist := te_baggage_allowlist (cf_telemetry c);
          te_baggage_max_entries := te_baggage_max_entries (cf_telemetry c);
          te_baggage_max_entry_bytes := te_baggage_max_entry_bytes (cf_telemetry c) |};
     cf_callbacks := cf_callbacks c; cf_alerts := cf_alerts c |}.

Lemma same_public_refl subtrees path v : same_public subtrees path v v.
Proof.
  revert path. induction v as [| | | |a IH|o IH] using value_nested_ind; intros path; [by apply same_scalar..| |].
  - apply same_array; [done|]. intros i x y Hx Hy. rewrite Hx in Hy. injection Hy as <-. by apply (Forall_lookup_1 _ _ _ _ IH Hx).
  - apply same_object. induction IH as [|[k v] o Hv _ IHo]; [constructor|]. constructor; [|done]. split; [done|]. right. apply Hv.
Qed.

Lemma map_value_empty {A} (f : A -> Value) (m : gmap string A) : is_empty_value (map_value f m) = bool_decide (m = ∅).
Proof.
  unfold map_value. cbn [is_empty_value]. rewrite length_map, (Permutation_length (merge_sort_Permutation _ _)).
  rewrite length_map_to_list. apply bool_decide_ext. apply map_size_empty_iff.
Qed.

(** Member by member, each either the same or secret. *)
Ltac same_fields :=
  apply same_object;
  repeat first [apply List.Forall2_nil
               | apply List.Forall2_cons; [split; [reflexivity|cbn [fst snd]; try (right; apply same_public_refl)]|]].

Lemma same_public_control path a b :
  child_path path "value" ∈ SERVER_REDACTED_SUBTREES -> same_control a b ->
  same_public SERVER_REDACTED_SUBTREES path (opt_value EndpointControl_value a) (opt_value EndpointControl_value b).
Proof.
  intros Hin Hab. destruct a as [[|key v e f]|], b as [[|key' v' e' f']|]; simpl in Hab; try discriminate Hab;
    try apply same_public_refl. destruct Hab as (<- & Hv & <- & <-). simpl. same_fields.
  destruct v as [v|], v' as [v'|]; try done; [left; left|right; apply same_public_refl]. by repeat split.
Qed.

(** C29. The server's configuration is shown alike whatever its secrets are: for two
    configurations that differ only in the keys of the access controls and of the
    OpenAI gate and in the headers of the telemetry exporter, the whole answer
    (tree, redacted paths and sources) is the same. *)
Theorem server_view_hides_secrets cli c access access' openai openai' otlp otlp' :
  same_control (pc_http (acc_admin access)) (pc_http (acc_admin access')) ->
  same_control (pc_grpc (acc_admin access)) (pc_grpc (acc_admin access')) ->
  same_control (pc_http (acc_inference access)) (pc_http (acc_inference access')) ->
  same_control (pc_grpc (acc_inference access)) (pc_grpc (acc_inference access')) ->
  same_control (acc_health access) (acc_health access') -> same_control openai openai' ->
  (otlp = ∅ <-> otlp' = ∅) ->
  server_config_json (set_secrets access openai otlp c) cli = server_config_json (set_secrets access' openai' otlp' c) cli.
Proof.
  intros H1 H2 H3 H4 H5 H6 H7. unfold server_config_json.
  rewrite (redaction_hides_secrets SERVER_REDACTED_SUBTREES "" _ (Config_value (set_secrets access' openai' otlp' c))); [done|].
  unfold Config_value. same_fields; simpl.
  - right. same_fields; right; [| |]; try (same_fields; right); by apply same_public_control; [by vm_compute; set_solver|].
  - right. same_fields. right. by apply same_public_control; [vm_compute; set_solver|].
  - right. same_fields. destruct (decide (otlp = ∅)) as [->|Hne].
    + rewrite (proj1 H7 eq_refl). right. apply same_public_refl.
    + left. left. rewrite !map_value_empty. rewrite !bool_decide_eq_false_2 by tauto. repeat split. vm_compute. set_solver.
Qed.

Lemma server_view_witness :
  let with_key k := {| acc_admin := {| pc_http := Some (CKey "x-admin" (Some k) None None); pc_grpc := None |};
                       acc_inference := {| pc_http := None; pc_grpc := None |}; acc_health := Some CPublic |} in
  server_config_json (set_secrets (with_key "one") None {["authorization" := "Bearer a"]} Config_default) no_flags
  = server_config_json (set_secrets (with_key "two") None {["authorization" := "Bearer b"; "x" := "c"]} Config_default) no_flags.
Proof.
  intros with_key. apply server_view_hides_secrets; try reflexivity; [by repeat split|]. split; discriminate.
Defined.

Lemma overridden_paths_witness :
  let cli := {| cl_port := Some 9000; cl_host := None; cl_model_repo := None; cl_threads := None; cl_timeout := None;
     cl_log_level := None; cl_log_info_output := None; cl_log_error_output := None; cl_log_rotation := None;
     cl_grpc_port := None; cl_metrics_port := None; cl_no_grpc := false; cl_no_metrics := false;
     cl_no_streaming_metrics := false; cl_graceful_timeout := None; cl_keepalive_timeout := None;
     cl_shutdown_stream_grace_ms := None; cl_tunables := ModelTunables_default |} in
  ("server.host", Str "0.0.0.0") ∈ leaves "" (Config_value (apply_overrides cli Config_default)).
Proof.
  intros cli. assert ("server.host" ∉ overridden_paths cli) as Hp by (rewrite overridden_iff; vm_compute; discriminate).
  apply (proj1 (overridden_paths_decided_by_flags cli Config_default Config_default "server.host" (Str "0.0.0.0")) Hp).
  vm_compute. repeat first [apply list_elem_of_here|apply list_elem_of_further].
Defined.
