(* ===== verification/ConfigPatchProps.v ===== *)
(** * Patching a configuration file: facts

    One request: no placeholder of a secret is installed, and all or nothing.  An error before the write leaves everything as it was; a
    success has the merged file on disk, under the etag that is answered, and the watcher
    takes it for the server's own; a reload that fails puts the bytes back.

    Many requests: those that name the etag they read behave as if executed one after the
    other, whatever the interleaving, unless two contents share an etag.  The rollback is
    outside of that protection: it can undo a patch of another client. *)

From S2P Require Import Prelude Text Float Errors Json Deadline Queue Registry RegistryProps Validation Cors Access RateLimit ClientIp Outlier Lifecycle LifecycleProps Reconcile Dispatch Warmup Watcher Config ConfigApi ConfigApiProps.
Open Scope string_scope.
Open Scope Z_scope.

(** ** Atomic writes *)

Lemma set_bytes_other name n bytes (d : Dir) : n <> name -> set_bytes name bytes d !! n = d !! n.
Proof. intros Hn. unfold set_bytes. by apply lookup_alter_ne. Qed.

Lemma set_bytes_same name bytes (d : Dir) :
  set_bytes name bytes d !! name = (fun f => {| f_bytes := bytes; f_mode := f_mode f |}) <$> d !! name.
Proof. unfold set_bytes. apply lookup_alter_eq. Qed.

Lemma create_file_other m name n (d : Dir) : n <> name -> create_file m name d !! n = d !! n.
Proof. intros Hn. unfold create_file. by apply lookup_insert_ne. Qed.

Lemma copy_mode_other b b' source name n (d : Dir) : n <> name -> copy_mode b b' source name d !! n = d !! n.
Proof.
  intros Hn. unfold copy_mode, set_mode. destruct (d !! source); [|done]. destruct (b || b'); [done|].
  by apply lookup_alter_ne.
Qed.

(** The mode a file is left with after [copy_mode]. *)
Definition mode_after (fails : bool) (source : option File) (mode : Z) : Z :=
  match source with Some f => if fails then mode else f_mode f | None => mode end.

Lemma copy_mode_same b b' source name f (d : Dir) :
  source <> name -> d !! name = Some f ->
  copy_mode b b' source name d !! name = Some {| f_bytes := f_bytes f; f_mode := mode_after (b || b') (d !! source) (f_mode f) |}.
Proof.
  intros Hn Hf. unfold copy_mode, set_mode, mode_after. destruct (d !! source).
  - destruct (b || b'); [by destruct f|]. by rewrite lookup_alter_eq, Hf.
  - by destruct f.
Qed.

Section atomic.
Context (default_mode : Z) (w : WriteFaults) (tmp name bytes : string).
Hypothesis tmp_name : tmp <> name.

Definition tmp_mode (d : Dir) : Z := default default_mode (f_mode <$> d !! tmp).

(** The file that a successful write leaves. *)
Definition written_file (d : Dir) : File :=
  {| f_bytes := bytes; f_mode := mode_after (wf_metadata w || wf_chmod w) (d !! name) (tmp_mode d) |}.

(** Either the write succeeds and replaces the file, or the file is what it was; no other
    file but the temporary one is touched. *)
Lemma atomic_write_spec d r d' :
  atomic_write default_mode w tmp name bytes d = (r, d') ->
  (forall n, n <> tmp -> n <> name -> d' !! n = d !! n) /\
  match r with
  | Ok _ => d' !! name = Some (written_file d)
  | Err _ => d' !! name = d !! name
  end.
Proof.
  unfold atomic_write, write_and_rename. set (d1 := create_file default_mode tmp d).
  assert (forall n, n <> tmp -> d1 !! n = d !! n) as H1 by (intros; by apply create_file_other).
  assert (d1 !! tmp = Some {| f_bytes := ""; f_mode := tmp_mode d |}) as Ht by apply lookup_insert_eq.
  assert (forall (x : Dir) b, (forall n, n <> tmp -> x !! n = d !! n) ->
    (forall n, n <> tmp -> n <> name -> (if is_ok (@Err string unit b) || wf_remove w then x else delete tmp x) !! n = d !! n) /\
    (if is_ok (@Err string unit b) || wf_remove w then x else delete tmp x) !! name = d !! name) as Herr.
  { intros x b Hx. simpl. split; [intros n Hn _|]; destruct (wf_remove w); rewrite ?lookup_delete_ne by done; by apply Hx. }
  destruct (wf_create w) as [e|]; [intros [= <- <-]; by apply (Herr d e)|].
  destruct (wf_write w) as [[part e]|].
  { intros [= <- <-]. apply (Herr _ e). intros n Hn. rewrite set_bytes_other by done. by apply H1. }
  set (d2 := set_bytes tmp bytes d1).
  assert (forall n, n <> tmp -> d2 !! n = d !! n) as H2 by (intros n Hn; unfold d2; rewrite set_bytes_other by done; by apply H1).
  destruct (wf_flush w) as [e|]; [intros [= <- <-]; by apply (Herr d2 e)|].
  destruct (wf_sync w) as [e|]; [intros [= <- <-]; by apply (Herr d2 e)|].
  set (d3 := copy_mode (wf_metadata w) (wf_chmod w) name tmp d2).
  assert (forall n, n <> tmp -> d3 !! n = d !! n) as H3 by (intros n Hn; unfold d3; rewrite copy_mode_other by done; by apply H2).
  destruct (wf_rename w) as [e|]; [intros [= <- <-]; by apply (Herr d3 e)|]. intros [= <- <-].
  assert (d3 !! tmp = Some (written_file d)) as H3t.
  { unfold d3. rewrite (copy_mode_same _ _ _ _ {| f_bytes := bytes; f_mode := tmp_mode d |}) by
      (try done; unfold d2; rewrite set_bytes_same, Ht; done). by rewrite H2 by done. }
  unfold rename_file. rewrite H3t. simpl. split.
  - intros n Hn Hm. rewrite lookup_insert_ne, lookup_delete_ne by done. by apply H3.
  - by apply lookup_insert_eq.
Qed.
End atomic.

Lemma tmp_name_hidden file pid seq : exists rest, tmp_name file pid seq = String "." rest.
Proof. by eexists. Qed.

Lemma tmp_not_config pid seq : tmp_name config_yaml pid seq <> config_yaml /\ tmp_name config_yaml pid seq <> config_bak.
Proof. destruct (tmp_name_hidden config_yaml pid seq) as [r ->]. by split. Qed.

(** ** One request *)

(** The bytes of the file, and of its backup. *)
Definition bytes_of (s : ConfigStore) : option string := f_bytes <$> cs_dir s !! config_yaml.
Definition backup_of (s : ConfigStore) : option string := f_bytes <$> cs_dir s !! config_bak.

(** No other task interferes. *)
Definition undisturbed (pi : PatchInput) : Prop :=
  (forall s, pi_before_write pi s = s) /\ (forall s, pi_before_rollback pi s = s).

(** The request names an etag and does not override it. *)
Definition conditional (req : ConfigPatchRequest) : bool := negb (pr_force req) && is_some (pr_if_match req).

Section request.
Context `{MapIter}.
Context {V : Type} (semver_parse : string -> option V) (semver_le : V -> V -> bool).
Context {Y : Type} (yaml_parse : string -> result string Y) (yaml_value : Y -> result string Value)
  (yaml_print : Value -> result string string).
Context (env : string -> option string) (from_yaml : string -> result string ModelConfig).
Context (sha256 : string -> list Z).
Context (default_mode pid : Z) (repo : Validation.path) (model version : string).

Abbreviation etag := (content_etag sha256).
Abbreviation prepare := (prepare_config_patch yaml_parse yaml_value yaml_print env from_yaml sha256 model version).
Abbreviation patch_config :=
  (model_version_config_patch semver_parse semver_le yaml_parse yaml_value yaml_print env from_yaml sha256
     default_mode pid repo model version).

(** What a patch makes of a file: the merged tree, printed, if it is a valid configuration. *)
Definition patched (patch : Value) (file : option string) : option string :=
  match patch_base yaml_parse yaml_value file with
  | Ok tree =>
      match yaml_print (merge_patch tree patch) with
      | Ok bytes => if is_ok (validate_model_config_yaml env from_yaml bytes) then Some bytes else None
      | Err _ => None
      end
  | Err _ => None
  end.

Lemma prepare_ready dir_exists read req s p :
  prepare dir_exists read req s = Ok (ReadyToWrite p) ->
  pp_original p = bytes_of s /\ patched (pr_patch req) (bytes_of s) = Some (pp_merged_yaml p) /\
  pp_new_etag p = etag (pp_merged_yaml p) /\ pp_mode p = pr_mode req /\ pr_mode req <> DryRun /\
  pp_expected_etag p = (if conditional req then etag <$> bytes_of s else None) /\
  (conditional req = true -> pr_if_match req = etag <$> bytes_of s) /\
  redaction_placeholder_path "" (pr_patch req) = None.
Proof.
  unfold prepare_config_patch. case_goal; [done|].
  destruct (patch_allowed req) as [[]|] eqn:Hallow; simpl; [|done].
  unfold read_config. destruct read as [e|]; simpl; [done|]. fold (bytes_of s).
  destruct (precondition req (etag <$> bytes_of s)) as [[]|] eqn:Hpre; simpl; [|done].
  unfold patched. destruct (patch_base _ _ (bytes_of s)) as [tree|] eqn:Hb; simpl; [|done].
  unfold prepare_merged. destruct (yaml_print (merge_patch tree (pr_patch req))) as [bytes|]; simpl; [|done].
  destruct (validate_model_config_yaml env from_yaml bytes); [|by case_bool_decide].
  case_bool_decide as Hm; [done|]. intros [= <-]. simpl. split_and!; try done.
  - unfold conditional, precondition in *. destruct (pr_force req), (pr_if_match req); try done. simpl. intros _.
    by case_bool_decide.
  - unfold patch_allowed in Hallow. destruct (negb (is_object (pr_patch req))); [done|]. by destruct (redaction_placeholder_path _ _).
Qed.

Lemma prepare_dry_run dir_exists read req s rep :
  prepare dir_exists read req s = Ok (DryRunReport rep) -> pr_mode req = DryRun.
Proof.
  unfold prepare_config_patch. case_goal; [done|]. destruct (patch_allowed req); simpl; [|done].
  destruct (read_config _ _); simpl; [|done]. destruct (precondition _ _); simpl; [|done].
  destruct (patch_base _ _ _); simpl; [|done]. unfold prepare_merged. destruct (yaml_print _); simpl; [|done].
  destruct (validate_model_config_yaml _ _ _); by case_bool_decide.
Qed.

(** An error that is not about a reload. *)
Definition before_reload (e : ConfigPatchError) : Prop := match e with ReloadFailed _ _ _ => False | _ => True end.

Lemma bind_before_reload {A B} (r : result ConfigPatchError A) (k : A -> result ConfigPatchError B) e :
  result_bind r k = Err e -> (forall e, r = Err e -> before_reload e) -> (forall a, k a = Err e -> before_reload e) ->
  before_reload e.
Proof. destruct r as [a|e']; simpl; [|intros [= ->]]; eauto. Qed.

Lemma map_err_before_reload {E A} (f : E -> ConfigPatchError) (r : result E A) e :
  map_err f r = Err e -> (forall e, before_reload (f e)) -> before_reload e.
Proof. destruct r; simpl; [done|]. by intros [= <-]. Qed.

Lemma prepare_before_reload dir_exists read req s e :
  prepare dir_exists read req s = Err e -> before_reload e.
Proof.
  unfold prepare_config_patch. case_goal; [by intros [= <-]|]. intros Hp.
  apply (bind_before_reload _ _ _ Hp); [|intros _; clear Hp; intros Hp].
  { unfold patch_allowed. intros e'. case_goal; [by intros [= <-]|]. case_goal; by intros [= <-]. }
  apply (bind_before_reload _ _ _ Hp); [|intros file; clear Hp; intros Hp].
  { intros e' He. by apply (map_err_before_reload _ _ _ He). }
  apply (bind_before_reload _ _ _ Hp); [|intros _; clear Hp; intros Hp].
  { unfold precondition. intros e'. destruct (pr_force req), (pr_if_match req); try done. case_goal; by intros [= <-]. }
  apply (bind_before_reload _ _ _ Hp); [|intros tree; clear Hp; intros Hp].
  { unfold patch_base. intros e'. destruct file; [|done]. intros He.
    apply (bind_before_reload _ _ _ He); [intros e2 He2; by apply (map_err_before_reload _ _ _ He2)|]. intros y Hy.
    apply (bind_before_reload _ _ _ Hy); [intros e2 He2; by apply (map_err_before_reload _ _ _ He2)|done]. }
  apply (bind_before_reload _ _ _ Hp); [intros e2 He2; by apply (map_err_before_reload _ _ _ He2)|].
  intros bytes. destruct (validate_model_config_yaml _ _ _); (case_goal; [done|]); try done. by intros [= <-].
Qed.

Lemma write_config_spec w bytes s r s' :
  write_config default_mode pid w bytes s = (r, s') ->
  cs_ledger s' = cs_ledger s /\ cs_manager s' = cs_manager s /\ backup_of s' = backup_of s /\
  match r with Ok _ => bytes_of s' = Some bytes | Err _ => bytes_of s' = bytes_of s end.
Proof.
  unfold write_config. destruct (atomic_write _ _ _ _ _ _) as [r' d] eqn:Hw. intros [= <- <-].
  destruct (tmp_not_config pid (cs_counter s)) as [Hy Hb].
  apply atomic_write_spec in Hw as [Hother Hr]; [|done]. unfold bytes_of, backup_of. simpl. split_and!; try done.
  - rewrite Hother; [done|by symmetry|done].
  - destruct r'; by rewrite Hr.
Qed.

Lemma write_backup_spec fault mode_fails original d r d' :
  write_backup default_mode fault mode_fails original d = (r, d') ->
  d' !! config_yaml = d !! config_yaml /\
  (is_ok r = true -> forall b, original = Some b -> f_bytes <$> d' !! config_bak = Some b).
Proof.
  unfold write_backup. destruct original as [bytes|]; [|by intros [= <- <-]].
  assert (config_yaml <> config_bak) as Hne by done.
  destruct fault as [[[part|] e]|]; intros [= <- <-]; (split; [|done || intros _ b [= <-]]).
  - by rewrite set_bytes_other, create_file_other.
  - done.
  - by rewrite copy_mode_other, set_bytes_other, create_file_other.
  - rewrite (copy_mode_same _ _ _ _ {| f_bytes := bytes; f_mode := default default_mode (f_mode <$> d !! config_bak) |});
      [done|done|]. rewrite set_bytes_same. unfold create_file. by rewrite lookup_insert_eq.
Qed.

Lemma install_spec p backup backup_mode w s r s' :
  install default_mode pid p backup backup_mode w s = (r, s') ->
  cs_ledger s' = cs_ledger s /\ cs_manager s' = cs_manager s /\
  match r with
  | Ok _ => bytes_of s' = Some (pp_merged_yaml p) /\ (forall b, pp_original p = Some b -> backup_of s' = Some b)
  | Err (ReloadFailed _ _ _) => False
  | Err _ => bytes_of s' = bytes_of s
  end.
Proof.
  unfold install. destruct (write_backup _ _ _ _ _) as [rb d] eqn:Hb. apply write_backup_spec in Hb as [Hy Hb].
  destruct rb as [[]|e].
  2: { intros [= <- <-]. unfold bytes_of. simpl. by rewrite Hy. }
  destruct (write_config _ _ _ _ _) as [rw s2] eqn:Hw. intros [= <- <-].
  apply write_config_spec in Hw as (Hl & Hm & Hbak & Hr). rewrite Hl, Hm. split_and!; try done.
  destruct rw as [[]|e]; simpl.
  - split; [done|]. intros b Hp. rewrite Hbak. unfold backup_of. simpl. by apply Hb.
  - rewrite Hr. unfold bytes_of. simpl. by rewrite Hy.
Qed.

Lemma write_prepared_spec p pi s r s' :
  write_prepared sha256 default_mode pid p pi s = (r, s') ->
  cs_ledger s' = cs_ledger s /\ cs_manager s' = cs_manager s /\
  match r with
  | Ok _ => bytes_of s' = Some (pp_merged_yaml p) /\ (forall b, pp_original p = Some b -> backup_of s' = Some b) /\
            (forall e, pp_expected_etag p = Some e -> etag <$> bytes_of s = Some e)
  | Err (ReloadFailed _ _ _) => False
  | Err _ => bytes_of s' = bytes_of s
  end.
Proof.
  unfold write_prepared. destruct (recheck _ _ _ _) as [[]|e] eqn:Hc.
  - intros Hi. apply install_spec in Hi as (Hl & Hm & Hr). split_and!; try done.
    destruct r as [[]|]; [|done]. destruct Hr as [Hb Hbak]. split_and!; try done.
    intros e He. unfold recheck in Hc. rewrite He in Hc. unfold read_config in Hc.
    destruct (pi_reread pi); simpl in Hc; [done|]. by case_bool_decide.
  - intros [= <- <-]. split_and!; try done. destruct e; try done. exfalso. revert Hc. unfold recheck.
    destruct (pp_expected_etag p); [|done]. unfold read_config. destruct (pi_reread pi); simpl; [done|]. by case_bool_decide.
Qed.

(** The watcher takes these bytes for the server's own write. *)
Definition echoed (bytes : string) (s : ConfigStore) : Prop :=
  fst (take_config_write (config_path repo (model, version)) (etag bytes) (cs_ledger s)) = true.

Lemma note_write_spec now bytes s :
  let s' := note_write repo model version now (etag bytes) s in
  bytes_of s' = bytes_of s /\ backup_of s' = backup_of s /\ cs_manager s' = cs_manager s /\ echoed bytes s'.
Proof.
  split_and!; try done. unfold echoed, note_write, take_config_write, note_config_write. simpl.
  by rewrite lookup_insert_eq, String.eqb_refl.
Qed.

Lemma reload_spec rl recover s r s' :
  reload semver_parse semver_le model version rl recover s = (r, s') ->
  cs_dir s' = cs_dir s /\ cs_ledger s' = cs_ledger s.
Proof. unfold reload. destruct (reload_model_inner _ _ _ _ _ _ _). by intros [= <- <-]. Qed.

Lemma rollback_spec p pi s r s' :
  bytes_of s <> None -> rollback default_mode pid p pi s = (r, s') ->
  cs_ledger s' = cs_ledger s /\ backup_of s' = backup_of s /\
  match r with Ok _ => bytes_of s' = pp_original p | Err _ => bytes_of s' = bytes_of s end.
Proof.
  intros Hsome. unfold rollback. destruct (pp_original p) as [bytes|].
  - destruct (write_config _ _ _ _ _) as [rw s2] eqn:Hw. intros [= <- <-].
    apply write_config_spec in Hw as (Hl & _ & Hb & Hr). split_and!; try done. by destruct rw.
  - unfold remove_config. destruct (pi_remove pi) as [e|]; [by intros [= <- <-]|].
    destruct (cs_dir s !! config_yaml) eqn:Hf; intros [= <- <-].
    + unfold bytes_of, backup_of. simpl. rewrite lookup_delete_eq, lookup_delete_ne by done. done.
    + done.
Qed.

Lemma finish_spec p pi reloaded s r s' :
  bytes_of s <> None ->
  finish_apply_reload semver_parse semver_le sha256 default_mode pid repo model version p pi reloaded s = (r, s') ->
  (exists b extra, r = Ok (response p b extra) /\ s' = s)
  \/ (exists msg restored, r = Err (ReloadFailed msg true restored) /\ bytes_of s' = pp_original p /\
       (forall b, pp_original p = Some b -> echoed b s'))
  \/ (exists msg, r = Err (ReloadFailed msg false false) /\ bytes_of s' = bytes_of s).
Proof.
  intros Hsome. unfold finish_apply_reload. destruct reloaded as [[]|e]; [intros [= <- <-]; eauto 6..|].
  destruct (rollback _ _ _ _ _) as [rr s1] eqn:Hrb. apply rollback_spec in Hrb as (_ & _ & Hb); [|done].
  destruct rr as [[]|e']; [|intros [= <- <-]; right; right; eauto].
  set (s2 := match pp_original p with Some bytes => _ | None => s1 end).
  destruct (reload _ _ _ _ _ _ s2) as [r3 s3] eqn:Hr. apply reload_spec in Hr as [Hd Hl]. intros [= <- <-].
  right. left. do 2 eexists. split; [done|]. unfold bytes_of, echoed in *. rewrite Hd, Hl. subst s2. split.
  - by destruct (pp_original p).
  - intros b Hp. rewrite Hp. apply note_write_spec.
Qed.

(** The file after an undisturbed request: as it was, or what was prepared. *)
Lemma patch_bytes pi req s :
  undisturbed pi ->
  bytes_of (snd (patch_config pi req s)) = bytes_of s \/
  exists p, prepare (pi_dir_exists pi) (pi_read pi) req s = Ok (ReadyToWrite p) /\
    bytes_of (snd (patch_config pi req s)) = Some (pp_merged_yaml p).
Proof.
  intros [Hw Hrb]. unfold model_version_config_patch.
  destruct (prepare _ _ req s) as [[rep|p]|e] eqn:Hprep; [by left| |by left].
  apply prepare_ready in Hprep as (Ho & _). rewrite Hw.
  destruct (write_prepared _ _ _ _ _ s) as [[[]|e] s1] eqn:Hwp; apply write_prepared_spec in Hwp as (_ & _ & Hr).
  2: { left. by destruct e. }
  destruct Hr as [Hb _]. set (s2 := note_write _ _ _ _ _ s1). assert (bytes_of s2 = Some (pp_merged_yaml p)) as Hb2 by exact Hb.
  destruct (pr_mode req); [|right; by exists p|].
  all: destruct (reload _ _ _ _ _ _ s2) as [rr s3] eqn:Hre; apply reload_spec in Hre as [Hd3 _]; rewrite Hrb;
    assert (bytes_of s3 = Some (pp_merged_yaml p)) as Hb3 by (unfold bytes_of; by rewrite Hd3);
    destruct (finish_apply_reload _ _ _ _ _ _ _ _ _ _ rr s3) as [r s'] eqn:Hfin; simpl.
  all: apply finish_spec in Hfin as [(? & ? & _ & ->)|[(? & ? & _ & -> & _)|(? & _ & ->)]]; [right|by left|right|by rewrite Hb3];
    by exists p.
Qed.

(** A patch with a placeholder is refused before anything is read or written. *)
Lemma placeholder_refused pi req s :
  redaction_placeholder_path "" (pr_patch req) <> None -> exists e, patch_config pi req s = (Err e, s).
Proof.
  intros Hp. unfold model_version_config_patch, prepare_config_patch. case_goal; [by eexists|].
  unfold patch_allowed. case_goal; [by eexists|]. by destruct (redaction_placeholder_path _ _); [eexists|].
Qed.

(** C35. The placeholder of a secret is never installed as the secret. A PATCH whose
    patch has the placeholder in place of a secret is refused with nothing changed,
    whatever other tasks do; the tree GET shows is found to hold one exactly if GET
    reports something as redacted, and if so any PATCH that sends that tree back is
    refused; and after a PATCH that other tasks do not disturb, of a file whose tree
    has no placeholder in place of a secret, the file is as it was or the printed
    merge of its tree and the patch, which has none either. *)
Theorem patches_install_no_placeholder :
  (forall pi req s, redaction_placeholder_path "" (pr_patch req) <> None ->
     exists e, patch_config pi req s = (Err e, s)) /\
  (forall dir_exists read s0 shown,
     model_version_config_json yaml_parse yaml_value sha256 model version dir_exists read s0 = Ok shown ->
     exists tree paths, Json.get "config" shown = Some tree /\ Json.get "redacted" shown = Some (list_value Str paths) /\
       (redaction_placeholder_path "" tree = None <-> paths = []) /\
       (paths <> [] -> forall pi req s, pr_patch req = tree -> exists e, patch_config pi req s = (Err e, s))) /\
  (forall pi req s, undisturbed pi ->
     (forall tree, patch_base yaml_parse yaml_value (bytes_of s) = Ok tree -> clean "" tree) ->
     let s' := snd (patch_config pi req s) in
     bytes_of s' = bytes_of s \/
     exists tree bytes, patch_base yaml_parse yaml_value (bytes_of s) = Ok tree /\
       yaml_print (merge_patch tree (pr_patch req)) = Ok bytes /\ bytes_of s' = Some bytes /\
       clean "" (merge_patch tree (pr_patch req))).
Proof.
  split_and!.
  - intros pi req s. apply placeholder_refused.
  - intros dir_exists read s0 shown. unfold model_version_config_json. case_goal; [done|].
    destruct (read_config _ _) as [file|]; simpl; [|done]. destruct (shown_tree _ _ _ _ _ _) as [[[c e] h]|]; simpl; [|done].
    pose proof (echo_refused_iff_redacted "" c) as Hecho. destruct (redact_tree _ _ c) as [tree paths]. intros [= <-].
    exists tree, paths. split_and!; [done..|]. intros Hne pi req s Heq. apply placeholder_refused. by rewrite Heq, Hecho.
  - intros pi req s Hu Hclean s'. destruct (patch_bytes pi req s Hu) as [?|(p & Hprep & Hb)]; [by left|right].
    apply prepare_ready in Hprep as (_ & Hp & _ & _ & _ & _ & _ & Hpatch). unfold patched in Hp.
    destruct (patch_base _ _ (bytes_of s)) as [tree|] eqn:Ht; [|done].
    destruct (yaml_print _) as [bytes|] eqn:Hy; [|done]. destruct (is_ok _); [|done]. injection Hp as Heq. rewrite <- Heq in Hb.
    exists tree, bytes. split_and!; [done..|]. apply merge_clean; [exact Hpatch|by apply Hclean].
Qed.

(** C38. One configuration PATCH, undisturbed, is all or nothing, whatever calls
    fail. A success is a dry run that changed nothing, or the merged file is on disk
    under the etag that is answered, the former bytes are in the backup and the
    watcher knows the write. After a failed reload that was rolled back the file
    holds its former bytes and the watcher knows them; if the rollback failed the
    answer says so, and the file is the merged one. Any other error leaves the file,
    the ledger and the models as they were. *)
Theorem patch_all_or_nothing pi req s r s' :
  undisturbed pi -> patch_config pi req s = (r, s') ->
  match r with
  | Ok out =>
      (pr_mode req = DryRun /\ s' = s)
      \/ exists bytes, patched (pr_patch req) (bytes_of s) = Some bytes /\ bytes_of s' = Some bytes /\
           Json.get "etag" out = Some (Str (etag bytes)) /\
           (forall b, bytes_of s = Some b -> backup_of s' = Some b) /\ echoed bytes s'
  | Err (ReloadFailed _ true _) => bytes_of s' = bytes_of s /\ forall b, bytes_of s = Some b -> echoed b s'
  | Err (ReloadFailed _ false restored) =>
      restored = false /\ bytes_of s' = patched (pr_patch req) (bytes_of s) /\ bytes_of s' <> None
  | Err _ => bytes_of s' = bytes_of s /\ cs_ledger s' = cs_ledger s /\ cs_manager s' = cs_manager s
  end.
Proof.
  intros [Hw Hrb]. unfold model_version_config_patch.
  destruct (prepare _ _ req s) as [[rep|p]|e] eqn:Hprep.
  - intros [= <- <-]. left. split; [|done]. revert Hprep. apply prepare_dry_run.
  - apply prepare_ready in Hprep as (Ho & Hp & Hn & _ & _ & _). rewrite Hw.
    destruct (write_prepared _ _ _ _ _ s) as [rw s1] eqn:Hwp. apply write_prepared_spec in Hwp as (Hl & Hm & Hr).
    destruct rw as [[]|e]; [|intros [= <- <-]; by destruct e]. destruct Hr as (Hb & Hbak & _). rewrite Hn.
    set (s2 := note_write _ _ _ _ _ s1). destruct (note_write_spec (pi_written_at pi) (pp_merged_yaml p) s1) as (Hb2 & Hbak2 & _ & He2).
    fold s2 in Hb2, Hbak2, He2. rewrite Hb in Hb2.
    assert (forall b extra s3, cs_dir s3 = cs_dir s2 -> cs_ledger s3 = cs_ledger s2 ->
      exists bytes, patched (pr_patch req) (bytes_of s) = Some bytes /\ bytes_of s3 = Some bytes /\
           Json.get "etag" (response p b extra) = Some (Str (etag bytes)) /\
           (forall b, bytes_of s = Some b -> backup_of s3 = Some b) /\ echoed bytes s3) as Hok.
    { intros b extra s3 Hd3 Hl3. exists (pp_merged_yaml p). unfold bytes_of at 2, backup_of, echoed. rewrite Hd3, Hl3.
      split_and!; try done; [by simpl; rewrite Hn|]. intros b' Hb'. rewrite <- Ho in Hb'. rewrite <- (Hbak b' Hb'). done. }
    destruct (pr_mode req); [|intros [= <- <-]; right; by apply Hok|].
    all: destruct (reload _ _ _ _ _ _ s2) as [rr s3] eqn:Hre; apply reload_spec in Hre as [Hd3 Hl3]; rewrite Hrb; intros Hfin;
      apply finish_spec in Hfin as [(b & extra & -> & ->)|[(msg & restored & -> & Hf & He)|(msg & -> & Hf)]];
      [right; by apply Hok|rewrite <- Ho; done|unfold bytes_of in *; rewrite Hf, Hd3, Hb2, Hp; done
      |unfold bytes_of in *; by rewrite Hd3, Hb2].
  - intros [= <- <-]. apply prepare_before_reload in Hprep. by destruct e.
Qed.
End request.

(** ** Many requests

    Clients prepare, check under the lock and install, in any order; between their steps
    anything may happen that leaves the directory alone (reloads, notes in the ledger).
    [st_log] lists the patches that were installed and [st_seen] the contents the file
    has had. *)

Inductive Phase :=
  | Prepared (p : PreparedPatch) (patch : Value)
  | Checked (p : PreparedPatch) (patch : Value).

Record Shared := {
  st_store : ConfigStore;
  st_lock : option nat;                 (** the holder of the path's lock *)
  st_clients : gmap nat Phase;
  st_log : list Value;
  st_seen : list string;
}.

Section serial.
Context {Y : Type} (yaml_parse : string -> result string Y) (yaml_value : Y -> result string Value)
  (yaml_print : Value -> result string string).
Context (env : string -> option string) (from_yaml : string -> result string ModelConfig).
Context (sha256 : string -> list Z).
Context (default_mode pid : Z) (model version : string).

Abbreviation etag := (content_etag sha256).
Abbreviation prepare := (prepare_config_patch yaml_parse yaml_value yaml_print env from_yaml sha256 model version).
Abbreviation patched := (patched yaml_parse yaml_value yaml_print env from_yaml).

Inductive step : Shared -> Shared -> Prop :=
  | step_prepare st i dir_exists read req p :
      st_clients st !! i = None -> conditional req = true ->
      prepare dir_exists read req (st_store st) = Ok (ReadyToWrite p) ->
      step st {| st_store := st_store st; st_lock := st_lock st;
                 st_clients := <[i := Prepared p (pr_patch req)]> (st_clients st);
                 st_log := st_log st; st_seen := st_seen st |}
  | step_check st i p patch reread :
      st_clients st !! i = Some (Prepared p patch) -> st_lock st = None ->
      recheck sha256 p reread (cs_dir (st_store st)) = Ok tt ->
      step st {| st_store := st_store st; st_lock := Some i;
                 st_clients := <[i := Checked p patch]> (st_clients st);
                 st_log := st_log st; st_seen := st_seen st |}
  | step_refuse st i p patch reread e :
      st_clients st !! i = Some (Prepared p patch) -> st_lock st = None ->
      recheck sha256 p reread (cs_dir (st_store st)) = Err e ->
      step st {| st_store := st_store st; st_lock := None; st_clients := delete i (st_clients st);
                 st_log := st_log st; st_seen := st_seen st |}
  | step_install st i p patch backup backup_mode w r s' :
      st_clients st !! i = Some (Checked p patch) ->
      install default_mode pid p backup backup_mode w (st_store st) = (r, s') ->
      step st {| st_store := s'; st_lock := None; st_clients := delete i (st_clients st);
                 st_log := if is_ok r then (st_log st ++ [patch])%list else st_log st;
                 st_seen := if is_ok r then pp_merged_yaml p :: st_seen st else st_seen st |}
  | step_other st s' :
      cs_dir s' = cs_dir (st_store st) ->
      step st {| st_store := s'; st_lock := st_lock st; st_clients := st_clients st;
                 st_log := st_log st; st_seen := st_seen st |}.

(** The file after the patches, one after the other. *)
Definition one_after_the_other (b0 : string) (log : list Value) : option string :=
  foldl (fun file patch => patched patch file) (Some b0) log.

(** Two contents of the file that share an etag. *)
Definition collision (seen : list string) : Prop :=
  exists a b, a ∈ seen /\ b ∈ seen /\ a <> b /\ etag a = etag b.

(** A patch that waits was merged into a content of the file, and will be checked against
    its etag. *)
Definition merged_into_seen (p : PreparedPatch) (patch : Value) (seen : list string) : Prop :=
  exists base, base ∈ seen /\ patched patch (Some base) = Some (pp_merged_yaml p) /\ pp_expected_etag p = Some (etag base).

Definition phase_ok (st : Shared) (i : nat) (ph : Phase) : Prop :=
  match ph with
  | Prepared p patch => merged_into_seen p patch (st_seen st)
  | Checked p patch =>
      merged_into_seen p patch (st_seen st) /\ st_lock st = Some i /\
      etag <$> bytes_of (st_store st) = pp_expected_etag p
  end.

(** The content is one of those seen and, without a collision, what the installed patches
    make of the first one. *)
Record serial_inv (b0 : string) (st : Shared) : Prop := {
  inv_seen : exists b, bytes_of (st_store st) = Some b /\ b ∈ st_seen st;
  inv_phases : map_Forall (phase_ok st) (st_clients st);
  inv_serial : collision (st_seen st) \/ bytes_of (st_store st) = one_after_the_other b0 (st_log st);
}.

Lemma collision_mono seen seen' : seen ⊆ seen' -> collision seen -> collision seen'.
Proof. intros Hs (a & b & Ha & Hb & Hab). exists a, b. split_and!; try apply Hs; tauto. Qed.

Lemma merged_into_mono p patch seen seen' : seen ⊆ seen' -> merged_into_seen p patch seen -> merged_into_seen p patch seen'.
Proof. intros Hs (b & Hb & H). exists b. by split; [apply Hs|]. Qed.

(** What another client's step preserves: the phases of a client that does not hold the
    lock, for more contents seen. *)
Lemma phases_without_lock st st' i :
  map_Forall (phase_ok st) (st_clients st) -> st_lock st = Some i \/ st_lock st = None ->
  st_clients st' = delete i (st_clients st) -> st_seen st ⊆ st_seen st' ->
  map_Forall (phase_ok st') (st_clients st').
Proof.
  intros Hph Hl Hc Hs j ph Hj. rewrite Hc in Hj. apply lookup_delete_Some in Hj as [Hne Hj].
  specialize (Hph j ph Hj). destruct ph as [p patch|p patch]; simpl in *; [by eapply merged_into_mono|].
  destruct Hph as (_ & Hlj & _). destruct Hl; congruence.
Qed.

Lemma serial_step_inv b0 st st' : serial_inv b0 st -> step st st' -> serial_inv b0 st'.
Proof.
  intros [(b & Hb & Hin) Hph Hser] Hstep.
  destruct Hstep as [st i dir read req p Hi Hcond Hprep|st i p patch reread Hi Hl Hc|st i p patch reread e Hi Hl Hc
                    |st i p patch backup bm w r s' Hi Hinst|st s' Hd]; simpl in *.
  - apply prepare_ready in Hprep as (_ & Hp & _ & _ & _ & He & _). rewrite Hb in Hp. rewrite Hcond, Hb in He.
    split; simpl; [by exists b| |done]. apply map_Forall_insert_2; [|done]. exists b. by split_and!.
  - split; simpl; [by exists b| |done]. intros j ph Hj. destruct (decide (j = i)) as [->|Hne].
    + rewrite lookup_insert_eq in Hj. injection Hj as <-. pose proof (Hph i _ Hi) as Hm. simpl in *. split_and!; try done.
      destruct Hm as (base & _ & _ & He). rewrite He. unfold recheck in Hc. rewrite He in Hc. unfold read_config in Hc.
      destruct reread; simpl in Hc; [done|]. fold (bytes_of (st_store st)) in Hc. by case_bool_decide.
    + rewrite lookup_insert_ne in Hj by done. pose proof (Hph j _ Hj) as Hm. destruct ph; simpl in *; [done|].
      destruct Hm as (_ & Hlj & _). congruence.
  - split; simpl; [by exists b| |done]. eapply (phases_without_lock st); simpl; [done|by right|done|done].
  - pose proof (Hph i _ Hi) as (Hm & Hl & He). simpl in *. destruct Hm as (base & Hbase & Hp & He').
    apply install_spec in Hinst as (_ & _ & Hr). rewrite He', Hb in He. injection He as He.
    destruct r as [[]|e]; simpl.
    + destruct Hr as [Hnew _]. assert (forall P, P ⊆ pp_merged_yaml p :: P) as Hsub by (intros ???; by right).
      split; simpl; [exists (pp_merged_yaml p); split; [done|by left]| |].
      * eapply (phases_without_lock st); simpl; [done|by left|done|by apply Hsub].
      * destruct (decide (b = base)) as [<-|Hne].
        -- destruct Hser as [Hcol|Hser]; [left; by eapply collision_mono; [apply Hsub|]|right].
           unfold one_after_the_other in *. rewrite foldl_snoc, <- Hser, Hb, Hp. done.
        -- left. exists b, base. split_and!; [by right|by right|done|done].
    + assert (bytes_of s' = bytes_of (st_store st)) as Heq by (by destruct e).
      split; simpl; [exists b; by rewrite Heq| |by rewrite Heq].
      eapply (phases_without_lock st); simpl; [done|by left|done|done].
  - assert (bytes_of s' = bytes_of (st_store st)) as Heq by (unfold bytes_of; by rewrite Hd).
    split; simpl; [exists b; by rewrite Heq| |by rewrite Heq].
    intros j ph Hj. pose proof (Hph j ph Hj) as Hm. destruct ph; simpl in *; [done|]. by rewrite Heq.
Qed.

(** C36. Conditional patches are serialised: in every interleaving of clients that
    prepare, check under the lock and install, with any write faults, the file is
    what the patches that were installed make of the first content, one after the
    other in the order of their installation, unless two contents of the file share
    an etag. *)
Theorem conditional_patches_serialise s b0 st :
  bytes_of s = Some b0 ->
  rtc step {| st_store := s; st_lock := None; st_clients := ∅; st_log := []; st_seen := [b0] |} st ->
  collision (st_seen st) \/ bytes_of (st_store st) = one_after_the_other b0 (st_log st).
Proof.
  intros Hs Hrun. apply (inv_serial b0). remember {| st_store := s |} as st0 eqn:H0.
  assert (serial_inv b0 st0) as Hinv.
  { subst st0. split; simpl; [exists b0; split; [done|by left]|apply map_Forall_empty|by right]. }
  clear H0. induction Hrun as [|x y z Hxy _ IH]; [done|]. apply IH. by eapply serial_step_inv.
Qed.
End serial.

(** ** Examples

    A file holds the model's name, and the digest of a content is its bytes. *)

Definition toy_value (y : string) : result string Value :=
  Ok (if bool_decide (y = "") then Null else Object [("name", Str y)]).

Definition toy_print (v : Value) : result string string :=
  match Json.get "name" v with Some (Str s) => Ok s | _ => Err "no name" end.

Fixpoint codes (s : string) : list Z :=
  match s with EmptyString => [] | String c s => char_code c :: codes s end.

Definition toy_repo : Validation.path := [RootDir; Normal "repo"].

Abbreviation toy_patch :=
  (model_version_config_patch major_only Nat.leb Ok toy_value toy_print (fun _ => None) (fun _ => Ok ModelConfig_default)
     codes 420 7 toy_repo "m" "1").

Definition rename_to (name : string) (if_match : option string) (mode : ConfigPatchMode) : ConfigPatchRequest :=
  {| pr_patch := Object [("name", Str name)]; pr_if_match := if_match; pr_force := false; pr_mode := mode |}.

Definition toy_store : ConfigStore :=
  {| cs_dir := {[ config_yaml := {| f_bytes := "old"; f_mode := 384 |} ]}; cs_counter := 0; cs_ledger := ∅; cs_manager := canary |}.

(** No fault; the reload runs into workers that do not answer, the second one succeeds. *)
Definition toy_input : PatchInput :=
  {| pi_dir_exists := true; pi_read := None; pi_before_write := fun s => s; pi_reread := None; pi_backup := None;
     pi_backup_mode := false; pi_write := no_write_faults; pi_written_at := 0;
     pi_reload := {| rl_dir := Ok true; rl_config := Ok tt; rl_new := handshake_fails; rl_old := two_workers |};
     pi_before_rollback := fun s => s; pi_rollback := no_write_faults; pi_remove := None; pi_rolled_back_at := 0;
     pi_recover := plain_reload |}.

Example toy_reload_fails :
  match toy_patch toy_input (rename_to "new" None ApplyReload) toy_store with
  | (Err (ReloadFailed _ true restored), s) => restored = true /\ bytes_of s = Some "old" /\ backup_of s = Some "old"
  | _ => False
  end.
Proof. vm_compute. repeat split. Qed.

(** While the reload of one patch fails, another client patches the file, naming the etag
    it has just read, and is told that its patch is written; the rollback then overwrites
    it. *)
Definition other_client (s : ConfigStore) : result ConfigPatchError Value * ConfigStore :=
  toy_patch toy_input (rename_to "theirs" (content_etag codes <$> bytes_of s) WriteOnly) s.

Definition overtaken : PatchInput :=
  {| pi_dir_exists := true; pi_read := None; pi_before_write := fun s => s; pi_reread := None; pi_backup := None;
     pi_backup_mode := false; pi_write := no_write_faults; pi_written_at := 0; pi_reload := pi_reload toy_input;
     pi_before_rollback := fun s => snd (other_client s); pi_rollback := no_write_faults; pi_remove := None;
     pi_rolled_back_at := 0; pi_recover := plain_reload |}.

Theorem rollback_undoes_other_patch :
  let mid := snd (toy_patch overtaken (rename_to "new" None WriteOnly) toy_store) in
  let '(theirs, after) := other_client mid in
  let '(r, s) := toy_patch overtaken (rename_to "new" (content_etag codes <$> bytes_of toy_store) ApplyReload) toy_store in
  is_ok theirs = true /\ bytes_of after = Some "theirs" /\ is_ok r = false /\ bytes_of s = Some "old".
Proof. vm_compute. repeat split. Qed.

(** The first reload finds nothing to load and leaves the version unregistered; the
    recovering one then answers that there is nothing to reload, and the PATCH reports the
    service as restored. *)
Definition nothing_to_load : LoadInput :=
  {| li_config := Ok tt; li_dir := Ok true; li_source := NoSource; li_queue_config := no_config;
     li_ejection := no_ejection; li_devices := Ok 2%nat; li_before_evict := fun m => m; li_evicting := [];
     li_before_register := fun m => m; li_handshakes := Ok [a_worker; a_worker];
     li_other := fun _ _ m => m; li_before_queue := fun m => m; li_warmup := None;
     li_before_ready := fun m => m; li_offsets := fun _ => 0; li_coordinated := true; li_now := 1 |}.

Definition vanished_source : PatchInput :=
  {| pi_dir_exists := true; pi_read := None; pi_before_write := fun s => s; pi_reread := None; pi_backup := None;
     pi_backup_mode := false; pi_write := no_write_faults; pi_written_at := 0;
     pi_reload := {| rl_dir := Ok true; rl_config := Ok tt; rl_new := nothing_to_load; rl_old := nothing_to_load |};
     pi_before_rollback := fun s => s; pi_rollback := no_write_faults; pi_remove := None; pi_rolled_back_at := 0;
     pi_recover := {| rl_dir := Ok true; rl_config := Ok tt; rl_new := nothing_to_load; rl_old := nothing_to_load |} |}.

Theorem restored_without_service :
  match toy_patch vanished_source (rename_to "new" None ApplyReload) toy_store with
  | (Err (ReloadFailed _ rolled_back restored), s) =>
      restored = true /\ registry_get "m" (Some "1") (registry (cs_manager s)) = None
  | _ => False
  end.
Proof. vm_compute. repeat split. Qed.

(** The mode of the file cannot be copied: the patch succeeds all the same, and the file
    that was its owner's alone can be read by everyone. *)
Definition chmod_fails : WriteFaults :=
  {| wf_create := None; wf_write := None; wf_flush := None; wf_sync := None; wf_metadata := false; wf_chmod := true;
     wf_rename := None; wf_remove := false |}.

Theorem failed_chmod_widens_mode :
  let pi := {| pi_dir_exists := true; pi_read := None; pi_before_write := fun s => s; pi_reread := None; pi_backup := None;
               pi_backup_mode := false; pi_write := chmod_fails; pi_written_at := 0; pi_reload := plain_reload;
               pi_before_rollback := fun s => s; pi_rollback := no_write_faults; pi_remove := None; pi_rolled_back_at := 0;
               pi_recover := plain_reload |} in
  let '(r, s) := toy_patch pi (rename_to "new" None WriteOnly) toy_store in
  is_ok r = true /\ f_mode <$> cs_dir toy_store !! config_yaml = Some 384 /\ f_mode <$> cs_dir s !! config_yaml = Some 420.
Proof. vm_compute. repeat split. Qed.

Lemma all_or_nothing_witness :
  bytes_of (snd (toy_patch toy_input (rename_to "new" None ApplyReload) toy_store)) = Some "old".
Proof.
  destruct (toy_patch toy_input (rename_to "new" None ApplyReload) toy_store) as [r s'] eqn:Hrun.
  pose proof (patch_all_or_nothing major_only Nat.leb Ok toy_value toy_print (fun _ => None) (fun _ => Ok ModelConfig_default)
                codes 420 7 toy_repo "m" "1" toy_input (rename_to "new" None ApplyReload) toy_store r s'
                (conj (fun _ => eq_refl) (fun _ => eq_refl)) Hrun) as H.
  assert (match fst (toy_patch toy_input (rename_to "new" None ApplyReload) toy_store) with
          | Err (ReloadFailed _ true _) => True | _ => False end) as Hr by (vm_compute; exact I).
  rewrite Hrun in Hr. simpl in Hr. destruct r as [out|[e|e|m w|m [] b]]; try destruct Hr. exact (proj1 H).
Defined.

(** A file holds a secret, which is shown masked; what is shown, sent back, is refused. *)
Definition key_value (y : string) : result string Value := Ok (Object [("api_key", Str y)]).

Lemma no_placeholder_witness :
  exists e, model_version_config_patch major_only Nat.leb Ok key_value toy_print (fun _ => None) (fun _ => Ok ModelConfig_default)
    codes 420 7 toy_repo "m" "1" toy_input
    {| pr_patch := Object [("api_key", Str "***")]; pr_if_match := None; pr_force := true; pr_mode := ApplyReload |} toy_store
    = (Err e, toy_store).
Proof.
  destruct (model_version_config_json Ok key_value codes "m" "1" true None toy_store) as [shown|] eqn:Hget;
    vm_compute in Hget; [|discriminate].
  destruct (proj1 (proj2 (patches_install_no_placeholder major_only Nat.leb Ok key_value toy_print (fun _ => None)
    (fun _ => Ok ModelConfig_default) codes 420 7 toy_repo "m" "1")) true None toy_store shown Hget)
    as (tree & paths & Htree & Hpaths & _ & Hecho).
  injection Hget as <-. vm_compute in Htree, Hpaths. injection Htree as <-.
  apply Hecho; [|reflexivity]. intros ->. discriminate Hpaths.
Defined.

(** Two clients prepare against the same content; the first installs its patch, the second
    is refused. *)
Lemma serialise_witness :
  exists st, bytes_of (st_store st) = Some "new" /\
    (collision codes (st_seen st) \/
     bytes_of (st_store st) = one_after_the_other Ok toy_value toy_print (fun _ => None) (fun _ => Ok ModelConfig_default)
       "old" (st_log st)).
Proof.
  pose (req := rename_to "new" (Some (content_etag codes "old")) WriteOnly).
  assert (exists st, bytes_of (st_store st) = Some "new" /\
    rtc (step Ok toy_value toy_print (fun _ => None) (fun _ => Ok ModelConfig_default) codes 420 7 "m" "1")
      {| st_store := toy_store; st_lock := None; st_clients := ∅; st_log := []; st_seen := ["old"] |} st) as (st & Hst & Hrun).
  { eexists. split; cycle 1.
    - eapply rtc_l; [by apply (step_prepare _ _ _ _ _ _ _ _ _ _ _ 0%nat true None req)|].
      eapply rtc_l; [by apply (step_prepare _ _ _ _ _ _ _ _ _ _ _ 1%nat true None req)|].
      eapply rtc_l; [by eapply (step_check _ _ _ _ _ _ _ _ _ _ _ 0%nat _ _ None)|].
      eapply rtc_l; [by eapply (step_install _ _ _ _ _ _ _ _ _ _ _ 0%nat _ _ None false no_write_faults)|].
      eapply rtc_l; [by eapply (step_refuse _ _ _ _ _ _ _ _ _ _ _ 1%nat _ _ None)|]. apply rtc_refl.
    - by vm_compute. }
  exists st. split; [exact Hst|].
  exact (conditional_patches_serialise Ok toy_value toy_print (fun _ => None) (fun _ => Ok ModelConfig_default) codes 420 7 "m" "1"
           toy_store "old" st eq_refl Hrun).
Defined.
